(* ===== verification/_CoqProject ===== *)
-Q . S2P
Prelude.v
GoBytes.v
Sha256.v
Json.v
Routing.v
Refusal.v
Faults.v
Store.v
Queue.v
Codec.v
QueueInv.v
QueueOps.v
QueueDir.v
Probe.v
Load.v
QueueLife.v
QueueSpec.v
QueueRefine.v
QueueShares.v
SigningClock.v
Custody.v
Courier.v
Contracts.v
Heap.v
Replay.v
MqttAuth.v
MqttAuthSpec.v
Worker.v
WorkerSys.v
Status.v
WorkerSpec.v
Returns.v
ReturnsSpec.v
Ingress.v
IngressSpec.v
Channel.v
StateClock.v
GatewayState.v
Site.v
SiteSpec.v
SiteBeat.v
SiteBeatSpec.v
AsyncLog.v
Float64.v
FloatBounds.v
TokenBucket.v
Requests.v
RequestsSpec.v
Dispatcher.v
DispatcherSpec.v
Enrichment.v
Encryption.v
HealthRead.v
ExportData.v
RuntimeClient.v
RuntimeClientSpec.v
Session.v
BrokerIngress.v
BrokerIngressSpec.v
BrokerLog.v
Broker.v
PacerSpec.v
NetAddr.v
Webhook.v
WebhookSpec.v
Config.v
ConfigSpec.v
RequestPool.v
RequestPoolSpec.v
Heartbeat.v
HeartbeatSpec.v
Process.v
ProcessSpec.v
Trust.v
Peripherals.v
Providers.v
Reporting.v
ReportingSpec.v
Run.v
RunSpec.v
