(* ===== verification/Prelude.v ===== *)
(** * ori-gateway: a verification development of the gateway

    ** The program

    The gateway stands between device runtimes, which speak MQTT to it, and an
    evidence authority, which it reaches over HTTPS. It is a blind courier: it
    carries signed artifacts it cannot forge and reads only their routing
    members. A carriage that arrives from a runtime is authenticated
    (mqttauth), judged and admitted to a durable queue (courier), and answered
    with a signed acknowledgement and, for a delivery envelope, with a custody
    acknowledgement (custody) staged on a second durable queue. The delivery
    worker offers the head of each lane of the first queue to the authority
    through the channel, and acts on the answer by the refusal policy: it
    retires, holds or backs off, and stages what the authority returned on the
    second queue. The return publisher publishes the head of that queue to the
    runtime until the runtime's authenticated acknowledgement retires or holds
    it. Every envelope the gateway signs takes its signing time from a clock
    whose mark is durable, so that receivers' replay rules stay satisfied
    across restarts.

    Around the courier the gateway answers runtimes' reasoning and enrichment
    requests with a language model (dispatcher, enrichment, provider), reads
    bounded exports from them (runtimeclient), forwards providers' webhooks to
    them (webhookbridge), keeps the site's health (site), publishes its own
    heartbeat (heartbeat) and makes weekly reports (reporting). Every MQTT
    message passes a gate of the broker client (broker) first; the process
    (cmd/ori-gateway) wires the parts from a configuration (config), runs
    handlers off the broker's callbacks in bounded pools and decides when to
    stop.

    ** Which file models which part

    - [Prelude]: results and errors, the error monad over a state, 64-bit
      integers, generic lemmas and tactics. [GoBytes], [Sha256], [Json]: what
      the sources use of the Go standard library, executable.
    - [Store]: a directory under failing system calls and crashes
      (internal/evidence/durable, the atomic writers).
    - [Routing], [Refusal], [Faults], [Custody]: the packages of these names
      under internal/evidence (routing.go is the courier's).
    - [Queue], [Codec], [QueueInv], [QueueOps], [QueueDir], [Probe], [Load],
      [QueueLife], [QueueSpec], [QueueRefine], [QueueShares]: the durable queue
      (courier/queue.go, hold.go, probe.go). [Queue.qst] is the queue, its
      directory and the shared fault recorder; one definition per method.
      [QueueLife] is the step relation of its whole life, crashes and
      reopenings included; [QueueRefine] its abstraction to an ordered list.
    - [SigningClock]: the clock of one family of evidence messages
      (evidence/signingclock). [Courier]: courier.go.
    - [Worker], [WorkerSys], [Status], [WorkerSpec]: worker.go. An attempt is
      two halves, before and after the channel answers; [WorkerSys] interleaves
      the lanes, admissions and handoffs as steps.
    - [Channel]: channel.go, one HTTPS request and the reading of its answer.
    - [Returns], [ReturnsSpec]: return_queue.go and return_publisher.go.
      [Ingress], [IngressSpec]: runtime_ingress.go, over both queues, the lanes
      and the publisher, wired as cmd/ori-gateway/app.go wires them.
    - [Contracts]: topics, payload families and the member table
      (contracts.go, payload_size.go, payload_members.go).
    - [Heap], [Replay], [MqttAuth], [MqttAuthSpec]: mqttauth/replay.go and
      mqttauth.go, with [container/heap] as Go has it.
    - [StateClock], [GatewayState]: mqttauth/signingclock.go and the state
      directory its mark lives in (gatewaystate). The clock is proved against
      the class [StateClock.DurableMark]; [GatewayState.gateway_mark] is the
      instance that discharges it over directories that fail and crash.
    - [Site], [SiteSpec]: the registry of runtime nodes, the memory of their
      chain heads, eviction and the health projection (site/site.go,
      evidence.go, degradation.go, health.go). [SiteBeat], [SiteBeatSpec]: the
      heartbeat handler that feeds it (heartbeat.go, members.go).
    - [AsyncLog]: the log queue and its drainer (asynclog); the note log of
      runtimeclient/notes.go has the same shape.
    - [Float64], [FloatBounds], [TokenBucket]: binary64 as the sources compute
      with it, its decimal forms, and what rounding can add to a token bucket.
    - [Requests], [RequestsSpec]: the two request families and their responses
      (contracts.go, tier_c_enrichment.go). [Dispatcher], [DispatcherSpec]:
      dispatcher.go, handlers interleaved as steps. [Enrichment]: handler.go.
      [Session]: session.go.
    - [Encryption]: mqttauth/encryption.go. [HealthRead], [ExportData],
      [RuntimeClient], [RuntimeClientSpec], [PacerSpec]: the export client
      (runtimeclient/health.go, types.go, mqtt.go), pages and messages
      interleaved as steps.
    - [BrokerIngress], [BrokerIngressSpec], [BrokerLog], [Broker]: the broker
      client and the gate of every subscription (broker/broker.go, ingress.go).
    - [NetAddr], [Webhook], [WebhookSpec]: webhookbridge/limit.go, bridge.go.
    - [Config], [ConfigSpec]: config.go, from the decoded file to what the
      components are given. [Trust]: courier/trust.go.
    - [RequestPool], [RequestPoolSpec]: cmd/ori-gateway/requests.go and the
      callback gates of app.go, goroutines as threads of a step relation.
      [Heartbeat], [HeartbeatSpec]: heartbeat/*.go. [Process], [ProcessSpec]:
      the decisions app.go makes itself. [Run], [RunSpec]: [runGateway] as a
      program over the trace of what it opens, starts, stops and joins.
    - [Providers], with the modules [HttpClient], [Providers] and
      [ProvidersSpec]: provider/*.go, the reasoning providers and their factory. [Reporting], [ReportingSpec]:
      reporting/*.go. [Peripherals]: sim.go, fleet.go, healthhandler.go's
      ServeHTTP and version.go.

    ** What the theorems show

    - The queue: its invariant on every branch of every operation; nothing
      listed is lost by a crash, nothing retired comes back; it refines an
      ordered list; the record formats round trip; a foreign directory is
      refused; a configured device's registration is always admitted.
    - Delivery: artifacts are offered in order, retired only when the authority
      accepted exactly them and what came back is durable, never re-offered
      once held, and never earlier than a back-off allows; the channel reports
      acceptance only for the digest of the bytes sent.
    - The way back and the ingress: acknowledgements are truthful, a return
      leaves only by an authenticated decision, a carriage of a device that is
      not configured changes nothing, and wakes are confined to their device.
    - Envelopes: a verified envelope carries the MAC of its own fields, signing
      inputs are unambiguous, signing and verifying round trip, each envelope
      is applied at most once over the life of a verifier, and the replay
      memory is bounded.
    - Site health: a heartbeat is recorded only as its bytes' one reading says;
      critical is never folded by silence, eviction or clocks; healthy means
      that everything the projection rests on is; the bounded memory of chain
      heads says what the whole history of reports says.
    - Logging: bounded, in order, every record written or counted, and the
      drainer ends.
    - Clocks: no signing time repeats across restarts, whatever the wall clock
      does; a caller waits only for a write that is outstanding.
    - Requests: every request that enters a dispatcher is answered exactly
      once, correlated, signed and within the topic's maximum, however handlers
      interleave; what the configured provider answers is what is forwarded,
      or the error that names its failure.
    - Exports: a response reaches only its own request, verified and in time; an
      export that returns rows returns all of them; requests are bounded and
      paced; sealing and opening payloads round trip.
    - Volume: in any window the messages and bytes a device passes, the exports
      asked of it and the webhooks forwarded are bounded by burst and rate up to
      a stated rounding slack; no sender starves a configured device; pools
      hold no more than their allowance.
    - The process: what the loader accepts the courier takes; state and queue
      directories are apart and secrets separate; trust roots come only from
      files nobody else can replace; every run opens, starts, stops, joins and
      releases in order, whatever fails in it; the request pools and the posture
      fetches are joined; the heartbeat gives up exactly at its limit.
    - Reports: the next run is the next due instant where the zone's offset is
      fixed, and later than now in any zone; a report is made of the exports of
      one sound window; its file stays in its directory; every deliverer has its
      turn.

    ** Conventions, bounds and fuel

    Go strings and byte slices are both [string]. Machine integers are [Z] with
    [wrap64] where the source's arithmetic can leave 64 bits. A mutex-guarded
    method is one state transformer; goroutines are steps of a relation. Every
    system call consumes one outcome of the directory's list, so every failure
    at every point is a case of each theorem; past the end of the list calls
    succeed. Clock readings are arguments. Fuel appears only where the
    recursion is not structural: the JSON reader's is the length of its input
    and the nesting limit of encoding/json, the decimal writer's twenty digits
    of a 64-bit magnitude, temporary names' the number of names in use, heap
    sifting's the size of the heap; each is shown or evidently enough.

    Further fuel: the digits of a float64 (seventeen are always enough), the
    directories above a path (its components, [Trust.checkTrustPath_spec]), PEM
    blocks (the bytes of the bundle, [Trust.parseBlocks_complete]) and the
    underscores of a slug (its length, [ReportingSpec.collapse_spec]).

    Code of other repositories and of services is a parameter or an input: the
    canonical JSON package, AES-GCM, the shape of a YAML file, [url.Parse], PEM
    and X.509 decoding, the zone database, the digits table of package unicode,
    the JSON encoders of provider requests and report files, the MQTT library's
    tokens and callbacks, the answers of HTTP servers and providers. Documented
    properties the theorems use of them are hypotheses, and the witnesses
    instantiate them. What the machine gives for a float64 outside the range of
    int64 is a parameter too; a product and a sum are taken not to be fused. Hash
    collisions are excluded where a theorem says so. Error values keep their
    identity where code tests it and their text otherwise, without the wrapped
    detail. Log records are modelled only where the rate of a log is what the
    code is about.

    ** Not modelled

    Loops that only move bytes between a library and a modelled handler: the
    HTTP servers' listeners and shutdown (webhookbridge, healthhandler.go), the
    draining of refused response bodies, flag parsing and the defaults of
    injected dependencies (app.go), the copying of provider metadata, which
    values do not need. Deadlines of contexts are inputs: a step either ends in
    time or fails as expired. Test support: runtimeclient/fake.go,
    contracts/membertest, specvectors. *)
From Stdlib Require Export ZArith Ascii Lia.
From stdpp Require Export base gmap strings list sorting.

#[global] Open Scope Z_scope.

(** ** Go results

    A Go function that returns [(T, error)] returns a [res T]; the handful of
    functions whose value is read although the error is set return a pair. *)

(** The error values that callers tell apart with
    [errors.Is] or [errors.AsType]; every other error is [EMsg] with its text. *)
Inductive error : Type :=
| EMsg (msg : string)
| ErrQueueFull (limit : string)
| ErrArtifactNotFound
| ErrUnconfiguredDevice
| errCustodyConstruction (cause : error)
| MemberRuleError (reason : string)
| errAuthorityArtifactOverMaximum
| errInboundOverMaximum
| errQueuedArtifactNotCanonical
| errInboundRefusedByMemberRule
| UnrecognisedInboundReason (reason : string)
| DegradationError (verdict : string)
| errUnauthenticated (cause : error)
| ErrPublishResponse (cause : error)
| ErrRequestInFlight
| ErrExportTimeout.

Inductive res (A : Type) : Type :=
| Ok (a : A)
| Err (e : error).
Arguments Ok {A} a.
Arguments Err {A} e.

#[global] Instance error_eq_dec : EqDecision error.
Proof. solve_decision. Defined.

#[global] Instance res_eq_dec {A} `{EqDecision A} : EqDecision (res A).
Proof. solve_decision. Defined.

Definition is_ok {A} (r : res A) : bool := match r with Ok _ => true | Err _ => false end.

(** ** State and error

    Stateful code is a function from the state to a result and the new state.
    An error keeps the state reached so far, as Go does: nothing is undone. *)
Definition EM (S A : Type) : Type := S → res A * S.

Definition eret {S A} (a : A) : EM S A := λ s, (Ok a, s).
Definition efail {S A} (e : error) : EM S A := λ s, (Err e, s).
Definition ebind {S A B} (m : EM S A) (k : A → EM S B) : EM S B := λ s,
  match m s with
  | (Ok a, s') => k a s'
  | (Err e, s') => (Err e, s')
  end.

Declare Scope em_scope.
Delimit Scope em_scope with em.
Notation "x <- m ;; k" := (ebind m (λ x, k))
  (at level 100, m at next level, right associativity) : em_scope.
Notation "m ;;; k" := (ebind m (λ _, k))
  (at level 100, right associativity) : em_scope.

Lemma ebind_ok {S A B} (m : EM S A) (k : A → EM S B) s b s' :
  ebind m k s = (Ok b, s') ↔ ∃ a s1, m s = (Ok a, s1) ∧ k a s1 = (Ok b, s').
Proof.
  unfold ebind. destruct (m s) as [[a|e] s1]; split; intros H;
    repeat match goal with H : ∃ _, _ |- _ => destruct H | H : _ ∧ _ |- _ => destruct H end;
    simplify_eq; eauto.
Qed.

Lemma ebind_inv {S A B} (m : EM S A) (k : A → EM S B) s r s' :
  ebind m k s = (r, s') →
  (∃ a s1, m s = (Ok a, s1) ∧ k a s1 = (r, s')) ∨
  (∃ e, m s = (Err e, s') ∧ r = Err e).
Proof. unfold ebind. destruct (m s) as [[a|e] s1]; intros H; simplify_eq; eauto. Qed.

(** ** Machine integers

    [int64] arithmetic wraps at 64 bits, two's complement. *)
Definition i64_min : Z := - 2 ^ 63.
Definition i64_max : Z := 2 ^ 63 - 1.
Definition wrap64 (x : Z) : Z := (x + 2 ^ 63) mod 2 ^ 64 - 2 ^ 63.
Definition in_i64 (x : Z) : Prop := i64_min ≤ x ≤ i64_max.

Lemma wrap64_id x : in_i64 x → wrap64 x = x.
Proof.
  unfold in_i64, i64_min, i64_max, wrap64. intros H.
  rewrite Z.mod_small; lia.
Qed.

Lemma wrap64_range x : in_i64 (wrap64 x).
Proof.
  unfold in_i64, i64_min, i64_max, wrap64.
  pose proof (Z.mod_pos_bound (x + 2 ^ 63) (2 ^ 64)). lia.
Qed.

(** The wire-safe integer bound, [custody.MaxSafeInteger]. *)
Definition MaxSafeInteger : Z := 9007199254740991.

(** ** Sums over lists *)
Definition zsum {A} (f : A → Z) (l : list A) : Z := foldr (λ x acc, f x + acc) 0 l.

Section Zsum.
Context {A : Type}.
Implicit Types (f g : A → Z) (l : list A).

Lemma zsum_cons f x l : zsum f (x :: l) = f x + zsum f l.
Proof. done. Qed.

Lemma zsum_app f l1 l2 : zsum f (l1 ++ l2) = zsum f l1 + zsum f l2.
Proof. induction l1 as [|x l1 IH]; [done|]. cbn [app]. rewrite !zsum_cons. lia. Qed.

#[global] Instance zsum_perm f : Proper ((≡ₚ) ==> (=)) (zsum f).
Proof. intros l1 l2 H. induction H; rewrite ?zsum_cons; lia. Qed.

Lemma zsum_ext f g l : (∀ x, x ∈ l → f x = g x) → zsum f l = zsum g l.
Proof.
  induction l as [|x l IH]; intros H; [done|]. rewrite !zsum_cons.
  rewrite (H x) by set_solver. f_equal. apply IH. set_solver.
Qed.

Lemma zsum_le f g l : (∀ x, x ∈ l → f x ≤ g x) → zsum f l ≤ zsum g l.
Proof.
  induction l as [|x l IH]; intros H; [done|]. rewrite !zsum_cons.
  pose proof (H x ltac:(set_solver)). pose proof (IH ltac:(set_solver)). lia.
Qed.

Lemma zsum_zero l : zsum (λ _ : A, 0) l = 0.
Proof. induction l as [|x l IH]; [done|]. rewrite zsum_cons. lia. Qed.

Lemma zsum_nonneg f l : (∀ x, x ∈ l → 0 ≤ f x) → 0 ≤ zsum f l.
Proof. intros H. rewrite <-(zsum_zero l). by apply zsum_le. Qed.

Lemma zsum_elem_le f l x : (∀ y, y ∈ l → 0 ≤ f y) → x ∈ l → f x ≤ zsum f l.
Proof.
  intros H (l1 & l2 & ->)%list_elem_of_split.
  rewrite zsum_app, zsum_cons.
  pose proof (zsum_nonneg f l1 ltac:(set_solver)).
  pose proof (zsum_nonneg f l2 ltac:(set_solver)). lia.
Qed.

Lemma zsum_const1 l : zsum (λ _ : A, 1) l = Z.of_nat (length l).
Proof. induction l as [|x l IH]; [done|]. rewrite zsum_cons, IH. cbn [length]. lia. Qed.

Lemma zsum_plus f g l : zsum (λ x, f x + g x) l = zsum f l + zsum g l.
Proof. induction l as [|x l IH]; [done|]. rewrite !zsum_cons. lia. Qed.
End Zsum.

(** ** Removing one occurrence, as [append(order[:i], order[i+1:]...)] does *)
Fixpoint remove_first (x : string) (l : list string) : list string :=
  match l with
  | [] => []
  | y :: l' => if decide (y = x) then l' else y :: remove_first x l'
  end.

Section RemoveFirst.
Implicit Types (l : list string) (x y : string).

Lemma remove_first_perm x l : x ∈ l → l ≡ₚ x :: remove_first x l.
Proof.
  induction l as [|y l IH]; [set_solver|]. intros Hx. cbn. case_decide as E; [by subst|].
  etransitivity; [apply perm_skip, IH; set_solver|apply perm_swap].
Qed.

Lemma remove_first_sublist x l : remove_first x l `sublist_of` l.
Proof.
  induction l as [|y l IH]; cbn; [done|]. case_decide; [by apply sublist_cons|by apply sublist_skip].
Qed.

Lemma remove_first_notin x l : x ∉ l → remove_first x l = l.
Proof.
  induction l as [|y l IH]; [done|]. intros H. cbn. case_decide; [set_solver|].
  f_equal. apply IH. set_solver.
Qed.

Lemma elem_of_remove_first x y l :
  NoDup l → y ∈ remove_first x l ↔ y ∈ l ∧ y ≠ x.
Proof.
  induction l as [|z l IH]; intros Hnd; cbn; [set_solver|].
  apply NoDup_cons in Hnd as [Hz Hnd]. case_decide; subst; set_solver.
Qed.

Lemma remove_first_NoDup x l : NoDup l → NoDup (remove_first x l).
Proof. intros H. eapply sublist_NoDup; [done|apply remove_first_sublist]. Qed.
End RemoveFirst.

Lemma StronglySorted_sublist {A} (R : relation A) (l1 l2 : list A) :
  l1 `sublist_of` l2 → StronglySorted R l2 → StronglySorted R l1.
Proof.
  induction 1 as [|x l1 l2 Hs IH|x l1 l2 Hs IH]; intros H; [done| |].
  - inversion H as [|? ? Hl Hf]; subst. constructor; [auto|].
    rewrite Forall_forall in Hf |- *. intros y Hy. apply Hf.
    apply (elem_of_submseteq _ _ _ Hy). by apply sublist_submseteq.
  - inversion H; subst. auto.
Qed.

(** ** Automation *)
Create HintDb courier.
#[export] Hint Resolve remove_first_NoDup : courier.

(** Splits the results of a sequence of monadic steps known to end in [H]. *)
Ltac em_inv H :=
  let a := fresh "a" in let s1 := fresh "s" in let e := fresh "e" in
  let H1 := fresh "Hm" in let H2 := fresh "Hk" in
  apply ebind_inv in H as [(a & s1 & H1 & H2) | (e & H1 & H2)].

(** Case analysis on every [match] and [if] of a hypothesis. *)
Ltac crush_match_in H :=
  repeat (match type of H with
          | context [match ?x with _ => _ end] =>
            let E := fresh "E" in destruct x eqn:E; try discriminate H
          end).
