(* ===== verification/GoBytes.v ===== *)
(** * The Go byte and string library the courier uses

    Go strings and byte slices are both byte sequences; both are a Rocq
    [string], one [ascii] per byte.  This file models what the sources use of
    [strings], [strconv], [unicode/utf8], [encoding/hex] and [encoding/base64]
    and proves the round trips the queue's on-disk format rests on. *)
From S2P Require Import Prelude.

Definition bv (c : ascii) : Z := Z.of_N (N_of_ascii c).
Definition bc (z : Z) : ascii := ascii_of_N (Z.to_N z).
Definition slen (s : string) : Z := Z.of_nat (String.length s).

Lemma bv_range c : 0 ≤ bv c < 256.
Proof. unfold bv. pose proof (N_ascii_bounded c). lia. Qed.

Lemma bc_bv c : bc (bv c) = c.
Proof. unfold bc, bv. by rewrite N2Z.id, ascii_N_embedding. Qed.

Lemma bv_bc z : 0 ≤ z < 256 → bv (bc z) = z.
Proof. intros H. unfold bv, bc. rewrite N_ascii_embedding; lia. Qed.

Lemma sapp_cons c s t : String c s +:+ t = String c (s +:+ t).
Proof. done. Qed.

Lemma sapp_nil_l (s : string) : "" +:+ s = s.
Proof. done. Qed.

Lemma slen_cons c s : slen (String c s) = 1 + slen s.
Proof. unfold slen. cbn [String.length]. lia. Qed.

Lemma slen_app s t : slen (s +:+ t) = slen s + slen t.
Proof. induction s as [|c s IH]; [done|]. rewrite sapp_cons, !slen_cons. lia. Qed.

Lemma slen_nonneg s : 0 ≤ slen s.
Proof. unfold slen. lia. Qed.

Lemma sapp_assoc (s t u : string) : (s +:+ t) +:+ u = s +:+ (t +:+ u).
Proof. induction s as [|c s IH]; [done|]. by rewrite !sapp_cons, IH. Qed.

Lemma sapp_nil_r (s : string) : s +:+ "" = s.
Proof. induction s as [|c s IH]; [done|]. by rewrite sapp_cons, IH. Qed.

(** ** [strings] *)
Fixpoint hasPrefix (s p : string) {struct p} : bool :=
  match p, s with
  | EmptyString, _ => true
  | String a p', String b s' => if ascii_dec a b then hasPrefix s' p' else false
  | String _ _, EmptyString => false
  end.

Fixpoint dropPrefix (s p : string) {struct p} : option string :=
  match p, s with
  | EmptyString, _ => Some s
  | String a p', String b s' => if ascii_dec a b then dropPrefix s' p' else None
  | String _ _, EmptyString => None
  end.

Definition trimPrefix (s p : string) : string :=
  match dropPrefix s p with Some r => r | None => s end.

Fixpoint hasSuffix (s x : string) : bool :=
  if decide (s = x) then true
  else match s with String _ s' => hasSuffix s' x | EmptyString => false end.

Lemma hasPrefix_app p s : hasPrefix (p +:+ s) p = true.
Proof.
  induction p as [|c p IH]; [done|]. rewrite sapp_cons. cbn [hasPrefix].
  by destruct (ascii_dec c c) as [_|[]].
Qed.

Lemma dropPrefix_app p s : dropPrefix (p +:+ s) p = Some s.
Proof.
  induction p as [|c p IH]; [done|]. rewrite sapp_cons. cbn [dropPrefix].
  by destruct (ascii_dec c c) as [_|[]].
Qed.

Lemma trimPrefix_app p s : trimPrefix (p +:+ s) p = s.
Proof. unfold trimPrefix. by rewrite dropPrefix_app. Qed.

Lemma hasPrefix_drop s p : hasPrefix s p = true → ∃ r, s = p +:+ r.
Proof.
  revert s. induction p as [|c p IH]; intros [|d s]; cbn [hasPrefix]; try done; eauto.
  destruct (ascii_dec c d) as [->|]; [|done]. intros [r ->]%IH. by exists r.
Qed.

Lemma hasSuffix_app s x : hasSuffix (s +:+ x) x = true.
Proof.
  induction s as [|c s IH].
  - destruct x as [|a x]; [done|]. change (hasSuffix (String a x) (String a x) = true).
    cbn [hasSuffix]. by rewrite decide_True.
  - rewrite sapp_cons. cbn [hasSuffix]. by case_decide.
Qed.

Lemma sapp_inv_tail (s t x : string) : s +:+ x = t +:+ x → s = t.
Proof.
  revert t. induction s as [|c s IH]; intros [|d t] H; [done| | |].
  - exfalso. apply (f_equal slen) in H. rewrite sapp_cons, slen_cons, !slen_app in H.
    change (slen "") with 0 in H. pose proof (slen_nonneg t). lia.
  - exfalso. apply (f_equal slen) in H. rewrite sapp_cons, slen_cons, !slen_app in H.
    change (slen "") with 0 in H. pose proof (slen_nonneg s). lia.
  - rewrite !sapp_cons in H. injection H as -> H. f_equal. by apply IH.
Qed.

(** ** [unicode/utf8]

    [runes s] is what [for _, r := range s] visits: each rune with whether its
    bytes are well-formed; a byte that starts no well-formed sequence is
    U+FFFD, one byte wide. *)
Definition RuneError : Z := 65533.

Definition in_rng (lo hi z : Z) : bool := (lo <=? z) && (z <=? hi).
Definition cont (z : Z) : bool := in_rng 128 191 z.

(** The inclusive range of the second byte after lead byte [b], for a sequence
    of three or four bytes. *)
Definition second_ok (b z : Z) : bool :=
  if b =? 224 then in_rng 160 191 z
  else if b =? 237 then in_rng 128 159 z
  else if b =? 240 then in_rng 144 191 z
  else if b =? 244 then in_rng 128 143 z
  else cont z.

Fixpoint runes (s : string) : list (Z * bool) :=
  match s with
  | EmptyString => []
  | String a r1 =>
    let x := bv a in
    if x <? 128 then (x, true) :: runes r1
    else match r1 with
    | EmptyString => [(RuneError, false)]
    | String b r2 =>
      let y := bv b in
      if in_rng 194 223 x && cont y then ((x - 192) * 64 + (y - 128), true) :: runes r2
      else if in_rng 224 239 x && second_ok x y then
        match r2 with
        | EmptyString => (RuneError, false) :: runes r1
        | String c r3 =>
          let z := bv c in
          if cont z then ((x - 224) * 4096 + (y - 128) * 64 + (z - 128), true) :: runes r3
          else (RuneError, false) :: runes r1
        end
      else if in_rng 240 244 x && second_ok x y then
        match r2 with
        | String c (String d r4) =>
          let z := bv c in let w := bv d in
          if cont z && cont w then
            ((x - 240) * 262144 + (y - 128) * 4096 + (z - 128) * 64 + (w - 128), true) :: runes r4
          else (RuneError, false) :: runes r1
        | _ => (RuneError, false) :: runes r1
        end
      else (RuneError, false) :: runes r1
    end
  end.

Definition utf8_valid (s : string) : bool := forallb snd (runes s).
Definition runeCount (s : string) : Z := Z.of_nat (length (runes s)).

Definition encodeRune (r : Z) : string :=
  if r <? 128 then String (bc r) ""
  else if r <? 2048 then String (bc (192 + r / 64)) (String (bc (128 + r mod 64)) "")
  else if r <? 65536 then
    String (bc (224 + r / 4096)) (String (bc (128 + (r / 64) mod 64)) (String (bc (128 + r mod 64)) ""))
  else
    String (bc (240 + r / 262144)) (String (bc (128 + (r / 4096) mod 64))
      (String (bc (128 + (r / 64) mod 64)) (String (bc (128 + r mod 64)) ""))).

(** [unicode.IsSpace] and general category Cc. *)
Definition is_space_rune (r : Z) : bool :=
  in_rng 9 13 r || (r =? 32) || (r =? 133) || (r =? 160) || (r =? 5760) ||
  in_rng 8192 8202 r || (r =? 8232) || (r =? 8233) || (r =? 8239) || (r =? 8287) || (r =? 12288).

Definition is_control_rune (r : Z) : bool := in_rng 0 31 r || in_rng 127 159 r.

(** [strings.EqualFold] against an ASCII name: simple case folding, whose
    orbits meeting ASCII are the letters, U+017F and U+212A. *)
Definition fold_rune (r : Z) : Z :=
  if in_rng 97 122 r then r - 32
  else if r =? 383 then 83
  else if r =? 8490 then 75
  else r.

Definition folded (s : string) : list Z := fold_rune ∘ fst <$> runes s.
Definition equalFold (s t : string) : bool := bool_decide (folded s = folded t).

(** [strings.TrimSpace(s) == s] and [strings.TrimSpace(s) == ""]. *)
Definition trimmed (s : string) : bool :=
  match runes s with
  | [] => true
  | (r, _) :: rs =>
    negb (is_space_rune r) &&
    match last ((r, true) :: rs) with Some (z, _) => negb (is_space_rune z) | None => true end
  end.
Definition blank (s : string) : bool := forallb (λ p, is_space_rune p.1) (runes s).

(** [strings.TrimSpace]: a space rune takes one, two or three bytes; on the
    right, the longest suffix that is all spaces goes. *)
Fixpoint trimLeft (s : string) : string :=
  match s with
  | EmptyString => ""
  | String _ r1 =>
    match runes s with
    | (r, _) :: _ =>
      if negb (is_space_rune r) then s
      else if r <? 128 then trimLeft r1
      else match r1 with
           | EmptyString => ""
           | String _ r2 =>
             if r <? 2048 then trimLeft r2
             else match r2 with EmptyString => "" | String _ r3 => trimLeft r3 end
           end
    | [] => s
    end
  end.

Fixpoint trimRight (s : string) : string :=
  if blank s then "" else match s with EmptyString => "" | String c r => String c (trimRight r) end.

Definition TrimSpace (s : string) : string := trimRight (trimLeft s).

Example TrimSpace_ex : TrimSpace (String (bc 9) ("a b " +:+ encodeRune 8195 +:+ String (bc 10) "")) = "a b".
Proof. vm_compute. reflexivity. Qed.

(** ** [encoding/hex] *)
Definition hexDigit (z : Z) : ascii := if z <? 10 then bc (48 + z) else bc (87 + z).

Fixpoint hexEncode (bs : list Z) : string :=
  match bs with
  | [] => ""
  | b :: bs' => String (hexDigit (b / 16)) (String (hexDigit (b mod 16)) (hexEncode bs'))
  end.

Lemma slen_hexEncode bs : slen (hexEncode bs) = 2 * Z.of_nat (length bs).
Proof. induction bs as [|b bs IH]; [done|]. unfold slen in *. cbn in *. lia. Qed.

(** ** [strconv.FormatInt(n, 10)] and [strconv.ParseInt(s, 10, 64)] *)
Definition digit (z : Z) : ascii := bc (48 + z).

Fixpoint fmtAux (fuel : nat) (n : Z) (acc : string) : string :=
  match fuel with
  | O => acc
  | S fuel' =>
    if n <? 10 then String (digit n) acc
    else fmtAux fuel' (n / 10) (String (digit (n mod 10)) acc)
  end.

(** Twenty digits are enough for any 64-bit magnitude. *)
Definition FormatInt (n : Z) : string :=
  if n <? 0 then String "-" (fmtAux 20 (- n) "") else fmtAux 20 n "".

Fixpoint readDigits (s : string) (acc : Z) : option Z :=
  match s with
  | EmptyString => Some acc
  | String c s' =>
    if in_rng 48 57 (bv c) then readDigits s' (10 * acc + (bv c - 48)) else None
  end.

Definition ParseInt (s : string) : option Z :=
  let parse neg body :=
    match body with
    | EmptyString => None
    | _ => match readDigits body 0 with
           | Some n => let v := if (neg : bool) then - n else n in
                       if in_rng i64_min i64_max v then Some v else None
           | None => None
           end
    end in
  match s with
  | String "-" body => parse true body
  | String "+" body => parse false body
  | _ => parse false s
  end.

Section Decimal.
Lemma bv_digit z : 0 ≤ z < 10 → bv (digit z) = 48 + z.
Proof. intros H. unfold digit. rewrite bv_bc; lia. Qed.

Lemma readDigits_digit z s acc :
  0 ≤ z < 10 → readDigits (String (digit z) s) acc = readDigits s (10 * acc + z).
Proof.
  intros H. cbn [readDigits]. rewrite bv_digit by done. unfold in_rng.
  replace (48 <=? 48 + z) with true by lia. replace (48 + z <=? 57) with true by lia.
  cbn [andb]. f_equal. lia.
Qed.

(** Reading back the digits written for [n] in front of [acc] leaves the
    reader exactly where [n] shifted past nothing would. *)
Lemma readDigits_fmtAux fuel n acc :
  0 ≤ n < 10 ^ Z.of_nat fuel → readDigits (fmtAux fuel n acc) 0 = readDigits acc n.
Proof.
  revert n acc. induction fuel as [|fuel IH]; intros n acc H.
  { assert (n = 0) as -> by (cbn in H; lia). done. }
  cbn [fmtAux]. destruct (Z.ltb_spec n 10).
  - rewrite readDigits_digit by lia. f_equal; lia.
  - rewrite Nat2Z.inj_succ, Z.pow_succ_r in H by lia.
    rewrite IH by (split; [apply Z.div_pos; lia|apply Z.div_lt_upper_bound; lia]).
    pose proof (Z.mod_pos_bound n 10). rewrite readDigits_digit by lia. f_equal.
    pose proof (Z.div_mod n 10). lia.
Qed.

Lemma fmtAux_cons fuel n acc :
  0 ≤ n < 10 ^ Z.of_nat (S fuel) →
  ∃ d t, 0 ≤ d < 10 ∧ fmtAux (S fuel) n acc = String (digit d) t.
Proof.
  revert n acc. induction fuel as [|fuel IH]; intros n acc H.
  - exists n, acc. change (10 ^ Z.of_nat 1) with 10 in H. cbn [fmtAux].
    replace (n <? 10) with true by lia. done.
  - cbn [fmtAux]. destruct (Z.ltb_spec n 10); [eexists n, acc; split; [lia|done]|].
    apply IH. rewrite Nat2Z.inj_succ, Z.pow_succ_r in H by lia.
    split; [apply Z.div_pos; lia|apply Z.div_lt_upper_bound; lia].
Qed.

Lemma slen_fmtAux fuel n k acc :
  0 ≤ n < 10 ^ k → 1 ≤ k ≤ Z.of_nat fuel → slen (fmtAux fuel n acc) ≤ k + slen acc.
Proof.
  revert n k acc. induction fuel as [|fuel IH]; intros n k acc H Hk; [lia|].
  cbn [fmtAux]. destruct (Z.ltb_spec n 10); [rewrite slen_cons; lia|].
  assert (2 ≤ k) by (destruct (decide (k = 1)) as [->|]; lia).
  replace k with (Z.succ (k - 1)) in H by lia. rewrite Z.pow_succ_r in H by lia.
  etransitivity; [apply (IH _ (k - 1))|rewrite slen_cons; lia].
  - split; [apply Z.div_pos; lia|apply Z.div_lt_upper_bound; lia].
  - lia.
Qed.

Lemma ParseInt_FormatInt n : 0 ≤ n ≤ i64_max → ParseInt (FormatInt n) = Some n.
Proof.
  intros H. unfold i64_max in H. unfold FormatInt. replace (n <? 0) with false by lia.
  assert (0 ≤ n < 10 ^ Z.of_nat 20) as Hn by lia.
  destruct (fmtAux_cons 19 n "" Hn) as (d & t & Hd & E).
  pose proof (readDigits_fmtAux 20 n "" Hn) as R. rewrite E in R |- *.
  change (readDigits "" n) with (Some n) in R.
  assert (∀ c, bv c = 43 ∨ bv c = 45 → digit d ≠ c) as Hne.
  { intros c Hc <-. rewrite bv_digit in Hc; lia. }
  unfold ParseInt.
  assert (in_rng i64_min i64_max n = true) as Hr by (unfold in_rng, i64_min, i64_max; lia).
  destruct (digit d) as [[] [] [] [] [] [] [] []] eqn:Ed;
    try (exfalso; eapply Hne; [|reflexivity]; cbv; auto; fail);
    cbn -[readDigits in_rng]; by rewrite R, Hr.
Qed.

Lemma FormatInt_inj n m : 0 ≤ n ≤ i64_max → 0 ≤ m ≤ i64_max → FormatInt n = FormatInt m → n = m.
Proof.
  intros Hn Hm H. apply (f_equal ParseInt) in H. rewrite !ParseInt_FormatInt in H by done. congruence.
Qed.

Lemma ParseInt_range s n : ParseInt s = Some n → in_i64 n.
Proof.
  assert (∀ (neg : bool) body m, match body with
    | EmptyString => None
    | _ => match readDigits body 0 with
           | Some n => let v := if neg then - n else n in if in_rng i64_min i64_max v then Some v else None
           | None => None
           end
    end = Some m → in_i64 m) as H.
  { intros neg body m. destruct body as [|c b]; [done|]. destruct (readDigits _ _) as [x|]; [|done]. cbv zeta.
    destruct (in_rng i64_min i64_max (if neg then - x else x)) eqn:E; [|done]. intros [= <-].
    unfold in_rng in E. unfold in_i64. lia. }
  unfold ParseInt. destruct s as [|[[] [] [] [] [] [] [] []] s]; intros E; try done;
    first [by apply (H false (String _ s)) in E|by apply (H true s) in E|by apply (H false s) in E].
Qed.

Lemma slen_FormatInt n : 0 ≤ n ≤ i64_max → slen (FormatInt n) ≤ 19.
Proof.
  intros H. unfold i64_max in H. unfold FormatInt. replace (n <? 0) with false by lia.
  pose proof (slen_fmtAux 20 n 19 "") as L. change (slen "") with 0 in L.
  etransitivity; [apply L|]; lia.
Qed.
End Decimal.

(** ** [encoding/base64], standard alphabet with padding *)
Definition b64char (z : Z) : ascii :=
  if z <? 26 then bc (65 + z)
  else if z <? 52 then bc (71 + z)
  else if z <? 62 then bc (z - 4)
  else if z =? 62 then "+"%char else "/"%char.

Definition b64val (c : ascii) : option Z :=
  let z := bv c in
  if in_rng 65 90 z then Some (z - 65)
  else if in_rng 97 122 z then Some (z - 71)
  else if in_rng 48 57 z then Some (z + 4)
  else if z =? 43 then Some 62
  else if z =? 47 then Some 63
  else None.

Fixpoint b64Encode (s : string) : string :=
  match s with
  | EmptyString => ""
  | String a EmptyString =>
    let x := bv a in
    String (b64char (x / 4)) (String (b64char (x mod 4 * 16)) "==")
  | String a (String b EmptyString) =>
    let x := bv a in let y := bv b in
    String (b64char (x / 4)) (String (b64char (x mod 4 * 16 + y / 16))
      (String (b64char (y mod 16 * 4)) "="))
  | String a (String b (String c r)) =>
    let x := bv a in let y := bv b in let z := bv c in
    String (b64char (x / 4)) (String (b64char (x mod 4 * 16 + y / 16))
      (String (b64char (y mod 16 * 4 + z / 64)) (String (b64char (z mod 64)) (b64Encode r))))
  end.

(** The quanta of [Encoding.decodeQuantum]; [strict] also requires the unused
    trailing bits to be zero. *)
Fixpoint b64Quanta (strict : bool) (s : string) : option string :=
  match s with
  | EmptyString => Some ""
  | String c1 (String c2 (String c3 (String c4 r))) =>
    match b64val c1, b64val c2 with
    | Some v1, Some v2 =>
      let a := bc (v1 * 4 + v2 / 16) in
      if decide (c3 = "="%char) then
        if decide (c4 = "="%char ∧ r = "") then
          if strict && negb (v2 mod 16 =? 0) then None else Some (String a "")
        else None
      else match b64val c3 with
      | Some v3 =>
        let b := bc (v2 mod 16 * 16 + v3 / 4) in
        if decide (c4 = "="%char) then
          if decide (r = "") then
            if strict && negb (v3 mod 4 =? 0) then None else Some (String a (String b ""))
          else None
        else match b64val c4 with
        | Some v4 =>
          let c := bc (v3 mod 4 * 64 + v4) in
          match b64Quanta strict r with
          | Some t => Some (String a (String b (String c t)))
          | None => None
          end
        | None => None
        end
      | None => None
      end
    | _, _ => None
    end
  | _ => None
  end.

(** The decoder ignores carriage returns and line feeds anywhere. *)
Fixpoint dropNewlines (s : string) : string :=
  match s with
  | EmptyString => ""
  | String c r => if (bv c =? 10) || (bv c =? 13) then dropNewlines r else String c (dropNewlines r)
  end.

Definition b64Decode (strict : bool) (s : string) : option string := b64Quanta strict (dropNewlines s).

Section Base64.
Definition b64_plain (c : ascii) : bool :=
  match b64val c with Some _ => true | None => bool_decide (c = "="%char) end.

Lemma b64val_char z : 0 ≤ z < 64 → b64val (b64char z) = Some z.
Proof.
  intros H. unfold b64char.
  destruct (Z.ltb_spec z 26), (Z.ltb_spec z 52), (Z.ltb_spec z 62), (Z.eqb_spec z 62); try lia;
    unfold b64val; try (rewrite bv_bc by lia); unfold in_rng;
    try (replace z with 63 by lia; done); try (subst z; done);
    repeat case_match; f_equal; lia.
Qed.

Lemma b64char_not_pad z : 0 ≤ z < 64 → b64char z ≠ "="%char.
Proof. intros H E. pose proof (b64val_char z H) as V. rewrite E in V. discriminate. Qed.

Lemma b64char_not_newline z : 0 ≤ z < 64 → (bv (b64char z) =? 10) || (bv (b64char z) =? 13) = false.
Proof.
  intros H. pose proof (b64val_char z H) as V. unfold b64val, in_rng in V.
  destruct (Z.eqb_spec (bv (b64char z)) 10) as [E|]; [by rewrite E in V|].
  destruct (Z.eqb_spec (bv (b64char z)) 13) as [E|]; [by rewrite E in V|done].
Qed.

Lemma string_ind3 (P : string → Prop) :
  P "" → (∀ a, P (String a "")) → (∀ a b, P (String a (String b ""))) →
  (∀ a b c r, P r → P (String a (String b (String c r)))) → ∀ s, P s.
Proof.
  intros H0 H1 H2 H3.
  fix IH 1. intros [|a [|b [|c r]]]; [apply H0|apply H1|apply H2|apply H3, IH].
Qed.

Ltac b64_bounds a :=
  pose proof (bv_range a);
  pose proof (Z.div_mod (bv a) 4); pose proof (Z.mod_pos_bound (bv a) 4);
  pose proof (Z.div_mod (bv a) 16); pose proof (Z.mod_pos_bound (bv a) 16);
  pose proof (Z.div_mod (bv a) 64); pose proof (Z.mod_pos_bound (bv a) 64).

Lemma dropNewlines_b64Encode s : dropNewlines (b64Encode s) = b64Encode s.
Proof.
  induction s as [|a|a b|a b c r IH] using string_ind3; [done| | |];
    b64_bounds a; try b64_bounds b; try b64_bounds c;
    cbn [b64Encode dropNewlines];
    rewrite ?b64char_not_newline by lia; try done. by rewrite IH.
Qed.

Lemma bc_eq z a : z = bv a → bc z = a.
Proof. intros ->. apply bc_bv. Qed.

Lemma b64Decode_Encode strict s : b64Decode strict (b64Encode s) = Some s.
Proof.
  unfold b64Decode. rewrite dropNewlines_b64Encode.
  induction s as [|a|a b|a b c r IH] using string_ind3; [done| | |];
    b64_bounds a; try b64_bounds b; try b64_bounds c;
    cbn [b64Encode b64Quanta]; rewrite ?b64val_char by lia.
  - rewrite decide_True, decide_True by done.
    rewrite Z.mod_mul by lia. cbn [Z.eqb negb].
    rewrite andb_false_r. do 2 f_equal. apply bc_eq. clear -a. Z.to_euclidean_division_equations; lia.
  - rewrite decide_False by (apply b64char_not_pad; lia).
    rewrite ?b64val_char by lia. rewrite decide_True, decide_True by done.
    rewrite Z.mod_mul by lia. cbn [Z.eqb negb]. rewrite andb_false_r.
    do 2 f_equal; [|f_equal]; apply bc_eq; pose proof (bv_range b) as Hb; clear -Hb;
      Z.to_euclidean_division_equations; lia.
  - rewrite decide_False by (apply b64char_not_pad; lia).
    rewrite decide_False by (apply b64char_not_pad; lia).
    rewrite ?b64val_char by lia. rewrite IH.
    pose proof (bv_range b) as Hb. pose proof (bv_range c) as Hc. clear -Hb Hc.
    do 2 f_equal; [|f_equal; [|f_equal]]; apply bc_eq; Z.to_euclidean_division_equations; lia.
Qed.

Lemma slen_b64Encode s : slen (b64Encode s) = 4 * ((slen s + 2) / 3).
Proof.
  induction s as [|a|a b|a b c r IH] using string_ind3; try done.
  cbn [b64Encode]. rewrite !slen_cons, IH.
  replace (1 + (1 + (1 + slen r)) + 2) with (slen r + 2 + 1 * 3) by lia.
  rewrite Z.div_add by lia. lia.
Qed.
End Base64.
