(* ===== verification/Sha256.v ===== *)
(** * SHA-256, HMAC-SHA-256 and HKDF-SHA-256

    The Go standard library's [crypto/sha256], [crypto/hmac] and [crypto/hkdf]
    as the courier calls them, executable, on bytes as integers in [0, 256).
    The queue's record identities, the artifact digests and the custody MAC are
    computed with these. *)
From S2P Require Import Prelude GoBytes.

Definition add32 (x y : Z) : Z := (x + y) mod 2 ^ 32.
Definition rotr32 (n x : Z) : Z := Z.lor (Z.shiftr x n) (Z.shiftl (Z.land x (Z.ones n)) (32 - n)).
Definition not32 (x : Z) : Z := Z.lxor x (2 ^ 32 - 1).

(** The round constants: the first 32 fractional bits of the cube roots of the
    first 64 primes; and the initial state: those of the square roots of the
    first eight. *)
Definition is_prime (n : Z) : bool :=
  forallb (λ k, negb (n mod (Z.of_nat k + 2) =? 0)) (seq 0 (Z.to_nat (n - 2))).
Definition sha_primes : list Z := Eval vm_compute in filter is_prime (Z.of_nat <$> seq 2 310).

(** The largest [r] below [lo + 2 ^ bits] with [r ^ 3 <= n]. *)
Fixpoint cube_root (bits : nat) (lo n : Z) : Z :=
  match bits with
  | O => lo
  | S b => let r := lo + 2 ^ Z.of_nat b in cube_root b (if r ^ 3 <=? n then r else lo) n
  end.

Definition sha_k : list Z :=
  Eval vm_compute in (λ p, cube_root 40 0 (p * 2 ^ 96) mod 2 ^ 32) <$> sha_primes.
Definition sha_init : list Z :=
  Eval vm_compute in (λ p, Z.sqrt (p * 2 ^ 64) mod 2 ^ 32) <$> take 8 sha_primes.

(** The message schedule, kept newest word first. *)
Fixpoint sha_schedule (n : nat) (w : list Z) : list Z :=
  match n with
  | O => w
  | S n' =>
    let w2 := nth 1 w 0 in let w7 := nth 6 w 0 in let w15 := nth 14 w 0 in let w16 := nth 15 w 0 in
    let s0 := Z.lxor (Z.lxor (rotr32 7 w15) (rotr32 18 w15)) (Z.shiftr w15 3) in
    let s1 := Z.lxor (Z.lxor (rotr32 17 w2) (rotr32 19 w2)) (Z.shiftr w2 10) in
    sha_schedule n' (add32 (add32 s1 w7) (add32 s0 w16) :: w)
  end.

Definition sha_round (st : list Z) (kw : Z * Z) : list Z :=
  match st with
  | [a; b; c; d; e; f; g; h] =>
    let s1 := Z.lxor (Z.lxor (rotr32 6 e) (rotr32 11 e)) (rotr32 25 e) in
    let ch := Z.lxor (Z.land e f) (Z.land (not32 e) g) in
    let t1 := add32 (add32 h s1) (add32 ch (add32 kw.1 kw.2)) in
    let s0 := Z.lxor (Z.lxor (rotr32 2 a) (rotr32 13 a)) (rotr32 22 a) in
    let maj := Z.lxor (Z.lxor (Z.land a b) (Z.land a c)) (Z.land b c) in
    let t2 := add32 s0 maj in
    [add32 t1 t2; a; b; c; add32 d t1; e; f; g]
  | _ => st
  end.

Fixpoint be_words (bs : list Z) : list Z :=
  match bs with
  | a :: b :: c :: d :: r => (((a * 256 + b) * 256 + c) * 256 + d) :: be_words r
  | _ => []
  end.

Definition be_bytes (n : nat) (x : Z) : list Z :=
  map (λ i, Z.shiftr x (8 * Z.of_nat i) mod 256) (rev (seq 0 n)).

Definition sha_block (st : list Z) (block : list Z) : list Z :=
  let w := rev (sha_schedule 48 (rev (be_words block))) in
  zip_with add32 st (fold_left sha_round (zip sha_k w) st).

Fixpoint sha_blocks (fuel : nat) (st : list Z) (bs : list Z) : list Z :=
  match fuel, bs with
  | S fuel', _ :: _ => sha_blocks fuel' (sha_block st (take 64 bs)) (drop 64 bs)
  | _, _ => st
  end.

Definition sha_pad (bs : list Z) : list Z :=
  let n := length bs in
  bs ++ [128] ++ replicate (Z.to_nat ((55 - Z.of_nat n) mod 64)) 0 ++ be_bytes 8 (8 * Z.of_nat n).

Definition sha256 (bs : list Z) : list Z :=
  let p := sha_pad bs in
  flat_map (be_bytes 4) (sha_blocks (length p) sha_init p).

Fixpoint bytes_of (s : string) : list Z :=
  match s with EmptyString => [] | String c r => bv c :: bytes_of r end.

(** [hmac.New(sha256.New, key)] over one message. *)
Definition hmac256 (key msg : list Z) : list Z :=
  let k0 := if Z.of_nat (length key) >? 64 then sha256 key else key in
  let k := k0 ++ replicate (64 - length k0) 0 in
  sha256 (map (Z.lxor 0x5c) k ++ sha256 (map (Z.lxor 0x36) k ++ msg)).

(** [hkdf.Key(sha256.New, secret, salt, info, n)] for one output block. *)
Definition hkdf256 (secret salt info : list Z) (n : nat) : list Z :=
  take n (hmac256 (hmac256 salt secret) (info ++ [1])).

Definition sha256Hex (s : string) : string := hexEncode (sha256 (bytes_of s)).

Lemma length_be_bytes n x : length (be_bytes n x) = n.
Proof. unfold be_bytes. by rewrite length_map, length_rev, length_seq. Qed.

Lemma be_bytes_range n x : Forall (λ b, 0 ≤ b < 256) (be_bytes n x).
Proof.
  unfold be_bytes. apply Forall_map, Forall_true. intros i. cbn. apply Z.mod_pos_bound. lia.
Qed.

Lemma sha256_range bs : Forall (λ b, 0 ≤ b < 256) (sha256 bs).
Proof.
  unfold sha256. cbv zeta. generalize (sha_blocks (length (sha_pad bs)) sha_init (sha_pad bs)). intros l.
  induction l as [|w l IH]; [constructor|]. cbn [flat_map]. apply Forall_app. split; [apply be_bytes_range|done].
Qed.

Lemma sha_round_length st kw : length (sha_round st kw) = length st.
Proof. unfold sha_round. by destruct st as [|? [|? [|? [|? [|? [|? [|? [|? [|]]]]]]]]]. Qed.

Lemma sha_rounds_length l st : length (fold_left sha_round l st) = length st.
Proof. revert st. induction l as [|x l IH]; intros st; [done|]. cbn [fold_left]. by rewrite IH, sha_round_length. Qed.

Lemma sha_blocks_length fuel st bs : length (sha_blocks fuel st bs) = length st.
Proof.
  revert st bs. induction fuel as [|fuel IH]; intros st bs; [done|].
  destruct bs as [|b bs]; [done|]. cbn [sha_blocks]. rewrite IH. unfold sha_block.
  rewrite length_zip_with, sha_rounds_length. lia.
Qed.

(** A digest is 32 bytes, so its hexadecimal form is 64 characters: the [64]
    the queue's record-size bound counts for the record identity. *)
Lemma length_sha256 bs : length (sha256 bs) = 32%nat.
Proof.
  unfold sha256. cbv zeta. generalize (sha_pad bs). intros p.
  pose proof (sha_blocks_length (length p) sha_init p) as H.
  destruct (sha_blocks (length p) sha_init p) as [|? [|? [|? [|? [|? [|? [|? [|? [|]]]]]]]]];
    cbn in H; try discriminate.
  cbn [flat_map]. rewrite !length_app, !length_be_bytes. done.
Qed.

Lemma slen_sha256Hex s : slen (sha256Hex s) = 64.
Proof. unfold sha256Hex. rewrite slen_hexEncode, length_sha256. done. Qed.

(** FIPS 180-4 and RFC 4231 test vectors. *)
Example sha256_abc :
  sha256Hex "abc" = "ba7816bf8f01cfea414140de5dae2223b00361a396177a9cb410ff61f20015ad".
Proof. vm_compute. reflexivity. Qed.

Example hmac256_jefe :
  hexEncode (hmac256 (bytes_of "Jefe") (bytes_of "what do ya want for nothing?"))
  = "5bdcc146bf60754e6a042426089575c75a003f089d2739839dec58b964ec3843".
Proof. vm_compute. reflexivity. Qed.
