(* ===== verification/Json.v ===== *)
(** * [encoding/json]

    The JSON syntax [encoding/json] accepts, string unquoting and quoting, and
    the struct decoding rules the courier's readers rely on: member names match
    exactly, otherwise under case folding; the last duplicate wins; [null]
    leaves a field as it is; a value of the wrong type fails the decode.  A
    string value keeps its raw bytes, since the routing rule judges the raw
    form. *)
From S2P Require Import Prelude GoBytes.

Inductive json : Type :=
| JNull
| JBool (b : bool)
| JNum (lit : string)
| JStr (raw : string)
| JArr (l : list json)
| JObj (l : list (string * json)).

Definition is_ws (c : ascii) : bool :=
  let z := bv c in (z =? 32) || (z =? 9) || (z =? 10) || (z =? 13).

Fixpoint skip (s : string) : string :=
  match s with
  | EmptyString => ""
  | String c r => if is_ws c then skip r else s
  end.

Definition is_digit (c : ascii) : bool := in_rng 48 57 (bv c).
Definition is_hex (c : ascii) : bool :=
  in_rng 48 57 (bv c) || in_rng 97 102 (bv c) || in_rng 65 70 (bv c).
Definition is_escape (c : ascii) : bool :=
  let z := bv c in
  (z =? 34) || (z =? 92) || (z =? 47) || (z =? 98) || (z =? 102) || (z =? 110) || (z =? 114) || (z =? 116).

(** The raw bytes of a string up to its closing quote, and what follows it. *)
Fixpoint scanStr (s : string) : option (string * string) :=
  match s with
  | EmptyString => None
  | String c r =>
    if bv c =? 34 then Some ("", r)
    else if bv c =? 92 then
      match r with
      | EmptyString => None
      | String d r1 =>
        if is_escape d then
          match scanStr r1 with Some (raw, rest) => Some (String c (String d raw), rest) | None => None end
        else if bv d =? 117 then
          match r1 with
          | String h1 (String h2 (String h3 (String h4 r2))) =>
            if is_hex h1 && is_hex h2 && is_hex h3 && is_hex h4 then
              match scanStr r2 with
              | Some (raw, rest) =>
                Some (String c (String d (String h1 (String h2 (String h3 (String h4 raw))))), rest)
              | None => None
              end
            else None
          | _ => None
          end
        else None
      end
    else if bv c <? 32 then None
    else match scanStr r with Some (raw, rest) => Some (String c raw, rest) | None => None end
  end.

Fixpoint spanDigits (s : string) : string * string :=
  match s with
  | EmptyString => ("", "")
  | String c r =>
    if is_digit c then let '(d, rest) := spanDigits r in (String c d, rest) else ("", s)
  end.

Definition scanFrac (s : string) : option (string * string) :=
  match s with
  | String c r =>
    if bv c =? 46 then
      match spanDigits r with
      | (EmptyString, _) => None
      | (d, rest) => Some (String c d, rest)
      end
    else Some ("", s)
  | EmptyString => Some ("", s)
  end.

Definition scanExp (s : string) : option (string * string) :=
  match s with
  | String c r =>
    if (bv c =? 101) || (bv c =? 69) then
      let '(sign, r') :=
        match r with
        | String d r1 => if (bv d =? 43) || (bv d =? 45) then (String d "", r1) else ("", r)
        | EmptyString => ("", r)
        end in
      match spanDigits r' with
      | (EmptyString, _) => None
      | (d, rest) => Some (String c (sign +:+ d), rest)
      end
    else Some ("", s)
  | EmptyString => Some ("", s)
  end.

Definition scanInt (s : string) : option (string * string) :=
  match s with
  | String c r =>
    if bv c =? 48 then Some (String c "", r)
    else if is_digit c then let '(d, rest) := spanDigits r in Some (String c d, rest)
    else None
  | EmptyString => None
  end.

Definition scanNum (s : string) : option (string * string) :=
  let '(sign, s0) :=
    match s with
    | String c r => if bv c =? 45 then (String c "", r) else ("", s)
    | EmptyString => ("", s)
    end in
  match scanInt s0 with
  | None => None
  | Some (i, s1) =>
    match scanFrac s1 with
    | None => None
    | Some (f, s2) =>
      match scanExp s2 with
      | None => None
      | Some (e, s3) => Some (sign +:+ i +:+ f +:+ e, s3)
      end
    end
  end.

Definition maxNestingDepth : Z := 10000.

(** The value at the front of [s] and what follows it.  No two nested calls
    pass without consuming a byte, so [parse] starts with a fuel of twice the
    input's length plus one. *)
Fixpoint parseValue (fuel : nat) (depth : Z) (s : string) {struct fuel} : option (json * string) :=
  match fuel with
  | O => None
  | S f =>
    match skip s with
    | EmptyString => None
    | String c r =>
      if bv c =? 123 then
        if maxNestingDepth <=? depth then None
        else match skip r with
        | String d r' =>
          if bv d =? 125 then Some (JObj [], r')
          else match parseMembers f (depth + 1) (String d r') with
               | Some (l, rest) => Some (JObj l, rest)
               | None => None
               end
        | EmptyString => None
        end
      else if bv c =? 91 then
        if maxNestingDepth <=? depth then None
        else match skip r with
        | String d r' =>
          if bv d =? 93 then Some (JArr [], r')
          else match parseElems f (depth + 1) (String d r') with
               | Some (l, rest) => Some (JArr l, rest)
               | None => None
               end
        | EmptyString => None
        end
      else if bv c =? 34 then
        match scanStr r with Some (raw, rest) => Some (JStr raw, rest) | None => None end
      else match dropPrefix (String c r) "null" with
      | Some rest => Some (JNull, rest)
      | None =>
        match dropPrefix (String c r) "true" with
        | Some rest => Some (JBool true, rest)
        | None =>
          match dropPrefix (String c r) "false" with
          | Some rest => Some (JBool false, rest)
          | None => match scanNum (String c r) with
                    | Some (lit, rest) => Some (JNum lit, rest)
                    | None => None
                    end
          end
        end
      end
    end
  end
with parseMembers (fuel : nat) (depth : Z) (s : string) {struct fuel} : option (list (string * json) * string) :=
  match fuel with
  | O => None
  | S f =>
    match skip s with
    | String q r =>
      if bv q =? 34 then
        match scanStr r with
        | None => None
        | Some (k, r1) =>
          match skip r1 with
          | String col r2 =>
            if bv col =? 58 then
              match parseValue f depth r2 with
              | None => None
              | Some (v, r3) =>
                match skip r3 with
                | String d r4 =>
                  if bv d =? 125 then Some ([(k, v)], r4)
                  else if bv d =? 44 then
                    match parseMembers f depth r4 with
                    | Some (l, rest) => Some ((k, v) :: l, rest)
                    | None => None
                    end
                  else None
                | EmptyString => None
                end
              end
            else None
          | EmptyString => None
          end
        end
      else None
    | EmptyString => None
    end
  end
with parseElems (fuel : nat) (depth : Z) (s : string) {struct fuel} : option (list json * string) :=
  match fuel with
  | O => None
  | S f =>
    match parseValue f depth s with
    | None => None
    | Some (v, r3) =>
      match skip r3 with
      | String d r4 =>
        if bv d =? 93 then Some ([v], r4)
        else if bv d =? 44 then
          match parseElems f depth r4 with
          | Some (l, rest) => Some (v :: l, rest)
          | None => None
          end
        else None
      | EmptyString => None
      end
    end
  end.

(** One JSON value with nothing but white space after it. *)
Definition parse (s : string) : option json :=
  match parseValue (S (2 * String.length s)) 0 s with
  | Some (v, rest) => match skip rest with EmptyString => Some v | String _ _ => None end
  | None => None
  end.

(** ** Strings *)
Definition hexVal (c : ascii) : Z :=
  let z := bv c in
  if in_rng 48 57 z then z - 48
  else if in_rng 97 102 z then z - 87
  else if in_rng 65 70 z then z - 55
  else 0.

Definition hex4 (a b c d : ascii) : Z :=
  ((hexVal a * 16 + hexVal b) * 16 + hexVal c) * 16 + hexVal d.

Definition is_high (u : Z) : bool := in_rng 0xD800 0xDBFF u.
Definition is_low (u : Z) : bool := in_rng 0xDC00 0xDFFF u.

Definition unescape1 (d : ascii) : Z :=
  let z := bv d in
  if z =? 98 then 8 else if z =? 102 then 12 else if z =? 110 then 10
  else if z =? 114 then 13 else if z =? 116 then 9 else z.

(** Escapes replaced; a surrogate half that is not part of a pair is U+FFFD. *)
Fixpoint unescape (s : string) : string :=
  match s with
  | EmptyString => ""
  | String c r =>
    if bv c =? 92 then
      match r with
      | EmptyString => ""
      | String d r1 =>
        if bv d =? 117 then
          match r1 with
          | String h1 (String h2 (String h3 (String h4 r2))) =>
            let u := hex4 h1 h2 h3 h4 in
            if is_high u then
              match r2 with
              | String e1 (String e2 (String g1 (String g2 (String g3 (String g4 r3))))) =>
                let w := hex4 g1 g2 g3 g4 in
                if (bv e1 =? 92) && (bv e2 =? 117) && is_low w then
                  encodeRune (65536 + (u - 0xD800) * 1024 + (w - 0xDC00)) +:+ unescape r3
                else encodeRune RuneError +:+ unescape r2
              | _ => encodeRune RuneError +:+ unescape r2
              end
            else if is_low u then encodeRune RuneError +:+ unescape r2
            else encodeRune u +:+ unescape r2
          | _ => ""
          end
        else String (bc (unescape1 d)) (unescape r1)
      end
    else String c (unescape r)
  end.

(** Ill-formed UTF-8 becomes U+FFFD, byte by byte. *)
Definition toValidUTF8 (s : string) : string :=
  foldr (λ p acc, encodeRune p.1 +:+ acc) "" (runes s).

Definition unquote (raw : string) : string := toValidUTF8 (unescape raw).

(** [json.Marshal]'s string form, HTML escaping on. *)
Definition u4 (z : Z) : string :=
  "\u" +:+ hexEncode [z / 256; z mod 256].

Definition escapeRune (p : Z * bool) : string :=
  let r := p.1 in
  if negb p.2 then "\ufffd"
  else if r =? 34 then String (bc 92) (String (bc 34) "")
  else if r =? 92 then String (bc 92) (String (bc 92) "")
  else if r =? 8 then "\b" else if r =? 12 then "\f" else if r =? 10 then "\n"
  else if r =? 13 then "\r" else if r =? 9 then "\t"
  else if (r <? 32) || (r =? 60) || (r =? 62) || (r =? 38) || (r =? 8232) || (r =? 8233) then u4 r
  else encodeRune r.

Definition escapeString (s : string) : string := foldr (λ p acc, escapeRune p +:+ acc) "" (runes s).

(** ** Printing *)
Definition quoted (raw : string) : string := String (bc 34) (raw +:+ String (bc 34) "").

Fixpoint print (j : json) : string :=
  match j with
  | JNull => "null"
  | JBool true => "true"
  | JBool false => "false"
  | JNum lit => lit
  | JStr raw => quoted raw
  | JArr l => "[" +:+ String.concat "," (map print l) +:+ "]"
  | JObj l => "{" +:+ String.concat "," (map (λ p, quoted p.1 +:+ ":" +:+ print p.2) l) +:+ "}"
  end.

Definition jint (n : Z) : json := JNum (FormatInt n).
Definition jstr (s : string) : json := JStr (escapeString s).

(** ** Decoding into a struct *)

(** The field a member name selects: the exact name, otherwise the first
    equal under case folding. *)
Definition matchField (names : list string) (key : string) : option string :=
  if decide (key ∈ names) then Some key else List.find (equalFold key) names.

Section Decode.
Context {R : Type} (names : list string) (strict : bool).
(** Stores one member's value, reporting whether its type fits. *)
Context (set : string → json → R → R * bool).

Fixpoint decodeMembers (l : list (string * json)) (r : R) (ok : bool) : R * bool :=
  match l with
  | [] => (r, ok)
  | (k, v) :: l' =>
    match matchField names (unquote k) with
    | Some n => let '(r', ok') := set n v r in decodeMembers l' r' (ok && ok')
    | None => decodeMembers l' r (ok && negb strict)
    end
  end.

(** [json.Unmarshal] into a zero struct, or with [strict] a decoder that
    disallows unknown fields followed by its end-of-input check. *)
Definition decodeStruct (zero : R) (payload : string) : option R :=
  match parse payload with
  | Some (JObj l) => let '(r, ok) := decodeMembers l zero true in if ok then Some r else None
  | Some JNull => Some zero
  | _ => None
  end.

(** What holds of the zero value and survives every member holds of the
    decoded struct. *)
Lemma decodeStruct_inv (P : R → Prop) zero payload r :
  P zero → (∀ n v r0, P r0 → P (set n v r0).1) → decodeStruct zero payload = Some r → P r.
Proof.
  intros H0 Hs. unfold decodeStruct. destruct (parse payload) as [[]|]; try done; [by intros [= <-]|].
  assert (∀ l r0 ok, P r0 → P (decodeMembers l r0 ok).1) as Hm.
  { intros l0. induction l0 as [|[k v] l0 IH]; intros r0 ok Hr; [done|]. cbn [decodeMembers].
    destruct (matchField names (unquote k)) as [n|]; [|by apply IH].
    specialize (Hs n v r0 Hr). destruct (set n v r0). by apply IH. }
  specialize (Hm l zero true H0). destruct (decodeMembers l zero true) as [r0 []]; [|done]. by intros [= <-].
Qed.
End Decode.

(** Field kinds: the stored value and whether the JSON type fits. *)
Definition setInt (v : json) (old : Z) : Z * bool :=
  match v with
  | JNum lit => match ParseInt lit with Some n => (n, true) | None => (old, false) end
  | JNull => (old, true)
  | _ => (old, false)
  end.

Definition setIntPtr (v : json) (old : option Z) : option Z * bool :=
  match v with
  | JNum lit => match ParseInt lit with Some n => (Some n, true) | None => (old, false) end
  | JNull => (None, true)
  | _ => (old, false)
  end.

Definition setStr (v : json) (old : string) : string * bool :=
  match v with
  | JStr raw => (unquote raw, true)
  | JNull => (old, true)
  | _ => (old, false)
  end.

Definition setBool (v : json) (old : bool) : bool * bool :=
  match v with
  | JBool b => (b, true)
  | JNull => (old, true)
  | _ => (old, false)
  end.

(** A [[]byte] is base64 text, or an array of its bytes. *)
Definition byteElem (v : json) : option ascii :=
  match v with
  | JNum lit => match ParseInt lit with
                | Some n => if in_rng 0 255 n then Some (bc n) else None
                | None => None
                end
  | JNull => Some (bc 0)
  | _ => None
  end.

Definition setBytes (v : json) (old : string) : string * bool :=
  match v with
  | JStr raw => match b64Decode false (unquote raw) with Some s => (s, true) | None => (old, false) end
  | JNull => ("", true)
  | JArr l => match mapM byteElem l with
              | Some cs => (foldr String "" cs, true)
              | None => (old, false)
              end
  | _ => (old, false)
  end.

Definition setStrs (v : json) (old : list string) : list string * bool :=
  match v with
  | JArr l =>
    foldr (λ e acc, let '(s, ok) := setStr e "" in (s :: acc.1, ok && acc.2)) ([], true) l
  | JNull => ([], true)
  | _ => (old, false)
  end.

(** Concrete payloads are written with apostrophes for quotation marks. *)
Fixpoint dq (s : string) : string :=
  match s with
  | EmptyString => ""
  | String c r => String (if bv c =? 39 then bc 34 else c) (dq r)
  end.

Example parse_sample :
  parse (dq "{ 'a' : [1, -2.5e3, 'x'], 'b':null } ")
  = Some (JObj [("a", JArr [JNum "1"; JNum "-2.5e3"; JStr "x"]); ("b", JNull)]).
Proof. vm_compute. reflexivity. Qed.

(** ** Round trip of a flat object of plain members *)

(** Bytes that need no escape in either direction. *)
Definition plain_char (c : ascii) : bool :=
  in_rng 32 126 (bv c) &&
  negb ((bv c =? 34) || (bv c =? 92) || (bv c =? 60) || (bv c =? 62) || (bv c =? 38)).

Fixpoint plain (s : string) : bool :=
  match s with EmptyString => true | String c r => plain_char c && plain r end.

Section RoundTrip.
Implicit Types (s t rest : string) (c : ascii).

Lemma plain_char_spec c :
  plain_char c = true ->
  32 <= bv c < 127 /\ bv c <> 34 /\ bv c <> 92 /\ bv c <> 60 /\ bv c <> 62 /\ bv c <> 38.
Proof. unfold plain_char, in_rng. lia. Qed.

Lemma plain_app s t : plain (s +:+ t) = plain s && plain t.
Proof. induction s as [|c s IH]; [done|]. rewrite sapp_cons. cbn [plain]. by rewrite IH, andb_assoc. Qed.

Lemma scanStr_plain s q rest :
  bv q = 34 -> plain s = true -> scanStr (s +:+ String q rest) = Some (s, rest).
Proof.
  intros Hq. induction s as [|c s IH]; intros H.
  { change ("" +:+ String q rest) with (String q rest). cbn [scanStr]. by rewrite Hq. }
  cbn [plain] in H. apply andb_true_iff in H as [Hc Hs]. apply plain_char_spec in Hc.
  rewrite sapp_cons. cbn [scanStr].
  replace (bv c =? 34) with false by lia. replace (bv c =? 92) with false by lia.
  replace (bv c <? 32) with false by lia. by rewrite IH.
Qed.

Lemma encodeRune_ascii c : bv c < 128 -> encodeRune (bv c) = String c "".
Proof.
  intros H. unfold encodeRune. replace (bv c <? 128) with true by lia. by rewrite bc_bv.
Qed.

Lemma runes_plain_cons c s : plain_char c = true -> runes (String c s) = (bv c, true) :: runes s.
Proof.
  intros H%plain_char_spec. cbn [runes]. by replace (bv c <? 128) with true by lia.
Qed.

Lemma unescape_plain s : plain s = true -> unescape s = s.
Proof.
  induction s as [|c s IH]; intros H; [done|].
  cbn [plain] in H. apply andb_true_iff in H as [Hc%plain_char_spec Hs].
  cbn [unescape]. replace (bv c =? 92) with false by lia. by rewrite IH.
Qed.

Lemma toValidUTF8_plain s : plain s = true -> toValidUTF8 s = s.
Proof.
  induction s as [|c s IH]; intros H; [done|].
  cbn [plain] in H. apply andb_true_iff in H as [Hc Hs].
  unfold toValidUTF8 in *. rewrite runes_plain_cons by done. cbn [foldr fst].
  apply plain_char_spec in Hc. rewrite encodeRune_ascii by lia. rewrite IH by done. done.
Qed.

Lemma unquote_plain s : plain s = true -> unquote s = s.
Proof. intros H. unfold unquote. rewrite unescape_plain by done. by apply toValidUTF8_plain. Qed.

Lemma escapeString_plain s : plain s = true -> escapeString s = s.
Proof.
  induction s as [|c s IH]; intros H; [done|].
  cbn [plain] in H. apply andb_true_iff in H as [Hc Hs].
  unfold escapeString in *. rewrite runes_plain_cons by done. cbn [foldr].
  rewrite IH by done. apply plain_char_spec in Hc. unfold escapeRune. cbn [fst snd negb].
  repeat match goal with |- context [bv c =? ?k] => replace (bv c =? k) with false by lia end.
  replace (bv c <? 32) with false by lia. cbn [orb]. rewrite encodeRune_ascii by lia. done.
Qed.

Fixpoint digits (s : string) : bool :=
  match s with EmptyString => true | String c r => is_digit c && digits r end.

Definition num_ok (lit : string) : Prop :=
  exists d t, lit = String (digit d) t /\ 0 <= d < 10 /\ digits t = true /\ (d = 0 -> t = "").

Lemma is_digit_digit z : 0 <= z < 10 -> is_digit (digit z) = true.
Proof. intros H. unfold is_digit, in_rng. rewrite bv_digit by done. lia. Qed.

Lemma digits_app s t : digits (s +:+ t) = digits s && digits t.
Proof. induction s as [|c s IH]; [done|]. rewrite sapp_cons. cbn [digits]. by rewrite IH, andb_assoc. Qed.

Lemma fmtAux_lead fuel n acc :
  1 <= n < 10 ^ Z.of_nat fuel ->
  exists d t, fmtAux fuel n acc = String (digit d) (t +:+ acc) /\ 1 <= d < 10 /\ digits t = true.
Proof.
  revert n acc. induction fuel as [|fuel IH]; intros n acc H; [cbn in H; lia|].
  cbn [fmtAux]. destruct (Z.ltb_spec n 10); [exists n, ""; repeat split; lia || done|].
  rewrite Nat2Z.inj_succ, Z.pow_succ_r in H by lia.
  destruct (IH (n / 10) (String (digit (n mod 10)) acc)) as (d & t & -> & Hd & Ht).
  { split; [apply Z.div_le_lower_bound; lia|apply Z.div_lt_upper_bound; lia]. }
  pose proof (Z.mod_pos_bound n 10 ltac:(lia)) as Hm.
  exists d, (t +:+ String (digit (n mod 10)) ""). split; [|split; [done|]].
  - by rewrite sapp_assoc.
  - rewrite digits_app, Ht. cbn [digits andb]. by rewrite is_digit_digit.
Qed.

Lemma FormatInt_num_ok n : 0 <= n <= i64_max -> num_ok (FormatInt n).
Proof.
  intros H. unfold i64_max in H. unfold FormatInt. replace (n <? 0) with false by lia.
  destruct (decide (n = 0)) as [->|Hn]; [exists 0, ""; repeat split; lia || done|].
  destruct (fmtAux_lead 20 n "") as (d & t & -> & Hd & Ht); [lia|].
  exists d, t. rewrite sapp_nil_r. repeat split; try done; lia.
Qed.

Definition delim (e : ascii) : Prop := bv e = 44 \/ bv e = 125.

Lemma spanDigits_stop t e rest :
  digits t = true -> delim e -> spanDigits (t +:+ String e rest) = (t, String e rest).
Proof.
  intros Ht He. induction t as [|c t IH].
  - change ("" +:+ String e rest) with (String e rest). cbn [spanDigits].
    replace (is_digit e) with false by (unfold is_digit, in_rng; destruct He; lia). done.
  - cbn [digits] in Ht. apply andb_true_iff in Ht as [Hc Ht].
    rewrite sapp_cons. cbn [spanDigits]. by rewrite Hc, IH.
Qed.

Lemma scanNum_ok lit e rest :
  num_ok lit -> delim e -> scanNum (lit +:+ String e rest) = Some (lit, String e rest).
Proof.
  intros (d & t & -> & Hd & Ht & Hz) He. rewrite sapp_cons. unfold scanNum.
  rewrite bv_digit by done. replace (48 + d =? 45) with false by lia.
  assert (scanInt (String (digit d) (t +:+ String e rest)) = Some (String (digit d) t, String e rest)) as ->.
  { unfold scanInt. rewrite bv_digit by done. destruct (Z.eqb_spec (48 + d) 48) as [E|E].
    - rewrite Hz by lia. done.
    - rewrite is_digit_digit by done. by rewrite spanDigits_stop. }
  assert (scanFrac (String e rest) = Some ("", String e rest)) as ->.
  { unfold scanFrac. by replace (bv e =? 46) with false by (destruct He; lia). }
  assert (scanExp (String e rest) = Some ("", String e rest)) as ->.
  { unfold scanExp. by replace ((bv e =? 101) || (bv e =? 69)) with false by (destruct He; lia). }
  change ("" +:+ String (digit d) t +:+ "" +:+ "") with (String (digit d) t +:+ "").
  by rewrite sapp_nil_r.
Qed.

Definition flat_ok (j : json) : Prop :=
  match j with
  | JNull | JBool _ => True
  | JNum lit => num_ok lit
  | JStr raw => plain raw = true
  | JArr _ | JObj _ => False
  end.

Lemma dropPrefix_digit d t c p : 0 <= d < 10 -> 57 < bv c -> dropPrefix (String (digit d) t) (String c p) = None.
Proof.
  intros Hd Hc. cbn [dropPrefix]. destruct (ascii_dec c (digit d)) as [->|]; [|done].
  rewrite bv_digit in Hc; lia.
Qed.

Lemma parseValue_flat j f depth e rest :
  flat_ok j -> delim e -> parseValue (S f) depth (print j +:+ String e rest) = Some (j, String e rest).
Proof.
  intros Hj He. destruct j as [|[]|lit|raw| |]; cbn [print]; try done.
  - pose proof Hj as (d & t & -> & Hd & _). rewrite sapp_cons. cbn [parseValue skip].
    assert (is_ws (digit d) = false) as -> by (unfold is_ws; rewrite bv_digit; lia).
    rewrite bv_digit by done.
    replace (48 + d =? 123) with false by lia. replace (48 + d =? 91) with false by lia.
    replace (48 + d =? 34) with false by lia.
    rewrite !dropPrefix_digit by (exact Hd || (unfold bv; cbn; lia)). rewrite <-sapp_cons.
    by rewrite (scanNum_ok _ _ _ Hj He).
  - unfold quoted. assert (bv (bc 34) = 34) as Hq by done. revert Hq.
    generalize (bc 34). intros q Hq. rewrite sapp_cons, sapp_assoc. cbn [parseValue skip].
    assert (is_ws q = false) as -> by (unfold is_ws; lia). rewrite Hq. cbn [Z.eqb Pos.eqb].
    by rewrite sapp_cons, scanStr_plain.
Qed.
End RoundTrip.

Section FlatObject.
Definition printMember (p : string * json) : string := quoted p.1 +:+ ":" +:+ print p.2.
Definition member_ok (p : string * json) : Prop := plain p.1 = true /\ flat_ok p.2.

Lemma parseMember_step p f depth e rest :
  member_ok p -> delim e ->
  parseMembers (S (S f)) depth (printMember p +:+ String e rest) =
  if bv e =? 125 then Some ([p], rest)
  else match parseMembers (S f) depth rest with
       | Some (l, r) => Some (p :: l, r)
       | None => None
       end.
Proof.
  destruct p as [k v]. intros [Hk Hv] He. unfold printMember, quoted. cbn [fst snd].
  assert (bv (bc 34) = 34) as Hq by done. revert Hq. generalize (bc 34). intros q Hq.
  rewrite !sapp_cons, !sapp_assoc. change ((":" +:+ print v)) with (String ":" (print v)).
  rewrite !sapp_cons. remember (S f) as g eqn:Eg. cbn [parseMembers skip].
  assert (is_ws q = false) as -> by (unfold is_ws; lia). rewrite Hq. cbn [Z.eqb Pos.eqb].
  rewrite scanStr_plain by done. rewrite !sapp_nil_l. cbn [skip].
  replace (is_ws ":") with false by done. replace (bv ":" =? 58) with true by done.
  rewrite Eg, parseValue_flat by done. cbn [skip].
  assert (is_ws e = false) as -> by (unfold is_ws; destruct He; lia).
  destruct (Z.eqb_spec (bv e) 125); [done|].
  by replace (bv e =? 44) with true by (destruct He; lia).
Qed.

Lemma parseMembers_flat l f depth rest :
  l <> [] -> Forall member_ok l -> (length l <= f)%nat ->
  parseMembers (S f) depth (String.concat "," (map printMember l) +:+ String "}" rest) = Some (l, rest).
Proof.
  revert f. induction l as [|p l IH]; intros f Hne Hl Hf; [done|].
  inversion Hl as [|? ? Hp Hl']; subst. destruct f as [|f]; [cbn in Hf; lia|].
  destruct l as [|p' l].
  - cbn [map String.concat]. rewrite parseMember_step by (done || (right; done)). done.
  - change (String.concat "," (map printMember (p :: p' :: l)))
      with (printMember p +:+ String "," (String.concat "," (map printMember (p' :: l)))).
    rewrite sapp_assoc, sapp_cons. rewrite parseMember_step by (done || (left; done)).
    replace (bv "," =? 125) with false by done.
    rewrite IH; [done|done|done|cbn in Hf |- *; lia].
Qed.

Lemma print_obj_length l : Z.of_nat (length l) < slen (print (JObj l)).
Proof.
  cbn [print]. change (λ p : string * json, quoted p.1 +:+ ":" +:+ print p.2) with printMember.
  enough (Z.of_nat (length l) <= slen (String.concat "," (map printMember l))) as H.
  { rewrite !slen_app. change (slen "{") with 1. pose proof (slen_nonneg "}"). lia. }
  induction l as [|p [|p' l] IH]; [done|cbn [map String.concat length]|].
  - unfold printMember, quoted. rewrite sapp_cons, slen_cons.
    match goal with |- _ <= 1 + slen ?t => pose proof (slen_nonneg t) end. lia.
  - change (String.concat "," (map printMember (p :: p' :: l)))
      with (printMember p +:+ "," +:+ String.concat "," (map printMember (p' :: l))).
    rewrite !slen_app. pose proof (slen_nonneg (printMember p)).
    change (slen ",") with 1. cbn [length] in *. lia.
Qed.

(** What [encoding/json] writes for a flat struct of plain members it reads
    back as the same members. *)
Theorem parse_print_flat l :
  l <> [] -> Forall member_ok l -> parse (print (JObj l)) = Some (JObj l).
Proof.
  intros Hne Hl. unfold parse. pose proof (print_obj_length l) as Hlen.
  set (fuel := (2 * String.length (print (JObj l)))%nat).
  assert (length l < fuel)%nat as Hfuel by (unfold fuel; unfold slen in Hlen; lia). clearbody fuel.
  cbn [print]. change (λ p : string * json, quoted p.1 +:+ ":" +:+ print p.2) with printMember.
  change ("{" +:+ String.concat "," (map printMember l) +:+ "}")
    with (String "{" (String.concat "," (map printMember l) +:+ String "}" "")).
  cbn [parseValue skip]. replace (is_ws "{") with false by done.
  replace (bv "{" =? 123) with true by done. replace (maxNestingDepth <=? 0) with false by done.
  destruct l as [|[k v] l]; [done|]. destruct fuel as [|fuel]; [cbn in Hfuel; lia|].
  assert (∃ t, String.concat "," (map printMember ((k, v) :: l)) +:+ String "}" "" = String (bc 34) t) as [t Et].
  { destruct l; cbn [map String.concat]; unfold printMember at 1, quoted; cbn [fst snd];
      rewrite ?sapp_cons, ?sapp_assoc; rewrite ?sapp_cons; eauto. }
  rewrite Et. cbn [skip]. replace (is_ws (bc 34)) with false by done.
  replace (bv (bc 34) =? 125) with false by done. rewrite <-Et.
  rewrite parseMembers_flat; [done|done|done|lia].
Qed.
End FlatObject.
