(* ===== verification/Routing.v ===== *)
(** * The routing projection of an artifact (evidence/courier/routing.go)

    The courier reads only an artifact's routing members.  [refuseAmbiguousMembers]
    refuses a payload in which another reader of the same bytes could see a
    different value for one of them: a repeated member, a member misspelled by
    case, or a string that is not made of Unicode scalar values. *)
From S2P Require Import Prelude GoBytes Json.

Module Routing.

(** Whether every escape of a raw string encodes a scalar value: a surrogate
    escape must be a high half followed at once by a low half. *)
Fixpoint scalarEscapes (raw : string) : bool :=
  match raw with
  | EmptyString => true
  | String c r =>
    if negb (bv c =? 92) then scalarEscapes r
    else match r with
    | EmptyString => true
    | String d r1 =>
      if negb (bv d =? 117) then scalarEscapes r1
      else match r1 with
      | String h1 (String h2 (String h3 (String h4 r2))) =>
        if negb (is_hex h1 && is_hex h2 && is_hex h3 && is_hex h4) then false
        else
          let unit := hex4 h1 h2 h3 h4 in
          if is_low unit then false
          else if is_high unit then
            match r2 with
            | String e1 (String e2 (String g1 (String g2 (String g3 (String g4 r3))))) =>
              if (bv e1 =? 92) && (bv e2 =? 117) &&
                 (is_hex g1 && is_hex g2 && is_hex g3 && is_hex g4) && is_low (hex4 g1 g2 g3 g4)
              then scalarEscapes r3
              else false
            | _ => false
            end
          else scalarEscapes r2
      | _ => false
      end
    end
  end.

Definition scalarValueString (raw : string) : bool := utf8_valid raw && scalarEscapes raw.

(** The inner loop over the routing names, for one member key: [None] refuses,
    [Some true] is a routing member, now seen. *)
Fixpoint judgeKey (names : list string) (seen : gset string) (key : string) (routing : bool) : option bool :=
  match names with
  | [] => Some routing
  | n :: names' =>
    if decide (key = n) then
      if decide (n ∈ seen) then None else judgeKey names' ({[n]} ∪ seen) key true
    else if equalFold key n then None
    else judgeKey names' seen key routing
  end.

Definition scalarIfString (v : json) : bool :=
  match v with JStr raw => scalarValueString raw | _ => true end.

Fixpoint unambiguous (names : list string) (seen : gset string) (l : list (string * json)) : bool :=
  match l with
  | [] => true
  | (k, v) :: l' =>
    let key := unquote k in
    match judgeKey names seen key false with
    | None => false
    | Some true => scalarIfString v && unambiguous names ({[key]} ∪ seen) l'
    | Some false => unambiguous names seen l'
    end
  end.

(** [refuseAmbiguousMembers]: whether the payload passes.  A payload that is not
    one JSON value fails here rather than in the decode that follows it. *)
Definition refuseAmbiguousMembers (names : list string) (payload : string) : bool :=
  match parse payload with
  | Some (JObj l) => unambiguous names ∅ l
  | _ => false
  end.

(** [decodeRouting] into a struct with the given members. *)
Definition decodeRouting {R} (names : list string) (set : string → json → R → R * bool)
    (zero : R) (payload : string) : option R :=
  if refuseAmbiguousMembers names payload then decodeStruct names false set zero payload else None.

(** The structs the courier decodes into. *)
Definition routingDeviceID (payload : string) : option string :=
  decodeRouting ["device_id"] (λ _ v r, setStr v r) "" payload.

Record outbound := Outbound { ob_DeviceID : string; ob_LocalSeq : Z }.

Definition setOutbound (n : string) (v : json) (r : outbound) : outbound * bool :=
  if decide (n = "device_id") then
    let '(s, ok) := setStr v (ob_DeviceID r) in (Outbound s (ob_LocalSeq r), ok)
  else let '(z, ok) := setInt v (ob_LocalSeq r) in (Outbound (ob_DeviceID r) z, ok).

Definition routingOutbound (payload : string) : option outbound :=
  decodeRouting ["device_id"; "local_seq"] setOutbound (Outbound "" 0) payload.

Record authorityRouting := AuthorityRouting {
  ar_DeviceID : string; ar_FromSeq : option Z; ar_ToSeq : option Z }.

Definition setAuthority (n : string) (v : json) (r : authorityRouting) : authorityRouting * bool :=
  if decide (n = "device_id") then
    let '(s, ok) := setStr v (ar_DeviceID r) in (AuthorityRouting s (ar_FromSeq r) (ar_ToSeq r), ok)
  else if decide (n = "from_seq") then
    let '(z, ok) := setIntPtr v (ar_FromSeq r) in (AuthorityRouting (ar_DeviceID r) z (ar_ToSeq r), ok)
  else let '(z, ok) := setIntPtr v (ar_ToSeq r) in (AuthorityRouting (ar_DeviceID r) (ar_FromSeq r) z, ok).

Definition routingAuthority (payload : string) : option authorityRouting :=
  decodeRouting ["device_id"; "from_seq"; "to_seq"] setAuthority (AuthorityRouting "" None None) payload.

(** [contracts.ValidEvidenceRoutingDeviceID]. *)
Definition validRoutingDeviceID (device : string) : bool :=
  negb (bool_decide (device = "")) && utf8_valid device && (runeCount device <=? 128) &&
  forallb (λ p, negb (is_control_rune p.1 || is_space_rune p.1 ||
                      (p.1 =? 47) || (p.1 =? 43) || (p.1 =? 35))) (runes device).

(** [recordDevice]: the device a queued record belongs to. *)
Definition recordDevice (payload : string) : string :=
  match routingDeviceID payload with Some d => d | None => "" end.

(** [artifactDeviceID]: the device named in the log. *)
Definition artifactDeviceID (payload : string) : string :=
  match routingDeviceID payload with
  | Some d => if decide (d = "") then "unrecognised" else d
  | None => "unrecognised"
  end.

Example routing_ok :
  routingOutbound (dq "{'v':9,'device_id':'dev-1','local_seq':7,'x':[1]}") = Some (Outbound "dev-1" 7).
Proof. vm_compute. reflexivity. Qed.

Example routing_duplicate : routingDeviceID (dq "{'device_id':'a','device_id':'a'}") = None.
Proof. vm_compute. reflexivity. Qed.

Example routing_case : routingDeviceID (dq "{'device_id':'a','Device_ID':'b'}") = None.
Proof. vm_compute. reflexivity. Qed.

Example routing_escaped_name : routingDeviceID (dq "{'device_id':'a','device\u005fid':'b'}") = None.
Proof. vm_compute. reflexivity. Qed.

Example routing_lone_surrogate : routingDeviceID (dq "{'device_id':'\ud800'}") = None.
Proof. vm_compute. reflexivity. Qed.

(** ** One reading

    What another reader may do with the same bytes: take any member whose name
    folds to the routing name, at any position.  The gateway reads the value
    every such reader reads. *)

(** The members a case-insensitive reader could take for [n]. *)
Definition candidates (n : string) (l : list (string * json)) : list (string * json) :=
  filter (λ p, unquote p.1 = n ∨ equalFold (unquote p.1) n = true) l.

Lemma judgeKey_true names seen key r :
  judgeKey names seen key r = Some true → r = true ∨ key ∈ names ∧ key ∉ seen.
Proof.
  revert seen r. induction names as [|n names IH]; intros seen r; cbn [judgeKey].
  { intros [= ->]. auto. }
  case_decide as E; [subst|].
  - case_decide; [done|]. intros _. right. set_solver.
  - destruct (equalFold key n); [done|]. intros [?|[? ?]]%IH; [auto|right; set_solver].
Qed.

Lemma judgeKey_sound names seen key r b n :
  judgeKey names seen key r = Some b → n ∈ names →
  (key = n ∧ n ∉ seen ∧ b = true) ∨ (key ≠ n ∧ equalFold key n = false).
Proof.
  assert (∀ names seen b, judgeKey names seen key true = Some b → b = true) as Htrue.
  { clear. induction names as [|m names IH]; intros seen b; cbn [judgeKey]; [congruence|].
    repeat case_match; try done; apply IH. }
  revert seen r. induction names as [|m names IH]; intros seen r; [set_solver|].
  cbn [judgeKey]. intros H Hn. case_decide as E; [subst m|].
  - case_decide as Hs; [done|]. pose proof (Htrue _ _ _ H) as ->.
    destruct (decide (key = n)) as [<-|Hne]; [auto|].
    apply elem_of_cons in Hn as [<-|Hn]; [done|].
    destruct (IH _ _ H Hn) as [(? & ? & ?)|?]; [done|auto].
  - destruct (equalFold key m) eqn:F; [done|].
    apply elem_of_cons in Hn as [->|Hn]; [auto|]. by apply (IH seen r).
Qed.

(** After [refuseAmbiguousMembers], a routing name has at most one candidate
    member, spelled exactly; with it seen already it has none. *)
Lemma unambiguous_candidates names n l seen :
  n ∈ names → unambiguous names seen l = true →
  (n ∈ seen → candidates n l = []) ∧
  (length (candidates n l) ≤ 1)%nat ∧
  (∀ p, p ∈ candidates n l → unquote p.1 = n ∧ scalarIfString p.2 = true).
Proof.
  intros Hn. revert seen. induction l as [|[k v] l IH]; intros seen H; [cbn; repeat split; [lia|set_solver..]|].
  cbn [unambiguous] in H. destruct (judgeKey names seen (unquote k) false) as [b|] eqn:E; [|done].
  destruct (judgeKey_sound _ _ _ _ _ n E Hn) as [(Hk & Hs & ->)|(Hk & Hf)].
  - apply andb_true_iff in H as [Hv H]. destruct (IH _ H) as (H1 & H2 & H3).
    unfold candidates. rewrite filter_cons_True by (cbn [fst]; auto). fold (candidates n l).
    rewrite H1 by set_solver. cbn. split; [done|split; [lia|]].
    intros p Hp. apply list_elem_of_singleton in Hp as ->. done.
  - assert (candidates n ((k, v) :: l) = candidates n l) as ->.
    { unfold candidates. rewrite filter_cons_False; [done|]. cbn [fst]. intros [?|?]; congruence. }
    destruct b; [apply andb_true_iff in H as [_ H]|].
    + destruct (IH _ H) as (H1 & H2 & H3). split; [set_solver|done].
    + destruct (IH _ H) as (H1 & H2 & H3). done.
Qed.
End Routing.
