(* ===== verification/Refusal.v ===== *)
(** * The refusal policy (evidence/refusal/refusal.go)

    What each authority refusal status and reason does to a lane's head. *)
From S2P Require Import Prelude.

Module Refusal.

Definition Unrecognised : string := "unrecognised".
Definition PendingRegistrationConflict : string := "pending_registration_conflict".

Definition byteRefusalReasons : list string :=
  ["bad_authenticator"; "binding_mismatch"; "commissioning_digest_mismatch"].

Definition receiverStateRefusalReasons : list string := ["unrecognised_version"; "unknown_key"].

(** Each status's closed reason list; an absent status admits none. *)
Definition statusRefusalReasons (status : Z) : list string :=
  if status =? 400 then ["malformed"]
  else if status =? 401 then ["malformed"; "unknown_key"; "bad_authenticator"; "stale"; "replay"]
  else if status =? 403 then ["not_authorized"]
  else if status =? 409 then ["conflict"; PendingRegistrationConflict]
  else if status =? 422 then byteRefusalReasons ++ receiverStateRefusalReasons
  else if status =? 429 then ["rate_limited"; "pending_registration_limit"]
  else if status =? 503 then ["unavailable"]
  else [].

Definition tableStatuses : list Z := [400; 401; 403; 409; 422; 429; 503].

Definition admits (status : Z) (reason : string) : bool := bool_decide (reason ∈ statusRefusalReasons status).

(** The reason recorded, logged and reported. *)
Definition RecordedReason (status : Z) (reason : string) : string :=
  if status =? 0 then
    if existsb (λ st, admits st reason) tableStatuses then reason else Unrecognised
  else if admits status reason then reason
  else Unrecognised.

Inductive Class : Type := Hold | Handoff | Backoff.

#[global] Instance Class_eq_dec : EqDecision Class.
Proof. solve_decision. Defined.

(** The only place a refusal's status and reason become an action. *)
Definition Policy (status : Z) (reason : string) : Class :=
  if (status =? 401) || (status =? 403) then Handoff
  else if status =? 400 then Hold
  else if status =? 409 then
    if decide (reason = PendingRegistrationConflict) then Backoff else Hold
  else if status =? 422 then
    if decide (reason ∈ receiverStateRefusalReasons) then Handoff else Hold
  else if (status =? 429) || (status =? 503) then Backoff
  else Hold.

(** Whether a durable hold may record [reason] for [status]. *)
Definition Held (status : Z) (reason : string) : bool :=
  if decide (reason = Unrecognised) then true
  else if status =? 0 then
    negb (bool_decide (reason = "")) && bool_decide (RecordedReason 0 reason = reason)
  else admits status reason && bool_decide (Policy status reason = Hold).

(** ** The recorded vocabulary is closed *)

Definition vocabulary : list string :=
  Unrecognised :: flat_map statusRefusalReasons tableStatuses.

Lemma admits_vocabulary status reason : admits status reason = true → reason ∈ vocabulary.
Proof.
  unfold admits, statusRefusalReasons. intros H%bool_decide_eq_true.
  unfold vocabulary, tableStatuses. cbn.
  repeat (case_match; [set_solver|]). set_solver.
Qed.

Lemma RecordedReason_vocabulary status reason : RecordedReason status reason ∈ vocabulary.
Proof.
  unfold RecordedReason. destruct (status =? 0).
  - destruct (existsb _ _) eqn:E; [|set_solver].
    apply existsb_exists in E as (st & _ & H). by eapply admits_vocabulary.
  - destruct (admits status reason) eqn:E; [by eapply admits_vocabulary|set_solver].
Qed.

Lemma RecordedReason_fixed status reason :
  RecordedReason status reason = Unrecognised ∨ RecordedReason status reason = reason.
Proof. unfold RecordedReason. repeat case_match; auto. Qed.

(** Recording what was recorded changes nothing. *)
Lemma RecordedReason_idem status reason :
  RecordedReason status (RecordedReason status reason) = RecordedReason status reason.
Proof.
  unfold RecordedReason.
  repeat match goal with
  | |- context [if ?b then _ else _] => destruct b eqn:?
  end; congruence || done.
Qed.
End Refusal.
