(* ===== verification/Faults.v ===== *)
(** * The courier's active faults (evidence/faults/faults.go)

    A fault is active while any source holds it: raised by the boundary that
    observed the failure, cleared when the same boundary next succeeds. *)
From S2P Require Import Prelude.

Module Faults.

Definition StoreUnavailable : string := "store_unavailable".
Definition AdmissionFailed : string := "admission_failed".
Definition DeliveryImpaired : string := "delivery_impaired".
Definition DeviceUnconfigured : string := "device_unconfigured".

(** fault -> the sources that hold it. *)
Record Recorder := MkRecorder { active : gmap string (gset string) }.

Definition NewRecorder : Recorder := MkRecorder ∅.

(** Raises [fault] for [source] when [failed], and clears it otherwise. *)
Definition Note (fault source : string) (failed : bool) (r : Recorder) : Recorder :=
  let sources := default ∅ (active r !! fault) in
  if failed then MkRecorder (<[fault := {[source]} ∪ sources]> (active r))
  else
    let rest := sources ∖ {[source]} in
    if decide (rest = ∅) then MkRecorder (delete fault (active r))
    else MkRecorder (<[fault := rest]> (active r)).

(** The active faults, sorted and without repeats. *)
Definition Active (r : Recorder) : list string := merge_sort String.le (elements (dom (active r))).

(** ** Abstract view: the set of (fault, source) conditions *)
Definition holds (r : Recorder) (fault source : string) : Prop :=
  ∃ sources, active r !! fault = Some sources ∧ source ∈ sources.

(** No fault is listed with no source. *)
Definition wf (r : Recorder) : Prop := ∀ fault sources, active r !! fault = Some sources → sources ≠ ∅.

Lemma wf_new : wf NewRecorder.
Proof. intros f s. cbn. by rewrite lookup_empty. Qed.

Lemma Note_wf fault source failed r : wf r → wf (Note fault source failed r).
Proof.
  intros Hwf f s. unfold Note. destruct failed; [|case_decide as E]; cbn.
  - destruct (decide (fault = f)) as [->|]; [rewrite lookup_insert_eq|rewrite lookup_insert_ne by done; apply Hwf].
    intros [= <-]. set_solver.
  - destruct (decide (fault = f)) as [->|]; [by rewrite lookup_delete_eq|rewrite lookup_delete_ne by done; apply Hwf].
  - destruct (decide (fault = f)) as [->|]; [rewrite lookup_insert_eq|rewrite lookup_insert_ne by done; apply Hwf].
    by intros [= <-].
Qed.

Lemma holds_Note fault source failed r f s :
  holds (Note fault source failed r) f s ↔
  if decide (f = fault ∧ s = source) then failed = true else holds r f s.
Proof.
  unfold holds, Note.
  destruct (decide (fault = f)) as [->|Hf].
  - destruct failed; [|case_decide as E]; cbn;
      rewrite ?lookup_insert_eq, ?lookup_delete_eq; destruct (active r !! f) as [ss|] eqn:L; cbn in *;
      case_decide as D; split; intros H; try naive_solver set_solver.
  - destruct failed; [|case_decide as E]; cbn;
      rewrite ?lookup_insert_ne, ?lookup_delete_ne by done; rewrite decide_False by naive_solver; done.
Qed.

Lemma elem_of_Active r f : f ∈ Active r ↔ is_Some (active r !! f).
Proof.
  unfold Active. rewrite (merge_sort_Permutation String.le), elem_of_elements. apply elem_of_dom.
Qed.

Lemma Active_holds r f : wf r → f ∈ Active r ↔ ∃ s, holds r f s.
Proof.
  intros Hwf. rewrite elem_of_Active. split.
  - intros [ss L]. pose proof (Hwf _ _ L) as Hne. apply set_choose_L in Hne as [s Hs].
    exists s, ss. done.
  - intros (s & ss & L & _). eauto.
Qed.

Lemma Active_sorted r : StronglySorted String.le (Active r).
Proof. apply (StronglySorted_merge_sort _). Qed.

Lemma Active_NoDup r : NoDup (Active r).
Proof. unfold Active. rewrite (merge_sort_Permutation String.le). apply NoDup_elements. Qed.
End Faults.
