(* ===== verification/Store.v ===== *)
(** * The durable store directory (evidence/durable, writeFileAtomicRaw)

    A directory as the process sees it, as it is known to be on the disk, and
    the changes in between.  Every system call may fail: the state carries the
    outcomes still to come, and a call past their end succeeds.  A crash leaves
    each name at its last durable value or at any value it took since, and a
    file whose bytes were not synced with any bytes. *)
From S2P Require Import Prelude GoBytes.

Module Store.

Inductive fkind : Type := FRegular | FSymlink | FDirectory | FOther.

Record file := File { f_kind : fkind; f_perm : Z; f_data : string; f_synced : bool }.

#[global] Instance fkind_eq_dec : EqDecision fkind.
Proof. solve_decision. Defined.
#[global] Instance file_eq_dec : EqDecision file.
Proof. solve_decision. Defined.

Record dirst := Dir {
  d_vol : gmap string file;
  d_dur : gmap string file;
  d_log : list (string * option file);
  d_io : list bool }.

(** A private regular file: [mode.IsRegular()] and [perm & 0o077 == 0]. *)
Definition private (f : file) : bool := Z.land (f_perm f) 63 =? 0.
Definition regular (f : file) : bool := bool_decide (f_kind f = FRegular).

(** ** System calls *)

(** The next outcome: [true] fails the call. *)
Definition next_io (d : dirst) : bool * dirst :=
  match d_io d with
  | b :: io => (b, Dir (d_vol d) (d_dur d) (d_log d) io)
  | [] => (false, d)
  end.

Definition sys {A} (msg : string) (act : dirst → A * dirst) : EM dirst A := λ d,
  let '(fails, d') := next_io d in
  if fails then (Err (EMsg msg), d') else let '(a, d'') := act d' in (Ok a, d'').

(** A directory entry changes: visible at once, durable at the next sync. *)
Definition change (name : string) (o : option file) (d : dirst) : dirst :=
  Dir (match o with Some f => <[name := f]> (d_vol d) | None => delete name (d_vol d) end)
      (d_dur d) (d_log d ++ [(name, o)]) (d_io d).

(** The open temporary file's bytes and flags, under the name it still has. *)
Definition update (name : string) (g : file → file) (d : dirst) : dirst :=
  match d_vol d !! name with Some f => change name (Some (g f)) d | None => d end.

(** [os.CreateTemp(dir, prefix)]: a name not in use. *)
Fixpoint freshName (fuel : nat) (n : Z) (prefix : string) (used : gmap string file) : string :=
  let name := prefix +:+ FormatInt n in
  match fuel with
  | O => name
  | S fuel' => match used !! name with Some _ => freshName fuel' (n + 1) prefix used | None => name end
  end.

Definition createTemp (prefix : string) (d : dirst) : string * dirst :=
  let name := freshName (size (d_vol d)) 0 prefix (d_vol d) in
  (name, change name (Some (File FRegular 384 "" false)) d).

(** [os.Remove]: the file is gone, was not there, or the call failed. *)
Inductive removal : Type := Removed | Missing | RemoveFailed.

Definition osRemove (name : string) (d : dirst) : removal * dirst :=
  let '(fails, d') := next_io d in
  if fails then (RemoveFailed, d')
  else match d_vol d' !! name with
       | Some _ => (Removed, change name None d')
       | None => (Missing, d')
       end.

(** [durable.SyncDirectory]. *)
Definition syncDirectory (msg : string) : EM dirst unit :=
  sys msg (λ d, (tt, Dir (d_vol d) (d_vol d) [] (d_io d))).

(** The deferred clean-up of an uncommitted temporary file; its outcome is
    ignored. *)
Definition discardTemp (tmp : string) (d : dirst) : dirst := (osRemove tmp d).2.

(** The texts of the errors of one atomic writer. *)
Record writeTexts := Texts {
  t_create : string; t_protect : string; t_write : string; t_sync : string;
  t_close : string; t_commit : string; t_persist : string }.

(** The steps of an atomic write after the temporary file exists. *)
Definition commitTemp (w : writeTexts) (tmp name encoded : string) : EM dirst unit := (
  sys (t_protect w) (λ d, (tt, update tmp (λ f, File (f_kind f) 384 (f_data f) (f_synced f)) d)) ;;;
  sys (t_write w) (λ d, (tt, update tmp (λ f, File (f_kind f) (f_perm f) encoded false) d)) ;;;
  sys (t_sync w) (λ d, (tt, update tmp (λ f, File (f_kind f) (f_perm f) (f_data f) true) d)) ;;;
  sys (t_close w) (λ d, (tt, d)) ;;;
  sys (t_commit w)
    (λ d, (tt, match d_vol d !! tmp with
               | Some f => change name (Some f) (change tmp None d)
               | None => d
               end)) ;;;
  syncDirectory (t_persist w))%em.

(** Temp file, fsync, rename, directory fsync. *)
Definition atomicWrite (w : writeTexts) (prefix name encoded : string) : EM dirst unit := λ d,
  match sys (t_create w) (createTemp prefix) d with
  | (Err e, d1) => (Err e, d1)
  | (Ok tmp, d1) =>
    match commitTemp w tmp name encoded d1 with
    | (Ok _, d2) => (Ok tt, d2)
    | (Err e, d2) => (Err e, discardTemp tmp d2)
    end
  end.

(** [writeFileAtomicRaw]. *)
Definition writeFileAtomicRaw : string → string → string → EM dirst unit :=
  atomicWrite (Texts "evidence: create queue record" "evidence: protect queue record" "evidence: write queue record"
    "evidence: sync queue record" "evidence: close queue record" "evidence: commit queue record"
    "evidence: persist queue commit").

(** ** Crashes *)
Definition may_leave (o o' : option file) : Prop :=
  match o, o' with
  | None, None => True
  | Some f, Some f' =>
    f_kind f' = f_kind f ∧ f_perm f' = f_perm f ∧ (f_synced f = true → f_data f' = f_data f)
  | _, _ => False
  end.

Definition crash (d : dirst) (m : gmap string file) : Prop :=
  ∀ n, may_leave (d_dur d !! n) (m !! n) ∨ ∃ o, (n, o) ∈ d_log d ∧ may_leave o (m !! n).

Lemma may_leave_refl o : may_leave o o.
Proof. by destruct o. Qed.

(** Losing everything that was not synced is one of the crashes. *)
Lemma crash_to_durable d : crash d (d_dur d).
Proof. intros n. left. apply may_leave_refl. Qed.

(** The directory a new process finds: what the crash left is what the disk
    holds. *)
Definition settled (f : file) : file := File (f_kind f) (f_perm f) (f_data f) true.
Definition reboot (m : gmap string file) (io : list bool) : dirst := Dir (settled <$> m) (settled <$> m) [] io.

(** A name holds [f] whatever a crash does. *)
Definition durably (d : dirst) (n : string) (f : file) : Prop :=
  d_vol d !! n = Some f ∧ d_dur d !! n = Some f ∧ f_synced f = true ∧
  ∀ o, (n, o) ∈ d_log d → o = Some f.

Lemma durably_crash d n f m :
  durably d n f → crash d m →
  ∃ f', m !! n = Some f' ∧ f_kind f' = f_kind f ∧ f_perm f' = f_perm f ∧ f_data f' = f_data f.
Proof.
  intros (_ & Hd & Hs & Hl) Hc. destruct (Hc n) as [H|(o & Ho & H)].
  - rewrite Hd in H. destruct (m !! n) as [f'|]; [|done]. exists f'. naive_solver.
  - rewrite (Hl _ Ho) in H. destruct (m !! n) as [f'|]; [|done]. exists f'. naive_solver.
Qed.

(** ** What each call leaves of the other names *)
Section Frame.
Implicit Types (d : dirst) (n : string).

(** [n] is exactly as it was, durably or not. *)
Definition same_at (n : string) (d d' : dirst) : Prop :=
  d_vol d' !! n = d_vol d !! n ∧
  (d_dur d' !! n = d_dur d !! n ∨ d_dur d' !! n = d_vol d !! n) ∧
  ∀ o, (n, o) ∈ d_log d' → (n, o) ∈ d_log d.

#[global] Instance same_at_refl n : Reflexive (same_at n).
Proof. intros d. unfold same_at. auto. Qed.

#[global] Instance same_at_trans n : Transitive (same_at n).
Proof.
  intros d1 d2 d3 (V1 & D1 & L1) (V2 & D2 & L2). unfold same_at.
  rewrite V2, V1. split; [done|]. split; [|auto].
  destruct D1 as [E1|E1], D2 as [E2|E2]; rewrite ?E2, ?V1, ?E1; auto.
Qed.

Lemma same_at_durably n d d' f : same_at n d d' → durably d n f → durably d' n f.
Proof.
  intros (V & D & L) (Hv & Hd & Hs & Hl). unfold durably.
  rewrite V. repeat split; auto. destruct D as [->| ->]; done.
Qed.

Lemma next_io_same d : ∀ n, same_at n d (next_io d).2.
Proof. intros n. unfold next_io. destruct (d_io d); unfold same_at; cbn; auto. Qed.

Lemma change_same n name o d : n ≠ name → same_at n d (change name o d).
Proof.
  intros H. unfold same_at, change. cbn. split.
  - destruct o; [by rewrite lookup_insert_ne|by rewrite lookup_delete_ne].
  - split; [auto|]. intros o' [?|Ho]%elem_of_app; [done|].
    apply list_elem_of_singleton in Ho. congruence.
Qed.

Lemma update_same n name g d : n ≠ name → same_at n d (update name g d).
Proof. intros H. unfold update. case_match; [by apply change_same|reflexivity]. Qed.

Lemma sys_same {A} msg (act : dirst → A * dirst) n d r d' :
  (∀ d, same_at n d (act d).2) → sys msg act d = (r, d') → same_at n d d'.
Proof.
  intros Ha. unfold sys. pose proof (next_io_same d n) as Hn.
  destruct (next_io d) as [fails d1]. cbn in Hn.
  destruct fails; [by intros [= <- <-]|].
  specialize (Ha d1). destruct (act d1) as [a d2]. intros [= <- <-]. etransitivity; done.
Qed.

Lemma osRemove_same n name d : n ≠ name → same_at n d (osRemove name d).2.
Proof.
  intros H. unfold osRemove. pose proof (next_io_same d n) as Hn.
  destruct (next_io d) as [fails d1]. cbn in Hn. destruct fails; [done|].
  case_match; [|done]. cbn. etransitivity; [done|]. by apply change_same.
Qed.

Lemma syncDirectory_same n msg d r d' : syncDirectory msg d = (r, d') → same_at n d d'.
Proof.
  apply sys_same. intros d0. unfold same_at. cbn. split; [done|]. split; [auto|]. intros o Ho. by apply not_elem_of_nil in Ho.
Qed.
End Frame.

(** ** The atomic write *)
Section AtomicWrite.
Implicit Types (d : dirst) (n name tmp prefix encoded : string).

Lemma sys_ok {A} msg (act : dirst → A * dirst) d a d' :
  sys msg act d = (Ok a, d') →
  ∃ d1, d_vol d1 = d_vol d ∧ d_dur d1 = d_dur d ∧ d_log d1 = d_log d ∧ act d1 = (a, d').
Proof.
  unfold sys, next_io. destruct (d_io d) as [|b io] eqn:E.
  - destruct (act d) eqn:Ea. intros [= <- <-]. eauto.
  - destruct b; [done|]. destruct (act _) eqn:Ea. intros [= <- <-]. eexists. split_and!; [..|exact Ea]; done.
Qed.

Lemma update_vol tmp g d f :
  d_vol d !! tmp = Some f → d_vol (update tmp g d) !! tmp = Some (g f).
Proof. intros H. unfold update. rewrite H. cbn. apply lookup_insert_eq. Qed.

Lemma sys_update_ok msg tmp g d r d' f :
  sys msg (λ d, (tt, update tmp g d)) d = (Ok r, d') → d_vol d !! tmp = Some f →
  d_vol d' !! tmp = Some (g f).
Proof. intros (d1 & V & _ & _ & [= _ <-])%sys_ok H. apply update_vol. by rewrite V. Qed.

Lemma commitTemp_same w tmp name encoded n d r d' :
  n ≠ tmp → n ≠ name → commitTemp w tmp name encoded d = (r, d') → same_at n d d'.
Proof.
  intros Ht Hn H. unfold commitTemp in H.
  repeat match goal with
  | H : ebind _ _ _ = _ |- _ =>
    apply ebind_inv in H as [([] & ?s & ?Hm & H)|(? & H & ->)];
    [ match goal with Hm : sys _ _ _ = _ |- _ =>
        eapply (sys_same _ _ n) in Hm; [etransitivity; [exact Hm|clear Hm]|] end | eapply (sys_same _ _ n); [|exact H] ]
  | H : syncDirectory _ _ = _ |- _ => by eapply syncDirectory_same
  | |- ∀ _, same_at _ _ _ => intros ?; cbn; try (by apply update_same); try reflexivity
  end.
  all: case_match; [|reflexivity]; etransitivity; [by apply (change_same n tmp None)|by apply change_same].
Qed.

Lemma commitTemp_ok w tmp name encoded d r d' f :
  tmp ≠ name → d_vol d !! tmp = Some f → f_kind f = FRegular →
  commitTemp w tmp name encoded d = (Ok r, d') →
  d_log d' = [] ∧ d_dur d' = d_vol d' ∧ d_vol d' !! name = Some (File FRegular 384 encoded true).
Proof.
  intros Hne Hf Hk H. unfold commitTemp in H.
  apply ebind_ok in H as ([] & d1 & H1 & H). apply (sys_update_ok _ _ _ _ _ _ _ H1) in Hf. clear H1.
  apply ebind_ok in H as ([] & d2 & H1 & H). apply (sys_update_ok _ _ _ _ _ _ _ H1) in Hf. clear H1.
  apply ebind_ok in H as ([] & d3 & H1 & H). apply (sys_update_ok _ _ _ _ _ _ _ H1) in Hf. clear H1.
  apply ebind_ok in H as ([] & d4 & H1 & H). apply sys_ok in H1 as (d3' & V3 & _ & _ & [= <-]).
  apply ebind_ok in H as ([] & d5 & H1 & H). apply sys_ok in H1 as (d4' & V4 & _ & _ & [= E5]).
  apply sys_ok in H as (d5' & V5 & _ & _ & [= _ <-]). cbn.
  cbn in Hf. rewrite Hk in Hf.
  split; [done|]. split; [done|]. rewrite V5, <-E5, V4, V3, Hf. cbn. apply lookup_insert_eq.
Qed.

Lemma freshName_prefix fuel k prefix used : hasPrefix (freshName fuel k prefix used) prefix = true.
Proof.
  revert k. induction fuel as [|fuel IH]; intros k; cbn [freshName]; [apply hasPrefix_app|].
  case_match; [apply IH|apply hasPrefix_app].
Qed.

(** Whatever its outcome, the write touches only its own name and temporary
    files. *)
Lemma atomicWrite_same w prefix name encoded n d r d' :
  hasPrefix n prefix = false → n ≠ name →
  atomicWrite w prefix name encoded d = (r, d') → same_at n d d'.
Proof.
  intros Hp Hn. unfold atomicWrite.
  assert (∀ k, hasPrefix k prefix = true → n ≠ k) as Htmp by (intros k Hk ->; congruence).
  destruct (sys _ (createTemp prefix) d) as [[tmp|e] d1] eqn:E.
  - assert (hasPrefix tmp prefix = true) as Hpt.
    { apply sys_ok in E as (d0 & _ & _ & _ & [= <- _]). apply freshName_prefix. }
    apply (sys_same _ _ n) in E; [|intros d0; cbn; apply change_same, Htmp, freshName_prefix].
    destruct (commitTemp w tmp name encoded d1) as [[[]|e] d2] eqn:E2; intros [= <- <-];
      (etransitivity; [exact E|]); apply (commitTemp_same _ _ _ _ n) in E2; auto.
    etransitivity; [exact E2|]. unfold discardTemp. apply osRemove_same. auto.
  - intros [= <- <-]. eapply (sys_same _ _ n); [|exact E].
    intros d0. cbn. apply change_same, Htmp, freshName_prefix.
Qed.

(** Every error of the write is a message. *)
Lemma sys_msg {A} msg (act : dirst → A * dirst) d e d' : sys msg act d = (Err e, d') → e = EMsg msg.
Proof. unfold sys. destruct (next_io d) as [[] d1]; [by intros [= <- _]|]. by destruct (act d1). Qed.

Lemma atomicWrite_msg w prefix name encoded d e d' :
  atomicWrite w prefix name encoded d = (Err e, d') → ∃ msg, e = EMsg msg.
Proof.
  unfold atomicWrite. destruct (sys _ (createTemp prefix) d) as [[tmp|e0] d1] eqn:E.
  2: { intros [= <- _]. apply sys_msg in E. eauto. }
  destruct (commitTemp w tmp name encoded d1) as [[[]|e0] d2] eqn:E2; [done|]. intros [= <- _].
  unfold commitTemp in E2.
  repeat (apply ebind_inv in E2 as [([] & ?s & _ & E2)|(? & E2 & [= <-])]; [|by apply sys_msg in E2; eauto]).
  apply sys_msg in E2. eauto.
Qed.

(** A write that returns without error has its bytes on the disk. *)
Lemma atomicWrite_ok w prefix name encoded d r d' :
  hasPrefix name prefix = false →
  atomicWrite w prefix name encoded d = (Ok r, d') →
  d_log d' = [] ∧ d_dur d' = d_vol d' ∧ durably d' name (File FRegular 384 encoded true).
Proof.
  intros Hp. unfold atomicWrite.
  destruct (sys _ (createTemp prefix) d) as [[tmp|e] d1] eqn:E; [|done].
  apply sys_ok in E as (d0 & _ & _ & _ & E). unfold createTemp in E. injection E as Et Ed.
  assert (tmp ≠ name) as Hne by (intros <-; subst tmp; by rewrite freshName_prefix in Hp).
  destruct (commitTemp w tmp name encoded d1) as [[[]|e] d2] eqn:E2; [|done]. intros [= <- <-].
  eapply (commitTemp_ok _ _ _ _ _ _ _ (File FRegular 384 "" false)) in E2 as (L & D & V); [|done| |done].
  - split; [done|]. split; [done|]. unfold durably. rewrite D, V, L.
    repeat split. intros o Ho. by apply not_elem_of_nil in Ho.
  - subst. cbn. apply lookup_insert_eq.
Qed.

(** A directory whose calls all succeed. *)
Lemma sys_healthy {A} msg (act : dirst → A * dirst) d :
  d_io d = [] → sys msg act d = (Ok (act d).1, (act d).2).
Proof. intros E. unfold sys, next_io. rewrite E. by destruct (act d). Qed.

Lemma change_io name o d : d_io (change name o d) = d_io d.
Proof. done. Qed.
Lemma update_io name g d : d_io (update name g d) = d_io d.
Proof. unfold update. by destruct (d_vol d !! name). Qed.

Lemma atomicWrite_healthy w prefix name encoded d :
  d_io d = [] → ∃ d', atomicWrite w prefix name encoded d = (Ok tt, d').
Proof.
  intros E. unfold atomicWrite. rewrite sys_healthy by done. cbn [createTemp fst snd].
  set (tmp := freshName _ _ _ _). set (d1 := change tmp _ d). assert (d_io d1 = []) as E1 by done.
  unfold commitTemp, syncDirectory, ebind.
  repeat (rewrite sys_healthy; [cbn [fst snd]|]); [by eexists|..]; rewrite ?update_io; try done.
  destruct (d_vol _ !! tmp); rewrite ?change_io, ?update_io; done.
Qed.

(** Every value the name may be found with satisfies [P]. *)
Definition values_at (P : option file → Prop) (n : string) (d : dirst) : Prop :=
  P (d_vol d !! n) ∧ P (d_dur d !! n) ∧ ∀ o, (n, o) ∈ d_log d → P o.

Lemma values_same P n d d' : same_at n d d' → values_at P n d → values_at P n d'.
Proof. intros (V & D & L) (H1 & H2 & H3). unfold values_at. rewrite V. split; [done|]. split; [|auto]. by destruct D as [->| ->]. Qed.

Lemma values_change P n o d : P o → values_at P n d → values_at P n (change n o d).
Proof.
  intros Ho (H1 & H2 & H3). unfold values_at, change. cbn.
  split; [destruct o; [by rewrite lookup_insert_eq|by rewrite lookup_delete_eq]|]. split; [done|].
  intros o' [?|Hin]%elem_of_app; [auto|]. apply list_elem_of_singleton in Hin. congruence.
Qed.

Lemma values_crash (P Q : option file → Prop) n d m :
  (∀ o o', may_leave o o' → P o → Q o') → values_at P n d → crash d m → Q (m !! n).
Proof. intros HP (_ & H2 & H3) Hc. destruct (Hc n) as [H|(o & Ho & H)]; eauto. Qed.

Lemma values_sys {A} P n msg (act : dirst → A * dirst) d r d' :
  (∀ d0, d_vol d0 = d_vol d → values_at P n d0 → values_at P n (act d0).2) →
  values_at P n d → sys msg act d = (r, d') → values_at P n d'.
Proof.
  intros Ha Hv. unfold sys, next_io. destruct (d_io d) as [|b io].
  - specialize (Ha d eq_refl Hv). destruct (act d). by intros [= <- <-].
  - set (d0 := Dir (d_vol d) (d_dur d) (d_log d) io). assert (values_at P n d0) as H0 by exact Hv.
    destruct b; [by intros [= <- <-]|]. specialize (Ha d0 eq_refl H0). destruct (act d0). by intros [= <- <-].
Qed.

Lemma values_update P n tmp g d : n ≠ tmp → values_at P n d → values_at P n (update tmp g d).
Proof. intros Hn. apply values_same. by apply update_same. Qed.

Lemma commitTemp_values w (P : option file → Prop) tmp name encoded d r d' f :
  name ≠ tmp → d_vol d !! tmp = Some f → f_kind f = FRegular → P (Some (File FRegular 384 encoded true)) →
  values_at P name d → commitTemp w tmp name encoded d = (r, d') → values_at P name d'.
Proof.
  intros Hne Hf Hk HP Hv H. unfold commitTemp in H.
  assert (∀ msg g d0 r0 d1, sys msg (λ d, (tt, update tmp g d)) d0 = (r0, d1) →
    values_at P name d0 → values_at P name d1) as Hup.
  { intros msg g d0 r0 d1 Es Hv0. eapply values_sys; [|exact Hv0|exact Es]. intros d2 _. by apply values_update. }
  apply ebind_inv in H as [([] & d1 & H1 & H)|(? & H1 & _)]; apply (Hup _ _ _ _ _ H1) in Hv; [|done].
  apply (sys_update_ok _ _ _ _ _ _ _ H1) in Hf. clear H1.
  apply ebind_inv in H as [([] & d2 & H1 & H)|(? & H1 & _)]; apply (Hup _ _ _ _ _ H1) in Hv; [|done].
  apply (sys_update_ok _ _ _ _ _ _ _ H1) in Hf. clear H1.
  apply ebind_inv in H as [([] & d3 & H1 & H)|(? & H1 & _)]; apply (Hup _ _ _ _ _ H1) in Hv; [|done].
  apply (sys_update_ok _ _ _ _ _ _ _ H1) in Hf. clear H1. cbn in Hf. rewrite Hk in Hf.
  assert (∀ msg d0 r0 d1, sys msg (λ d, (tt, d)) d0 = (r0, d1) → values_at P name d0 → values_at P name d1) as Hid.
  { intros msg d0 r0 d5 Es Hv0. eapply values_sys; [|exact Hv0|exact Es]. done. }
  apply ebind_inv in H as [([] & d4 & H1 & H)|(? & H1 & _)]; apply (Hid _ _ _ _ H1) in Hv; [|done].
  apply sys_ok in H1 as (d3' & V3 & _ & _ & [= <-]). rewrite <-V3 in Hf.
  assert (∀ d0, d_vol d0 = d_vol d3' → values_at P name d0 →
    values_at P name (match d_vol d0 !! tmp with Some f => change name (Some f) (change tmp None d0) | None => d0 end)) as Hren.
  { intros d0 V0 Hv0. rewrite V0, Hf. apply values_change; [done|]. eapply values_same; [|exact Hv0]. by apply change_same. }
  apply ebind_inv in H as [([] & d5 & H1 & H)|(? & H1 & _)].
  - eapply values_same; [by eapply syncDirectory_same|]. eapply values_sys; [|exact Hv|exact H1]. exact Hren.
  - eapply values_sys; [|exact Hv|exact H1]. exact Hren.
Qed.

(** Whatever its outcome, an atomic write leaves its name with a value it
    may have had before, or the whole new one. *)
Lemma atomicWrite_values w (P : option file → Prop) prefix name encoded d r d' :
  hasPrefix name prefix = false → P (Some (File FRegular 384 encoded true)) →
  values_at P name d → atomicWrite w prefix name encoded d = (r, d') → values_at P name d'.
Proof.
  intros Hp HP Hv. unfold atomicWrite.
  assert (∀ k, hasPrefix k prefix = true → name ≠ k) as Htmp by (intros k Hk ->; congruence).
  destruct (sys _ (createTemp prefix) d) as [x d1] eqn:E.
  assert (values_at P name d1) as Hv1.
  { eapply values_sys; [|exact Hv|exact E]. intros d0 _. cbn. apply values_same, change_same, Htmp, freshName_prefix. }
  destruct x as [tmp|e]; [|by intros [= <- <-]].
  apply sys_ok in E as (d0 & _ & _ & _ & E). unfold createTemp in E. injection E as <- <-.
  set (tmp := freshName _ _ _ _) in *. assert (name ≠ tmp) as Hne by (apply Htmp, freshName_prefix).
  destruct (commitTemp w tmp name encoded _) as [a d2] eqn:E2.
  eapply commitTemp_values in E2; [|exact Hne|cbn; apply lookup_insert_eq|done..].
  destruct a as [[]|]; intros [= <- <-]; [done|]. eapply values_same; [|exact E2]. by apply osRemove_same.
Qed.
End AtomicWrite.

(** The queue's own writer. *)
Section QueueWrite.
Implicit Types (d : dirst) (n name prefix encoded : string).

Lemma writeFileAtomicRaw_same prefix name encoded n d r d' :
  hasPrefix n prefix = false → n ≠ name → writeFileAtomicRaw prefix name encoded d = (r, d') → same_at n d d'.
Proof. apply atomicWrite_same. Qed.

Lemma writeFileAtomicRaw_msg prefix name encoded d e d' :
  writeFileAtomicRaw prefix name encoded d = (Err e, d') → ∃ msg, e = EMsg msg.
Proof. apply atomicWrite_msg. Qed.

Lemma writeFileAtomicRaw_ok prefix name encoded d r d' :
  hasPrefix name prefix = false →
  writeFileAtomicRaw prefix name encoded d = (Ok r, d') →
  d_log d' = [] ∧ d_dur d' = d_vol d' ∧ durably d' name (File FRegular 384 encoded true).
Proof. apply atomicWrite_ok. Qed.

Lemma writeFileAtomicRaw_healthy prefix name encoded d :
  d_io d = [] → ∃ d', writeFileAtomicRaw prefix name encoded d = (Ok tt, d').
Proof. apply atomicWrite_healthy. Qed.
End QueueWrite.
End Store.
