(* ===== verification/Queue.v ===== *)
(** * The durable evidence queue (evidence/courier/queue.go, hold.go)

    Data, the on-disk record format, and every operation that changes the
    queue: admission, retirement, holds and back-offs.  An operation runs on
    the queue, its directory and the shared fault recorder together, under the
    queue's mutex in the source and as one state transformer here. *)
From S2P Require Import Prelude GoBytes Sha256 Json Routing Refusal Faults Store.
Import Routing Store.

Module Queue.
Local Open Scope em_scope.

(** ** Artifact types and lanes *)
Definition ArtifactDeliveryEnvelope : string := "delivery_envelope".
Definition ArtifactAnchorRegistration : string := "anchor_registration".
Definition ArtifactCheckpoint : string := "checkpoint".
Definition artifactDeliveryReceipt : string := "delivery_receipt".
Definition artifactEpochConfirmation : string := "epoch_confirmation".
Definition artifactCustodyAcknowledgement : string := "custody_acknowledgement".

Definition validOutboundArtifactType (kind : string) : bool :=
  bool_decide (kind ∈ [ArtifactDeliveryEnvelope; ArtifactAnchorRegistration; ArtifactCheckpoint]).

Definition validQueueArtifactType (kind : string) : bool :=
  validOutboundArtifactType kind ||
  bool_decide (kind = artifactDeliveryReceipt) || bool_decide (kind = artifactEpochConfirmation) ||
  bool_decide (kind = artifactCustodyAcknowledgement).

Inductive Lane : Type := LaneRegistration | LaneEvidence.

Definition laneName (l : Lane) : string :=
  match l with LaneRegistration => "registration" | LaneEvidence => "evidence" end.

Record LaneKey := MkLaneKey { lk_Device : string; lk_Lane : Lane }.

#[global] Instance Lane_eq_dec : EqDecision Lane.
Proof. solve_decision. Defined.
#[global] Instance Lane_countable : Countable Lane.
Proof.
  refine (inj_countable' (λ l, match l with LaneRegistration => true | LaneEvidence => false end)
            (λ b : bool, if b then LaneRegistration else LaneEvidence) _). by intros [].
Defined.
#[global] Instance LaneKey_eq_dec : EqDecision LaneKey.
Proof. solve_decision. Defined.
#[global] Instance LaneKey_countable : Countable LaneKey.
Proof.
  refine (inj_countable' (λ k, (lk_Device k, lk_Lane k)) (λ p, MkLaneKey p.1 p.2) _). by intros [].
Defined.

Definition LaneOf (kind : string) : Lane :=
  if decide (kind = ArtifactAnchorRegistration) then LaneRegistration else LaneEvidence.

(** ** Records *)
Record QueuedArtifact := MkQueued { qa_ID : string; qa_Type : string; qa_Payload : string; qa_EnqueuedAtMS : Z }.

Record queueRecord := MkRecord {
  qr_V : Z; qr_ID : string; qr_Type : string; qr_QueueSeq : Z; qr_EnqueuedAtMS : Z; qr_Payload : string }.

Record HoldRecord := MkHold {
  h_V : Z; h_QueueRecord : string; h_ArtifactDigest : string; h_ArtifactType : string;
  h_RefusalStatus : Z; h_Reason : string; h_FirstHeldAtMS : Z; h_Acknowledged : bool }.

Record BackoffRecord := MkBackoff {
  b_V : Z; b_QueueRecord : string; b_NotBeforeMS : Z; b_Attempts : Z; b_RetryAfterMS : option Z }.

#[global] Instance queueRecord_eq_dec : EqDecision queueRecord.
Proof. solve_decision. Defined.

Definition queueRecordVersion : Z := 1.
Definition queueFileSuffix : string := ".json".
Definition queueMarkerName : string := ".ori-evidence-queue-v1".
Definition queueTempPrefix : string := ".ori-evidence-queue-tmp-".
Definition holdFilePrefix : string := ".ori-evidence-hold-".
Definition backoffFilePrefix : string := ".ori-evidence-backoff-".

(** [sha256(kind || 0 || payload)], in hexadecimal. *)
Definition artifactID (kind payload : string) : string :=
  sha256Hex (kind +:+ String (bc 0) payload).

Definition payloadDigest (payload : string) : string := "sha256:" +:+ sha256Hex payload.

Definition recordArtifact (r : queueRecord) : QueuedArtifact :=
  MkQueued (qr_ID r) (qr_Type r) (qr_Payload r) (qr_EnqueuedAtMS r).

(** [json.Marshal] and [json.Unmarshal] of a queue record. *)
Definition recordMembers (r : queueRecord) : list (string * json) :=
  [("v", jint (qr_V r)); ("id", jstr (qr_ID r)); ("artifact_type", jstr (qr_Type r));
   ("queue_seq", jint (qr_QueueSeq r)); ("enqueued_at_ms", jint (qr_EnqueuedAtMS r));
   ("payload", JStr (b64Encode (qr_Payload r)))].

Definition encodeRecord (r : queueRecord) : string := print (JObj (recordMembers r)).

Definition recordNames : list string :=
  ["v"; "id"; "artifact_type"; "queue_seq"; "enqueued_at_ms"; "payload"].

Definition setRecord (n : string) (v : json) (r : queueRecord) : queueRecord * bool :=
  let '(MkRecord vv id ty sq at_ pl) := r in
  if decide (n = "v") then let '(x, ok) := setInt v vv in (MkRecord x id ty sq at_ pl, ok)
  else if decide (n = "id") then let '(x, ok) := setStr v id in (MkRecord vv x ty sq at_ pl, ok)
  else if decide (n = "artifact_type") then let '(x, ok) := setStr v ty in (MkRecord vv id x sq at_ pl, ok)
  else if decide (n = "queue_seq") then let '(x, ok) := setInt v sq in (MkRecord vv id ty x at_ pl, ok)
  else if decide (n = "enqueued_at_ms") then let '(x, ok) := setInt v at_ in (MkRecord vv id ty sq x pl, ok)
  else let '(x, ok) := setBytes v pl in (MkRecord vv id ty sq at_ x, ok).

Definition decodeRecord (raw : string) : option queueRecord :=
  decodeStruct recordNames false setRecord (MkRecord 0 "" "" 0 0 "") raw.

(** ** Size bounds (courier.go) *)
Definition maxArtifactBytes : Z := 1048576.

Definition maxRecordOverhead : Z :=
  slen (dq "{'v':1,'id':'") + 64 + slen (dq "','artifact_type':'") +
  slen (dq "','queue_seq':") + 19 + slen (dq ",'enqueued_at_ms':") + 19 +
  slen (dq ",'payload':'") + 4 * ((maxArtifactBytes + 2) / 3) + slen (dq "'}").

Definition maxQueueRecordBytes : Z := maxRecordOverhead + slen ArtifactAnchorRegistration.
Definition maxEvidenceRecordBytes : Z := maxRecordOverhead + slen ArtifactDeliveryEnvelope.
Definition MinDeviceShareItems : Z := 2.
Definition MinDeviceShareBytes : Z := maxQueueRecordBytes + maxEvidenceRecordBytes.

(** ** The queue *)
Record qconfig := MkConfig {
  maxItems : Z; maxBytes : Z; reserved : bool; versioned : gset string;
  configured : option (gset string); shareItems : Z; shareBytes : Z; faultSource : string }.

Record DurableQueue := MkQueue {
  cfg : qconfig;
  entries : gmap string queueRecord;
  holds : gmap string HoldRecord;
  backoffs : gmap string BackoffRecord;
  sizes : gmap string Z;
  order : list string;
  bytes : Z;
  nextSeq : Z;
  laneOf : gmap string LaneKey;
  laneItems : gmap LaneKey Z;
  laneBytes : gmap LaneKey Z;
  deviceItems : gmap string Z;
  deviceBytes : gmap string Z;
  unconfigured : gset string;
  unconfiguredOverflow : bool }.

(** What an operation runs on: the queue, its directory, the fault recorder. *)
Record qst := MkSt { sq : DurableQueue; sd : dirst; sf : Faults.Recorder }.

Definition emptyQueue (c : qconfig) : DurableQueue :=
  MkQueue c ∅ ∅ ∅ ∅ [] 0 1 ∅ ∅ ∅ ∅ ∅ ∅ false.

Definition onDir {A} (m : EM dirst A) : EM qst A := λ s,
  let '(r, d) := m (sd s) in (r, MkSt (sq s) d (sf s)).

Definition note (fault source : string) (failed : bool) (s : qst) : qst :=
  MkSt (sq s) (sd s) (Faults.Note fault source failed (sf s)).

(** [noteStore]: a failure raises store_unavailable, a success leaves it. *)
Definition noteStore {A} (r : res A) (s : qst) : qst :=
  if is_ok r then s else note Faults.StoreUnavailable (faultSource (cfg (sq s))) true s.

Definition writeFileAtomic (name encoded : string) : EM qst unit := λ s,
  let '(r, s') := onDir (writeFileAtomicRaw queueTempPrefix name encoded) s in (r, noteStore r s').

Definition recordFile (id : string) : string := id +:+ queueFileSuffix.

Definition writeRecord (record : queueRecord) (encoded : string) : EM qst unit :=
  writeFileAtomic (recordFile (qr_ID record)) encoded.

Definition setQ (f : DurableQueue → DurableQueue) : EM qst unit := λ s, (Ok tt, MkSt (f (sq s)) (sd s) (sf s)).

(** [recordLane]. *)
Definition recordLane (r : queueRecord) : LaneKey :=
  MkLaneKey (recordDevice (qr_Payload r)) (LaneOf (qr_Type r)).

(** [m[k] += n] on a Go map of integers. *)
Definition bump {K} `{Countable K} (k : K) (n : Z) (m : gmap K Z) : gmap K Z := <[k := default 0 (m !! k) + n]> m.

Definition indexLocked (record : queueRecord) (size : Z) (q : DurableQueue) : DurableQueue :=
  let key := recordLane record in
  let '(MkQueue c en ho ba sz od by_ ns lo li lb di db un ov) := q in
  MkQueue c en ho ba sz od by_ ns (<[qr_ID record := key]> lo) (bump key 1 li) (bump key size lb)
    (bump (lk_Device key) 1 di) (bump (lk_Device key) size db) un ov.

Definition unbump {K} `{Countable K} (k : K) (size : Z) (items sums : gmap K Z) : gmap K Z * gmap K Z :=
  let items' := bump k (-1) items in
  let sums' := bump k (- size) sums in
  if default 0 (items' !! k) <=? 0 then (delete k items', delete k sums') else (items', sums').

Definition unindexLocked (id : string) (size : Z) (q : DurableQueue) : DurableQueue :=
  let '(MkQueue c en ho ba sz od by_ ns lo li lb di db un ov) := q in
  let key := default (MkLaneKey "" LaneEvidence) (lo !! id) in
  let '(li', lb') := unbump key size li lb in
  let '(di', db') := unbump (lk_Device key) size di db in
  MkQueue c en ho ba sz od by_ ns (delete id lo) li' lb' di' db' un ov.

(** [sortOrder]: by queue sequence, ties by identity. *)
Definition seqOf (en : gmap string queueRecord) (id : string) : Z :=
  match en !! id with Some r => qr_QueueSeq r | None => 0 end.

Definition order_le (en : gmap string queueRecord) (a b : string) : Prop :=
  seqOf en a < seqOf en b ∨ (seqOf en a = seqOf en b ∧ String.le a b).

#[global] Instance order_le_dec en : RelDecision (order_le en).
Proof. intros a b. unfold order_le. apply _. Defined.

Definition sortOrder (q : DurableQueue) : DurableQueue :=
  let '(MkQueue c en ho ba sz od by_ ns lo li lb di db un ov) := q in
  MkQueue c en ho ba sz (merge_sort (order_le en) od) by_ ns lo li lb di db un ov.

(** ** Admission *)

(** The capacity refusal of one lane: items with size 0, bytes otherwise. *)
Definition laneShareRefusalLocked (key : LaneKey) (size : Z) (q : DurableQueue) : res unit :=
  let rsv := reserved (cfg q) && negb (bool_decide (lk_Lane key = LaneRegistration)) in
  let devItems := default 0 (deviceItems q !! lk_Device key) in
  let devBytes := default 0 (deviceBytes q !! lk_Device key) in
  let lnItems := default 0 (laneItems q !! key) in
  let lnBytes := default 0 (laneBytes q !! key) in
  if size =? 0 then
    if (shareItems (cfg q) <=? devItems) || (rsv && (shareItems (cfg q) - 1 <=? lnItems))
    then Err (ErrQueueFull "device item") else Ok tt
  else
    if (shareBytes (cfg q) <? wrap64 (devBytes + size)) ||
       (rsv && (shareBytes (cfg q) - maxQueueRecordBytes <? wrap64 (lnBytes + size)))
    then Err (ErrQueueFull "device byte") else Ok tt.

Definition commitEntry (record : queueRecord) (size : Z) (q : DurableQueue) : DurableQueue :=
  let '(MkQueue c en ho ba sz od by_ ns lo li lb di db un ov) :=
    indexLocked record size q in
  let id := qr_ID record in
  sortOrder (MkQueue c (<[id := record]> en) ho ba (<[id := size]> sz) (od ++ [id])
               (wrap64 (by_ + size)) (wrap64 (ns + 1)) lo li lb di db un ov).

(** [insertLocked]; [nowMS] is what the clock reads. *)
Definition insertLocked (nowMS : Z) (kind payload id : string) : EM qst QueuedArtifact := λ s,
  let q := sq s in
  let device := recordDevice payload in
  let refused := match configured (cfg q) with
                 | Some c => negb (bool_decide (device ∈ c))
                 | None => false
                 end in
  if refused then (Err ErrUnconfiguredDevice, s)
  else if maxItems (cfg q) <=? Z.of_nat (size (entries q)) then (Err (ErrQueueFull "item"), s)
  else
    let key := MkLaneKey device (LaneOf kind) in
    match laneShareRefusalLocked key 0 q with
    | Err e => (Err e, s)
    | Ok _ =>
      if nowMS <=? 0 then (Err (EMsg "evidence: queue clock must produce a positive timestamp"), s)
      else
        let record := MkRecord queueRecordVersion id kind (nextSeq q) nowMS payload in
        let encoded := encodeRecord record in
        if maxBytes (cfg q) <? wrap64 (bytes q + slen encoded) then (Err (ErrQueueFull "byte"), s)
        else match laneShareRefusalLocked key (slen encoded) q with
        | Err e => (Err e, s)
        | Ok _ =>
          match writeRecord record encoded s with
          | (Err e, s') => (Err e, s')
          | (Ok _, s') => (Ok (recordArtifact record), MkSt (commitEntry record (slen encoded) (sq s')) (sd s') (sf s'))
          end
        end
    end.

(** [enqueueOrFind]: the entry, and whether it was already held. *)
Definition enqueueOrFind (nowMS : Z) (kind payload : string) : EM qst (QueuedArtifact * bool) := λ s,
  if negb (validQueueArtifactType kind) then (Err (EMsg "evidence: unsupported queue artifact type"), s)
  else if decide (payload = "") then (Err (EMsg "evidence: artifact payload must not be empty"), s)
  else
    let id := artifactID kind payload in
    match entries (sq s) !! id with
    | Some existing => (Ok (recordArtifact existing, true), s)
    | None => match insertLocked nowMS kind payload id s with
              | (Ok a, s') => (Ok (a, false), s')
              | (Err e, s') => (Err e, s')
              end
    end.

Definition enqueue (nowMS : Z) (kind payload : string) : EM qst QueuedArtifact :=
  p <- enqueueOrFind nowMS kind payload ;; eret p.1.

Definition Enqueue (nowMS : Z) (kind payload : string) : EM qst QueuedArtifact :=
  if negb (validOutboundArtifactType kind) then efail (EMsg "evidence: unsupported outbound artifact type")
  else enqueue nowMS kind payload.

(** [enqueueOutbound]: the entry, and whether it is newly queued. *)
Definition enqueueOutbound (nowMS : Z) (kind payload : string) : EM qst (QueuedArtifact * bool) :=
  if negb (validOutboundArtifactType kind) then efail (EMsg "evidence: unsupported outbound artifact type")
  else p <- enqueueOrFind nowMS kind payload ;; eret (p.1, negb p.2).

(** ** Reading the queue *)
Definition firstWhere (P : string → bool) (q : DurableQueue) : option QueuedArtifact :=
  match List.find P (order q) with
  | Some id => recordArtifact <$> entries q !! id
  | None => None
  end.

Definition PeekLane (key : LaneKey) (q : DurableQueue) : option QueuedArtifact :=
  firstWhere (λ id, bool_decide (laneOf q !! id = Some key)) q.

Definition PeekDevice (device : string) (q : DurableQueue) : option QueuedArtifact :=
  firstWhere (λ id, bool_decide (lk_Device <$> laneOf q !! id = Some device)) q.

Definition Peek (q : DurableQueue) : option QueuedArtifact :=
  match order q with
  | [] => None
  | id :: _ => recordArtifact <$> entries q !! id
  end.

Definition laneKey_le (a b : LaneKey) : Prop :=
  if decide (lk_Device a = lk_Device b) then String.le (laneName (lk_Lane a)) (laneName (lk_Lane b))
  else String.le (lk_Device a) (lk_Device b).

#[global] Instance laneKey_le_dec : RelDecision laneKey_le.
Proof. intros a b. unfold laneKey_le. case_decide; apply _. Defined.

Definition sortLaneKeys (keys : list LaneKey) : list LaneKey := merge_sort laneKey_le keys.
Definition Lanes (q : DurableQueue) : list LaneKey := sortLaneKeys (elements (dom (laneItems q))).
Definition LenLane (key : LaneKey) (q : DurableQueue) : Z := default 0 (laneItems q !! key).
Definition laneCounts (q : DurableQueue) : Z * gmap LaneKey Z := (Z.of_nat (size (entries q)), laneItems q).
Definition Devices (q : DurableQueue) : list string := merge_sort String.le (elements (dom (deviceItems q))).
Definition LenDevice (device : string) (q : DurableQueue) : Z := default 0 (deviceItems q !! device).
Definition Len (q : DurableQueue) : Z := Z.of_nat (size (entries q)).
Definition StoredBytes (q : DurableQueue) : Z := bytes q.

Definition RoutingDeviceID (q : DurableQueue) (device : string) : bool :=
  if decide (device ∈ versioned (cfg q)) then validRoutingDeviceID device
  else negb (bool_decide (device = "")).

Definition Configured (q : DurableQueue) (device : string) : bool :=
  match configured (cfg q) with Some c => bool_decide (device ∈ c) | None => true end.

(** ** Holds and back-offs (hold.go) *)
Definition holdRecordVersion : Z := 1.
Definition backoffRecordV1 : Z := 1.
Definition backoffRecordV2 : Z := 2.
Definition maxRetryAfterMS : Z := (2 ^ 31 - 1) * 1000.
Definition maxBackoffAttempts : Z := 2 ^ 16.

(** The closed set of statuses that can hold a head. *)
Definition heldRefusalStatus (status : Z) : bool :=
  (status =? 0) || (status =? 400) || (status =? 409) || (status =? 422).

Definition validateHoldRecord (record : HoldRecord) (queued : queueRecord) : res unit :=
  if negb (h_V record =? holdRecordVersion) then Err (EMsg "unsupported version")
  else if negb (bool_decide (h_QueueRecord record = qr_ID queued)) then Err (EMsg "queue record mismatch")
  else if negb (bool_decide (h_ArtifactDigest record = payloadDigest (qr_Payload queued))) then
    Err (EMsg "artifact digest mismatch")
  else if negb (bool_decide (h_ArtifactType record = qr_Type queued)) then Err (EMsg "artifact type mismatch")
  else if negb (Refusal.Held (h_RefusalStatus record) (h_Reason record)) then
    Err (EMsg "reason is not one at which its refusal status holds")
  else if negb (heldRefusalStatus (h_RefusalStatus record)) then Err (EMsg "refusal status cannot hold")
  else if (h_FirstHeldAtMS record <=? 0) || (MaxSafeInteger <? h_FirstHeldAtMS record) then
    Err (EMsg "first-held time out of range")
  else Ok tt.

Definition validateBackoffRecord (record : BackoffRecord) : res unit :=
  let some := match b_RetryAfterMS record with Some _ => true | None => false end in
  let retry := default 1 (b_RetryAfterMS record) in
  if (b_V record =? backoffRecordV1) && some then Err (EMsg "version 1 carries no retry-after")
  else if (b_V record =? backoffRecordV2) && negb some then Err (EMsg "version 2 carries a retry-after")
  else if negb (b_V record =? backoffRecordV1) && negb (b_V record =? backoffRecordV2) then
    Err (EMsg "unsupported version")
  else if (b_NotBeforeMS record <=? 0) || (MaxSafeInteger <? b_NotBeforeMS record) then
    Err (EMsg "not-before time out of range")
  else if (b_Attempts record <? 1) || (maxBackoffAttempts <? b_Attempts record) then
    Err (EMsg "attempt count out of range")
  else if some && ((retry <? 1) || (maxRetryAfterMS <? retry)) then Err (EMsg "retry-after out of range")
  else Ok tt.

Definition holdMembers (r : HoldRecord) : list (string * json) :=
  [("v", jint (h_V r)); ("queue_record", jstr (h_QueueRecord r)); ("artifact_digest", jstr (h_ArtifactDigest r));
   ("artifact_type", jstr (h_ArtifactType r)); ("refusal_status", jint (h_RefusalStatus r));
   ("reason", jstr (h_Reason r)); ("first_held_at_ms", jint (h_FirstHeldAtMS r));
   ("acknowledged", JBool (h_Acknowledged r))].

Definition encodeHold (r : HoldRecord) : string := print (JObj (holdMembers r)).

Definition backoffMembers (r : BackoffRecord) : list (string * json) :=
  [("v", jint (b_V r)); ("queue_record", jstr (b_QueueRecord r)); ("not_before_ms", jint (b_NotBeforeMS r));
   ("attempts", jint (b_Attempts r))] ++
  match b_RetryAfterMS r with Some ms => [("retry_after_ms", jint ms)] | None => [] end.

Definition encodeBackoff (r : BackoffRecord) : string := print (JObj (backoffMembers r)).

Definition setHolds (f : gmap string HoldRecord → gmap string HoldRecord) (q : DurableQueue) : DurableQueue :=
  let '(MkQueue c en ho ba sz od by_ ns lo li lb di db un ov) := q in
  MkQueue c en (f ho) ba sz od by_ ns lo li lb di db un ov.

Definition setBackoffs (f : gmap string BackoffRecord → gmap string BackoffRecord) (q : DurableQueue) : DurableQueue :=
  let '(MkQueue c en ho ba sz od by_ ns lo li lb di db un ov) := q in
  MkQueue c en ho (f ba) sz od by_ ns lo li lb di db un ov.

Definition HoldOp (record0 : HoldRecord) : EM qst unit := λ s,
  let id := h_QueueRecord record0 in
  match entries (sq s) !! id with
  | None => (Err ErrArtifactNotFound, s)
  | Some queued =>
    let record := MkHold holdRecordVersion id (h_ArtifactDigest record0) (h_ArtifactType record0)
                    (h_RefusalStatus record0) (h_Reason record0) (h_FirstHeldAtMS record0) (h_Acknowledged record0) in
    match validateHoldRecord record queued with
    | Err e => (Err e, s)
    | Ok _ => (writeFileAtomic (holdFilePrefix +:+ id) (encodeHold record) ;;;
               setQ (setHolds (<[id := record]>))) s
    end
  end.

Definition HoldFor (id : string) (q : DurableQueue) : option HoldRecord := holds q !! id.

Definition SetBackoff (record0 : BackoffRecord) : EM qst unit := λ s,
  let id := b_QueueRecord record0 in
  match entries (sq s) !! id with
  | None => (Err ErrArtifactNotFound, s)
  | Some _ =>
    let v := match b_RetryAfterMS record0 with Some _ => backoffRecordV2 | None => backoffRecordV1 end in
    let record := MkBackoff v id (b_NotBeforeMS record0) (b_Attempts record0) (b_RetryAfterMS record0) in
    match validateBackoffRecord record with
    | Err e => (Err e, s)
    | Ok _ => (writeFileAtomic (backoffFilePrefix +:+ id) (encodeBackoff record) ;;;
               setQ (setBackoffs (<[id := record]>))) s
    end
  end.

Definition BackoffFor (id : string) (q : DurableQueue) : option BackoffRecord := backoffs q !! id.

(** [os.Remove] of a sidecar, whose absence is not an error. *)
Definition removeTolerant (name msg : string) : EM dirst unit := λ d,
  match osRemove name d with
  | (RemoveFailed, d') => (Err (EMsg msg), d')
  | (_, d') => (Ok tt, d')
  end.

(** [os.Remove] of a record, whose absence is an error. *)
Definition removeStrict (name msg : string) : EM dirst unit := λ d,
  match osRemove name d with
  | (Removed, d') => (Ok tt, d')
  | (_, d') => (Err (EMsg msg), d')
  end.

Definition removeHoldLocked (id : string) : EM qst unit := λ s,
  match holds (sq s) !! id with
  | None => (Ok tt, s)
  | Some _ => (onDir (removeTolerant (holdFilePrefix +:+ id) "evidence: remove refused-head record") ;;;
               onDir (syncDirectory "evidence: persist refused-head removal") ;;;
               setQ (setHolds (delete id))) s
  end.

Definition removeBackoffLocked (id : string) : EM qst unit := λ s,
  match backoffs (sq s) !! id with
  | None => (Ok tt, s)
  | Some _ => (onDir (removeTolerant (backoffFilePrefix +:+ id) "evidence: remove back-off record") ;;;
               onDir (syncDirectory "evidence: persist back-off removal") ;;;
               setQ (setBackoffs (delete id))) s
  end.

Definition ClearBackoff (id : string) : EM qst unit := λ s,
  match backoffs (sq s) !! id with
  | None => (Ok tt, s)
  | Some _ => let '(r, s') := removeBackoffLocked id s in (r, noteStore r s')
  end.

(** ** Retirement *)
Definition dropEntry (id : string) (q : DurableQueue) : DurableQueue :=
  let '(MkQueue c en ho ba sz od by_ ns lo li lb di db un ov) := q in
  let storedSize := default 0 (sz !! id) in
  let '(MkQueue c2 en2 ho2 ba2 sz2 od2 by2 ns2 lo2 li2 lb2 di2 db2 un2 ov2) :=
    unindexLocked id storedSize (MkQueue c (delete id en) ho ba (delete id sz) od by_ ns lo li lb di db un ov) in
  MkQueue c2 en2 ho2 ba2 sz2 (remove_first id od2) (wrap64 (by2 - storedSize)) ns2 lo2 li2 lb2 di2 db2 un2 ov2.

(** The unlink's directory entry was not confirmed durable: the record is
    restored before the error returns. *)
Definition unlinkOrRestore (record : queueRecord) : EM qst unit := λ s,
  match onDir (syncDirectory "evidence: persist queue retirement") s with
  | (Ok _, s') => (Ok tt, s')
  | (Err e, s') =>
    match writeRecord record (encodeRecord record) s' with
    | (Err _, s'') => (Err (EMsg "evidence: persist queue retirement; restore failed"), s'')
    | (Ok _, s'') => (Err (EMsg "evidence: persist queue retirement"), s'')
    end
  end.

Definition removeLocked (id : string) : EM qst unit := λ s,
  match entries (sq s) !! id with
  | None => (Err ErrArtifactNotFound, s)
  | Some record =>
    (removeHoldLocked id ;;;
     removeBackoffLocked id ;;;
     onDir (removeStrict (recordFile id) "evidence: retire queued artifact") ;;;
     unlinkOrRestore record ;;;
     setQ (dropEntry id)) s
  end.

Definition Remove (id : string) : EM qst unit := λ s,
  let '(r, s') := removeLocked id s in
  match r with
  | Err ErrArtifactNotFound => (r, s')
  | _ => (r, noteStore r s')
  end.
End Queue.
