(* ===== verification/Codec.v ===== *)
(** * The on-disk formats of the queue and their round trips

    [json.Marshal] of a queue record, a hold and a back-off is read back by the
    loader as the same value, and the encoded size of a queue record is bounded
    by the constants of courier.go. *)
From S2P Require Import Prelude GoBytes Sha256 Json Routing Refusal Faults Store Queue.
Import Routing Store Queue.

Module Codec.

(** ** Strict decoders of the sidecar records (loadHolds, loadBackoffs) *)
Definition holdNames : list string :=
  ["v"; "queue_record"; "artifact_digest"; "artifact_type"; "refusal_status"; "reason"; "first_held_at_ms"; "acknowledged"].

Definition setHold (n : string) (v : json) (r : HoldRecord) : HoldRecord * bool :=
  let '(MkHold vv qr dg ty st rs fh ak) := r in
  if decide (n = "v") then let '(x, ok) := setInt v vv in (MkHold x qr dg ty st rs fh ak, ok)
  else if decide (n = "queue_record") then let '(x, ok) := setStr v qr in (MkHold vv x dg ty st rs fh ak, ok)
  else if decide (n = "artifact_digest") then let '(x, ok) := setStr v dg in (MkHold vv qr x ty st rs fh ak, ok)
  else if decide (n = "artifact_type") then let '(x, ok) := setStr v ty in (MkHold vv qr dg x st rs fh ak, ok)
  else if decide (n = "refusal_status") then let '(x, ok) := setInt v st in (MkHold vv qr dg ty x rs fh ak, ok)
  else if decide (n = "reason") then let '(x, ok) := setStr v rs in (MkHold vv qr dg ty st x fh ak, ok)
  else if decide (n = "first_held_at_ms") then let '(x, ok) := setInt v fh in (MkHold vv qr dg ty st rs x ak, ok)
  else let '(x, ok) := setBool v ak in (MkHold vv qr dg ty st rs fh x, ok).

Definition decodeHold (raw : string) : option HoldRecord :=
  decodeStruct holdNames true setHold (MkHold 0 "" "" "" 0 "" 0 false) raw.

Definition backoffNames : list string := ["v"; "queue_record"; "not_before_ms"; "attempts"; "retry_after_ms"].

Definition setBackoffField (n : string) (v : json) (r : BackoffRecord) : BackoffRecord * bool :=
  let '(MkBackoff vv qr nb at_ ra) := r in
  if decide (n = "v") then let '(x, ok) := setInt v vv in (MkBackoff x qr nb at_ ra, ok)
  else if decide (n = "queue_record") then let '(x, ok) := setStr v qr in (MkBackoff vv x nb at_ ra, ok)
  else if decide (n = "not_before_ms") then let '(x, ok) := setInt v nb in (MkBackoff vv qr x at_ ra, ok)
  else if decide (n = "attempts") then let '(x, ok) := setInt v at_ in (MkBackoff vv qr nb x ra, ok)
  else let '(x, ok) := setIntPtr v ra in (MkBackoff vv qr nb at_ x, ok).

Definition decodeBackoff (raw : string) : option BackoffRecord :=
  decodeStruct backoffNames true setBackoffField (MkBackoff 0 "" 0 0 None) raw.

(** ** Plain text *)
Lemma plain_hexDigit z : 0 ≤ z < 16 → plain_char (hexDigit z) = true.
Proof.
  intros H. unfold plain_char, hexDigit. destruct (Z.ltb_spec z 10); rewrite bv_bc by lia;
    unfold in_rng; lia.
Qed.

Lemma plain_hexEncode bs : Forall (λ b, 0 ≤ b < 256) bs → plain (hexEncode bs) = true.
Proof.
  induction 1 as [|b bs Hb _ IH]; [done|]. cbn [hexEncode plain].
  rewrite !plain_hexDigit, IH; [done|..]; Z.to_euclidean_division_equations; lia.
Qed.

Lemma plain_sha256Hex s : plain (sha256Hex s) = true.
Proof. apply plain_hexEncode, sha256_range. Qed.

Lemma plain_b64char z : 0 ≤ z < 64 → plain_char (b64char z) = true.
Proof.
  intros H. unfold b64char.
  destruct (Z.ltb_spec z 26), (Z.ltb_spec z 52), (Z.ltb_spec z 62), (Z.eqb_spec z 62); try lia; try done;
    unfold plain_char; rewrite bv_bc by lia; unfold in_rng; lia.
Qed.

Lemma plain_b64Encode s : plain (b64Encode s) = true.
Proof.
  induction s as [|a|a b|a b c r IH] using string_ind3; [done| | |]; cbn [b64Encode plain];
    pose proof (bv_range a); try pose proof (bv_range b); try pose proof (bv_range c);
    rewrite ?plain_b64char by (Z.to_euclidean_division_equations; lia); rewrite ?IH; done.
Qed.

Lemma plain_outbound kind : validQueueArtifactType kind = true → plain kind = true.
Proof.
  unfold validQueueArtifactType, validOutboundArtifactType.
  rewrite !orb_true_iff, !bool_decide_eq_true.
  rewrite !elem_of_cons, elem_of_nil. naive_solver.
Qed.

Lemma plain_payloadDigest p : plain (payloadDigest p) = true.
Proof. unfold payloadDigest. rewrite plain_app, plain_sha256Hex. done. Qed.

(** ** Scalars *)
Lemma setInt_jint n old : 0 ≤ n ≤ i64_max → setInt (jint n) old = (n, true).
Proof. intros H. cbn. by rewrite ParseInt_FormatInt. Qed.

Lemma setIntPtr_jint n old : 0 ≤ n ≤ i64_max → setIntPtr (jint n) old = (Some n, true).
Proof. intros H. cbn. by rewrite ParseInt_FormatInt. Qed.

Lemma setStr_jstr s old : plain s = true → setStr (jstr s) old = (s, true).
Proof. intros H. cbn. by rewrite escapeString_plain, unquote_plain. Qed.

Lemma setBytes_b64 s old : setBytes (JStr (b64Encode s)) old = (s, true).
Proof. cbn. by rewrite unquote_plain, b64Decode_Encode by apply plain_b64Encode. Qed.

Lemma flat_jint n : 0 ≤ n ≤ i64_max → flat_ok (jint n).
Proof. apply FormatInt_num_ok. Qed.

Lemma flat_jstr s : plain s = true → flat_ok (jstr s).
Proof. intros H. cbn. by rewrite escapeString_plain. Qed.

(** One member of a struct with plain names. *)
Lemma decodeMembers_step {R} names strict (set : string → json → R → R * bool) n v l r r' ok ok' :
  plain n = true → n ∈ names → set n v r = (r', ok') →
  decodeMembers names strict set ((n, v) :: l) r ok = decodeMembers names strict set l r' (ok && ok').
Proof.
  intros Hp Hn Hs. cbn [decodeMembers]. rewrite unquote_plain by done. unfold matchField.
  rewrite decide_True by done. by rewrite Hs.
Qed.

Ltac decode_step :=
  erewrite decodeMembers_step;
  [ | reflexivity | set_solver
    | cbn [setRecord setHold setBackoffField]; repeat (first [rewrite decide_True by done | rewrite decide_False by done]);
      rewrite ?setInt_jint, ?setStr_jstr, ?setBytes_b64, ?setIntPtr_jint by done; reflexivity ].

(** ** Queue records *)
Record record_wf (r : queueRecord) : Prop := {
  rw_v : qr_V r = queueRecordVersion;
  rw_type : validQueueArtifactType (qr_Type r) = true;
  rw_id : qr_ID r = artifactID (qr_Type r) (qr_Payload r);
  rw_payload : qr_Payload r ≠ "";
  rw_seq : 0 < qr_QueueSeq r ≤ i64_max;
  rw_at : 0 < qr_EnqueuedAtMS r ≤ i64_max }.

Lemma record_wf_plain r : record_wf r → plain (qr_ID r) = true ∧ plain (qr_Type r) = true.
Proof. intros []. split; [rewrite rw_id0; apply plain_sha256Hex|by apply plain_outbound]. Qed.

Lemma decode_encode_record r : record_wf r → decodeRecord (encodeRecord r) = Some r.
Proof.
  intros Hwf. destruct (record_wf_plain r Hwf) as [Hid Hty]. destruct Hwf.
  unfold decodeRecord, decodeStruct, encodeRecord. rewrite parse_print_flat; [|done|].
  - destruct r as [v id ty sq_ at_ pl]. unfold recordMembers, recordNames.
    cbn [qr_V qr_ID qr_Type qr_QueueSeq qr_EnqueuedAtMS qr_Payload] in *.
    assert (0 ≤ v ≤ i64_max) by (rewrite rw_v0; done).
    assert (0 ≤ sq_ ≤ i64_max) by lia. assert (0 ≤ at_ ≤ i64_max) by lia.
    do 6 decode_step. done.
  - unfold recordMembers. repeat (apply Forall_cons; split; [split; [done|]|]); try done; cbn [snd].
    + apply flat_jint. by rewrite rw_v0.
    + by apply flat_jstr.
    + by apply flat_jstr.
    + apply flat_jint. lia.
    + apply flat_jint. lia.
    + apply plain_b64Encode.
Qed.

(** ** Holds and back-offs *)
Lemma Held_plain status reason : Refusal.Held status reason = true → plain reason = true.
Proof.
  intros H. assert (reason ∈ Refusal.vocabulary) as Hv.
  { unfold Refusal.Held in H. case_decide as E; [subst; set_solver|].
    destruct (status =? 0).
    - apply andb_true_iff in H as [_ H%bool_decide_eq_true]. rewrite <-H. apply Refusal.RecordedReason_vocabulary.
    - apply andb_true_iff in H as [H _]. by eapply Refusal.admits_vocabulary. }
  assert (forallb plain Refusal.vocabulary = true) as Hall by (vm_compute; done).
  rewrite forallb_forall in Hall. apply Hall. by apply list_elem_of_In.
Qed.

Ltac check_step H :=
  match type of H with
  | (if negb ?b then _ else _) = Ok _ => destruct b eqn:?; [cbn [negb] in H|discriminate H]
  | (if ?b then _ else _) = Ok _ => destruct b eqn:?; [discriminate H|]
  end.

Lemma validateHold_inv r queued :
  validateHoldRecord r queued = Ok tt →
  h_V r = holdRecordVersion ∧ h_QueueRecord r = qr_ID queued ∧
  h_ArtifactDigest r = payloadDigest (qr_Payload queued) ∧ h_ArtifactType r = qr_Type queued ∧
  Refusal.Held (h_RefusalStatus r) (h_Reason r) = true ∧ heldRefusalStatus (h_RefusalStatus r) = true ∧
  0 < h_FirstHeldAtMS r ≤ MaxSafeInteger.
Proof.
  unfold validateHoldRecord. intros H. repeat check_step H.
  repeat match goal with
  | H : bool_decide _ = true |- _ => apply bool_decide_eq_true in H
  | H : (_ =? _) = true |- _ => apply Z.eqb_eq in H
  | H : _ || _ = false |- _ => apply orb_false_iff in H as [? ?]
  end. split_and!; try done; lia.
Qed.

Lemma decode_encode_hold r queued :
  record_wf queued → validateHoldRecord r queued = Ok tt → decodeHold (encodeHold r) = Some r.
Proof.
  intros Hwf (Hv & Hq & Hd & Ht & Hh & Hs & Hf)%validateHold_inv.
  destruct (record_wf_plain _ Hwf) as [Hid Hty].
  apply Held_plain in Hh. unfold MaxSafeInteger in Hf.
  assert (0 ≤ h_RefusalStatus r ≤ i64_max) as Hst.
  { unfold heldRefusalStatus in Hs. unfold i64_max. lia. }
  assert (0 ≤ h_FirstHeldAtMS r ≤ i64_max) as Hfh by (unfold i64_max; lia).
  assert (0 ≤ h_V r ≤ i64_max) as Hvv by (rewrite Hv; done).
  assert (plain (h_QueueRecord r) = true) by congruence.
  assert (plain (h_ArtifactDigest r) = true) by (rewrite Hd; apply plain_payloadDigest).
  assert (plain (h_ArtifactType r) = true) by congruence.
  unfold decodeHold, decodeStruct, encodeHold. rewrite parse_print_flat; [|done|].
  - clear Hv Hq Hd Ht. destruct r. unfold holdMembers, holdNames.
    cbn [h_V h_QueueRecord h_ArtifactDigest h_ArtifactType h_RefusalStatus h_Reason h_FirstHeldAtMS h_Acknowledged] in *.
    do 8 decode_step. done.
  - unfold holdMembers. repeat (apply Forall_cons; split; [split; [done|]|]); try done; cbn [snd];
      first [by apply flat_jint | by apply flat_jstr].
Qed.

Lemma validateBackoff_inv r :
  validateBackoffRecord r = Ok tt →
  (b_V r = backoffRecordV1 ∧ b_RetryAfterMS r = None ∨ b_V r = backoffRecordV2 ∧ is_Some (b_RetryAfterMS r)) ∧
  0 < b_NotBeforeMS r ≤ MaxSafeInteger ∧ 1 ≤ b_Attempts r ≤ maxBackoffAttempts ∧
  (∀ ms, b_RetryAfterMS r = Some ms → 1 ≤ ms ≤ maxRetryAfterMS).
Proof.
  unfold validateBackoffRecord. intros H. repeat check_step H.
  repeat match goal with H : _ || _ = false |- _ => apply orb_false_iff in H as [? ?] end.
  assert (b_V r = backoffRecordV1 ∨ b_V r = backoffRecordV2) as Hv by lia.
  destruct (b_RetryAfterMS r) as [ms|] eqn:Er; cbn [from_option id negb andb] in *; unfold backoffRecordV1, backoffRecordV2 in *.
  - split_and!; [right; split; [lia|eauto]|lia..|]. intros ? [= <-]. lia.
  - split_and!; [left; split; [lia|done]|lia..|done].
Qed.

Lemma decode_encode_backoff r :
  plain (b_QueueRecord r) = true → validateBackoffRecord r = Ok tt → decodeBackoff (encodeBackoff r) = Some r.
Proof.
  intros Hq (Hv & Hn & Ha & Hr)%validateBackoff_inv.
  unfold MaxSafeInteger in Hn. unfold maxBackoffAttempts in Ha. unfold maxRetryAfterMS in Hr.
  assert (0 ≤ b_V r ≤ i64_max) by (unfold i64_max; destruct Hv as [[-> _]|[-> _]]; done).
  assert (0 ≤ b_NotBeforeMS r ≤ i64_max) by (unfold i64_max; lia).
  assert (0 ≤ b_Attempts r ≤ i64_max) by (unfold i64_max; lia).
  unfold decodeBackoff, decodeStruct, encodeBackoff.
  destruct r as [v qr nb at_ [ra|]]; unfold backoffMembers;
    cbn [b_V b_QueueRecord b_NotBeforeMS b_Attempts b_RetryAfterMS] in *.
  - assert (0 ≤ ra ≤ i64_max) by (specialize (Hr ra eq_refl); unfold i64_max; lia).
    rewrite parse_print_flat; [|done|].
    + unfold backoffNames. cbn [app]. do 5 decode_step. done.
    + cbn [app]. repeat (apply Forall_cons; split; [split; [done|]|]); try done; cbn [snd];
        first [by apply flat_jint | by apply flat_jstr].
  - rewrite parse_print_flat; [|done|].
    + unfold backoffNames. cbn [app]. do 4 decode_step. done.
    + cbn [app]. repeat (apply Forall_cons; split; [split; [done|]|]); try done; cbn [snd];
        first [by apply flat_jint | by apply flat_jstr].
Qed.

(** ** The encoded size of a queue record *)
Lemma slen_encodeRecord r :
  record_wf r →
  slen (encodeRecord r) =
    slen (dq "{'v':1,'id':'") + 64 + slen (dq "','artifact_type':'") + slen (qr_Type r) +
    slen (dq "','queue_seq':") + slen (FormatInt (qr_QueueSeq r)) +
    slen (dq ",'enqueued_at_ms':") + slen (FormatInt (qr_EnqueuedAtMS r)) +
    slen (dq ",'payload':'") + 4 * ((slen (qr_Payload r) + 2) / 3) + slen (dq "'}").
Proof.
  intros Hwf. destruct (record_wf_plain r Hwf) as [Hid Hty]. destruct Hwf.
  unfold encodeRecord, recordMembers, jint, jstr. cbn [print map String.concat fst snd].
  rewrite !escapeString_plain by done. unfold quoted.
  repeat (rewrite slen_app || rewrite sapp_cons || rewrite slen_cons).
  rewrite slen_b64Encode, rw_v0, rw_id0. unfold artifactID. rewrite slen_sha256Hex.
  change (slen (dq "{'v':1,'id':'")) with 13. change (slen (dq "','artifact_type':'")) with 19.
  change (slen (dq "','queue_seq':")) with 14. change (slen (dq ",'enqueued_at_ms':")) with 18.
  change (slen (dq ",'payload':'")) with 12. change (slen (dq "'}")) with 2.
  change (slen (FormatInt queueRecordVersion)) with 1. change (slen "") with 0. lia.
Qed.

(** No admissible record is larger than the bound for its lane. *)
Lemma encodeRecord_bound r :
  record_wf r → validOutboundArtifactType (qr_Type r) = true → slen (qr_Payload r) ≤ maxArtifactBytes →
  slen (encodeRecord r) ≤
    match LaneOf (qr_Type r) with LaneRegistration => maxQueueRecordBytes | LaneEvidence => maxEvidenceRecordBytes end.
Proof.
  intros Hwf Ht Hp. rewrite slen_encodeRecord by done. destruct Hwf.
  pose proof (slen_FormatInt (qr_QueueSeq r) ltac:(lia)).
  pose proof (slen_FormatInt (qr_EnqueuedAtMS r) ltac:(lia)).
  assert ((slen (qr_Payload r) + 2) / 3 ≤ (maxArtifactBytes + 2) / 3) by (apply Z.div_le_mono; lia).
  unfold maxQueueRecordBytes, maxEvidenceRecordBytes, maxRecordOverhead, LaneOf.
  apply bool_decide_eq_true in Ht. rewrite !elem_of_cons, elem_of_nil in Ht.
  destruct Ht as [Ht|[Ht|[Ht|[]]]]; rewrite Ht; cbn [decide].
  - rewrite decide_False by done. lia.
  - rewrite decide_True by done. lia.
  - rewrite decide_False by done.
    change (slen ArtifactCheckpoint) with 10. change (slen ArtifactDeliveryEnvelope) with 17. lia.
Qed.
End Codec.
