(* ===== verification/QueueInv.v ===== *)
(** * The queue's invariant

    The in-memory indexes agree with the entries, the order is the delivery
    order, the counters are exact, and every admission, hold, back-off and
    retirement keeps it so, on every branch. *)
From S2P Require Import Prelude GoBytes Sha256 Json Routing Refusal Faults Store Queue Codec.
Import Routing Store Queue Codec.

Module QueueInv.

(** ** Counters kept per key

    [items] and [sums] are Go maps updated in place; they are exact when each
    holds the number and the total size of the members of [l] with that key,
    and no entry for a key without members. *)
Section Index.
Context {K : Type} `{Countable K}.
Implicit Types (items sums : gmap K Z) (kf : string → option K) (sz : string → Z) (l : list string) (k : K).

Definition cnt kf k l : Z := zsum (λ id, if decide (kf id = Some k) then 1 else 0) l.
Definition tot kf sz k l : Z := zsum (λ id, if decide (kf id = Some k) then sz id else 0) l.

Definition counted kf k l (v : Z) : option Z := if decide (cnt kf k l = 0) then None else Some v.

Definition idx_ok items sums kf sz l : Prop :=
  ∀ k, items !! k = counted kf k l (cnt kf k l) ∧ sums !! k = counted kf k l (tot kf sz k l).

Lemma cnt_nonneg kf k l : 0 ≤ cnt kf k l.
Proof. apply zsum_nonneg. intros x _. case_decide; lia. Qed.

Lemma cnt_cons kf k x l : cnt kf k (x :: l) = (if decide (kf x = Some k) then 1 else 0) + cnt kf k l.
Proof. apply zsum_cons. Qed.

Lemma tot_cons kf sz k x l : tot kf sz k (x :: l) = (if decide (kf x = Some k) then sz x else 0) + tot kf sz k l.
Proof. apply zsum_cons. Qed.

Lemma cnt_zero_tot kf sz k l : cnt kf k l = 0 → tot kf sz k l = 0.
Proof.
  induction l as [|x l IH]; [done|]. rewrite cnt_cons, tot_cons.
  pose proof (cnt_nonneg kf k l). case_decide; [lia|]. intros E. rewrite IH; lia.
Qed.

Lemma idx_ok_perm items sums kf sz l l' : l ≡ₚ l' → idx_ok items sums kf sz l → idx_ok items sums kf sz l'.
Proof.
  intros P Hok k. destruct (Hok k) as [H1 H2].
  assert (cnt kf k l' = cnt kf k l) as Ec by (apply zsum_perm; by symmetry).
  assert (tot kf sz k l' = tot kf sz k l) as Et by (apply zsum_perm; by symmetry).
  unfold counted. by rewrite Ec, Et.
Qed.

Lemma idx_ok_ext items sums kf kf' sz sz' l :
  (∀ x, x ∈ l → kf x = kf' x ∧ sz x = sz' x) → idx_ok items sums kf sz l → idx_ok items sums kf' sz' l.
Proof.
  intros E Hok k. destruct (Hok k) as [H1 H2].
  assert (cnt kf' k l = cnt kf k l) as Ec.
  { apply zsum_ext. intros x Hx. destruct (E x Hx) as [-> _]. done. }
  assert (tot kf' sz' k l = tot kf sz k l) as Et.
  { apply zsum_ext. intros x Hx. destruct (E x Hx) as [-> ->]. done. }
  unfold counted. by rewrite Ec, Et.
Qed.

Lemma idx_ok_default items sums kf sz l k :
  idx_ok items sums kf sz l → default 0 (items !! k) = cnt kf k l ∧ default 0 (sums !! k) = tot kf sz k l.
Proof.
  intros Hok. destruct (Hok k) as [-> ->]. unfold counted.
  case_decide as E; cbn; [|done]. by rewrite (cnt_zero_tot kf sz k l E).
Qed.

Lemma idx_ok_nil kf sz : idx_ok ∅ ∅ kf sz [].
Proof. intros k. by rewrite !lookup_empty. Qed.

Lemma idx_ok_bump items sums kf sz l x k :
  idx_ok items sums kf sz l → kf x = Some k →
  idx_ok (bump k 1 items) (bump k (sz x) sums) kf sz (x :: l).
Proof.
  intros Hok Hk k'. pose proof (idx_ok_default _ _ _ _ _ k Hok) as [D1 D2].
  unfold bump. rewrite D1, D2. destruct (Hok k') as [H1 H2]. unfold counted in *.
  rewrite !cnt_cons, !tot_cons, Hk. destruct (decide (k = k')) as [<-|Hne].
  - rewrite !lookup_insert_eq, !(decide_True _ _ (eq_refl (Some k))).
    pose proof (cnt_nonneg kf k l). rewrite !decide_False by lia. split; f_equal; lia.
  - rewrite !lookup_insert_ne, !(decide_False (P := Some k = Some k')) by congruence. by rewrite !Z.add_0_l.
Qed.

Lemma idx_ok_unbump items sums kf sz l x k items' sums' :
  idx_ok items sums kf sz (x :: l) → kf x = Some k → unbump k (sz x) items sums = (items', sums') →
  idx_ok items' sums' kf sz l.
Proof.
  intros Hok Hk Hu k'. pose proof (idx_ok_default _ _ _ _ _ k Hok) as [D1 D2].
  rewrite cnt_cons, Hk, decide_True in D1 by done. rewrite tot_cons, Hk, decide_True in D2 by done.
  destruct (Hok k') as [H1 H2]. unfold counted in *. rewrite !cnt_cons, tot_cons, Hk in *.
  unfold unbump, bump in Hu. rewrite lookup_insert_eq in Hu. cbn in Hu. rewrite D1, D2 in Hu.
  pose proof (cnt_nonneg kf k l).
  destruct (decide (k = k')) as [<-|Hne].
  - destruct (Z.leb_spec (1 + cnt kf k l + -1) 0); injection Hu as <- <-.
    + rewrite !lookup_delete_eq. by rewrite !decide_True by lia.
    + rewrite !lookup_insert_eq, !decide_False by lia. split; f_equal; lia.
  - rewrite !(decide_False (P := Some k = Some k')) in * by congruence. rewrite !Z.add_0_l in *.
    destruct (1 + cnt kf k l + -1 <=? 0); injection Hu as <- <-;
      rewrite ?lookup_delete_ne, ?lookup_insert_ne by done; done.
Qed.

(** The totals of distinct keys that cover the list add up to its total. *)
Lemma tot_cover kf sz l ks :
  NoDup ks → (∀ x, x ∈ l → ∃ k, k ∈ ks ∧ kf x = Some k) → zsum (λ k, tot kf sz k l) ks = zsum sz l.
Proof.
  intros Hnd. induction l as [|x l IH]; intros Hc.
  { rewrite (zsum_ext _ (λ _, 0)) by done. apply zsum_zero. }
  rewrite (zsum_ext _ (λ k, (if decide (kf x = Some k) then sz x else 0) + tot kf sz k l)) by (intros; apply tot_cons).
  rewrite zsum_plus, IH, zsum_cons by set_solver. f_equal. destruct (Hc x) as (k & Hk & Ek); [set_solver|]. clear IH Hc.
  apply list_elem_of_split in Hk as (l1 & l2 & ->). rewrite zsum_app, zsum_cons, decide_True by done.
  apply NoDup_app in Hnd as (_ & H1 & [H2 _]%NoDup_cons).
  assert (∀ l' : list K, k ∉ l' → zsum (λ k, if decide (kf x = Some k) then sz x else 0) l' = 0) as H0.
  { intros l' Hl. etransitivity; [apply (zsum_ext _ (λ _, 0))|apply zsum_zero]. intros y Hy. cbn beta.
    case_decide as E; [|done]. rewrite Ek in E. by injection E as ->. }
  rewrite !H0; [lia|done|set_solver].
Qed.

Lemma cnt_le_length kf k l : cnt kf k l ≤ Z.of_nat (length l).
Proof. rewrite <-zsum_const1. apply zsum_le. intros x _. case_decide; lia. Qed.
End Index.

(** ** Delivery order *)
Section Order.
Implicit Types (en : gmap string queueRecord).

#[global] Instance order_le_trans en : Transitive (order_le en).
Proof.
  intros a b c [H1|[H1 L1]] [H2|[H2 L2]]; unfold order_le; [left; lia|left; lia|left; lia|right].
  split; [lia|]. by transitivity b.
Qed.

#[global] Instance order_le_total en : Total (order_le en).
Proof.
  intros a b. unfold order_le. destruct (Z.lt_trichotomy (seqOf en a) (seqOf en b)) as [|[E|]]; auto.
  destruct (total String.le a b); auto.
Qed.

Lemma StronglySorted_mono_in {A} (R R' : relation A) (l : list A) :
  (∀ a b, a ∈ l → b ∈ l → R a b → R' a b) → StronglySorted R l → StronglySorted R' l.
Proof.
  intros Hm H. induction H as [|a l Hs IH Hf]; constructor.
  - apply IH. intros; apply Hm; set_solver.
  - rewrite Forall_forall in Hf |- *. intros b Hb. apply Hm; [set_solver..|auto].
Qed.

Lemma order_le_ext en en' a b :
  en !! a = en' !! a → en !! b = en' !! b → order_le en a b → order_le en' a b.
Proof. unfold order_le, seqOf. by intros -> ->. Qed.
End Order.

(** ** The invariant *)
Definition laneF (q : DurableQueue) (id : string) : option LaneKey := laneOf q !! id.
Definition devF (q : DurableQueue) (id : string) : option string := lk_Device <$> laneOf q !! id.
Definition sizeF (q : DurableQueue) (id : string) : Z := default 0 (sizes q !! id).

(** Bounds under which no [int64] sum of the queue can wrap. *)
Record cfg_ok (c : qconfig) : Prop := {
  co_items : 0 < maxItems c;
  co_bytes : 0 < maxBytes c ≤ 2 ^ 62;
  co_shareItems : shareItems c ≤ maxItems c;
  co_shareBytes : shareBytes c ≤ maxBytes c }.

(** What is true of the maps and counters together, whatever the order of
    the list and the bounds. *)
Record qcore (q : DurableQueue) : Prop := {
  qc_order : ∀ id, id ∈ order q ↔ is_Some (entries q !! id);
  qc_nodup : NoDup (order q);
  qc_wf : ∀ id r, entries q !! id = Some r → record_wf r ∧ qr_ID r = id ∧ qr_QueueSeq r < nextSeq q;
  qc_seq : ∀ i j a b, entries q !! i = Some a → entries q !! j = Some b → qr_QueueSeq a = qr_QueueSeq b → i = j;
  qc_next : 0 < nextSeq q ≤ i64_max;
  qc_lane : ∀ id, laneOf q !! id = recordLane <$> entries q !! id;
  qc_sizes : ∀ id, is_Some (sizes q !! id) ↔ is_Some (entries q !! id);
  qc_pos : ∀ id n, sizes q !! id = Some n → 0 < n;
  qc_bytes : bytes q = zsum (sizeF q) (order q);
  qc_lanes : idx_ok (laneItems q) (laneBytes q) (laneF q) (sizeF q) (order q);
  qc_devs : idx_ok (deviceItems q) (deviceBytes q) (devF q) (sizeF q) (order q) }.

Record qinv (q : DurableQueue) : Prop := {
  qi_cfg : cfg_ok (cfg q);
  qi_core : qcore q;
  qi_sorted : StronglySorted (order_le (entries q)) (order q);
  qi_maxItems : Z.of_nat (size (entries q)) ≤ maxItems (cfg q);
  qi_maxBytes : bytes q ≤ maxBytes (cfg q);
  qi_holds : ∀ id h, holds q !! id = Some h →
    h_QueueRecord h = id ∧ ∃ r, entries q !! id = Some r ∧ validateHoldRecord h r = Ok tt;
  qi_backoffs : ∀ id b, backoffs q !! id = Some b →
    b_QueueRecord b = id ∧ is_Some (entries q !! id) ∧ validateBackoffRecord b = Ok tt }.

Section Projections.
Context (q : DurableQueue) (Hq : qinv q).
Definition qi_order := qc_order _ (qi_core q Hq).
Definition qi_nodup := qc_nodup _ (qi_core q Hq).
Definition qi_wf := qc_wf _ (qi_core q Hq).
Definition qi_seq := qc_seq _ (qi_core q Hq).
Definition qi_next := qc_next _ (qi_core q Hq).
Definition qi_lane := qc_lane _ (qi_core q Hq).
Definition qi_sizes := qc_sizes _ (qi_core q Hq).
Definition qi_pos := qc_pos _ (qi_core q Hq).
Definition qi_bytes := qc_bytes _ (qi_core q Hq).
Definition qi_lanes := qc_lanes _ (qi_core q Hq).
Definition qi_devs := qc_devs _ (qi_core q Hq).
End Projections.

Lemma qcore_empty c : qcore (emptyQueue c).
Proof.
  split; cbn; try done; try constructor; try apply idx_ok_nil.
  - set_solver.
  - by rewrite lookup_empty; intros [].
  - by rewrite !lookup_empty.
  - by rewrite !lookup_empty.
Qed.

Lemma qinv_empty c : cfg_ok c → qinv (emptyQueue c).
Proof.
  intros Hc. pose proof Hc as []. split; try done; [apply qcore_empty|constructor|..]; cbn; rewrite ?map_size_empty; lia.
Qed.

(** ** Admission *)
Section CommitFields.
Context (q : DurableQueue) (r : queueRecord) (n : Z).
Local Notation id := (qr_ID r).
Local Notation q' := (commitEntry r n q).

Lemma commit_entries : entries q' = <[id := r]> (entries q).
Proof. unfold commitEntry, indexLocked. by destruct q. Qed.
Lemma commit_sizes : sizes q' = <[id := n]> (sizes q).
Proof. unfold commitEntry, indexLocked. by destruct q. Qed.
Lemma commit_laneOf : laneOf q' = <[id := recordLane r]> (laneOf q).
Proof. unfold commitEntry, indexLocked. by destruct q. Qed.
Lemma commit_order : order q' = merge_sort (order_le (<[id := r]> (entries q))) (order q ++ [id]).
Proof. unfold commitEntry, indexLocked. by destruct q. Qed.
Lemma commit_cfg : cfg q' = cfg q.
Proof. unfold commitEntry, indexLocked. by destruct q. Qed.
Lemma commit_holds : holds q' = holds q ∧ backoffs q' = backoffs q ∧
  unconfigured q' = unconfigured q ∧ unconfiguredOverflow q' = unconfiguredOverflow q.
Proof. unfold commitEntry, indexLocked. by destruct q. Qed.

Lemma commit_counters :
  laneItems q' = bump (recordLane r) 1 (laneItems q) ∧ laneBytes q' = bump (recordLane r) n (laneBytes q) ∧
  deviceItems q' = bump (lk_Device (recordLane r)) 1 (deviceItems q) ∧
  deviceBytes q' = bump (lk_Device (recordLane r)) n (deviceBytes q) ∧
  bytes q' = wrap64 (bytes q + n) ∧ nextSeq q' = wrap64 (nextSeq q + 1).
Proof. unfold commitEntry, indexLocked. by destruct q. Qed.

End CommitFields.

(** A record joins the maps and every counter: what admission and loading
    have in common. *)
Section CoreAdd.
Context (q q' : DurableQueue) (r : queueRecord) (n : Z).
Local Notation id := (qr_ID r).

Record adds : Prop := {
  a_order : order q' ≡ₚ id :: order q;
  a_entries : entries q' = <[id := r]> (entries q);
  a_sizes : sizes q' = <[id := n]> (sizes q);
  a_laneOf : laneOf q' = <[id := recordLane r]> (laneOf q);
  a_laneItems : laneItems q' = bump (recordLane r) 1 (laneItems q);
  a_laneBytes : laneBytes q' = bump (recordLane r) n (laneBytes q);
  a_deviceItems : deviceItems q' = bump (lk_Device (recordLane r)) 1 (deviceItems q);
  a_deviceBytes : deviceBytes q' = bump (lk_Device (recordLane r)) n (deviceBytes q);
  a_bytes : bytes q' = bytes q + n;
  a_next : nextSeq q ≤ nextSeq q' ≤ i64_max;
  a_seq : qr_QueueSeq r < nextSeq q' }.

Context (Hq : qcore q) (Ha : adds) (Hr : record_wf r) (Hnew : entries q !! id = None) (Hn : 0 < n).
Context (Hseq : ∀ x a, entries q !! x = Some a → qr_QueueSeq a ≠ qr_QueueSeq r).

Lemma adds_notin : id ∉ order q.
Proof. rewrite (qc_order _ Hq), Hnew. by intros []. Qed.

Lemma adds_other x : x ∈ order q → x ≠ id.
Proof. intros Hx ->. by apply adds_notin. Qed.

(** Every index of the new queue is the old one with the record added. *)
Lemma adds_idx {K} `{Countable K} (items sums : gmap K Z) (kf : string → option K) (kf' : string → option K) (k : K) :
  idx_ok items sums kf (sizeF q) (order q) → kf' id = Some k → (∀ x, x ≠ id → kf' x = kf x) →
  idx_ok (bump k 1 items) (bump k n sums) kf' (sizeF q') (order q').
Proof.
  intros Hok Hk Hx. eapply idx_ok_perm; [symmetry; apply (a_order Ha)|].
  assert (sizeF q' id = n) as En by (unfold sizeF; rewrite (a_sizes Ha), lookup_insert_eq; done).
  pose proof (λ Hok', idx_ok_bump items sums kf' (sizeF q') (order q) id k Hok' Hk) as G.
  rewrite En in G. apply G. eapply idx_ok_ext; [|exact Hok].
  intros x Hxo. pose proof (adds_other x Hxo) as Hne. split; [symmetry; by apply Hx|].
  unfold sizeF. by rewrite (a_sizes Ha), lookup_insert_ne.
Qed.

Lemma adds_qcore : qcore q'.
Proof.
  destruct Ha as [Eo Ee Es El Eli Elb Edi Edb Eb En Er].
  split; rewrite ?Ee, ?Eo, ?Es, ?El, ?Eli, ?Elb, ?Edi, ?Edb.
  - intros x. rewrite Eo, elem_of_cons, (qc_order _ Hq).
    destruct (decide (x = id)) as [->|]; [rewrite lookup_insert_eq|rewrite lookup_insert_ne by done]; naive_solver.
  - apply NoDup_cons. split; [apply adds_notin|apply (qc_nodup _ Hq)].
  - intros x a. destruct (decide (x = id)) as [->|Hx].
    + rewrite lookup_insert_eq. intros [= <-]. split; [done|]. split; [done|]. lia.
    + rewrite lookup_insert_ne by done. intros (? & ? & ?)%(qc_wf _ Hq). split; [done|]. split; [done|]. lia.
  - intros i j a b. destruct (decide (i = id)) as [->|Hi], (decide (j = id)) as [->|Hj];
      rewrite ?lookup_insert_eq, ?lookup_insert_ne by done; [done| | |apply (qc_seq _ Hq)].
    + intros [= <-] H%Hseq. congruence.
    + intros H%Hseq [= <-]. congruence.
  - pose proof (qc_next _ Hq). lia.
  - intros x. destruct (decide (x = id)) as [->|];
      [by rewrite !lookup_insert_eq|rewrite !lookup_insert_ne by done; apply (qc_lane _ Hq)].
  - intros x. destruct (decide (x = id)) as [->|];
      [rewrite !lookup_insert_eq; naive_solver|rewrite !lookup_insert_ne by done; apply (qc_sizes _ Hq)].
  - intros x m. destruct (decide (x = id)) as [->|];
      [rewrite lookup_insert_eq; by intros [= <-]|rewrite lookup_insert_ne by done; apply (qc_pos _ Hq)].
  - rewrite Eb, zsum_cons, (qc_bytes _ Hq), Z.add_comm. f_equal.
    + unfold sizeF. by rewrite Es, lookup_insert_eq.
    + apply zsum_ext. intros x Hx. unfold sizeF. rewrite Es, lookup_insert_ne; [done|].
      symmetry. by apply adds_other.
  - eapply adds_idx; [apply (qc_lanes _ Hq)|..]; unfold laneF; rewrite El.
    + by rewrite lookup_insert_eq.
    + intros x Hx. by rewrite lookup_insert_ne.
  - eapply adds_idx; [apply (qc_devs _ Hq)|..]; unfold devF; rewrite El.
    + by rewrite lookup_insert_eq.
    + intros x Hx. by rewrite lookup_insert_ne.
Qed.
End CoreAdd.

Lemma qcore_bytes_nonneg q : qcore q → 0 ≤ bytes q.
Proof.
  intros Hq. rewrite (qc_bytes _ Hq). apply zsum_nonneg. intros x Hx. unfold sizeF.
  destruct (sizes q !! x) eqn:E; cbn; [|lia]. apply (qc_pos _ Hq) in E. lia.
Qed.

Section Commit.
Context (q : DurableQueue) (r : queueRecord) (n : Z).
Context (Hq : qinv q) (Hr : record_wf r) (Hnew : entries q !! qr_ID r = None).
Context (Hseq : qr_QueueSeq r = nextSeq q) (Hnext : nextSeq q < i64_max).
Context (Hn : 0 < n) (Hbytes : bytes q + n ≤ maxBytes (cfg q)).
Context (Hitems : Z.of_nat (size (entries q)) < maxItems (cfg q)).

Local Notation id := (qr_ID r).
Local Notation q' := (commitEntry r n q).

Lemma commit_order_perm : order q' ≡ₚ id :: order q.
Proof. rewrite commit_order, merge_sort_Permutation. symmetry. apply Permutation_cons_append. Qed.

Lemma commit_nowrap : bytes q' = bytes q + n ∧ nextSeq q' = nextSeq q + 1.
Proof.
  destruct (commit_counters q r n) as (_ & _ & _ & _ & -> & ->). pose proof (qcore_bytes_nonneg _ (qi_core _ Hq)).
  pose proof (co_bytes _ (qi_cfg _ Hq)). pose proof (qi_next _ Hq).
  rewrite !wrap64_id; [done|unfold in_i64, i64_min, i64_max in *; lia..].
Qed.

Lemma commit_adds : adds q q' r n.
Proof.
  destruct (commit_counters q r n) as (Eli & Elb & Edi & Edb & _ & _). destruct commit_nowrap as [Eb En].
  split; try done; [apply commit_order_perm|apply commit_entries|apply commit_sizes|apply commit_laneOf|lia..].
Qed.

Lemma commit_qinv : qinv q'.
Proof.
  destruct commit_nowrap as [Eb En]. destruct (commit_holds q r n) as (Eh & Ebk & _ & _).
  split; rewrite ?commit_cfg, ?Eb, ?Eh, ?Ebk, ?commit_entries.
  - apply (qi_cfg _ Hq).
  - eapply adds_qcore; [apply (qi_core _ Hq)|apply commit_adds|done..|].
    intros x a (_ & _ & ?)%(qi_wf _ Hq). lia.
  - rewrite commit_order. apply (StronglySorted_merge_sort _).
  - rewrite map_size_insert_None by done. lia.
  - done.
  - intros x h Hh. destruct (qi_holds _ Hq _ _ Hh) as (? & a & Ha & ?). split; [done|]. exists a.
    rewrite lookup_insert_ne; [done|]. intros <-. congruence.
  - intros x b Hb. destruct (qi_backoffs _ Hq _ _ Hb) as (? & [a Ha] & ?). split_and!; [done| |done].
    destruct (decide (x = id)) as [->|]; [rewrite lookup_insert_eq|rewrite lookup_insert_ne by done]; eauto.
Qed.
End Commit.

(** ** Retirement *)
Section DropFields.
Context (q : DurableQueue) (id : string).
Local Notation q' := (dropEntry id q).

Lemma drop_fields :
  entries q' = delete id (entries q) ∧ sizes q' = delete id (sizes q) ∧ laneOf q' = delete id (laneOf q) ∧
  order q' = remove_first id (order q) ∧ cfg q' = cfg q ∧ holds q' = holds q ∧ backoffs q' = backoffs q ∧
  nextSeq q' = nextSeq q ∧ unconfigured q' = unconfigured q ∧ unconfiguredOverflow q' = unconfiguredOverflow q ∧
  bytes q' = wrap64 (bytes q - sizeF q id) ∧
  (laneItems q', laneBytes q') = unbump (default (MkLaneKey "" LaneEvidence) (laneOf q !! id)) (sizeF q id) (laneItems q) (laneBytes q) ∧
  (deviceItems q', deviceBytes q') =
    unbump (lk_Device (default (MkLaneKey "" LaneEvidence) (laneOf q !! id))) (sizeF q id) (deviceItems q) (deviceBytes q).
Proof.
  unfold dropEntry, unindexLocked, sizeF. destruct q. cbn.
  do 2 (match goal with |- context [unbump ?a ?b ?c ?d] => destruct (unbump a b c d) end). cbn. done.
Qed.

End DropFields.

Section Drop.
Context (q : DurableQueue) (id : string) (r : queueRecord).
Context (Hq : qinv q) (Hr : entries q !! id = Some r).
Context (Hh : holds q !! id = None) (Hb : backoffs q !! id = None).

Local Notation q' := (dropEntry id q).

Lemma drop_in : id ∈ order q.
Proof. rewrite (qi_order _ Hq). eauto. Qed.

Lemma drop_perm : order q ≡ₚ id :: order q'.
Proof. destruct (drop_fields q id) as (_ & _ & _ & -> & _). apply remove_first_perm, drop_in. Qed.

Lemma drop_elem x : x ∈ order q' ↔ x ∈ order q ∧ x ≠ id.
Proof. destruct (drop_fields q id) as (_ & _ & _ & -> & _). apply elem_of_remove_first, (qi_nodup _ Hq). Qed.

Lemma drop_idx {K} `{Countable K} (items sums items' sums' : gmap K Z) (kf kf' : string → option K) (k : K) :
  idx_ok items sums kf (sizeF q) (order q) → kf id = Some k → (∀ x, x ≠ id → kf' x = kf x) →
  (items', sums') = unbump k (sizeF q id) items sums →
  idx_ok items' sums' kf' (sizeF q') (order q').
Proof.
  intros Hok Hk Hx Hu. eapply idx_ok_perm in Hok; [|apply drop_perm].
  eapply idx_ok_ext; [|eapply idx_ok_unbump; [exact Hok|exact Hk|by symmetry]].
  intros x [_ Hne]%drop_elem. split; [symmetry; by apply Hx|].
  destruct (drop_fields q id) as (_ & Es & _). unfold sizeF. by rewrite Es, lookup_delete_ne.
Qed.

Lemma drop_bytes : bytes q' = zsum (sizeF q') (order q') ∧ 0 ≤ bytes q' ≤ bytes q.
Proof.
  destruct (drop_fields q id) as (_ & Es & _ & _ & _ & _ & _ & _ & _ & _ & Eb & _).
  pose proof (qi_bytes _ Hq) as B. rewrite (zsum_perm _ _ _ drop_perm), zsum_cons in B.
  assert (zsum (sizeF q') (order q') = zsum (sizeF q) (order q')) as E.
  { apply zsum_ext. intros x [_ Hx]%drop_elem. unfold sizeF. by rewrite Es, lookup_delete_ne. }
  assert (∀ x, 0 ≤ sizeF q x) as Hpos.
  { intros x. unfold sizeF. destruct (sizes q !! x) eqn:S; cbn; [apply (qi_pos _ Hq) in S|]; lia. }
  pose proof (zsum_nonneg (sizeF q) (order q') (λ x _, Hpos x)). pose proof (Hpos id).
  pose proof (qi_maxBytes _ Hq). pose proof (co_bytes _ (qi_cfg _ Hq)).
  rewrite wrap64_id in Eb by (unfold in_i64, i64_min, i64_max; lia). lia.
Qed.

Lemma drop_qcore : qcore q'.
Proof.
  pose proof drop_bytes as [Bs Bl].
  destruct (drop_fields q id) as (Ee & Es & El & Eo & Ec & Eh & Eb & En & _ & _ & _ & Eli & Edi).
  assert (laneOf q !! id = Some (recordLane r)) as Hl by (rewrite (qi_lane _ Hq), Hr; done).
  rewrite Hl in Eli, Edi. cbn in Eli, Edi.
  split; rewrite ?En.
  - intros x. rewrite drop_elem, (qi_order _ Hq), Ee.
    destruct (decide (x = id)) as [->|]; [rewrite lookup_delete_eq|rewrite lookup_delete_ne by done]; naive_solver.
  - rewrite Eo. apply remove_first_NoDup, (qi_nodup _ Hq).
  - intros x a. rewrite Ee, lookup_delete_Some. intros [_ ?]. by apply (qi_wf _ Hq).
  - intros i j a b. rewrite Ee, !lookup_delete_Some. intros [_ ?] [_ ?]. by eapply (qi_seq _ Hq).
  - apply (qi_next _ Hq).
  - intros x. rewrite El, Ee. destruct (decide (x = id)) as [->|];
      [by rewrite !lookup_delete_eq|rewrite !lookup_delete_ne by done; apply (qi_lane _ Hq)].
  - intros x. rewrite Es, Ee. destruct (decide (x = id)) as [->|];
      [rewrite !lookup_delete_eq; done|rewrite !lookup_delete_ne by done; apply (qi_sizes _ Hq)].
  - intros x m. rewrite Es, lookup_delete_Some. intros [_ ?]. by eapply (qi_pos _ Hq).
  - done.
  - eapply drop_idx; [apply (qi_lanes _ Hq)|exact Hl| |exact Eli].
    intros x Hx. unfold laneF. by rewrite El, lookup_delete_ne.
  - eapply drop_idx; [apply (qi_devs _ Hq)|by unfold devF; rewrite Hl| |exact Edi].
    intros x Hx. unfold devF. by rewrite El, lookup_delete_ne.
Qed.

Lemma drop_qinv : qinv q'.
Proof.
  pose proof drop_bytes as [Bs Bl].
  destruct (drop_fields q id) as (Ee & Es & El & Eo & Ec & Eh & Eb & _).
  split; rewrite ?Ec, ?Eh, ?Eb.
  - apply (qi_cfg _ Hq).
  - apply drop_qcore.
  - rewrite Eo. apply (StronglySorted_mono_in (order_le (entries q))).
    + intros a b Ha Hb'. rewrite <-Eo in Ha, Hb'. apply drop_elem in Ha as [_ Ha], Hb' as [_ Hb'].
      apply order_le_ext; by rewrite Ee, lookup_delete_ne.
    + eapply StronglySorted_sublist; [apply remove_first_sublist|apply (qi_sorted _ Hq)].
  - rewrite Ee. pose proof (qi_maxItems _ Hq). rewrite map_size_delete, Hr. cbn. lia.
  - pose proof (qi_maxBytes _ Hq). lia.
  - intros x h Hx. destruct (qi_holds _ Hq _ _ Hx) as (? & a & Ha & ?). split; [done|]. exists a.
    rewrite Ee, lookup_delete_ne; [done|]. intros <-. congruence.
  - intros x b Hx. destruct (qi_backoffs _ Hq _ _ Hx) as (? & Ha & ?). split_and!; [done| |done].
    rewrite Ee, lookup_delete_ne; [done|]. intros <-. congruence.
Qed.
End Drop.
End QueueInv.
