(* ===== verification/QueueOps.v ===== *)
(** * What the queue operations do, in memory and on the disk

    Every operation keeps the queue's invariant on every outcome, and keeps
    each queued record's file durable: what the queue lists, a restart finds. *)
From S2P Require Import Prelude GoBytes Sha256 Json Routing Refusal Faults Store Queue Codec QueueInv.
Import Routing Store Queue Codec QueueInv.

Module QueueOps.

(** ** Names *)

(** A record's file name never begins with a dot; every other file of the
    directory does. *)
Definition dotted (n : string) : Prop := ∃ t, n = String "." t.

Lemma hexDigit_not_dot z : 0 ≤ z < 16 → hexDigit z ≠ "."%char.
Proof.
  intros H E. apply (f_equal bv) in E. unfold hexDigit in E.
  destruct (Z.ltb_spec z 10); rewrite bv_bc in E by lia; change (bv ".") with 46 in E; lia.
Qed.

Lemma artifactID_head kind payload : ∃ c t, artifactID kind payload = String c t ∧ c ≠ "."%char.
Proof.
  unfold artifactID, sha256Hex. pose proof (length_sha256 (bytes_of (kind +:+ String (bc 0) payload))) as L.
  destruct (sha256 _) as [|b bs] eqn:E; [done|]. cbn [hexEncode].
  exists (hexDigit (b / 16)), (String (hexDigit (b mod 16)) (hexEncode bs)). split; [done|]. apply hexDigit_not_dot.
  assert (0 ≤ b < 256); [|Z.to_euclidean_division_equations; lia].
  assert (b ∈ sha256 (bytes_of (kind +:+ String (bc 0) payload))) as Hb by (rewrite E; set_solver).
  revert Hb. clear. unfold sha256. cbv zeta. intros Hb.
  apply list_elem_of_In, in_flat_map in Hb as (w & _ & Hb). apply list_elem_of_In in Hb.
  pose proof (be_bytes_range 4 w) as F. rewrite Forall_forall in F. by apply F.
Qed.

Lemma record_not_dotted r : record_wf r → ¬ dotted (recordFile (qr_ID r)).
Proof.
  intros Hwf [t Ht]. destruct (artifactID_head (qr_Type r) (qr_Payload r)) as (c & t' & E & Hc).
  unfold recordFile in Ht. rewrite (rw_id _ Hwf), E, sapp_cons in Ht. congruence.
Qed.

Lemma dotted_prefix p s : dotted p → dotted (p +:+ s).
Proof. intros [t ->]. rewrite sapp_cons. by eexists. Qed.

Lemma dotted_queueTempPrefix : dotted queueTempPrefix.
Proof. by eexists. Qed.
Lemma dotted_hold id : dotted (holdFilePrefix +:+ id).
Proof. apply dotted_prefix. by eexists. Qed.
Lemma dotted_backoff id : dotted (backoffFilePrefix +:+ id).
Proof. apply dotted_prefix. by eexists. Qed.

Lemma not_dotted_prefix n p : ¬ dotted n → dotted p → hasPrefix n p = false.
Proof.
  intros Hn [t ->]. destruct (hasPrefix n (String "." t)) eqn:E; [|done].
  exfalso. apply Hn. apply hasPrefix_drop in E as [r ->]. rewrite sapp_cons. by eexists.
Qed.

Lemma recordFile_inj a b : recordFile a = recordFile b → a = b.
Proof. apply sapp_inv_tail. Qed.

(** ** Frames of the directory operations on the queue state *)
Section Frame.
Implicit Types (s : qst) (n : string).

Lemma onDir_spec {A} (m : EM dirst A) s r s' :
  onDir m s = (r, s') → sq s' = sq s ∧ sf s' = sf s ∧ m (sd s) = (r, sd s').
Proof. unfold onDir. destruct (m (sd s)). by intros [= <- <-]. Qed.

Lemma noteStore_spec {A} (r : res A) s : sq (noteStore r s) = sq s ∧ sd (noteStore r s) = sd s.
Proof. unfold noteStore. by case_match. Qed.

Lemma writeFileAtomic_sq name enc s r s' : writeFileAtomic name enc s = (r, s') → sq s' = sq s.
Proof.
  unfold writeFileAtomic. destruct (onDir _ s) as [r0 s0] eqn:E. intros [= <- <-].
  destruct (noteStore_spec r0 s0) as [-> _]. by apply onDir_spec in E as [-> _].
Qed.

Lemma writeFileAtomic_dir name enc s r s' :
  writeFileAtomic name enc s = (r, s') → writeFileAtomicRaw queueTempPrefix name enc (sd s) = (r, sd s').
Proof.
  unfold writeFileAtomic. destruct (onDir _ s) as [r0 s0] eqn:E. intros [= <- <-].
  destruct (noteStore_spec r0 s0) as [_ ->]. by apply onDir_spec in E as (_ & _ & E).
Qed.

Lemma writeFileAtomic_same name enc n s r s' :
  ¬ dotted n → n ≠ name → writeFileAtomic name enc s = (r, s') → same_at n (sd s) (sd s').
Proof.
  intros Hn Hne H%writeFileAtomic_dir. eapply writeFileAtomicRaw_same; [|done|exact H].
  apply not_dotted_prefix; [done|apply dotted_queueTempPrefix].
Qed.

Lemma writeFileAtomic_ok name enc s u s' :
  hasPrefix name queueTempPrefix = false → writeFileAtomic name enc s = (Ok u, s') →
  d_log (sd s') = [] ∧ d_dur (sd s') = d_vol (sd s') ∧ durably (sd s') name (File FRegular 384 enc true).
Proof. intros Hn H%writeFileAtomic_dir. by eapply writeFileAtomicRaw_ok. Qed.

Lemma removeTolerant_same name msg n d r d' :
  n ≠ name → removeTolerant name msg d = (r, d') → same_at n d d'.
Proof.
  intros Hn. unfold removeTolerant. pose proof (osRemove_same n name d Hn) as H.
  destruct (osRemove name d) as [[] d1]; intros [= <- <-]; done.
Qed.

Lemma removeStrict_same name msg n d r d' :
  n ≠ name → removeStrict name msg d = (r, d') → same_at n d d'.
Proof.
  intros Hn. unfold removeStrict. pose proof (osRemove_same n name d Hn) as H.
  destruct (osRemove name d) as [[] d1]; intros [= <- <-]; done.
Qed.
End Frame.

(** ** Admission *)
Section Insert.
Lemma encoded_small r : record_wf r → slen (qr_Payload r) ≤ 2 ^ 60 → 0 < slen (encodeRecord r) ≤ 2 ^ 61.
Proof.
  intros Hwf Hp. rewrite slen_encodeRecord by done. destruct (record_wf_plain r Hwf) as [_ Hty].
  assert (slen (qr_Type r) ≤ 30).
  { destruct Hwf. clear -rw_type0. unfold validQueueArtifactType, validOutboundArtifactType in rw_type0.
    rewrite !orb_true_iff, !bool_decide_eq_true, !elem_of_cons, elem_of_nil in rw_type0.
    destruct rw_type0 as [[[[->|[->|[->|[]]]]| ->]| ->]| ->]; done. }
  destruct Hwf. pose proof (slen_FormatInt (qr_QueueSeq r) ltac:(lia)).
  pose proof (slen_FormatInt (qr_EnqueuedAtMS r) ltac:(lia)).
  assert ((slen (qr_Payload r) + 2) / 3 ≤ 2 ^ 59 - 100) by (apply Z.div_le_upper_bound; lia).
  assert (0 ≤ (slen (qr_Payload r) + 2) / 3) by (apply Z.div_pos; pose proof (slen_nonneg (qr_Payload r)); lia).
  change (slen (dq "{'v':1,'id':'")) with 13. change (slen (dq "','artifact_type':'")) with 19.
  change (slen (dq "','queue_seq':")) with 14. change (slen (dq ",'enqueued_at_ms':")) with 18.
  change (slen (dq ",'payload':'")) with 12. change (slen (dq "'}")) with 2.
  pose proof (slen_nonneg (FormatInt (qr_QueueSeq r))). pose proof (slen_nonneg (FormatInt (qr_EnqueuedAtMS r))).
  pose proof (slen_nonneg (qr_Type r)). lia.
Qed.

(** Every way [insertLocked] can end. *)
Inductive inserted (nowMS : Z) (kind payload : string) (s : qst) : res QueuedArtifact → qst → Prop :=
| ins_refused e : inserted nowMS kind payload s (Err e) s
| ins_failed e s' :
    let r := MkRecord queueRecordVersion (artifactID kind payload) kind (nextSeq (sq s)) nowMS payload in
    writeRecord r (encodeRecord r) s = (Err e, s') →
    inserted nowMS kind payload s (Err e) s'
| ins_done s' :
    let r := MkRecord queueRecordVersion (artifactID kind payload) kind (nextSeq (sq s)) nowMS payload in
    Configured (sq s) (recordDevice payload) = true →
    Z.of_nat (size (entries (sq s))) < maxItems (cfg (sq s)) →
    laneShareRefusalLocked (recordLane r) 0 (sq s) = Ok tt →
    0 < nowMS →
    wrap64 (bytes (sq s) + slen (encodeRecord r)) ≤ maxBytes (cfg (sq s)) →
    laneShareRefusalLocked (recordLane r) (slen (encodeRecord r)) (sq s) = Ok tt →
    writeRecord r (encodeRecord r) s = (Ok tt, s') →
    inserted nowMS kind payload s (Ok (recordArtifact r))
      (MkSt (commitEntry r (slen (encodeRecord r)) (sq s')) (sd s') (sf s')).

Lemma insertLocked_cases nowMS kind payload s a s' :
  insertLocked nowMS kind payload (artifactID kind payload) s = (a, s') → inserted nowMS kind payload s a s'.
Proof.
  unfold insertLocked. cbv zeta. intros H.
  destruct (match configured (cfg (sq s)) with Some c => _ | None => false end) eqn:Ec;
    [injection H as <- <-; constructor|].
  destruct (Z.leb_spec (maxItems (cfg (sq s))) (Z.of_nat (size (entries (sq s)))));
    [injection H as <- <-; constructor|].
  destruct (laneShareRefusalLocked _ 0 _) as [[]|e] eqn:E1; [|injection H as <- <-; constructor].
  destruct (Z.leb_spec nowMS 0); [injection H as <- <-; constructor|].
  destruct (Z.ltb_spec (maxBytes (cfg (sq s)))
    (wrap64 (bytes (sq s) + slen (encodeRecord (MkRecord queueRecordVersion (artifactID kind payload) kind (nextSeq (sq s)) nowMS payload)))));
    [injection H as <- <-; constructor|].
  destruct (laneShareRefusalLocked _ (slen _) _) as [[]|e] eqn:E2; [|injection H as <- <-; constructor].
  destruct (writeRecord _ _ s) as [[[]|e] s1] eqn:Ew; injection H as <- <-.
  - apply ins_done; try done. unfold Configured. clear -Ec. destruct (configured _) as [c|]; [|done].
    by destruct (bool_decide _).
  - by eapply ins_failed.
Qed.

Lemma writeRecord_sq r enc s a s' : writeRecord r enc s = (a, s') → sq s' = sq s.
Proof. apply writeFileAtomic_sq. Qed.

(** The record an admission writes. *)
Lemma new_record_wf nowMS kind payload q :
  qinv q → validQueueArtifactType kind = true → payload ≠ "" → 0 < nowMS ≤ i64_max →
  record_wf (MkRecord queueRecordVersion (artifactID kind payload) kind (nextSeq q) nowMS payload).
Proof. intros Hq Hk Hp Hn. pose proof (qi_next _ Hq). split; cbn; try done; lia. Qed.

(** The inputs an admission is given: the clock reads an [int64] of
    milliseconds, the payload fits in memory, and the sequence has not run
    out. *)
Record admissible (nowMS : Z) (kind payload : string) (q : DurableQueue) : Prop := {
  ad_now : nowMS ≤ i64_max;
  ad_kind : validQueueArtifactType kind = true;
  ad_payload : payload ≠ "";
  ad_small : slen payload ≤ 2 ^ 60;
  ad_seq : nextSeq q < i64_max }.

Lemma inserted_qinv nowMS kind payload s a s' :
  qinv (sq s) → admissible nowMS kind payload (sq s) → entries (sq s) !! artifactID kind payload = None →
  inserted nowMS kind payload s a s' → qinv (sq s').
Proof.
  intros Hq [] Hnew H. destruct H as [e|e s1 r0 H|s1 r0 Hc Hi Hs1 Hn Hb Hs2 H]; [done| |].
  - by rewrite (writeRecord_sq _ _ _ _ _ H).
  - cbn. rewrite (writeRecord_sq _ _ _ _ _ H).
    assert (record_wf r0) as Hwf by (by apply new_record_wf).
    pose proof (encoded_small r0 Hwf ad_small0) as [Hlo Hhi].
    pose proof (qcore_bytes_nonneg _ (qi_core _ Hq)). pose proof (qi_maxBytes _ Hq). pose proof (co_bytes _ (qi_cfg _ Hq)).
    rewrite wrap64_id in Hb by (unfold in_i64, i64_min, i64_max; lia).
    apply commit_qinv; done || lia.
Qed.
End Insert.

(** ** What the disk holds of the queue *)

(** The file of a queued record: private, regular, and read back as it. *)
Definition record_file (f : file) (r : queueRecord) : Prop :=
  f_kind f = FRegular ∧ private f = true ∧ decodeRecord (f_data f) = Some r.

Definition on_disk (d : dirst) (id : string) (r : queueRecord) : Prop :=
  ∃ f, durably d (recordFile id) f ∧ record_file f r.

(** Everything the queue lists, apart from [D], is on the disk whatever a
    crash does. *)
Definition disk_ok (D : gset string) (s : qst) : Prop :=
  ∀ id r, id ∉ D → entries (sq s) !! id = Some r → on_disk (sd s) id r.

Lemma on_disk_same d d' id r : same_at (recordFile id) d d' → on_disk d id r → on_disk d' id r.
Proof. intros Hs (f & Hd & Hf). exists f. split; [by eapply same_at_durably|done]. Qed.

Lemma on_disk_crash d id r m :
  on_disk d id r → crash d m → ∃ f, m !! recordFile id = Some f ∧ record_file f r.
Proof.
  intros (f & Hd & Hk & Hp & Hdec) Hc. destruct (durably_crash _ _ _ _ Hd Hc) as (f' & Hm & E1 & E2 & E3).
  exists f'. split; [done|]. unfold record_file, private in *. by rewrite E1, E2, E3.
Qed.

Lemma written_record_file r : record_wf r → record_file (File FRegular 384 (encodeRecord r) true) r.
Proof. intros H. split; [done|]. split; [done|]. cbn. by apply decode_encode_record. Qed.

Lemma entry_not_dotted q id r : qinv q → entries q !! id = Some r → ¬ dotted (recordFile id).
Proof. intros Hq H. destruct (qi_wf _ Hq _ _ H) as (Hwf & <- & _). by apply record_not_dotted. Qed.

Lemma writeRecord_ok r s u s' :
  record_wf r → writeRecord r (encodeRecord r) s = (Ok u, s') →
  d_log (sd s') = [] ∧ d_dur (sd s') = d_vol (sd s') ∧ on_disk (sd s') (qr_ID r) r.
Proof.
  intros Hwf H. apply writeFileAtomic_ok in H as (L & D & Hd).
  - split; [done|]. split; [done|]. eexists. split; [exact Hd|by apply written_record_file].
  - apply not_dotted_prefix; [by apply record_not_dotted|apply dotted_queueTempPrefix].
Qed.

Lemma writeRecord_other r enc s a s' id :
  qr_ID r ≠ id → ¬ dotted (recordFile id) → writeRecord r enc s = (a, s') →
  same_at (recordFile id) (sd s) (sd s').
Proof.
  intros Hne Hd H. eapply writeFileAtomic_same; [done| |exact H]. intros E%recordFile_inj. congruence.
Qed.

Lemma inserted_disk D nowMS kind payload s a s' :
  qinv (sq s) → admissible nowMS kind payload (sq s) → entries (sq s) !! artifactID kind payload = None →
  inserted nowMS kind payload s a s' → disk_ok D s → disk_ok D s'.
Proof.
  intros Hq Ha Hnew H Hd. destruct H as [e|e s1 r0 H|s1 r0 Hc Hi Hs1 Hn Hb Hs2 H]; [done| |].
  - intros id r HD Hr. rewrite (writeRecord_sq _ _ _ _ _ H) in Hr. eapply on_disk_same; [|by apply Hd].
    eapply writeRecord_other; [|by eapply entry_not_dotted|exact H]. cbn. intros <-. congruence.
  - assert (record_wf r0) as Hwf by (destruct Ha; by apply new_record_wf).
    intros id r HD. cbn. rewrite commit_entries, (writeRecord_sq _ _ _ _ _ H).
    destruct (decide (id = artifactID kind payload)) as [->|Hne].
    + cbn [qr_ID r0]. rewrite lookup_insert_eq. intros [= <-]. by apply (writeRecord_ok r0 s tt s1).
    + cbn [qr_ID r0]. rewrite lookup_insert_ne by done. intros Hr. eapply on_disk_same; [|by apply Hd].
      eapply writeRecord_other; [|by eapply entry_not_dotted|exact H]. cbn. congruence.
Qed.

(** ** Holds and back-offs *)
Section Sidecars.
Implicit Types (q : DurableQueue) (s : qst).

Lemma qinv_setHolds q f :
  qinv q →
  (∀ id h, f (holds q) !! id = Some h →
     h_QueueRecord h = id ∧ ∃ r, entries q !! id = Some r ∧ validateHoldRecord h r = Ok tt) →
  qinv (setHolds f q).
Proof. intros [? [] ? ? ? ? ?] Hf. unfold setHolds. destruct q. by split. Qed.

Lemma qinv_setBackoffs q f :
  qinv q →
  (∀ id b, f (backoffs q) !! id = Some b →
     b_QueueRecord b = id ∧ is_Some (entries q !! id) ∧ validateBackoffRecord b = Ok tt) →
  qinv (setBackoffs f q).
Proof. intros [? [] ? ? ? ? ?] Hf. unfold setBackoffs. destruct q. by split. Qed.

Lemma qinv_dropHold q id : qinv q → qinv (setHolds (delete id) q).
Proof. intros Hq. apply qinv_setHolds; [done|]. intros x h [_ H]%lookup_delete_Some. by apply (qi_holds _ Hq). Qed.

Lemma qinv_dropBackoff q id : qinv q → qinv (setBackoffs (delete id) q).
Proof. intros Hq. apply qinv_setBackoffs; [done|]. intros x h [_ H]%lookup_delete_Some. by apply (qi_backoffs _ Hq). Qed.

Lemma setHolds_fields f q :
  entries (setHolds f q) = entries q ∧ holds (setHolds f q) = f (holds q) ∧ backoffs (setHolds f q) = backoffs q.
Proof. by destruct q. Qed.

Lemma setBackoffs_fields f q :
  entries (setBackoffs f q) = entries q ∧ holds (setBackoffs f q) = holds q ∧ backoffs (setBackoffs f q) = f (backoffs q).
Proof. by destruct q. Qed.

(** Nothing but a sidecar changed: the records, and their files, are as
    they were. *)
Definition records_same s s' : Prop :=
  entries (sq s') = entries (sq s) ∧ ∀ n, ¬ dotted n → same_at n (sd s) (sd s').

#[global] Instance records_same_refl : Reflexive records_same.
Proof. intros s. split; [done|]. intros n _. reflexivity. Qed.

#[global] Instance records_same_trans : Transitive records_same.
Proof. intros a b c [E1 F1] [E2 F2]. split; [congruence|]. intros n Hn. etransitivity; eauto. Qed.

Lemma records_same_disk D s s' : qinv (sq s) → records_same s s' → disk_ok D s → disk_ok D s'.
Proof.
  intros Hq [E F] Hd id r HD H. rewrite E in H. eapply on_disk_same; [|by apply Hd].
  apply F. by eapply entry_not_dotted.
Qed.

Lemma onDir_records_same {A} (m : EM dirst A) s r s' :
  (∀ n d r' d', ¬ dotted n → m d = (r', d') → same_at n d d') → onDir m s = (r, s') → records_same s s'.
Proof.
  intros Hm (E & _ & H)%onDir_spec. split; [by rewrite E|]. intros n Hn. by eapply Hm.
Qed.

(** Removing a sidecar file, syncing, and then forgetting it in memory. *)
Lemma sidecar_removal name m1 m2 f s r s' :
  dotted name →
  (onDir (removeTolerant name m1) ;;; onDir (syncDirectory m2) ;;; setQ f)%em s = (r, s') →
  (∀ n, ¬ dotted n → same_at n (sd s) (sd s')) ∧
  (r = Ok tt ∧ sq s' = f (sq s) ∨ r ≠ Ok tt ∧ sq s' = sq s).
Proof.
  intros Hd H.
  assert (∀ s0 r0 s1, onDir (removeTolerant name m1) s0 = (r0, s1) → ∀ n, ¬ dotted n → same_at n (sd s0) (sd s1)) as F1.
  { intros s0 r0 s1 (_ & _ & E)%onDir_spec n Hn. eapply removeTolerant_same; [|exact E]. by intros ->. }
  assert (∀ s0 r0 s1, onDir (syncDirectory m2) s0 = (r0, s1) → ∀ n, same_at n (sd s0) (sd s1)) as F2.
  { intros s0 r0 s1 (_ & _ & E)%onDir_spec n. by eapply syncDirectory_same. }
  em_inv H; [|split; [by eapply F1|right; apply onDir_spec in Hm as (-> & _); by subst]].
  pose proof (F1 _ _ _ Hm) as S1. apply onDir_spec in Hm as (E1 & _).
  em_inv Hk; pose proof (F2 _ _ _ Hm) as S2; apply onDir_spec in Hm as (E2 & _).
  - injection Hk0 as <- <-. cbn. split; [intros n Hn; etransitivity; eauto|]. left. by rewrite E2, E1.
  - split; [intros n Hn; etransitivity; eauto|]. right. rewrite E2, E1. by subst.
Qed.

Lemma removeHoldLocked_spec id s r s' :
  removeHoldLocked id s = (r, s') → qinv (sq s) →
  qinv (sq s') ∧ records_same s s' ∧ (r = Ok tt → holds (sq s') !! id = None) ∧ backoffs (sq s') = backoffs (sq s).
Proof.
  unfold removeHoldLocked. destruct (holds (sq s) !! id) eqn:Eh; [|by intros [= <- <-]].
  intros [F [[-> E]|[Hr E]]]%sidecar_removal Hq; [| |apply dotted_hold]; unfold records_same; rewrite E; [|done].
  destruct (setHolds_fields (delete id) (sq s)) as (-> & -> & ->). rewrite lookup_delete_eq.
  split; [by apply qinv_dropHold|done].
Qed.

Lemma removeBackoffLocked_spec id s r s' :
  removeBackoffLocked id s = (r, s') → qinv (sq s) →
  qinv (sq s') ∧ records_same s s' ∧ (r = Ok tt → backoffs (sq s') !! id = None) ∧ holds (sq s') = holds (sq s).
Proof.
  unfold removeBackoffLocked. destruct (backoffs (sq s) !! id) eqn:Eh; [|by intros [= <- <-]].
  intros [F [[-> E]|[Hr E]]]%sidecar_removal Hq; [| |apply dotted_backoff]; unfold records_same; rewrite E; [|done].
  destruct (setBackoffs_fields (delete id) (sq s)) as (-> & -> & ->). rewrite lookup_delete_eq.
  split; [by apply qinv_dropBackoff|done].
Qed.

(** Writing a sidecar file, then recording it in memory. *)
Lemma sidecar_write name enc f s r s' :
  dotted name → (writeFileAtomic name enc ;;; setQ f)%em s = (r, s') →
  (∀ n, ¬ dotted n → same_at n (sd s) (sd s')) ∧
  (r = Ok tt ∧ sq s' = f (sq s) ∨ r ≠ Ok tt ∧ sq s' = sq s).
Proof.
  intros Hd H. assert (∀ n, ¬ dotted n → n ≠ name) as Hne by (intros n Hn ->; done).
  em_inv H.
  - injection Hk as <- <-. cbn. split.
    + intros n Hn. eapply writeFileAtomic_same; [done|by apply Hne|exact Hm].
    + left. by rewrite (writeFileAtomic_sq _ _ _ _ _ Hm).
  - split; [intros n Hn; eapply writeFileAtomic_same; [done|by apply Hne|exact Hm]|].
    right. rewrite (writeFileAtomic_sq _ _ _ _ _ Hm). by subst.
Qed.

Lemma HoldOp_spec h s r s' :
  HoldOp h s = (r, s') → qinv (sq s) →
  qinv (sq s') ∧ records_same s s' ∧
  (r = Ok tt → ∃ h', holds (sq s') = <[h_QueueRecord h := h']> (holds (sq s)) ∧ h_QueueRecord h' = h_QueueRecord h).
Proof.
  unfold HoldOp. destruct (entries (sq s) !! h_QueueRecord h) as [q0|] eqn:Ee; [|by intros [= <- <-]].
  set (h' := MkHold _ _ _ _ _ _ _ _). destruct (validateHoldRecord h' q0) as [[]|e] eqn:Ev; [|by intros [= <- <-]].
  intros [F [[-> E]|[Hr E]]]%sidecar_write Hq; [| |apply dotted_hold]; unfold records_same; rewrite E; [|done].
  destruct (setHolds_fields (<[h_QueueRecord h := h']>) (sq s)) as (-> & -> & _).
  split; [|split; [done|by exists h']]. apply qinv_setHolds; [done|].
  intros x a [[<- <-]|[_ H]]%lookup_insert_Some; [eauto|by apply (qi_holds _ Hq)].
Qed.

Lemma SetBackoff_spec b s r s' :
  SetBackoff b s = (r, s') → qinv (sq s) →
  qinv (sq s') ∧ records_same s s' ∧
  (r = Ok tt → ∃ b', backoffs (sq s') = <[b_QueueRecord b := b']> (backoffs (sq s)) ∧
     b_NotBeforeMS b' = b_NotBeforeMS b ∧ b_Attempts b' = b_Attempts b ∧ b_RetryAfterMS b' = b_RetryAfterMS b).
Proof.
  unfold SetBackoff. destruct (entries (sq s) !! b_QueueRecord b) as [q0|] eqn:Ee; [|by intros [= <- <-]].
  set (b' := MkBackoff _ _ _ _ _). destruct (validateBackoffRecord b') as [[]|e] eqn:Ev; [|by intros [= <- <-]].
  intros [F [[-> E]|[Hr E]]]%sidecar_write Hq; [| |apply dotted_backoff]; unfold records_same; rewrite E; [|done].
  destruct (setBackoffs_fields (<[b_QueueRecord b := b']>) (sq s)) as (-> & _ & ->).
  split; [|split; [done|by exists b']]. apply qinv_setBackoffs; [done|].
  intros x a [[<- <-]|[_ H]]%lookup_insert_Some; [eauto|by apply (qi_backoffs _ Hq)].
Qed.

Lemma ClearBackoff_spec id s r s' :
  ClearBackoff id s = (r, s') → qinv (sq s) →
  qinv (sq s') ∧ records_same s s' ∧ (r = Ok tt → backoffs (sq s') !! id = None).
Proof.
  unfold ClearBackoff. destruct (backoffs (sq s) !! id) eqn:Eb; [|by intros [= <- <-]].
  destruct (removeBackoffLocked id s) as [r0 s0] eqn:E. intros [= <- <-] Hq.
  destruct (removeBackoffLocked_spec _ _ _ _ E Hq) as (H1 & [H2 H2'] & H3 & _).
  destruct (noteStore_spec r0 s0) as [E1 E2]. unfold records_same. by rewrite E1, E2.
Qed.
End Sidecars.

(** ** Retirement *)
Section Retire.
(** The name is absent whatever a crash does. *)
Definition gone (d : dirst) (n : string) : Prop :=
  d_vol d !! n = None ∧ d_dur d !! n = None ∧ d_log d = [].

Lemma gone_crash d n m : gone d n → crash d m → m !! n = None.
Proof.
  intros (_ & Hd & Hl) Hc. destruct (Hc n) as [H|(o & Ho & _)].
  - rewrite Hd in H. by destruct (m !! n).
  - rewrite Hl in Ho. by apply not_elem_of_nil in Ho.
Qed.

Definition restoreFailed : error := EMsg "evidence: persist queue retirement; restore failed".

Lemma removeStrict_ok name msg d u d' : removeStrict name msg d = (Ok u, d') → d_vol d' !! name = None.
Proof.
  unfold removeStrict, osRemove. destruct (next_io d) as [[] d1]; [done|].
  destruct (d_vol d1 !! name) eqn:E; [|done]. intros [= <- <-]. cbn. apply lookup_delete_eq.
Qed.

Lemma removeStrict_err name msg d e d' n : removeStrict name msg d = (Err e, d') → same_at n d d'.
Proof.
  unfold removeStrict, osRemove. pose proof (next_io_same d n) as H.
  destruct (next_io d) as [[] d1]; cbn in H; [by intros [= <- <-]|].
  destruct (d_vol d1 !! name); [done|]. by intros [= <- <-].
Qed.

Lemma syncDirectory_ok msg d u d' :
  syncDirectory msg d = (Ok u, d') → d_vol d' = d_vol d ∧ d_dur d' = d_vol d ∧ d_log d' = [].
Proof. intros (d1 & V & _ & _ & [= _ <-])%sys_ok. cbn. by rewrite V. Qed.

(** Everything a retirement can end in. *)
Record retired (id : string) (s : qst) (a : res unit) (s' : qst) : Prop := {
  re_inv : qinv (sq s');
  re_others : ∀ id' r', id' ≠ id → entries (sq s) !! id' = Some r' → on_disk (sd s) id' r' →
              entries (sq s') !! id' = Some r' ∧ on_disk (sd s') id' r';
  re_ok : a = Ok tt → entries (sq s') = delete id (entries (sq s)) ∧ gone (sd s') (recordFile id);
  re_err : a ≠ Ok tt → entries (sq s') = entries (sq s);
  re_kept : a ≠ Ok tt → a ≠ Err restoreFailed →
            ∀ r, entries (sq s) !! id = Some r → on_disk (sd s) id r → on_disk (sd s') id r }.

Lemma retired_unchanged id s s' e :
  qinv (sq s) → qinv (sq s') → records_same s s' → retired id s (Err e) s'.
Proof.
  intros Hq0 Hq [E F]. split; [done| |done|done|].
  - intros id' r' _ H Hd. split; [by rewrite E|]. eapply on_disk_same; [|exact Hd].
    apply F. by apply (entry_not_dotted (sq s) _ _ Hq0 H).
  - intros _ _ r H Hd. eapply on_disk_same; [|exact Hd]. apply F. by apply (entry_not_dotted (sq s) _ _ Hq0 H).
Qed.

Lemma unlinkOrRestore_spec record s a s' :
  unlinkOrRestore record s = (a, s') → record_wf record → d_vol (sd s) !! recordFile (qr_ID record) = None →
  sq s' = sq s ∧
  (∀ n, ¬ dotted n → n ≠ recordFile (qr_ID record) → same_at n (sd s) (sd s')) ∧
  (a = Ok tt ∧ gone (sd s') (recordFile (qr_ID record)) ∨
   a = Err restoreFailed ∨
   a = Err (EMsg "evidence: persist queue retirement") ∧ on_disk (sd s') (qr_ID record) record).
Proof.
  intros H Hwf Hv. unfold unlinkOrRestore in H.
  destruct (onDir _ s) as [[[]|e] s1] eqn:E1.
  - injection H as <- <-. apply onDir_spec in E1 as (-> & _ & E1). split; [done|].
    split; [intros n _ _; by eapply syncDirectory_same|]. left. split; [done|].
    apply syncDirectory_ok in E1 as (V & D & L). unfold gone. by rewrite V, D, L.
  - apply onDir_spec in E1 as (Eq & _ & E1).
    destruct (writeRecord record (encodeRecord record) s1) as [[[]|e'] s2] eqn:E2; injection H as <- <-;
      rewrite (writeRecord_sq _ _ _ _ _ E2); (split; [done|]); (split; [|]).
    2: { right; right. split; [done|]. by apply (writeRecord_ok record s1 tt s2). }
    3: { by right; left. }
    all: intros n Hn Hne; etransitivity; [by eapply syncDirectory_same|];
      eapply writeFileAtomic_same; [done|done|exact E2].
Qed.

Lemma removeLocked_spec id s a s' : removeLocked id s = (a, s') → qinv (sq s) → retired id s a s'.
Proof.
  unfold removeLocked. destruct (entries (sq s) !! id) as [record|] eqn:Ee.
  2: { intros [= <- <-] Hq. apply retired_unchanged; [done|done|reflexivity]. }
  intros H Hq. destruct (qi_wf _ Hq _ _ Ee) as (Hwf & Hid & _).
  em_inv H; destruct (removeHoldLocked_spec _ _ _ _ Hm Hq) as (Q1 & S1 & Hh & _);
    [|subst; by apply retired_unchanged]. destruct a0.
  em_inv Hk; destruct (removeBackoffLocked_spec _ _ _ _ Hm0 Q1) as (Q2 & S2 & Hb & Hhb);
    [|subst; apply retired_unchanged; [done|done|by etransitivity]]. destruct a0.
  assert (records_same s s1) as S12 by (by etransitivity).
  em_inv Hk0; apply onDir_spec in Hm1 as (E3 & _ & R3).
  2: { subst a. apply retired_unchanged; [done|by rewrite E3|].
       etransitivity; [exact S12|]. split; [by rewrite E3|]. intros n _. by eapply removeStrict_err. }
  destruct a0. pose proof (removeStrict_ok _ _ _ _ _ R3) as Hv. rewrite <-Hid in Hv at 1.
  assert (∀ n, ¬ dotted n → n ≠ recordFile id → same_at n (sd s) (sd s2)) as F3.
  { intros n Hn Hne. etransitivity; [by apply S12|]. by eapply removeStrict_same. }
  assert (entries (sq s2) = entries (sq s)) as E20 by (rewrite E3; apply S12).
  assert (∀ id', entries (sq s) !! id' = None ∨ ¬ dotted (recordFile id')) as Hnd.
  { intros id'. destruct (entries (sq s) !! id') eqn:Er; [right; exact (entry_not_dotted (sq s) _ _ Hq Er)|by left]. }
  em_inv Hk; destruct (unlinkOrRestore_spec _ _ _ _ Hm1 Hwf Hv) as (E4 & F4 & Hout); rewrite Hid in *;
    (assert (∀ id' r', id' ≠ id → entries (sq s) !! id' = Some r' → on_disk (sd s) id' r' → on_disk (sd s3) id' r' ) as Hoth
     || assert (∀ id' r', id' ≠ id → entries (sq s) !! id' = Some r' → on_disk (sd s) id' r' → on_disk (sd s') id' r' ) as Hoth).
  1,3: intros id' r' Hne Hr Hd; destruct (Hnd id') as [?|Hn']; [congruence|]; eapply on_disk_same; [|exact Hd];
    (etransitivity; [apply F3|apply F4]); try done; intros E%recordFile_inj; done.
  - injection Hk0 as <- <-. cbn. destruct Hout as [[_ Hg]|[|[]]]; [|done..].
    assert (qinv (sq s3)) as Q3 by (rewrite E4, E3; done).
    assert (entries (sq s3) = entries (sq s)) as E30 by congruence.
    destruct (drop_fields (sq s3) id) as (D1 & _).
    split; cbn; [|..|done|done].
    + eapply drop_qinv; [done|by rewrite E30| |]; rewrite E4, E3; [rewrite Hhb|]; auto.
    + intros id' r' Hne Hr Hd. split; [|by apply Hoth]. by rewrite D1, E30, lookup_delete_ne.
    + intros _. by rewrite D1, E30.
  - subst a. split; [by rewrite E4, E3| |done|by rewrite E4|].
    + intros id' r' Hne Hr Hd. split; [by rewrite E4, E20|by apply Hoth].
    + intros _ Hne r Hr Hd. destruct Hout as [[]|[|[_ Hon]]]; [done|done|].
      by replace r with record by congruence.
Qed.
End Retire.
End QueueOps.
