(* ===== verification/QueueDir.v ===== *)
(** * The queue's own directory (queue.go: ensurePrivateQueueDirectory, ensureQueueMarker)

    Before anything is loaded the queue inspects its directory: it must be a
    private directory, and one that carries the ownership marker unless this
    call created it. *)
From S2P Require Import Prelude GoBytes Sha256 Json Routing Refusal Faults Store Queue Codec QueueInv QueueOps.
Import Store Queue QueueOps.

Module QueueDir.
Local Open Scope em_scope.

Definition queueMarkerBody : string := "ori evidence durable queue v1" +:+ String (bc 10) "".

(** What [os.Lstat] says of a path: absent, or a kind and permission bits. *)
Definition node : Type := option (fkind * Z).

(** Give up a marker that could not be written: it is removed, with the
    outcome of the removal ignored, and the call fails. *)
Definition orRemove {A} (m : EM dirst A) : EM dirst A := λ d,
  match m d with
  | (Err e, d') => (Err e, discardTemp queueMarkerName d')
  | r => r
  end.

(** The steps after the marker has been created exclusively. *)
Definition writeMarker : EM dirst unit :=
  (orRemove (sys "evidence: write queue ownership marker"
     (λ d, (tt, update queueMarkerName (λ f, File (f_kind f) (f_perm f) queueMarkerBody false) d))) ;;;
   orRemove (sys "evidence: sync queue ownership marker"
     (λ d, (tt, update queueMarkerName (λ f, File (f_kind f) (f_perm f) (f_data f) true) d))) ;;;
   orRemove (sys "evidence: close queue ownership marker" (λ d, (tt, d))) ;;;
   syncDirectory "evidence: persist queue ownership marker")%em.

(** The marker another opening left. *)
Definition checkMarker (f : file) : EM dirst unit :=
  (sys "evidence: invalid queue ownership marker" (λ d, (tt, d)) ;;;
   if negb (regular f && private f) then efail (EMsg "evidence: invalid queue ownership marker")
   else sys "evidence: queue ownership marker does not match" (λ d, (tt, d)) ;;;
        if bool_decide (f_data f = queueMarkerBody) then eret tt
        else efail (EMsg "evidence: queue ownership marker does not match"))%em.

(** [ensureQueueMarker]: only a [Lstat] that says the marker is absent stops an
    existing directory here; one that failed is not looked at. *)
Definition ensureQueueMarker (mayCreate : bool) : EM dirst unit := λ d,
  let '(absent, d0) :=
    if mayCreate then (false, d)
    else let '(fails, d') := next_io d in (negb fails && bool_decide (d_vol d' !! queueMarkerName = None), d') in
  if absent then (Err (EMsg "evidence: existing queue directory has no ownership marker"), d0)
  else
    let '(fails, d1) := next_io d0 in
    if fails then (Err (EMsg "evidence: create queue ownership marker"), d1)
    else match d_vol d1 !! queueMarkerName with
         | None => writeMarker (change queueMarkerName (Some (File FRegular 384 "" false)) d1)
         | Some f => checkMarker f d1
         end.

(** The directory itself, once it exists. *)
Definition checkDirectory (n : fkind * Z) (created : bool) : EM dirst unit :=
  if negb (bool_decide (n.1 = FDirectory)) then efail (EMsg "evidence: queue path must be a directory, not a symlink or file")
  else if negb (Z.land n.2 63 =? 0)
       then efail (EMsg "evidence: queue directory must not be accessible by group or other users")
  else ensureQueueMarker created.

(** [ensurePrivateQueueDirectory]. *)
Definition ensurePrivateQueueDirectory (n : node) : EM dirst unit :=
  (sys "evidence: inspect queue directory" (λ d, (tt, d)) ;;;
   match n with
   | Some n => checkDirectory n false
   | None =>
     sys "evidence: create queue parent directory" (λ d, (tt, d)) ;;;
     sys "evidence: create queue directory" (λ d, (tt, Dir ∅ ∅ [] (d_io d))) ;;;
     sys "evidence: protect queue directory" (λ d, (tt, d)) ;;;
     sys "evidence: inspect queue directory" (λ d, (tt, d)) ;;;
     checkDirectory (FDirectory, 448) true
   end)%em.

(** ** What a successful check leaves *)

(** The directory as it was, or with the marker added. *)
Definition marked (d d' : dirst) : Prop :=
  (∀ n, n ≠ queueMarkerName → same_at n d d') ∧
  (d_vol d' = d_vol d ∨
   d_vol d !! queueMarkerName = None ∧ d_vol d' = <[queueMarkerName := File FRegular 384 queueMarkerBody true]> (d_vol d)).

Lemma sys_noop msg d r d' :
  sys msg (λ d, (tt, d)) d = (r, d') → d' = (next_io d).2.
Proof. unfold sys. destruct (next_io d) as [[] d1]; by intros [= _ <-]. Qed.

Lemma next_io_fields d : d_vol (next_io d).2 = d_vol d ∧ d_dur (next_io d).2 = d_dur d ∧ d_log (next_io d).2 = d_log d.
Proof. unfold next_io. by destruct (d_io d). Qed.

Lemma marked_io d d' : marked (next_io d).2 d' → marked d d'.
Proof.
  intros [H1 H2]. destruct (next_io_fields d) as (V & _ & _). rewrite V in H2. split; [|done].
  intros n Hn. etransitivity; [apply next_io_same|by apply H1].
Qed.

Lemma marked_refl d : marked d d.
Proof. split; [reflexivity|by left]. Qed.

Lemma orRemove_ok {A} (m : EM dirst A) d a d' : orRemove m d = (Ok a, d') → m d = (Ok a, d').
Proof. unfold orRemove. by destruct (m d) as [[|] ?]. Qed.

Lemma sys_act {A} msg (act : dirst → A * dirst) d a d' :
  sys msg act d = (Ok a, d') → act (next_io d).2 = (a, d').
Proof. unfold sys. destruct (next_io d) as [[] d1]; [done|]. cbn. destruct (act d1). by intros [= -> ->]. Qed.

Lemma marker_update msg name g d u d' f :
  d_vol d !! name = Some f → sys msg (λ d, (tt, update name g d)) d = (Ok u, d') → d_vol d' = <[name := g f]> (d_vol d).
Proof.
  intros Hf H%sys_act. injection H as _ <-. unfold update. by rewrite (proj1 (next_io_fields d)), Hf; cbn; rewrite (proj1 (next_io_fields d)).
Qed.

Lemma writeMarker_ok d f u d' :
  d_vol d !! queueMarkerName = Some f → f_kind f = FRegular → f_perm f = 384 → writeMarker d = (Ok u, d') →
  (∀ n, n ≠ queueMarkerName → same_at n d d') ∧
  d_vol d' = <[queueMarkerName := File FRegular 384 queueMarkerBody true]> (d_vol d).
Proof.
  intros Hf Hk Hp H. unfold writeMarker in H.
  apply ebind_ok in H as ([] & d1 & H1%orRemove_ok & H). apply ebind_ok in H as ([] & d2 & H2%orRemove_ok & H).
  apply ebind_ok in H as ([] & d3 & H3%orRemove_ok & H).
  split.
  - intros n Hn. etransitivity; [eapply sys_same; [|exact H1]; intros; by apply update_same|].
    etransitivity; [eapply sys_same; [|exact H2]; intros; by apply update_same|].
    etransitivity; [eapply sys_same; [|exact H3]; intros; reflexivity|]. by eapply syncDirectory_same.
  - eapply marker_update in H1; [|done]. eapply marker_update in H2; [|rewrite H1; apply lookup_insert_eq].
    apply sys_noop in H3. unfold syncDirectory in H. apply sys_act in H. injection H as _ <-. cbn. subst d3.
    by rewrite !(proj1 (next_io_fields _)), H2, H1, insert_insert_eq, Hk, Hp.
Qed.

Lemma checkMarker_ok f d u d' :
  checkMarker f d = (Ok u, d') → marked d d' ∧ regular f = true ∧ private f = true ∧ f_data f = queueMarkerBody.
Proof.
  unfold checkMarker. intros ([] & d1 & H1%sys_noop & H)%ebind_ok.
  destruct (regular f && private f) eqn:Er; [|done]. cbn in H.
  apply ebind_ok in H as ([] & d2 & H2%sys_noop & H). case_bool_decide; [|done]. injection H as _ <-. subst.
  split; [do 2 apply marked_io; apply marked_refl|]. by apply andb_true_iff in Er as [-> ->].
Qed.

Lemma ensureQueueMarker_ok mayCreate d u d' :
  ensureQueueMarker mayCreate d = (Ok u, d') →
  marked d d' ∧
  (∀ f, d_vol d !! queueMarkerName = Some f → regular f = true ∧ private f = true ∧ f_data f = queueMarkerBody).
Proof.
  unfold ensureQueueMarker. intros H.
  destruct (if mayCreate then _ else _) as [absent d0] eqn:E0.
  assert (d_vol d0 = d_vol d ∧ (∀ d', marked d0 d' → marked d d')) as [V0 M0].
  { destruct mayCreate; [by injection E0 as _ <-|]. destruct (next_io d) as [b d1] eqn:En. injection E0 as _ <-.
    pose proof (marked_io d) as M. pose proof (next_io_fields d) as (V & _). rewrite En in M, V. done. }
  destruct absent; [done|]. destruct (next_io d0) as [fails d1] eqn:E1. destruct fails; [done|].
  pose proof (marked_io d0) as M1. pose proof (next_io_fields d0) as (V1 & _). rewrite E1 in M1, V1. cbn in M1, V1.
  rewrite V1, V0 in H. destruct (d_vol d !! queueMarkerName) as [f|] eqn:Ef.
  - apply checkMarker_ok in H as (M & H). split; [auto|]. by intros ? [= <-].
  - split; [|done]. apply M0, M1. eapply writeMarker_ok in H as [S V]; [|cbn; apply lookup_insert_eq|done..].
    split.
    + intros n Hn. etransitivity; [by apply change_same|by apply S].
    + right. rewrite V1, V0. split; [done|]. rewrite V. cbn. by rewrite insert_insert_eq, V1, V0.
Qed.

Lemma checkDirectory_ok n created d u d' :
  checkDirectory n created d = (Ok u, d') →
  n.1 = FDirectory ∧ Z.land n.2 63 = 0 ∧ ensureQueueMarker created d = (Ok u, d').
Proof.
  unfold checkDirectory. case_bool_decide; [|done]. destruct (Z.eqb_spec (Z.land n.2 63) 0); [|done]. done.
Qed.

(** An existing directory is left as it was, but for the marker. *)
Lemma ensurePrivateQueueDirectory_ok n d u d' :
  ensurePrivateQueueDirectory (Some n) d = (Ok u, d') → marked d d'.
Proof.
  intros ([] & d1 & H1%sys_noop & H)%ebind_ok. apply checkDirectory_ok in H as (_ & _ & H).
  apply ensureQueueMarker_ok in H as [M _]. apply marked_io. by subst d1.
Qed.

(** A directory this call created holds nothing but the marker. *)
Lemma ensurePrivateQueueDirectory_new d u d' :
  ensurePrivateQueueDirectory None d = (Ok u, d') →
  d_vol d' = {[queueMarkerName := File FRegular 384 queueMarkerBody true]}.
Proof.
  intros ([] & d1 & H1%sys_noop & H)%ebind_ok.
  apply ebind_ok in H as ([] & d2 & H2%sys_noop & H). apply ebind_ok in H as ([] & d3 & H3%sys_act & H).
  apply ebind_ok in H as ([] & d4 & H4%sys_noop & H). apply ebind_ok in H as ([] & d5 & H5%sys_noop & H).
  injection H3 as <-. apply checkDirectory_ok in H as (_ & _ & H). cbn in H4.
  assert (d_vol d5 = ∅) as V5.
  { subst. rewrite (proj1 (next_io_fields _)), (proj1 (next_io_fields _)). done. }
  unfold ensureQueueMarker in H. destruct (next_io d5) as [fails d6] eqn:E6. destruct fails; [done|].
  pose proof (next_io_fields d5) as (V6 & _). rewrite E6 in V6. cbn in V6. rewrite V6, V5, lookup_empty in H.
  eapply writeMarker_ok in H as [_ V]; [|cbn; apply lookup_insert_eq|done..].
  rewrite V. cbn. by rewrite insert_insert_eq, V6, V5.
Qed.
End QueueDir.
