(* ===== verification/Probe.v ===== *)
(** * Store probes and unconfigured devices (evidence/courier/probe.go)

    The probe is the only thing that clears store_unavailable.  The set of
    devices observed while unconfigured is durable and bounded; a device leaves
    it only by a later admission. *)
From S2P Require Import Prelude GoBytes Json Routing Refusal Faults Store Queue Codec QueueInv QueueOps.
Import Routing Store Queue Codec QueueInv QueueOps.

Module Probe.

Definition probeFileName : string := ".ori-evidence-probe".
Definition unconfiguredFileName : string := ".ori-evidence-unconfigured".
Definition unconfiguredFileVersion : Z := 1.
Definition maxUnconfiguredDevices : Z := 256.
Definition devicesFaultSource : string := "devices".

(** [probe]: read the directory, draw fresh bytes, replace the probe file. *)
Definition probe (body : string) : EM qst unit :=
  (onDir (sys "evidence: probe read" (λ d, (tt, d))) ;;;
   onDir (sys "evidence: probe bytes" (λ d, (tt, d))) ;;;
   onDir (writeFileAtomicRaw queueTempPrefix probeFileName body))%em.

(** [Probe]: a failure raises this store's store_unavailable, a success clears it. *)
Definition ProbeOp (body : string) : EM qst unit := λ s,
  let '(r, s') := probe body s in
  (r, note Faults.StoreUnavailable (faultSource (cfg (sq s'))) (negb (is_ok r)) s').

Definition setUnconfigured (u : gset string) (ov : bool) (q : DurableQueue) : DurableQueue :=
  let '(MkQueue c en ho ba sz od by_ ns lo li lb di db _ _) := q in
  MkQueue c en ho ba sz od by_ ns lo li lb di db u ov.

Definition encodeUnconfigured (devices : list string) (overflow : bool) : string :=
  print (JObj [("v", jint unconfiguredFileVersion); ("devices", JArr (map jstr devices)); ("overflow", JBool overflow)]).

Definition writeUnconfiguredLocked : EM qst unit := λ s,
  let devices := merge_sort String.le (elements (unconfigured (sq s))) in
  let overflow := unconfiguredOverflow (sq s) in
  if bool_decide (devices = []) && negb overflow then
    match onDir (removeTolerant unconfiguredFileName "evidence: remove unconfigured record") s with
    | (Err e, s') => (Err e, noteStore (@Err unit e) s')
    | (Ok _, s') =>
      let '(r, s'') := onDir (syncDirectory "evidence: sync unconfigured record") s' in (r, noteStore r s'')
    end
  else writeFileAtomic unconfiguredFileName (encodeUnconfigured devices overflow) s.

(** A carriage was observed for a device that is not configured. *)
Definition NoteUnconfiguredDevice (device : string) : EM qst unit := λ s0,
  let s := note Faults.DeviceUnconfigured devicesFaultSource true s0 in
  let q := sq s in
  if decide (device ∈ unconfigured q) then (Ok tt, s)
  else if (maxUnconfiguredDevices <=? Z.of_nat (size (unconfigured q))) || negb (validRoutingDeviceID device) then
    if unconfiguredOverflow q then (Ok tt, s)
    else writeUnconfiguredLocked (MkSt (setUnconfigured (unconfigured q) true q) (sd s) (sf s))
  else writeUnconfiguredLocked
         (MkSt (setUnconfigured ({[device]} ∪ unconfigured q) (unconfiguredOverflow q) q) (sd s) (sf s)).

(** A completed admission for [device]. *)
Definition NoteAdmittedDevice (device : string) (s : qst) : qst :=
  let q := sq s in
  if decide (device ∈ unconfigured q) then
    let q1 := setUnconfigured (unconfigured q ∖ {[device]}) (unconfiguredOverflow q) q in
    match writeUnconfiguredLocked (MkSt q1 (sd s) (sf s)) with
    | (Err _, s1) => s1
    | (Ok _, s1) =>
      if bool_decide (size (unconfigured (sq s1)) = 0%nat) && negb (unconfiguredOverflow (sq s1))
      then note Faults.DeviceUnconfigured devicesFaultSource false s1
      else s1
    end
  else s.

(** ** Frames *)
Lemma dotted_probe : dotted probeFileName.
Proof. by eexists. Qed.
Lemma dotted_unconfigured : dotted unconfiguredFileName.
Proof. by eexists. Qed.

Lemma setUnconfigured_fields u ov q :
  entries (setUnconfigured u ov q) = entries q ∧ unconfigured (setUnconfigured u ov q) = u ∧
  unconfiguredOverflow (setUnconfigured u ov q) = ov ∧ cfg (setUnconfigured u ov q) = cfg q ∧
  nextSeq (setUnconfigured u ov q) = nextSeq q.
Proof. by destruct q. Qed.

Lemma qinv_setUnconfigured u ov q : qinv q → qinv (setUnconfigured u ov q).
Proof. intros [? [] ? ? ? ? ?]. destruct q. by split. Qed.

Lemma writeUnconfigured_spec s r s' :
  writeUnconfiguredLocked s = (r, s') → sq s' = sq s ∧ ∀ n, ¬ dotted n → same_at n (sd s) (sd s').
Proof.
  unfold writeUnconfiguredLocked. cbv zeta. case_match.
  - destruct (onDir (removeTolerant _ _) s) as [[[]|e] s1] eqn:E1; apply onDir_spec in E1 as (Q1 & _ & E1);
      assert (∀ n, ¬ dotted n → same_at n (sd s) (sd s1)) as F1
        by (intros n Hn; eapply removeTolerant_same; [|exact E1]; intros ->; apply Hn, dotted_unconfigured).
    + destruct (onDir (syncDirectory _) s1) as [r2 s2] eqn:E2. apply onDir_spec in E2 as (Q2 & _ & E2).
      intros [= <- <-]. destruct (noteStore_spec r2 s2) as [-> ->]. split; [congruence|].
      intros n Hn. etransitivity; [by apply F1|by eapply syncDirectory_same].
    + intros [= <- <-]. destruct (noteStore_spec (@Err unit e) s1) as [-> ->]. done.
  - intros H0. split; [by eapply writeFileAtomic_sq|]. intros n Hn. eapply writeFileAtomic_same; [done| |exact H0].
    intros ->. apply Hn, dotted_unconfigured.
Qed.

Lemma NoteUnconfiguredDevice_spec device s r s' :
  NoteUnconfiguredDevice device s = (r, s') → qinv (sq s) → qinv (sq s') ∧ records_same s s'.
Proof.
  unfold NoteUnconfiguredDevice. cbv zeta. intros H Hq.
  case_decide; [by simplify_eq|]. destruct (_ || _); [destruct (unconfiguredOverflow _); [by simplify_eq|]|].
  all: apply writeUnconfigured_spec in H as [E F]; cbn in E, F; rewrite E; split; [by apply qinv_setUnconfigured|];
    split; [rewrite E; apply setUnconfigured_fields|done].
Qed.

Lemma NoteAdmittedDevice_spec device s :
  qinv (sq s) → qinv (sq (NoteAdmittedDevice device s)) ∧ records_same s (NoteAdmittedDevice device s).
Proof.
  intros Hq. unfold NoteAdmittedDevice. cbv zeta. case_decide; [|split; [done|reflexivity]].
  destruct (writeUnconfiguredLocked _) as [r s1] eqn:E. apply writeUnconfigured_spec in E as [E F]. cbn in *.
  assert (qinv (sq s1) ∧ records_same s s1) as [H1 [H2 H3]].
  { rewrite E. split; [by apply qinv_setUnconfigured|]. split; [rewrite E; apply setUnconfigured_fields|done]. }
  repeat case_match; done.
Qed.

Lemma probe_spec body s r s' :
  probe body s = (r, s') → sq s' = sq s ∧ sf s' = sf s ∧ ∀ n, ¬ dotted n → same_at n (sd s) (sd s').
Proof.
  intros H. unfold probe in H. assert (∀ msg (s0 : qst) r0 s1,
    onDir (sys msg (λ d, (tt, d))) s0 = (r0, s1) → sq s1 = sq s0 ∧ sf s1 = sf s0 ∧ ∀ n, same_at n (sd s0) (sd s1)) as Hsys.
  { intros msg s0 r0 s1 (-> & -> & E)%onDir_spec. split_and!; [done..|]. intros n. eapply sys_same; [|exact E]. reflexivity. }
  em_inv H; destruct (Hsys _ _ _ _ Hm) as (Q1 & G1 & F1); [|done].
  em_inv Hk; destruct (Hsys _ _ _ _ Hm0) as (Q2 & G2 & F2);
    [|split_and!; [congruence..|]; intros n _; etransitivity; [by apply F1|done]].
  apply onDir_spec in Hk0 as (Q3 & G3 & E3). split_and!; [congruence..|]. intros n Hn.
  etransitivity; [by apply F1|]. etransitivity; [by apply F2|].
  eapply writeFileAtomicRaw_same; [| |exact E3].
  - apply not_dotted_prefix; [done|apply dotted_queueTempPrefix].
  - intros ->. apply Hn, dotted_probe.
Qed.

Lemma ProbeOp_spec body s r s' :
  ProbeOp body s = (r, s') → qinv (sq s) → qinv (sq s') ∧ records_same s s'.
Proof.
  unfold ProbeOp. destruct (probe body s) as [r0 s0] eqn:E. apply probe_spec in E as (E & _ & F).
  intros [= <- <-] Hq. unfold note, records_same. cbn. by rewrite E.
Qed.
End Probe.
