(* ===== verification/Load.v ===== *)
(** * Opening the queue (openDurableQueue, load, loadHolds, loadBackoffs, loadUnconfigured)

    Startup reconstructs the queue from its directory and refuses it on the
    first file it cannot account for, rather than skipping one. *)
From S2P Require Import Prelude GoBytes Sha256 Json Routing Refusal Faults Store Queue Codec QueueInv QueueOps QueueDir Probe.
Import Routing Store Queue Codec QueueInv QueueOps QueueDir Probe.

Module Load.
Local Open Scope em_scope.

Definition signingFilePrefix : string := ".ori-signed-at-".

(** What the scan of the directory accumulates. *)
Record loading := MkLoading {
  ld_st : qst;
  ld_seen : gset Z;
  ld_holds : list string;
  ld_backoffs : list string;
  ld_unconfigured : bool }.

(** Directory entries are visited in file-name order. *)
Definition dirNames (m : gmap string file) : list string := merge_sort String.le (elements (dom m)).

Definition onSt {A} (m : EM qst A) : EM loading A := λ L,
  let '(r, s) := m (ld_st L) in (r, MkLoading s (ld_seen L) (ld_holds L) (ld_backoffs L) (ld_unconfigured L)).

Definition guard (refuse : bool) (msg : string) : EM loading unit :=
  if refuse then efail (EMsg msg) else eret tt.

(** [info], [ReadFile]: calls that may fail and change nothing. *)
Definition touch (msg : string) : EM loading unit := onSt (onDir (sys msg (λ d, (tt, d)))).

Definition addLoaded (record : queueRecord) (size : Z) (q : DurableQueue) : DurableQueue :=
  let '(MkQueue c en ho ba sz od by_ ns lo li lb di db un ov) := indexLocked record size q in
  let id := qr_ID record in
  MkQueue c (<[id := record]> en) ho ba (<[id := size]> sz) (od ++ [id]) (wrap64 (by_ + size))
    (if ns <=? qr_QueueSeq record then wrap64 (qr_QueueSeq record + 1) else ns) lo li lb di db un ov.

Definition validRecord (record : queueRecord) : bool :=
  (qr_V record =? queueRecordVersion) && (0 <? qr_QueueSeq record) && (0 <? qr_EnqueuedAtMS record) &&
  validQueueArtifactType (qr_Type record) && negb (bool_decide (qr_Payload record = "")).

(** One queue record file. *)
Definition loadRecord (name : string) (f : file) : EM loading unit := λ L,
  (touch "evidence: inspect queue record" ;;;
   guard (negb (regular f)) "evidence: queue record must be a regular file" ;;;
   guard (negb (private f)) "evidence: queue record permissions are not private" ;;;
   touch "evidence: read queue record" ;;;
   match decodeRecord (f_data f) with
   | None => efail (EMsg "evidence: corrupt queue record")
   | Some record =>
     guard (negb (validRecord record)) "evidence: invalid queue record" ;;;
     guard (negb (bool_decide (qr_ID record = artifactID (qr_Type record) (qr_Payload record))))
       "evidence: queue record identity does not match its bytes" ;;;
     guard (negb (bool_decide (name = recordFile (qr_ID record))))
       "evidence: queue record filename does not match its identity" ;;;
     guard (bool_decide (is_Some (entries (sq (ld_st L)) !! qr_ID record))) "evidence: duplicate queue record" ;;;
     guard (bool_decide (qr_QueueSeq record ∈ ld_seen L)) "evidence: duplicate durable queue sequence" ;;;
     (λ L', (Ok tt, MkLoading
        (MkSt (addLoaded record (slen (f_data f)) (sq (ld_st L'))) (sd (ld_st L')) (sf (ld_st L')))
        ({[qr_QueueSeq record]} ∪ ld_seen L') (ld_holds L') (ld_backoffs L') (ld_unconfigured L')))
   end) L.

(** One directory entry. *)
Definition loadEntry (name : string) (f : file) : EM loading unit := λ L,
  if bool_decide (name = queueMarkerName) || hasPrefix name signingFilePrefix || bool_decide (name = probeFileName)
  then (Ok tt, L)
  else if decide (name = unconfiguredFileName) then
    (Ok tt, MkLoading (ld_st L) (ld_seen L) (ld_holds L) (ld_backoffs L) true)
  else if hasPrefix name holdFilePrefix then
    (Ok tt, MkLoading (ld_st L) (ld_seen L) (ld_holds L ++ [name]) (ld_backoffs L) (ld_unconfigured L))
  else if hasPrefix name backoffFilePrefix then
    (Ok tt, MkLoading (ld_st L) (ld_seen L) (ld_holds L) (ld_backoffs L ++ [name]) (ld_unconfigured L))
  else if hasPrefix name queueTempPrefix then
    onSt (onDir (removeStrict name "evidence: remove incomplete queue write")) L
  else if bool_decide (f_kind f = FDirectory) || negb (hasSuffix name queueFileSuffix) then
    (Err (EMsg "evidence: unexpected entry in durable queue"), L)
  else loadRecord name f L.

Fixpoint loadEntries (names : list string) (m : gmap string file) : EM loading unit :=
  match names with
  | [] => eret tt
  | name :: names' =>
    match m !! name with
    | Some f => loadEntry name f ;;; loadEntries names' m
    | None => loadEntries names' m
    end
  end.

(** [readPrivateSidecar], and the same checks of loadHolds. *)
Definition readPrivateSidecar (name : string) : EM qst string := λ s,
  (onDir (sys "evidence: inspect sidecar record" (λ d, (tt, d))) ;;;
   match d_vol (sd s) !! name with
   | None => efail (EMsg "evidence: inspect sidecar record")
   | Some f =>
     if negb (regular f) then efail (EMsg "evidence: sidecar record must be a regular file")
     else if negb (private f) then efail (EMsg "evidence: sidecar record permissions are not private")
     else onDir (sys "evidence: read sidecar record" (λ d, (tt, d))) ;;; eret (f_data f)
   end) s.

Definition loadHold (name : string) : EM qst unit := λ s,
  let id := trimPrefix name holdFilePrefix in
  (raw <- readPrivateSidecar name ;;
   match decodeHold raw with
   | None => efail (EMsg "evidence: corrupt refused-head record")
   | Some record =>
     if negb (bool_decide (h_QueueRecord record = id)) then efail (EMsg "evidence: refused-head record names another queue record")
     else match entries (sq s) !! id with
     | None => efail (EMsg "evidence: refused-head record has no queue record")
     | Some queued => match validateHoldRecord record queued with
                      | Err e => efail e
                      | Ok _ => setQ (setHolds (<[id := record]>))
                      end
     end
   end) s.

Definition loadBackoff (name : string) : EM qst unit := λ s,
  let id := trimPrefix name backoffFilePrefix in
  (raw <- readPrivateSidecar name ;;
   match decodeBackoff raw with
   | None => efail (EMsg "evidence: corrupt back-off record")
   | Some record =>
     if negb (bool_decide (b_QueueRecord record = id)) then efail (EMsg "evidence: back-off record names another queue record")
     else match entries (sq s) !! id with
     | None => efail (EMsg "evidence: back-off record has no queue record")
     | Some _ => match validateBackoffRecord record with
                 | Err e => efail e
                 | Ok _ => setQ (setBackoffs (<[id := record]>))
                 end
     end
   end) s.

Fixpoint forEach {A} (g : A → EM qst unit) (l : list A) : EM qst unit :=
  match l with
  | [] => eret tt
  | x :: l' => g x ;;; forEach g l'
  end.

Record unconfiguredRecord := MkUnconf { u_V : Z; u_Devices : list string; u_Overflow : bool }.

Definition setUnconfField (n : string) (v : json) (r : unconfiguredRecord) : unconfiguredRecord * bool :=
  if decide (n = "v") then let '(x, ok) := setInt v (u_V r) in (MkUnconf x (u_Devices r) (u_Overflow r), ok)
  else if decide (n = "devices") then
    let '(x, ok) := setStrs v (u_Devices r) in (MkUnconf (u_V r) x (u_Overflow r), ok)
  else let '(x, ok) := setBool v (u_Overflow r) in (MkUnconf (u_V r) (u_Devices r) x, ok).

Definition decodeUnconfigured (raw : string) : option unconfiguredRecord :=
  decodeStruct ["v"; "devices"; "overflow"] true setUnconfField (MkUnconf 0 [] false) raw.

Definition loadUnconfigured (present : bool) : EM qst unit :=
  if negb present then eret tt
  else
    raw <- readPrivateSidecar unconfiguredFileName ;;
    match decodeUnconfigured raw with
    | None => efail (EMsg "evidence: corrupt unconfigured-device record")
    | Some r =>
      if negb (u_V r =? unconfiguredFileVersion) || (maxUnconfiguredDevices <? Z.of_nat (length (u_Devices r))) ||
         negb (forallb validRoutingDeviceID (u_Devices r))
      then efail (EMsg "evidence: corrupt unconfigured-device record")
      else λ s,
        let u : gset string := list_to_set (u_Devices r) in
        let s' := MkSt (setUnconfigured u (u_Overflow r) (sq s)) (sd s) (sf s) in
        (Ok tt, if negb (bool_decide (u = ∅)) || u_Overflow r
                then note Faults.DeviceUnconfigured devicesFaultSource true s' else s')
    end.

(** [load]. *)
Definition load : EM qst unit := λ s0,
  match onDir (sys "evidence: read durable queue" (λ d, (tt, d))) s0 with
  | (Err e, s) => (Err e, s)
  | (Ok _, s) =>
    match loadEntries (dirNames (d_vol (sd s))) (d_vol (sd s)) (MkLoading s ∅ [] [] false) with
    | (Err e, L) => (Err e, ld_st L)
    | (Ok _, L) =>
      (setQ sortOrder ;;;
       (λ s, if (maxItems (cfg (sq s)) <? Z.of_nat (size (entries (sq s)))) || (maxBytes (cfg (sq s)) <? bytes (sq s))
             then (Err (EMsg "evidence: existing durable queue exceeds configured bounds"), s) else (Ok tt, s)) ;;;
       forEach loadHold (ld_holds L) ;;;
       forEach loadBackoff (ld_backoffs L) ;;;
       loadUnconfigured (ld_unconfigured L)) (ld_st L)
    end
  end.

(** [o_Directory] is the trimmed and cleaned path. *)
Record QueueOptions := MkOptions {
  o_Directory : string; o_MaxItems : Z; o_MaxBytes : Z; o_Devices : list string;
  o_ReserveDeviceShares : bool; o_VersionedDevices : list string; o_FaultSource : string }.

(** The checks before the directory is touched. *)
Definition checkOptions (o : QueueOptions) : res unit :=
  if bool_decide (o_Directory o = ".") || bool_decide (o_Directory o = "") then Err (EMsg "evidence: queue directory must not be empty")
  else if o_MaxItems o <=? 0 then Err (EMsg "evidence: queue max items must be positive")
  else if o_MaxBytes o <=? 0 then Err (EMsg "evidence: queue max bytes must be positive")
  else Ok tt.

(** The bounds and shares of the opened queue. *)
Definition buildConfig (o : QueueOptions) : res qconfig :=
    let conf : gset string := list_to_set (o_Devices o) in
    let configured := match o_Devices o with [] => None | _ => Some conf end in
    let versioned : gset string := list_to_set (o_VersionedDevices o) in
    if o_ReserveDeviceShares o then
      match configured with
      | None => Err (EMsg "evidence: per-device queue shares require the configured devices")
      | Some c =>
        let n := Z.of_nat (size c) in
        let si := o_MaxItems o / n in
        let sb := o_MaxBytes o / n in
        if (si <? MinDeviceShareItems) || (sb <? MinDeviceShareBytes)
        then Err (EMsg "evidence: per-device queue share cannot hold the registration reserve and one maximum-size evidence record")
        else Ok (MkConfig (o_MaxItems o) (o_MaxBytes o) true versioned configured si sb (o_FaultSource o))
      end
    else Ok (MkConfig (o_MaxItems o) (o_MaxBytes o) false versioned configured (o_MaxItems o) (o_MaxBytes o) (o_FaultSource o)).

(** [openDurableQueue]: the bounds, the directory, the shares, the load, and
    one probe whose failure is only reported. [n] is what the path holds. *)
Definition openDurableQueue (o : QueueOptions) (n : node) (probeBody : string) (d : dirst) (f : Faults.Recorder) : res unit * option qst * dirst :=
  match checkOptions o with
  | Err e => (Err e, None, d)
  | Ok _ =>
    match ensurePrivateQueueDirectory n d with
    | (Err e, d1) => (Err e, None, d1)
    | (Ok _, d1) =>
      match buildConfig o with
      | Err e => (Err e, None, d1)
      | Ok c =>
        match load (MkSt (emptyQueue c) d1 f) with
        | (Err e, s) => (Err e, None, sd s)
        | (Ok _, s) => let s' := (ProbeOp probeBody s).2 in (Ok tt, Some s', sd s')
        end
      end
    end
  end.

(** [OpenDurableQueue]: an outbound queue holds no authority artifact. *)
Definition OpenDurableQueue (o : QueueOptions) (n : node) (probeBody : string) (d : dirst) (f : Faults.Recorder) : res unit * option qst * dirst :=
  match openDurableQueue o n probeBody d f with
  | (Ok _, Some s, d') =>
    if forallb (λ id, match entries (sq s) !! id with
                      | Some r => validOutboundArtifactType (qr_Type r)
                      | None => false end) (order (sq s))
    then (Ok tt, Some s, d')
    else (Err (EMsg "evidence: outbound queue contains an authority artifact"), None, d')
  | r => r
  end.

(** ** What a successful load has read *)
Section Complete.
Implicit Types (L : loading) (s : qst).
Notation ent L := (entries (sq (ld_st L))).

Lemma guard_ok b msg L u L' : guard b msg L = (Ok u, L') → b = false ∧ L' = L.
Proof. unfold guard. destruct b; [done|]. by intros [= _ <-]. Qed.

Lemma onSt_spec {A} (m : EM qst A) L r L' :
  onSt m L = (r, L') → m (ld_st L) = (r, ld_st L') ∧ ld_seen L' = ld_seen L.
Proof. unfold onSt. destruct (m (ld_st L)). by intros [= <- <-]. Qed.

Lemma touch_spec msg L r L' : touch msg L = (r, L') → sq (ld_st L') = sq (ld_st L) ∧ ld_seen L' = ld_seen L.
Proof. intros [E S]%onSt_spec. apply onDir_spec in E as (-> & _). done. Qed.

Lemma addLoaded_entries r n q : entries (addLoaded r n q) = <[qr_ID r := r]> (entries q).
Proof. unfold addLoaded, indexLocked. by destruct q. Qed.

Lemma loadRecord_ok name f L u L' :
  loadRecord name f L = (Ok u, L') →
  ∃ r, decodeRecord (f_data f) = Some r ∧ validRecord r = true ∧
    qr_ID r = artifactID (qr_Type r) (qr_Payload r) ∧ name = recordFile (qr_ID r) ∧
    ent L !! qr_ID r = None ∧ qr_QueueSeq r ∉ ld_seen L ∧
    sq (ld_st L') = addLoaded r (slen (f_data f)) (sq (ld_st L)) ∧ ld_seen L' = {[qr_QueueSeq r]} ∪ ld_seen L.
Proof.
  unfold loadRecord. intros H.
  apply ebind_ok in H as ([] & L1 & [E1 S1]%touch_spec & H).
  apply ebind_ok in H as ([] & L2 & [_ ->]%guard_ok & H).
  apply ebind_ok in H as ([] & L3 & [_ ->]%guard_ok & H).
  apply ebind_ok in H as ([] & L4 & [E4 S4]%touch_spec & H).
  destruct (decodeRecord (f_data f)) as [r|] eqn:Ed; [|done]. exists r.
  apply ebind_ok in H as ([] & L5 & [Hv ->]%guard_ok & H).
  apply ebind_ok in H as ([] & L6 & [Hi ->]%guard_ok & H).
  apply ebind_ok in H as ([] & L7 & [Hn ->]%guard_ok & H).
  apply ebind_ok in H as ([] & L8 & [Hx ->]%guard_ok & H).
  apply ebind_ok in H as ([] & L9 & [Hs ->]%guard_ok & H). injection H as _ <-. cbn.
  apply negb_false_iff in Hv, Hi, Hn. apply bool_decide_eq_true in Hi, Hn. apply bool_decide_eq_false in Hx, Hs.
  rewrite E4, E1, S4, S1. split_and!; try done. by apply eq_None_not_Some.
Qed.

Lemma loadEntry_mono name f L u L' :
  loadEntry name f L = (Ok u, L') → ent L ⊆ ent L'.
Proof.
  unfold loadEntry. intros H.
  destruct (_ || _); [by injection H as _ <-|]. case_decide; [by injection H as _ <-|].
  destruct (hasPrefix name holdFilePrefix); [by injection H as _ <-|].
  destruct (hasPrefix name backoffFilePrefix); [by injection H as _ <-|].
  destruct (hasPrefix name queueTempPrefix).
  { apply onSt_spec in H as [E _]. by apply onDir_spec in E as (-> & _). }
  destruct (_ || _); [done|]. apply loadRecord_ok in H as (r & _ & _ & _ & _ & Hn & _ & -> & _).
  rewrite addLoaded_entries. by apply insert_subseteq.
Qed.

(** Only a name that begins with a dot is treated specially. *)
Lemma loadEntry_plain name f L :
  ¬ dotted name →
  loadEntry name f L =
  if bool_decide (f_kind f = FDirectory) || negb (hasSuffix name queueFileSuffix)
  then (Err (EMsg "evidence: unexpected entry in durable queue"), L) else loadRecord name f L.
Proof.
  intros Hd. unfold loadEntry.
  assert (∀ t, name ≠ String "." t) as Hne by (intros t ->; apply Hd; by eexists).
  rewrite !(not_dotted_prefix name) by (done || by eexists).
  rewrite !bool_decide_eq_false_2 by apply Hne. by rewrite decide_False by apply Hne.
Qed.

Lemma loadEntries_complete names m L u L' :
  loadEntries names m L = (Ok u, L') →
  ent L ⊆ ent L' ∧
  ∀ name f, name ∈ names → m !! name = Some f → ¬ dotted name →
    ∃ r, decodeRecord (f_data f) = Some r ∧ name = recordFile (qr_ID r) ∧ ent L' !! qr_ID r = Some r.
Proof.
  revert L. induction names as [|n names IH]; intros L; cbn [loadEntries].
  { intros [= _ <-]. split; [done|]. set_solver. }
  destruct (m !! n) as [f|] eqn:Em.
  - intros ([] & L1 & H1 & H)%ebind_ok. destruct (IH _ H) as [M C].
    pose proof (loadEntry_mono _ _ _ _ _ H1) as M1. split; [by etransitivity|].
    intros name f' [->|Hin]%elem_of_cons Hm Hd; [|by eapply C].
    replace f' with f in * by congruence. rewrite loadEntry_plain in H1 by done.
    destruct (_ || _); [done|]. apply loadRecord_ok in H1 as (r & Hr & _ & _ & Hn & _ & _ & E & _).
    exists r. split; [done|]. split; [done|]. eapply lookup_weaken; [|exact M]. rewrite E, addLoaded_entries. apply lookup_insert_eq.
  - intros H. destruct (IH _ H) as [M C]. split; [done|].
    intros name f' [->|Hin]%elem_of_cons Hm Hd; [congruence|by eapply C].
Qed.

Lemma readPrivateSidecar_sq name s r s' : readPrivateSidecar name s = (r, s') → sq s' = sq s.
Proof.
  unfold readPrivateSidecar. intros H. em_inv H; apply onDir_spec in Hm as (E1 & _); [|done].
  destruct (d_vol (sd s) !! name); [|injection Hk as _ <-; done].
  destruct (negb _); [injection Hk as _ <-; done|]. destruct (negb _); [injection Hk as _ <-; done|].
  em_inv Hk; apply onDir_spec in Hm as (E2 & _); [injection Hk0 as _ <-|]; congruence.
Qed.

Lemma forEach_entries {A} (g : A → EM qst unit) l s u s' :
  (∀ x s u s', g x s = (Ok u, s') → entries (sq s') = entries (sq s)) →
  forEach g l s = (Ok u, s') → entries (sq s') = entries (sq s).
Proof.
  intros Hg. revert s. induction l as [|x l IH]; intros s; cbn [forEach]; [by intros [= _ <-]|].
  intros ([] & s1 & H1 & H)%ebind_ok. rewrite (IH _ H). by eapply Hg.
Qed.

Lemma loadHold_entries name s u s' : loadHold name s = (Ok u, s') → entries (sq s') = entries (sq s).
Proof.
  unfold loadHold. intros (raw & s1 & H1 & H)%ebind_ok. apply readPrivateSidecar_sq in H1.
  destruct (decodeHold raw); [|done]. destruct (negb _); [done|]. destruct (entries (sq s) !! _); [|done].
  destruct (validateHoldRecord _ _); [|done]. injection H as _ <-. cbn. rewrite <-H1. apply setHolds_fields.
Qed.

Lemma loadBackoff_entries name s u s' : loadBackoff name s = (Ok u, s') → entries (sq s') = entries (sq s).
Proof.
  unfold loadBackoff. intros (raw & s1 & H1 & H)%ebind_ok. apply readPrivateSidecar_sq in H1.
  destruct (decodeBackoff raw); [|done]. destruct (negb _); [done|]. destruct (entries (sq s) !! _); [|done].
  destruct (validateBackoffRecord _); [|done]. injection H as _ <-. cbn. rewrite <-H1. apply setBackoffs_fields.
Qed.

Lemma loadUnconfigured_entries b s u s' : loadUnconfigured b s = (Ok u, s') → entries (sq s') = entries (sq s).
Proof.
  unfold loadUnconfigured. destruct b; [|by intros [= _ <-]]. cbn [negb].
  intros (raw & s1 & H1 & H)%ebind_ok. apply readPrivateSidecar_sq in H1.
  destruct (decodeUnconfigured raw) as [r|]; [|done]. destruct (_ || _); [done|]. injection H as _ <-.
  rewrite <-H1. destruct (_ || _); cbn; apply setUnconfigured_fields.
Qed.

(** A load that succeeds has read every record file of the directory. *)
Lemma load_complete s u s' name f :
  load s = (Ok u, s') → d_vol (sd s) !! name = Some f → ¬ dotted name →
  ∃ r, decodeRecord (f_data f) = Some r ∧ name = recordFile (qr_ID r) ∧ entries (sq s') !! qr_ID r = Some r.
Proof.
  unfold load. destruct (onDir _ s) as [[[]|e] s1] eqn:E1; [|done].
  apply onDir_spec in E1 as (Q1 & _ & V1). apply sys_ok in V1 as (d1 & V1 & _ & _ & [= E1]). subst d1.
  destruct (loadEntries _ _ _) as [[[]|e] L] eqn:E2; [|done].
  intros ([] & s2 & H2 & H)%ebind_ok Hf Hd. injection H2 as <-.
  apply ebind_ok in H as ([] & s3 & H3 & H). destruct (_ || _); [done|]. injection H3 as <-.
  apply ebind_ok in H as ([] & s4 & H4%forEach_entries & H); [|apply loadHold_entries].
  apply ebind_ok in H as ([] & s5 & H5%forEach_entries & H); [|apply loadBackoff_entries].
  apply loadUnconfigured_entries in H. rewrite H, H5, H4. cbn.
  apply loadEntries_complete in E2 as [_ C].
  destruct (C name f) as (r & ? & ? & ?); [|by rewrite V1|done|].
  - unfold dirNames. rewrite merge_sort_Permutation, elem_of_elements, V1. by eapply elem_of_dom_2.
  - exists r. split_and!; [done..|]. unfold sortOrder. by destruct (sq (ld_st L)).
Qed.
End Complete.

(** ** What a load leaves on the disk, and where its entries came from *)
Section Sound.
Implicit Types (L : loading) (s : qst).
Notation ent L := (entries (sq (ld_st L))).

Definition dirFrame (d d' : dirst) : Prop := ∀ n, ¬ dotted n → same_at n d d'.

#[global] Instance dirFrame_refl : Reflexive dirFrame.
Proof. intros d n _. reflexivity. Qed.
#[global] Instance dirFrame_trans : Transitive dirFrame.
Proof. intros a b c H1 H2 n Hn. etransitivity; eauto. Qed.

Lemma sys_read_frame msg s r s' :
  onDir (sys msg (λ d, (tt, d))) s = (r, s') → dirFrame (sd s) (sd s').
Proof. intros (_ & _ & E)%onDir_spec n _. eapply sys_same; [|exact E]. reflexivity. Qed.

Lemma loadRecord_sound name f L u L' :
  loadRecord name f L = (Ok u, L') → dirFrame (sd (ld_st L)) (sd (ld_st L')) ∧ regular f = true ∧ private f = true.
Proof.
  unfold loadRecord. intros H.
  apply ebind_ok in H as ([] & L1 & [E1%sys_read_frame _]%onSt_spec & H).
  apply ebind_ok in H as ([] & L2 & [H1 ->]%guard_ok & H).
  apply ebind_ok in H as ([] & L3 & [H2 ->]%guard_ok & H).
  apply ebind_ok in H as ([] & L4 & [E4%sys_read_frame _]%onSt_spec & H).
  apply negb_false_iff in H1, H2. destruct (decodeRecord (f_data f)) as [r|] eqn:Ed; [|done].
  do 5 apply ebind_ok in H as ([] & ? & [_ ->]%guard_ok & H). injection H as _ <-. cbn.
  split; [by etransitivity|done].
Qed.

Lemma loadEntry_sound name f L u L' :
  loadEntry name f L = (Ok u, L') →
  dirFrame (sd (ld_st L)) (sd (ld_st L')) ∧
  ∀ id r, ent L' !! id = Some r → ent L !! id = Some r ∨ name = recordFile id ∧ record_file f r.
Proof.
  unfold loadEntry. intros H.
  destruct (_ || _); [injection H as _ <-; eauto using dirFrame_refl|].
  case_decide; [injection H as _ <-; split; [cbn; reflexivity|auto]|].
  destruct (hasPrefix name holdFilePrefix); [injection H as _ <-; split; [cbn; reflexivity|auto]|].
  destruct (hasPrefix name backoffFilePrefix); [injection H as _ <-; split; [cbn; reflexivity|auto]|].
  destruct (hasPrefix name queueTempPrefix) eqn:Ep.
  { apply onSt_spec in H as [(Eq & _ & E)%onDir_spec _]. split; [|rewrite Eq; auto].
    intros n Hn. eapply removeStrict_same; [|exact E]. intros ->. apply not_dotted_prefix with (p := queueTempPrefix) in Hn;
      [congruence|apply dotted_queueTempPrefix]. }
  destruct (_ || _); [done|]. destruct (loadRecord_sound _ _ _ _ _ H) as (F & Hr & Hp). split; [done|].
  apply loadRecord_ok in H as (r & Hd & _ & Hid & Hn & _ & _ & -> & _). rewrite addLoaded_entries.
  intros x a [[<- <-]|[_ Hxa]]%lookup_insert_Some; [right|by left]. split; [done|]. split; [|done].
  by apply bool_decide_eq_true in Hr.
Qed.

Lemma loadEntries_sound names m L u L' :
  loadEntries names m L = (Ok u, L') →
  dirFrame (sd (ld_st L)) (sd (ld_st L')) ∧
  ∀ id r, ent L' !! id = Some r → ent L !! id = Some r ∨ ∃ f, m !! recordFile id = Some f ∧ record_file f r.
Proof.
  revert L. induction names as [|n names IH]; intros L H; cbn [loadEntries] in H.
  { injection H as _ <-. split; [reflexivity|auto]. }
  destruct (m !! n) as [f|] eqn:Em; [|by apply IH].
  apply ebind_ok in H as ([] & L1 & [F1 S1]%loadEntry_sound & [F2 S2]%IH). split; [by etransitivity|].
  intros id r [Hr|?]%S2; [|by right]. apply S1 in Hr as [?|[-> ?]]; eauto.
Qed.

Lemma readPrivateSidecar_frame name s r s' : readPrivateSidecar name s = (r, s') → dirFrame (sd s) (sd s').
Proof.
  unfold readPrivateSidecar. intros H. em_inv H; apply sys_read_frame in Hm; [|done].
  destruct (d_vol (sd s) !! name); [|by injection Hk as _ <-].
  destruct (negb _); [by injection Hk as _ <-|]. destruct (negb _); [by injection Hk as _ <-|].
  em_inv Hk; apply sys_read_frame in Hm0; [injection Hk0 as _ <-|]; by etransitivity.
Qed.

Lemma forEach_frame {A} (g : A → EM qst unit) l s u s' :
  (∀ x s u s', g x s = (Ok u, s') → dirFrame (sd s) (sd s')) →
  forEach g l s = (Ok u, s') → dirFrame (sd s) (sd s').
Proof.
  intros Hg. revert s. induction l as [|x l IH]; intros s; cbn [forEach]; [intros [= _ <-]; reflexivity|].
  intros ([] & s1 & H1 & H)%ebind_ok. etransitivity; [by eapply Hg|by apply IH].
Qed.

Lemma loadHold_frame name s u s' : loadHold name s = (Ok u, s') → dirFrame (sd s) (sd s').
Proof.
  unfold loadHold. intros (raw & s1 & H1%readPrivateSidecar_frame & H)%ebind_ok.
  crush_match_in H. by injection H as _ <-.
Qed.

Lemma loadBackoff_frame name s u s' : loadBackoff name s = (Ok u, s') → dirFrame (sd s) (sd s').
Proof.
  unfold loadBackoff. intros (raw & s1 & H1%readPrivateSidecar_frame & H)%ebind_ok.
  crush_match_in H. by injection H as _ <-.
Qed.

Lemma loadUnconfigured_frame b s u s' : loadUnconfigured b s = (Ok u, s') → dirFrame (sd s) (sd s').
Proof.
  unfold loadUnconfigured. destruct b; [|intros [= _ <-]; reflexivity]. cbn [negb].
  intros (raw & s1 & H1%readPrivateSidecar_frame & H)%ebind_ok.
  destruct (decodeUnconfigured raw) as [r|]; [|done]. destruct (_ || _); [done|]. injection H as _ <-.
  by destruct (_ || _).
Qed.

(** The entries of a loaded queue are the record files it found, and those
    files are untouched. *)
Lemma load_sound c d f u s' :
  load (MkSt (emptyQueue c) d f) = (Ok u, s') →
  dirFrame d (sd s') ∧
  ∀ id r, entries (sq s') !! id = Some r → ∃ g, d_vol d !! recordFile id = Some g ∧ record_file g r.
Proof.
  unfold load. destruct (onDir _ _) as [[[]|e] s1] eqn:E1; [|done]. pose proof (sys_read_frame _ _ _ _ E1) as F1.
  apply onDir_spec in E1 as (Q1 & _ & V1). apply sys_ok in V1 as (d1 & V1 & _ & _ & [= E1]). subst d1. cbn in F1, Q1, V1.
  destruct (loadEntries _ _ _) as [[[]|e] L] eqn:E2; [|done]. apply loadEntries_sound in E2 as [F2 S2]. cbn in F2, S2.
  intros ([] & s2 & H2 & H)%ebind_ok. injection H2 as <-.
  apply ebind_ok in H as ([] & s3 & H3 & H). destruct (_ || _); [done|]. injection H3 as <-.
  apply ebind_ok in H as ([] & s4 & H4 & H).
  pose proof (forEach_frame _ _ _ _ _ loadHold_frame H4) as F4. apply forEach_entries in H4; [|apply loadHold_entries].
  apply ebind_ok in H as ([] & s5 & H5 & H).
  pose proof (forEach_frame _ _ _ _ _ loadBackoff_frame H5) as F5. apply forEach_entries in H5; [|apply loadBackoff_entries].
  pose proof (loadUnconfigured_frame _ _ _ _ H) as F6. apply loadUnconfigured_entries in H. cbn in F4, H4. split.
  - do 4 (etransitivity; [eassumption|]). by etransitivity.
  - intros id r Hr. rewrite H, H5, H4 in Hr.
    replace (entries (sortOrder (sq (ld_st L)))) with (entries (sq (ld_st L))) in Hr by (unfold sortOrder; by destruct (sq (ld_st L))).
    apply S2 in Hr as [Hr|Hr]; [rewrite Q1 in Hr; done|]. by rewrite V1 in Hr.
Qed.
End Sound.

(** ** A successful load establishes the invariant *)
Section Establish.
Implicit Types (L : loading) (s : qst) (m : gmap string file).

Definition fileBytes m (name : string) : Z := from_option (λ f, slen (f_data f)) 0 (m !! name).
Definition dirBytes m : Z := zsum (fileBytes m) (elements (dom m)).

(** The last sequence number is never taken: its successor would wrap. *)
Definition seqs_left m : Prop :=
  map_Forall (λ _ f, from_option qr_QueueSeq 0 (decodeRecord (f_data f)) < i64_max) m.

Lemma decodeRecord_range raw r : decodeRecord raw = Some r → in_i64 (qr_QueueSeq r) ∧ in_i64 (qr_EnqueuedAtMS r).
Proof.
  apply (decodeStruct_inv recordNames false setRecord (λ r, in_i64 (qr_QueueSeq r) ∧ in_i64 (qr_EnqueuedAtMS r))); [done|].
  intros n v [vv id ty sq at_ pl] [H1 H2]. cbn in H1, H2. unfold setRecord.
  assert (∀ old, in_i64 old → in_i64 (setInt v old).1) as Hset.
  { intros old Ho. unfold setInt. destruct v; try done. destruct (ParseInt lit) eqn:E; [|done]. by eapply ParseInt_range. }
  repeat case_decide; try (destruct (setInt _ _) eqn:E); try (destruct (setStr _ _)); try (destruct (setBytes _ _)); try done;
    cbn; split; try done; apply (f_equal fst) in E; cbn in E; subst; by apply Hset.
Qed.

Lemma validRecord_wf raw r :
  decodeRecord raw = Some r → validRecord r = true → qr_ID r = artifactID (qr_Type r) (qr_Payload r) → record_wf r.
Proof.
  intros [H1 H2]%decodeRecord_range Hv Hid. unfold in_i64 in *. unfold validRecord in Hv.
  rewrite !andb_true_iff, negb_true_iff, bool_decide_eq_false in Hv. destruct Hv as [[[[? ?] ?] ?] ?].
  split; try done; lia.
Qed.

(** A decoded record's file is not empty. *)
Lemma decodeRecord_nonempty raw r : decodeRecord raw = Some r → 0 < slen raw.
Proof. destruct raw as [|c raw]; [done|]. intros _. rewrite slen_cons. pose proof (slen_nonneg raw). lia. Qed.

Lemma addLoaded_adds q r n :
  qcore q → 0 < n → bytes q + n ≤ 2 ^ 62 → 0 < qr_QueueSeq r < i64_max → adds q (addLoaded r n q) r n.
Proof.
  intros Hq Hn Hb Hs. pose proof (qcore_bytes_nonneg _ Hq). pose proof (qc_next _ Hq).
  assert (wrap64 (bytes q + n) = bytes q + n) as Eb by (apply wrap64_id; unfold in_i64, i64_min, i64_max; lia).
  assert (wrap64 (qr_QueueSeq r + 1) = qr_QueueSeq r + 1) as Es
    by (apply wrap64_id; unfold in_i64, i64_min, i64_max in *; lia).
  destruct q as [c en ho ba sz od by_ ns lo li lb di db un ov]. unfold addLoaded, indexLocked. cbn in *.
  rewrite Eb, Es. split; cbn; try done.
  - symmetry. apply Permutation_cons_append.
  - destruct (Z.leb_spec ns (qr_QueueSeq r)); lia.
  - destruct (Z.leb_spec ns (qr_QueueSeq r)); lia.
Qed.

Lemma addLoaded_keeps r n q :
  cfg (addLoaded r n q) = cfg q ∧ holds (addLoaded r n q) = holds q ∧ backoffs (addLoaded r n q) = backoffs q.
Proof. unfold addLoaded, indexLocked. by destruct q. Qed.

Record linv (c : qconfig) L : Prop := {
  li_core : qcore (sq (ld_st L));
  li_seen : ∀ id r, entries (sq (ld_st L)) !! id = Some r → qr_QueueSeq r ∈ ld_seen L;
  li_cfg : cfg (sq (ld_st L)) = c;
  li_holds : holds (sq (ld_st L)) = ∅;
  li_backoffs : backoffs (sq (ld_st L)) = ∅ }.

Lemma loadRecord_linv c name f L u L' :
  (∀ r, decodeRecord (f_data f) = Some r → qr_QueueSeq r < i64_max) →
  bytes (sq (ld_st L)) + slen (f_data f) ≤ 2 ^ 62 → linv c L → loadRecord name f L = (Ok u, L') →
  linv c L' ∧ bytes (sq (ld_st L')) = bytes (sq (ld_st L)) + slen (f_data f).
Proof.
  intros Hseq Hb [Hc Hs Hcf Hh Hbk] (r & Hd & Hv & Hid & Hn & Hx & Hns & E & Es)%loadRecord_ok.
  pose proof (validRecord_wf _ _ Hd Hv Hid) as Hwf. pose proof (decodeRecord_nonempty _ _ Hd).
  pose proof (rw_seq _ Hwf). pose proof (Hseq _ Hd).
  assert (adds (sq (ld_st L)) (sq (ld_st L')) r (slen (f_data f))) as Ha by (rewrite E; apply addLoaded_adds; done || lia).
  split; [|by apply (a_bytes _ _ _ _ Ha)].
  destruct (addLoaded_keeps r (slen (f_data f)) (sq (ld_st L))) as (E1 & E2 & E3). rewrite <-E in E1, E2, E3.
  split; [|rewrite Es|congruence..].
  - eapply adds_qcore; [exact Hc|exact Ha|done..|]. intros x a Hxa%Hs. congruence.
  - rewrite (a_entries _ _ _ _ Ha). intros x a [[<- <-]|[_ Hxa%Hs]]%lookup_insert_Some; set_solver.
Qed.

Lemma loadEntry_linv c name f L u L' :
  (∀ r, decodeRecord (f_data f) = Some r → qr_QueueSeq r < i64_max) →
  bytes (sq (ld_st L)) + slen (f_data f) ≤ 2 ^ 62 → linv c L → loadEntry name f L = (Ok u, L') →
  linv c L' ∧ bytes (sq (ld_st L')) ≤ bytes (sq (ld_st L)) + slen (f_data f).
Proof.
  intros Hseq Hb Hl H. pose proof (slen_nonneg (f_data f)). pose proof Hl as [Hc Hs Hcf Hh Hbk].
  assert (∀ L0, sq (ld_st L0) = sq (ld_st L) → ld_seen L0 = ld_seen L →
    linv c L0 ∧ bytes (sq (ld_st L0)) ≤ bytes (sq (ld_st L)) + slen (f_data f)) as Hsame.
  { intros L0 Eq Es. split; [split|]; rewrite ?Eq, ?Es; done || lia. }
  unfold loadEntry in H.
  destruct (_ || _); [injection H as _ <-; by apply Hsame|]. case_decide; [injection H as _ <-; by apply Hsame|].
  destruct (hasPrefix name holdFilePrefix); [injection H as _ <-; by apply Hsame|].
  destruct (hasPrefix name backoffFilePrefix); [injection H as _ <-; by apply Hsame|].
  destruct (hasPrefix name queueTempPrefix).
  { apply onSt_spec in H as [E Es]. apply onDir_spec in E as (Eq & _). by apply Hsame. }
  destruct (_ || _); [done|]. eapply loadRecord_linv in H as [? ->]; [|done..]. split; [done|lia].
Qed.

Lemma loadEntries_linv c names m L u L' :
  seqs_left m → linv c L → bytes (sq (ld_st L)) + zsum (fileBytes m) names ≤ 2 ^ 62 →
  loadEntries names m L = (Ok u, L') → linv c L'.
Proof.
  intros Hseq. revert L. induction names as [|n names IH]; intros L Hl Hb H; cbn [loadEntries] in H.
  { by injection H as _ <-. }
  rewrite zsum_cons in Hb. unfold fileBytes in Hb at 1.
  assert (0 ≤ zsum (fileBytes m) names).
  { apply zsum_nonneg. intros x _. unfold fileBytes. destruct (m !! x); cbn; [apply slen_nonneg|done]. }
  destruct (m !! n) as [f|] eqn:Em; cbn in Hb; [|apply (IH L); [done|lia|done]].
  apply ebind_ok in H as ([] & L1 & H1 & H).
  eapply loadEntry_linv in H1 as [Hl1 Hb1]; [|intros r Hr; apply Hseq in Em; by rewrite Hr in Em|lia|done].
  apply (IH L1); [done|lia|done].
Qed.

Lemma sort_qinv q c :
  cfg_ok c → qcore q → cfg q = c → holds q = ∅ → backoffs q = ∅ →
  Z.of_nat (size (entries q)) ≤ maxItems c → bytes q ≤ maxBytes c → qinv (sortOrder q).
Proof.
  intros Hc Hq Ec Eh Eb Hi Hby. unfold sortOrder. destruct Hq, q as [c' en ho ba sz od by_ ns lo li lb di db un ov]. cbn in *. subst.
  pose proof (merge_sort_Permutation (order_le en) od) as P.
  split; cbn; try done; [|apply (StronglySorted_merge_sort _)].
  split; cbn -[zsum]; try done; [intros x; by rewrite P|by rewrite P|..].
  - rewrite qc_bytes0. symmetry. exact (zsum_perm _ _ _ P).
  - eapply idx_ok_perm; [symmetry; exact P|done].
  - eapply idx_ok_perm; [symmetry; exact P|done].
Qed.

Lemma forEach_qinv {A} (g : A → EM qst unit) l s u s' :
  (∀ x s u s', g x s = (Ok u, s') → qinv (sq s) → qinv (sq s')) →
  forEach g l s = (Ok u, s') → qinv (sq s) → qinv (sq s').
Proof.
  intros Hg. revert s. induction l as [|x l IH]; intros s; cbn [forEach]; [by intros [= _ <-]|].
  intros ([] & s1 & H1 & H)%ebind_ok Hq. eapply IH; [exact H|by eapply Hg].
Qed.

Lemma loadHold_qinv name s u s' : loadHold name s = (Ok u, s') → qinv (sq s) → qinv (sq s').
Proof.
  unfold loadHold. intros (raw & s1 & H1 & H)%ebind_ok Hq. apply readPrivateSidecar_sq in H1.
  destruct (decodeHold raw) as [h|]; [|done]. destruct (negb _) eqn:Ei; [done|].
  apply negb_false_iff, bool_decide_eq_true in Ei.
  destruct (entries (sq s) !! _) as [r|] eqn:Ee; [|done].
  destruct (validateHoldRecord h r) as [[]|] eqn:Ev; [|done]. injection H as _ <-. cbn. rewrite H1.
  apply qinv_setHolds; [done|]. intros x a [[<- <-]|[_ H]]%lookup_insert_Some; [eauto|by apply (qi_holds _ Hq)].
Qed.

Lemma loadBackoff_qinv name s u s' : loadBackoff name s = (Ok u, s') → qinv (sq s) → qinv (sq s').
Proof.
  unfold loadBackoff. intros (raw & s1 & H1 & H)%ebind_ok Hq. apply readPrivateSidecar_sq in H1.
  destruct (decodeBackoff raw) as [b|]; [|done]. destruct (negb _) eqn:Ei; [done|].
  apply negb_false_iff, bool_decide_eq_true in Ei.
  destruct (entries (sq s) !! _) as [r|] eqn:Ee; [|done].
  destruct (validateBackoffRecord b) as [[]|] eqn:Ev; [|done]. injection H as _ <-. cbn. rewrite H1.
  apply qinv_setBackoffs; [done|]. intros x a [[<- <-]|[_ H]]%lookup_insert_Some; [eauto|by apply (qi_backoffs _ Hq)].
Qed.

Lemma loadUnconfigured_qinv b s u s' : loadUnconfigured b s = (Ok u, s') → qinv (sq s) → qinv (sq s').
Proof.
  unfold loadUnconfigured. destruct b; [|by intros [= _ <-]]. cbn [negb].
  intros (raw & s1 & H1 & H)%ebind_ok Hq. apply readPrivateSidecar_sq in H1.
  destruct (decodeUnconfigured raw) as [r|]; [|done]. destruct (_ || _); [done|]. injection H as _ <-.
  rewrite <-H1 in Hq. destruct (_ || _); cbn; by apply qinv_setUnconfigured.
Qed.

Lemma load_qinv c d f u s' :
  cfg_ok c → seqs_left (d_vol d) → dirBytes (d_vol d) ≤ 2 ^ 62 →
  load (MkSt (emptyQueue c) d f) = (Ok u, s') → qinv (sq s').
Proof.
  intros Hc Hseq Hb. unfold load. destruct (onDir _ _) as [[[]|e] s1] eqn:E1; [|done].
  apply onDir_spec in E1 as (Q1 & _ & V1). apply sys_ok in V1 as (d1 & V1 & _ & _ & [= E1]). subst d1. cbn in Q1, V1.
  destruct (loadEntries _ _ _) as [[[]|e] L] eqn:E2; [|done].
  assert (linv c L) as [Hcore _ Hcf Hh Hbk].
  { eapply loadEntries_linv; [| | |exact E2]; [by rewrite V1| |].
    - split; cbn; rewrite ?Q1; try done. apply qcore_empty.
    - cbn -[zsum]. rewrite Q1, V1. cbn -[zsum]. unfold dirNames. by rewrite (zsum_perm _ _ _ (merge_sort_Permutation _ _)). }
  intros ([] & s2 & H2 & H)%ebind_ok. injection H2 as <-.
  apply ebind_ok in H as ([] & s3 & H3 & H).
  destruct (_ || _) eqn:Eb in H3; [done|]. injection H3 as <-.
  assert (qinv (sortOrder (sq (ld_st L)))) as Hq.
  { cbn in Eb. unfold sortOrder in Eb. eapply sort_qinv; [exact Hc|done..| |]; destruct (sq (ld_st L)); cbn in *; subst; lia. }
  apply ebind_ok in H as ([] & s4 & H4 & H). eapply forEach_qinv in H4; [|apply loadHold_qinv|done].
  apply ebind_ok in H as ([] & s5 & H5 & H). eapply forEach_qinv in H5; [|apply loadBackoff_qinv|done].
  by eapply loadUnconfigured_qinv.
Qed.

Lemma buildConfig_ok o c : checkOptions o = Ok tt → buildConfig o = Ok c → o_MaxBytes o ≤ 2 ^ 62 → cfg_ok c.
Proof.
  unfold checkOptions, buildConfig. intros Hc H Hb. destruct (_ || _) in Hc; [done|].
  destruct (Z.leb_spec (o_MaxItems o) 0); [done|]. destruct (Z.leb_spec (o_MaxBytes o) 0); [done|]. clear Hc.
  assert (∀ a n, 0 < a → 0 ≤ n → a / n ≤ a) as Hdiv.
  { intros a n Ha Hn. destruct (decide (n = 0)) as [->|]; [rewrite Zdiv_0_r; lia|]. apply Z.div_le_upper_bound; nia. }
  destruct (o_ReserveDeviceShares o).
  - destruct (o_Devices o) as [|x l]; [done|]. destruct (_ || _); [done|]. injection H as <-.
    split; cbn -[Z.div]; try lia; apply Hdiv; lia.
  - injection H as <-. by split; cbn; lia.
Qed.

(** The marker changes neither the records nor, but for its own few bytes, what
    the directory weighs. *)
Lemma marked_seqs d d' : marked d d' → seqs_left (d_vol d) → seqs_left (d_vol d').
Proof.
  intros [_ [->|[_ ->]]] H; [done|]. intros n f [[<- <-]|[_ Hf]]%lookup_insert_Some; [by vm_compute|by eapply H].
Qed.

Lemma marked_bytes d d' : marked d d' → dirBytes (d_vol d') ≤ dirBytes (d_vol d) + slen queueMarkerBody.
Proof.
  intros [_ [->|[Hn ->]]]; [pose proof (slen_nonneg queueMarkerBody); lia|]. unfold dirBytes.
  assert (queueMarkerName ∉ dom (d_vol d)) as Hd by (by apply not_elem_of_dom).
  rewrite dom_insert_L, (zsum_perm _ _ _ (elements_union_singleton _ _ Hd)), zsum_cons.
  unfold fileBytes at 1. rewrite lookup_insert_eq. cbn [from_option f_data].
  enough (zsum (fileBytes (<[queueMarkerName:=File FRegular 384 queueMarkerBody true]> (d_vol d))) (elements (dom (d_vol d)))
    = zsum (fileBytes (d_vol d)) (elements (dom (d_vol d)))) by lia.
  apply zsum_ext. intros x Hx%elem_of_elements%elem_of_dom. unfold fileBytes. rewrite lookup_insert_ne; [done|].
  intros <-. rewrite Hn in Hx. by destruct Hx.
Qed.

Lemma marked_frame d d' : marked d d' → dirFrame d d'.
Proof. intros [H _] n Hn. apply H. intros ->. apply Hn. by eexists. Qed.

(** Opening a queue that loads: the invariant, and every record file read. *)
Lemma openDurableQueue_ok o n body d f u s' d' :
  openDurableQueue o (Some n) body d f = (Ok u, Some s', d') →
  ∃ d1 c s, checkOptions o = Ok tt ∧ marked d d1 ∧ buildConfig o = Ok c ∧
    load (MkSt (emptyQueue c) d1 f) = (Ok tt, s) ∧ s' = (ProbeOp body s).2.
Proof.
  unfold openDurableQueue. destruct (checkOptions o) as [[]|] eqn:Eo; [|done].
  destruct (ensurePrivateQueueDirectory (Some n) d) as [[]  d1] eqn:Ed; [|done]. apply ensurePrivateQueueDirectory_ok in Ed.
  destruct (buildConfig o) as [c|]; [|done].
  destruct (load _) as [[[]|] s] eqn:E; [|done]. intros [= _ <- _]. eauto 10.
Qed.

Lemma openDurableQueue_qinv o n body d f u s' d' :
  o_MaxBytes o ≤ 2 ^ 62 → seqs_left (d_vol d) → dirBytes (d_vol d) ≤ 2 ^ 61 →
  openDurableQueue o (Some n) body d f = (Ok u, Some s', d') → qinv (sq s').
Proof.
  intros Hm Hs Hb (d1 & c & s & Ho & Hd & Hc & Hl & ->)%openDurableQueue_ok.
  pose proof (marked_bytes _ _ Hd). assert (slen queueMarkerBody = 30) by reflexivity.
  eapply load_qinv in Hl; [|by eapply buildConfig_ok|by eapply marked_seqs|lia].
  destruct (ProbeOp body s) as [r s1] eqn:E. by eapply ProbeOp_spec in E as [? _].
Qed.

Lemma ProbeOp_entries body s : entries (sq (ProbeOp body s).2) = entries (sq s).
Proof.
  unfold ProbeOp. destruct (probe body s) as [r0 s0] eqn:E. apply probe_spec in E as (E & _). cbn. by rewrite E.
Qed.

Lemma openDurableQueue_complete o n body d f u s' d' name g :
  openDurableQueue o (Some n) body d f = (Ok u, Some s', d') → d_vol d !! name = Some g → ¬ dotted name →
  ∃ r, decodeRecord (f_data g) = Some r ∧ name = recordFile (qr_ID r) ∧ entries (sq s') !! qr_ID r = Some r.
Proof.
  intros (d1 & c & s & Ho & Hm & Hc & Hl & ->)%openDurableQueue_ok Hg Hd. rewrite ProbeOp_entries.
  eapply load_complete in Hl; [done| |done]. cbn. destruct (marked_frame _ _ Hm name Hd) as [-> _]. done.
Qed.

Lemma openDurableQueue_sound o n body d f u s' d' :
  openDurableQueue o (Some n) body d f = (Ok u, Some s', d') →
  dirFrame d (sd s') ∧
  ∀ id r, entries (sq s') !! id = Some r → ∃ g, d_vol d !! recordFile id = Some g ∧ record_file g r.
Proof.
  intros (d1 & c & s & Ho & Hm & Hc & Hl & ->)%openDurableQueue_ok. pose proof Hl as Hl'. apply load_sound in Hl as [F S].
  rewrite ProbeOp_entries. split.
  - etransitivity; [by apply marked_frame|]. etransitivity; [exact F|].
    unfold ProbeOp. destruct (probe body s) as [r0 s0] eqn:E. by apply probe_spec in E as (_ & _ & E).
  - intros id r Hr. destruct (S _ _ Hr) as (g & Hg & Hrf). exists g. split; [|done].
    cbn in Hg. destruct Hm as [Hm _]. rewrite <-Hg. symmetry. apply Hm. intros En.
    pose proof (f_equal (λ x, hasSuffix x queueFileSuffix) En) as E. unfold recordFile in E. rewrite hasSuffix_app in E. vm_compute in E. discriminate E.
Qed.
End Establish.
End Load.
