(* ===== verification/QueueLife.v ===== *)
(** * The life of a queue: every operation, crashes and restarts

    One step is one call on the queue, made under its mutex, or a crash of the
    machine followed by a successful reopening of what the disk holds. *)
From S2P Require Import Prelude GoBytes Sha256 Json Routing Refusal Faults Store Queue Codec QueueInv QueueOps QueueDir Probe Load.
Import Routing Store Queue Codec QueueInv QueueOps QueueDir Probe Load.

Module QueueLife.

(** ** Steps

    The set beside the state holds the identities whose retirement reported
    that restoring the record failed; only those may be missing from the disk. *)
Definition qconf : Type := qst * gset string.

Definition doubt (id : string) (a : res unit) (D : gset string) : gset string :=
  if decide (a = Err restoreFailed) then {[id]} ∪ D else D.

Inductive qop : qconf → qconf → Prop :=
| op_enqueue nowMS kind payload s a s' D :
    nowMS ≤ i64_max → slen payload ≤ 2 ^ 60 → nextSeq (sq s) < i64_max →
    enqueueOrFind nowMS kind payload s = (a, s') → qop (s, D) (s', D)
| op_hold h s a s' D : HoldOp h s = (a, s') → qop (s, D) (s', D)
| op_backoff b s a s' D : SetBackoff b s = (a, s') → qop (s, D) (s', D)
| op_clear id s a s' D : ClearBackoff id s = (a, s') → qop (s, D) (s', D)
| op_remove id s a s' D : Remove id s = (a, s') → qop (s, D) (s', doubt id a D)
| op_probe body s a s' D : ProbeOp body s = (a, s') → qop (s, D) (s', D)
| op_unconfigured device s a s' D : NoteUnconfiguredDevice device s = (a, s') → qop (s, D) (s', D)
| op_admitted device s D : qop (s, D) (NoteAdmittedDevice device s, D).

Inductive qstep : qconf → qconf → Prop :=
| step_op c c' : qop c c' → qstep c c'
| step_restart m o n body io f s s' d' D :
    crash (sd s) m → o_MaxBytes o ≤ 2 ^ 62 → seqs_left (settled <$> m) → dirBytes (settled <$> m) ≤ 2 ^ 61 →
    openDurableQueue o (Some n) body (reboot m io) f = (Ok tt, Some s', d') → qstep (s, D) (s', ∅).

Lemma enqueueOrFind_cases nowMS kind payload s a s' :
  enqueueOrFind nowMS kind payload s = (a, s') →
  s' = s ∧ (∀ p, a = Ok p → ∃ r, entries (sq s) !! artifactID kind payload = Some r ∧ p = (recordArtifact r, true)) ∨
  entries (sq s) !! artifactID kind payload = None ∧ validQueueArtifactType kind = true ∧ payload ≠ "" ∧
  ∃ b, inserted nowMS kind payload s b s' ∧ a = match b with Ok x => Ok (x, false) | Err e => Err e end.
Proof.
  unfold enqueueOrFind. destruct (validQueueArtifactType kind); cbn [negb]; [|intros [= <- <-]; by left].
  case_decide; [intros [= <- <-]; by left|]. cbv zeta.
  destruct (entries (sq s) !! artifactID kind payload) as [r|] eqn:E.
  - intros [= <- <-]. left. split; [done|]. intros p [= <-]. eauto.
  - destruct (insertLocked _ _ _ _ s) as [b s1] eqn:Ei. intros H1. right. split_and!; [done..|].
    apply insertLocked_cases in Ei. exists b. destruct b; injection H1 as <- <-; done.
Qed.

Definition life_inv (c : qconf) : Prop := qinv (sq c.1) ∧ disk_ok c.2 c.1.

Lemma record_file_reboot m io id r f :
  m !! recordFile id = Some f → record_file f r → on_disk (reboot m io) id r.
Proof.
  intros Hm (Hk & Hp & Hd). exists (settled f). split; [|done]. unfold durably, reboot. cbn.
  rewrite lookup_fmap, Hm. split_and!; [done..|]. intros o Ho. by apply not_elem_of_nil in Ho.
Qed.

(** A reopened queue lists only what the disk holds. *)
Lemma reopened_life o n body m io f s' d' :
  o_MaxBytes o ≤ 2 ^ 62 → seqs_left (settled <$> m) → dirBytes (settled <$> m) ≤ 2 ^ 61 →
  openDurableQueue o (Some n) body (reboot m io) f = (Ok tt, Some s', d') → life_inv (s', ∅).
Proof.
  intros Hm Hs Hb H. assert (qinv (sq s')) as Hq by (by eapply (openDurableQueue_qinv o n body (reboot m io) f)).
  split; [done|].
  apply openDurableQueue_sound in H as [F S]. intros id r _ Hr. cbn in Hr.
  destruct (S _ _ Hr) as (g & Hg & Hrf). cbn in Hg. rewrite lookup_fmap in Hg.
  destruct (m !! recordFile id) as [g0|] eqn:Em; [|done]. injection Hg as <-.
  eapply on_disk_same; [apply F; by eapply entry_not_dotted|]. by eapply record_file_reboot.
Qed.

(** What the queue lists outlives a crash. *)
Lemma life_crash s D m o n body io f s' d' id r :
  life_inv (s, D) → crash (sd s) m →
  openDurableQueue o (Some n) body (reboot m io) f = (Ok tt, Some s', d') →
  entries (sq s) !! id = Some r → id ∉ D → entries (sq s') !! id = Some r.
Proof.
  intros [Hq Hd] Hc Ho Hid HD. cbn in Hq, Hd.
  destruct (on_disk_crash _ _ _ _ (Hd _ _ HD Hid) Hc) as (g & Hm & Hk & Hp & Hdec).
  destruct (openDurableQueue_complete _ _ _ _ _ _ _ _ (recordFile id) (settled g) Ho) as (r' & Hr' & _ & He).
  - cbn. by rewrite lookup_fmap, Hm.
  - by eapply entry_not_dotted.
  - cbn in Hr'. replace r' with r in * by congruence. apply (qi_wf _ Hq) in Hid as (_ & <- & _). done.
Qed.

Lemma Remove_retired id s a s' : Remove id s = (a, s') → qinv (sq s) → retired id s a s'.
Proof.
  unfold Remove. destruct (removeLocked id s) as [r s1] eqn:E. intros H Hq.
  pose proof (removeLocked_spec _ _ _ _ E Hq) as [R1 R2 R3 R4 R5].
  destruct (noteStore_spec r s1) as [N1 N2].
  assert (a = r ∧ (s' = s1 ∨ s' = noteStore r s1)) as [-> [->| ->]]
    by (destruct r as [|[]]; injection H as <- <-; auto); [done|].
  split; rewrite ?N1, ?N2; done.
Qed.

(** ** The invariant holds along every history *)
Lemma life_sidecar s s' D : life_inv (s, D) → qinv (sq s') ∧ records_same s s' → life_inv (s', D).
Proof. intros [Hq Hd] [Hq' Hs]. split; [done|]. exact (records_same_disk _ _ _ Hq Hs Hd). Qed.

Lemma qop_inv c c' : qop c c' → life_inv c → life_inv c'.
Proof.
  intros H. destruct H as [nowMS kind payload s a s' D Hn Hp Hseq H|h s a s' D H|b s a s' D H|id s a s' D H|id s a s' D H
    |body s a s' D H|device s a s' D H|device s D]; intros Hl; pose proof Hl as [Hq Hd]; cbn in Hq, Hd.
  - apply enqueueOrFind_cases in H as [[-> _]|(Hnew & Hk & Hpl & b & Hi & _)]; [by split|].
    assert (admissible nowMS kind payload (sq s)) by (by split).
    split; cbn; [by eapply inserted_qinv|by eapply inserted_disk].
  - apply (life_sidecar s s' D Hl). by destruct (HoldOp_spec _ _ _ _ H Hq) as (? & ? & _).
  - apply (life_sidecar s s' D Hl). by destruct (SetBackoff_spec _ _ _ _ H Hq) as (? & ? & _).
  - apply (life_sidecar s s' D Hl). by destruct (ClearBackoff_spec _ _ _ _ H Hq) as (? & ? & _).
  - pose proof (Remove_retired _ _ _ _ H Hq) as [R1 R2 R3 R4 R5]. split; [done|].
    intros id' r Hnd Hr. cbn [fst snd] in *.
    assert (id' ∉ D) as HD by (unfold doubt in Hnd; case_decide; set_solver).
    destruct (decide (a = Ok tt)) as [->|Ha].
    + destruct (R3 eq_refl) as [E _]. rewrite E, lookup_delete_Some in Hr. destruct Hr as [Hne Hr]. by apply R2; auto.
    + rewrite (R4 Ha) in Hr. destruct (decide (id' = id)) as [->|Hne]; [|by apply R2; auto].
      apply R5; [done| |done|by apply Hd]. intros ->. unfold doubt in Hnd. rewrite decide_True in Hnd by done. set_solver.
  - apply (life_sidecar s s' D Hl). by eapply ProbeOp_spec in H.
  - apply (life_sidecar s s' D Hl). by eapply NoteUnconfiguredDevice_spec in H.
  - apply (life_sidecar s _ D Hl). by apply NoteAdmittedDevice_spec.
Qed.

Lemma qstep_inv c c' : qstep c c' → life_inv c → life_inv c'.
Proof. intros [c1 c2 H|]; [by apply qop_inv|]. intros _. by eapply reopened_life. Qed.

Lemma qsteps_inv c c' : rtc qstep c c' → life_inv c → life_inv c'.
Proof. induction 1; eauto using qstep_inv. Qed.

Lemma life_empty c io f : cfg_ok c → life_inv (MkSt (emptyQueue c) (reboot ∅ io) f, ∅).
Proof. intros Hc. split; [by apply qinv_empty|]. intros id r _ H. cbn in H. done. Qed.
End QueueLife.
