(* ===== verification/QueueSpec.v ===== *)
(** * What the durable queue promises

    The contract of the queue, for the code that uses it: artifacts survive
    crashes until they are retired, delivery follows admission within a lane,
    and admission is idempotent. *)
From S2P Require Import Prelude GoBytes Sha256 Json Routing Refusal Faults Store Queue Codec QueueInv QueueOps QueueDir Probe Load QueueLife.
Import Routing Store Queue Codec QueueInv QueueOps QueueDir Probe Load QueueLife.

Module QueueSpec.

(** ** Lemmas *)
Section Order.
Implicit Types (q : DurableQueue).

#[global] Instance order_le_antisymm en : AntiSymm (=) (order_le en).
Proof. intros a b [H1|[H1 L1]] [H2|[H2 L2]]; try lia. by apply (anti_symm String.le). Qed.

Lemma StronglySorted_snoc {A} (R : relation A) (l : list A) x :
  StronglySorted R l → (∀ y, y ∈ l → R y x) → StronglySorted R (l ++ [x]).
Proof.
  induction 1 as [|y l Hl IH Hy]; intros Hx; [by repeat constructor|]. cbn. constructor; [apply IH; set_solver|].
  rewrite Forall_app. split; [done|]. constructor; [apply Hx; set_solver|done].
Qed.

(** An admitted record goes last. *)
Lemma commit_order_last q r n :
  qinv q → entries q !! qr_ID r = None → qr_QueueSeq r = nextSeq q → order (commitEntry r n q) = order q ++ [qr_ID r].
Proof.
  intros Hq Hnew Hs. rewrite commit_order. set (en := <[qr_ID r := r]> (entries q)).
  assert (∀ x, x ∈ order q → x ≠ qr_ID r) as Hne
    by (intros x Hx ->; apply (qi_order _ Hq) in Hx; rewrite Hnew in Hx; by destruct Hx).
  apply (StronglySorted_unique (order_le en)); [apply (StronglySorted_merge_sort _)| |apply merge_sort_Permutation].
  apply StronglySorted_snoc.
  - eapply StronglySorted_mono_in; [|apply (qi_sorted _ Hq)]. intros a b Ha Hb.
    apply order_le_ext; unfold en; by rewrite lookup_insert_ne by (symmetry; by apply Hne).
  - intros y Hy. left. unfold seqOf, en. rewrite lookup_insert_eq, lookup_insert_ne by (symmetry; by apply Hne).
    apply (qi_order _ Hq) in Hy as [a Ha]. rewrite Ha. apply (qi_wf _ Hq) in Ha as (_ & _ & ?). lia.
Qed.

Lemma find_first (P : string → bool) (R : relation string) l x :
  StronglySorted R l → List.find P l = Some x → x ∈ l ∧ P x = true ∧ ∀ y, y ∈ l → P y = true → y = x ∨ R x y.
Proof.
  induction 1 as [|z l Hl IH Hz]; [done|]. cbn. destruct (P z) eqn:E.
  - intros [= <-]. rewrite Forall_forall in Hz. set_solver.
  - intros (Hx & Hp & Hy)%IH. split; [set_solver|]. split; [done|]. intros y [->|H]%elem_of_cons Hpy; [congruence|auto].
Qed.

Lemma find_first_none (P : string → bool) l : List.find P l = None → ∀ y, y ∈ l → P y = false.
Proof. intros H y Hy. apply (List.find_none _ _ H). by apply list_elem_of_In. Qed.

(** The first entry of the list that satisfies [P] is the oldest that does. *)
Lemma firstWhere_oldest (P : string → bool) (Q : queueRecord → Prop) q :
  qinv q → (∀ id r, entries q !! id = Some r → P id = true ↔ Q r) →
  match firstWhere P q with
  | Some a => ∃ r, entries q !! qr_ID r = Some r ∧ Q r ∧ a = recordArtifact r ∧
              ∀ id' r', entries q !! id' = Some r' → Q r' → qr_QueueSeq r ≤ qr_QueueSeq r'
  | None => ∀ id r, entries q !! id = Some r → ¬ Q r
  end.
Proof.
  intros Hq HP. unfold firstWhere. destruct (List.find P (order q)) as [x|] eqn:E.
  - apply (find_first _ _ _ _ (qi_sorted _ Hq)) in E as (Hx & Hp & Hmin).
    apply (qi_order _ Hq) in Hx as [r Hr]. rewrite Hr. cbn. exists r.
    pose proof (qi_wf _ Hq _ _ Hr) as (_ & Hid & _). rewrite Hid. split_and!; [done|by eapply HP|done|].
    intros id' r' Hr' HQ. destruct (Hmin id') as [->|[Hl|[Hl _]]]; [apply (qi_order _ Hq); eauto|by eapply HP|..].
    + replace r' with r by congruence. lia.
    + unfold seqOf in Hl. rewrite Hr, Hr' in Hl. lia.
    + unfold seqOf in Hl. rewrite Hr, Hr' in Hl. lia.
  - intros id r Hr HQ. pose proof (find_first_none _ _ E id) as Hf.
    rewrite (proj2 (HP _ _ Hr) HQ) in Hf. apply diff_true_false, Hf, (qi_order _ Hq). eauto.
Qed.
End Order.

(** A small outbound queue, one device, and its first directory. *)
Definition exOpts : QueueOptions := MkOptions "queue" 10 100000 [] false [] "outbound".
Definition exNode : fkind * Z := (FDirectory, 448).
Definition exMarker : gmap string file := {[ queueMarkerName := File FRegular 384 queueMarkerBody true ]}.
Definition exDir (io : list bool) : dirst := reboot exMarker io.
Definition exA : string := dq "{'device_id':'a','local_seq':1}".
Definition exB : string := dq "{'device_id':'b','local_seq':1}".
Definition exOpen (o : QueueOptions) (d : dirst) : qst :=
  match openDurableQueue o (Some exNode) "p" d Faults.NewRecorder with
  | (_, Some s, _) => s
  | _ => MkSt (emptyQueue (MkConfig 0 0 false ∅ None 0 0 "")) d Faults.NewRecorder
  end.
Definition ex0 : qst := exOpen exOpts (exDir []).
Definition ex1 : qst := (enqueueOrFind 1000 ArtifactDeliveryEnvelope exA ex0).2.
Definition ex2 : qst := (enqueueOrFind 1001 ArtifactDeliveryEnvelope exB ex1).2.

Lemma exOpen_ok o d :
  (openDurableQueue o (Some exNode) "p" d Faults.NewRecorder).1.1 = Ok tt →
  openDurableQueue o (Some exNode) "p" d Faults.NewRecorder = (Ok tt, Some (exOpen o d), sd (exOpen o d)).
Proof.
  unfold exOpen, openDurableQueue. destruct (checkOptions o); [|done]. destruct (ensurePrivateQueueDirectory _ _) as [[] ?]; [|done].
  destruct (buildConfig o) as [c|]; [|done]. by destruct (load _) as [[[]|] s].
Qed.

Lemma run_ok {A S} (m : res A * S) a : m.1 = Ok a → m = (Ok a, m.2).
Proof. by destruct m as [? ?]; cbn; intros ->. Qed.

Lemma ex0_open : openDurableQueue exOpts (Some exNode) "p" (exDir []) Faults.NewRecorder = (Ok tt, Some ex0, sd ex0).
Proof. apply exOpen_ok. vm_compute. reflexivity. Qed.

Lemma ex0_life : life_inv (ex0, ∅).
Proof.
  eapply (reopened_life exOpts exNode "p" exMarker [] Faults.NewRecorder ex0 (sd ex0));
    [done| |by vm_compute|exact ex0_open].
  apply (bool_decide_unpack _). vm_compute. exact I.
Qed.

Lemma ex_enqueue_step nowMS kind payload s :
  nowMS ≤ i64_max → slen payload ≤ 2 ^ 60 → nextSeq (sq s) < i64_max →
  qstep (s, ∅) ((enqueueOrFind nowMS kind payload s).2, ∅).
Proof. intros H1 H2 H3. apply step_op. eapply op_enqueue; [done..|]. apply surjective_pairing. Qed.

Lemma ex2_reached : rtc qstep (ex0, ∅) (ex2, ∅).
Proof.
  eapply rtc_l; [apply (ex_enqueue_step 1000 ArtifactDeliveryEnvelope exA); vm_compute; done|].
  eapply rtc_l; [apply (ex_enqueue_step 1001 ArtifactDeliveryEnvelope exB); vm_compute; done|]. apply rtc_refl.
Qed.

Lemma ex2_life : life_inv (ex2, ∅).
Proof. exact (qsteps_inv _ _ ex2_reached ex0_life). Qed.

(** ** Durability *)

(** C13: In every history of an opened queue (admissions, holds, back-offs,
    retirements, probes, crashes and reopenings, any system call failing at
    any point) the in-memory queue stays consistent: the order lists exactly
    the entries, once each, by sequence; identities are the digests of the
    bytes; byte, lane and device counters equal what the entries add up to;
    and the bounds hold. *)
Theorem queue_invariant o n body m io f s0 d0 s D :
  o_MaxBytes o ≤ 2 ^ 62 → seqs_left (settled <$> m) → dirBytes (settled <$> m) ≤ 2 ^ 61 →
  openDurableQueue o (Some n) body (reboot m io) f = (Ok tt, Some s0, d0) →
  rtc qstep (s0, ∅) (s, D) → qinv (sq s).
Proof. intros Hm Hs Hb Ho Hr. by apply (qsteps_inv _ _ Hr), (reopened_life o n body m io f s0 d0). Qed.

Lemma queue_invariant_witness : qinv (sq ex2).
Proof.
  apply (queue_invariant exOpts exNode "p" exMarker [] Faults.NewRecorder ex0 (sd ex0) ex2 ∅).
  - done.
  - apply (bool_decide_unpack _). vm_compute. exact I.
  - by vm_compute.
  - exact ex0_open.
  - exact ex2_reached.
Defined.

(** C1: An admitted artifact survives any crash until it is retired: whatever
    the machine loses at any point of the queue's history, a queue reopened
    from what is left holds every entry the old one listed, record for record.
    Only an identity whose retirement reported that its record could not be
    restored may be missing. *)
Theorem crash_recovery s0 s D m o n body io f s' d' id r :
  life_inv (s0, ∅) → rtc qstep (s0, ∅) (s, D) → crash (sd s) m →
  openDurableQueue o (Some n) body (reboot m io) f = (Ok tt, Some s', d') →
  entries (sq s) !! id = Some r → id ∉ D → entries (sq s') !! id = Some r.
Proof.
  intros H0 Hr. apply life_crash. by apply (qsteps_inv _ _ Hr).
Qed.

Definition exReopened : qst := exOpen exOpts (reboot (d_dur (sd ex2)) []).
Definition exIdA : string := artifactID ArtifactDeliveryEnvelope exA.

Lemma exReopened_open :
  openDurableQueue exOpts (Some exNode) "p" (reboot (d_dur (sd ex2)) []) Faults.NewRecorder = (Ok tt, Some exReopened, sd exReopened).
Proof. apply exOpen_ok. vm_compute. reflexivity. Qed.

Lemma crash_recovery_witness :
  entries (sq exReopened) !! exIdA = Some (MkRecord 1 exIdA ArtifactDeliveryEnvelope 1 1000 exA).
Proof.
  apply (crash_recovery ex0 ex2 ∅ (d_dur (sd ex2)) exOpts exNode "p" [] Faults.NewRecorder exReopened (sd exReopened)).
  - exact ex0_life.
  - exact ex2_reached.
  - apply crash_to_durable.
  - exact exReopened_open.
  - vm_compute. reflexivity.
  - apply not_elem_of_empty.
Defined.

(** A retirement that returned without error is final: the artifact is no
    longer listed, and no crash brings it back when the queue is reopened. *)
Theorem retired_is_final id s s' m o n body io f s'' d'' :
  qinv (sq s) → Remove id s = (Ok tt, s') → crash (sd s') m →
  openDurableQueue o (Some n) body (reboot m io) f = (Ok tt, Some s'', d'') →
  entries (sq s') = delete id (entries (sq s)) ∧ entries (sq s'') !! id = None.
Proof.
  intros Hq H Hc Ho. destruct (Remove_retired _ _ _ _ H Hq) as [_ _ R _ _]. destruct (R eq_refl) as [E G].
  split; [done|]. apply openDurableQueue_sound in Ho as [_ S].
  destruct (entries (sq s'') !! id) as [r|] eqn:Er; [|done]. destruct (S _ _ Er) as (g & Hg & _).
  cbn in Hg. rewrite lookup_fmap, (gone_crash _ _ _ G Hc) in Hg. done.
Qed.

Definition exRetired : qst := (Remove exIdA ex2).2.

Lemma retired_is_final_witness :
  entries (sq exRetired) = delete exIdA (entries (sq ex2)) ∧
  entries (sq (exOpen exOpts (reboot (d_dur (sd exRetired)) []))) !! exIdA = None.
Proof.
  set (s'' := exOpen exOpts (reboot (d_dur (sd exRetired)) [])).
  apply (retired_is_final exIdA ex2 exRetired (d_dur (sd exRetired)) exOpts exNode "p" [] Faults.NewRecorder s'' (sd s'')).
  - exact (proj1 ex2_life).
  - unfold exRetired. apply run_ok. vm_compute. reflexivity.
  - apply crash_to_durable.
  - unfold s''. apply exOpen_ok. vm_compute. reflexivity.
Defined.

(** A reopened queue holds exactly the record files of its directory: each
    entry is the decoded content of its own private regular file, and no
    record file is skipped. *)
Theorem reopened_exactly o n body d f s' d' id r :
  openDurableQueue o (Some n) body d f = (Ok tt, Some s', d') → ¬ dotted (recordFile id) →
  entries (sq s') !! id = Some r ↔ ∃ g, d_vol d !! recordFile id = Some g ∧ record_file g r.
Proof.
  intros Ho Hd. split; [by apply (openDurableQueue_sound _ _ _ _ _ _ _ _ Ho)|].
  intros (g & Hg & _ & _ & Hdec).
  destruct (openDurableQueue_complete _ _ _ _ _ _ _ _ _ _ Ho Hg Hd) as (r' & Hr' & Hn & He).
  replace r' with r in * by congruence. apply recordFile_inj in Hn. by subst id.
Qed.

Lemma reopened_exactly_witness :
  entries (sq exReopened) !! exIdA = Some (MkRecord 1 exIdA ArtifactDeliveryEnvelope 1 1000 exA).
Proof.
  apply (reopened_exactly exOpts exNode "p" (reboot (d_dur (sd ex2)) []) Faults.NewRecorder exReopened (sd exReopened)).
  - exact exReopened_open.
  - intros [t E]. vm_compute in E. discriminate E.
  - eexists. split; [vm_compute; reflexivity|]. split_and!; vm_compute; reflexivity.
Defined.

(** Opening never adopts a directory that is not the queue's: an existing
    path that is no directory, is open to others, or has no ownership marker (or
    a marker that is not private, not a regular file or has other bytes) is
    refused before anything in it is changed. *)
Theorem foreign_directory_refused o n body d f :
  d_io d = [] →
  ¬ (n.1 = FDirectory ∧ Z.land n.2 63 = 0 ∧
     ∃ g, d_vol d !! queueMarkerName = Some g ∧ regular g = true ∧ private g = true ∧ f_data g = queueMarkerBody) →
  ∃ e, openDurableQueue o (Some n) body d f = (Err (EMsg e), None, d).
Proof.
  intros Hio Hn. unfold openDurableQueue, checkOptions.
  destruct (_ || _); [by eexists|]. destruct (_ <=? _); [by eexists|]. destruct (_ <=? _); [by eexists|].
  assert (∃ e, ensurePrivateQueueDirectory (Some n) d = (Err (EMsg e), d)) as [e ->]; [|by eexists].
  assert (next_io d = (false, d)) as Hnx by (unfold next_io; by rewrite Hio).
  assert (∀ msg, sys msg (λ d, (tt, d)) d = (Ok tt, d)) as Hsys by (intros msg; unfold sys; by rewrite Hnx).
  unfold ensurePrivateQueueDirectory, ebind at 1. rewrite Hsys. unfold checkDirectory.
  destruct (bool_decide_reflect (n.1 = FDirectory)); [|by eexists].
  destruct (Z.eqb_spec (Z.land n.2 63) 0); [|by eexists]. cbn [negb]. unfold ensureQueueMarker. rewrite Hnx.
  destruct (d_vol d !! queueMarkerName) as [g|] eqn:Eg; [|by eexists]. cbn [negb andb bool_decide].
  rewrite bool_decide_false by done. rewrite Hnx, Eg. unfold checkMarker, ebind. rewrite Hsys.
  destruct (regular g && private g) eqn:Er; [|by eexists]. cbn [negb]. rewrite Hsys.
  destruct (bool_decide_reflect (f_data g = queueMarkerBody)); [|by eexists].
  exfalso. apply Hn. apply andb_true_iff in Er as [? ?]. split_and!; [done..|]. by exists g.
Qed.

Lemma foreign_directory_refused_witness :
  ∃ e, openDurableQueue exOpts (Some exNode) "p" (reboot ∅ []) Faults.NewRecorder = (Err (EMsg e), None, reboot ∅ []).
Proof.
  apply (foreign_directory_refused exOpts exNode "p" (reboot ∅ []) Faults.NewRecorder); [reflexivity|].
  intros (_ & _ & g & Hg & _). discriminate Hg.
Defined.

(** When the directory sync fails after the rename of an admission, the
    record file stays although the admission returned an error, and the next
    admission of another artifact takes the same queue sequence: both calls
    obey their contracts one by one, yet the directory can no longer be
    opened, and opening it reports a duplicate durable queue sequence. *)
Theorem failed_sync_blocks_reopening :
  let s1 := MkSt (sq ex0) (Dir (d_vol (sd ex0)) (d_dur (sd ex0)) (d_log (sd ex0))
                   [false; false; false; false; false; false; true]) (sf ex0) in
  let '(a, s2) := Enqueue 1000 ArtifactDeliveryEnvelope exA s1 in
  let '(b, s3) := Enqueue 1001 ArtifactDeliveryEnvelope exB s2 in
  a = Err (EMsg "evidence: persist queue commit") ∧ is_ok b = true ∧
  crash (sd s3) (d_dur (sd s3)) ∧
  (openDurableQueue exOpts (Some exNode) "p" (reboot (d_dur (sd s3)) []) Faults.NewRecorder).1.1 =
    Err (EMsg "evidence: duplicate durable queue sequence").
Proof.
  cbv zeta. destruct (Enqueue _ _ exA _) as [a s2] eqn:E1. destruct (Enqueue _ _ exB s2) as [b s3] eqn:E2.
  pose proof (f_equal fst E1) as A. pose proof (f_equal snd E1) as S. cbn [fst snd] in A, S. subst s2 a.
  pose proof (f_equal fst E2) as B. pose proof (f_equal snd E2) as S3. cbn [fst snd] in B, S3. subst s3 b.
  split; [vm_compute; reflexivity|]. split; [vm_compute; reflexivity|]. split; [apply crash_to_durable|].
  vm_compute. reflexivity.
Qed.

(** ** Order and idempotence *)

(** The head of a lane is the oldest entry of that lane, whatever the other
    lanes hold, and a lane reads as empty only when it holds nothing. *)
Theorem PeekLane_oldest key q :
  qinv q →
  match PeekLane key q with
  | Some a => ∃ r, entries q !! qr_ID r = Some r ∧ recordLane r = key ∧ a = recordArtifact r ∧
              ∀ id' r', entries q !! id' = Some r' → recordLane r' = key → qr_QueueSeq r ≤ qr_QueueSeq r'
  | None => ∀ id r, entries q !! id = Some r → recordLane r ≠ key
  end.
Proof.
  intros Hq. apply (firstWhere_oldest _ (λ r, recordLane r = key)); [done|].
  intros id r Hr. rewrite bool_decide_eq_true, (qi_lane _ Hq), Hr. cbn. naive_solver.
Qed.

Lemma PeekLane_oldest_witness :
  PeekLane (MkLaneKey "a" LaneEvidence) (sq ex2) = Some (MkQueued exIdA ArtifactDeliveryEnvelope exA 1000) ∧
  ∃ r, entries (sq ex2) !! qr_ID r = Some r ∧ recordLane r = MkLaneKey "a" LaneEvidence.
Proof.
  pose proof (PeekLane_oldest (MkLaneKey "a" LaneEvidence) (sq ex2) (proj1 ex2_life)) as H.
  assert (PeekLane (MkLaneKey "a" LaneEvidence) (sq ex2) = Some (MkQueued exIdA ArtifactDeliveryEnvelope exA 1000)) as E
    by (vm_compute; reflexivity).
  split; [exact E|]. rewrite E in H. destruct H as (r & H1 & H2 & _). exists r. split; assumption.
Defined.

(** A first admission of an artifact puts it last in the delivery order,
    lists and stores it, and charges its encoded size once; admitting the same
    bytes again returns the same entry and touches neither the queue nor the
    disk. *)
Theorem enqueue_appends nowMS kind payload s a s' :
  qinv (sq s) → admissible nowMS kind payload (sq s) → entries (sq s) !! artifactID kind payload = None →
  enqueueOrFind nowMS kind payload s = (Ok a, s') →
  let r := MkRecord queueRecordVersion (artifactID kind payload) kind (nextSeq (sq s)) nowMS payload in
  a = (recordArtifact r, false) ∧ order (sq s') = order (sq s) ++ [qr_ID r] ∧
  entries (sq s') = <[qr_ID r := r]> (entries (sq s)) ∧ on_disk (sd s') (qr_ID r) r ∧
  bytes (sq s') = bytes (sq s) + slen (encodeRecord r) ∧
  ∀ nowMS', enqueueOrFind nowMS' kind payload s' = (Ok (recordArtifact r, true), s').
Proof.
  intros Hq Ha Hnew H r. apply enqueueOrFind_cases in H as [[_ H]|(_ & Hk & Hp & b & Hi & E)].
  { destruct (H _ eq_refl) as (r0 & Hr0 & _). congruence. }
  pose proof (inserted_qinv _ _ _ _ _ _ Hq Ha Hnew Hi) as Hq'.
  assert (record_wf r) as Hwf by (destruct Hi; [done|done|]; destruct Ha; by apply new_record_wf).
  destruct Hi as [e|e s1 r0 Hw|s1 r0 Hc Hi Hs1 Hn Hb Hs2 Hw]; [done..|]. cbn in Hq' |- *. injection E as ->.
  rewrite (writeRecord_sq _ _ _ _ _ Hw) in *. change r0 with r in *. split; [done|].
  rewrite (commit_order_last _ r) by done. rewrite commit_entries. split_and!; [done|done| | |].
  - by apply (writeRecord_ok r s tt s1).
  - destruct (encoded_small r Hwf (ad_small _ _ _ _ Ha)) as [Hlo Hhi].
    apply (commit_nowrap (sq s) r (slen (encodeRecord r))); [done|by destruct Ha|exact Hlo|].
    rewrite wrap64_id in Hb; [done|]. pose proof (qcore_bytes_nonneg _ (qi_core _ Hq)).
    pose proof (qi_maxBytes _ Hq). pose proof (co_bytes _ (qi_cfg _ Hq)). unfold in_i64, i64_min, i64_max. lia.
  - intros nowMS'. unfold enqueueOrFind. rewrite Hk. cbn [negb]. rewrite decide_False by done. cbv zeta. cbn [sq].
    change (qr_ID r) with (artifactID kind payload). by rewrite commit_entries, lookup_insert_eq.
Qed.

Lemma enqueue_appends_witness :
  order (sq ex2) = order (sq ex1) ++ [artifactID ArtifactDeliveryEnvelope exB].
Proof.
  pose (r := MkRecord queueRecordVersion (artifactID ArtifactDeliveryEnvelope exB) ArtifactDeliveryEnvelope 2 1001 exB).
  assert (qinv (sq ex1)) as H1.
  { apply (qsteps_inv (ex0, ∅) (ex1, ∅)); [|exact ex0_life].
    eapply rtc_l; [apply (ex_enqueue_step 1000 ArtifactDeliveryEnvelope exA); vm_compute; done|apply rtc_refl]. }
  assert (admissible 1001 ArtifactDeliveryEnvelope exB (sq ex1)) as H2 by (split; [done|done|done|by vm_compute|by vm_compute]).
  assert (entries (sq ex1) !! artifactID ArtifactDeliveryEnvelope exB = None) as H3 by (vm_compute; reflexivity).
  assert (enqueueOrFind 1001 ArtifactDeliveryEnvelope exB ex1 = (Ok (recordArtifact r, false), ex2)) as H4.
  { unfold ex2. apply run_ok. vm_compute. reflexivity. }
  pose proof (enqueue_appends _ _ _ _ _ _ H1 H2 H3 H4) as H. cbv zeta in H. cbn [qr_ID] in H.
  destruct H as (_ & H & _). exact H.
Defined.

(** A refused or failed admission leaves the in-memory queue exactly as it
    was, and a capacity refusal leaves the disk as it was too. *)
Theorem enqueue_error nowMS kind payload s e s' :
  enqueueOrFind nowMS kind payload s = (Err e, s') →
  sq s' = sq s ∧ ((∃ l, e = ErrQueueFull l) ∨ e = ErrUnconfiguredDevice → s' = s).
Proof.
  intros [[-> _]|(_ & _ & _ & b & Hi & E)]%enqueueOrFind_cases; [done|].
  destruct Hi as [e'|e' s1 r Hw|]; [done| |done]. injection E as <-. split; [by eapply writeRecord_sq|].
  intros He. exfalso. unfold writeRecord in Hw. apply writeFileAtomic_dir in Hw.
  apply writeFileAtomicRaw_msg in Hw as [msg ->]. naive_solver.
Qed.

Definition exFull : qst :=
  MkSt (sq (exOpen (MkOptions "queue" 10 100 [] false [] "outbound") (exDir []))) (sd ex0) (sf ex0).

Lemma enqueue_error_witness :
  enqueueOrFind 1000 ArtifactDeliveryEnvelope exA exFull = (Err (ErrQueueFull "byte"), exFull) ∧ sq exFull = sq exFull.
Proof.
  assert (enqueueOrFind 1000 ArtifactDeliveryEnvelope exA exFull = (Err (ErrQueueFull "byte"), exFull)) as E
    by (vm_compute; reflexivity).
  split; [exact E|]. exact (proj1 (enqueue_error _ _ _ _ _ _ E)).
Defined.

(** A queue record read back from the bytes written for it is the same
    record, and a record of an outbound artifact of at most the wire maximum
    occupies no more than the size its lane's reserve is computed from. *)
Theorem record_roundtrip r :
  record_wf r →
  decodeRecord (encodeRecord r) = Some r ∧
  (validOutboundArtifactType (qr_Type r) = true → slen (qr_Payload r) ≤ maxArtifactBytes →
   slen (encodeRecord r) ≤
     match LaneOf (qr_Type r) with LaneRegistration => maxQueueRecordBytes | LaneEvidence => maxEvidenceRecordBytes end).
Proof. intros Hwf. split; [by apply decode_encode_record|by apply encodeRecord_bound]. Qed.

Lemma record_roundtrip_witness :
  let r := MkRecord 1 exIdA ArtifactDeliveryEnvelope 7 1000 exA in decodeRecord (encodeRecord r) = Some r.
Proof. apply record_roundtrip. split; done. Defined.

(** The refused-head and back-off records the worker relies on survive a
    restart as they were: a valid record read back from its own bytes is the
    same record. *)
Theorem sidecar_roundtrip h b queued :
  record_wf queued →
  (validateHoldRecord h queued = Ok tt → decodeHold (encodeHold h) = Some h) ∧
  (validateBackoffRecord b = Ok tt → b_QueueRecord b = qr_ID queued → decodeBackoff (encodeBackoff b) = Some b).
Proof. intros Hwf. split; [intros H; by eapply decode_encode_hold|intros H E; apply decode_encode_backoff; [rewrite E; by apply record_wf_plain|done]]. Qed.


Lemma sidecar_roundtrip_witness :
  let h := MkHold 1 exIdA (payloadDigest exA) ArtifactDeliveryEnvelope 422 "binding_mismatch" 1000 false in
  let b := MkBackoff 2 exIdA 5000 3 (Some 2000) in
  decodeHold (encodeHold h) = Some h ∧ decodeBackoff (encodeBackoff b) = Some b.
Proof.
  intros h b. destruct (sidecar_roundtrip h b (MkRecord 1 exIdA ArtifactDeliveryEnvelope 7 1000 exA)) as [H1 H2].
  - split; done.
  - split; [apply H1; vm_compute; reflexivity|apply H2; vm_compute; reflexivity].
Defined.
End QueueSpec.
