(* ===== verification/QueueRefine.v ===== *)
(** * The queue as an ordered list

    What a client of the queue may rely on, with files, indexes and counters
    abstracted away: a list of records in admission order. An admission appends
    at most one record, a retirement takes one out, a restart keeps every
    record that is not in doubt, in order. The implementation refines it. *)
From S2P Require Import Prelude GoBytes Sha256 Json Routing Refusal Faults Store Queue Codec QueueInv QueueOps QueueDir Probe Load QueueLife QueueSpec.
Import Routing Store Queue QueueInv QueueOps Probe Load QueueLife QueueSpec.

Module QueueRefine.

(** ** The abstract queue *)
Definition fifo : Type := list queueRecord * gset string.

Definition before (a b : queueRecord) : Prop := qr_QueueSeq a < qr_QueueSeq b.

Inductive fstep : fifo → fifo → Prop :=
| f_append r l D :
    (∀ x, x ∈ l → qr_ID x ≠ qr_ID r ∧ before x r) → fstep (l, D) (l ++ [r], D)
| f_remove id l D : fstep (l, D) (filter (λ r, qr_ID r ≠ id) l, D)
| f_doubt id l D : fstep (l, D) (l, {[id]} ∪ D)
| f_restart l l' D : filter (λ r, qr_ID r ∉ D) l `sublist_of` l' → fstep (l, D) (l', ∅).

(** ** Lists sorted by sequence *)
Section Sorted.
Implicit Types (l : list queueRecord).

Lemma before_irrefl x : ¬ before x x.
Proof. unfold before. lia. Qed.

Lemma sorted_sublist l1 l2 :
  StronglySorted before l1 → StronglySorted before l2 → (∀ x, x ∈ l1 → x ∈ l2) → l1 `sublist_of` l2.
Proof.
  intros H1 H2. revert l1 H1. induction H2 as [|y l2 Hs IH Hy]; intros l1 H1 Hin.
  { destruct l1 as [|x l1]; [done|]. destruct (not_elem_of_nil x). apply Hin. set_solver. }
  destruct H1 as [|x l1 Hs1 Hx]; [apply sublist_nil_l|]. rewrite Forall_forall in Hx, Hy.
  assert (∀ z, z ∈ l1 → z ∈ l2) as Hin1.
  { intros z Hz. destruct (proj1 (elem_of_cons _ _ _) (Hin z ltac:(set_solver))) as [->|]; [|done].
    pose proof (Hx _ Hz). destruct (proj1 (elem_of_cons _ _ _) (Hin x ltac:(set_solver))) as [->|Hx2]; [by destruct (before_irrefl y)|].
    pose proof (Hy _ Hx2). unfold before in *. lia. }
  destruct (proj1 (elem_of_cons _ _ _) (Hin x ltac:(set_solver))) as [->|Hx2]; [apply sublist_skip; by apply IH|].
  apply sublist_cons, IH; [by constructor; [|apply Forall_forall]|]. intros z [->|Hz]%elem_of_cons; auto.
Qed.

Lemma sorted_eq l1 l2 :
  StronglySorted before l1 → StronglySorted before l2 → (∀ x, x ∈ l1 ↔ x ∈ l2) → l1 = l2.
Proof. intros H1 H2 H. apply (anti_symm sublist); apply sorted_sublist; naive_solver. Qed.

Lemma sorted_filter (P : queueRecord → Prop) `{∀ x, Decision (P x)} l : StronglySorted before l → StronglySorted before (filter P l).
Proof. intros Hs. eapply StronglySorted_sublist; [apply sublist_filter|done]. Qed.
End Sorted.

(** ** The abstraction *)
Section View.
Implicit Types (q : DurableQueue) (s : qst) (c : qconf).

Definition view q : list queueRecord := omap (entries q !!.) (order q).
Definition abs c : fifo := (view (sq c.1), c.2).

Lemma elem_of_view q r : qinv q → r ∈ view q ↔ entries q !! qr_ID r = Some r.
Proof.
  intros Hq. unfold view. rewrite list_elem_of_omap. split.
  - intros (id & _ & Hr). by destruct (qi_wf _ Hq _ _ Hr) as (_ & -> & _).
  - intros Hr. exists (qr_ID r). split; [apply (qi_order _ Hq); eauto|exact Hr].
Qed.

Lemma view_sorted q : qinv q → StronglySorted before (view q).
Proof.
  intros Hq. unfold view. pose proof (qi_sorted _ Hq) as Hs. pose proof (qi_nodup _ Hq) as Hn.
  induction Hs as [|id l Hs IH Hf]; [constructor|]. apply NoDup_cons in Hn as [Hid Hn]. cbn.
  destruct (entries q !! id) as [r|] eqn:Er; [|by apply IH]. constructor; [by apply IH|].
  apply Forall_forall. intros r' (id' & Hid' & Hr')%list_elem_of_omap. rewrite Forall_forall in Hf.
  unfold before. destruct (Hf _ Hid') as [Hl|[Hl _]]; unfold seqOf in Hl; rewrite Er, Hr' in Hl; [done|].
  destruct Hid. by rewrite (qi_seq _ Hq _ _ _ _ Er Hr' Hl).
Qed.

(** Two queues with the same entries have the same view. *)
Lemma view_ext q q' : qinv q → qinv q' → entries q' = entries q → view q' = view q.
Proof. intros Hq Hq' E. apply sorted_eq; [by apply view_sorted..|]. intros r. by rewrite !elem_of_view, E. Qed.

Lemma view_delete q q' id :
  qinv q → qinv q' → entries q' = delete id (entries q) → view q' = filter (λ r, qr_ID r ≠ id) (view q).
Proof.
  intros Hq Hq' E. apply sorted_eq; [by apply view_sorted|by apply sorted_filter, view_sorted|].
  intros r. rewrite list_elem_of_filter, !elem_of_view, E, lookup_delete_Some by done. naive_solver.
Qed.

Lemma view_insert q q' r :
  qinv q → qinv q' → entries q' = <[qr_ID r := r]> (entries q) → entries q !! qr_ID r = None → qr_QueueSeq r = nextSeq q →
  view q' = view q ++ [r] ∧ ∀ x, x ∈ view q → qr_ID x ≠ qr_ID r ∧ before x r.
Proof.
  intros Hq Hq' E Hn Hs.
  assert (∀ x, x ∈ view q → qr_ID x ≠ qr_ID r ∧ before x r) as Hb.
  { intros x Hx%elem_of_view; [|done]. split; [congruence|]. unfold before. rewrite Hs. by apply (qi_wf _ Hq) in Hx as (_ & _ & ?). }
  split; [|done]. apply sorted_eq; [by apply view_sorted|apply StronglySorted_snoc; [by apply view_sorted|by apply Hb]|].
  intros x. rewrite elem_of_app, list_elem_of_singleton, !elem_of_view, E by done. split.
  - intros [[_ ->]|[_ ?]]%lookup_insert_Some; auto.
  - intros [Hx| ->]; [rewrite lookup_insert_ne by congruence; done|by rewrite lookup_insert_eq].
Qed.

(** What a client reads off the queue is what it would read off the list. *)
Lemma firstWhere_view (P : string → bool) (Q : queueRecord → Prop) `{∀ r, Decision (Q r)} q :
  qinv q → (∀ id r, entries q !! id = Some r → P id = true ↔ Q r) →
  firstWhere P q = recordArtifact <$> head (filter Q (view q)).
Proof.
  intros Hq HP. assert (∀ id, id ∈ order q → is_Some (entries q !! id)) as Hin by (intros id; apply (qi_order _ Hq)).
  unfold firstWhere, view. induction (order q) as [|id l IH]; [done|]. cbn.
  destruct (Hin id ltac:(set_solver)) as [r Hr]. rewrite Hr. destruct (P id) eqn:E.
  - rewrite filter_cons_True by (by eapply HP). by rewrite Hr.
  - rewrite filter_cons_False by (intros HQ; apply (HP _ _ Hr) in HQ; congruence). apply IH. set_solver.
Qed.

Lemma Peek_view q : qinv q → Peek q = recordArtifact <$> head (view q).
Proof.
  intros Hq. unfold Peek, view. destruct (order q) as [|id l] eqn:Eo; [done|]. cbn.
  destruct (proj1 (qi_order _ Hq id)) as [r Hr]; [rewrite Eo; set_solver|]. by rewrite Hr.
Qed.

Lemma PeekLane_view key q : qinv q → PeekLane key q = recordArtifact <$> head (filter (λ r, recordLane r = key) (view q)).
Proof.
  intros Hq. apply (firstWhere_view _ (λ r, recordLane r = key)); [done|].
  intros id r Hr. rewrite bool_decide_eq_true, (qi_lane _ Hq), Hr. cbn. naive_solver.
Qed.

Lemma Len_view q : qinv q → Len q = Z.of_nat (length (view q)).
Proof.
  intros Hq. unfold Len. f_equal.
  assert (map_to_list (entries q) ≡ₚ (λ r, (qr_ID r, r)) <$> view q) as Hp.
  { apply NoDup_Permutation; [apply NoDup_map_to_list| |].
    - apply NoDup_fmap_2; [by intros ?? [= _ ?]|]. pose proof (view_sorted _ Hq) as Hs.
      induction Hs as [|x l Hs IH Hf]; constructor; [|done]. rewrite Forall_forall in Hf. intros Hx%Hf. by apply before_irrefl in Hx.
    - intros [id r]. rewrite elem_of_map_to_list, list_elem_of_fmap. split.
      + intros Hr. exists r. destruct (qi_wf _ Hq _ _ Hr) as (_ & Hid & _). split; [by rewrite Hid|]. apply elem_of_view; [done|]. by rewrite Hid.
      + intros (r' & [= -> ->] & Hr'). by apply elem_of_view in Hr'. }
  apply Permutation_length in Hp. rewrite length_fmap in Hp. by rewrite <-Hp, length_map_to_list.
Qed.

(** ** Simulation *)
Lemma qop_fifo c c' : qop c c' → life_inv c → rtc fstep (abs c) (abs c').
Proof.
  intros H Hl. pose proof (qop_inv _ _ H Hl) as [Hq' _]. pose proof Hl as [Hq _].
  assert (entries (sq c'.1) = entries (sq c.1) → c'.2 = c.2 → rtc fstep (abs c) (abs c')) as Hstay.
  { intros E1 E2. unfold abs. rewrite E2, (view_ext _ _ Hq Hq' E1). apply rtc_refl. }
  destruct H as [nowMS kind payload s a s' D Hn Hp Hseq H|h s a s' D H|b s a s' D H|id s a s' D H|id s a s' D H
    |body s a s' D H|device s a s' D H|device s D]; cbn [fst snd] in *.
  - pose proof H as [[-> _]|(Hnew & _ & _ & b & Hi & _)]%enqueueOrFind_cases; [by apply Hstay|].
    destruct Hi as [e|e s1 r0 Hw|s1 r0 Hc Hi Hs1 Hn1 Hb Hs2 Hw]; [by apply Hstay|apply Hstay; [by rewrite (writeRecord_sq _ _ _ _ _ Hw)|done]|].
    assert (entries (commitEntry r0 (slen (encodeRecord r0)) (sq s1)) = <[qr_ID r0 := r0]> (entries (sq s))) as E
      by (by rewrite commit_entries, (writeRecord_sq _ _ _ _ _ Hw)).
    destruct (view_insert _ _ r0 Hq Hq' E Hnew eq_refl) as [Ev Hb']. unfold abs. cbn [fst snd sq] in *. rewrite Ev. by apply rtc_once, f_append.
  - apply Hstay; [|done]. by destruct (HoldOp_spec _ _ _ _ H Hq) as (_ & [? _] & _).
  - apply Hstay; [|done]. by destruct (SetBackoff_spec _ _ _ _ H Hq) as (_ & [? _] & _).
  - apply Hstay; [|done]. by destruct (ClearBackoff_spec _ _ _ _ H Hq) as (_ & [? _] & _).
  - destruct (Remove_retired _ _ _ _ H Hq) as [_ _ R3 R4 _]. unfold doubt in *. destruct (decide (a = Ok tt)) as [->|Ha].
    + destruct (R3 eq_refl) as [E _]. unfold abs. cbn [fst snd]. rewrite (view_delete _ _ id Hq Hq' E), decide_False by done. apply rtc_once, f_remove.
    + unfold abs. cbn [fst snd]. rewrite (view_ext _ _ Hq Hq' (R4 Ha)). case_decide; [apply rtc_once, f_doubt|apply rtc_refl].
  - apply Hstay; [|done]. by destruct (ProbeOp_spec _ _ _ _ H Hq) as (_ & ? & _).
  - apply Hstay; [|done]. by destruct (NoteUnconfiguredDevice_spec _ _ _ _ H Hq) as (_ & ? & _).
  - apply Hstay; [|done]. by destruct (NoteAdmittedDevice_spec device s Hq) as (_ & ? & _).
Qed.

Lemma qstep_fifo c c' : qstep c c' → life_inv c → rtc fstep (abs c) (abs c').
Proof.
  intros [c1 c2 H|m o n body io f s s' d' D Hc Hm Hs Hb Ho] Hl; [by apply qop_fifo|].
  apply rtc_once, f_restart. cbn [fst snd]. pose proof (reopened_life _ _ _ _ _ _ _ _ Hm Hs Hb Ho) as [Hq' _].
  apply sorted_sublist; [apply sorted_filter, view_sorted; apply Hl|by apply view_sorted|].
  intros r [HD Hr]%list_elem_of_filter. apply elem_of_view in Hr; [|apply Hl]. apply elem_of_view; [done|]. by eapply life_crash.
Qed.
End View.


End QueueRefine.
