(* ===== verification/QueueShares.v ===== *)
(** * Per-device shares and the registration reserve

    With shares reserved, each configured device may fill its own share of the
    queue and nothing more, and its evidence lane always leaves room for one
    anchor registration of the largest size. *)
From S2P Require Import Prelude GoBytes Sha256 Json Routing Refusal Faults Store Queue Codec QueueInv QueueOps QueueDir Probe Load QueueLife.
Import Routing Store Queue Codec QueueInv QueueOps QueueDir Probe Load QueueLife.

Module QueueShares.

(** ** What an operation changes besides holds and back-offs *)
Record same_counts (q q' : DurableQueue) : Prop := {
  sc_cfg : cfg q' = cfg q;
  sc_entries : entries q' = entries q;
  sc_sizes : sizes q' = sizes q;
  sc_laneOf : laneOf q' = laneOf q;
  sc_laneItems : laneItems q' = laneItems q;
  sc_laneBytes : laneBytes q' = laneBytes q;
  sc_deviceItems : deviceItems q' = deviceItems q;
  sc_deviceBytes : deviceBytes q' = deviceBytes q }.

#[global] Instance same_counts_refl : Reflexive same_counts.
Proof. by intros q; split. Qed.
#[global] Instance same_counts_trans : Transitive same_counts.
Proof. intros a b c [] []. split; congruence. Qed.

Lemma same_setHolds f q : same_counts q (setHolds f q).
Proof. by destruct q; split. Qed.
Lemma same_setBackoffs f q : same_counts q (setBackoffs f q).
Proof. by destruct q; split. Qed.
Lemma same_setUnconfigured u ov q : same_counts q (setUnconfigured u ov q).
Proof. by destruct q; split. Qed.

Create HintDb counts.
#[export] Hint Resolve same_setHolds same_setBackoffs same_setUnconfigured : counts.

Lemma removeHoldLocked_counts id s r s' : removeHoldLocked id s = (r, s') → same_counts (sq s) (sq s').
Proof.
  unfold removeHoldLocked. destruct (holds (sq s) !! id); [|intros [= <- <-]; reflexivity].
  intros [_ [[_ ->]|[_ ->]]]%sidecar_removal; [auto with counts|reflexivity|apply dotted_hold].
Qed.

Lemma removeBackoffLocked_counts id s r s' : removeBackoffLocked id s = (r, s') → same_counts (sq s) (sq s').
Proof.
  unfold removeBackoffLocked. destruct (backoffs (sq s) !! id); [|intros [= <- <-]; reflexivity].
  intros [_ [[_ ->]|[_ ->]]]%sidecar_removal; [auto with counts|reflexivity|apply dotted_backoff].
Qed.

Lemma HoldOp_counts h s r s' : HoldOp h s = (r, s') → same_counts (sq s) (sq s').
Proof.
  unfold HoldOp. destruct (entries (sq s) !! _); [|intros [= <- <-]; reflexivity].
  destruct (validateHoldRecord _ _); [|intros [= <- <-]; reflexivity].
  intros [_ [[_ ->]|[_ ->]]]%sidecar_write; [auto with counts|reflexivity|apply dotted_hold].
Qed.

Lemma SetBackoff_counts b s r s' : SetBackoff b s = (r, s') → same_counts (sq s) (sq s').
Proof.
  unfold SetBackoff. destruct (entries (sq s) !! _); [|intros [= <- <-]; reflexivity].
  destruct (validateBackoffRecord _); [|intros [= <- <-]; reflexivity].
  intros [_ [[_ ->]|[_ ->]]]%sidecar_write; [auto with counts|reflexivity|apply dotted_backoff].
Qed.

Lemma ClearBackoff_counts id s r s' : ClearBackoff id s = (r, s') → same_counts (sq s) (sq s').
Proof.
  unfold ClearBackoff. destruct (backoffs (sq s) !! id); [|intros [= <- <-]; reflexivity].
  destruct (removeBackoffLocked id s) as [r0 s0] eqn:E. intros [= <- <-].
  destruct (noteStore_spec r0 s0) as [-> _]. by eapply removeBackoffLocked_counts.
Qed.

(** A retirement drops its entry or nothing. *)
Lemma Remove_counts id s a s' :
  Remove id s = (a, s') →
  same_counts (sq s) (sq s') ∨
  ∃ q1 r, same_counts (sq s) q1 ∧ entries (sq s) !! id = Some r ∧ sq s' = dropEntry id q1.
Proof.
  unfold Remove. destruct (removeLocked id s) as [b s1] eqn:E. intros H.
  assert (sq s' = sq s1) as ->.
  { pose proof (noteStore_spec b s1) as [N _]. destruct b as [|[]]; injection H as <- <-; done. }
  clear H. unfold removeLocked in E. destruct (entries (sq s) !! id) as [r|] eqn:Ee; [|injection E as <- <-; left; reflexivity].
  apply ebind_inv in E as [([] & s2 & H2 & E)|(e & H2 & _)]; pose proof (removeHoldLocked_counts _ _ _ _ H2) as C1; [|by left].
  apply ebind_inv in E as [([] & s3 & H3 & E)|(e & H3 & _)]; pose proof (removeBackoffLocked_counts _ _ _ _ H3) as C2;
    [|left; by etransitivity].
  apply ebind_inv in E as [([] & s4 & H4 & E)|(e & H4 & _)]; apply onDir_spec in H4 as (E4 & _);
    [|left; rewrite E4; by etransitivity].
  assert (∀ x s5, unlinkOrRestore r s4 = (x, s5) → sq s5 = sq s4) as Hu.
  { intros x s5. unfold unlinkOrRestore. destruct (onDir _ s4) as [[[]|e] s6] eqn:E6; apply onDir_spec in E6 as (E6 & _).
    - by intros [= <- <-].
    - destruct (writeRecord r _ s6) as [[[]|] s7] eqn:E7; apply writeRecord_sq in E7; intros [= <- <-]; congruence. }
  apply ebind_inv in E as [([] & s5 & H5%Hu & E)|(e & H5%Hu & _)]; [|left; rewrite H5, E4; by etransitivity].
  injection E as <- <-. right. exists (sq s5), r. split_and!; [|done|done]. rewrite H5, E4. by etransitivity.
Qed.

Lemma writeUnconfigured_counts s r s' : writeUnconfiguredLocked s = (r, s') → sq s' = sq s.
Proof. by intros [? _]%writeUnconfigured_spec. Qed.

Lemma NoteUnconfiguredDevice_counts device s r s' :
  NoteUnconfiguredDevice device s = (r, s') → same_counts (sq s) (sq s').
Proof.
  unfold NoteUnconfiguredDevice. cbv zeta. intros H.
  case_decide; [injection H as <- <-; reflexivity|].
  destruct (_ || _); [destruct (unconfiguredOverflow _); [injection H as <- <-; reflexivity|]|];
    apply writeUnconfigured_counts in H; rewrite H; cbn; auto with counts.
Qed.

Lemma NoteAdmittedDevice_counts device s : same_counts (sq s) (sq (NoteAdmittedDevice device s)).
Proof.
  unfold NoteAdmittedDevice. cbv zeta. case_decide; [|reflexivity].
  destruct (writeUnconfiguredLocked _) as [r s1] eqn:E. apply writeUnconfigured_counts in E. cbn in E.
  assert (same_counts (sq s) (sq s1)) by (rewrite E; auto with counts). repeat case_match; done.
Qed.

Lemma ProbeOp_counts body s r s' : ProbeOp body s = (r, s') → same_counts (sq s) (sq s').
Proof.
  unfold ProbeOp. destruct (probe body s) as [r0 s0] eqn:E. apply probe_spec in E as (E & _).
  intros [= <- <-]. cbn. by rewrite E.
Qed.

(** ** The shares *)
Section Shares.
Context (c : gset string).
Implicit Types (q : DurableQueue) (d : string).

Definition devItems q d : Z := default 0 (deviceItems q !! d).
Definition devBytes q d : Z := default 0 (deviceBytes q !! d).
Definition evItems q d : Z := default 0 (laneItems q !! MkLaneKey d LaneEvidence).
Definition evBytes q d : Z := default 0 (laneBytes q !! MkLaneKey d LaneEvidence).

(** The configuration that [buildConfig] makes with shares reserved. *)
Record reserving (g : qconfig) : Prop := {
  rv_reserved : reserved g = true;
  rv_configured : configured g = Some c;
  rv_items : Z.of_nat (size c) * shareItems g ≤ maxItems g;
  rv_bytes : Z.of_nat (size c) * shareBytes g ≤ maxBytes g;
  rv_minItems : MinDeviceShareItems ≤ shareItems g;
  rv_minBytes : MinDeviceShareBytes ≤ shareBytes g }.

Record shares_ok q : Prop := {
  sh_cfg : reserving (cfg q);
  sh_conf : ∀ id r, entries q !! id = Some r → lk_Device (recordLane r) ∈ c;
  sh_devItems : ∀ d, devItems q d ≤ shareItems (cfg q);
  sh_devBytes : ∀ d, devBytes q d ≤ shareBytes (cfg q);
  sh_evItems : ∀ d, evItems q d ≤ shareItems (cfg q) - 1;
  sh_evBytes : ∀ d, evBytes q d ≤ shareBytes (cfg q) - maxQueueRecordBytes }.

Lemma buildConfig_reserving o g :
  o_ReserveDeviceShares o = true → c = list_to_set (o_Devices o) → buildConfig o = Ok g → reserving g.
Proof.
  intros Hr Hcc H. unfold buildConfig in H. rewrite Hr in H.
  destruct (o_Devices o) as [|x l] eqn:El; [done|]. rewrite <-El in *.
  destruct (_ || _) eqn:E in H; [done|]. injection H as <-. apply orb_false_iff in E as [E1 E2].
  rewrite <-Hcc in *.
  assert (size c ≠ 0%nat) as Hsz by (rewrite Hcc, El; intros H%size_empty_inv; set_solver).
  split; cbn [reserved configured maxItems shareItems maxBytes shareBytes];
    [done|done|apply Z.mul_div_le; lia|apply Z.mul_div_le; lia|lia|lia].
Qed.

Lemma shares_same q q' : same_counts q q' → shares_ok q → shares_ok q'.
Proof.
  intros [] []. split; unfold devItems, devBytes, evItems, evBytes in *;
    rewrite ?sc_cfg0, ?sc_entries0, ?sc_laneItems0, ?sc_laneBytes0, ?sc_deviceItems0, ?sc_deviceBytes0; done.
Qed.

Lemma bump_default {K} `{Countable K} (k k' : K) n (m : gmap K Z) :
  default 0 (bump k n m !! k') = default 0 (m !! k') + (if decide (k = k') then n else 0).
Proof.
  unfold bump. case_decide as E; [subst; by rewrite lookup_insert_eq|rewrite lookup_insert_ne by done; lia].
Qed.

(** A lane holds no more than its device. *)
Lemma lane_le_device q d :
  qinv q → 0 ≤ evBytes q d ≤ devBytes q d ∧ devBytes q d ≤ bytes q.
Proof.
  intros Hq. unfold evBytes, devBytes.
  destruct (idx_ok_default _ _ _ _ _ (MkLaneKey d LaneEvidence) (qi_lanes _ Hq)) as [_ ->].
  destruct (idx_ok_default _ _ _ _ _ d (qi_devs _ Hq)) as [_ ->]. rewrite (qi_bytes _ Hq).
  assert (∀ x, 0 ≤ sizeF q x) as Hpos.
  { intros x. unfold sizeF. destruct (sizes q !! x) eqn:E; cbn; [apply (qi_pos _ Hq) in E|]; lia. }
  unfold tot. split; [split|].
  - apply zsum_nonneg. intros x _. pose proof (Hpos x). case_decide; lia.
  - apply zsum_le. intros x _. pose proof (Hpos x). unfold laneF, devF.
    destruct (laneOf q !! x) as [[d' l]|]; cbn; repeat case_decide; try lia; naive_solver.
  - apply zsum_le. intros x _. pose proof (Hpos x). case_decide; lia.
Qed.

(** What the share checks of an admission give. *)
Lemma share_items_ok key q :
  reserved (cfg q) = true → laneShareRefusalLocked key 0 q = Ok tt →
  devItems q (lk_Device key) < shareItems (cfg q) ∧
  (lk_Lane key = LaneEvidence → evItems q (lk_Device key) < shareItems (cfg q) - 1).
Proof.
  intros Hr. unfold laneShareRefusalLocked. rewrite Hr, Z.eqb_refl. fold (devItems q (lk_Device key)).
  destruct (_ || _) eqn:E; [done|]. intros _. apply orb_false_iff in E as [E1 E2]. split; [lia|].
  intros Hl. destruct key as [d l]. cbn [lk_Lane lk_Device] in *. subst l. rewrite bool_decide_eq_false_2 in E2 by done.
  cbn [negb andb] in E2. unfold evItems. lia.
Qed.

Lemma share_bytes_ok key n q :
  qinv q → reserved (cfg q) = true → 0 < n ≤ 2 ^ 61 → laneShareRefusalLocked key n q = Ok tt →
  devBytes q (lk_Device key) + n ≤ shareBytes (cfg q) ∧
  (lk_Lane key = LaneEvidence → evBytes q (lk_Device key) + n ≤ shareBytes (cfg q) - maxQueueRecordBytes).
Proof.
  intros Hq Hr Hn. unfold laneShareRefusalLocked. rewrite Hr. fold (devBytes q (lk_Device key)).
  pose proof (lane_le_device q (lk_Device key) Hq). pose proof (qi_maxBytes _ Hq). pose proof (co_bytes _ (qi_cfg _ Hq)).
  destruct (Z.eqb_spec n 0); [lia|]. destruct (_ || _) eqn:E; [done|]. intros _. apply orb_false_iff in E as [E1 E2].
  rewrite wrap64_id in E1 by (unfold in_i64, i64_min, i64_max; lia). split; [lia|].
  intros Hl. destruct key as [d l]. cbn [lk_Lane lk_Device] in *. subst l. rewrite bool_decide_eq_false_2 in E2 by done.
  cbn [negb andb] in E2. unfold evBytes in *.
  rewrite wrap64_id in E2 by (unfold in_i64, i64_min, i64_max; lia). lia.
Qed.

Lemma shares_commit q r n :
  qinv q → shares_ok q → 0 < n ≤ 2 ^ 61 → lk_Device (recordLane r) ∈ c →
  laneShareRefusalLocked (recordLane r) 0 q = Ok tt → laneShareRefusalLocked (recordLane r) n q = Ok tt →
  shares_ok (commitEntry r n q).
Proof.
  intros Hq [Hc Hd Hdi Hdb Hei Heb] Hn Hconf H0 H1.
  destruct (commit_counters q r n) as (Eli & Elb & Edi & Edb & _ & _).
  apply share_items_ok in H0 as [I1 I2]; [|apply Hc]. apply share_bytes_ok in H1 as [B1 B2]; [|done|apply Hc|done].
  split; unfold devItems, devBytes, evItems, evBytes in *;
    rewrite ?commit_cfg, ?commit_entries, ?Eli, ?Elb, ?Edi, ?Edb; [done| |intros d; rewrite bump_default..].
  - intros id r' [[_ <-]|[_ H]]%lookup_insert_Some; [done|by eapply Hd].
  - specialize (Hdi d). case_decide; [subst; lia|lia].
  - specialize (Hdb d). case_decide; [subst; lia|lia].
  - specialize (Hei d). case_decide as E; [rewrite E in *; cbn in *; specialize (I2 eq_refl); lia|lia].
  - specialize (Heb d). case_decide as E; [rewrite E in *; cbn in *; specialize (B2 eq_refl); lia|lia].
Qed.

Lemma unbump_default {K} `{Countable K} (k k' : K) n (items sums items' sums' : gmap K Z) :
  0 ≤ n → 0 ≤ default 0 (items !! k) → n ≤ default 0 (sums !! k) → unbump k n items sums = (items', sums') →
  default 0 (items' !! k') ≤ Z.max 0 (default 0 (items !! k')) ∧ default 0 (sums' !! k') ≤ Z.max 0 (default 0 (sums !! k')).
Proof.
  intros Hn H1 H2. unfold unbump, bump. rewrite lookup_insert_eq. cbn [default].
  destruct (decide (k = k')) as [<-|Hne].
  - destruct (_ <=? _); intros [= <- <-]; rewrite ?lookup_delete_eq, ?lookup_insert_eq; cbn [default from_option id]; lia.
  - destruct (_ <=? _); intros [= <- <-]; rewrite ?lookup_delete_ne, ?lookup_insert_ne by done; lia.
Qed.

Lemma idx_entry {K} `{Countable K} (items sums : gmap K Z) kf sz l x k :
  idx_ok items sums kf sz l → (∀ y, 0 ≤ sz y) → x ∈ l → kf x = Some k →
  0 ≤ default 0 (items !! k) ∧ sz x ≤ default 0 (sums !! k).
Proof.
  intros Hok Hp Hx Hk. destruct (idx_ok_default _ _ _ _ _ k Hok) as [-> ->]. split; [apply cnt_nonneg|].
  unfold tot. etransitivity; [|apply (zsum_elem_le _ _ x); [|done]].
  - cbn beta. rewrite decide_True by done. done.
  - intros y _. cbn beta. case_decide; [done|lia].
Qed.

Lemma shares_drop q q1 id r :
  qinv q → shares_ok q → same_counts q q1 → entries q !! id = Some r → shares_ok (dropEntry id q1).
Proof.
  intros Hq Hsh Hsame Hr. pose proof (shares_same _ _ Hsame Hsh) as [Hc Hd Hdi Hdb Hei Heb].
  destruct (drop_fields q1 id) as (Ee & _ & _ & _ & Ecfg & _ & _ & _ & _ & _ & _ & Hli & Hdv).
  assert (laneOf q1 !! id = Some (recordLane r)) as Hl by (rewrite (sc_laneOf _ _ Hsame), (qi_lane _ Hq), Hr; done).
  rewrite Hl in Hli, Hdv. cbn [default] in Hli, Hdv.
  assert (sizeF q1 id = sizeF q id) as Hsz by (unfold sizeF; by rewrite (sc_sizes _ _ Hsame)).
  assert (∀ x, 0 ≤ sizeF q x) as Hpos.
  { intros x. unfold sizeF. destruct (sizes q !! x) eqn:E; cbn; [apply (qi_pos _ Hq) in E|]; lia. }
  assert (id ∈ order q) as Hin by (apply (qi_order _ Hq); eauto).
  rewrite Hsz, (sc_laneItems _ _ Hsame), (sc_laneBytes _ _ Hsame) in Hli.
  rewrite Hsz, (sc_deviceItems _ _ Hsame), (sc_deviceBytes _ _ Hsame) in Hdv.
  destruct (idx_entry _ _ _ _ _ id (recordLane r) (qi_lanes _ Hq) Hpos Hin) as [L1 L2].
  { unfold laneF. by rewrite (qi_lane _ Hq), Hr. }
  destruct (idx_entry _ _ _ _ _ id (lk_Device (recordLane r)) (qi_devs _ Hq) Hpos Hin) as [D1 D2].
  { unfold devF. by rewrite (qi_lane _ Hq), Hr. }
  pose proof (rv_minItems _ Hc). pose proof (rv_minBytes _ Hc).
  assert (0 < maxQueueRecordBytes ∧ maxQueueRecordBytes < MinDeviceShareBytes ∧ MinDeviceShareItems = 2) by done.
  destruct Hsame. unfold devItems, devBytes, evItems, evBytes in *.
  split; unfold devItems, devBytes, evItems, evBytes; rewrite ?Ecfg; [done| | | | |].
  { intros x a. rewrite Ee, lookup_delete_Some. intros [_ ?]. by eapply Hd. }
  all: intros d; specialize (Hdi d); specialize (Hdb d); specialize (Hei d); specialize (Heb d).
  all: rewrite sc_laneItems0, sc_laneBytes0, sc_deviceItems0, sc_deviceBytes0 in *.
  1,2: destruct (unbump_default _ d _ _ _ _ _ (Hpos id) D1 D2 (eq_sym Hdv)); lia.
  all: destruct (unbump_default _ (MkLaneKey d LaneEvidence) _ _ _ _ _ (Hpos id) L1 L2 (eq_sym Hli)); lia.
Qed.

Definition share_inv (x : qconf) : Prop := life_inv x ∧ shares_ok (sq x.1).

Lemma qop_shares x y : qop x y → share_inv x → share_inv y.
Proof.
  intros H [Hl Hs]. split; [by eapply qop_inv|]. pose proof Hl as [Hq _]. cbn in Hq.
  destruct H as [nowMS kind payload s a s' D Hn Hp Hseq H|h s a s' D H|b s a s' D H|id s a s' D H|id s a s' D H
  |body s a s' D H|device s a s' D H|device s D]; cbn [fst] in *.
  - apply enqueueOrFind_cases in H as [[-> _]|(Hnew & Hk & Hpl & b & Hi & _)]; [done|].
    destruct Hi as [e|e s1 r0 Hw|s1 r0 Hcf Hi Hs1 Hn1 Hb Hs2 Hw]; [done|by rewrite (writeRecord_sq _ _ _ _ _ Hw)|].
    cbn [sq]. rewrite (writeRecord_sq _ _ _ _ _ Hw). apply shares_commit; [done..| | |done|done].
    + apply encoded_small; [by apply new_record_wf|done].
    + unfold Configured in Hcf. rewrite (rv_configured _ (sh_cfg _ Hs)) in Hcf. by apply bool_decide_eq_true in Hcf.
  - eapply shares_same; [by eapply HoldOp_counts|done].
  - eapply shares_same; [by eapply SetBackoff_counts|done].
  - eapply shares_same; [by eapply ClearBackoff_counts|done].
  - apply Remove_counts in H as [H|(q1 & r & H & Hr & ->)]; [by eapply shares_same|by eapply shares_drop].
  - eapply shares_same; [by eapply ProbeOp_counts|done].
  - eapply shares_same; [by eapply NoteUnconfiguredDevice_counts|done].
  - eapply shares_same; [apply NoteAdmittedDevice_counts|done].
Qed.

Lemma qops_shares x y : rtc qop x y → share_inv x → share_inv y.
Proof. induction 1; eauto using qop_shares. Qed.

(** The whole queue is the sum of the configured devices' shares of it. *)
Lemma size_order q : qinv q → Z.of_nat (size (entries q)) = Z.of_nat (length (order q)).
Proof.
  intros Hq. f_equal. rewrite <-size_dom. rewrite <-(size_list_to_set (C := gset string) (order q)) by apply (qi_nodup _ Hq).
  f_equal. apply set_eq. intros x. by rewrite elem_of_dom, elem_of_list_to_set, (qi_order _ Hq).
Qed.

Lemma queue_by_device q :
  qinv q → shares_ok q →
  Z.of_nat (size (entries q)) = zsum (devItems q) (elements c) ∧ bytes q = zsum (devBytes q) (elements c).
Proof.
  intros Hq Hs.
  assert (∀ x, x ∈ order q → ∃ k, k ∈ elements c ∧ devF q x = Some k) as Hcov.
  { intros x [r Hr]%(qi_order _ Hq). exists (lk_Device (recordLane r)). rewrite elem_of_elements.
    split; [by eapply sh_conf|]. unfold devF. by rewrite (qi_lane _ Hq), Hr. }
  split.
  - rewrite size_order, <-zsum_const1 by done. rewrite <-(tot_cover (devF q) _ _ _ (NoDup_elements c) Hcov).
    apply zsum_ext. intros d _. unfold devItems.
    by destruct (idx_ok_default _ _ _ _ _ d (qi_devs _ Hq)) as [-> _].
  - rewrite (qi_bytes _ Hq). rewrite <-(tot_cover (devF q) _ _ _ (NoDup_elements c) Hcov).
    apply zsum_ext. intros d _. unfold devBytes.
    by destruct (idx_ok_default _ _ _ _ _ d (qi_devs _ Hq)) as [_ ->].
Qed.

(** One device below its share leaves that much of the whole. *)
Lemma zsum_room (f : string → Z) d share n total :
  d ∈ c → (∀ x, f x ≤ share) → f d + n ≤ share → Z.of_nat (size c) * share ≤ total → zsum f (elements c) + n ≤ total.
Proof.
  intros Hd Hf Hroom Ht. apply elem_of_elements, list_elem_of_split in Hd as (l1 & l2 & E).
  assert (∀ l, zsum f l ≤ Z.of_nat (length l) * share) as Hle.
  { intros l. induction l as [|x l IH]; [cbn; lia|]. rewrite zsum_cons. cbn [length]. specialize (Hf x). lia. }
  assert (size c = (length l1 + S (length l2))%nat) as Es.
  { unfold size, set_size. cbn. by rewrite E, length_app. }
  rewrite E, zsum_app, zsum_cons. pose proof (Hle l1). pose proof (Hle l2). rewrite Es in Ht. lia.
Qed.

(** A device with no registration queued holds only evidence. *)
Lemma device_is_evidence q d :
  qinv q → default 0 (laneItems q !! MkLaneKey d LaneRegistration) = 0 →
  devItems q d = evItems q d ∧ devBytes q d = evBytes q d.
Proof.
  intros Hq. unfold devItems, evItems, devBytes, evBytes.
  destruct (idx_ok_default _ _ _ _ _ (MkLaneKey d LaneRegistration) (qi_lanes _ Hq)) as [-> _].
  destruct (idx_ok_default _ _ _ _ _ (MkLaneKey d LaneEvidence) (qi_lanes _ Hq)) as [-> ->].
  destruct (idx_ok_default _ _ _ _ _ d (qi_devs _ Hq)) as [-> ->]. unfold cnt, tot.
  induction (order q) as [|x l IH]; [done|]. rewrite !zsum_cons. intros H.
  pose proof (cnt_nonneg (laneF q) (MkLaneKey d LaneRegistration) l) as Hn. unfold cnt in Hn.
  assert (laneF q x ≠ Some (MkLaneKey d LaneRegistration)) as Hx by (intros E; rewrite decide_True in H by done; lia).
  rewrite decide_False in H by done. destruct (IH H) as [-> ->].
  assert (devF q x = Some d ↔ laneF q x = Some (MkLaneKey d LaneEvidence)) as Hiff.
  { unfold devF, laneF in *. destruct (laneOf q !! x) as [[d' []]|]; cbn; split; intros E; simplify_eq; done. }
  repeat case_decide; tauto || lia.
Qed.

(** The capacity checks an anchor registration meets. *)
Lemma registration_fits q d n :
  qinv q → shares_ok q → d ∈ c → default 0 (laneItems q !! MkLaneKey d LaneRegistration) = 0 →
  0 < n ≤ maxQueueRecordBytes →
  Z.of_nat (size (entries q)) < maxItems (cfg q) ∧
  laneShareRefusalLocked (MkLaneKey d LaneRegistration) 0 q = Ok tt ∧
  wrap64 (bytes q + n) ≤ maxBytes (cfg q) ∧
  laneShareRefusalLocked (MkLaneKey d LaneRegistration) n q = Ok tt.
Proof.
  intros Hq Hs Hd H0 Hn. destruct (device_is_evidence q d Hq H0) as [Ei Eb].
  destruct (queue_by_device q Hq Hs) as [Ti Tb]. pose proof (sh_cfg _ Hs) as Hc.
  pose proof (sh_evItems _ Hs d). pose proof (sh_evBytes _ Hs d).
  pose proof (lane_le_device q d Hq). pose proof (qi_maxBytes _ Hq). pose proof (co_bytes _ (qi_cfg _ Hq)).
  assert (maxQueueRecordBytes < 2 ^ 40) by done.
  assert (wrap64 (bytes q + n) = bytes q + n) as -> by (apply wrap64_id; unfold in_i64, i64_min, i64_max; lia).
  pose proof (zsum_room (devItems q) d _ 1 _ Hd (sh_devItems _ Hs) ltac:(lia) (rv_items _ Hc)).
  pose proof (zsum_room (devBytes q) d _ n _ Hd (sh_devBytes _ Hs) ltac:(lia) (rv_bytes _ Hc)).
  split_and!; [lia| |lia|]; unfold laneShareRefusalLocked; cbn [lk_Device lk_Lane]; fold (devItems q d) (devBytes q d);
    rewrite bool_decide_eq_true_2, andb_false_r, orb_false_r by done; cbn [andb]; rewrite ?orb_false_r.
  - rewrite Z.eqb_refl. destruct (Z.leb_spec (shareItems (cfg q)) (devItems q d)); [lia|done].
  - destruct (Z.eqb_spec n 0); [lia|]. rewrite wrap64_id by (unfold in_i64, i64_min, i64_max; lia).
    destruct (Z.ltb_spec (shareBytes (cfg q)) (devBytes q d + n)); [lia|done].
Qed.

Lemma shares_empty g : reserving g → shares_ok (emptyQueue g).
Proof.
  intros Hg. pose proof (rv_minItems _ Hg). pose proof (rv_minBytes _ Hg).
  assert (0 < maxQueueRecordBytes ∧ maxQueueRecordBytes < MinDeviceShareBytes ∧ MinDeviceShareItems = 2) by done.
  split; [done|done|..]; intros d; cbn [devItems devBytes evItems evBytes];
    unfold devItems, devBytes, evItems, evBytes, emptyQueue; cbn [deviceItems deviceBytes laneItems laneBytes cfg];
    rewrite lookup_empty; cbn [default]; change (from_option id 0 None) with 0; lia.
Qed.
End Shares.

(** ** The reserve's contract *)

(** Whatever a device's evidence lane has queued, and however full the
    other devices' shares are, an anchor registration of that device is never
    refused for capacity while none is queued: in every history of a queue
    with reserved shares it can fail only in the store, and on a healthy disk
    it is admitted. *)
Theorem registration_reserve c s0 s D nowMS payload a s' :
  share_inv c (s0, ∅) → rtc qop (s0, ∅) (s, D) →
  recordDevice payload ∈ c → LenLane (MkLaneKey (recordDevice payload) LaneRegistration) (sq s) = 0 →
  payload ≠ "" → slen payload ≤ maxArtifactBytes → 0 < nowMS ≤ i64_max →
  Enqueue nowMS ArtifactAnchorRegistration payload s = (a, s') →
  (is_ok a = true ∨ ∃ msg, a = Err (EMsg msg)) ∧ (d_io (sd s) = [] → is_ok a = true).
Proof.
  intros H0 Hrun Hd Hlane Hp Hsz Hnow H. destruct (qops_shares _ _ _ Hrun H0) as [[Hq _] Hs]. cbn [fst] in Hq, Hs.
  change (Enqueue nowMS ArtifactAnchorRegistration payload) with (enqueue nowMS ArtifactAnchorRegistration payload) in H.
  unfold enqueue, ebind, enqueueOrFind in H. cbn [negb] in H.
  change (validQueueArtifactType ArtifactAnchorRegistration) with true in H. cbn [negb] in H.
  rewrite decide_False in H by done. cbv zeta in H.
  destruct (entries (sq s) !! _); [injection H as <- <-; cbn; auto|].
  set (r := MkRecord queueRecordVersion (artifactID ArtifactAnchorRegistration payload) ArtifactAnchorRegistration
              (nextSeq (sq s)) nowMS payload).
  assert (record_wf r) as Hwf by (by apply new_record_wf).
  assert (0 < slen (encodeRecord r)) as Hpos.
  { apply encoded_small; [done|]. unfold maxArtifactBytes in Hsz. cbn. lia. }
  pose proof (encodeRecord_bound r Hwf ltac:(done) Hsz) as Hb.
  change (LaneOf (qr_Type r)) with LaneRegistration in Hb. cbv match in Hb.
  destruct (registration_fits c (sq s) _ (slen (encodeRecord r)) Hq Hs Hd Hlane ltac:(lia)) as (F1 & F2 & F3 & F4).
  unfold insertLocked in H. cbv zeta in H. rewrite (rv_configured _ _ (sh_cfg _ _ Hs)) in H.
  rewrite bool_decide_eq_true_2 in H by done. cbn [negb] in H.
  change (LaneOf ArtifactAnchorRegistration) with LaneRegistration in H.
  destruct (Z.leb_spec (maxItems (cfg (sq s))) (Z.of_nat (size (entries (sq s))))); [lia|]. rewrite F2 in H.
  destruct (Z.leb_spec nowMS 0); [lia|]. fold r in H.
  destruct (Z.ltb_spec (maxBytes (cfg (sq s))) (wrap64 (bytes (sq s) + slen (encodeRecord r)))); [lia|]. rewrite F4 in H.
  destruct (writeRecord r (encodeRecord r) s) as [[[]|e] s1] eqn:Ew; injection H as <- <-; [cbn; auto|].
  unfold writeRecord in Ew. apply writeFileAtomic_dir in Ew. split.
  - right. destruct (writeFileAtomicRaw_msg _ _ _ _ _ _ Ew) as [msg ->]. eauto.
  - intros Hio. destruct (writeFileAtomicRaw_healthy queueTempPrefix (recordFile (qr_ID r)) (encodeRecord r) _ Hio) as [d' E].
    rewrite E in Ew. done.
Qed.

Definition exShares : QueueOptions := MkOptions "queue" 4 6000000 ["a"; "b"] true [] "outbound".
Definition exShared : qst :=
  MkSt (emptyQueue (match buildConfig exShares with Ok g => g | Err _ => MkConfig 0 0 false ∅ None 0 0 "" end))
    (reboot ∅ []) Faults.NewRecorder.

Lemma registration_reserve_witness :
  let payload := dq "{'device_id':'a','local_seq':1}" in
  is_ok (Enqueue 1000 ArtifactAnchorRegistration payload exShared).1 = true.
Proof.
  intros payload.
  apply (registration_reserve (list_to_set ["a"; "b"]) exShared exShared ∅ 1000 payload _
           (Enqueue 1000 ArtifactAnchorRegistration payload exShared).2).
  - assert (buildConfig exShares = Ok (cfg (sq exShared))) as E by (vm_compute; reflexivity). split.
    + apply life_empty. by apply (buildConfig_ok exShares).
    + apply shares_empty. by apply (buildConfig_reserving _ exShares).
  - apply rtc_refl.
  - apply (bool_decide_unpack _). vm_compute. exact I.
  - vm_compute. reflexivity.
  - discriminate.
  - vm_compute. discriminate.
  - done.
  - apply surjective_pairing.
  - reflexivity.
Defined.
End QueueShares.
