(* ===== verification/SigningClock.v ===== *)
(** * The signing clock (evidence/signingclock/signingclock.go)

    The high-water mark of one family of signed messages: persisted before a
    time is handed out, so that no restart can hand one out again. *)
From S2P Require Import Prelude GoBytes Json Store.
Import Store.

Module SigningClock.
Local Open Scope em_scope.

Definition FilePrefix : string := ".ori-signed-at-".
Definition outboundAckSigningName : string := FilePrefix +:+ "outbound-ack".
Definition inboundReturnSigningName : string := FilePrefix +:+ "inbound-return".

Record Clock := MkClock { c_name : string; c_last : Z }.

Definition lf : string := String (bc 10) "".

(** [openSigningClock]: [dir] is only checked to be given. *)
Definition openSigningClock (dir name : string) : EM dirst Clock :=
  if decide (dir = "") then efail (EMsg "evidence: signing clock requires a directory")
  else
    found <- sys "evidence: read acknowledgement clock" (λ d, (d_vol d !! name, d)) ;;
    match found with
    | None => eret (MkClock name 0)
    | Some f =>
      if negb (regular f) then efail (EMsg "evidence: acknowledgement clock is not a regular file")
      else
        body <- sys "evidence: read acknowledgement clock" (λ d, (f_data f, d)) ;;
        match ParseInt (TrimSpace body) with
        | Some last => if last <? 0 then efail (EMsg "evidence: acknowledgement clock is corrupt")
                       else eret (MkClock name last)
        | None => efail (EMsg "evidence: acknowledgement clock is corrupt")
        end
    end.

Definition persist (c : Clock) (at_ : Z) : EM dirst unit :=
  atomicWrite (Texts "evidence: stage acknowledgement clock" "evidence: protect acknowledgement clock"
      "evidence: write acknowledgement clock" "evidence: sync acknowledgement clock"
      "evidence: close acknowledgement clock" "evidence: commit acknowledgement clock"
      "evidence: persist acknowledgement clock")
    (c_name c +:+ ".") (c_name c) (FormatInt at_ +:+ lf).

(** [Next], on the clock and its directory; [now] is what the wall clock reads. *)
Definition Next (now : Z) (c : Clock) (d : dirst) : res Z * Clock * dirst :=
  let at_ := if now <=? c_last c then wrap64 (c_last c + 1) else now in
  match persist c at_ d with
  | (Err e, d') => (Err e, c, d')
  | (Ok _, d') => (Ok at_, MkClock (c_name c) at_, d')
  end.

(** ** The mark is never behind what was issued *)
Section Mark.
Implicit Types (c : Clock) (d : dirst) (n : string).

(** A clock file that reads as at least [lo]. *)
Definition reads (lo : Z) (o : option file) : Prop :=
  match o with
  | Some f => f_kind f = FRegular ∧ ∃ v, ParseInt (TrimSpace (f_data f)) = Some v ∧ lo ≤ v
  | None => False
  end.

Definition marks (lo : Z) (o : option file) : Prop :=
  reads lo o ∧ from_option f_synced true o = true.

(** Once a time was issued, every value the disk may be found with is at
    least the last one. *)
Definition clock_inv c d : Prop :=
  0 ≤ c_last c ≤ i64_max ∧ (0 < c_last c → values_at (marks (c_last c)) (c_name c) d).

Lemma blank_digit ch s : is_digit ch = true → blank (String ch s) = false.
Proof.
  intros H. unfold is_digit, in_rng in H. unfold blank. cbn [runes].
  replace (bv ch <? 128) with true by lia. cbn [forallb fst].
  replace (is_space_rune (bv ch)) with false; [done|]. unfold is_space_rune, in_rng. lia.
Qed.

Lemma trimRight_digits t : digits t = true → trimRight (t +:+ lf) = t.
Proof.
  induction t as [|ch t IH]; [done|]. cbn [digits]. intros [H1 H2]%andb_true_iff. rewrite sapp_cons.
  cbn [trimRight]. rewrite blank_digit by done. by rewrite IH.
Qed.

Lemma TrimSpace_mark v : 0 ≤ v ≤ i64_max → TrimSpace (FormatInt v +:+ lf) = FormatInt v.
Proof.
  intros (d & t & -> & Hd & Ht & _)%FormatInt_num_ok. rewrite sapp_cons. unfold TrimSpace.
  assert (trimLeft (String (digit d) (t +:+ lf)) = String (digit d) (t +:+ lf)) as ->.
  { cbn [trimLeft]. cbn [runes]. rewrite bv_digit by done. replace (48 + d <? 128) with true by lia.
    replace (is_space_rune (48 + d)) with false; [done|]. unfold is_space_rune, in_rng. lia. }
  rewrite <-sapp_cons. apply trimRight_digits. cbn [digits]. by rewrite is_digit_digit.
Qed.

Lemma marks_written lo v : 0 ≤ lo ≤ v → v ≤ i64_max → marks lo (Some (File FRegular 384 (FormatInt v +:+ lf) true)).
Proof.
  intros H1 H2. split; [|done]. split; [done|]. exists v. cbn [f_data].
  rewrite TrimSpace_mark, ParseInt_FormatInt by lia. split; [done|lia].
Qed.

Lemma name_not_temp n : hasPrefix n (n +:+ ".") = false.
Proof.
  destruct (hasPrefix n (n +:+ ".")) eqn:E; [|done]. apply hasPrefix_drop in E as [r E].
  apply (f_equal slen) in E. rewrite !slen_app in E. change (slen ".") with 1 in E. pose proof (slen_nonneg r). lia.
Qed.

Lemma next_time now c :
  now ≤ i64_max → 0 ≤ c_last c < i64_max →
  let at_ := if now <=? c_last c then wrap64 (c_last c + 1) else now in
  c_last c < at_ ≤ i64_max ∧ now ≤ at_.
Proof.
  intros Hn Hc. cbv zeta. destruct (Z.leb_spec now (c_last c)); [|lia].
  rewrite wrap64_id by (unfold in_i64, i64_min, i64_max in *; lia). lia.
Qed.

Lemma Next_inv now c d r c' d' :
  now ≤ i64_max → c_last c < i64_max → clock_inv c d → Next now c d = (r, c', d') →
  clock_inv c' d' ∧ c_name c' = c_name c ∧
  match r with
  | Ok t => c_last c < t ∧ now ≤ t ∧ c_last c' = t ∧
            durably d' (c_name c) (File FRegular 384 (FormatInt t +:+ lf) true)
  | Err _ => c' = c
  end.
Proof.
  intros Hn Hc [Hr Hi] H. unfold Next in H.
  destruct (next_time now c Hn ltac:(lia)) as [[T1 T2] T3]. cbv zeta in H.
  set (at_ := if now <=? c_last c then _ else _) in *.
  assert (marks (c_last c) (Some (File FRegular 384 (FormatInt at_ +:+ lf) true))) as Hm.
  { apply marks_written; lia. }
  destruct (persist c at_ d) as [[[]|e] d1] eqn:E; injection H as <- <- <-; unfold persist in E.
  - pose proof (atomicWrite_ok _ _ _ _ _ _ _ (name_not_temp _) E) as (L & D & Hd). cbn. split; [split; cbn; [lia|]|].
    + intros _. destruct Hd as (V & D' & _ & Hl). unfold values_at. rewrite V, D', L.
      assert (marks at_ (Some (File FRegular 384 (FormatInt at_ +:+ lf) true))) by (apply marks_written; lia).
      split; [done|]. split; [done|]. intros o Ho. by apply not_elem_of_nil in Ho.
    + split; [done|]. split_and!; [lia|lia|done|done].
  - split; [split; [lia|]|done]. intros Hp. eapply atomicWrite_values; [apply name_not_temp|exact Hm|by apply Hi|exact E].
Qed.

(** What a crash leaves reopens at or past the last issued time. *)
Lemma reopen_inv c d m io dir c' d' :
  clock_inv c d → crash d m → openSigningClock dir (c_name c) (reboot m io) = (Ok c', d') →
  clock_inv c' d' ∧ c_last c ≤ c_last c' ∧ c_name c' = c_name c.
Proof.
  intros [Hr Hi] Hc H. unfold openSigningClock in H. case_decide; [done|].
  apply ebind_ok in H as (found & d1 & H1 & H). apply sys_ok in H1 as (d0 & V0 & D0 & L0 & [= <- <-]).
  rewrite V0 in H. cbn in H. rewrite lookup_fmap in H.
  assert (0 < c_last c → reads (c_last c) (m !! c_name c)) as Hm.
  { intros Hp. eapply values_crash; [|by apply Hi|exact Hc].
    intros [f|] [f'|] Hl [Hf Hs]; try done. destruct Hl as (E1 & _ & E3). cbn in *. by rewrite E1, E3. }
  destruct (m !! c_name c) as [f|] eqn:Em; cbn in H.
  2: { injection H as <- <-. assert (c_last c = 0) by (destruct (decide (0 < c_last c)); [by destruct Hm|lia]).
       cbn. split; [split; cbn; [unfold i64_max; lia|lia]|]. split; [lia|done]. }
  destruct (negb _) eqn:Er; [done|]. apply negb_false_iff, bool_decide_eq_true in Er. cbn in Er.
  apply ebind_ok in H as (body & d2 & H2 & H). apply sys_ok in H2 as (d1 & V1 & D1 & L1 & [= <- <-]).
  destruct (ParseInt (TrimSpace (f_data f))) as [v|] eqn:Ev; [|done]. destruct (Z.ltb_spec v 0); [done|].
  injection H as <- <-. cbn. split; [split; cbn|split; [|done]].
  - pose proof (ParseInt_range _ _ Ev) as Hv. unfold in_i64 in Hv. lia.
  - intros _. assert (marks v (Some (settled f))) as Hmv by (split; [split; [done|]|done]; exists v; split; [done|lia]).
    unfold values_at. rewrite V1, V0, D1, D0, L1, L0. cbn. rewrite lookup_fmap, Em. cbn.
    split; [done|]. split; [done|]. intros o Ho. by apply not_elem_of_nil in Ho.
  - destruct (decide (0 < c_last c)) as [Hp|]; [|lia]. destruct (Hm Hp) as (_ & v' & Hv' & ?). 
    rewrite Ev in Hv'. injection Hv' as ->. lia.
Qed.

(** ** Histories

    The times issued so far, newest first, beside the clock and the
    directory it shares with the queue's own writes. *)
Definition cconf : Type := Clock * dirst * list Z.

Inductive cstep : cconf → cconf → Prop :=
| cstep_issued now c d issued t c' d' :
    now ≤ i64_max → c_last c < i64_max → Next now c d = (Ok t, c', d') →
    cstep (c, d, issued) (c', d', t :: issued)
| cstep_refused now c d issued e c' d' :
    now ≤ i64_max → c_last c < i64_max → Next now c d = (Err e, c', d') →
    cstep (c, d, issued) (c', d', issued)
| cstep_other c d issued d' : same_at (c_name c) d d' → cstep (c, d, issued) (c, d', issued)
| cstep_restart c d issued m io dir c' d' :
    crash d m → openSigningClock dir (c_name c) (reboot m io) = (Ok c', d') →
    cstep (c, d, issued) (c', d', issued).

Definition issued_inv (x : cconf) : Prop :=
  clock_inv x.1.1 x.1.2 ∧ StronglySorted (λ a b, b < a) x.2 ∧ Forall (λ t, t ≤ c_last x.1.1) x.2.

Lemma cstep_inv x y : cstep x y → issued_inv x → issued_inv y.
Proof.
  intros H (Hi & Hs & Hf). destruct H as [now c d issued t c' d' Hn Hc H|now c d issued e c' d' Hn Hc H
    |c d issued d' H|c d issued m io dir c' d' Hc H]; cbn in *.
  - destruct (Next_inv _ _ _ _ _ _ Hn Hc Hi H) as (Hi' & _ & Ht & _ & El & _). split; [done|]. cbn. rewrite El.
    split; [constructor; [done|]|constructor; [done|]]; (eapply Forall_impl; [exact Hf|]); cbn; intros; lia.
  - destruct (Next_inv _ _ _ _ _ _ Hn Hc Hi H) as (Hi' & _ & ->). by split.
  - split; [|by split]. destruct Hi as [Hr Hv]. split; [done|]. intros Hp. eapply values_same; [exact H|by apply Hv].
  - destruct (reopen_inv _ _ _ _ _ _ _ Hi Hc H) as (Hi' & Hle & _). split; [done|]. cbn. split; [done|].
    eapply Forall_impl; [exact Hf|]. cbn. intros; lia.
Qed.

Lemma csteps_inv x y : rtc cstep x y → issued_inv x → issued_inv y.
Proof. induction 1; eauto using cstep_inv. Qed.
End Mark.

(** Signing times of one family are strictly increasing for ever: across
    calls, failed calls, crashes at any point and restarts, whatever the wall
    clock does meanwhile, every time issued is later than every time issued
    before it, so no envelope of durable state is ever signed twice alike. *)
Theorem signing_times_increase dir name m io c0 d0 c d issued :
  openSigningClock dir name (reboot m io) = (Ok c0, d0) → rtc cstep (c0, d0, []) (c, d, issued) →
  StronglySorted (λ a b, b < a) issued.
Proof.
  intros Ho Hr. assert (clock_inv (MkClock name 0) (reboot m io)) as H0 by (split; cbn; [unfold i64_max|]; lia).
  destruct (reopen_inv (MkClock name 0) (reboot m io) m io dir c0 d0 H0) as (Hi & _); [|done|].
  - intros n. left. cbn. rewrite lookup_fmap. by destruct (m !! n).
  - apply (csteps_inv _ _ Hr). split; [done|]. by repeat constructor.
Qed.

Definition exClock : Clock := MkClock outboundAckSigningName 0.

Lemma signing_times_increase_witness :
  let '(r1, c1, d1) := Next 5000 exClock (reboot ∅ []) in
  let '(r2, c2, d2) := Next 4000 c1 d1 in
  r2 = Ok 5001 ∧ StronglySorted (λ a b, b < a) [5001; 5000].
Proof.
  destruct (Next 5000 exClock (reboot ∅ [])) as [[r1 c1] d1] eqn:E1.
  destruct (Next 4000 c1 d1) as [[r2 c2] d2] eqn:E2.
  assert (r1 = Ok 5000 ∧ c1 = MkClock outboundAckSigningName 5000) as [-> ->].
  { split; [exact (f_equal (λ p, p.1.1) (eq_sym E1))|exact (f_equal (λ p, p.1.2) (eq_sym E1))]. }
  assert (r2 = Ok 5001) as ->.
  { apply (f_equal snd) in E1 as D1. cbn [snd] in D1. rewrite <-D1 in E2. exact (f_equal (λ p, p.1.1) (eq_sym E2)). }
  split; [reflexivity|].
  apply (signing_times_increase "q" outboundAckSigningName ∅ [] exClock (reboot ∅ []) c2 d2); [reflexivity|].
  eapply rtc_l; [eapply cstep_issued; [|  |exact E1]; cbn; unfold i64_max; lia|].
  eapply rtc_l; [eapply cstep_issued; [|  |exact E2]; cbn; unfold i64_max; lia|]. apply rtc_refl.
Defined.
End SigningClock.
