(* ===== verification/Custody.v ===== *)
(** * Custody acknowledgements (evidence/custody/custody.go)

    The HMAC by which the gateway states that it holds an envelope durably.
    The canonical JSON writer is another repository's code and a parameter. *)
From stdpp Require Import pretty.
From S2P Require Import Prelude GoBytes Sha256 Json.

Module Custody.

Definition Domain : string := "ori.evidence_custody_ack.v1".
Definition Version : Z := 1.
Definition macPrefix : string := "hmac-sha256:".
Definition sha256HexLen : Z := 64.
Definition custodyKeyIDSalt : string := "ori.evidence_custody_key_id.v1".
Definition custodyKeyIDInfo : string := "gateway_custody".
Definition custodyKeyIDPrefix : string := "hkdf-sha256:".
Definition custodyKeyIDBytes : nat := 16.

Record Acknowledgement := MkAck {
  k_V : Z; k_DeviceID : string; k_LocalSeq : Z; k_EnvelopeDigest : string;
  k_CustodyAtMS : Z; k_KeyID : string; k_MAC : string }.

Record Signer := MkSigner { sg_keyID : string; sg_secret : string }.

(** A value handed to the canonical writer: a JSON number's text or a string. *)
Inductive canon : Type := CNumber (lit : string) | CString (s : string).

#[global] Instance canon_eq_dec : EqDecision canon.
Proof. solve_decision. Defined.
#[global] Instance canon_countable : Countable canon.
Proof.
  refine (inj_countable' (λ c, match c with CNumber l => inl l | CString s => inr s end)
            (λ x, match x with inl l => CNumber l | inr s => CString s end) _). by intros [].
Defined.

Definition validateCustodySecret (secret : string) : res unit :=
  if decide (secret = "") then Err (EMsg "evidence: custody secret must not be empty")
  else if negb (bool_decide (TrimSpace secret = secret)) then
    Err (EMsg "evidence: custody secret must not carry leading or trailing whitespace")
  else Ok tt.

Definition DeriveKeyID (custodySecret : string) : res string :=
  match validateCustodySecret custodySecret with
  | Err e => Err e
  | Ok _ => Ok (custodyKeyIDPrefix +:+
                hexEncode (hkdf256 (bytes_of custodySecret) (bytes_of custodyKeyIDSalt) (bytes_of custodyKeyIDInfo) custodyKeyIDBytes))
  end.

Definition NewSigner (custodySecret : string) : res Signer :=
  match DeriveKeyID custodySecret with
  | Err e => Err e
  | Ok keyID => Ok (MkSigner keyID custodySecret)
  end.

Definition KeyID (s : option Signer) : string := match s with Some s => sg_keyID s | None => "" end.

Definition lowerHex (c : ascii) : bool := in_rng 48 57 (bv c) || in_rng 97 102 (bv c).
Fixpoint allLowerHex (s : string) : bool :=
  match s with EmptyString => true | String c r => lowerHex c && allLowerHex r end.

Definition validateSHA256Digest (digest : string) : res unit :=
  match dropPrefix digest "sha256:" with
  | None => Err (EMsg "evidence: envelope_digest must carry its algorithm prefix")
  | Some body =>
    if negb (slen body =? sha256HexLen) then Err (EMsg "evidence: envelope_digest must be 64 hex characters")
    else if negb (allLowerHex body) then Err (EMsg "evidence: envelope_digest must be lowercase hexadecimal")
    else Ok tt
  end.

Definition d011Integer (n : Z) (field : string) : res string :=
  if (MaxSafeInteger <? n) || (n <? - MaxSafeInteger) then Err (EMsg "evidence: integer is outside the D-011 integer zone")
  else Ok (FormatInt n).

(** The [mac] of one secret over [signed]. *)
Definition macOf (secret signed : string) : string :=
  macPrefix +:+ hexEncode (hmac256 (bytes_of secret) (bytes_of signed)).

Section Canonical.
(** [canonicaljson.Marshal] of a map from member names to values. *)
Context (Marshal : gmap string canon → res string).

Definition custodyMembers (ack : Acknowledgement) (version localSeq custodyAt : string) : gmap string canon :=
  list_to_map [("v", CNumber version); ("device_id", CString (k_DeviceID ack)); ("local_seq", CNumber localSeq);
    ("envelope_digest", CString (k_EnvelopeDigest ack)); ("custody_at_ms", CNumber custodyAt);
    ("key_id", CString (k_KeyID ack))].

Definition custodyCanonicalBody (ack : Acknowledgement) : res string :=
  match d011Integer (k_V ack) "v" with
  | Err e => Err e
  | Ok version =>
    match d011Integer (k_LocalSeq ack) "local_seq" with
    | Err e => Err e
    | Ok localSeq =>
      match d011Integer (k_CustodyAtMS ack) "custody_at_ms" with
      | Err e => Err e
      | Ok custodyAt => Marshal (custodyMembers ack version localSeq custodyAt)
      end
    end
  end.

Definition custodyPreimage (ack : Acknowledgement) : res string :=
  match custodyCanonicalBody ack with
  | Err e => Err e
  | Ok body => Ok (Domain +:+ String (bc 0) body)
  end.

(** The acknowledgement and the bytes that were authenticated. *)
Definition Acknowledge (s : option Signer) (deviceID : string) (localSeq : Z) (envelopeDigest : string)
    (custodyAtMS : Z) : res (Acknowledgement * string) :=
  match s with
  | None => Err (EMsg "evidence: nil custody signer")
  | Some s =>
    if decide (TrimSpace deviceID = "") then Err (EMsg "evidence: custody device_id must not be empty")
    else match validateSHA256Digest envelopeDigest with
    | Err e => Err e
    | Ok _ =>
      if localSeq <=? 0 then Err (EMsg "evidence: local_seq must be positive; delivery sequencing starts at 1")
      else if custodyAtMS <=? 0 then Err (EMsg "evidence: custody_at_ms must be positive")
      else
        let ack := MkAck Version deviceID localSeq envelopeDigest custodyAtMS (sg_keyID s) "" in
        match custodyPreimage ack with
        | Err e => Err e
        | Ok signed => Ok (MkAck Version deviceID localSeq envelopeDigest custodyAtMS (sg_keyID s)
                             (macOf (sg_secret s) signed), signed)
        end
    end
  end.

(** ** Lemmas *)
Lemma d011_ok n f lit : d011Integer n f = Ok lit → - MaxSafeInteger ≤ n ≤ MaxSafeInteger ∧ lit = FormatInt n.
Proof. unfold d011Integer. destruct (_ || _) eqn:E; [done|]. intros [= <-]. apply orb_false_iff in E as [E1 E2]. split; [|done]. unfold MaxSafeInteger in *. lia. Qed.

Lemma Acknowledge_ok s deviceID localSeq digest at_ ack signed :
  Acknowledge s deviceID localSeq digest at_ = Ok (ack, signed) →
  ∃ sg body, s = Some sg ∧ TrimSpace deviceID ≠ "" ∧ validateSHA256Digest digest = Ok tt ∧
    0 < localSeq ≤ MaxSafeInteger ∧ 0 < at_ ≤ MaxSafeInteger ∧
    ack = MkAck Version deviceID localSeq digest at_ (sg_keyID sg) (macOf (sg_secret sg) signed) ∧
    signed = Domain +:+ String (bc 0) body ∧
    Marshal (custodyMembers ack (FormatInt Version) (FormatInt localSeq) (FormatInt at_)) = Ok body.
Proof.
  unfold Acknowledge. destruct s as [sg|]; [|done]. case_decide; [done|].
  destruct (validateSHA256Digest digest) as [[]|]; [|done].
  destruct (Z.leb_spec localSeq 0); [done|]. destruct (Z.leb_spec at_ 0); [done|]. cbv zeta.
  destruct (custodyPreimage _) as [sn|] eqn:E; [|done]. intros [= <- <-].
  unfold custodyPreimage, custodyCanonicalBody in E. cbn [k_V k_LocalSeq k_CustodyAtMS] in E.
  destruct (d011Integer Version "v") as [v|] eqn:E1; [|done]. apply d011_ok in E1 as [_ ->].
  destruct (d011Integer localSeq "local_seq") as [ls|] eqn:E2; [|done]. apply d011_ok in E2 as [? ->].
  destruct (d011Integer at_ "custody_at_ms") as [ca|] eqn:E3; [|done]. apply d011_ok in E3 as [? ->].
  destruct (Marshal _) as [body|] eqn:E4; [|done]. injection E as <-.
  exists sg, body. split_and!; try done; lia.
Qed.

(** Every other input is acknowledged, if the writer accepts it. *)
Lemma Acknowledge_succeeds sg deviceID localSeq digest at_ :
  (∀ m, is_ok (Marshal m) = true) → TrimSpace deviceID ≠ "" → validateSHA256Digest digest = Ok tt →
  0 < localSeq ≤ MaxSafeInteger → 0 < at_ ≤ MaxSafeInteger →
  ∃ ack signed, Acknowledge (Some sg) deviceID localSeq digest at_ = Ok (ack, signed).
Proof.
  intros HM Hd Hg Hn Ht. unfold Acknowledge. rewrite decide_False by done. rewrite Hg.
  destruct (Z.leb_spec localSeq 0); [lia|]. destruct (Z.leb_spec at_ 0); [lia|]. cbv zeta.
  unfold custodyPreimage, custodyCanonicalBody. cbn [k_V k_LocalSeq k_CustodyAtMS].
  assert (∀ n f, 0 < n ≤ MaxSafeInteger → d011Integer n f = Ok (FormatInt n)) as Hi.
  { intros n f Hx. unfold d011Integer, MaxSafeInteger in *. destruct (_ || _) eqn:E; [|done]. lia. }
  rewrite !Hi by done. match goal with |- context [Marshal ?m] => pose proof (HM m); destruct (Marshal m) end; [|done]. eauto.
Qed.

Lemma custodyMembers_inj a b v v' ls ls' ca ca' :
  custodyMembers a v ls ca = custodyMembers b v' ls' ca' →
  k_DeviceID a = k_DeviceID b ∧ k_EnvelopeDigest a = k_EnvelopeDigest b ∧ k_KeyID a = k_KeyID b ∧ ls = ls' ∧ ca = ca'.
Proof.
  intros E. assert (∀ n, custodyMembers a v ls ca !! n = custodyMembers b v' ls' ca' !! n) as H by (by rewrite E).
  pose proof (H "device_id") as H1. pose proof (H "envelope_digest") as H2. pose proof (H "key_id") as H3.
  pose proof (H "local_seq") as H4. pose proof (H "custody_at_ms") as H5.
  unfold custodyMembers in *. vm_compute in H1, H2, H3, H4, H5.
  injection H1. injection H2. injection H3. injection H4. injection H5. auto.
Qed.
End Canonical.

Lemma sapp_inv_head (p s t : string) : p +:+ s = p +:+ t → s = t.
Proof. induction p as [|c p IH]; [done|]. rewrite !sapp_cons. intros [= H]. auto. Qed.

(** A custody acknowledgement states exactly one thing: if two
    acknowledgements authenticate the same bytes they are for the same device,
    sequence, envelope digest, custody time and key generation, provided the
    canonical writer maps different objects to different bytes; and the
    authenticated bytes always begin with the custody domain and a NUL, which
    no other message type of the gateway begins with. *)
Theorem custody_unambiguous Marshal s1 s2 d1 d2 n1 n2 e1 e2 t1 t2 a1 a2 signed :
  (∀ m m' b, Marshal m = Ok b → Marshal m' = Ok b → m = m') →
  Acknowledge Marshal s1 d1 n1 e1 t1 = Ok (a1, signed) → Acknowledge Marshal s2 d2 n2 e2 t2 = Ok (a2, signed) →
  d1 = d2 ∧ n1 = n2 ∧ e1 = e2 ∧ t1 = t2 ∧ k_KeyID a1 = k_KeyID a2 ∧
  hasPrefix signed (Domain +:+ String (bc 0) "") = true.
Proof.
  intros Hinj (g1 & b1 & _ & _ & _ & Hn1 & Ht1 & E1 & S1 & M1)%Acknowledge_ok
    (g2 & b2 & _ & _ & _ & Hn2 & Ht2 & E2 & S2 & M2)%Acknowledge_ok.
  assert (b1 = b2) as <-. { rewrite S1 in S2. apply sapp_inv_head in S2. by injection S2. }
  pose proof (Hinj _ _ _ M1 M2) as E. apply custodyMembers_inj in E as (Ed & Ee & Ek & En & Et).
  unfold MaxSafeInteger in *. apply FormatInt_inj in En, Et; [|unfold i64_max; lia..].
  rewrite E1, E2 in Ed, Ee. cbn in Ed, Ee. split_and!; try done.
  rewrite S1. change (String (bc 0) b1) with (String (bc 0) "" +:+ b1). rewrite <-sapp_assoc. apply hasPrefix_app.
Qed.

Lemma custody_unambiguous_witness :
  let M : gmap string canon → res string := λ m, Ok (pretty (Npos (encode m))) in
  let s := Some (MkSigner "hkdf-sha256:00" "secret") in
  ∃ a signed, Acknowledge M s "dev-1" 7 ("sha256:" +:+ sha256Hex "x") 1000 = Ok (a, signed) ∧
    hasPrefix signed (Domain +:+ String (bc 0) "") = true.
Proof.
  intros M s. set (dg := "sha256:" +:+ sha256Hex "x").
  destruct (Acknowledge_succeeds M (MkSigner "hkdf-sha256:00" "secret") "dev-1" 7 dg 1000) as (a & signed & E);
    [reflexivity|discriminate|reflexivity|unfold MaxSafeInteger; lia|unfold MaxSafeInteger; lia|].
  exists a, signed. split; [exact E|].
  eapply (custody_unambiguous M s s "dev-1" "dev-1" 7 7 dg dg 1000 1000 a a signed); [|exact E|exact E].
  intros m m' b [= E1] [= E2]. rewrite <-E2 in E1. apply (inj pretty) in E1. injection E1 as E1. by apply (inj encode) in E1.
Defined.
End Custody.
