(* ===== verification/Courier.v ===== *)
(** * The courier (evidence/courier/courier.go)

    The boundary that issues custody, and the routing projections the courier
    reads of artifacts it otherwise carries blind. *)
From S2P Require Import Prelude GoBytes Sha256 Json Routing Refusal Faults Store Queue Codec QueueInv QueueOps QueueDir Probe Load QueueLife QueueSpec Custody.
Import Routing Store Queue Codec QueueInv QueueOps QueueDir Probe Load QueueLife QueueSpec Custody.

Module Courier.

(** ** Failures of a delivery attempt *)
Inductive deliveryError : Type :=
| errChannelUnavailable
| errChannelRefused (retryAfterNS : Z)
| errChannelPermanentRefusal
| errChannelReceiverState
| errHeadHeld
| errRuntimeSink
| errMalformedResponse
| errQueueRetirement
| ErrUnrecognisedOutcome.

#[global] Instance deliveryError_eq_dec : EqDecision deliveryError.
Proof. solve_decision. Defined.

Definition safeFailureReason (err : deliveryError) : string :=
  match err with
  | errChannelUnavailable => "channel_unavailable"
  | errChannelRefused _ => "channel_refused"
  | errChannelPermanentRefusal => "channel_permanent_refusal"
  | errChannelReceiverState => "channel_receiver_state_refusal"
  | errRuntimeSink => "runtime_sink_unavailable"
  | errMalformedResponse => "malformed_channel_response"
  | errQueueRetirement => "queue_retirement_failed"
  | errHeadHeld | ErrUnrecognisedOutcome => "delivery_pending"
  end.

(** ** Authority artifacts *)
Definition AuthorityDeliveryReceipt : string := "delivery_receipt".
Definition AuthorityEpochConfirmation : string := "epoch_confirmation".
Definition InboundCustodyAcknowledgement : string := "custody_acknowledgement".

Record AuthorityArtifact := MkAuthority { aa_Type : string; aa_DeviceID : string; aa_Payload : string }.

(** [dr_RetryAfter] is a [time.Duration], in nanoseconds. *)
Record DeliveryResult := MkResult {
  dr_Accepted : bool; dr_Retriable : bool; dr_RetryAfter : Z; dr_ReceiverState : bool;
  dr_RefusalStatus : Z; dr_RefusalReason : string; dr_AuthorityArtifacts : list AuthorityArtifact }.

Definition validAuthorityArtifactType (kind : string) : bool :=
  bool_decide (kind = AuthorityDeliveryReceipt) || bool_decide (kind = AuthorityEpochConfirmation).

Definition authorityRoutingProjection (kind payload : string) (domain : string → bool) : res authorityRouting :=
  match routingAuthority payload with
  | None => Err (EMsg "invalid authority routing fields")
  | Some routing =>
    if negb (domain (ar_DeviceID routing)) then Err (EMsg "invalid authority routing fields")
    else if negb (bool_decide (kind = AuthorityDeliveryReceipt)) then Ok routing
    else match ar_FromSeq routing, ar_ToSeq routing with
         | Some from, Some to =>
           if (from <=? 0) || (to <? from) || (MaxSafeInteger <? to) then Err (EMsg "invalid receipt range") else Ok routing
         | _, _ => Err (EMsg "invalid receipt range")
         end
  end.

(** The device named, and whether a receipt covers the queued envelope. *)
Definition validateAuthorityRouting (queued : QueuedArtifact) (artifact : AuthorityArtifact) (domain : string → bool)
    : res (string * bool) :=
  match routingOutbound (qa_Payload queued) with
  | None => Err (EMsg "invalid queued routing fields")
  | Some out =>
    if decide (ob_DeviceID out = "") then Err (EMsg "invalid queued routing fields")
    else match authorityRoutingProjection (aa_Type artifact) (aa_Payload artifact) domain with
    | Err e => Err e
    | Ok authority =>
      if negb (bool_decide (ar_DeviceID authority = ob_DeviceID out)) then
        Err (EMsg "authority artifact names a different device")
      else if negb (bool_decide (aa_Type artifact = AuthorityDeliveryReceipt)) then Ok (ar_DeviceID authority, false)
      else
        let covers := bool_decide (qa_Type queued = ArtifactDeliveryEnvelope) &&
          (default 0 (ar_FromSeq authority) <=? ob_LocalSeq out) && (ob_LocalSeq out <=? default 0 (ar_ToSeq authority)) in
        Ok (ar_DeviceID authority, covers)
    end
  end.

(** ** Admission *)
Definition validateArtifactRoutingFields (kind payload : string) (domain : string → bool) : res unit :=
  if negb (validOutboundArtifactType kind) then Err (EMsg "evidence: unsupported outbound artifact type")
  else match routingOutbound payload with
  | None => Err (EMsg "evidence: artifact routing fields are missing or unparseable")
  | Some routing =>
    if negb (domain (ob_DeviceID routing)) then Err (EMsg "evidence: artifact device_id is outside its routing domain")
    else if maxArtifactBytes <? slen payload then Err (EMsg "evidence: artifact exceeds the evidence-transport maximum")
    else if bool_decide (kind = ArtifactDeliveryEnvelope) && (ob_LocalSeq routing <=? 0) then
      Err (EMsg "evidence: delivery envelope local_seq must be positive")
    else if bool_decide (kind = ArtifactDeliveryEnvelope) && (MaxSafeInteger <? ob_LocalSeq routing) then
      Err (EMsg "evidence: delivery envelope local_seq is outside the D-011 integer zone")
    else Ok tt
  end.

Record Admission := MkAdmission { ad_Queued : QueuedArtifact; ad_Custody : option Acknowledgement; ad_New : bool }.

Section Admit.
Context (Marshal : gmap string canon → res string).

(** [Admit]: the admission, where there is one, and the error. *)
Definition Admit (signer : option Signer) (nowMS : Z) (kind payload : string) (s : qst)
    : option Admission * option error * qst :=
  match validateArtifactRoutingFields kind payload (RoutingDeviceID (sq s)) with
  | Err e => (None, Some e, s)
  | Ok _ =>
    match enqueueOutbound nowMS kind payload s with
    | (Err e, s') => (None, Some e, s')
    | (Ok (queued, isNew), s') =>
      let admission := MkAdmission queued None isNew in
      match signer with
      | None => (Some admission, None, s')
      | Some _ =>
        if negb (bool_decide (kind = ArtifactDeliveryEnvelope)) then (Some admission, None, s')
        else match routingOutbound payload with
        | None => (Some admission, Some (EMsg "evidence: decode queued envelope routing fields"), s')
        | Some envelope =>
          match Acknowledge Marshal signer (ob_DeviceID envelope) (ob_LocalSeq envelope) (payloadDigest payload)
                  (qa_EnqueuedAtMS queued) with
          | Err e => (Some admission, Some (errCustodyConstruction e), s')
          | Ok (ack, _) => (Some (MkAdmission queued (Some ack) isNew), None, s')
          end
        end
      end
    end
  end.
End Admit.

(** ** The two decodings of a payload agree *)
Section Agree.
Implicit Types (l : list (string * json)).

Lemma judgeKey_weaken n names seen seen' key b :
  n ∈ names → judgeKey names seen key false = Some b → (n ∈ seen' → n ∈ seen) →
  ∃ b', judgeKey [n] seen' key false = Some b' ∧ (key = n → b' = true) ∧ (key ≠ n → b' = false).
Proof.
  intros Hn H Hs. cbn [judgeKey]. destruct (judgeKey_sound _ _ _ _ _ n H Hn) as [(-> & Hns & ->)|(Hne & Hf)].
  - rewrite decide_True by done. rewrite decide_False by naive_solver. eexists. split; [done|]. done.
  - rewrite decide_False by done. rewrite Hf. eexists. split; [done|]. done.
Qed.

(** Passing the check for several names is passing it for each. *)
Lemma unambiguous_weaken n names l seen seen' :
  n ∈ names → (n ∈ seen' → n ∈ seen) → seen' ⊆ {[n]} → unambiguous names seen l = true → unambiguous [n] seen' l = true.
Proof.
  intros Hn. revert seen seen'. induction l as [|[k v] l IH]; intros seen seen' Hs Hsub H; [done|].
  cbn [unambiguous] in H |- *. destruct (judgeKey names seen (unquote k) false) as [b|] eqn:E; [|done].
  destruct (judgeKey_weaken n _ _ seen' _ _ Hn E Hs) as (b' & -> & Ht & Hf).
  destruct (decide (unquote k = n)) as [Ek|Ek].
  - rewrite (Ht Ek). destruct (judgeKey_sound _ _ _ _ _ n E Hn) as [(_ & Hns & ->)|(? & _)]; [|done].
    apply andb_true_iff in H as [-> H]. cbn [andb]. eapply IH; [| |exact H]; set_solver.
  - rewrite (Hf Ek). destruct b; [apply andb_true_iff in H as [_ H]; eapply IH; [|done|exact H]; set_solver|by eapply IH].
Qed.

Lemma decodeMembers_ok {R} names strict (set : string → json → R → R * bool) l r0 ok r :
  decodeMembers names strict set l r0 ok = (r, true) → ok = true.
Proof.
  revert r0 ok. induction l as [|[k v] l IH]; intros r0 ok; cbn [decodeMembers]; [by intros [= _ ->]|].
  destruct (matchField names (unquote k)); [destruct (set _ _ _)|]; intros H%IH; by apply andb_true_iff in H as [-> _].
Qed.

Lemma decode_device_agree l seen r0 r :
  unambiguous ["device_id"; "local_seq"] seen l = true →
  decodeMembers ["device_id"; "local_seq"] false setOutbound l r0 true = (r, true) →
  decodeMembers ["device_id"] false (λ _ v d, setStr v d) l (ob_DeviceID r0) true = (ob_DeviceID r, true).
Proof.
  revert seen r0. induction l as [|[k v] l IH]; intros seen r0 H Hdec.
  { cbn in *. by injection Hdec as ->. }
  cbn [unambiguous] in H. destruct (judgeKey _ seen (unquote k) false) as [b|] eqn:E; [|done].
  assert (∀ n, n ∈ ["device_id"; "local_seq"] → unquote k = n ∧ n ∉ seen ∧ b = true ∨ unquote k ≠ n ∧ equalFold (unquote k) n = false) as Hj
    by (intros n Hn; by apply (judgeKey_sound _ _ _ _ _ n E Hn)).
  cbn [decodeMembers] in Hdec |- *. unfold matchField in *.
  destruct (Hj "device_id" ltac:(set_solver)) as [(Ek & Hns & ->)|(Ek & Ef)].
  - apply andb_true_iff in H as [_ H]. rewrite Ek in *. rewrite decide_True in Hdec by set_solver.
    rewrite decide_True by set_solver. unfold setOutbound in Hdec at 1. rewrite decide_True in Hdec by done.
    destruct (setStr v (ob_DeviceID r0)) as [s1 ok1] eqn:Es. cbn [andb] in *.
    pose proof (decodeMembers_ok _ _ _ _ _ _ _ Hdec) as ->. by apply (IH _ _ H Hdec).
  - rewrite (decide_False (P := unquote k ∈ ["device_id"])) by set_solver. cbn [List.find]. rewrite Ef. cbn [andb negb].
    destruct (Hj "local_seq" ltac:(set_solver)) as [(Ek2 & Hns & ->)|(Ek2 & Ef2)].
    + apply andb_true_iff in H as [_ H]. rewrite Ek2 in *. rewrite decide_True in Hdec by set_solver.
      unfold setOutbound in Hdec at 1. rewrite decide_False in Hdec by done.
      destruct (setInt v (ob_LocalSeq r0)) as [z ok1] eqn:Es. cbn [andb] in *.
      pose proof (decodeMembers_ok _ _ _ _ _ _ _ Hdec) as ->. by apply (IH _ _ H Hdec).
    + rewrite decide_False in Hdec by set_solver. cbn [List.find] in Hdec. rewrite Ef, Ef2 in Hdec. cbn [andb negb] in Hdec.
      destruct b; [apply andb_true_iff in H as [_ H]|]; by apply (IH _ _ H Hdec).
Qed.

Lemma routing_agree payload out :
  routingOutbound payload = Some out → routingDeviceID payload = Some (ob_DeviceID out).
Proof.
  unfold routingOutbound, routingDeviceID, decodeRouting, refuseAmbiguousMembers, decodeStruct.
  destruct (parse payload) as [[]|]; try done. destruct (unambiguous _ ∅ l) eqn:E; [|done].
  rewrite (unambiguous_weaken "device_id" ["device_id"; "local_seq"] l ∅ ∅ ltac:(set_solver) ltac:(set_solver) ltac:(set_solver) E).
  destruct (decodeMembers _ _ setOutbound l _ true) as [r []] eqn:Ed; [|done]. intros [= <-].
  pose proof (decode_device_agree _ _ _ _ E Ed) as G. cbn [ob_DeviceID] in G. by rewrite G.
Qed.

Lemma recordDevice_outbound payload out : routingOutbound payload = Some out → recordDevice payload = ob_DeviceID out.
Proof. intros H%routing_agree. unfold recordDevice. by rewrite H. Qed.

(** The one reading of a device member. *)
Lemma decode_device_candidates l seen d0 d :
  unambiguous ["device_id"] seen l = true →
  decodeMembers ["device_id"] false (λ _ v d, setStr v d) l d0 true = (d, true) →
  d = d0 ∨ ∃ k raw, candidates "device_id" l = [(k, JStr raw)] ∧ unquote raw = d.
Proof.
  revert seen d0. induction l as [|[k v] l IH]; intros seen d0 H Hdec.
  { cbn in Hdec. injection Hdec as ->. auto. }
  pose proof (unambiguous_candidates ["device_id"] "device_id" ((k, v) :: l) seen ltac:(set_solver) H) as (_ & Hlen & _).
  cbn [unambiguous] in H. destruct (judgeKey _ seen (unquote k) false) as [b|] eqn:E; [|done].
  cbn [decodeMembers] in Hdec. unfold matchField in Hdec. unfold candidates in *. rewrite filter_cons in Hlen |- *. cbn [fst] in Hlen |- *.
  destruct (judgeKey_sound _ _ _ _ _ "device_id" E ltac:(set_solver)) as [(Ek & Hns & ->)|(Ek & Ef)].
  - rewrite (decide_True (P := unquote k = _ ∨ _)) in Hlen by auto. rewrite (decide_True (P := unquote k = _ ∨ _)) by auto.
    assert (filter (λ p : string * json, unquote p.1 = "device_id" ∨ equalFold (unquote p.1) "device_id" = true) l = []) as Hnil
      by (apply length_zero_iff_nil; cbn in Hlen; lia).
    rewrite Hnil. rewrite decide_True in Hdec by set_solver.
    apply andb_true_iff in H as [_ H]. destruct (setStr v d0) as [s1 ok1] eqn:Es. cbn [andb] in Hdec.
    pose proof (decodeMembers_ok _ _ _ _ _ _ _ Hdec) as ->.
    destruct (IH _ _ H Hdec) as [->|(k' & raw & Hc & _)]; [|by rewrite Hnil in Hc].
    destruct v; cbn in Es; try discriminate; injection Es as <-; eauto.
  - assert (¬ (unquote k = "device_id" ∨ equalFold (unquote k) "device_id" = true)) as Hn by (rewrite Ef; naive_solver).
    rewrite (decide_False (P := unquote k = _ ∨ _)) by done.
    rewrite decide_False in Hdec by set_solver. cbn [List.find] in Hdec. rewrite Ef in Hdec. cbn [andb negb] in Hdec.
    destruct b; [apply andb_true_iff in H as [_ H]|]; by apply (IH _ _ H Hdec).
Qed.
End Agree.



(** ** Custody *)
Lemma enqueueOutbound_found nowMS kind payload s a new s' :
  enqueueOutbound nowMS kind payload s = (Ok (a, new), s') →
  enqueueOrFind nowMS kind payload s = (Ok (a, negb new), s').
Proof.
  unfold enqueueOutbound. destruct (negb (validOutboundArtifactType kind)); [done|].
  intros ([a' b] & s1 & H & E)%ebind_ok. injection E as <- <- <-. rewrite H. by rewrite negb_involutive.
Qed.

(** What an admission returns is listed and stored. *)
Lemma enqueueOrFind_held nowMS kind payload s D a b s' :
  life_inv (s, D) → nowMS ≤ i64_max → slen payload ≤ 2 ^ 60 → nextSeq (sq s) < i64_max →
  artifactID kind payload ∉ D → enqueueOrFind nowMS kind payload s = (Ok (a, b), s') →
  ∃ r, entries (sq s') !! artifactID kind payload = Some r ∧ a = recordArtifact r ∧
       on_disk (sd s') (artifactID kind payload) r ∧ (b = false → qr_Payload r = payload ∧ qr_Type r = kind).
Proof.
  intros Hl Hn Hp Hs HD H.
  assert (life_inv (s', D)) as [Hq' Hd'] by (eapply qop_inv; [by eapply op_enqueue|done]). cbn in Hq', Hd'.
  apply enqueueOrFind_cases in H as [[-> H]|(Hnew & Hk & Hpl & x & Hi & E)].
  - destruct (H _ eq_refl) as (r & Hr & [= -> ->]). exists r. split_and!; [done|done|by apply Hd'|done].
  - destruct Hi as [e|e s1 r0 Hw|s1 r0 Hc Hi Hs1 Hn1 Hb Hs2 Hw]; [done..|]. injection E as -> ->. exists r0.
    assert (entries (sq (MkSt (commitEntry r0 (slen (encodeRecord r0)) (sq s1)) (sd s1) (sf s1))) !! artifactID kind payload = Some r0) as Hr.
    { cbn [sq]. rewrite commit_entries. apply lookup_insert_eq. }
    split_and!; [done|done|by apply Hd'|done].
Qed.

(** Custody is issued only for evidence already held: when an admission
    returns an acknowledgement, the artifact is listed and survives any crash,
    and the acknowledgement names the digest of the very bytes admitted, the
    device of the lane that holds them, their sequence, and the time they were
    queued; bytes the queue already holds keep their first time. *)
Theorem custody_after_durability Marshal signer nowMS kind payload s D adm ack e s' :
  life_inv (s, D) → nowMS ≤ i64_max → nextSeq (sq s) < i64_max → artifactID kind payload ∉ D →
  Admit Marshal signer nowMS kind payload s = (Some adm, e, s') → ad_Custody adm = Some ack →
  ∃ r out, entries (sq s') !! artifactID kind payload = Some r ∧ on_disk (sd s') (artifactID kind payload) r ∧
    ad_Queued adm = recordArtifact r ∧ (ad_New adm = true → qr_Payload r = payload) ∧
    routingOutbound payload = Some out ∧ e = None ∧ kind = ArtifactDeliveryEnvelope ∧
    k_EnvelopeDigest ack = payloadDigest payload ∧ k_CustodyAtMS ack = qr_EnqueuedAtMS r ∧
    k_DeviceID ack = recordDevice payload ∧ k_LocalSeq ack = ob_LocalSeq out ∧ 0 < k_LocalSeq ack ≤ MaxSafeInteger.
Proof.
  intros Hl Hn Hs HD H Hc. unfold Admit in H.
  destruct (validateArtifactRoutingFields _ _ _) as [[]|] eqn:Ev; [|done].
  assert (slen payload ≤ maxArtifactBytes) as Hsz.
  { unfold validateArtifactRoutingFields in Ev. destruct (negb _); [done|]. destruct (routingOutbound payload); [|done].
    destruct (negb _); [done|]. destruct (Z.ltb_spec maxArtifactBytes (slen payload)); [done|lia]. }
  destruct (enqueueOutbound nowMS kind payload s) as [[[a new]|] s1] eqn:Ee; [|done].
  apply enqueueOutbound_found in Ee. apply (enqueueOrFind_held _ _ _ _ D) in Ee as (r & Hr & -> & Hd & Hnew); try done.
  2: { unfold maxArtifactBytes in Hsz. lia. }
  destruct signer as [sg|]; [|by injection H as <- <- <-]. destruct (negb (bool_decide _)) eqn:Ek; [by injection H as <- <- <-|].
  apply negb_false_iff, bool_decide_eq_true in Ek. destruct (routingOutbound payload) as [out|] eqn:Eo; [|by injection H as <- <- <-].
  destruct (Acknowledge Marshal _ _ _ _ _) as [[ack' signed]|] eqn:Ea; [|by injection H as <- <- <-].
  injection H as <- <- <-. injection Hc as ->.
  apply Acknowledge_ok in Ea as (g & body & _ & _ & _ & Hls & _ & Eack & _).
  assert (ack = MkAck Version (ob_DeviceID out) (ob_LocalSeq out) (payloadDigest payload) (qr_EnqueuedAtMS r) (sg_keyID g) (macOf (sg_secret g) signed)) as E by exact Eack.
  exists r, out. rewrite E. cbn [ad_Queued ad_New k_EnvelopeDigest k_CustodyAtMS k_DeviceID k_LocalSeq].
  rewrite (recordDevice_outbound _ _ Eo). split_and!; try done; try lia. destruct new; [|done]. intros _. by apply Hnew.
Qed.

Lemma custody_after_durability_witness :
  let M : gmap string canon → res string := λ _, Ok "{}" in
  let '(adm, e, s') := Admit M (Some (MkSigner "k" "secret")) 1000 ArtifactDeliveryEnvelope exA ex0 in
  ∃ r, entries (sq s') !! exIdA = Some r ∧ on_disk (sd s') exIdA r.
Proof.
  intros M. destruct (Admit M (Some (MkSigner "k" "secret")) 1000 ArtifactDeliveryEnvelope exA ex0) as [[adm e] s'] eqn:E.
  assert (is_Some (adm ≫= ad_Custody)) as [ack Hack].
  { apply (f_equal (λ x, x.1.1)) in E. cbn [fst] in E. subst adm. vm_compute. eauto. }
  destruct adm as [adm|]; [|discriminate Hack].
  destruct (custody_after_durability M (Some (MkSigner "k" "secret")) 1000 ArtifactDeliveryEnvelope exA ex0 ∅ adm ack e s')
    as (r & out & Hr & Hd & _).
  - exact ex0_life.
  - done.
  - by vm_compute.
  - apply not_elem_of_empty.
  - exact E.
  - exact Hack.
  - exists r. split; assumption.
Defined.
End Courier.
