(* ===== verification/Contracts.v ===== *)
(** * The wire contract of the MQTT hop (contracts/contracts.go, payload_size.go, payload_members.go)

    Topics and the device each names, the payload families with their maxima,
    and the member rule's table. The strict decoder behind the member rule is
    the canonical JSON package's, a parameter here. *)
From S2P Require Import Prelude GoBytes Json.

Module Contracts.

(** ** [strings.Split] with a one-byte separator, and [strings.Join] *)
Fixpoint split (sep : ascii) (s : string) : list string :=
  match s with
  | EmptyString => [""]
  | String c s' =>
    if decide (c = sep) then "" :: split sep s'
    else match split sep s' with
         | p :: ps => String c p :: ps
         | [] => [String c ""]
         end
  end.

Fixpoint join (sep : ascii) (l : list string) : string :=
  match l with
  | [] => ""
  | [p] => p
  | p :: l' => p +:+ String sep (join sep l')
  end.

Fixpoint containsAny (bytes : list ascii) (s : string) : bool :=
  match s with
  | EmptyString => false
  | String c s' => bool_decide (c ∈ bytes) || containsAny bytes s'
  end.

Definition slash : ascii := "/"%char.

(** ** Identifiers *)
Definition maxRoutingID : Z := 128.

Definition routingByte (c : ascii) : bool :=
  let b := bv c in
  in_rng 97 122 b || in_rng 65 90 b || in_rng 48 57 b || (b =? 46) || (b =? 95) || (b =? 45).

Fixpoint allRoutingBytes (s : string) : bool :=
  match s with EmptyString => true | String c s' => routingByte c && allRoutingBytes s' end.

Definition ValidRoutingID (value : string) : bool :=
  if bool_decide (value = "") || (maxRoutingID <? slen value) then false else allRoutingBytes value.

Definition validateMQTTDeviceID (deviceID : string) : res unit :=
  if bool_decide (deviceID = "") then Err (EMsg "device_id must not be empty")
  else if negb (bool_decide (TrimSpace deviceID = deviceID)) then
    Err (EMsg "device_id must not contain leading or trailing whitespace")
  else if containsAny ["/"; "+"; "#"; "|"]%char deviceID then
    Err (EMsg "device_id must not contain MQTT topic separators, wildcards, or auth delimiters")
  else Ok tt.

Definition validateMQTTRequestID (requestID : string) : res unit :=
  if negb (ValidRoutingID requestID) then
    Err (EMsg "request_id must be 1 to 128 ASCII letters, digits, '.', '_' or '-'")
  else Ok tt.

(** ** Topics *)
Definition deviceTopic (suffix deviceID : string) : res string :=
  match validateMQTTDeviceID deviceID with
  | Err e => Err e
  | Ok _ => Ok ("ori/" +:+ deviceID +:+ suffix)
  end.

Definition RequestTopic : string → res string := deviceTopic "/reasoning/request".
Definition ResponseTopic : string → res string := deviceTopic "/reasoning/response".
Definition RuntimeNodeHeartbeatTopic : string → res string := deviceTopic "/runtime/heartbeat".
Definition EvidenceOutboundTopic : string → res string := deviceTopic "/evidence/outbound".
Definition EvidenceOutboundAckTopic : string → res string := deviceTopic "/evidence/outbound/ack".
Definition EvidenceInboundTopic : string → res string := deviceTopic "/evidence/inbound".
Definition EvidenceInboundAckTopic : string → res string := deviceTopic "/evidence/inbound/ack".
Definition TierCEnrichmentRequestTopic : string → res string := deviceTopic "/tier_c/enrichment/request".
Definition TierCEnrichmentResponseTopic : string → res string := deviceTopic "/tier_c/enrichment/response".
Definition ExportRequestTopic : string → res string := deviceTopic "/export/request".
Definition ExportResponseTopicFilter : string → res string := deviceTopic "/export/response/+".

Definition ExportResponseTopic (deviceID requestID : string) : res string :=
  match validateMQTTDeviceID deviceID with
  | Err e => Err e
  | Ok _ =>
    match validateMQTTRequestID requestID with
    | Err e => Err e
    | Ok _ => Ok ("ori/" +:+ deviceID +:+ "/export/response/" +:+ requestID)
    end
  end.

(** The device a topic names, when its other segments are as wanted. *)
Definition deviceFrom (segments : list string) (msg : string) (topic : string) : res string :=
  match split slash topic with
  | ori :: device :: rest =>
    if bool_decide (ori = "ori") && bool_decide (rest = segments) then
      match validateMQTTDeviceID device with Err e => Err e | Ok _ => Ok device end
    else Err (EMsg msg)
  | _ => Err (EMsg msg)
  end.

Definition deviceIDFromEvidenceTopic (topic direction : string) (ack : bool) : res string :=
  deviceFrom ("evidence" :: direction :: if ack then ["ack"] else []) ("invalid evidence " +:+ direction +:+ " topic") topic.

Definition DeviceIDFromEvidenceOutboundTopic (topic : string) : res string := deviceIDFromEvidenceTopic topic "outbound" false.
Definition DeviceIDFromEvidenceInboundAckTopic (topic : string) : res string := deviceIDFromEvidenceTopic topic "inbound" true.
Definition DeviceIDFromRuntimeNodeHeartbeatTopic : string → res string :=
  deviceFrom ["runtime"; "heartbeat"] "invalid runtime heartbeat topic".
Definition DeviceIDFromTierCEnrichmentRequestTopic : string → res string :=
  deviceFrom ["tier_c"; "enrichment"; "request"] "invalid tier c enrichment request topic".

(** ** Payload families *)
Definition FamilyGatewayHealth : string := "ori/gateway/health".
Definition FamilyRuntimeHeartbeat : string := "ori/{device_id}/runtime/heartbeat".
Definition FamilyReasoningRequest : string := "ori/{device_id}/reasoning/request".
Definition FamilyReasoningResponse : string := "ori/{device_id}/reasoning/response".
Definition FamilyEnrichmentRequest : string := "ori/{device_id}/tier_c/enrichment/request".
Definition FamilyEnrichmentResponse : string := "ori/{device_id}/tier_c/enrichment/response".
Definition FamilyExportRequest : string := "ori/{device_id}/export/request".
Definition FamilyExportResponse : string := "ori/{device_id}/export/response/{request_id}".
Definition FamilyEvidenceOutbound : string := "ori/{device_id}/evidence/outbound".
Definition FamilyEvidenceOutboundAck : string := "ori/{device_id}/evidence/outbound/ack".
Definition FamilyEvidenceInbound : string := "ori/{device_id}/evidence/inbound".
Definition FamilyEvidenceInboundAck : string := "ori/{device_id}/evidence/inbound/ack".

Definition PayloadMaxima : gmap string Z := list_to_map [
  (FamilyGatewayHealth, 16384); (FamilyRuntimeHeartbeat, 65536);
  (FamilyReasoningRequest, 262144); (FamilyReasoningResponse, 262144);
  (FamilyEnrichmentRequest, 262144); (FamilyEnrichmentResponse, 262144);
  (FamilyExportRequest, 16384); (FamilyExportResponse, 4194304);
  (FamilyEvidenceOutbound, 1572864); (FamilyEvidenceOutboundAck, 16384);
  (FamilyEvidenceInbound, 1114112); (FamilyEvidenceInboundAck, 16384)].

Definition PayloadFloor : Z := 4096.
Definition MaxAuthorityArtifactBytes : Z := 1048576.

(** Segment by segment; a placeholder matches any segment but an empty one or
    the multi-level wildcard. *)
Fixpoint matchSegments (pattern segments : list string) : bool :=
  match pattern, segments with
  | [], [] => true
  | want :: pattern', seg :: segments' =>
    (if hasPrefix want "{" then negb (bool_decide (seg = "") || bool_decide (seg = "#")) else bool_decide (seg = want)) &&
    matchSegments pattern' segments'
  | _, _ => false
  end.

(** [PayloadFamily] ranges over the table in an order the runtime picks anew
    each time: [visit] is that order. *)
Definition PayloadFamily (visit : list string) (topic : string) : option string :=
  List.find (λ family, matchSegments (split slash family) (split slash topic)) visit.

Definition PayloadMaximum (visit : list string) (topic : string) : option Z :=
  match PayloadFamily visit topic with
  | None => None
  | Some family => Some (default 0 (PayloadMaxima !! family))
  end.

(** [bits.Len] of a positive number is one more than its binary logarithm. *)
Definition SizeClass (length : Z) : Z :=
  if length <=? 1 then 1 else wrap64 (Z.shiftl 1 (Z.log2 (length - 1) + 1)).

(** ** The member rule *)
Definition definedMembers : gmap string (list string) := list_to_map [
  (FamilyGatewayHealth, [
    "auth"; "body_limit_bytes"; "ciphertext"; "enabled"; "encrypted"; "encryption"; "loopback_only"; "nonce"; "provider";
    "provider_cidr_count"; "ready"; "request_timeout_ms"; "runtime_target_configured"; "scheme"; "signature";
    "signed_at_ms"; "sim_available"; "source_cidrs_configured"; "status"; "timestamp_ms"; "uptime_s"; "webhook_bridge"]);
  (FamilyRuntimeHeartbeat, [
    "action_event_type"; "active_triggers"; "attestation_gap_count"; "auth"; "available"; "chain_head_hash"; "ciphertext";
    "degradation_reasons"; "device_id"; "encrypted"; "encryption"; "evidence"; "gateway_seen_ms"; "last_seen_ms"; "nonce";
    "scheme"; "signature"; "signed_at_ms"; "status"]);
  (FamilyReasoningRequest, [
    "action_tier_hint"; "auth"; "ciphertext"; "context"; "device_id"; "encrypted"; "encryption"; "history"; "nonce";
    "producer_time"; "prompt"; "received_at_ms"; "request_id"; "scheme"; "sensor_type"; "signature"; "signed_at_ms";
    "timeout_ms"; "timestamp"; "trigger_name"; "unit"; "value"]);
  (FamilyReasoningResponse, [
    "action_tier"; "auth"; "ciphertext"; "confidence"; "device_id"; "encrypted"; "encryption"; "error"; "latency_ms";
    "model"; "nonce"; "proposed_action"; "request_id"; "scheme"; "signature"; "signed_at_ms"; "text"; "tokens_used"]);
  (FamilyEnrichmentRequest, [
    "auth"; "ciphertext"; "device_id"; "encrypted"; "encryption"; "history_window"; "nonce"; "operator_message";
    "proposal_id"; "proposed_action"; "quality"; "reading_value"; "request_id"; "safe_default_action"; "scheme";
    "sensor_id"; "sensor_type"; "signature"; "signed_at_ms"; "skill_name"; "timeout_ms"; "timestamp_ms"; "trigger_name";
    "unit"; "value"]);
  (FamilyEnrichmentResponse, [
    "auth"; "ciphertext"; "device_id"; "encrypted"; "encryption"; "error"; "estimated_impact"; "explanation";
    "latency_ms"; "model"; "nonce"; "proposal_id"; "provider"; "recommended_operator_context"; "request_id"; "scheme";
    "signature"; "signed_at_ms"; "tokens_used"]);
  (FamilyExportRequest, [
    "action_name"; "action_taken"; "action_tier"; "auth"; "avg_value"; "bucket_ms"; "ciphertext"; "contributed_to";
    "correlation_id"; "device_id"; "encrypted"; "encryption"; "end_ms"; "executed"; "export_type"; "limit"; "max_value";
    "min_value"; "nonce"; "page_token"; "params"; "producer_time"; "quality"; "reasoning_status"; "received_at_ms";
    "record_key"; "record_kind"; "request_id"; "sample_count"; "scheme"; "sensor_id"; "sensor_type"; "signature";
    "signed_at_ms"; "since_ms"; "start_ms"; "tier"; "tier_used"; "timestamp"; "unit"; "until_ms"; "value"]);
  (FamilyExportResponse, [
    "action_name"; "action_taken"; "action_tier"; "auth"; "avg_value"; "bucket_ms"; "ciphertext"; "complete";
    "contributed_to"; "correlation_id"; "device_id"; "encrypted"; "encryption"; "end_ms"; "error"; "executed";
    "export_type"; "items"; "max_value"; "min_value"; "next_page_token"; "nonce"; "producer_time"; "quality";
    "reasoning_status"; "received_at_ms"; "record_key"; "record_kind"; "request_id"; "sample_count"; "scheme";
    "sensor_id"; "sensor_type"; "signature"; "signed_at_ms"; "start_ms"; "tier"; "tier_used"; "timestamp"; "unit"; "value"]);
  (FamilyEvidenceOutbound, [
    "artifact_b64"; "artifact_type"; "auth"; "ciphertext"; "device_id"; "encrypted"; "encryption"; "nonce"; "scheme";
    "signature"; "signed_at_ms"]);
  (FamilyEvidenceOutboundAck, [
    "acknowledged_at_ms"; "artifact_digest"; "artifact_type"; "auth"; "ciphertext"; "device_id"; "encrypted";
    "encryption"; "nonce"; "outcome"; "reason"; "scheme"; "signature"; "signed_at_ms"]);
  (FamilyEvidenceInbound, [
    "artifact"; "artifact_type"; "auth"; "ciphertext"; "custody_at_ms"; "device_id"; "encrypted"; "encryption";
    "envelope_digest"; "key_id"; "local_seq"; "mac"; "nonce"; "scheme"; "signature"; "signed_at_ms"; "v"]);
  (FamilyEvidenceInboundAck, [
    "acknowledged_at_ms"; "artifact_digest"; "artifact_type"; "auth"; "ciphertext"; "device_id"; "encrypted";
    "encryption"; "nonce"; "outcome"; "reason"; "scheme"; "signature"; "signed_at_ms"])].

(** The canonical JSON package's strict decoder: [None] when the payload is
    accepted, the sentinel error it reports otherwise. *)
Inductive strictError : Type :=
| ErrInvalidUnicode | ErrMalformedJSON | ErrNestingTooDeep | ErrTrailingData
| ErrDuplicateMember | ErrCaseVariantMember | ErrNotAnObject | ErrOther.

Definition memberRuleReason (e : strictError) : string :=
  match e with
  | ErrInvalidUnicode => "invalid_unicode"
  | ErrMalformedJSON => "malformed_json"
  | ErrNestingTooDeep => "nesting_too_deep"
  | ErrTrailingData => "trailing_data"
  | ErrDuplicateMember => "duplicate_member"
  | ErrCaseVariantMember => "case_variant_member"
  | ErrNotAnObject => "not_an_object"
  | ErrOther => "malformed_json"
  end.

Definition admit_ (DecodeStrict : list string → string → option strictError) (members : list string) (payload : string) : res unit :=
  match DecodeStrict members payload with
  | None => Ok tt
  | Some e => Err (MemberRuleError (memberRuleReason e))
  end.

Definition AdmitPayload (DecodeStrict : list string → string → option strictError) (family payload : string) : res unit :=
  match definedMembers !! family with
  | None => Err (EMsg "contracts: not a payload family")
  | Some members => admit_ DecodeStrict members payload
  end.

Definition AdmitPayloadWithMembers (DecodeStrict : list string → string → option strictError) (members : list string) (payload : string) : res unit :=
  admit_ DecodeStrict members payload.

(** ** Splitting and joining *)
Lemma split_nonempty sep s : split sep s ≠ [].
Proof. destruct s as [|c s]; cbn; [done|]. case_decide; [done|]. by destruct (split sep s). Qed.

Lemma join_split sep s : join sep (split sep s) = s.
Proof.
  induction s as [|c s IH]; [done|]. cbn [split]. pose proof (split_nonempty sep s) as Hn.
  case_decide as E.
  - destruct (split sep s) as [|p ps] eqn:Es; [done|]. cbn [join] in *. by rewrite IH, E, sapp_nil_l.
  - destruct (split sep s) as [|p [|p' ps]]; [done| |]; cbn [join] in *; rewrite ?sapp_cons; congruence.
Qed.

Lemma split_app sep a s : containsAny [sep] a = false → split sep (a +:+ String sep s) = a :: split sep s.
Proof.
  induction a as [|c a IH]; intros H.
  - rewrite sapp_nil_l. cbn [split]. by rewrite decide_True.
  - cbn in H. apply orb_false_iff in H as [Hc H]. rewrite sapp_cons. cbn [split].
    rewrite decide_False; [by rewrite (IH H)|]. apply bool_decide_eq_false in Hc. set_solver.
Qed.

Lemma containsAny_sub (l k : list ascii) s : (∀ c, c ∈ k → c ∈ l) → containsAny l s = false → containsAny k s = false.
Proof.
  intros Hs. induction s as [|c s IH]; [done|]. cbn. rewrite !orb_false_iff, !bool_decide_eq_false. naive_solver.
Qed.

Lemma validDevice_slash d : validateMQTTDeviceID d = Ok tt → containsAny [slash] d = false.
Proof.
  unfold validateMQTTDeviceID. case_bool_decide; [done|]. case_bool_decide; [|done]. cbn.
  destruct (containsAny _ d) eqn:E; [done|]. intros _. eapply containsAny_sub; [|exact E]. set_solver.
Qed.

(** A topic built for a device names it, and only such a topic does. *)
Lemma deviceFrom_iff suffix segments msg d t :
  suffix = String slash (join slash segments) → segments = split slash (join slash segments) →
  deviceTopic suffix d = Ok t ↔ deviceFrom segments msg t = Ok d.
Proof.
  intros -> Hs. unfold deviceTopic, deviceFrom. split.
  - destruct (validateMQTTDeviceID d) as [[]|] eqn:E; [|done]. intros [= <-].
    change ("ori/" +:+ d +:+ String slash (join slash segments)) with ("ori" +:+ String slash (d +:+ String slash (join slash segments))).
    rewrite (split_app slash "ori") by (by vm_compute). rewrite split_app by (by apply validDevice_slash).
    rewrite <-Hs, !bool_decide_true by done. cbn. by rewrite E.
  - pose proof (join_split slash t) as J. destruct (split slash t) as [|ori [|dev rest]]; [done..|].
    destruct (bool_decide (ori = "ori")) eqn:Eo; [|done]. destruct (bool_decide (rest = segments)) eqn:Er; [|done].
    apply bool_decide_eq_true in Eo, Er. subst. cbn [andb]. destruct (validateMQTTDeviceID dev) as [[]|] eqn:E; [|done].
    intros [= ->]. rewrite E. destruct segments as [|g gs]; [by destruct (split_nonempty slash (join slash []))|]. done.
Qed.

(** Device topics are read back exactly: a topic is the one built for a
    device if and only if the device read from it is that one, for evidence
    carriage, its acknowledgements, heartbeats and enrichment requests. *)
Theorem topics_name_one_device d t :
  (EvidenceOutboundTopic d = Ok t ↔ DeviceIDFromEvidenceOutboundTopic t = Ok d) ∧
  (EvidenceInboundAckTopic d = Ok t ↔ DeviceIDFromEvidenceInboundAckTopic t = Ok d) ∧
  (RuntimeNodeHeartbeatTopic d = Ok t ↔ DeviceIDFromRuntimeNodeHeartbeatTopic t = Ok d) ∧
  (TierCEnrichmentRequestTopic d = Ok t ↔ DeviceIDFromTierCEnrichmentRequestTopic t = Ok d).
Proof. split_and!; apply deviceFrom_iff; reflexivity. Qed.

(** ** One family per topic *)

(** Whether two patterns could match one topic. *)
Fixpoint compatible (p q : list string) : bool :=
  match p, q with
  | [], [] => true
  | a :: p', b :: q' => (hasPrefix a "{" || hasPrefix b "{" || bool_decide (a = b)) && compatible p' q'
  | _, _ => false
  end.

Lemma match_compatible p q l : matchSegments p l = true → matchSegments q l = true → compatible p q = true.
Proof.
  revert q l. induction p as [|a p IH]; intros [|b q] [|x l]; cbn [matchSegments compatible]; try done.
  intros [H1 H2]%andb_true_iff [H3 H4]%andb_true_iff. rewrite (IH _ _ H2 H4), andb_true_r.
  destruct (hasPrefix a "{"); [done|]. destruct (hasPrefix b "{"); [done|].
  apply bool_decide_eq_true in H1, H3. by apply bool_decide_eq_true; congruence.
Qed.


Lemma families_apart :
  forallb (λ f, forallb (λ g, bool_decide (f = g) || negb (compatible (split slash f) (split slash g)))
    (elements (dom PayloadMaxima))) (elements (dom PayloadMaxima)) = true.
Proof. vm_compute. reflexivity. Qed.

Lemma apart_unique (F : list string) f g t :
  forallb (λ f, forallb (λ g, bool_decide (f = g) || negb (compatible (split slash f) (split slash g))) F) F = true →
  f ∈ F → g ∈ F →
  matchSegments (split slash f) (split slash t) = true → matchSegments (split slash g) (split slash t) = true → f = g.
Proof.
  intros H Hf%list_elem_of_In Hg%list_elem_of_In H1 H2. rewrite forallb_forall in H.
  specialize (H f Hf). cbv beta in H. rewrite forallb_forall in H. specialize (H g Hg). cbv beta in H.
  rewrite (match_compatible _ _ _ H1 H2), orb_false_r in H. by apply bool_decide_eq_true in H.
Qed.

Lemma family_unique f g t :
  f ∈ dom PayloadMaxima → g ∈ dom PayloadMaxima →
  matchSegments (split slash f) (split slash t) = true → matchSegments (split slash g) (split slash t) = true → f = g.
Proof. intros Hf%elem_of_elements Hg%elem_of_elements. exact (apart_unique _ f g t families_apart Hf Hg). Qed.

(** The family of a topic, and with it the maximum and the member set its
    payload is held to, does not depend on the order in which the table is
    ranged over. *)
Theorem family_order_irrelevant visit visit' topic :
  visit ≡ₚ elements (dom PayloadMaxima) → visit' ≡ₚ elements (dom PayloadMaxima) →
  PayloadFamily visit topic = PayloadFamily visit' topic.
Proof.
  intros P P'. unfold PayloadFamily. set (m := λ f, matchSegments (split slash f) (split slash topic)).
  assert (∀ v f, v ≡ₚ elements (dom PayloadMaxima) → List.find m v = Some f → f ∈ dom PayloadMaxima ∧ m f = true) as Hs.
  { intros v f Hv [Hi Hm]%List.find_some. split; [|done]. by apply elem_of_elements; rewrite <-Hv; apply list_elem_of_In. }
  assert (∀ v v' f, v ≡ₚ elements (dom PayloadMaxima) → v' ≡ₚ elements (dom PayloadMaxima) →
    List.find m v = Some f → List.find m v' = Some f) as Hf.
  { intros v v' f Hv Hv' Hfind. destruct (Hs _ _ Hv Hfind) as [Hd Hm]. destruct (List.find m v') as [g|] eqn:Eg.
    - destruct (Hs _ _ Hv' Eg) as [Hd' Hm']. f_equal. by eapply family_unique.
    - assert (In f v') as Hi by (apply list_elem_of_In; rewrite Hv'; by apply elem_of_elements).
      pose proof (List.find_none _ _ Eg _ Hi). congruence. }
  destruct (List.find m visit) as [f|] eqn:E; [by rewrite (Hf _ _ _ P P' E)|].
  destruct (List.find m visit') as [g|] eqn:E'; [|done]. by rewrite (Hf _ _ _ P' P E') in E.
Qed.

Lemma family_order_irrelevant_witness :
  PayloadFamily (elements (dom PayloadMaxima)) "ori/d1/evidence/outbound" =
  PayloadFamily (rev (elements (dom PayloadMaxima))) "ori/d1/evidence/outbound".
Proof.
  apply (family_order_irrelevant (elements (dom PayloadMaxima)) (rev (elements (dom PayloadMaxima)))); [reflexivity|].
  exact (Permutation_sym (Permutation_rev (elements (dom PayloadMaxima)))).
Defined.

(** The size class of a payload is the least power of two not below its
    length. *)
Theorem SizeClass_least length :
  1 ≤ length ≤ 2 ^ 62 → ∃ k, 0 ≤ k ∧ SizeClass length = 2 ^ k ∧ length ≤ 2 ^ k ∧ ∀ j, 0 ≤ j → length ≤ 2 ^ j → k ≤ j.
Proof.
  intros Hl. unfold SizeClass. destruct (Z.leb_spec length 1).
  { exists 0. split_and!; [done|done|cbn; lia|]. intros; lia. }
  pose proof (Z.log2_spec (length - 1) ltac:(lia)) as [Hlo Hhi]. pose proof (Z.log2_nonneg (length - 1)).
  assert (Z.log2 (length - 1) < 62) by (apply Z.log2_lt_pow2; lia).
  exists (Z.log2 (length - 1) + 1). rewrite Z.shiftl_1_l. split; [lia|]. split; [|split].
  - apply wrap64_id. unfold in_i64, i64_min, i64_max.
    assert (2 ^ (Z.log2 (length - 1) + 1) ≤ 2 ^ 62) by (apply Z.pow_le_mono_r; lia).
    assert (0 < 2 ^ (Z.log2 (length - 1) + 1)) by (apply Z.pow_pos_nonneg; lia). lia.
  - rewrite Z.add_1_r. lia.
  - intros j Hj Hb. assert (Z.log2 (length - 1) < j); [|lia]. apply Z.log2_lt_pow2; lia.
Qed.

Lemma SizeClass_least_witness :
  ∃ k, 0 ≤ k ∧ SizeClass 1000 = 2 ^ k ∧ 1000 ≤ 2 ^ k ∧ ∀ j, 0 ≤ j → 1000 ≤ 2 ^ j → k ≤ j.
Proof. apply (SizeClass_least 1000). split; vm_compute; discriminate. Defined.
End Contracts.
