(* ===== verification/Heap.v ===== *)
(** * Go's [container/heap] over elements that know their place

    The two heaps of the replay state hold pointers to the same objects; each
    object's [index] field is kept by [Swap] and [Push]. An element is named by
    its key, [arr] is the slice and [ix] the index fields. *)
From S2P Require Import Prelude.

Module Heap.

Record heap := MkHeap { arr : list string; ix : gmap string nat }.

Definition emptyHeap : heap := MkHeap [] ∅.

(** [h[i], h[j] = h[j], h[i]], then the two index fields. An index out of
    range, on which Go panics, leaves the heap alone. *)
Definition Swap (i j : nat) (h : heap) : heap :=
  match arr h !! i, arr h !! j with
  | Some a, Some b => MkHeap (<[j := a]> (<[i := b]> (arr h))) (<[a := j]> (<[b := i]> (ix h)))
  | _, _ => h
  end.

Section Ops.
(** [Less] compares the elements' [val]. *)
Variable val : string → Z.

Definition valAt (l : list string) (i : nat) : Z := from_option val 0 (l !! i).
Definition Less (i j : nat) (h : heap) : bool := valAt (arr h) i <? valAt (arr h) j.

Fixpoint up (fuel : nat) (j : nat) (h : heap) : heap :=
  match fuel with
  | O => h
  | S fuel' =>
    let i := ((j - 1) / 2)%nat in
    if bool_decide (i = j) || negb (Less j i h) then h else up fuel' i (Swap i j h)
  end.

(** The heap, and where the element ended. *)
Fixpoint down (fuel : nat) (i n : nat) (h : heap) : heap * nat :=
  match fuel with
  | O => (h, i)
  | S fuel' =>
    let j1 := (2 * i + 1)%nat in
    if (n <=? j1)%nat then (h, i)
    else
      let j2 := (j1 + 1)%nat in
      let j := if (j2 <? n)%nat && Less j2 j1 h then j2 else j1 in
      if negb (Less j i h) then (h, i) else down fuel' j n (Swap i j h)
  end.

(** [heap.Push]: the element's own [Push] sets its index. *)
Definition Push (x : string) (h : heap) : heap :=
  let n := length (arr h) in
  up (S n) n (MkHeap (arr h ++ [x]) (<[x := n]> (ix h))).

Definition Pop (h : heap) : heap := MkHeap (take (length (arr h) - 1) (arr h)) (ix h).

(** [heap.Remove]. *)
Definition RemoveAt (i : nat) (h : heap) : heap :=
  let n := (length (arr h) - 1)%nat in
  if bool_decide (n = i) then Pop h
  else
    let '(h1, i') := down n i n (Swap i n h) in
    Pop (if (i <? i')%nat then h1 else up (S i) i h1).

(** [heap.Init]: [down] from the last parent to the root. *)
Fixpoint initFrom (i n : nat) (h : heap) : heap :=
  match i with
  | O => h
  | S i' => initFrom i' n (down n i' n h).1
  end.
Definition Init (h : heap) : heap := initFrom (length (arr h) / 2)%nat (length (arr h)) h.

(** ** The heap order, on the values by position *)
Definition par (p k : nat) : Prop := (k = 2 * p + 1 ∨ k = 2 * p + 2)%nat.

Definition ordered (m n : nat) (f : nat → Z) : Prop := ∀ p k, (m ≤ p)%nat → par p k → (k < n)%nat → f p ≤ f k.

(** Ordered but for the element at [j], which may be below its parent. *)
Definition up_ok (n j : nat) (f : nat → Z) : Prop :=
  (∀ p k, par p k → (k < n)%nat → k ≠ j → f p ≤ f k) ∧
  (∀ p k, par p j → par j k → (k < n)%nat → f p ≤ f k).

(** Ordered from [m] but for the element at [i], whatever its neighbours. *)
Definition down_ok (m n i : nat) (f : nat → Z) : Prop :=
  (∀ p k, (m ≤ p)%nat → par p k → (k < n)%nat → k ≠ i → p ≠ i → f p ≤ f k) ∧
  (∀ p k, (m ≤ p)%nat → par p i → par i k → (k < n)%nat → f p ≤ f k).

Definition swapped (i j : nat) (f g : nat → Z) : Prop :=
  g i = f j ∧ g j = f i ∧ ∀ k, k ≠ i → k ≠ j → g k = f k.

Lemma up_step n i j f g :
  up_ok n j f → par i j → f j < f i → swapped i j f g → up_ok n i g.
Proof.
  intros [H1 H2] Hij Hlt (Gi & Gj & Go).
  assert (∀ p k, par p k → (p < k)%nat) as Hlt' by (unfold par; lia).
  assert (∀ p q k, par p k → par q k → p = q) as Huniq by (unfold par; lia).
  split.
  - intros p k Hpk Hk Hne. destruct (decide (k = j)) as [->|Hkj].
    + replace p with i by (by eapply Huniq). rewrite Gi, Gj. lia.
    + rewrite (Go k) by done. destruct (decide (p = i)) as [->|Hpi].
      * rewrite Gi. pose proof (H1 i k Hpk Hk Hkj). lia.
      * destruct (decide (p = j)) as [->|Hpj]; [rewrite Gj; by apply H2|]. rewrite Go by done. by apply H1.
  - intros p k Hpi Hik Hk. pose proof (Hlt' _ _ Hpi). pose proof (Hlt' _ _ Hij). rewrite (Go p) by lia.
    assert (f p ≤ f i) by (apply H1; [done|pose proof (Hlt' _ _ Hik); lia|lia]).
    destruct (decide (k = j)) as [->|]; [by rewrite Gj|]. pose proof (Hlt' _ _ Hik). rewrite Go by lia.
    pose proof (H1 i k Hik Hk ltac:(done)). lia.
Qed.

Lemma down_step m n i j f g :
  down_ok m n i f → (m ≤ i)%nat → par i j → (j < n)%nat → (∀ k, par i k → (k < n)%nat → f j ≤ f k) → f j < f i →
  swapped i j f g → down_ok m n j g ∧ (∀ p, par p j → g p ≤ g j).
Proof.
  intros [H1 H2] Hm Hij Hj Hmin Hlt (Gi & Gj & Go).
  assert (∀ p k, par p k → (p < k)%nat) as Hlt' by (unfold par; lia).
  assert (∀ p q k, par p k → par q k → p = q) as Huniq by (unfold par; lia).
  pose proof (Hlt' _ _ Hij). split; [split|].
  - intros p k Hmp Hpk Hk Hkj Hpj. pose proof (Hlt' _ _ Hpk). destruct (decide (k = i)) as [->|Hki].
    + rewrite Gi, (Go p) by lia. by apply H2.
    + rewrite (Go k) by done. destruct (decide (p = i)) as [->|Hpi]; [rewrite Gi; by apply Hmin|].
      rewrite Go by done. by apply H1.
  - intros p k Hmp Hpj Hjk Hk. pose proof (Hlt' _ _ Hjk). replace p with i by (by eapply Huniq).
    rewrite Gi, (Go k) by lia. apply H1; [lia|done|done|lia|lia].
  - intros p Hp. replace p with i by (by eapply Huniq). rewrite Gi, Gj. lia.
Qed.

(** ** What the operations do to the slice *)

(** The same elements, in places their index fields give. *)
Definition placed (h : heap) : Prop := NoDup (arr h) ∧ ∀ k a, arr h !! k = Some a → ix h !! a = Some k.

Record moved (n : nat) (h h' : heap) : Prop := {
  mv_perm : arr h' ≡ₚ arr h;
  mv_placed : placed h → placed h';
  mv_tail : ∀ k, (n ≤ k)%nat → arr h' !! k = arr h !! k }.

#[local] Instance moved_refl n : Reflexive (moved n).
Proof. intros h. by split. Qed.
#[local] Instance moved_trans n : Transitive (moved n).
Proof.
  intros a b c [P1 Q1 T1] [P2 Q2 T2]. split; [by rewrite P2|auto|]. intros k Hk. by rewrite T2, T1.
Qed.

Lemma moved_length n h h' : moved n h h' → length (arr h') = length (arr h).
Proof. intros [P _ _]. by rewrite P. Qed.

Lemma Swap_spec n i j h :
  (i < n)%nat → (j < n)%nat → (n ≤ length (arr h))%nat → i ≠ j →
  moved n h (Swap i j h) ∧ swapped i j (valAt (arr h)) (valAt (arr (Swap i j h))).
Proof.
  intros Hi Hj Hn Hij. destruct (lookup_lt_is_Some_2 (arr h) i ltac:(lia)) as [a Ea].
  destruct (lookup_lt_is_Some_2 (arr h) j ltac:(lia)) as [b Eb]. unfold Swap. rewrite Ea, Eb.
  set (l := <[j:=a]> (<[i:=b]> (arr h))).
  assert (l !! j = Some a) as Lj by (apply list_lookup_insert_eq; rewrite length_insert; lia).
  assert (l !! i = Some b) as Li by (unfold l; rewrite list_lookup_insert_ne by done; apply list_lookup_insert_eq; lia).
  assert (∀ k, k ≠ i → k ≠ j → l !! k = arr h !! k) as Lo by (intros; unfold l; by rewrite !list_lookup_insert_ne).
  assert (l ≡ₚ arr h) as P by (unfold l; by apply Permutation_insert_swap).
  split; [split; cbn; fold l|].
  - done.
  - intros [Hd Hp]. assert (NoDup l) as Hdl by (by rewrite P). split; cbn; fold l; [done|]. intros k c Hk.
    assert (∀ k', l !! k' = Some c → k' = k) as Hu by (intros k' Hk'; by eapply NoDup_lookup).
    destruct (decide (c = a)) as [->|]; [rewrite lookup_insert_eq; f_equal; by apply Hu|]. rewrite lookup_insert_ne by done.
    destruct (decide (c = b)) as [->|]; [rewrite lookup_insert_eq; f_equal; by apply Hu|]. rewrite lookup_insert_ne by done.
    apply Hp. rewrite <-Lo; [done| |]; intros ->; congruence.
  - intros k Hk. apply Lo; lia.
  - unfold swapped, valAt. cbn. fold l. rewrite Li, Lj, Ea, Eb. split_and!; [done..|]. intros k ??. by rewrite Lo.
Qed.

Lemma Less_spec i j h : BoolSpec (valAt (arr h) i < valAt (arr h) j) (valAt (arr h) j ≤ valAt (arr h) i) (Less i j h).
Proof. apply Z.ltb_spec. Qed.

Lemma up_spec n fuel j h :
  (j < n)%nat → (j < fuel)%nat → (n ≤ length (arr h))%nat → up_ok n j (valAt (arr h)) →
  moved n h (up fuel j h) ∧ ordered 0 n (valAt (arr (up fuel j h))).
Proof.
  revert j h. induction fuel as [|fuel IH]; intros j h Hj Hf Hn Hok; [lia|]. cbn [up].
  set (i := ((j - 1) / 2)%nat).
  assert (j ≠ 0%nat → par i j) as Hpar by (intros; unfold i, par; pose proof (Nat.div_mod_eq (j - 1) 2); pose proof (Nat.mod_upper_bound (j - 1) 2); lia).
  assert (i = j ↔ j = 0%nat) as Hij.
  { split; [|intros ->; done]. intros E. destruct (decide (j = 0%nat)); [done|]. specialize (Hpar ltac:(done)). unfold par in Hpar. lia. }
  destruct (bool_decide_reflect (i = j)) as [E|E]; cbn [orb].
  { split; [reflexivity|]. apply Hij in E. destruct Hok as [H1 _]. intros p k _ Hpk Hk. apply H1; [done..|]. unfold par in Hpk. lia. }
  specialize (Hpar ltac:(tauto)). assert (i < j)%nat by (unfold par in Hpar; lia).
  destruct (Less_spec j i h) as [Hlt|Hge]; cbn [negb].
  - destruct (Swap_spec n i j h ltac:(lia) Hj ltac:(lia) ltac:(lia)) as [M S].
    destruct (IH i (Swap i j h) ltac:(lia) ltac:(lia)) as [M' O]; [by rewrite (moved_length _ _ _ M)|by eapply up_step|].
    split; [by etransitivity|done].
  - split; [reflexivity|]. destruct Hok as [H1 _]. intros p k _ Hpk Hk. destruct (decide (k = j)) as [->|]; [|by apply H1].
    replace p with i by (unfold par in *; lia). lia.
Qed.

(** The child [down] compares with: the smaller of the two. *)
Definition child (i n : nat) (h : heap) : nat :=
  let j1 := (2 * i + 1)%nat in if (j1 + 1 <? n)%nat && Less (j1 + 1) j1 h then (j1 + 1)%nat else j1.

Lemma child_spec i n h :
  (2 * i + 1 < n)%nat →
  par i (child i n h) ∧ (child i n h < n)%nat ∧
  ∀ k, par i k → (k < n)%nat → valAt (arr h) (child i n h) ≤ valAt (arr h) k.
Proof.
  intros Hn. unfold child, Less, par. destruct (Nat.ltb_spec (2 * i + 1 + 1) n); cbn [andb].
  - destruct (Z.ltb_spec (valAt (arr h) (2 * i + 1 + 1)) (valAt (arr h) (2 * i + 1))).
    + split_and!; [lia..|]. intros k [-> | ->] Hk; [lia|]. replace (2 * i + 2)%nat with (2 * i + 1 + 1)%nat by lia. lia.
    + split_and!; [lia..|]. intros k [-> | ->] Hk; [lia|]. replace (2 * i + 2)%nat with (2 * i + 1 + 1)%nat by lia. lia.
  - split_and!; [lia..|]. intros k [-> | ->] Hk; lia.
Qed.

Lemma down_unfold fuel i n h :
  down (S fuel) i n h =
  if (n <=? 2 * i + 1)%nat then (h, i)
  else if negb (Less (child i n h) i h) then (h, i) else down fuel (child i n h) n (Swap i (child i n h) h).
Proof. reflexivity. Qed.

(** Sifting down an element that is not below its parent restores the order. *)
Lemma down_ordered m n fuel i h :
  (m ≤ i)%nat → (n - i ≤ fuel)%nat → (i < n)%nat → (n ≤ length (arr h))%nat → down_ok m n i (valAt (arr h)) →
  (∀ p, (m ≤ p)%nat → par p i → valAt (arr h) p ≤ valAt (arr h) i) →
  moved n h (down fuel i n h).1 ∧ ordered m n (valAt (arr (down fuel i n h).1)) ∧ (i ≤ (down fuel i n h).2)%nat.
Proof.
  revert i h. induction fuel as [|fuel IH]; intros i h Hm Hf Hi Hn Hok Hpar; [lia|]. rewrite down_unfold.
  assert ((∀ k, par i k → (k < n)%nat → valAt (arr h) i ≤ valAt (arr h) k) → ordered m n (valAt (arr h))) as Hstop.
  { intros Hc p k Hmp Hpk Hk. destruct (decide (p = i)) as [->|]; [by apply Hc|].
    destruct (decide (k = i)) as [->|]; [by apply Hpar|]. by apply (proj1 Hok). }
  destruct (Nat.leb_spec n (2 * i + 1)) as [Hle|Hgt].
  { split_and!; [reflexivity| |done]. apply Hstop. unfold par. lia. }
  destruct (child_spec i n h Hgt) as (Hc & Hcn & Hmin).
  destruct (Less_spec (child i n h) i h) as [Hlt|Hge]; cbn [negb].
  - assert (i < child i n h)%nat by (unfold par in Hc; lia).
    destruct (Swap_spec n i (child i n h) h Hi Hcn Hn ltac:(lia)) as [M S].
    destruct (down_step m n i (child i n h) _ _ Hok Hm Hc Hcn Hmin Hlt S) as [Hok' Hp'].
    destruct (IH (child i n h) (Swap i (child i n h) h)) as (M' & O & L); [lia|lia|done| |done|auto|].
    { by rewrite (moved_length _ _ _ M). }
    split_and!; [by etransitivity|done|lia].
  - split_and!; [reflexivity| |done]. apply Hstop. intros k Hk Hkn. pose proof (Hmin k Hk Hkn). lia.
Qed.

(** Sifting down any element: the order is restored if it moved, and otherwise
    it is at most out of order with its parent. *)
Lemma down_spec n fuel i h :
  (n - i ≤ fuel)%nat → (i < n)%nat → (n ≤ length (arr h))%nat → down_ok 0 n i (valAt (arr h)) →
  moved n h (down fuel i n h).1 ∧ (i ≤ (down fuel i n h).2)%nat ∧
  ((i < (down fuel i n h).2)%nat → ordered 0 n (valAt (arr (down fuel i n h).1))) ∧
  ((down fuel i n h).2 = i → up_ok n i (valAt (arr (down fuel i n h).1))).
Proof.
  intros Hf Hi Hn Hok. destruct fuel as [|fuel]; [lia|]. rewrite down_unfold.
  assert ((∀ k, par i k → (k < n)%nat → valAt (arr h) i ≤ valAt (arr h) k) → up_ok n i (valAt (arr h))) as Hstop.
  { intros Hc. split; [|intros p k; apply (proj2 Hok); lia]. intros p k Hpk Hk Hne.
    destruct (decide (p = i)) as [->|]; [by apply Hc|]. apply (proj1 Hok); [lia|done..]. }
  destruct (Nat.leb_spec n (2 * i + 1)) as [Hle|Hgt].
  { cbn. split_and!; [reflexivity|done|lia|]. intros _. apply Hstop. unfold par. lia. }
  destruct (child_spec i n h Hgt) as (Hc & Hcn & Hmin).
  destruct (Less_spec (child i n h) i h) as [Hlt|Hge]; cbn [negb].
  - assert (i < child i n h)%nat by (unfold par in Hc; lia).
    destruct (Swap_spec n i (child i n h) h Hi Hcn Hn ltac:(lia)) as [M S].
    destruct (down_step 0 n i (child i n h) _ _ Hok ltac:(lia) Hc Hcn Hmin Hlt S) as [Hok' Hp'].
    destruct (down_ordered 0 n fuel (child i n h) (Swap i (child i n h) h)) as (M' & O & L); [lia|lia|done| |done|auto|].
    { by rewrite (moved_length _ _ _ M). }
    split_and!; [by etransitivity|lia|done|lia].
  - cbn. split_and!; [reflexivity|done|lia|]. intros _. apply Hstop. intros k Hk Hkn. pose proof (Hmin k Hk Hkn). lia.
Qed.

(** ** The operations on a well-formed heap *)
Record valid (h : heap) : Prop := {
  v_placed : placed h;
  v_ordered : ordered 0 (length (arr h)) (valAt (arr h)) }.

Lemma valid_empty : valid emptyHeap.
Proof. split; [split; [constructor|done]|]. intros p k _ _ H. cbn in H. lia. Qed.

Lemma ordered_ext m n f g : (∀ k, (k < n)%nat → f k = g k) → ordered m n f → ordered m n g.
Proof. intros E H p k Hp Hpk Hk. rewrite <-!E by (unfold par in Hpk; lia). by apply H. Qed.

(** The first element is a least one. *)
Lemma valid_min h x y : valid h → arr h !! 0%nat = Some x → y ∈ arr h → val x ≤ val y.
Proof.
  intros [_ O] Hx [k Hy]%list_elem_of_lookup. revert y Hy. induction (lt_wf k) as [k _ IH]. intros y Hy.
  destruct (decide (k = 0%nat)) as [->|]; [by simplify_eq|].
  set (p := ((k - 1) / 2)%nat).
  assert (par p k) as Hp by (unfold p, par; pose proof (Nat.div_mod_eq (k - 1) 2); pose proof (Nat.mod_upper_bound (k - 1) 2); lia).
  pose proof (lookup_lt_Some _ _ _ Hy). assert (p < k)%nat by (unfold par in Hp; lia).
  destruct (lookup_lt_is_Some_2 (arr h) p ltac:(lia)) as [z Hz]. specialize (IH p ltac:(done) z Hz).
  pose proof (O p k ltac:(lia) Hp ltac:(done)) as H1. unfold valAt in H1. rewrite Hz, Hy in H1. cbn in H1. lia.
Qed.

Lemma Push_spec x h : valid h → x ∉ arr h → valid (Push x h) ∧ arr (Push x h) ≡ₚ x :: arr h.
Proof.
  intros [[Hd Hi] Ho] Hx. unfold Push. set (n := length (arr h)). set (h1 := MkHeap (arr h ++ [x]) (<[x:=n]> (ix h))).
  assert (length (arr h1) = S n) as Hl by (cbn; rewrite length_app; cbn; lia).
  assert (placed h1) as P1.
  { split; cbn; [apply NoDup_app; split_and!; [done|set_solver|apply NoDup_singleton]|].
    intros k a [Hk|[Hk Ha]]%lookup_app_Some.
    - rewrite lookup_insert_ne; [by apply Hi|]. intros ->. by apply list_elem_of_lookup_2 in Hk.
    - apply list_lookup_singleton_Some in Ha as [Hk0 <-]. rewrite lookup_insert_eq. f_equal. unfold n. lia. }
  destruct (up_spec (S n) (S n) n h1) as [M O]; [lia|lia|lia| |].
  - split.
    + intros p k Hpk Hk Hne. unfold valAt, h1. cbn. rewrite !lookup_app_l by (unfold par in Hpk; unfold n in *; lia).
      apply (Ho p k); [lia|done|unfold n in *; lia].
    + intros p k _ Hnk Hk. unfold par in Hnk. lia.
  - split; [|rewrite (mv_perm _ _ _ M); cbn; by rewrite (Permutation_app_comm _ [x])].
    split; [by apply (mv_placed _ _ _ M)|]. by rewrite (moved_length _ _ _ M), Hl.
Qed.

(** Taking the last element off. *)
Lemma Pop_spec h x n :
  length (arr h) = S n → arr h !! n = Some x → placed h → ordered 0 n (valAt (arr h)) →
  valid (Pop h) ∧ arr h ≡ₚ x :: arr (Pop h).
Proof.
  intros Hl Hx [Hd Hi] Ho. unfold Pop. rewrite Hl, Nat.sub_succ, Nat.sub_0_r.
  assert (arr h = take n (arr h) ++ [x]) as E.
  { rewrite <-(take_drop_middle (arr h) n x Hx) at 1. f_equal. rewrite drop_ge by lia. done. }
  split; [split; [split|]|]; cbn.
  - rewrite E in Hd. by apply NoDup_app in Hd as [? _].
  - intros k a [Hk _]%lookup_take_Some. by apply Hi.
  - rewrite length_take, Hl, Nat.min_l by lia. eapply ordered_ext; [|exact Ho]. intros k Hk. unfold valAt. by rewrite lookup_take_lt.
  - rewrite E at 1. by rewrite (Permutation_app_comm _ [x]).
Qed.

Lemma RemoveAt_spec i x h :
  valid h → arr h !! i = Some x → valid (RemoveAt i h) ∧ arr h ≡ₚ x :: arr (RemoveAt i h).
Proof.
  intros [Hp Ho] Hx. pose proof (lookup_lt_Some _ _ _ Hx) as Hi. unfold RemoveAt.
  set (n := (length (arr h) - 1)%nat). assert (length (arr h) = S n) as Hl by (unfold n; lia). rewrite Hl in Ho.
  destruct (bool_decide_reflect (n = i)) as [->|Hne].
  { apply Pop_spec with (n := i); [done..|]. intros p k ???. apply Ho; [lia|done|lia]. }
  destruct (Swap_spec (S n) i n h ltac:(lia) ltac:(lia) ltac:(lia) ltac:(done)) as [M (Si & Sn & So)].
  set (h0 := Swap i n h) in *.
  assert (arr h0 !! n = Some x) as Hn0.
  { destruct (lookup_lt_is_Some_2 (arr h) n ltac:(lia)) as [b Eb]. unfold h0, Swap. rewrite Hx, Eb. cbn.
    apply list_lookup_insert_eq. rewrite length_insert. lia. }
  assert (length (arr h0) = S n) as Hl0 by (by rewrite (moved_length _ _ _ M)).
  assert (down_ok 0 n i (valAt (arr h0))) as Hok.
  { split; [intros p k _ Hpk Hk Hki Hpi|intros p k _ Hpi Hik Hk]; unfold par in *; rewrite !So by lia.
    - apply Ho; [lia|done|lia].
    - transitivity (valAt (arr h) i); apply Ho; unfold par; lia. }
  destruct (down n i n h0) as [h1 i'] eqn:Ed. pose proof (down_spec n n i h0 ltac:(lia) ltac:(lia) ltac:(lia) Hok) as D.
  rewrite Ed in D. cbn in D. destruct D as (M1 & Hle & D1 & D2).
  assert (∀ h2, moved n h1 h2 → ordered 0 n (valAt (arr h2)) → valid (Pop h2) ∧ arr h ≡ₚ x :: arr (Pop h2)) as Hend.
  { intros h2 M2 O2. rewrite <-(mv_perm _ _ _ M), <-(mv_perm _ _ _ M1), <-(mv_perm _ _ _ M2).
    apply Pop_spec with (n := n); [|..|done].
    - by rewrite (moved_length _ _ _ M2), (moved_length _ _ _ M1).
    - by rewrite (mv_tail _ _ _ M2), (mv_tail _ _ _ M1).
    - by apply (mv_placed _ _ _ M2), (mv_placed _ _ _ M1), (mv_placed _ _ _ M). }
  destruct (Nat.ltb_spec i i') as [Hlt|Hge].
  - apply Hend; [reflexivity|by apply D1].
  - assert (i' = i) as -> by lia. specialize (D2 eq_refl).
    destruct (up_spec n (S i) i h1) as [M2 O2]; [lia|lia| |done|by apply Hend].
    rewrite (moved_length _ _ _ M1). lia.
Qed.

(** [Init] orders any slice: from the last parent down, each suffix of the
    tree is in order. *)
Lemma initFrom_spec i n h :
  (i ≤ n / 2)%nat → n = length (arr h) → ordered i n (valAt (arr h)) →
  moved n h (initFrom i n h) ∧ ordered 0 n (valAt (arr (initFrom i n h))).
Proof.
  revert h. induction i as [|i IH]; intros h Hi Hn Ho; cbn [initFrom]; [by split|].
  assert (2 * (i + 1) ≤ n)%nat by (pose proof (Nat.div_mod_eq n 2); lia).
  assert (down_ok i n i (valAt (arr h))) as Hok.
  { split; [intros p k Hm Hpk Hk Hki Hpi; apply Ho; [lia|done..]|]. intros p k Hm Hpi Hik Hk. unfold par in *. lia. }
  destruct (down_ordered i n n i h) as (M & O & _); [lia|lia|lia|lia|done|unfold par; lia|].
  destruct (IH (down n i n h).1) as [M' O']; [lia|by rewrite (moved_length _ _ _ M)|done|].
  split; [by etransitivity|done].
Qed.

Lemma Init_spec h : placed h → valid (Init h) ∧ arr (Init h) ≡ₚ arr h.
Proof.
  intros Hp. unfold Init. set (n := length (arr h)).
  destruct (initFrom_spec (n / 2) n h) as [M O]; [done|done| |].
  - intros p k Hm Hpk Hk. pose proof (Nat.div_mod_eq n 2). pose proof (Nat.mod_upper_bound n 2). unfold par in Hpk. lia.
  - split; [split|exact (mv_perm _ _ _ M)]; [by apply (mv_placed _ _ _ M)|]. by rewrite (moved_length _ _ _ M).
Qed.
End Ops.

(** Only the values of the elements matter. *)
Lemma valid_ext val val' h : (∀ x, x ∈ arr h → val x = val' x) → valid val h → valid val' h.
Proof.
  intros E [P O]. split; [done|]. eapply ordered_ext; [|exact O]. intros k Hk. unfold valAt.
  destruct (arr h !! k) as [x|] eqn:Ex; [|done]. cbn. apply E. by eapply list_elem_of_lookup_2.
Qed.

Lemma Init_keeps val h : arr h = [] → Init val h = h.
Proof. intros E. unfold Init. by rewrite E. Qed.
End Heap.
