(* ===== verification/Replay.v ===== *)
(** * Freshness and replay of signed envelopes (mqttauth/replay.go)

    A receiver holds the keys of the envelopes it accepted until each is stale,
    in a map and two heaps, and below its floor it accepts nothing: a key it
    drops raises the floor past its signing time in the same step. *)
From S2P Require Import Prelude Heap.
Import Heap.

Module Replay.

(** [heldKey]: its [index] and [dropIndex] are the [ix] of the two heaps. *)
Record heldKey := MkHeldKey { hk_signedAt : Z; hk_receivedAt : Z; hk_dropAt : Z }.

Record replayState := MkReplay {
  rs_skew : Z; rs_ttl : Z; rs_stores : bool;
  rs_floor : Z; rs_storedFloor : Z; rs_storedSet : bool;
  rs_keys : gmap string heldKey; rs_bySign : heap; rs_byDrop : heap; rs_maxKeys : Z }.

Inductive replayError : Type :=
| ErrStaleTimestamp | ErrFutureTimestamp | ErrBeforeReplayFloor | ErrReplayDetected.

Definition newReplayState (skew ttl : Z) (stores : bool) (maxKeys startClock : Z) : replayState :=
  MkReplay skew ttl stores startClock 0 false ∅ emptyHeap emptyHeap maxKeys.

Definition recheck (key : string) (signedAt : Z) (s : replayState) : option replayError :=
  if signedAt <? rs_floor s then Some ErrBeforeReplayFloor
  else match rs_keys s !! key with Some _ => Some ErrReplayDetected | None => None end.

Definition check (key : string) (signedAt t : Z) (s : replayState) : option replayError :=
  if signedAt <? wrap64 (t - rs_skew s) then Some ErrStaleTimestamp
  else if wrap64 (t + rs_skew s) <? signedAt then Some ErrFutureTimestamp
  else recheck key signedAt s.

(** The heaps' orders: [signHeap.Less] and [dropHeap.Less]. *)
Definition signOf (keys : gmap string heldKey) (k : string) : Z := from_option hk_signedAt 0 (keys !! k).
Definition dropOf (keys : gmap string heldKey) (k : string) : Z := from_option hk_dropAt 0 (keys !! k).

Definition dropAt (s : replayState) (signedAt receivedAt : Z) : Z :=
  let at_ := wrap64 (wrap64 (signedAt + rs_skew s) + 1) in
  if 0 <? rs_ttl s then Z.max at_ (wrap64 (receivedAt + rs_ttl s)) else at_.

(** [drop] of the held key named [k]; the heaps still read it while it goes. *)
Definition drop (k : string) (s : replayState) : replayState :=
  match rs_keys s !! k with
  | None => s
  | Some held =>
    let raised := wrap64 (hk_signedAt held + 1) in
    MkReplay (rs_skew s) (rs_ttl s) (rs_stores s)
      (if rs_floor s <? raised then raised else rs_floor s)
      (if negb (rs_storedSet s) || (rs_storedFloor s <? raised) then raised else rs_storedFloor s) true
      (delete k (rs_keys s))
      (RemoveAt (signOf (rs_keys s)) (default 0%nat (ix (rs_bySign s) !! k)) (rs_bySign s))
      (RemoveAt (dropOf (rs_keys s)) (default 0%nat (ix (rs_byDrop s) !! k)) (rs_byDrop s))
      (rs_maxKeys s)
  end.

(** [storedSet] is set by the first drop. *)
Fixpoint pruneLoop (fuel : nat) (t : Z) (s : replayState) : replayState :=
  match fuel, arr (rs_byDrop s) with
  | S fuel', k :: _ => if dropOf (rs_keys s) k <=? t then pruneLoop fuel' t (drop k s) else s
  | _, _ => s
  end.
Definition prune (t : Z) (s : replayState) : replayState := pruneLoop (length (arr (rs_byDrop s))) t s.

Definition evict (s : replayState) : replayState :=
  match arr (rs_bySign s) with k :: _ => drop k s | [] => s end.

Definition record (key : string) (signedAt receivedAt : Z) (s0 : replayState) : replayState :=
  let s := if (0 <? rs_maxKeys s0) && (rs_maxKeys s0 <=? Z.of_nat (size (rs_keys s0))) then evict s0 else s0 in
  let held := MkHeldKey signedAt receivedAt (dropAt s signedAt receivedAt) in
  let keys := <[key := held]> (rs_keys s) in
  MkReplay (rs_skew s) (rs_ttl s) (rs_stores s) (rs_floor s) (rs_storedFloor s) (rs_storedSet s)
    keys (Push (signOf keys) key (rs_bySign s)) (Push (dropOf keys) key (rs_byDrop s)) (rs_maxKeys s).

(** [restart]: the drop times move with the skew, and the drop heap is built
    again. *)
Definition restart (t skew : Z) (s : replayState) : replayState :=
  let s1 := if rs_stores s then
      MkReplay skew (rs_ttl s) true (rs_floor s) (rs_storedFloor s) (rs_storedSet s) (rs_keys s) (rs_bySign s) (rs_byDrop s) (rs_maxKeys s)
    else MkReplay skew (rs_ttl s) false (rs_floor s) 0 false ∅ emptyHeap emptyHeap (rs_maxKeys s) in
  let keys := (λ h, MkHeldKey (hk_signedAt h) (hk_receivedAt h) (dropAt s1 (hk_signedAt h) (hk_receivedAt h))) <$> rs_keys s1 in
  MkReplay skew (rs_ttl s1) (rs_stores s1)
    (if rs_storedSet s1 && (t <? rs_storedFloor s1) then rs_storedFloor s1 else t)
    (rs_storedFloor s1) (rs_storedSet s1) keys (rs_bySign s1) (Init (dropOf keys) (rs_byDrop s1)) (rs_maxKeys s1).

Definition rotate (keepsPrevious : bool) (t : Z) (s : replayState) : replayState :=
  if keepsPrevious then s
  else MkReplay (rs_skew s) (rs_ttl s) (rs_stores s) t 0 false ∅ emptyHeap emptyHeap (rs_maxKeys s).

Definition replayText (e : replayError) : string :=
  match e with
  | ErrStaleTimestamp => "mqtt auth stale_timestamp"
  | ErrFutureTimestamp => "mqtt auth future_timestamp"
  | ErrBeforeReplayFloor => "mqtt auth before_replay_floor"
  | ErrReplayDetected => "mqtt auth replay_detected"
  end.

(** [checkFreshAndRecord]: [decide] acts on the receiver's own state [w] and
    says whether the payload was applied; without it the key is recorded at
    once. *)
Definition checkFreshAndRecord {W} (decide : option (W → bool * res unit * W)) (key : string) (signedAt t : Z)
    (s : replayState) (w : W) : res unit * replayState * W :=
  let s1 := prune t s in
  match check key signedAt t s1 with
  | Some e => (Err (EMsg (replayText e)), s1, w)
  | None =>
    match decide with
    | None => (Ok tt, record key signedAt t s1, w)
    | Some d =>
      let '(applied, err, w') := d w in
      if applied then
        match recheck key signedAt s1 with
        | Some e => (Err (EMsg (replayText e)), s1, w')
        | None => (err, record key signedAt t s1, w')
        end
      else (err, s1, w')
    end
  end.

(** ** The invariant *)
Record rinv (s : replayState) : Prop := {
  ri_sign : valid (signOf (rs_keys s)) (rs_bySign s);
  ri_drop : valid (dropOf (rs_keys s)) (rs_byDrop s);
  ri_inSign : ∀ k, k ∈ arr (rs_bySign s) ↔ k ∈ dom (rs_keys s);
  ri_inDrop : ∀ k, k ∈ arr (rs_byDrop s) ↔ k ∈ dom (rs_keys s) }.

Lemma rinv_new skew ttl stores maxKeys t : rinv (newReplayState skew ttl stores maxKeys t).
Proof. split; [apply valid_empty|apply valid_empty|..]; cbn; intros k; rewrite dom_empty; set_solver. Qed.

(** Removing a held key from one heap. *)
Lemma remove_held val h k :
  valid val h → k ∈ arr h →
  valid val (RemoveAt val (default 0%nat (ix h !! k)) h) ∧ arr h ≡ₚ k :: arr (RemoveAt val (default 0%nat (ix h !! k)) h).
Proof.
  intros Hv [i Hi]%list_elem_of_lookup. pose proof (v_placed _ _ Hv) as [_ Hp]. rewrite (Hp _ _ Hi). cbn.
  by apply RemoveAt_spec.
Qed.

Lemma perm_dom (l l' : list string) (m : gmap string heldKey) k :
  NoDup l → l ≡ₚ k :: l' → (∀ x, x ∈ l ↔ x ∈ dom m) → ∀ x, x ∈ l' ↔ x ∈ dom (delete k m).
Proof.
  intros Hd Hp Hl x. rewrite dom_delete_L, elem_of_difference, <-Hl, Hp, elem_of_cons, elem_of_singleton.
  rewrite Hp in Hd. apply NoDup_cons in Hd as [Hk _]. naive_solver.
Qed.

Lemma drop_rinv k s : rinv s → k ∈ dom (rs_keys s) → rinv (drop k s).
Proof.
  intros [V1 V2 I1 I2] Hk. unfold drop. pose proof Hk as [held Eh]%elem_of_dom. rewrite Eh.
  destruct (remove_held _ _ k V1) as [V1' P1]; [by apply I1|]. destruct (remove_held _ _ k V2) as [V2' P2]; [by apply I2|].
  pose proof (perm_dom _ _ _ _ (proj1 (v_placed _ _ V1)) P1 I1) as J1.
  pose proof (perm_dom _ _ _ _ (proj1 (v_placed _ _ V2)) P2 I2) as J2.
  assert (∀ x, x ∈ dom (delete k (rs_keys s)) → rs_keys s !! x = delete k (rs_keys s) !! x) as Hsame.
  { intros x Hx. rewrite dom_delete_L in Hx. rewrite lookup_delete_ne; [done|]. set_solver. }
  split; cbn [rs_keys rs_bySign rs_byDrop]; [|by apply valid_ext with (dropOf (rs_keys s));
      [intros x Hx%J2%Hsame; unfold dropOf; by rewrite Hx|]|done|done].
  apply valid_ext with (signOf (rs_keys s)); [|done]. intros x Hx%J1%Hsame. unfold signOf. by rewrite Hx.
Qed.

Lemma drop_keys k s : rs_keys (drop k s) = delete k (rs_keys s).
Proof. unfold drop. destruct (rs_keys s !! k) eqn:E; [done|]. by rewrite delete_id. Qed.

Lemma dom_size_arr l (m : gmap string heldKey) : NoDup l → (∀ x, x ∈ l ↔ x ∈ dom m) → length l = size m.
Proof.
  intros Hd Hl. rewrite <-size_dom. rewrite <-(size_list_to_set (C:=gset string) l Hd). f_equal. set_solver.
Qed.

(** What every step keeps. *)
Definition same_setup (s s' : replayState) : Prop :=
  rs_skew s' = rs_skew s ∧ rs_ttl s' = rs_ttl s ∧ rs_stores s' = rs_stores s ∧ rs_maxKeys s' = rs_maxKeys s.

Lemma drop_setup k s : same_setup s (drop k s).
Proof. unfold drop, same_setup. by destruct (rs_keys s !! k). Qed.

Lemma record_shape key signedAt t s :
  let s1 := if (0 <? rs_maxKeys s) && (rs_maxKeys s <=? Z.of_nat (size (rs_keys s))) then evict s else s in
  rs_keys (record key signedAt t s) = <[key := MkHeldKey signedAt t (dropAt s1 signedAt t)]> (rs_keys s1).
Proof. reflexivity. Qed.

Lemma evict_rinv s : rinv s → rinv (evict s).
Proof.
  intros Hs. unfold evict. destruct (arr (rs_bySign s)) as [|k l] eqn:E; [done|]. apply drop_rinv; [done|].
  apply (ri_inSign _ Hs). rewrite E. set_solver.
Qed.

Lemma push_held val val' h (m : gmap string heldKey) k held :
  valid val h → (∀ x, x ∈ arr h → val x = val' x) → (∀ x, x ∈ arr h ↔ x ∈ dom m) → m !! k = None →
  valid val' (Push val' k h) ∧ ∀ x, x ∈ arr (Push val' k h) ↔ x ∈ dom (<[k := held]> m).
Proof.
  intros Hv Hs Hd Hk. destruct (Push_spec val' k h) as [V P].
  - by apply valid_ext with val.
  - intros Hx%Hd%elem_of_dom. rewrite Hk in Hx. by destruct Hx.
  - split; [done|]. intros x. rewrite P, dom_insert_L, elem_of_cons, Hd. set_solver.
Qed.

Lemma record_rinv key signedAt t s : rinv s → rs_keys s !! key = None → rinv (record key signedAt t s).
Proof.
  intros Hs Hk. unfold record. set (s1 := if (0 <? rs_maxKeys s) && (rs_maxKeys s <=? Z.of_nat (size (rs_keys s))) then evict s else s).
  assert (rinv s1 ∧ rs_keys s1 !! key = None) as [[V1 V2 I1 I2] Hk1].
  { unfold s1. destruct (_ && _); [|done]. split; [by apply evict_rinv|]. unfold evict.
    destruct (arr (rs_bySign s)) as [|k l]; [done|]. rewrite drop_keys. rewrite lookup_delete_None. by right. }
  set (held := MkHeldKey _ _ _).
  assert (∀ x, x ∈ dom (rs_keys s1) → rs_keys s1 !! x = <[key := held]> (rs_keys s1) !! x) as Hsame.
  { intros x [? Hx]%elem_of_dom. rewrite lookup_insert_ne; [done|]. congruence. }
  destruct (push_held (signOf (rs_keys s1)) (signOf (<[key := held]> (rs_keys s1))) (rs_bySign s1) (rs_keys s1) key held) as [W1 J1];
    [done|intros x Hx%I1%Hsame; unfold signOf; by rewrite Hx|done|done|].
  destruct (push_held (dropOf (rs_keys s1)) (dropOf (<[key := held]> (rs_keys s1))) (rs_byDrop s1) (rs_keys s1) key held) as [W2 J2];
    [done|intros x Hx%I2%Hsame; unfold dropOf; by rewrite Hx|done|done|].
  by split.
Qed.

Lemma restart_rinv t skew s : rinv s → rinv (restart t skew s).
Proof.
  intros [V1 V2 I1 I2]. unfold restart. destruct (rs_stores s); cbn -[Init].
  - set (keys := _ <$> rs_keys s).
    assert (∀ k, k ∈ dom keys ↔ k ∈ dom (rs_keys s)) as Hd by (intros k; unfold keys; by rewrite dom_fmap_L).
    destruct (Init_spec (dropOf keys) (rs_byDrop s) (v_placed _ _ V2)) as [W P]. split; cbn -[Init].
    + apply valid_ext with (signOf (rs_keys s)); [|done]. intros x Hx. unfold signOf, keys. rewrite lookup_fmap. by destruct (rs_keys s !! x).
    + done.
    + intros k. by rewrite I1, Hd.
    + intros k. by rewrite P, I2, Hd.
  - rewrite Init_keeps by done. split; cbn; [apply valid_empty|apply valid_empty|..]; intros k; rewrite fmap_empty, dom_empty; set_solver.
Qed.

(** ** Pruning *)
Lemma pruneLoop_spec fuel t s :
  rinv s → (length (arr (rs_byDrop s)) ≤ fuel)%nat →
  rinv (pruneLoop fuel t s) ∧ rs_keys (pruneLoop fuel t s) = filter (λ kv, t < hk_dropAt kv.2) (rs_keys s).
Proof.
  revert s. induction fuel as [|fuel IH]; intros s Hs Hf; cbn [pruneLoop]; destruct (arr (rs_byDrop s)) as [|k l] eqn:E.
  1,3: split; [done|]; assert (rs_keys s = ∅) as -> by
    (apply dom_empty_inv_L, leibniz_equiv; intros x; rewrite <-(ri_inDrop _ Hs), E; set_solver); by rewrite map_filter_empty.
  - cbn in Hf. lia.
  - assert (k ∈ dom (rs_keys s)) as Hk by (apply (ri_inDrop _ Hs); rewrite E; set_solver).
    pose proof Hk as [held Eh]%elem_of_dom. destruct (Z.leb_spec (dropOf (rs_keys s) k) t) as [Hle|Hgt].
    + pose proof (drop_rinv k s Hs Hk) as Hs'. destruct (IH (drop k s) Hs') as [R ->].
      { rewrite (dom_size_arr _ _ (proj1 (v_placed _ _ (ri_drop _ Hs'))) (ri_inDrop _ Hs')), drop_keys.
        rewrite <-E in Hf. rewrite (dom_size_arr _ _ (proj1 (v_placed _ _ (ri_drop _ Hs))) (ri_inDrop _ Hs)) in Hf.
        rewrite map_size_delete, Eh. lia. }
      split; [done|]. rewrite drop_keys. apply map_eq. intros x. rewrite !map_lookup_filter.
      destruct (decide (x = k)) as [->|]; [|by rewrite lookup_delete_ne]. rewrite lookup_delete_eq, Eh. cbn.
      unfold dropOf in Hle. rewrite Eh in Hle. cbn in Hle. rewrite option_guard_False by (cbn; lia). done.
    + split; [done|]. symmetry. apply map_filter_id. intros x h Hx. cbn.
      pose proof (valid_min _ _ k x (ri_drop _ Hs)) as H. rewrite E in H. specialize (H eq_refl).
      assert (x ∈ k :: l) as Hin by (rewrite <-E; apply (ri_inDrop _ Hs); by apply elem_of_dom). specialize (H Hin).
      unfold dropOf in *. rewrite Hx in H. cbn in H. lia.
Qed.

Lemma prune_spec t s :
  rinv s → rinv (prune t s) ∧ rs_keys (prune t s) = filter (λ kv, t < hk_dropAt kv.2) (rs_keys s).
Proof. intros Hs. by apply pruneLoop_spec. Qed.

(** An invariant of dropping is one of pruning and of eviction. *)
Lemma prune_ind (P : replayState → Prop) t s :
  (∀ k s, rinv s → P s → k ∈ dom (rs_keys s) → dropOf (rs_keys s) k ≤ t → P (drop k s)) → rinv s → P s → P (prune t s).
Proof.
  intros HP. unfold prune. generalize (length (arr (rs_byDrop s))). intros fuel. revert s.
  induction fuel as [|fuel IH]; intros s Hs Hp; cbn [pruneLoop]; destruct (arr (rs_byDrop s)) as [|k l] eqn:E; [done..|].
  destruct (Z.leb_spec (dropOf (rs_keys s) k) t); [|done].
  assert (k ∈ dom (rs_keys s)) as Hk by (apply (ri_inDrop _ Hs); rewrite E; set_solver).
  apply IH; [by apply drop_rinv|by apply HP].
Qed.

Lemma evict_ind (P : replayState → Prop) s :
  (∀ k s, rinv s → P s → k ∈ dom (rs_keys s) → P (drop k s)) → rinv s → P s → P (evict s).
Proof.
  intros HP Hs Hp. unfold evict. destruct (arr (rs_bySign s)) as [|k l] eqn:E; [done|]. apply HP; [done..|].
  apply (ri_inSign _ Hs). rewrite E. set_solver.
Qed.

Lemma prune_setup t s : rinv s → same_setup s (prune t s).
Proof.
  intros Hs. apply (prune_ind (same_setup s)); [|done|done].
  intros k s' _ (A & B & C & D) _ _. destruct (drop_setup k s') as (A' & B' & C' & D'). split_and!; congruence.
Qed.

(** Drop times depend on the set-up alone. *)
Lemma dropAt_setup s s' signedAt receivedAt : same_setup s s' → dropAt s' signedAt receivedAt = dropAt s signedAt receivedAt.
Proof. intros (A & B & _ & _). unfold dropAt. by rewrite A, B. Qed.

(** ** No envelope is applied twice *)
Section Ledger.
Context {E W : Type} (okE : E → Prop) (keyOf : E → string) (timeOf : E → Z).
Hypothesis keyOf_inj : ∀ a b, okE a → okE b → keyOf a = keyOf b → a = b.

(** Whether this verification applies the envelope. *)
Definition applies (decide : option (W → bool * res unit * W)) (e : E) (t : Z) (s : replayState) (w : W) : bool :=
  match check (keyOf e) (timeOf e) t (prune t s) with
  | Some _ => false
  | None => match decide with None => true | Some d => (d w).1.1 end
  end.

(** One receiver's life: verifications, with the ledger of what they applied,
    and, where the state is stored, restarts. *)
Inductive rstep : replayState * list E → replayState * list E → Prop :=
| r_verify decide e t w r w' s s' A :
    okE e → - 2 ^ 61 ≤ t ≤ 2 ^ 61 → checkFreshAndRecord decide (keyOf e) (timeOf e) t s w = (r, s', w') →
    rstep (s, A) (s', if applies decide e t s w then e :: A else A)
| r_restart t skew s A : 0 ≤ skew ≤ 2 ^ 61 → rs_stores s = true → rstep (s, A) (restart t skew s, A).

Record ledger (c : replayState * list E) : Prop := {
  lg_rinv : rinv c.1;
  lg_skew : 0 ≤ rs_skew c.1 ≤ 2 ^ 61;
  lg_ok : ∀ e, e ∈ c.2 → okE e;
  lg_once : NoDup c.2;
  lg_held : ∀ k h, rs_keys c.1 !! k = Some h → - 2 ^ 62 ≤ hk_signedAt h ≤ 2 ^ 62 ∧ ∃ e, e ∈ c.2 ∧ keyOf e = k ∧ timeOf e = hk_signedAt h;
  lg_drop : ∀ k h, rs_keys c.1 !! k = Some h → hk_dropAt h = dropAt c.1 (hk_signedAt h) (hk_receivedAt h);
  lg_covered : ∀ e, e ∈ c.2 → keyOf e ∈ dom (rs_keys c.1) ∨ rs_storedSet c.1 = true ∧ timeOf e < rs_storedFloor c.1;
  lg_floor : rs_storedSet c.1 = true → rs_storedFloor c.1 ≤ rs_floor c.1 }.

Lemma ledger_drop A k s : ledger (s, A) → k ∈ dom (rs_keys s) → ledger (drop k s, A).
Proof.
  intros [R K Q O H G C F] Hk. pose proof (drop_rinv k s R Hk) as R'. cbn in *.
  pose proof Hk as [h Eh]%elem_of_dom. destruct (H _ _ Eh) as [Hr (e0 & He0 & Hk0 & Ht0)].
  assert (wrap64 (hk_signedAt h + 1) = hk_signedAt h + 1) as Ew by (apply wrap64_id; unfold in_i64, i64_min, i64_max; lia).
  split; cbn; [done|by rewrite (proj1 (drop_setup k s))|done|done|..].
  - intros x hx. rewrite drop_keys. intros [_ Hx]%lookup_delete_Some. by apply H.
  - intros x hx. rewrite drop_keys. intros [_ Hx]%lookup_delete_Some.
    rewrite (dropAt_setup _ _ _ _ (drop_setup k s)). by eapply G.
  - intros e He. rewrite drop_keys. unfold drop. rewrite Eh, Ew. cbn.
    destruct (decide (keyOf e = k)) as [Ek|Ek].
    + right. split; [done|]. replace e with e0 by (apply keyOf_inj; [auto..|congruence]).
      destruct (rs_storedSet s); cbn; [destruct (Z.ltb_spec (rs_storedFloor s) (hk_signedAt h + 1)); lia|lia].
    + destruct (C e He) as [Hin|[Hset Hlt]]; [left; rewrite dom_delete_L; set_solver|right]. split; [done|]. rewrite Hset. cbn.
      destruct (Z.ltb_spec (rs_storedFloor s) (hk_signedAt h + 1)); lia.
  - intros _. unfold drop. rewrite Eh, Ew. cbn. destruct (rs_storedSet s); cbn;
      [specialize (F eq_refl); destruct (Z.ltb_spec (rs_storedFloor s) (hk_signedAt h + 1))|];
      destruct (Z.ltb_spec (rs_floor s) (hk_signedAt h + 1)); lia.
Qed.

Lemma ledger_prune t A s : ledger (s, A) → ledger (prune t s, A).
Proof.
  intros H. apply (prune_ind (λ s, ledger (s, A))); [|apply (lg_rinv _ H)|done]. intros k s' _ H' Hk _. by apply ledger_drop.
Qed.

Lemma ledger_evict A s : ledger (s, A) → ledger (evict s, A).
Proof.
  intros H. apply (evict_ind (λ s, ledger (s, A))); [|apply (lg_rinv _ H)|done]. intros k s' _ H' Hk. by apply ledger_drop.
Qed.

(** A covered envelope does not pass the last two checks. *)
Lemma covered_refused A e s : ledger (s, A) → e ∈ A → recheck (keyOf e) (timeOf e) s ≠ None.
Proof.
  intros H He. unfold recheck. destruct (Z.ltb_spec (timeOf e) (rs_floor s)); [done|].
  destruct (lg_covered _ H e He) as [[h Eh]%elem_of_dom|[Hs Hl]]; cbn in *; [by rewrite Eh|].
  pose proof (lg_floor _ H Hs). cbn in *. lia.
Qed.

Lemma ledger_record A e t s :
  ledger (s, A) → okE e → - 2 ^ 62 ≤ timeOf e ≤ 2 ^ 62 → recheck (keyOf e) (timeOf e) s = None →
  ledger (record (keyOf e) (timeOf e) t s, e :: A).
Proof.
  intros H Hoke Ht Hc. assert (e ∉ A) as Hne by (intros He; by eapply covered_refused).
  assert (rs_keys s !! keyOf e = None) as Hk by (unfold recheck in Hc; destruct (_ <? _); [done|]; by destruct (rs_keys s !! keyOf e)).
  pose proof (record_rinv (keyOf e) (timeOf e) t s (lg_rinv _ H) Hk) as R. revert R. unfold record.
  set (s1 := if (0 <? rs_maxKeys s) && (rs_maxKeys s <=? Z.of_nat (size (rs_keys s))) then evict s else s). intros R.
  assert (ledger (s1, A)) as [_ K Q O H1 G C F] by (unfold s1; destruct (_ && _); [by apply ledger_evict|done]). cbn in *.
  split; cbn; [done|done|intros x [->|?]%elem_of_cons; auto|by apply NoDup_cons| | | |done].
  - intros k h [[<- <-]|[_ Hh]]%lookup_insert_Some; [split; [done|]; exists e; cbn; set_solver|].
    destruct (H1 _ _ Hh) as [? (e' & ? & ? & ?)]. split; [done|]. exists e'. set_solver.
  - intros k h [[<- <-]|[_ Hh]]%lookup_insert_Some; [done|]. by eapply G.
  - intros x [->|Hx]%elem_of_cons; [left; rewrite dom_insert_L; set_solver|].
    destruct (C x Hx) as [Hin|?]; [left; rewrite dom_insert_L; set_solver|by right].
Qed.

Lemma rstep_ledger c c' : rstep c c' → ledger c → ledger c'.
Proof.
  intros [decide e t w r w' s s' A Hoke Ht H|t skew s A Hsk Hst] HL.
  - pose proof (ledger_prune t A s HL) as HP. revert H. unfold checkFreshAndRecord, applies.
    destruct (check _ _ _ _) as [er|] eqn:Ec; [by intros [= _ <- _]|].
    assert (recheck (keyOf e) (timeOf e) (prune t s) = None ∧ - 2 ^ 62 ≤ timeOf e ≤ 2 ^ 62) as [Er Hr].
    { unfold check in Ec. pose proof (lg_skew _ HP) as K. cbn in K.
      rewrite !wrap64_id in Ec by (unfold in_i64, i64_min, i64_max; lia).
      destruct (Z.ltb_spec (timeOf e) (t - rs_skew (prune t s))); [done|].
      destruct (Z.ltb_spec (t + rs_skew (prune t s)) (timeOf e)); [done|]. split; [done|lia]. }
    destruct decide as [d|]; [|intros [= _ <- _]; by apply ledger_record].
    destruct (d w) as [[applied err] w1] eqn:Ed. cbn. destruct applied; [|by intros [= _ <- _]].
    rewrite Er. intros [= _ <- _]. by apply ledger_record.
  - pose proof (restart_rinv t skew s (lg_rinv _ HL)) as R. destruct HL as [_ K Q O H G C F]. cbn in *.
    unfold restart in *. rewrite Hst in *. cbn in *. split; cbn; [done|done|done|done|..].
    + intros k h Hh. rewrite lookup_fmap in Hh. destruct (rs_keys s !! k) as [h0|] eqn:E0; [|done]. injection Hh as <-. cbn. by apply H.
    + intros k h Hh. rewrite lookup_fmap in Hh. destruct (rs_keys s !! k) as [h0|] eqn:E0; [|done]. by injection Hh as <-.
    + intros e He. rewrite dom_fmap_L. by apply C.
    + intros ->. cbn. destruct (Z.ltb_spec t (rs_storedFloor s)); lia.
Qed.

Lemma rsteps_ledger c c' : rtc rstep c c' → ledger c → ledger c'.
Proof. induction 1; eauto using rstep_ledger. Qed.

Lemma ledger_new skew ttl stores maxKeys t : 0 ≤ skew ≤ 2 ^ 61 → ledger (newReplayState skew ttl stores maxKeys t, []).
Proof. intros H. split; cbn; [apply rinv_new|done|set_solver|constructor|done|done|set_solver|done]. Qed.

(** ** Pruning, by the clock *)
Lemma dropAt_stale s signedAt receivedAt :
  0 ≤ rs_skew s ≤ 2 ^ 61 → - 2 ^ 62 ≤ signedAt ≤ 2 ^ 62 → signedAt + rs_skew s + 1 ≤ dropAt s signedAt receivedAt.
Proof.
  intros Hs Ht. unfold dropAt. rewrite (wrap64_id (signedAt + rs_skew s)) by (unfold in_i64, i64_min, i64_max; lia).
  rewrite (wrap64_id (signedAt + rs_skew s + 1)) by (unfold in_i64, i64_min, i64_max; lia). destruct (0 <? rs_ttl s); lia.
Qed.

Lemma prune_floor t A s : ledger (s, A) → rs_floor (prune t s) ≤ Z.max (rs_floor s) (t - rs_skew s).
Proof.
  intros H.
  apply (prune_ind (λ s', ledger (s', A) ∧ same_setup s s' ∧ rs_floor s' ≤ Z.max (rs_floor s) (t - rs_skew s)) t s); [|apply H|].
  - intros k s' R (L & S & Hf) Hk Hd. split; [by apply ledger_drop|]. split.
    { destruct S as (S1 & S2 & S3 & S4), (drop_setup k s') as (T1 & T2 & T3 & T4). split_and!; congruence. }
    pose proof Hk as [h Eh]%elem_of_dom. unfold dropOf in Hd. rewrite Eh in Hd. cbn in Hd.
    destruct (lg_held _ L _ _ Eh) as [Hr _]. rewrite (lg_drop _ L _ _ Eh) in Hd. pose proof (lg_skew _ L) as K. cbn in K, Hd.
    pose proof (dropAt_stale s' (hk_signedAt h) (hk_receivedAt h) K Hr). destruct S as (S1 & _).
    unfold drop. rewrite Eh. cbn. rewrite wrap64_id by (unfold in_i64, i64_min, i64_max; lia).
    destruct (Z.ltb_spec (rs_floor s') (hk_signedAt h + 1)); lia.
  - split_and!; [done|done|lia].
Qed.

(** ** Memory *)
Lemma evict_size s : rinv s → rs_keys s ≠ ∅ → Z.of_nat (size (rs_keys (evict s))) = Z.of_nat (size (rs_keys s)) - 1.
Proof.
  intros Hs Hne. unfold evict. destruct (arr (rs_bySign s)) as [|k l] eqn:Ea.
  { destruct Hne. apply dom_empty_inv_L, leibniz_equiv. intros x. rewrite <-(ri_inSign _ Hs), Ea. set_solver. }
  rewrite drop_keys. assert (is_Some (rs_keys s !! k)) as [h Eh].
  { apply elem_of_dom, (ri_inSign _ Hs). rewrite Ea. set_solver. }
  rewrite map_size_delete, Eh. pose proof (map_size_ne_0_lookup_2 (rs_keys s) k ltac:(by eauto)). lia.
Qed.

Lemma rstep_bounded c c' :
  rstep c c' → ledger c → 0 < rs_maxKeys c.1 → Z.of_nat (size (rs_keys c.1)) ≤ rs_maxKeys c.1 →
  rs_maxKeys c'.1 = rs_maxKeys c.1 ∧ Z.of_nat (size (rs_keys c'.1)) ≤ rs_maxKeys c'.1.
Proof.
  intros [decide e t w r w' s s' A Hoke Ht H|t skew s A Hsk Hst] HL Hm Hb; cbn in *.
  - destruct (prune_setup t s (lg_rinv _ HL)) as (_ & _ & _ & M). destruct (prune_spec t s (lg_rinv _ HL)) as [R Ek]. cbn in *.
    assert (size (rs_keys (prune t s)) ≤ size (rs_keys s))%nat as Hsz by (rewrite Ek; apply map_size_filter).
    assert (∀ k at_ t', rs_maxKeys (record k at_ t' (prune t s)) = rs_maxKeys s ∧
      Z.of_nat (size (rs_keys (record k at_ t' (prune t s)))) ≤ rs_maxKeys s) as Hrec.
    { intros k at_ t'. unfold record. rewrite M. set (s1 := if (0 <? rs_maxKeys s) && _ then _ else _).
      assert (rs_maxKeys s1 = rs_maxKeys s ∧ Z.of_nat (size (rs_keys s1)) + 1 ≤ rs_maxKeys s) as [M1 S1].
      { unfold s1. destruct (Z.ltb_spec 0 (rs_maxKeys s)); [|lia]. cbn.
        destruct (Z.leb_spec (rs_maxKeys s) (Z.of_nat (size (rs_keys (prune t s))))); [|split; [done|lia]].
        rewrite evict_size; [|done|intros E0; rewrite E0, map_size_empty in *; lia]. split; [|lia].
        unfold evict. destruct (arr _); [done|]. destruct (drop_setup s0 (prune t s)) as (_ & _ & _ & ->). done. }
      cbn. split; [done|]. rewrite map_size_insert. destruct (rs_keys s1 !! k); unfold id; lia. }
    revert H. unfold checkFreshAndRecord. destruct (check _ _ _ _); [intros [= _ <- _]; rewrite M; split; [done|lia]|].
    destruct decide as [d|]; [|intros [= _ <- _]; destruct (Hrec (keyOf e) (timeOf e) t) as [-> ?]; done].
    destruct (d w) as [[applied err] w1]. destruct applied; [|intros [= _ <- _]; rewrite M; split; [done|lia]].
    destruct (recheck _ _ _); intros [= _ <- _]; [rewrite M; split; [done|lia]|].
    destruct (Hrec (keyOf e) (timeOf e) t) as [-> ?]; done.
  - unfold restart. rewrite Hst. cbn. by rewrite map_size_fmap.
Qed.
End Ledger.
End Replay.
