(* ===== verification/MqttAuth.v ===== *)
(** * Signed MQTT envelopes (mqttauth/mqttauth.go)

    An envelope carries an HMAC over its message type, device, request, signing
    time and canonical body. The verifier checks the wire form, the signature
    under the current or the previous secret, freshness and replay, in that
    order. The canonical JSON package is a parameter. *)
From S2P Require Import Prelude GoBytes Sha256 Json Contracts Heap Replay.
Import Contracts Heap Replay.

Module MqttAuth.

Definition signaturePrefix : string := "hmac-sha256:".
Definition HeartbeatAuthScheme : string := "hmac-sha256".
Definition nl : ascii := bc 10.
Definition Millisecond : Z := 1000000.
Definition defaultMaxSkew : Z := 300000 * Millisecond.
Definition defaultReplayTTL : Z := 300000 * Millisecond.
Definition defaultMaxKeys : Z := 131072.

Record HeartbeatAuth := MkAuth { ha_Scheme : string; ha_SignedAtMS : Z; ha_Signature : string }.

Record Config := MkAuthConfig {
  ac_SharedSecret : string; ac_PreviousSharedSecret : string; ac_MaxSkew : Z; ac_ReplayTTL : Z; ac_MaxKeys : Z }.

(** The verifier's fixed part; its replay state is threaded beside it. *)
Record Verifier := MkVerifier { vf_sharedSecret : string; vf_previousSharedSecret : string }.

Definition NewVerifier (cfg : Config) (nowMS : Z) : res (Verifier * replayState) :=
  let secret := TrimSpace (ac_SharedSecret cfg) in
  if bool_decide (secret = "") then Err (EMsg "mqtt auth shared secret must not be empty")
  else
    let maxSkew := if ac_MaxSkew cfg <=? 0 then defaultMaxSkew else ac_MaxSkew cfg in
    let replayTTL := if ac_ReplayTTL cfg <=? 0 then defaultReplayTTL else ac_ReplayTTL cfg in
    let previous := TrimSpace (ac_PreviousSharedSecret cfg) in
    if negb (bool_decide (previous = "")) && bool_decide (previous = secret) then
      Err (EMsg "mqtt auth previous shared secret must differ from shared secret")
    else
      let maxKeys := if ac_MaxKeys cfg <=? 0 then defaultMaxKeys else ac_MaxKeys cfg in
      Ok (MkVerifier secret previous,
          newReplayState (Z.quot maxSkew Millisecond) (Z.quot replayTTL Millisecond) false maxKeys nowMS).

Fixpoint joinLines (l : list string) : string :=
  match l with
  | [] => ""
  | [x] => x
  | x :: l' => x +:+ String nl (joinLines l')
  end.

Definition SigningInput (messageType deviceID requestID : string) (signedAtMS : Z) (canonical : string) : string :=
  joinLines [messageType; deviceID; requestID; FormatInt signedAtMS; canonical].

Definition computeSignature (secret signingInput : string) : string :=
  hexEncode (hmac256 (bytes_of secret) (bytes_of signingInput)).

(** A JSON object as a Go map: the last member of a name stays. *)
Definition toMap (l : list (string * json)) : gmap string json :=
  foldl (λ m p, <[unquote p.1 := p.2]> m) ∅ l.

(** [json.NewDecoder(payload).Decode] into a map: the first value. *)
Definition decodeMap (payload : string) : option (gmap string json) :=
  match parseValue (S (2 * String.length payload)) 0 payload with
  | Some (JObj l, _) => Some (toMap l)
  | Some (JNull, _) => Some ∅
  | _ => None
  end.

Definition authMembers : list string := ["scheme"; "signed_at_ms"; "signature"].

Definition inexact (name : string) : bool :=
  existsb (λ member, negb (bool_decide (name = member)) && equalFold name member) authMembers.

Definition refuseInexactAuthMembers (authValue : json) : res (gmap string json) :=
  match authValue with
  | JObj l =>
    let m := toMap l in
    if existsb inexact (elements (dom m)) then Err (EMsg "auth envelope member is misspelled by case") else Ok m
  | _ => Err (EMsg "auth envelope must be an object")
  end.

(** The members re-encoded and decoded into [HeartbeatAuth]: an absent or null
    member leaves the zero value, a wrong type is an error. *)
Definition decodeAuth (m : gmap string json) : res HeartbeatAuth :=
  let '(scheme, ok1) := from_option (λ v, setStr v "") ("", true) (m !! "scheme") in
  let '(at_, ok2) := from_option (λ v, setInt v 0) (0, true) (m !! "signed_at_ms") in
  let '(signature, ok3) := from_option (λ v, setStr v "") ("", true) (m !! "signature") in
  if ok1 && ok2 && ok3 then Ok (MkAuth scheme at_ signature) else Err (EMsg "decode auth envelope").

Definition memberIs (m : gmap string json) (name expected : string) : bool :=
  match m !! name with Some (JStr raw) => bool_decide (unquote raw = expected) | _ => false end.

Definition validateExpectedFields (m : gmap string json) (deviceID requestID : string) : res unit :=
  if negb (bool_decide (deviceID = "")) && negb (memberIs m "device_id" deviceID) then
    Err (EMsg "device_id does not match topic device_id")
  else if negb (bool_decide (requestID = "")) && negb (memberIs m "request_id" requestID) then
    Err (EMsg "request_id does not match expected request_id")
  else Ok tt.

Definition cloneWithoutAuth (m : gmap string json) : gmap string json := delete "auth" m.

Fixpoint lengthPrefixed (parts : list string) : string :=
  match parts with
  | [] => ""
  | p :: parts' => FormatInt (slen p) +:+ String ":" (p +:+ String ";" (lengthPrefixed parts'))
  end.

Definition replayKey (messageType deviceID requestID : string) (signedAtMS : Z) (signature : string) : string :=
  lengthPrefixed [messageType; deviceID; requestID; FormatInt signedAtMS; signature].

Definition signatureMatches (v : Verifier) (signature messageType deviceID requestID : string) (signedAtMS : Z) (canonical : string) : bool :=
  let input := SigningInput messageType deviceID requestID signedAtMS canonical in
  if bool_decide (signature = signaturePrefix +:+ computeSignature (vf_sharedSecret v) input) then true
  else if bool_decide (vf_previousSharedSecret v = "") then false
  else bool_decide (signature = signaturePrefix +:+ computeSignature (vf_previousSharedSecret v) input).

Section Envelope.
(** The canonical JSON package: the Unicode check of the wire bytes, the
    strict decoder, and the canonical form of a decoded object. *)
Context (ValidateWireUnicode : string → bool) (DecodeStrict : list string → string → option strictError).
Context (Marshal : gmap string json → res string).

(** [refuseAmbiguousMembers] of this package. *)
Definition refuseAmbiguous (payload : string) : res unit :=
  match AdmitPayloadWithMembers DecodeStrict [] payload with
  | Ok _ => Ok tt
  | Err _ => Err (EMsg "ambiguous mqtt auth payload")
  end.

Definition CanonicalJSONWithoutAuth (value : gmap string json) : res string := Marshal (delete "auth" value).

(** [Sign] of the value whose JSON members are [value]. *)
Definition Sign (value : gmap string json) (messageType deviceID requestID : string) (signedAtMS : Z) (sharedSecret : string)
    : res HeartbeatAuth :=
  let secret := TrimSpace sharedSecret in
  if bool_decide (secret = "") then Err (EMsg "mqtt auth shared secret must not be empty")
  else if signedAtMS <=? 0 then Err (EMsg "signed_at_ms must be positive")
  else match CanonicalJSONWithoutAuth value with
  | Err e => Err e
  | Ok canonical =>
    Ok (MkAuth HeartbeatAuthScheme signedAtMS
      (signaturePrefix +:+ computeSignature secret (SigningInput messageType deviceID requestID signedAtMS canonical)))
  end.

(** [verifyJSON] up to the signature: the auth envelope and the rest. *)
Definition openEnvelope (v : Verifier) (payload messageType deviceID requestID : string)
    : res (HeartbeatAuth * gmap string json) :=
  if negb (ValidateWireUnicode payload) then Err (EMsg "invalid unicode")
  else match refuseAmbiguous payload with
  | Err e => Err e
  | Ok _ =>
    match decodeMap payload with
    | None => Err (EMsg "decode mqtt auth payload")
    | Some envelope =>
      match envelope !! "auth" with
      | None => Err (EMsg "missing auth envelope")
      | Some authValue =>
        match refuseInexactAuthMembers authValue with
        | Err e => Err e
        | Ok members =>
          match decodeAuth members with
          | Err e => Err e
          | Ok auth =>
            if negb (bool_decide (ha_Scheme auth = HeartbeatAuthScheme)) then Err (EMsg "unsupported auth scheme")
            else if ha_SignedAtMS auth <=? 0 then Err (EMsg "signed_at_ms must be positive")
            else if negb (hasPrefix (ha_Signature auth) signaturePrefix) then Err (EMsg "signature must use hmac-sha256: prefix")
            else match validateExpectedFields envelope deviceID requestID with
            | Err e => Err e
            | Ok _ =>
              let unsigned := cloneWithoutAuth envelope in
              match Marshal unsigned with
              | Err _ => Err (EMsg "canonicalize mqtt auth payload")
              | Ok canonical =>
                if signatureMatches v (ha_Signature auth) messageType deviceID requestID (ha_SignedAtMS auth) canonical
                then Ok (auth, unsigned)
                else Err (EMsg "mqtt auth signature mismatch")
              end
            end
          end
        end
      end
    end
  end.

(** [verifyJSON]. [decide] sees the unsigned members. *)
Definition verifyJSON {W} (v : Verifier) (decide : option (gmap string json → W → bool * res unit * W))
    (payload messageType deviceID requestID : string) (t : Z) (s : replayState) (w : W)
    : res (gmap string json) * replayState * W :=
  match openEnvelope v payload messageType deviceID requestID with
  | Err e => (Err e, s, w)
  | Ok (auth, unsigned) =>
    let key := replayKey messageType deviceID requestID (ha_SignedAtMS auth) (ha_Signature auth) in
    match checkFreshAndRecord ((λ d, d unsigned) <$> decide) key (ha_SignedAtMS auth) t s w with
    | (Err e, s', w') => (Err e, s', w')
    | (Ok _, s', w') => (Ok unsigned, s', w')
    end
  end.

Definition VerifyJSON {W} (v : Verifier) := verifyJSON (W := W) v None.

Definition VerifyJSONThenDecide {W} (v : Verifier) (decide : gmap string json → W → bool * res unit * W)
    (payload messageType deviceID requestID : string) (t : Z) (s : replayState) (w : W) : res unit * replayState * W :=
  let '(r, s', w') := verifyJSON v (Some decide) payload messageType deviceID requestID t s w in
  (match r with Ok _ => Ok tt | Err e => Err e end, s', w').

(** The decision runs only on an opened, fresh envelope, and nothing else
    touches what it works on. *)
Lemma VerifyJSONThenDecide_world {W} v d payload mt dev req t s (w : W) r s' w' :
  VerifyJSONThenDecide v d payload mt dev req t s w = (r, s', w') →
  w' = w ∨ ∃ auth unsigned, openEnvelope v payload mt dev req = Ok (auth, unsigned) ∧
    check (replayKey mt dev req (ha_SignedAtMS auth) (ha_Signature auth)) (ha_SignedAtMS auth) t (prune t s) = None ∧
    w' = (d unsigned w).2.
Proof.
  unfold VerifyJSONThenDecide, verifyJSON. destruct (openEnvelope v payload mt dev req) as [[auth un]|e]; [|intros [= _ _ <-]; by left].
  unfold checkFreshAndRecord. destruct (check _ _ _ _) eqn:Ec; [intros [= _ _ <-]; by left|]. cbn [fmap option_fmap option_map].
  intros H. right. exists auth, un. split; [done|]. split; [done|].
  destruct (d un w) as [[[] e] w1]; [destruct (recheck _ _ _)|]; destruct e; by simplify_eq.
Qed.

(** What an opened envelope has shown. *)
Lemma openEnvelope_ok v payload mt dev req auth unsigned :
  openEnvelope v payload mt dev req = Ok (auth, unsigned) →
  ∃ envelope canonical, decodeMap payload = Some envelope ∧ unsigned = delete "auth" envelope ∧
    DecodeStrict [] payload = None ∧ ValidateWireUnicode payload = true ∧
    0 < ha_SignedAtMS auth ≤ i64_max ∧ validateExpectedFields envelope dev req = Ok tt ∧ Marshal unsigned = Ok canonical ∧
    ∃ secret, (secret = vf_sharedSecret v ∨ secret = vf_previousSharedSecret v ∧ secret ≠ "") ∧
      ha_Signature auth = signaturePrefix +:+ computeSignature secret (SigningInput mt dev req (ha_SignedAtMS auth) canonical).
Proof.
  unfold openEnvelope, refuseAmbiguous, AdmitPayloadWithMembers, admit_.
  destruct (ValidateWireUnicode payload); [|done]. destruct (DecodeStrict [] payload); [done|]. cbn [negb].
  destruct (decodeMap payload) as [env|]; [|done]. destruct (env !! "auth") as [av|]; [|done].
  destruct (refuseInexactAuthMembers av) as [mem|]; [|done]. destruct (decodeAuth mem) as [au|] eqn:Ea; [|done].
  destruct (bool_decide _); [|done]. destruct (Z.leb_spec (ha_SignedAtMS au) 0); [done|].
  destruct (hasPrefix (ha_Signature au) signaturePrefix); [|done]. cbn [negb].
  destruct (validateExpectedFields env dev req) as [[]|] eqn:Ev; [|done]. cbv zeta.
  destruct (Marshal (cloneWithoutAuth env)) as [canonical|] eqn:Em; [|done].
  destruct (signatureMatches _ _ _ _ _ _ _) eqn:Es; [|done]. intros [= <- <-].
  assert (ha_SignedAtMS au ≤ i64_max) as Hmax.
  { unfold decodeAuth in Ea. destruct (from_option _ _ (mem !! "scheme")) as [sc o1].
    destruct (from_option _ _ (mem !! "signed_at_ms")) as [at_ o2] eqn:E2. destruct (from_option _ _ (mem !! "signature")) as [sg o3].
    destruct (_ && _); [|done]. injection Ea as <-. cbn. destruct (mem !! "signed_at_ms") as [j|]; cbn in E2; [|injection E2 as <- _; done].
    unfold setInt in E2. destruct j; try (injection E2 as <- _; done). destruct (ParseInt lit) as [n|] eqn:Ep; injection E2 as <- _; [|done].
    by apply ParseInt_range in Ep as [_ ?]. }
  exists env, canonical. split_and!; try done. unfold signatureMatches in Es.
  destruct (bool_decide_reflect (ha_Signature au = signaturePrefix +:+ computeSignature (vf_sharedSecret v) (SigningInput mt dev req (ha_SignedAtMS au) canonical)));
    [exists (vf_sharedSecret v); split; [by left|done]|].
  destruct (bool_decide_reflect (vf_previousSharedSecret v = "")); [done|]. apply bool_decide_eq_true in Es.
  exists (vf_previousSharedSecret v). split; [by right|done].
Qed.
End Envelope.

(** ** Encodings that can be taken apart again *)
Lemma sep_inj_left (c : ascii) p q s t :
  containsAny [c] p = false → containsAny [c] q = false → p +:+ String c s = q +:+ String c t → p = q ∧ s = t.
Proof.
  revert q. induction p as [|a p IH]; intros [|b q] Hp Hq H; rewrite ?sapp_nil_l, ?sapp_cons in H.
  - by injection H as ->.
  - injection H as <- _. cbn in Hq. rewrite bool_decide_true in Hq by set_solver. done.
  - injection H as -> _. cbn in Hp. rewrite bool_decide_true in Hp by set_solver. done.
  - injection H as -> H. cbn in Hp, Hq. apply orb_false_iff in Hp as [_ Hp], Hq as [_ Hq]. by destruct (IH q Hp Hq H) as [-> ->].
Qed.

Lemma containsAny_app (l : list ascii) s t : containsAny l (s +:+ t) = containsAny l s || containsAny l t.
Proof. induction s as [|c s IH]; [done|]. rewrite sapp_cons. cbn [containsAny]. by rewrite IH, orb_assoc. Qed.

Lemma sep_inj_right (c : ascii) p q s t :
  containsAny [c] s = false → containsAny [c] t = false → p +:+ String c s = q +:+ String c t → p = q ∧ s = t.
Proof.
  intros Hs Ht. revert q. induction p as [|a p IH]; intros [|b q] H; rewrite ?sapp_nil_l, ?sapp_cons in H.
  - by injection H as ->.
  - injection H as _ ->. rewrite containsAny_app in Hs. cbn in Hs. rewrite (bool_decide_true (c ∈ [c])), orb_true_r in Hs by set_solver. done.
  - injection H as _ <-. rewrite containsAny_app in Ht. cbn in Ht. rewrite (bool_decide_true (c ∈ [c])), orb_true_r in Ht by set_solver. done.
  - injection H as -> H. by destruct (IH q H) as [-> ->].
Qed.

Lemma digits_free (c : ascii) fuel n acc :
  in_rng 48 57 (bv c) = false → 0 ≤ n → containsAny [c] acc = false → containsAny [c] (fmtAux fuel n acc) = false.
Proof.
  intros Hc. revert n acc. induction fuel as [|fuel IH]; intros n acc Hn Ha; [done|]. cbn [fmtAux].
  assert (∀ d, 0 ≤ d < 10 → containsAny [c] (String (digit d) acc) = false) as Hd.
  { intros d Hd. cbn. rewrite Ha, orb_false_r, bool_decide_eq_false. intros Hin%list_elem_of_singleton.
    rewrite <-Hin, bv_digit in Hc by done. unfold in_rng in Hc. lia. }
  destruct (Z.ltb_spec n 10); [apply Hd; lia|]. apply IH; [apply Z.div_pos; lia|]. apply Hd. apply Z.mod_pos_bound. lia.
Qed.

Lemma FormatInt_free (c : ascii) n :
  in_rng 48 57 (bv c) = false → c ≠ "-"%char → containsAny [c] (FormatInt n) = false.
Proof.
  intros Hc Hm. unfold FormatInt. destruct (Z.ltb_spec n 0); [|by apply digits_free].
  cbn [containsAny]. rewrite (digits_free c), orb_false_r by (done || lia). apply bool_decide_eq_false. set_solver.
Qed.

Lemma sapp_len_inj (p q s t : string) : slen p = slen q → p +:+ s = q +:+ t → p = q ∧ s = t.
Proof.
  revert q. induction p as [|a p IH]; intros [|b q] Hl H; rewrite ?sapp_nil_l, ?sapp_cons, ?slen_cons in *; [done| | |].
  - change (slen "") with 0 in Hl. pose proof (slen_nonneg q). lia.
  - change (slen "") with 0 in Hl. pose proof (slen_nonneg p). lia.
  - injection H as -> H. destruct (IH q ltac:(lia) H) as [-> ->]. done.
Qed.

Lemma lengthPrefixed_inj l l' :
  length l = length l' → Forall (λ p, slen p ≤ i64_max) l → Forall (λ p, slen p ≤ i64_max) l' →
  lengthPrefixed l = lengthPrefixed l' → l = l'.
Proof.
  revert l'. induction l as [|p l IH]; intros [|p' l'] Hl H1 H2 H; try done. cbn [lengthPrefixed] in H.
  apply Forall_cons in H1 as [P1 H1], H2 as [P2 H2].
  apply sep_inj_left in H as [E H]; [|by apply FormatInt_free..].
  apply FormatInt_inj in E; [|split; [apply slen_nonneg|done]..].
  apply sapp_len_inj in H as [-> H]; [|done]. injection H as H. f_equal. apply IH; [by injection Hl|done..].
Qed.

(** An envelope as the verifier names it. *)
Record envelope := MkEnvelope { e_type : string; e_device : string; e_request : string; e_signedAt : Z; e_signature : string }.

Definition keyOf (e : envelope) : string := replayKey (e_type e) (e_device e) (e_request e) (e_signedAt e) (e_signature e).

(** A Go string is shorter than 2^63 bytes, and a signing time is a positive
    [int64]. *)
Definition envelope_ok (e : envelope) : Prop :=
  slen (e_type e) ≤ i64_max ∧ slen (e_device e) ≤ i64_max ∧ slen (e_request e) ≤ i64_max ∧ slen (e_signature e) ≤ i64_max ∧
  0 < e_signedAt e ≤ i64_max.

Lemma keyOf_inj a b : envelope_ok a → envelope_ok b → keyOf a = keyOf b → a = b.
Proof.
  intros (A1 & A2 & A3 & A4 & A5) (B1 & B2 & B3 & B4 & B5) H.
  assert (∀ n, 0 < n ≤ i64_max → slen (FormatInt n) ≤ i64_max) as Hn.
  { intros n Hr. pose proof (slen_FormatInt n ltac:(lia)). unfold i64_max. lia. }
  apply lengthPrefixed_inj in H; [|done|repeat constructor; auto..]. injection H as E1 E2 E3 E4 E5.
  apply FormatInt_inj in E4; [|lia..]. destruct a, b. cbn in *. congruence.
Qed.
End MqttAuth.
