(* ===== verification/MqttAuthSpec.v ===== *)
(** * What the envelope verifier guarantees *)
From S2P Require Import Prelude GoBytes Sha256 Json Store Queue Codec Contracts Heap Replay MqttAuth.
Import Codec Contracts Heap Replay MqttAuth.

Module MqttAuthSpec.

(** ** What is signed *)

(** The signed text determines what it was signed for: two equal signing
    inputs have the same message type, device, request, signing time and
    canonical body, whatever bytes the device identifier has, as long as the
    type, the request and the canonical body are single lines. *)
Theorem signing_input_binds mt dev req at_ body mt' dev' req' at_' body' :
  Forall (λ s, containsAny [nl] s = false) [mt; req; body; mt'; req'; body'] →
  0 ≤ at_ ≤ i64_max → 0 ≤ at_' ≤ i64_max →
  SigningInput mt dev req at_ body = SigningInput mt' dev' req' at_' body' →
  mt = mt' ∧ dev = dev' ∧ req = req' ∧ at_ = at_' ∧ body = body'.
Proof.
  intros Hl Ha Ha' H. repeat match goal with H : Forall _ (_ :: _) |- _ => apply Forall_cons in H as [? H] end.
  assert (∀ m d r a b, SigningInput m d r a b =
    (m +:+ String nl ((d +:+ String nl r) +:+ String nl (FormatInt a))) +:+ String nl b) as Hform.
  { intros. unfold SigningInput. cbn [joinLines]. repeat (rewrite ?sapp_assoc, ?sapp_cons). done. }
  rewrite !Hform in H. apply sep_inj_right in H as [H ->]; [|done..].
  apply sep_inj_left in H as [-> H]; [|done..].
  apply sep_inj_right in H as [H Ea]; [|by apply FormatInt_free..].
  apply sep_inj_right in H as [-> ->]; [|done..]. split_and!; try done. by apply FormatInt_inj.
Qed.

Lemma signing_input_binds_witness :
  "evidence_inbound" = "evidence_inbound" ∧ "a" = "a" ∧ "r" = "r" ∧ 5 = 5 ∧ "{}" = "{}".
Proof.
  apply (signing_input_binds "evidence_inbound" "a" "r" 5 "{}" "evidence_inbound" "a" "r" 5 "{}").
  - repeat (constructor; [vm_compute; reflexivity|]). constructor.
  - split; vm_compute; discriminate.
  - split; vm_compute; discriminate.
  - reflexivity.
Defined.

Section Verified.
Context (ValidateWireUnicode : string → bool) (DecodeStrict : list string → string → option strictError).
Context (Marshal : gmap string json → res string).

Abbreviation openEnv := (openEnvelope ValidateWireUnicode DecodeStrict Marshal).
Abbreviation verify := (verifyJSON ValidateWireUnicode DecodeStrict Marshal).


(** ** Signing and verifying *)

(** The auth member as it is encoded. *)
Definition authJSON (a : HeartbeatAuth) : json :=
  JObj [("scheme", jstr (ha_Scheme a)); ("signed_at_ms", jint (ha_SignedAtMS a)); ("signature", jstr (ha_Signature a))].

Lemma decodeAuth_authJSON at_ sig :
  0 < at_ ≤ i64_max → plain sig = true →
  ∃ m, refuseInexactAuthMembers (authJSON (MkAuth HeartbeatAuthScheme at_ sig)) = Ok m ∧
    decodeAuth m = Ok (MkAuth HeartbeatAuthScheme at_ sig).
Proof.
  intros Ha Hp.
  set (m := <["signature" := jstr sig]> (<["signed_at_ms" := jint at_]> (<["scheme" := jstr HeartbeatAuthScheme]> (∅ : gmap string json)))).
  assert (toMap [("scheme", jstr HeartbeatAuthScheme); ("signed_at_ms", jint at_); ("signature", jstr sig)] = m) as Em.
  { unfold toMap, m. cbn [foldl fst snd]. rewrite !unquote_plain by done. done. }
  exists m. split.
  - unfold refuseInexactAuthMembers, authJSON. cbn [ha_Scheme ha_SignedAtMS ha_Signature]. rewrite Em. cbv zeta.
    replace (existsb inexact (elements (dom m))) with false; [done|]. symmetry. apply not_true_is_false.
    intros (x & Hx & Hi)%existsb_exists. apply list_elem_of_In, elem_of_elements in Hx. unfold m in Hx. rewrite !dom_insert_L in Hx.
    assert (x = "signature" ∨ x = "signed_at_ms" ∨ x = "scheme") as [-> |[-> | ->]] by set_solver; vm_compute in Hi; done.
  - assert (m !! "scheme" = Some (jstr HeartbeatAuthScheme)) as M1 by (unfold m; by simplify_map_eq).
    assert (m !! "signed_at_ms" = Some (jint at_)) as M2 by (unfold m; by simplify_map_eq).
    assert (m !! "signature" = Some (jstr sig)) as M3 by (unfold m; by rewrite lookup_insert_eq).
    unfold decodeAuth. rewrite M1, M2, M3. cbn [from_option].
    rewrite !setStr_jstr, setInt_jint by (done || lia). done.
Qed.

(** Signing and verifying agree: an envelope signed under the verifier's
    current or previous secret and published with its auth member verifies,
    when it passes the wire checks and is fresh and new; what the verifier
    hands on is the value that was signed. *)
Theorem sign_verify {W} v payload value mt dev req at_ secret auth t s (w : W) :
  Sign Marshal value mt dev req at_ secret = Ok auth → at_ ≤ i64_max →
  TrimSpace secret = vf_sharedSecret v ∨ TrimSpace secret = vf_previousSharedSecret v →
  ValidateWireUnicode payload = true → DecodeStrict [] payload = None →
  decodeMap payload = Some (<["auth" := authJSON auth]> value) → value !! "auth" = None →
  validateExpectedFields value dev req = Ok tt →
  check (replayKey mt dev req at_ (ha_Signature auth)) at_ t (prune t s) = None →
  ∃ s', VerifyJSON ValidateWireUnicode DecodeStrict Marshal v payload mt dev req t s w = (Ok value, s', w).
Proof.
  unfold Sign. case_bool_decide as Hne; [done|]. destruct (Z.leb_spec at_ 0) as [|Hpos]; [done|]. unfold CanonicalJSONWithoutAuth.
  destruct (Marshal (delete "auth" value)) as [canonical|] eqn:Em; [|done]. intros [= <-] Hmax Hsec Hu Hd Hdec Hna Hexp Hchk.
  rewrite delete_id in Em by done.
  remember (signaturePrefix +:+ computeSignature (TrimSpace secret) (SigningInput mt dev req at_ canonical)) as sig eqn:Esig.
  assert (plain sig = true) as Hp.
  { rewrite Esig, plain_app. apply andb_true_iff. split; [done|]. apply plain_hexEncode, sha256_range. }
  destruct (decodeAuth_authJSON at_ sig ltac:(lia) Hp) as (m & E1 & E2). set (a := MkAuth _ at_ sig) in *. cbn [ha_Signature a] in Hchk.
  assert (openEnv v payload mt dev req = Ok (a, value)) as Eo.
  { unfold openEnvelope, refuseAmbiguous, AdmitPayloadWithMembers, admit_. rewrite Hu, Hd, Hdec. cbn [negb].
    rewrite lookup_insert_eq, E1, E2. cbn [ha_Scheme ha_SignedAtMS ha_Signature a]. rewrite bool_decide_true by done. cbn [negb].
    destruct (Z.leb_spec at_ 0); [lia|]. rewrite Esig at 1. rewrite hasPrefix_app. cbn [negb].
    assert (validateExpectedFields (<["auth":=authJSON a]> value) dev req = Ok tt) as ->.
    { revert Hexp. unfold validateExpectedFields, memberIs. by rewrite !lookup_insert_ne by done. }
    cbv zeta. unfold cloneWithoutAuth. rewrite delete_insert_id by done. rewrite Em.
    assert (signatureMatches v sig mt dev req at_ canonical = true) as Es; [|by rewrite Es].
    unfold signatureMatches. case_bool_decide as Hb; [done|]. destruct Hsec as [Hs|Hs]; [congruence|].
    rewrite bool_decide_false by congruence. apply bool_decide_eq_true. congruence. }
  unfold VerifyJSON, verifyJSON. rewrite Eo. unfold checkFreshAndRecord.
  change (ha_SignedAtMS a) with at_. change (ha_Signature a) with sig. rewrite Hchk. cbn [fmap option_fmap option_map]. eauto.
Qed.

(** ** Replay, over a verifier's life *)
Section Life.
Context {W : Type} (v : Verifier).

(** What one verification applies: nothing, or the opened envelope. *)
Definition applied_by (decide : option (gmap string json → W → bool * res unit * W)) payload mt dev req t s w : list envelope :=
  match openEnv v payload mt dev req with
  | Err _ => []
  | Ok (auth, unsigned) =>
    let e := MkEnvelope mt dev req (ha_SignedAtMS auth) (ha_Signature auth) in
    if applies keyOf e_signedAt ((λ d, d unsigned) <$> decide) e t s w then [e] else []
  end.

(** Verifications one after another, and the envelopes they applied. *)
Inductive vstep : replayState * list envelope → replayState * list envelope → Prop :=
| v_verify decide payload mt dev req t w r s s' w' A :
    - 2 ^ 61 ≤ t ≤ 2 ^ 61 →
    slen mt ≤ i64_max → slen dev ≤ i64_max → slen req ≤ i64_max →
    (∀ auth unsigned, openEnv v payload mt dev req = Ok (auth, unsigned) → slen (ha_Signature auth) ≤ i64_max) →
    verify v decide payload mt dev req t s w = (r, s', w') →
    vstep (s, A) (s', applied_by decide payload mt dev req t s w ++ A).

Lemma vstep_rstep c c' : vstep c c' → c = c' ∨ rstep (W := W) envelope_ok keyOf e_signedAt c c'.
Proof.
  intros [decide payload mt dev req t w r s s' w' A Ht Hmt Hdev Hreq Hsig H]. revert H. unfold verifyJSON, applied_by.
  destruct (openEnv v payload mt dev req) as [[auth un]|e] eqn:Eo; [|intros [= _ <- _]; by left].
  destruct (checkFreshAndRecord _ _ _ _ _ _) as [[r1 s1] w1] eqn:Ec. intros H.
  assert (s1 = s') as -> by (destruct r1; by injection H). right.
  pose proof (Hsig _ _ eq_refl). pose proof (openEnvelope_ok _ _ _ _ _ _ _ _ _ _ Eo) as (_ & _ & _ & _ & _ & _ & Hat & _).
  set (e := MkEnvelope mt dev req (ha_SignedAtMS auth) (ha_Signature auth)).
  replace ((if applies keyOf e_signedAt ((λ d, d un) <$> decide) e t s w then [e] else []) ++ A)
    with (if applies keyOf e_signedAt ((λ d, d un) <$> decide) e t s w then e :: A else A) by (by destruct (applies _ _ _ _ _ _ _)).
  eapply r_verify; [|done|exact Ec]. unfold envelope_ok, e. cbn. lia.
Qed.

Lemma vsteps_ledger c c' : rtc vstep c c' → ledger envelope_ok keyOf e_signedAt c → ledger envelope_ok keyOf e_signedAt c'.
Proof.
  induction 1 as [|c1 c2 c3 H _ IH]; [done|]. intros HL. apply IH.
  destruct (vstep_rstep _ _ H) as [<-|Hr]; [done|]. by eapply (rstep_ledger envelope_ok keyOf e_signedAt keyOf_inj).
Qed.

Lemma NewVerifier_ok cfg now s0 :
  NewVerifier cfg now = Ok (v, s0) → in_i64 (ac_MaxSkew cfg) →
  ledger envelope_ok keyOf e_signedAt (s0, []) ∧ 0 < rs_maxKeys s0 ∧ rs_keys s0 = ∅.
Proof.
  unfold NewVerifier, in_i64, i64_min, i64_max. case_bool_decide; [done|]. destruct (_ && _); [done|]. intros [= _ <-] Hs.
  split_and!; [apply (ledger_new _ _ _ keyOf_inj)|cbn; destruct (Z.leb_spec (ac_MaxKeys cfg) 0); unfold defaultMaxKeys; lia|done].
  unfold Millisecond, defaultMaxSkew in *. destruct (Z.leb_spec (ac_MaxSkew cfg) 0); [split; vm_compute; discriminate|].
  split; [apply Z.quot_pos; lia|]. rewrite Z.quot_div_nonneg by lia. apply Z.div_le_upper_bound; lia.
Qed.

Lemma vsteps_bounded c c' :
  rtc vstep c c' → ledger envelope_ok keyOf e_signedAt c → 0 < rs_maxKeys c.1 → Z.of_nat (size (rs_keys c.1)) ≤ rs_maxKeys c.1 →
  rs_maxKeys c'.1 = rs_maxKeys c.1 ∧ Z.of_nat (size (rs_keys c'.1)) ≤ rs_maxKeys c'.1.
Proof.
  induction 1 as [|c1 c2 c3 H _ IH]; [done|]. intros HL Hm Hb. destruct (vstep_rstep _ _ H) as [<-|Hst]; [by apply IH|].
  destruct (rstep_bounded envelope_ok keyOf e_signedAt keyOf_inj _ _ Hst HL Hm Hb) as [E2 B2].
  rewrite <-E2. apply IH; [by eapply (rstep_ledger envelope_ok keyOf e_signedAt keyOf_inj)|by rewrite E2|done].
Qed.

(** C20: No envelope is applied twice: however the clock moves and whatever the
    handlers decide, over the life of a verifier each envelope, named by its
    type, device, request, signing time and signature, is applied at most
    once. *)
Theorem applied_at_most_once cfg now s0 s A :
  NewVerifier cfg now = Ok (v, s0) → in_i64 (ac_MaxSkew cfg) → rtc vstep (s0, []) (s, A) → NoDup A.
Proof.
  intros Hn Hs Hr. destruct (NewVerifier_ok _ _ _ Hn Hs) as [HL _]. exact (lg_once _ _ _ _ (vsteps_ledger _ _ Hr HL)).
Qed.

(** The held keys never exceed the configured number, and what makes room
    for a new one is a key with the least signing time. *)
Theorem replay_memory_bounded cfg now s0 s A :
  NewVerifier cfg now = Ok (v, s0) → in_i64 (ac_MaxSkew cfg) → rtc vstep (s0, []) (s, A) →
  Z.of_nat (size (rs_keys s)) ≤ rs_maxKeys s0 ∧
  (rs_keys s ≠ ∅ → ∃ k h, rs_keys s !! k = Some h ∧ rs_keys (evict s) = delete k (rs_keys s) ∧
     ∀ k' h', rs_keys s !! k' = Some h' → hk_signedAt h ≤ hk_signedAt h').
Proof.
  intros Hn Hs Hr. destruct (NewVerifier_ok _ _ _ Hn Hs) as (HL & Hm & He).
  pose proof (lg_rinv _ _ _ _ (vsteps_ledger _ _ Hr HL)) as R.
  destruct (vsteps_bounded _ _ Hr HL Hm) as [Em Hb]; [cbn; rewrite He, map_size_empty; lia|]. cbn in R, Em, Hb.
  split; [lia|]. intros Hne. unfold evict. destruct (arr (rs_bySign s)) as [|k l] eqn:Ea.
  { destruct Hne. apply dom_empty_inv_L, leibniz_equiv. intros x. rewrite <-(ri_inSign _ R), Ea. set_solver. }
  assert (is_Some (rs_keys s !! k)) as [h Eh] by (apply elem_of_dom, (ri_inSign _ R); rewrite Ea; set_solver).
  exists k, h. split; [done|]. split; [apply drop_keys|]. intros k' h' Hk'.
  pose proof (valid_min _ _ k k' (ri_sign _ R)) as Hmin. rewrite Ea in Hmin. specialize (Hmin eq_refl).
  assert (k' ∈ k :: l) as Hin by (rewrite <-Ea; apply (ri_inSign _ R); by apply elem_of_dom). specialize (Hmin Hin).
  unfold signOf in Hmin. by rewrite Eh, Hk' in Hmin.
Qed.

(** Pruning is exact and costs nothing fresh: it drops the keys whose
    retention has ended and no others, and it never raises the floor above the
    stale bound, so no envelope that is still within the skew is refused for
    it. *)
Theorem prune_exact cfg now s0 s A t :
  NewVerifier cfg now = Ok (v, s0) → in_i64 (ac_MaxSkew cfg) → rtc vstep (s0, []) (s, A) →
  rs_keys (prune t s) = filter (λ kv, t < dropAt s (hk_signedAt kv.2) (hk_receivedAt kv.2)) (rs_keys s) ∧
  rs_floor (prune t s) ≤ Z.max (rs_floor s) (t - rs_skew s).
Proof.
  intros Hn Hs Hr. destruct (NewVerifier_ok _ _ _ Hn Hs) as (HL & _). pose proof (vsteps_ledger _ _ Hr HL) as HS.
  destruct (prune_spec t s (lg_rinv _ _ _ _ HS)) as [_ Ek]. split; [|by apply (prune_floor envelope_ok keyOf e_signedAt keyOf_inj t A)].
  rewrite Ek. apply map_filter_ext. intros k h Hk. cbn. by rewrite (lg_drop _ _ _ _ HS _ _ Hk).
Qed.
End Life.
End Verified.

(** A verifier, an envelope and a canonical form to run them on. *)
Definition exUnicode (_ : string) : bool := true.
Definition exStrict (_ : list string) (_ : string) : option strictError := None.
Definition exMarshal (m : gmap string json) : res string := Ok (print (JObj (map_to_list m))).
Definition exConfig : Config := MkAuthConfig "k" "" 0 0 0.
Definition exVerifier : Verifier := MkVerifier "k" "".
Definition exFresh : replayState := newReplayState 300000 300000 false 131072 900.
Definition exValue : gmap string json := {[ "device_id" := JStr "d1" ]}.
Definition exAuth : HeartbeatAuth :=
  match Sign exMarshal exValue "evidence_inbound_ack" "d1" "" 1000 "k" with Ok a => a | Err _ => MkAuth "" 0 "" end.
Definition exPayload : string := print (JObj [("device_id", JStr "d1"); ("auth", authJSON exAuth)]).
Abbreviation exVerify t s :=
  (verifyJSON exUnicode exStrict exMarshal exVerifier None exPayload "evidence_inbound_ack" "d1" "" t s tt).
Definition exSeen : replayState := (exVerify 1000 exFresh).1.2.
Definition exEnvelope : envelope := MkEnvelope "evidence_inbound_ack" "d1" "" 1000 (ha_Signature exAuth).

Lemma exSigned : Sign exMarshal exValue "evidence_inbound_ack" "d1" "" 1000 "k" = Ok exAuth.
Proof. vm_compute. reflexivity. Qed.

Lemma exFresh_new : NewVerifier exConfig 900 = Ok (exVerifier, exFresh).
Proof. vm_compute. reflexivity. Qed.

Lemma verified_is {A S} (x : res A * S * unit) a : x.1.1 = Ok a → x = (Ok a, x.1.2, tt).
Proof. destruct x as [[? ?] []]. by intros <-. Qed.

Lemma exAccepted : exVerify 1000 exFresh = (Ok exValue, exSeen, tt).
Proof. apply verified_is. vm_compute. reflexivity. Qed.

Lemma exReplayed : (exVerify 1001 exSeen).1.1 = Err (EMsg "mqtt auth replay_detected").
Proof. vm_compute. reflexivity. Qed.

Lemma exOpened unsigned auth :
  openEnvelope exUnicode exStrict exMarshal exVerifier exPayload "evidence_inbound_ack" "d1" "" = Ok (auth, unsigned) →
  slen (ha_Signature auth) ≤ i64_max.
Proof.
  assert (openEnvelope exUnicode exStrict exMarshal exVerifier exPayload "evidence_inbound_ack" "d1" "" = Ok (exAuth, exValue)) as ->
    by (vm_compute; reflexivity). intros [= <- _]. vm_compute. discriminate.
Qed.

Definition exApplied (t : Z) (s : replayState) : list envelope :=
  applied_by (W := unit) exUnicode exStrict exMarshal exVerifier None exPayload "evidence_inbound_ack" "d1" "" t s tt.

Lemma exStep t s A :
  - 2 ^ 61 ≤ t ≤ 2 ^ 61 →
  vstep exUnicode exStrict exMarshal (W := unit) exVerifier (s, A) ((exVerify t s).1.2, exApplied t s ++ A).
Proof.
  intros Ht. apply (v_verify exUnicode exStrict exMarshal exVerifier None exPayload "evidence_inbound_ack" "d1" "" t tt
    (exVerify t s).1.1 s (exVerify t s).1.2 (exVerify t s).2 A);
    [done|vm_compute; discriminate..|exact (λ a u, exOpened u a)|]. by destruct (verifyJSON _ _ _ _ _ _ _ _ _ _ _ _) as [[? ?] ?].
Qed.

Lemma exApplied_first : exApplied 1000 exFresh = [exEnvelope].
Proof. vm_compute. reflexivity. Qed.

Lemma exApplied_again : exApplied 1001 exSeen = [].
Proof. vm_compute. reflexivity. Qed.

(** Verified once, then replayed. *)
Definition exLater : replayState := (exVerify 1001 exSeen).1.2.

Lemma exTwice s0 s1 s2 A B :
  (exVerify 1000 s0).1.2 = s1 → exApplied 1000 s0 = A → (exVerify 1001 s1).1.2 = s2 → exApplied 1001 s1 = B →
  rtc (vstep exUnicode exStrict exMarshal (W := unit) exVerifier) (s0, []) (s2, B ++ A ++ []).
Proof.
  intros <- <- <- <-. eapply rtc_l; [apply (exStep 1000); split; vm_compute; discriminate|].
  eapply rtc_l; [apply (exStep 1001); split; vm_compute; discriminate|]. apply rtc_refl.
Qed.

Lemma exHistory : rtc (vstep exUnicode exStrict exMarshal (W := unit) exVerifier) (exFresh, []) (exLater, [exEnvelope]).
Proof. exact (exTwice exFresh exSeen exLater [exEnvelope] [] eq_refl exApplied_first eq_refl exApplied_again). Qed.


Lemma sign_verify_witness :
  ∃ s', VerifyJSON exUnicode exStrict exMarshal exVerifier exPayload "evidence_inbound_ack" "d1" "" 1000 exFresh tt = (Ok exValue, s', tt).
Proof.
  apply (sign_verify exUnicode exStrict exMarshal exVerifier exPayload exValue "evidence_inbound_ack" "d1" "" 1000 "k" exAuth 1000 exFresh tt).
  - exact exSigned.
  - vm_compute. discriminate.
  - left. vm_compute. reflexivity.
  - reflexivity.
  - reflexivity.
  - vm_compute. reflexivity.
  - reflexivity.
  - vm_compute. reflexivity.
  - vm_compute. reflexivity.
Defined.

Lemma applied_at_most_once_witness : NoDup [exEnvelope].
Proof.
  apply (applied_at_most_once exUnicode exStrict exMarshal (W := unit) exVerifier exConfig 900 exFresh exLater [exEnvelope]).
  - exact exFresh_new.
  - split; vm_compute; discriminate.
  - exact exHistory.
Defined.

Lemma replay_memory_bounded_witness : Z.of_nat (size (rs_keys exLater)) ≤ rs_maxKeys exFresh.
Proof.
  apply (replay_memory_bounded exUnicode exStrict exMarshal (W := unit) exVerifier exConfig 900 exFresh exLater [exEnvelope]).
  - exact exFresh_new.
  - split; vm_compute; discriminate.
  - exact exHistory.
Defined.

Lemma prune_exact_witness : rs_floor (prune 700000 exLater) ≤ Z.max (rs_floor exLater) (700000 - rs_skew exLater).
Proof.
  apply (prune_exact exUnicode exStrict exMarshal (W := unit) exVerifier exConfig 900 exFresh exLater [exEnvelope] 700000).
  - exact exFresh_new.
  - split; vm_compute; discriminate.
  - exact exHistory.
Defined.
End MqttAuthSpec.
