(* ===== verification/Worker.v ===== *)
(** * The delivery worker (evidence/courier/worker.go)

    One delivery lane per device and lane: its retry state, its hold, and the
    attempt it makes at its head.  Times are nanoseconds since the Unix epoch,
    durations nanoseconds at 64 bits; every clock reading is an argument.  The
    two halves of an attempt, before and after the channel answers, are
    separate, because other lanes and admissions run in between. *)
From S2P Require Import Prelude GoBytes Sha256 Json Routing Refusal Faults Store Queue Codec Custody Courier.
Import Routing Store Queue Courier.

Module Worker.

(** ** Time *)
Definition Millisecond : Z := 1000000.
Definition Second : Z := 1000 * Millisecond.
Definition Minute : Z := 60 * Second.

(** [time.Time{}], January 1, year 1. *)
Definition zeroTime : Z := -62135596800 * Second.

(** [t.Sub(u)] saturates. *)
Definition timeSub (t u : Z) : Z := Z.max i64_min (Z.min i64_max (t - u)).
Definition UnixMilli (t : Z) : Z := t / Millisecond.
Definition fromMilli (ms : Z) : Z := ms * Millisecond.
(** [d.Milliseconds()] truncates. *)
Definition Milliseconds (d : Z) : Z := Z.quot d Millisecond.

Definition ceilMilli (t : Z) : Z :=
  let ms := fromMilli (UnixMilli t) in if ms <? t then ms + Millisecond else ms.

(** ** Options *)
Definition defaultDeliveryRetry : Z := 5 * Second.
Definition defaultBlockedReminder : Z := 15 * Minute.
Definition defaultMaxBackoff : Z := 5 * Minute.

Record workerOptions := MkWOpts { wo_retry : Z; wo_backoffBase : Z; wo_maxBackoff : Z; wo_reminder : Z }.

(** The normalisation of [NewDeliveryWorker]. *)
Definition normalise (o : workerOptions) : workerOptions :=
  let retry := if wo_retry o <=? 0 then defaultDeliveryRetry else wo_retry o in
  let base := Z.max (wo_backoffBase o) retry in
  let maxBackoff := if wo_maxBackoff o <=? 0 then Z.max defaultMaxBackoff base else wo_maxBackoff o in
  let reminder := if wo_reminder o <=? 0 then defaultBlockedReminder else wo_reminder o in
  MkWOpts retry base (Z.max maxBackoff base) reminder.

(** ** Back-off delays *)
Fixpoint doubling (n : nat) (delay bound : Z) : Z :=
  match n with
  | O => delay
  | S n' => if delay <? bound then doubling n' (wrap64 (delay * 2)) bound else delay
  end.

Definition backoffDelay (o : workerOptions) (attempts floor : Z) : Z :=
  let delay := doubling (Z.to_nat (attempts - 1)) (wo_backoffBase o) (wo_maxBackoff o) in
  let delay := if wo_maxBackoff o <? delay then wo_maxBackoff o else delay in
  Z.max (Z.max delay (wo_retry o)) floor.

Definition waitBound (o : workerOptions) (retryAfter : Z) : Z :=
  Z.max (Z.max (wo_maxBackoff o) (wo_retry o)) retryAfter.

(** ** A lane *)
Record heldHead := MkHeld { hh_record : HoldRecord; hh_deviceID : string; hh_persisted : bool }.

Record stallState := MkStall {
  st_id : string; st_digest : string; st_device : string; st_lane : Lane;
  st_failure : string; st_reason : string; st_waitsForHandoff : bool; st_since : Z; st_lastLogged : Z }.

Record backoffState := MkBO {
  bo_notBefore : Z; bo_monoDue : Z; bo_attempts : Z; bo_retryAfter : Z; bo_backoffID : string }.

Record deliveryLane := MkLane {
  l_key : LaneKey;
  l_wake : bool;
  l_lastFailureAt : Z;
  l_lastError : string;
  l_bo : backoffState;
  l_held : option heldHead;
  l_stall : option stallState;
  l_attempted : QueuedArtifact;
  l_attemptReason : string }.

Definition noArtifact : QueuedArtifact := MkQueued "" "" "" 0.
Definition noBackoff : backoffState := MkBO zeroTime 0 0 0 "".
Definition newLane (key : LaneKey) : deliveryLane :=
  MkLane key false zeroTime "" noBackoff None None noArtifact "".

Definition setWake (b : bool) (l : deliveryLane) : deliveryLane :=
  MkLane (l_key l) b (l_lastFailureAt l) (l_lastError l) (l_bo l) (l_held l) (l_stall l) (l_attempted l) (l_attemptReason l).
Definition setFailure (at_ : Z) (e : string) (l : deliveryLane) : deliveryLane :=
  MkLane (l_key l) (l_wake l) at_ e (l_bo l) (l_held l) (l_stall l) (l_attempted l) (l_attemptReason l).
Definition setBO (b : backoffState) (l : deliveryLane) : deliveryLane :=
  MkLane (l_key l) (l_wake l) (l_lastFailureAt l) (l_lastError l) b (l_held l) (l_stall l) (l_attempted l) (l_attemptReason l).
Definition setHeld (h : option heldHead) (l : deliveryLane) : deliveryLane :=
  MkLane (l_key l) (l_wake l) (l_lastFailureAt l) (l_lastError l) (l_bo l) h (l_stall l) (l_attempted l) (l_attemptReason l).
Definition setStall (st : option stallState) (l : deliveryLane) : deliveryLane :=
  MkLane (l_key l) (l_wake l) (l_lastFailureAt l) (l_lastError l) (l_bo l) (l_held l) st (l_attempted l) (l_attemptReason l).
Definition setAttempted (a : QueuedArtifact) (l : deliveryLane) : deliveryLane :=
  MkLane (l_key l) (l_wake l) (l_lastFailureAt l) (l_lastError l) (l_bo l) (l_held l) (l_stall l) a (l_attemptReason l).
Definition setAttemptReason (r : string) (l : deliveryLane) : deliveryLane :=
  MkLane (l_key l) (l_wake l) (l_lastFailureAt l) (l_lastError l) (l_bo l) (l_held l) (l_stall l) (l_attempted l) r.

Definition notify (l : deliveryLane) : deliveryLane := setWake true l.

(** [head]: the only place the lane chooses what it offers next. *)
Definition head (l : deliveryLane) (s : qst) : option QueuedArtifact := PeekLane (l_key l) (sq s).
Definition queued (l : deliveryLane) (s : qst) : Z := LenLane (l_key l) (sq s).

(** ** Back-off *)
Definition backoffRecord (id : string) (notBefore attempts retryAfter : Z) : BackoffRecord :=
  MkBackoff 0 id (UnixMilli notBefore) attempts (if 0 <? retryAfter then Some (Milliseconds retryAfter) else None).

Definition persistClamp (id : string) (notBefore attempts retryAfter : Z) (s : qst) : qst :=
  if decide (id = "") then s else (SetBackoff (backoffRecord id notBefore attempts retryAfter) s).2.

(** How long the back-off still forbids an attempt. *)
Definition untilDue (o : workerOptions) (wall mono : Z) (l : deliveryLane) (s : qst) : Z * deliveryLane * qst :=
  let b := l_bo l in
  let w := timeSub (bo_notBefore b) wall in
  let bound := waitBound o (bo_retryAfter b) in
  if bound <? w then
    let notBefore := ceilMilli (wall + bound) in
    let wait := Z.max (timeSub notBefore wall) (wrap64 (bo_monoDue b - mono)) in
    (wait, setBO (MkBO notBefore (bo_monoDue b) (bo_attempts b) (bo_retryAfter b) (bo_backoffID b)) l,
     persistClamp (bo_backoffID b) notBefore (bo_attempts b) (bo_retryAfter b) s)
  else (Z.max w (wrap64 (bo_monoDue b - mono)), l, s).

(** [scheduleBackoff]; the second pair of readings is [untilDue]'s. *)
Definition scheduleBackoff (o : workerOptions) (err : deliveryError) (wall mono wall' mono' : Z)
    (l : deliveryLane) (s : qst) : Z * deliveryLane * qst :=
  let floor := match err with errChannelRefused retryAfter => retryAfter | _ => 0 end in
  let attempts := if bo_attempts (l_bo l) <? maxBackoffAttempts then bo_attempts (l_bo l) + 1 else bo_attempts (l_bo l) in
  let h := l_attempted l in
  let delay := backoffDelay o attempts floor in
  let notBefore := ceilMilli (wall + delay) in
  let monoDue := wrap64 (mono + delay) in
  let l' := setBO (MkBO notBefore monoDue attempts floor (qa_ID h)) l in
  let s' := if decide (qa_ID h = "") then s else (SetBackoff (backoffRecord (qa_ID h) notBefore attempts floor) s).2 in
  untilDue o wall' mono' l' s'.

Definition clearBackoff (l : deliveryLane) (s : qst) : deliveryLane * qst :=
  let h := l_attempted l in
  (setBO noBackoff l, if decide (qa_ID h = "") then s else (ClearBackoff (qa_ID h) s).2).

(** ** Holds *)
Definition adoptDurableHold (q : QueuedArtifact) (l : deliveryLane) (s : qst) : deliveryLane :=
  if decide ((h_QueueRecord ∘ hh_record) <$> l_held l = Some (qa_ID q)) then l
  else match HoldFor (qa_ID q) (sq s) with
  | None => l
  | Some record =>
    setFailure (fromMilli (h_FirstHeldAtMS record)) (safeFailureReason errChannelPermanentRefusal)
      (setStall None (setHeld (Some (MkHeld record (artifactDeviceID (qa_Payload q)) true)) l))
  end.

Definition adoptedHead (l : deliveryLane) (s : qst) : option QueuedArtifact * deliveryLane :=
  match head l s with
  | Some q => (Some q, adoptDurableHold q l s)
  | None => (None, l)
  end.

(** Whether the lane's head is the held artifact; otherwise the hold is released. *)
Definition releaseHeldUnless (q : option QueuedArtifact) (l : deliveryLane) : bool * deliveryLane :=
  match l_held l, q with
  | Some h, Some a => if decide (qa_ID a = h_QueueRecord (hh_record h)) then (true, l) else (false, setHeld None l)
  | _, _ => (false, setHeld None l)
  end.

(** [hold]; [now] is what the wall clock reads. *)
Definition hold (q : QueuedArtifact) (status : Z) (reason : string) (now : Z) (l : deliveryLane) (s : qst)
    : deliveryLane * qst :=
  let status' := if heldRefusalStatus status then status else 0 in
  let record := MkHold holdRecordVersion (qa_ID q) (payloadDigest (qa_Payload q)) (qa_Type q) status'
                  (Refusal.RecordedReason status' reason) (UnixMilli now) false in
  let '(r, s') := HoldOp record s in
  (setFailure (fromMilli (UnixMilli now)) (safeFailureReason errChannelPermanentRefusal)
     (setStall None (setHeld (Some (MkHeld record (artifactDeviceID (qa_Payload q)) (is_ok r))) l)), s').

(** [remind]: whether the head is held or waits for a handoff. *)
Definition remind (now : Z) (l : deliveryLane) : bool * deliveryLane :=
  let waiting := match l_stall l with Some st => st_waitsForHandoff st | None => false end in
  let l' := if waiting then
              setStall ((λ st, MkStall (st_id st) (st_digest st) (st_device st) (st_lane st) (st_failure st) (st_reason st)
                                 (st_waitsForHandoff st) (st_since st) now) <$> l_stall l) l
            else l in
  (match l_held l with Some _ => true | None => waiting end, l').

Definition noteStall (o : workerOptions) (err : deliveryError) (now : Z) (l : deliveryLane) : deliveryLane :=
  let h := l_attempted l in
  let waits := bool_decide (err = errChannelReceiverState) in
  let enter := match l_stall l with
               | None => true
               | Some st => negb (bool_decide (st_id st = qa_ID h)) || (waits && negb (st_waitsForHandoff st))
               end in
  let due := match l_stall l with
             | Some st => negb enter && (wo_reminder o <=? timeSub now (st_lastLogged st))
             | None => false
             end in
  let base := match l_stall l with
              | Some st => if enter then MkStall (qa_ID h) (payloadDigest (qa_Payload h)) (lk_Device (l_key l)) (lk_Lane (l_key l)) "" "" false now now
                           else st
              | None => MkStall (qa_ID h) (payloadDigest (qa_Payload h)) (lk_Device (l_key l)) (lk_Lane (l_key l)) "" "" false now now
              end in
  setStall (Some (MkStall (st_id base) (st_digest base) (st_device base) (st_lane base) (safeFailureReason err) (l_attemptReason l)
                    waits (st_since base) (if due then now else st_lastLogged base))) l.

Definition recordFailure (err : deliveryError) (now : Z) (l : deliveryLane) : deliveryLane :=
  setFailure now (safeFailureReason err) l.

Definition clearFailure (l : deliveryLane) : deliveryLane :=
  setStall None (setFailure (l_lastFailureAt l) "" l).

(** [restore]: adopts a persisted hold or back-off, without sending. *)
Definition restore (o : workerOptions) (wall mono now : Z) (l0 : deliveryLane) (s : qst) : deliveryLane * qst :=
  match adoptedHead l0 s with
  | (None, l) => (l, s)
  | (Some h, l) =>
    match BackoffFor (qa_ID h) (sq s) with
    | None => (l, s)
    | Some record =>
      let retryAfter := match b_RetryAfterMS record with Some ms => wrap64 (ms * Millisecond) | None => 0 end in
      let notBefore0 := fromMilli (b_NotBeforeMS record) in
      let latest := wall + waitBound o retryAfter in
      let clamped := latest <? notBefore0 in
      let notBefore := if clamped then ceilMilli latest else notBefore0 in
      let monoDue := wrap64 (mono + Z.max (timeSub notBefore wall) 0) in
      let l' := setFailure now (safeFailureReason (errChannelRefused 0))
                  (setBO (MkBO notBefore monoDue (b_Attempts record) retryAfter (qa_ID h)) l) in
      (l', if clamped then persistClamp (qa_ID h) notBefore (b_Attempts record) retryAfter s else s)
    end
  end.

(** ** An attempt *)

(** What the channel answered: a result, or an error that is or is not
    [ErrUnrecognisedOutcome]. *)
Inductive outcome : Type :=
| Answered (r : DeliveryResult)
| Unanswered (unrecognised : bool).

Inductive delivered : Type :=
| Delivered (a : QueuedArtifact)
| NothingQueued
| Failed (e : deliveryError).

(** The first half: the wake is consumed, the head read and adopted. *)
Definition beginAttempt (l0 : deliveryLane) (s : qst) : deliveryLane * delivered + deliveryLane * QueuedArtifact :=
  let '(h, l1) := adoptedHead (setWake false l0) s in
  let '(held, l2) := releaseHeldUnless h l1 in
  if held then inl (l2, Failed errHeadHeld)
  else match h with
  | None => inl (l2, NothingQueued)
  | Some q =>
    let attempts := if decide (qa_ID (l_attempted l2) = qa_ID q) then bo_attempts (l_bo l2) else 0 in
    inr (setAttemptReason "" (setAttempted q (setBO (MkBO zeroTime 0 attempts 0 "") l2)), q)
  end.

(** The device each returned artifact is routed to, and whether one covers
    the queued envelope; [None] when one is malformed. *)
Fixpoint routeArtifacts (domain : string → bool) (q : QueuedArtifact) (l : list AuthorityArtifact)
    : option (list AuthorityArtifact * bool) :=
  match l with
  | [] => Some ([], false)
  | a :: l' =>
    if bool_decide (aa_Payload a = "") || negb (validAuthorityArtifactType (aa_Type a)) then None
    else match validateAuthorityRouting q a domain with
    | Err _ => None
    | Ok (deviceID, covers) =>
      match routeArtifacts domain q l' with
      | None => None
      | Some (routed, c) => Some (MkAuthority (aa_Type a) deviceID (aa_Payload a) :: routed, covers || c)
      end
    end
  end.

(** What the worker needs of a sink for authority artifacts: once it accepts
    one, it keeps it. *)
Class AuthoritySink (K : Type) := {
  Store : AuthorityArtifact → EM K unit;
  staged : K → AuthorityArtifact → Prop;
  store_ok : ∀ a k u k', Store a k = (Ok u, k') → staged k' a;
  store_keeps : ∀ a k r k' b, Store a k = (r, k') → staged k b → staged k' b }.

Section Attempt.
Context {K : Type} `{AuthoritySink K}.

Fixpoint storeAll (l : list AuthorityArtifact) : EM K unit :=
  match l with
  | [] => eret tt
  | a :: l' => (Store a ;;; storeAll l')%em
  end.

Definition unrecognised (l : deliveryLane) : deliveryLane := setAttemptReason Refusal.Unrecognised l.

(** The second half: what the channel's answer does to the head [q]. *)
Definition finishAttempt (hasSink : bool) (q : QueuedArtifact) (out : outcome) (now : Z)
    (l : deliveryLane) (s : qst) (k : K) : delivered * deliveryLane * qst * K :=
  match out with
  | Unanswered true => (Failed errMalformedResponse, unrecognised l, s, k)
  | Unanswered false => (Failed errChannelUnavailable, l, s, k)
  | Answered r =>
    if negb (dr_Accepted r) then
      let l1 := setAttemptReason (Refusal.RecordedReason (dr_RefusalStatus r) (dr_RefusalReason r)) l in
      if negb (dr_Retriable r) then
        if dr_ReceiverState r then (Failed errChannelReceiverState, l1, s, k)
        else let '(l2, s') := hold q (dr_RefusalStatus r) (dr_RefusalReason r) now l1 s in
             (Failed errChannelPermanentRefusal, l2, s', k)
      else (Failed (errChannelRefused (dr_RetryAfter r)), l1, s, k)
    else if negb (bool_decide (dr_AuthorityArtifacts r = [])) && negb hasSink then (Failed errRuntimeSink, l, s, k)
    else match routeArtifacts (RoutingDeviceID (sq s)) q (dr_AuthorityArtifacts r) with
    | None => (Failed errMalformedResponse, unrecognised l, s, k)
    | Some (routed, covered) =>
      if bool_decide (qa_Type q = ArtifactDeliveryEnvelope) && negb covered then
        (Failed errMalformedResponse, unrecognised l, s, k)
      else match storeAll routed k with
      | (Err _, k') => (Failed errRuntimeSink, unrecognised l, s, k')
      | (Ok _, k') =>
        match Remove (qa_ID q) s with
        | (Err _, s') => (Failed errQueueRetirement, l, s', k')
        | (Ok _, s') =>
          let b := l_bo l in
          (Delivered q, setAttempted noArtifact (setBO (MkBO (bo_notBefore b) (bo_monoDue b) 0 (bo_retryAfter b) (bo_backoffID b)) l), s', k')
        end
      end
    end
  end.

(** [deliverHead], undisturbed. *)
Definition deliverHead (hasSink : bool) (out : QueuedArtifact → outcome) (now : Z)
    (l : deliveryLane) (s : qst) (k : K) : delivered * deliveryLane * qst * K :=
  match beginAttempt l s with
  | inl (l', d) => (d, l', s, k)
  | inr (l', q) => finishAttempt hasSink q (out q) now l' s k
  end.
End Attempt.

(** ** The loop of a lane *)
Inductive timerAct : Type := TKeep | TReset (delay : Z).

(** A handoff arrived: whether an attempt follows. *)
Definition onWake (o : workerOptions) (wall mono : Z) (l : deliveryLane) (s : qst) : bool * deliveryLane * qst :=
  let '(wait, l', s') := untilDue o wall mono (setWake false l) s in (negb (0 <? wait), l', s').

(** The timer fired: an attempt, or when to fire again. *)
Definition onTimer (o : workerOptions) (wall mono now : Z) (l : deliveryLane) (s : qst)
    : option timerAct * deliveryLane * qst :=
  let '(reminded, l1) := remind now l in
  if reminded then (Some (TReset (wo_reminder o)), l1, s)
  else let '(wait, l2, s2) := untilDue o wall mono l1 s in
       if 0 <? wait then (Some (TReset wait), l2, s2) else (None, l2, s2).

(** What the loop does with the result of [deliverHead]. *)
Definition afterAttempt (o : workerOptions) (d : delivered) (now wall mono wall' mono' : Z)
    (l : deliveryLane) (s : qst) : timerAct * deliveryLane * qst :=
  match d with
  | Delivered _ => (TReset 0, clearFailure l, s)
  | NothingQueued => (TReset (wo_retry o), clearFailure l, s)
  | Failed errHeadHeld => (TKeep, l, s)
  | Failed err =>
    let l1 := recordFailure err now l in
    match err with
    | errChannelPermanentRefusal => let '(l2, s') := clearBackoff l1 s in (TReset (wo_reminder o), l2, s')
    | errChannelReceiverState =>
      let '(l2, s') := clearBackoff (noteStall o err now l1) s in (TReset (wo_reminder o), l2, s')
    | _ => let '(wait, l2, s') := scheduleBackoff o err wall mono wall' mono' (noteStall o err now l1) s in
           (TReset wait, l2, s')
    end
  end.
End Worker.
