(* ===== verification/WorkerSys.v ===== *)
(** * The running worker: lanes, handoffs and answers interleaved

    The lanes of one worker over its queue and sink.  Between the two halves of
    one lane's attempt any other lane, admission or handoff may step. *)
From S2P Require Import Prelude GoBytes Sha256 Json Routing Refusal Faults Store Queue Codec QueueInv QueueOps QueueDir Probe Load QueueLife QueueSpec Custody Courier Worker.
Import Routing Store Queue Codec QueueInv QueueOps QueueDir Probe Load QueueLife QueueSpec Courier Worker.

Module WorkerSys.

(** ** The worker *)
Record laneRun := MkRun { r_lane : deliveryLane; r_flight : option QueuedArtifact }.

(** [y_sent] records what was offered to the channel, newest first, and
    [y_mono] the latest monotonic reading. *)
Record sys (K : Type) := MkSys {
  y_lanes : gmap LaneKey laneRun; y_q : qst; y_k : K; y_sent : list (LaneKey * string); y_mono : Z }.
Arguments MkSys {K}.
Arguments y_lanes {K}.
Arguments y_q {K}.
Arguments y_k {K}.
Arguments y_sent {K}.
Arguments y_mono {K}.

(** [lane]: the lane of [key], created when absent. *)
Definition laneAt (lanes : gmap LaneKey laneRun) (key : LaneKey) : laneRun :=
  default (MkRun (newLane key) None) (lanes !! key).

Definition notifyLane (key : LaneKey) (lanes : gmap LaneKey laneRun) : gmap LaneKey laneRun :=
  let r := laneAt lanes key in <[key := MkRun (notify (r_lane r)) (r_flight r)]> lanes.

Definition NotifyDevice (device : string) (lanes : gmap LaneKey laneRun) : gmap LaneKey laneRun :=
  notifyLane (MkLaneKey device LaneEvidence) (notifyLane (MkLaneKey device LaneRegistration) lanes).

(** [retired]: retiring an anchor registration is a handoff for the device's
    evidence lane. *)
Definition retired (device : string) (q : QueuedArtifact) (lanes : gmap LaneKey laneRun) : gmap LaneKey laneRun :=
  if decide (qa_Type q = ArtifactAnchorRegistration) then notifyLane (MkLaneKey device LaneEvidence) lanes else lanes.

(** [NewDeliveryWorker]: every lane with queued artifacts, restored. *)
Fixpoint restoreLanes (o : workerOptions) (wall mono now : Z) (keys : list LaneKey)
    (lanes : gmap LaneKey laneRun) (s : qst) : gmap LaneKey laneRun * qst :=
  match keys with
  | [] => (lanes, s)
  | key :: keys' =>
    let '(l, s') := restore o wall mono now (r_lane (laneAt lanes key)) s in
    restoreLanes o wall mono now keys' (<[key := MkRun l None]> lanes) s'
  end.

Definition NewDeliveryWorker {K} (o : workerOptions) (wall mono now : Z) (s : qst) (k : K) : sys K :=
  let '(lanes, s') := restoreLanes o wall mono now (Lanes (sq s)) ∅ s in MkSys lanes s' k [] mono.

Section Steps.
Context {K : Type} `{AuthoritySink K} (o : workerOptions) (hasSink : bool).
Implicit Types (y : sys K) (key : LaneKey).

(** Readings of the clocks during one step. *)
Record readings := MkReadings { t_now : Z; t_wall : Z; t_mono : Z; t_wall2 : Z; t_mono2 : Z }.

(** The attempt that follows a gate that let it through. *)
Definition attempt (t : readings) (key : LaneKey) (l : deliveryLane) (s : qst) (y : sys K) : sys K :=
  match beginAttempt l s with
  | inl (l1, d) =>
    let '(_, l2, s2) := afterAttempt o d (t_now t) (t_wall t) (t_mono t) (t_wall2 t) (t_mono2 t) l1 s in
    MkSys (<[key := MkRun l2 None]> (y_lanes y)) s2 (y_k y) (y_sent y) (t_mono2 t)
  | inr (l1, q) =>
    MkSys (<[key := MkRun l1 (Some q)]> (y_lanes y)) s (y_k y) ((key, qa_ID q) :: y_sent y) (t_mono2 t)
  end.

(** The answer to the attempt in flight. *)
Definition answer (t : readings) (key : LaneKey) (q : QueuedArtifact) (out : outcome) (l : deliveryLane) (y : sys K) : sys K :=
  let '(d, l1, s1, k1) := finishAttempt hasSink q out (t_now t) l (y_q y) (y_k y) in
  let '(_, l2, s2) := afterAttempt o d (t_now t) (t_wall t) (t_mono t) (t_wall2 t) (t_mono2 t) l1 s1 in
  let lanes := <[key := MkRun l2 None]> (y_lanes y) in
  let lanes := match d with Delivered a => retired (lk_Device key) a lanes | _ => lanes end in
  MkSys lanes s2 k1 (y_sent y) (t_mono2 t).

Inductive wstep : sys K → sys K → Prop :=
| w_admit nowMS kind payload y a s' :
    nowMS ≤ i64_max → slen payload ≤ 2 ^ 60 → nextSeq (sq (y_q y)) < i64_max →
    enqueueOrFind nowMS kind payload (y_q y) = (a, s') →
    wstep y (MkSys (y_lanes y) s' (y_k y) (y_sent y) (y_mono y))
| w_probe body y a s' :
    ProbeOp body (y_q y) = (a, s') → wstep y (MkSys (y_lanes y) s' (y_k y) (y_sent y) (y_mono y))
| w_unconfigured device y a s' :
    NoteUnconfiguredDevice device (y_q y) = (a, s') → wstep y (MkSys (y_lanes y) s' (y_k y) (y_sent y) (y_mono y))
| w_admitted device y :
    wstep y (MkSys (y_lanes y) (NoteAdmittedDevice device (y_q y)) (y_k y) (y_sent y) (y_mono y))
| w_notify device y :
    wstep y (MkSys (NotifyDevice device (y_lanes y)) (y_q y) (y_k y) (y_sent y) (y_mono y))
| w_wake t key l y :
    y_lanes y !! key = Some (MkRun l None) → l_wake l = true → y_mono y ≤ t_mono t ≤ t_mono2 t →
    wstep y (let '(go, l1, s1) := onWake o (t_wall t) (t_mono t) l (y_q y) in
             if (go : bool) then attempt t key l1 s1 y
             else MkSys (<[key := MkRun l1 None]> (y_lanes y)) s1 (y_k y) (y_sent y) (t_mono2 t))
| w_timer t key l y :
    y_lanes y !! key = Some (MkRun l None) → y_mono y ≤ t_mono t ≤ t_mono2 t →
    wstep y (let '(act, l1, s1) := onTimer o (t_wall t) (t_mono t) (t_now t) l (y_q y) in
             match act with
             | None => attempt t key l1 s1 y
             | Some _ => MkSys (<[key := MkRun l1 None]> (y_lanes y)) s1 (y_k y) (y_sent y) (t_mono2 t)
             end)
| w_answer t key l q out y :
    y_lanes y !! key = Some (MkRun l (Some q)) → y_mono y ≤ t_mono t ≤ t_mono2 t →
    wstep y (answer t key q out l y).
End Steps.

(** ** The head of a lane under other operations *)
Section Heads.
Implicit Types (q : DurableQueue) (s : qst).

Definition is_head (key : LaneKey) (en : gmap string queueRecord) (r : queueRecord) : Prop :=
  en !! qr_ID r = Some r ∧ recordLane r = key ∧
  ∀ id' r', en !! id' = Some r' → recordLane r' = key → qr_QueueSeq r ≤ qr_QueueSeq r'.

Lemma PeekLane_head q key a :
  qinv q → PeekLane key q = Some a ↔ ∃ r, is_head key (entries q) r ∧ a = recordArtifact r.
Proof.
  intros Hq. pose proof (firstWhere_oldest (λ id, bool_decide (laneOf q !! id = Some key)) (λ r, recordLane r = key) q Hq) as F.
  fold (PeekLane key q) in F. assert (∀ id r, entries q !! id = Some r →
    bool_decide (laneOf q !! id = Some key) = true ↔ recordLane r = key) as HP.
  { intros id r Hr. rewrite bool_decide_eq_true, (qi_lane _ Hq), Hr. cbn. naive_solver. }
  specialize (F HP). destruct (PeekLane key q) as [b|].
  - destruct F as (r & H1 & H2 & -> & H3). split.
    + intros [= <-]. exists r. by split.
    + intros (r' & (H1' & H2' & H3') & ->). f_equal. f_equal.
      assert (qr_QueueSeq r = qr_QueueSeq r') as E by (pose proof (H3 _ _ H1' H2'); pose proof (H3' _ _ H1 H2); lia).
      pose proof (qi_seq _ Hq _ _ _ _ H1 H1' E) as Eid. rewrite Eid in H1. congruence.
  - split; [done|]. intros (r & (H1 & H2 & _) & _). by apply F in H1.
Qed.

Lemma is_head_insert key en r r0 :
  is_head key en r → en !! qr_ID r0 = None → (∀ id x, en !! id = Some x → qr_QueueSeq x ≤ qr_QueueSeq r0) →
  is_head key (<[qr_ID r0 := r0]> en) r.
Proof.
  intros (H1 & H2 & H3) Hnew Hlast. split; [rewrite lookup_insert_ne; [done|congruence]|]. split; [done|].
  intros id' r' [[_ <-]|[_ H]]%lookup_insert_Some Hl; [by eapply Hlast|by eapply H3].
Qed.

Lemma is_head_delete key en r id :
  is_head key en r → id ≠ qr_ID r → is_head key (delete id en) r.
Proof.
  intros (H1 & H2 & H3) Hne. split; [by rewrite lookup_delete_ne|]. split; [done|].
  intros id' r' [_ H]%lookup_delete_Some. by eapply H3.
Qed.

(** Admission leaves every head in place. *)
Lemma enqueue_entries nowMS kind payload s a s' :
  qinv (sq s) → enqueueOrFind nowMS kind payload s = (a, s') →
  entries (sq s') = entries (sq s) ∨
  ∃ r, entries (sq s') = <[qr_ID r := r]> (entries (sq s)) ∧ entries (sq s) !! qr_ID r = None ∧ qr_QueueSeq r = nextSeq (sq s).
Proof.
  intros Hq [[-> _]|(Hnew & _ & _ & b & Hi & _)]%enqueueOrFind_cases; [by left|].
  destruct Hi as [e|e s1 r0 Hw|s1 r0 Hc Hi Hs1 Hn1 Hb Hs2 Hw]; [by left|left; by rewrite (writeRecord_sq _ _ _ _ _ Hw)|].
  right. exists r0. cbn [sq]. by rewrite commit_entries, (writeRecord_sq _ _ _ _ _ Hw).
Qed.

Lemma enqueue_keeps_head nowMS kind payload s a s' key x :
  qinv (sq s) → qinv (sq s') → enqueueOrFind nowMS kind payload s = (a, s') →
  PeekLane key (sq s) = Some x → PeekLane key (sq s') = Some x.
Proof.
  intros Hq Hq' H (r & Hr & ->)%(PeekLane_head _ _ _ Hq). apply (PeekLane_head _ _ _ Hq'). exists r. split; [|done].
  destruct (enqueue_entries _ _ _ _ _ _ Hq H) as [->|(r0 & -> & Hn & Hs)]; [done|].
  apply is_head_insert; [done|done|]. intros id z (_ & _ & ?)%(qi_wf _ Hq). lia.
Qed.

Lemma same_keeps_head s s' key x :
  qinv (sq s) → qinv (sq s') → entries (sq s') = entries (sq s) → PeekLane key (sq s) = Some x → PeekLane key (sq s') = Some x.
Proof.
  intros Hq Hq' E (r & Hr & ->)%(PeekLane_head _ _ _ Hq). apply (PeekLane_head _ _ _ Hq'). exists r. by rewrite E.
Qed.

Lemma remove_keeps_head id s a s' key x :
  qinv (sq s) → Remove id s = (a, s') → qa_ID x ≠ id → PeekLane key (sq s) = Some x → PeekLane key (sq s') = Some x.
Proof.
  intros Hq Hr Hne (r & Hh & ->)%(PeekLane_head _ _ _ Hq). destruct (Remove_retired _ _ _ _ Hr Hq) as [Hq' _ R3 R4 _].
  apply (PeekLane_head _ _ _ Hq'). exists r. split; [|done].
  destruct (decide (a = Ok tt)) as [->|Ha]; [destruct (R3 eq_refl) as [-> _]; by apply is_head_delete|by rewrite R4].
Qed.
End Heads.

(** ** What each part of the loop leaves of a lane *)
Section LaneFrames.
Context (o : workerOptions).
Implicit Types (l : deliveryLane) (s : qst).

(** Only sidecars of the queue changed. *)
Definition qframe s s' : Prop := (qinv (sq s) → qinv (sq s')) ∧ entries (sq s') = entries (sq s).

#[global] Instance qframe_refl : Reflexive qframe.
Proof. by intros s. Qed.
#[global] Instance qframe_trans : Transitive qframe.
Proof. intros a b c [H1 E1] [H2 E2]. split; [auto|congruence]. Qed.

(** The lane keeps its key, hold and monotonic deadline. *)
Definition lframe l l' : Prop :=
  l_key l' = l_key l ∧ l_held l' = l_held l ∧ bo_monoDue (l_bo l') = bo_monoDue (l_bo l).

#[global] Instance lframe_refl : Reflexive lframe.
Proof. by intros l. Qed.
#[global] Instance lframe_trans : Transitive lframe.
Proof. intros a b c (? & ? & ?) (? & ? & ?). split_and!; congruence. Qed.

Lemma SetBackoff_frame b s : qinv (sq s) → qframe s (SetBackoff b s).2.
Proof.
  intros Hq. destruct (SetBackoff b s) as [r s'] eqn:E. destruct (SetBackoff_spec _ _ _ _ E Hq) as (? & [? _] & _). done.
Qed.

Lemma ClearBackoff_frame id s : qinv (sq s) → qframe s (ClearBackoff id s).2.
Proof.
  intros Hq. destruct (ClearBackoff id s) as [r s'] eqn:E. destruct (ClearBackoff_spec _ _ _ _ E Hq) as (? & [? _] & _). done.
Qed.

Lemma persistClamp_frame id nb at_ ra s : qinv (sq s) → qframe s (persistClamp id nb at_ ra s).
Proof. intros Hq. unfold persistClamp. case_decide; [reflexivity|by apply SetBackoff_frame]. Qed.

Lemma untilDue_spec wall mono l s w l' s' :
  qinv (sq s) → untilDue o wall mono l s = (w, l', s') →
  lframe l l' ∧ qframe s s' ∧ l_wake l' = l_wake l ∧ wrap64 (bo_monoDue (l_bo l) - mono) ≤ w.
Proof.
  intros Hq. unfold untilDue. cbv zeta. destruct (_ <? _); intros [= <- <- <-].
  - split_and!; [done|by apply persistClamp_frame|done|lia].
  - split_and!; [reflexivity|reflexivity|done|lia].
Qed.

Lemma onWake_spec wall mono l s go l' s' :
  qinv (sq s) → onWake o wall mono l s = (go, l', s') →
  lframe l l' ∧ qframe s s' ∧ (go = true → wrap64 (bo_monoDue (l_bo l) - mono) ≤ 0).
Proof.
  intros Hq. unfold onWake. destruct (untilDue o wall mono (setWake false l) s) as [[w l1] s1] eqn:E.
  intros [= <- <- <-]. apply untilDue_spec in E as (F & Q & _ & W); [|done].
  split_and!; [done|done|]. intros Hg. apply negb_true_iff in Hg. cbn in W. lia.
Qed.

Lemma remind_spec now l b l' : remind now l = (b, l') → lframe l l' ∧ (b = false → l_held l = None).
Proof.
  unfold remind. cbv zeta. intros [= <- <-]. split; [by destruct (match l_stall l with Some st => _ | None => _ end)|].
  by destruct (l_held l).
Qed.

Lemma onTimer_spec wall mono now l s act l' s' :
  qinv (sq s) → onTimer o wall mono now l s = (act, l', s') →
  lframe l l' ∧ qframe s s' ∧ (act = None → wrap64 (bo_monoDue (l_bo l) - mono) ≤ 0 ∧ l_held l = None).
Proof.
  intros Hq. unfold onTimer. destruct (remind now l) as [b l1] eqn:Er. apply remind_spec in Er as [F1 Hn].
  destruct b; [intros [= <- <- <-]; split_and!; [done|reflexivity|done]|].
  destruct (untilDue o wall mono l1 s) as [[w l2] s2] eqn:E. apply untilDue_spec in E as (F & Q & _ & W); [|done].
  pose proof F1 as (_ & _ & E1). rewrite E1 in W.
  destruct (Z.ltb_spec 0 w); intros [= <- <- <-]; (split_and!; [by etransitivity|done|]); [done|].
  intros _. split; [lia|auto].
Qed.

Lemma scheduleBackoff_spec err wall mono wall' mono' l s w l' s' :
  qinv (sq s) → scheduleBackoff o err wall mono wall' mono' l s = (w, l', s') →
  l_key l' = l_key l ∧ l_held l' = l_held l ∧ qframe s s' ∧
  ∃ attempts, bo_monoDue (l_bo l') =
    wrap64 (mono + backoffDelay o attempts (match err with errChannelRefused ra => ra | _ => 0 end)).
Proof.
  intros Hq H. unfold scheduleBackoff in H. cbv zeta in H.
  match type of H with untilDue _ _ _ ?a ?b = _ => set (l1 := a) in H; set (s1 := b) in H end.
  assert (qframe s s1) as Q1 by (unfold s1; case_decide; [reflexivity|by apply SetBackoff_frame]).
  apply untilDue_spec in H as ((E1 & E2 & E3) & Q2 & _); [|by apply Q1].
  split_and!; [done|done|by etransitivity|]. rewrite E3. cbn. eauto.
Qed.

Lemma clearBackoff_spec l s l' s' :
  qinv (sq s) → clearBackoff l s = (l', s') → l_key l' = l_key l ∧ l_held l' = l_held l ∧ qframe s s'.
Proof.
  intros Hq. unfold clearBackoff. intros [= <- <-]. split_and!; [done|done|]. case_decide; [reflexivity|by apply ClearBackoff_frame].
Qed.

(** The loop's bookkeeping after an attempt keeps the hold; after a failure
    that backs off, the next attempt is at least the delay away. *)
Lemma afterAttempt_spec d now wall mono wall' mono' l s act l' s' :
  qinv (sq s) → afterAttempt o d now wall mono wall' mono' l s = (act, l', s') →
  l_key l' = l_key l ∧ l_held l' = l_held l ∧ qframe s s' ∧
  (∀ err, d = Failed err → err ∉ [errHeadHeld; errChannelPermanentRefusal; errChannelReceiverState] →
     ∃ attempts, bo_monoDue (l_bo l') =
       wrap64 (mono + backoffDelay o attempts (match err with errChannelRefused ra => ra | _ => 0 end))).
Proof.
  intros Hq H. unfold afterAttempt in H.
  destruct d as [a| |e]; [injection H as <- <- <-; split_and!; done|injection H as <- <- <-; split_and!; done|].
  assert (∀ e, (let '(wait, l2, s2) := scheduleBackoff o e wall mono wall' mono' (noteStall o e now (recordFailure e now l)) s in
    (TReset wait, l2, s2)) = (act, l', s') →
    l_key l' = l_key l ∧ l_held l' = l_held l ∧ qframe s s' ∧
    ∃ attempts, bo_monoDue (l_bo l') =
       wrap64 (mono + backoffDelay o attempts (match e with errChannelRefused ra => ra | _ => 0 end))) as Hs.
  { intros e'. destruct (scheduleBackoff o e' wall mono wall' mono' (noteStall o e' now (recordFailure e' now l)) s)
      as [[w l2] s2] eqn:E. intros [= <- <- <-].
    apply scheduleBackoff_spec in E as (E1 & E2 & E3 & E4); [|exact Hq].
    split_and!; [exact E1|exact E2|exact E3|exact E4]. }
  assert (∀ x, l_key x = l_key l → l_held x = l_held l →
    (let '(l2, s2) := clearBackoff x s in (TReset (wo_reminder o), l2, s2)) = (act, l', s') →
    l_key l' = l_key l ∧ l_held l' = l_held l ∧ qframe s s') as Hc.
  { intros x E1 E2. destruct (clearBackoff x s) as [l2 s2] eqn:E. intros [= <- <- <-].
    apply clearBackoff_spec in E as (-> & -> & ?); done. }
  destruct e; try (by destruct (Hs _ H) as (? & ? & ? & ?); split_and!; [done|done|done|]; intros ? [= <-] _).
  - apply Hc in H as (? & ? & ?); [|done..]. split_and!; try done. intros err [= <-] Hn. set_solver.
  - apply Hc in H as (? & ? & ?); [|done..]. split_and!; try done. intros err [= <-] Hn. set_solver.
  - injection H as <- <- <-. split_and!; try done. intros err [= <-] Hn. set_solver.
Qed.
End LaneFrames.

(** ** The invariant of the running worker *)
Section Invariant.
Context {K : Type} `{AuthoritySink K} (o : workerOptions) (hasSink : bool).
Implicit Types (y : sys K) (key : LaneKey) (l : deliveryLane) (s : qst).

(** An attempt in flight is at its lane's head and the lane is not held; a
    hold is on its lane's head and nothing is in flight. *)
Record lane_ok key s (r : laneRun) : Prop := {
  lo_key : l_key (r_lane r) = key;
  lo_flight : ∀ q, r_flight r = Some q → l_held (r_lane r) = None ∧ PeekLane key (sq s) = Some q;
  lo_held : ∀ h, l_held (r_lane r) = Some h →
    r_flight r = None ∧ ∃ q, PeekLane key (sq s) = Some q ∧ qa_ID q = h_QueueRecord (hh_record h) }.

Definition winv y : Prop := qinv (sq (y_q y)) ∧ map_Forall (λ key r, lane_ok key (y_q y) r) (y_lanes y).

(** Heads that stay keep every lane in order. *)
Lemma lane_ok_heads key s s' r :
  (∀ x, PeekLane key (sq s) = Some x → PeekLane key (sq s') = Some x) → lane_ok key s r → lane_ok key s' r.
Proof. intros Hh []. split; [done|naive_solver|]. intros h (? & q & ? & ?)%lo_held0. eauto. Qed.

Lemma qframe_heads s s' key x :
  qinv (sq s) → qframe s s' → PeekLane key (sq s) = Some x → PeekLane key (sq s') = Some x.
Proof. intros Hq [H1 E]. apply same_keeps_head; auto. Qed.

Lemma lane_ok_idle key s l l' : lframe l l' → lane_ok key s (MkRun l None) → lane_ok key s (MkRun l' None).
Proof. intros (E1 & E2 & _) []. split; cbn in *; [congruence|done|rewrite E2; done]. Qed.

(** A lane that holds its head makes no attempt; one that makes an attempt
    offers its head. *)
Lemma beginAttempt_spec key l s :
  qinv (sq s) → lane_ok key s (MkRun l None) →
  match beginAttempt l s with
  | inl (l1, d) =>
    lane_ok key s (MkRun l1 None) ∧ (∀ h, l_held l = Some h → l_held l1 = Some h) ∧
    bo_monoDue (l_bo l1) = bo_monoDue (l_bo l) ∧ (d = Failed errHeadHeld ∨ d = NothingQueued)
  | inr (l1, q) => lane_ok key s (MkRun l1 (Some q)) ∧ l_held l = None
  end.
Proof.
  intros Hq Hl. pose proof (lo_key _ _ _ Hl) as Hk. cbn in Hk.
  unfold beginAttempt, adoptedHead, head. cbn [setWake l_key]. rewrite Hk.
  destruct (PeekLane key (sq s)) as [q|] eqn:Ep.
  - assert (∀ h, l_held l = Some h → h_QueueRecord (hh_record h) = qa_ID q) as Hheld.
    { intros h Hh. destruct (lo_held _ _ _ Hl h Hh) as (_ & q' & Hq' & <-). congruence. }
    set (l0 := adoptDurableHold q (setWake false l) s).
    assert (l_key l0 = key ∧ bo_monoDue (l_bo l0) = bo_monoDue (l_bo l) ∧
      (∀ h, l_held l = Some h → l_held l0 = Some h) ∧
      (∀ h, l_held l0 = Some h → h_QueueRecord (hh_record h) = qa_ID q)) as (K0 & M0 & H0 & R0).
    { unfold l0, adoptDurableHold. cbn [setWake l_held].
      destruct (decide (_ <$> l_held l = Some (qa_ID q))) as [E|E].
      - split_and!; [done|done|done|]. cbn. destruct (l_held l) as [h1|]; [|done]. cbn in E. intros h [= <-]. congruence.
      - assert (l_held l = None) as Hn.
        { destruct (l_held l) as [h|]; [|done]. exfalso. apply E. cbn. f_equal. by apply Hheld. }
        destruct (HoldFor (qa_ID q) (sq s)) as [rec|] eqn:Eh; [|split_and!; [done|done|done|cbn; congruence]].
        split_and!; [done|done|congruence|]. cbn. intros h [= <-]. cbn. by apply (qi_holds _ Hq) in Eh as [? _]. }
    clearbody l0. unfold releaseHeldUnless. destruct (l_held l0) as [h0|] eqn:Eh0.
    + rewrite decide_True by (symmetry; by apply R0). split; [|rewrite Eh0; auto].
      split; cbn; [done|done|]. intros h E. rewrite Eh0 in E. injection E as <-. split; [done|]. exists q. by rewrite (R0 _ eq_refl).
    + split; [|destruct (l_held l) eqn:E; [|done]; specialize (H0 _ eq_refl); congruence].
      split; cbn; [done| |done]. intros q' [= <-]. done.
  - assert (l_held l = None) as Hn.
    { destruct (l_held l) as [h|] eqn:E; [|done]. destruct (lo_held _ _ _ Hl h E) as (_ & q & Hq' & _). congruence. }
    unfold releaseHeldUnless. cbn [setWake l_held]. rewrite Hn. split; [|split; [congruence|auto]]. by split; cbn.
Qed.

Lemma hold_spec q status reason now l s l' s' :
  qinv (sq s) → hold q status reason now l s = (l', s') →
  l_key l' = l_key l ∧ (∃ h, l_held l' = Some h ∧ h_QueueRecord (hh_record h) = qa_ID q) ∧ qframe s s'.
Proof.
  intros Hq. unfold hold. cbv zeta. destruct (HoldOp _ s) as [r s1] eqn:E. intros [= <- <-]. cbn.
  split; [done|]. split; [by eexists|]. apply HoldOp_spec in E as (? & [? _] & _); done.
Qed.

(** ** Retirement *)

(** A delivery receipt of the artifact's own device whose range contains the
    artifact's sequence. *)
Definition covering_receipt (q : QueuedArtifact) (a : AuthorityArtifact) : Prop :=
  aa_Type a = AuthorityDeliveryReceipt ∧
  ∃ out auth from to, routingOutbound (qa_Payload q) = Some out ∧ routingAuthority (aa_Payload a) = Some auth ∧
    ar_DeviceID auth = ob_DeviceID out ∧ ar_FromSeq auth = Some from ∧ ar_ToSeq auth = Some to ∧
    from ≤ ob_LocalSeq out ≤ to.

Lemma covering_receipt_ok domain q a d :
  validateAuthorityRouting q a domain = Ok (d, true) → covering_receipt q a.
Proof.
  unfold validateAuthorityRouting. destruct (routingOutbound (qa_Payload q)) as [out|] eqn:Eo; [|done].
  case_decide; [done|]. destruct (authorityRoutingProjection _ _ _) as [auth|] eqn:Ea; [|done].
  destruct (bool_decide_reflect (ar_DeviceID auth = ob_DeviceID out)) as [Ed|]; [|done]. cbn [negb].
  destruct (bool_decide_reflect (aa_Type a = AuthorityDeliveryReceipt)) as [Et|]; [|done]. cbn [negb]. cbv zeta.
  intros [= _ Hc]. unfold authorityRoutingProjection in Ea.
  destruct (routingAuthority (aa_Payload a)) as [auth'|] eqn:Er; [|done]. destruct (negb _); [done|].
  rewrite bool_decide_eq_true_2 in Ea by done. cbn [negb] in Ea.
  destruct (ar_FromSeq auth') as [from|] eqn:Ef; [|done]. destruct (ar_ToSeq auth') as [to|] eqn:Eto; [|done].
  destruct (_ || _); [done|]. injection Ea as ->. rewrite Ef, Eto in Hc. cbn in Hc.
  split; [done|]. exists out, auth, from, to. split_and!; try done; destruct (bool_decide _); lia.
Qed.

Lemma routeArtifacts_covered domain q (l : list AuthorityArtifact) routed c :
  routeArtifacts domain q l = Some (routed, c) →
  length routed = length l ∧ (c = true → ∃ a, a ∈ l ∧ covering_receipt q a) ∧
  ∀ a, a ∈ l → ∃ d, MkAuthority (aa_Type a) d (aa_Payload a) ∈ routed.
Proof.
  revert routed c. induction l as [|a l IH]; intros routed c; cbn [routeArtifacts].
  { intros [= <- <-]. split_and!; [done|done|set_solver]. }
  destruct (_ || _); [done|]. destruct (validateAuthorityRouting q a domain) as [[d cov]|] eqn:Ev; [|done].
  destruct (routeArtifacts domain q l) as [[routed' c']|]; [|done]. intros [= <- <-].
  destruct (IH _ _ eq_refl) as (IH1 & IH2 & IH3). split_and!; [cbn; lia| |].
  - destruct cov; [intros _; exists a; split; [set_solver|by eapply covering_receipt_ok]|].
    intros (b & ? & ?)%IH2. exists b. set_solver.
  - intros b [->|Hb]%elem_of_cons; [exists d; set_solver|]. destruct (IH3 _ Hb) as [d' ?]. exists d'. set_solver.
Qed.

Lemma routeArtifacts_payloads domain q (l : list AuthorityArtifact) routed c :
  routeArtifacts domain q l = Some (routed, c) → ∀ b, b ∈ routed → ∃ a, a ∈ l ∧ aa_Payload a = aa_Payload b.
Proof.
  revert routed c. induction l as [|a l IH]; intros routed c; cbn [routeArtifacts]; [intros [= <- <-]; set_solver|].
  destruct (_ || _); [done|]. destruct (validateAuthorityRouting q a domain) as [[d cov]|]; [|done].
  destruct (routeArtifacts domain q l) as [[routed' c']|]; [|done]. intros [= <- <-] b [->|Hb]%elem_of_cons.
  - exists a. split; [set_solver|done].
  - destruct (IH _ _ eq_refl _ Hb) as (a' & ? & ?). exists a'. split; [set_solver|done].
Qed.

Lemma storeAll_staged (l : list AuthorityArtifact) (k : K) u k' :
  storeAll l k = (Ok u, k') → (∀ a, a ∈ l → staged k' a) ∧ ∀ b, staged k b → staged k' b.
Proof.
  revert k. induction l as [|a l IH]; intros k; cbn [storeAll]; [intros [= _ <-]; set_solver|].
  intros ([] & k1 & H1 & [IH1 IH2]%IH)%ebind_ok. split.
  - intros b [->|Hb]%elem_of_cons; [|auto]. by eapply IH2, store_ok.
  - intros b Hb. by eapply IH2, store_keeps.
Qed.

(** An answer the worker may retire its head on. *)
Definition clean_acceptance (q : QueuedArtifact) (out : outcome) (k : K) : Prop :=
  ∃ r, out = Answered r ∧ dr_Accepted r = true ∧
    (qa_Type q = ArtifactDeliveryEnvelope → ∃ a, a ∈ dr_AuthorityArtifacts r ∧ covering_receipt q a) ∧
    ∀ a, a ∈ dr_AuthorityArtifacts r → ∃ d, staged k (MkAuthority (aa_Type a) d (aa_Payload a)).

Lemma finishAttempt_spec key q out now l s k d l' s' k' :
  qinv (sq s) → lane_ok key s (MkRun l (Some q)) →
  finishAttempt hasSink q out now l s k = (d, l', s', k') →
  qinv (sq s') ∧ lane_ok key s' (MkRun l' None) ∧
  (∀ key' x, key' ≠ key → PeekLane key' (sq s) = Some x → PeekLane key' (sq s') = Some x) ∧
  (entries (sq s') = entries (sq s) ∨
   d = Delivered q ∧ entries (sq s') = delete (qa_ID q) (entries (sq s)) ∧ clean_acceptance q out k').
Proof.
  intros Hq Hl Hf. pose proof (lo_key _ _ _ Hl) as Hk. destruct (lo_flight _ _ _ Hl q eq_refl) as [Hn Hp]. cbn in Hk, Hn.
  assert (∀ x s1, l_key x = l_key l → l_held x = None → qframe s s1 →
    qinv (sq s1) ∧ lane_ok key s1 (MkRun x None) ∧
    (∀ key' z, key' ≠ key → PeekLane key' (sq s) = Some z → PeekLane key' (sq s1) = Some z) ∧
    (entries (sq s1) = entries (sq s) ∨ d = Delivered q ∧ entries (sq s1) = delete (qa_ID q) (entries (sq s)) ∧ clean_acceptance q out k')) as Hstay.
  { intros x s1 E1 E2 Q. split_and!; [by apply Q| | |left; apply Q].
    - split; cbn; congruence.
    - intros key' z _. by apply qframe_heads. }
  unfold finishAttempt in Hf. destruct out as [r|[]]; [|injection Hf as <- <- <- <-; by apply Hstay..].
  destruct (dr_Accepted r) eqn:Eacc; cbn [negb] in Hf.
  2: { destruct (dr_Retriable r); cbn [negb] in Hf; [injection Hf as <- <- <- <-; by apply Hstay|].
       destruct (dr_ReceiverState r); [injection Hf as <- <- <- <-; by apply Hstay|].
       destruct (hold _ _ _ _ _ _) as [l2 s2] eqn:Eh. injection Hf as <- <- <- <-.
       apply hold_spec in Eh as (E1 & (h & E2 & E3) & Q); [|done]. split_and!; [by apply Q| | |left; apply Q].
       - split; cbn; [rewrite E1; done|done|]. intros h'. rewrite E2. intros [= <-]. split; [done|].
         exists q. split; [by apply (qframe_heads s)|done].
       - intros key' z _. by apply qframe_heads. }
  destruct (_ && _) in Hf; [injection Hf as <- <- <- <-; by apply Hstay|].
  destruct (routeArtifacts _ q _) as [[routed c]|] eqn:Er; [|injection Hf as <- <- <- <-; by apply Hstay].
  apply routeArtifacts_covered in Er as (_ & Hc & Ha).
  destruct (bool_decide (qa_Type q = ArtifactDeliveryEnvelope) && negb c) eqn:Ec; [injection Hf as <- <- <- <-; by apply Hstay|].
  destruct (storeAll routed k) as [[[]|] k1] eqn:Es; [|injection Hf as <- <- <- <-; by apply Hstay].
  apply storeAll_staged in Es as [Hst _].
  destruct (Remove (qa_ID q) s) as [a s1] eqn:Ere. pose proof (Remove_retired _ _ _ _ Ere Hq) as [Hq1 _ R3 R4 _].
  destruct a as [[]|e]; injection Hf as <- <- <- <-.
  - split_and!; [done|split; cbn; [done|done|congruence]| |].
    + intros key' x Hne Hx. eapply remove_keeps_head; [exact Hq|exact Ere| |exact Hx].
      apply (PeekLane_head _ _ _ Hq) in Hp as (r1 & (P1 & P2 & _) & ->). apply (PeekLane_head _ _ _ Hq) in Hx as (r2 & (X1 & X2 & _) & ->).
      cbn. intros E. rewrite E in X1. congruence.
    + right. split; [done|]. split; [by apply R3|]. exists r. split_and!; [done|done| |].
      * intros Ht. apply Hc. rewrite bool_decide_eq_true_2 in Ec by done. by destruct c.
      * intros b Hb. destruct (Ha _ Hb) as [d' Hd']. exists d'. by apply Hst.
  - apply Hstay; [done|done|]. split; [done|by apply R4].
Qed.

(** ** One step of the worker *)
Notation lanes_ok s := (map_Forall (λ key r, lane_ok key s r)).

(** What a lane is known to do in one step: nothing is offered by a lane
    that is held, and what is offered is its lane's head, due on the
    monotonic clock. *)
Definition offers y y' key l (mono : Z) : Prop :=
  y_sent y' = y_sent y ∨
  ∃ q, y_sent y' = (key, qa_ID q) :: y_sent y ∧ PeekLane key (sq (y_q y)) = Some q ∧ l_held l = None ∧
    wrap64 (bo_monoDue (l_bo l) - mono) ≤ 0.

Lemma attempt_spec t key l s y :
  qinv (sq s) → lane_ok key s (MkRun l None) → lanes_ok s (y_lanes y) →
  let y' := attempt o t key l s y in
  winv y' ∧ entries (sq (y_q y')) = entries (sq s) ∧
  (∀ h, l_held l = Some h → ∃ l', y_lanes y' !! key = Some (MkRun l' None) ∧ l_held l' = Some h) ∧
  (∀ key', key' ≠ key → y_lanes y' !! key' = y_lanes y !! key') ∧
  (y_sent y' = y_sent y → ∃ l', y_lanes y' !! key = Some (MkRun l' None) ∧ bo_monoDue (l_bo l') = bo_monoDue (l_bo l)) ∧
  (y_sent y' = y_sent y ∨ ∃ q, y_sent y' = (key, qa_ID q) :: y_sent y ∧ PeekLane key (sq s) = Some q ∧ l_held l = None).
Proof.
  intros Hq Hl Hls y'. pose proof (beginAttempt_spec key l s Hq Hl) as Hb. unfold y', attempt. clear y'.
  destruct (beginAttempt l s) as [[l1 d]|[l1 q]].
  - destruct Hb as (Hl1 & Hh & Hm & Hd). destruct (afterAttempt _ _ _ _ _ _ _ _ _) as [[act l2] s2] eqn:Ea.
    assert (bo_monoDue (l_bo l2) = bo_monoDue (l_bo l)) as Hm2 by (destruct Hd as [->| ->]; injection Ea as <- <- <-; done).
    apply afterAttempt_spec in Ea as (E1 & E2 & Q & _); [|done]. cbn.
    assert (∀ key' r, lane_ok key' s r → lane_ok key' s2 r) as Hfr.
    { intros key' r. apply lane_ok_heads. intros x. by apply qframe_heads. }
    split_and!; [split; cbn; [by apply Q|]|by apply Q| | | |by left].
    + apply map_Forall_insert_2; [|intros k' r' Hr'; apply Hfr; by apply Hls].
      apply Hfr. destruct Hl1. split; cbn in *; [congruence|done|rewrite E2; done].
    + intros h Hh'. exists l2. rewrite lookup_insert_eq, E2. auto.
    + intros key' Hne. by rewrite lookup_insert_ne.
    + intros _. exists l2. by rewrite lookup_insert_eq.
  - destruct Hb as [Hl1 Hn]. cbn. split_and!; [split; cbn; [done|by apply map_Forall_insert_2]|done|congruence| | |].
    + intros key' Hne. by rewrite lookup_insert_ne.
    + intros E%(f_equal length). cbn in E. lia.
    + right. exists q. split_and!; [done| |done]. by apply (lo_flight _ _ _ Hl1).
Qed.

Lemma notifyLane_ok key s lanes : lanes_ok s lanes → lanes_ok s (notifyLane key lanes).
Proof.
  intros Hls. unfold notifyLane. apply map_Forall_insert_2; [|done]. unfold laneAt.
  destruct (lanes !! key) as [r|] eqn:E; cbn; [|by split; cbn]. apply Hls in E. destruct E. by split.
Qed.

Lemma notifyLane_lookup key key' lanes r :
  lanes !! key' = Some r → ∃ l', notifyLane key lanes !! key' = Some (MkRun l' (r_flight r)) ∧
    l_held l' = l_held (r_lane r) ∧ l_bo l' = l_bo (r_lane r).
Proof.
  intros E. unfold notifyLane. destruct (decide (key = key')) as [->|Hne].
  - rewrite lookup_insert_eq. unfold laneAt. rewrite E. cbn. eauto.
  - rewrite lookup_insert_ne by done. exists (r_lane r). destruct r. cbn. auto.
Qed.

Lemma NotifyDevice_lookup device key lanes r :
  lanes !! key = Some r → ∃ l', NotifyDevice device lanes !! key = Some (MkRun l' (r_flight r)) ∧
    l_held l' = l_held (r_lane r) ∧ l_bo l' = l_bo (r_lane r).
Proof.
  intros E. unfold NotifyDevice.
  destruct (notifyLane_lookup (MkLaneKey device LaneRegistration) _ _ _ E) as (l1 & E1 & H1 & B1).
  destruct (notifyLane_lookup (MkLaneKey device LaneEvidence) _ _ _ E1) as (l2 & E2 & H2 & B2). cbn in *.
  exists l2. split_and!; [done|congruence|congruence].
Qed.

(** The steps that only touch the queue keep every head. *)
Lemma queue_step_winv y s' :
  winv y → qinv (sq s') → (∀ key x, PeekLane key (sq (y_q y)) = Some x → PeekLane key (sq s') = Some x) →
  winv (MkSys (y_lanes y) s' (y_k y) (y_sent y) (y_mono y)).
Proof. intros [_ Hls] Hq' Hh. split; cbn; [done|]. intros key r Hr. eapply lane_ok_heads; [|by apply Hls]. auto. Qed.

Lemma records_same_qframe s s' : qinv (sq s') ∧ records_same s s' → qframe s s'.
Proof. by intros [? [? _]]. Qed.

Lemma admit_keeps nowMS kind payload s a s' :
  qinv (sq s) → nowMS ≤ i64_max → slen payload ≤ 2 ^ 60 → nextSeq (sq s) < i64_max →
  enqueueOrFind nowMS kind payload s = (a, s') →
  qinv (sq s') ∧ (∀ key x, PeekLane key (sq s) = Some x → PeekLane key (sq s') = Some x) ∧ entries (sq s) ⊆ entries (sq s').
Proof.
  intros Hq Hn Hp Hs He. assert (qinv (sq s')) as Hq'.
  { apply enqueueOrFind_cases in He as [[-> _]|(Hnew & Hk & Hpl & b & Hi & _)]; [done|].
    eapply inserted_qinv; [exact Hq| |exact Hnew|exact Hi]. by split. }
  split_and!; [done|intros key x; by eapply enqueue_keeps_head|].
  destruct (enqueue_entries _ _ _ _ _ _ Hq He) as [->|(r & -> & Hr & _)]; [done|by apply insert_subseteq].
Qed.

Record effect y y' : Prop := {
  ef_inv : winv y';
  ef_held : ∀ key l h, y_lanes y !! key = Some (MkRun l None) → l_held l = Some h →
    ∃ l', y_lanes y' !! key = Some (MkRun l' None) ∧ l_held l' = Some h;
  ef_due : ∀ key l, y_lanes y !! key = Some (MkRun l None) →
    (∃ id, y_sent y' = (key, id) :: y_sent y) ∨
    ∃ l', y_lanes y' !! key = Some (MkRun l' None) ∧ bo_monoDue (l_bo l') = bo_monoDue (l_bo l);
  ef_sent : y_sent y' = y_sent y ∨
    ∃ key l q mono, y_lanes y !! key = Some (MkRun l None) ∧ y_sent y' = (key, qa_ID q) :: y_sent y ∧
      PeekLane key (sq (y_q y)) = Some q ∧ l_held l = None ∧
      y_mono y ≤ mono ≤ y_mono y' ∧ wrap64 (bo_monoDue (l_bo l) - mono) ≤ 0;
  ef_kept : ∀ id r, entries (sq (y_q y)) !! id = Some r →
    entries (sq (y_q y')) !! id = Some r ∨
    ∃ key l q out, y_lanes y !! key = Some (MkRun l (Some q)) ∧ qa_ID q = id ∧ clean_acceptance q out (y_k y') }.

(** Everything but the lanes' own steps. *)
Lemma effect_queue y s' :
  winv y → qinv (sq s') → (∀ key x, PeekLane key (sq (y_q y)) = Some x → PeekLane key (sq s') = Some x) →
  entries (sq (y_q y)) ⊆ entries (sq s') → effect y (MkSys (y_lanes y) s' (y_k y) (y_sent y) (y_mono y)).
Proof.
  intros Hw Hq' Hh Hsub. split; cbn; [by apply queue_step_winv|eauto|eauto|by left|].
  intros id r Hr. left. by eapply lookup_weaken.
Qed.

Lemma effect_frame y s' :
  winv y → qframe (y_q y) s' → effect y (MkSys (y_lanes y) s' (y_k y) (y_sent y) (y_mono y)).
Proof.
  intros Hw Q. pose proof Hw as [Hq _]. pose proof Q as [Hq' E]. apply effect_queue; [done|auto| |by rewrite E].
  intros key x. by apply qframe_heads.
Qed.

(** A lane's gate, with or without the attempt it lets through. *)
Lemma effect_gate t key l l1 s1 y go :
  winv y → y_lanes y !! key = Some (MkRun l None) → lframe l l1 → qframe (y_q y) s1 →
  y_mono y ≤ t_mono t ≤ t_mono2 t → (go = true → wrap64 (bo_monoDue (l_bo l) - t_mono t) ≤ 0) →
  effect y (if go then attempt o t key l1 s1 y
            else MkSys (<[key := MkRun l1 None]> (y_lanes y)) s1 (y_k y) (y_sent y) (t_mono2 t)).
Proof.
  intros [Hq Hls] Hlane F Q Ht Hgo. pose proof F as (E1 & E2 & E3). pose proof Q as [Hq1 Ee].
  assert (qinv (sq s1)) as Hq1' by auto.
  assert (lanes_ok s1 (y_lanes y)) as Hls1.
  { intros k r Hr. eapply lane_ok_heads; [|by apply Hls]. intros x. by apply qframe_heads. }
  assert (lane_ok key s1 (MkRun l1 None)) as Hl1 by (eapply lane_ok_idle; [exact F|]; by apply Hls1).
  assert (∀ k x, PeekLane k (sq s1) = Some x → PeekLane k (sq (y_q y)) = Some x) as Hback.
  { intros k x (r & Hr & ->)%(PeekLane_head _ _ _ Hq1'). apply (PeekLane_head _ _ _ Hq). exists r. by rewrite <-Ee. }
  destruct go.
  - pose proof (attempt_spec t key l1 s1 y Hq1' Hl1 Hls1) as (Hw' & Ek & Hh & Ho & Hd & Hs).
    split; [done| | | |].
    + intros k l' h Hl' Hh'. destruct (decide (k = key)) as [->|Hne].
      * apply Hh. congruence.
      * rewrite Ho by done. eauto.
    + intros k l' Hl'. destruct (decide (k = key)) as [->|Hne]; [|right; rewrite Ho by done; eauto].
      replace l' with l in * by congruence. destruct Hs as [Hs|(q & Hs & _)]; [right|left; eauto].
      destruct (Hd Hs) as (l2 & ? & ?). exists l2. split; [done|congruence].
    + destruct Hs as [Hs|(q & Hs & Hp & Hn)]; [by left|right]. exists key, l, q, (t_mono t).
      split_and!; [done|done|by apply Hback|congruence|lia| |auto].
      unfold attempt in *. destruct (beginAttempt l1 s1) as [[? ?]|[? ?]]; [destruct (afterAttempt _ _ _ _ _ _ _ _ _) as [[? ?] ?]|]; cbn; lia.
    + intros id r Hr. left. by rewrite Ek, Ee.
  - split; cbn; [split; cbn; [done|by apply map_Forall_insert_2]| | |by left|intros id r Hr; left; by rewrite Ee].
    + intros k l' h Hl' Hh'. destruct (decide (k = key)) as [->|Hne].
      * exists l1. rewrite lookup_insert_eq. split; [done|congruence].
      * rewrite lookup_insert_ne by done. eauto.
    + intros k l' Hl'. right. destruct (decide (k = key)) as [->|Hne].
      * exists l1. rewrite lookup_insert_eq. split; [done|congruence].
      * rewrite lookup_insert_ne by done. eauto.
Qed.

Lemma retired_ok device q s lanes : lanes_ok s lanes → lanes_ok s (retired device q lanes).
Proof. intros Hl. unfold retired. case_decide; [by apply notifyLane_ok|done]. Qed.

Lemma retired_lookup device q key lanes r :
  lanes !! key = Some r → ∃ l', retired device q lanes !! key = Some (MkRun l' (r_flight r)) ∧
    l_held l' = l_held (r_lane r) ∧ l_bo l' = l_bo (r_lane r).
Proof.
  intros E. unfold retired. case_decide; [destruct (notifyLane_lookup (MkLaneKey device LaneEvidence) _ _ _ E) as (l' & ? & ? & ?); eauto|].
  exists (r_lane r). destruct r. auto.
Qed.

Lemma effect_answer t key l q out y :
  winv y → y_lanes y !! key = Some (MkRun l (Some q)) → y_mono y ≤ t_mono t ≤ t_mono2 t →
  effect y (answer o hasSink t key q out l y).
Proof.
  intros [Hq Hls] Hlane Ht. unfold answer.
  destruct (finishAttempt hasSink q out (t_now t) l (y_q y) (y_k y)) as [[[d l1] s1] k1] eqn:Ef.
  apply (finishAttempt_spec key) in Ef as (Hq1 & Hl1 & Hheads & Hent); [|done|by apply Hls].
  destruct (afterAttempt _ _ _ _ _ _ _ _ _) as [[act l2] s2] eqn:Ea.
  apply afterAttempt_spec in Ea as (E1 & E2 & Q & _); [|done]. pose proof Q as [Hq2 Ee].
  assert (lanes_ok s2 (<[key := MkRun l2 None]> (y_lanes y))) as Hls2.
  { intros k r. destruct (decide (k = key)) as [->|Hne].
    - rewrite lookup_insert_eq. intros [= <-]. eapply lane_ok_heads; [intros x; by apply (qframe_heads s1)|].
      destruct Hl1. split; cbn in *; [congruence|done|rewrite E2; done].
    - rewrite lookup_insert_ne by done. intros Hr. eapply lane_ok_heads; [|by apply Hls].
      intros x Hx. apply (qframe_heads s1); auto. }
  assert (∀ k l', y_lanes y !! k = Some (MkRun l' None) →
    <[key := MkRun l2 None]> (y_lanes y) !! k = Some (MkRun l' None)) as Hkeep.
  { intros k l' Hl'. rewrite lookup_insert_ne; [done|]. intros <-. congruence. }
  split; cbn.
  - split; cbn; [auto|]. destruct d; [by apply retired_ok|done..].
  - intros k l' h Hl' Hh. pose proof (Hkeep _ _ Hl') as Hk.
    destruct d; [destruct (retired_lookup (lk_Device key) a _ _ _ Hk) as (l'' & ? & ? & _); exists l''; cbn in *; split; [done|congruence]|eauto..].
  - intros k l' Hl'. pose proof (Hkeep _ _ Hl') as Hk. right.
    destruct d; [destruct (retired_lookup (lk_Device key) a _ _ _ Hk) as (l'' & ? & _ & ?); exists l''; cbn in *; split; [done|congruence]|eauto..].
  - by left.
  - intros id r Hr. rewrite Ee. destruct Hent as [->|(-> & -> & Hc)]; [by left|].
    destruct (decide (id = qa_ID q)) as [->|Hne]; [right; by exists key, l, q, out|left; by rewrite lookup_delete_ne].
Qed.

Lemma wstep_effect y y' : wstep o hasSink y y' → winv y → effect y y'.
Proof.
  intros Hs Hw. pose proof Hw as [Hq Hls].
  destruct Hs as [nowMS kind payload y a s' Hn Hp Hseq He|body y a s' He|device y a s' He|device y|device y
    |t key l y Hl Hwk Ht|t key l y Hl Ht|t key l q out y Hl Ht].
  - destruct (admit_keeps _ _ _ _ _ _ Hq Hn Hp Hseq He) as (? & ? & ?). by apply effect_queue.
  - apply effect_frame; [done|]. apply records_same_qframe. by eapply ProbeOp_spec in He.
  - apply effect_frame; [done|]. apply records_same_qframe. by eapply NoteUnconfiguredDevice_spec in He.
  - apply effect_frame; [done|]. apply records_same_qframe. by apply NoteAdmittedDevice_spec.
  - split; cbn; [split; cbn; [done|unfold NotifyDevice; by do 2 apply notifyLane_ok]| | |by left|by left].
    + intros key l h E Hh. destruct (NotifyDevice_lookup device _ _ _ E) as (l2 & E2 & H2 & _).
      exists l2. split; [done|]. cbn in H2. congruence.
    + intros key l E. right. destruct (NotifyDevice_lookup device _ _ _ E) as (l2 & E2 & _ & B2).
      exists l2. split; [done|]. cbn in B2. congruence.
  - destruct (onWake o (t_wall t) (t_mono t) l (y_q y)) as [[go l1] s1] eqn:E.
    apply onWake_spec in E as (F & Q & G); [|done]. by eapply effect_gate.
  - destruct (onTimer o (t_wall t) (t_mono t) (t_now t) l (y_q y)) as [[act l1] s1] eqn:E.
    apply onTimer_spec in E as (F & Q & G); [|done].
    pose proof (effect_gate t key l l1 s1 y (match act with None => true | Some _ => false end) Hw Hl F Q Ht) as Hg.
    destruct act; apply Hg; [done|]. intros _. by apply G.
  - by apply effect_answer.
Qed.

Lemma wsteps_winv y y' : rtc (wstep o hasSink) y y' → winv y → winv y'.
Proof. induction 1 as [|y y1 y2 Hs _ IH]; intros Hw; [done|]. apply IH. by apply (ef_inv _ _ (wstep_effect _ _ Hs Hw)). Qed.
End Invariant.
End WorkerSys.
