(* ===== verification/Status.v ===== *)
(** * Delivery status (evidence/courier/worker.go, Status)

    What the worker reports of its lanes, and what its [Blocked] and [Degraded]
    flags mean. *)
From S2P Require Import Prelude GoBytes Sha256 Json Routing Refusal Faults Store Queue Codec QueueInv QueueOps QueueLife QueueSpec QueueShares Courier Worker WorkerSys.
Import Routing Store Queue Codec QueueInv QueueOps QueueLife QueueSpec Courier Worker WorkerSys.

Module Status.

Definition DeviceHeld : string := "held".
Definition DeviceWaitingHandoff : string := "waiting_handoff".
Definition DeviceBackingOff : string := "backing_off".

Record HeldStatus := MkHeldStatus {
  hs_QueueRecord : string; hs_ArtifactDigest : string; hs_ArtifactType : string; hs_RefusalStatus : Z;
  hs_Reason : string; hs_FirstHeldAt : Z; hs_Acknowledged : bool; hs_Persisted : bool }.

Record DeviceDeliveryStatus := MkDeviceStatus {
  ds_DeviceID : string; ds_Lane : Lane; ds_Pending : Z; ds_State : string; ds_Held : option HeldStatus }.

Record DeliveryStatus := MkStatus {
  d_Pending : Z; d_Degraded : bool; d_Blocked : bool; d_LastFailureAt : Z; d_LastError : string;
  d_Held : option HeldStatus; d_Devices : list DeviceDeliveryStatus; d_Faults : list string }.

Definition heldStatus (h : heldHead) : HeldStatus :=
  let r := hh_record h in
  MkHeldStatus (h_QueueRecord r) (h_ArtifactDigest r) (h_ArtifactType r) (h_RefusalStatus r) (h_Reason r)
    (fromMilli (h_FirstHeldAtMS r)) (h_Acknowledged r) (hh_persisted h).

(** The entry of one lane; its state is empty for a lane delivering cleanly. *)
Definition laneEntry (counts : gmap LaneKey Z) (l : deliveryLane) : DeviceDeliveryStatus :=
  let pending := default 0 (counts !! l_key l) in
  let entry st h := MkDeviceStatus (lk_Device (l_key l)) (lk_Lane (l_key l)) pending st h in
  if pending =? 0 then entry "" None
  else match l_held l with
  | Some h => entry DeviceHeld (Some (heldStatus h))
  | None =>
    if match l_stall l with Some st => st_waitsForHandoff st | None => false end then entry DeviceWaitingHandoff None
    else if negb (bool_decide (l_lastError l = "")) then entry DeviceBackingOff None
    else entry "" None
  end.

(** What the loop over the lanes accumulates. *)
Record acc := MkAcc {
  ac_listed : Z; ac_heldAll : bool; ac_failureAt : Z; ac_error : string; ac_held : option HeldStatus;
  ac_devices : list DeviceDeliveryStatus }.

Definition statusStep (counts : gmap LaneKey Z) (a : acc) (l : deliveryLane) : acc :=
  let entry := laneEntry counts l in
  let newer := negb (bool_decide (l_lastError l = "")) && (ac_failureAt a <? l_lastFailureAt l) in
  let at_ := if newer then l_lastFailureAt l else ac_failureAt a in
  let err := if newer then l_lastError l else ac_error a in
  if decide (ds_State entry = "") then MkAcc (ac_listed a) (ac_heldAll a) at_ err (ac_held a) (ac_devices a)
  else MkAcc (ac_listed a + ds_Pending entry) (ac_heldAll a && bool_decide (ds_State entry = DeviceHeld)) at_ err
         (match ac_held a with None => ds_Held entry | h => h end) (ac_devices a ++ [entry]).

Definition sortedLanes (lanes : gmap LaneKey laneRun) : list deliveryLane :=
  r_lane <$> omap (λ k, lanes !! k) (sortLaneKeys (elements (dom lanes))).

Definition DeliveryWorkerStatus (lanes : gmap LaneKey laneRun) (s : qst) : DeliveryStatus :=
  let '(total, counts) := laneCounts (sq s) in
  let a := foldl (statusStep counts) (MkAcc 0 true zeroTime "" None []) (sortedLanes lanes) in
  let faults := Faults.Active (sf s) in
  MkStatus total (negb (bool_decide (faults = [])) || negb (bool_decide (ac_devices a = [])))
    ((0 <? total) && (ac_listed a =? total) && ac_heldAll a) (ac_failureAt a) (ac_error a) (ac_held a) (ac_devices a) faults.

(** ** The listed lanes *)
Section Listed.
Implicit Types (counts : gmap LaneKey Z) (l : deliveryLane) (ls : list deliveryLane).

Definition entries_of counts ls : list DeviceDeliveryStatus :=
  filter (λ e, ds_State e ≠ "") (laneEntry counts <$> ls).

Lemma fold_status counts ls a :
  let a' := foldl (statusStep counts) a ls in
  ac_devices a' = ac_devices a ++ entries_of counts ls ∧
  ac_listed a' = ac_listed a + zsum ds_Pending (entries_of counts ls) ∧
  ac_heldAll a' = ac_heldAll a && forallb (λ e, bool_decide (ds_State e = DeviceHeld)) (entries_of counts ls).
Proof.
  revert a. induction ls as [|l ls IH]; intros a; cbn [foldl].
  { unfold entries_of. cbn. rewrite app_nil_r, andb_true_r. split_and!; [done|lia|done]. }
  destruct (IH (statusStep counts a l)) as (-> & -> & ->). unfold entries_of. rewrite fmap_cons, filter_cons.
  unfold statusStep. cbv zeta. destruct (decide (ds_State (laneEntry counts l) = "")) as [E|E].
  - rewrite decide_False by tauto. done.
  - rewrite decide_True by done. cbn -[zsum]. rewrite zsum_cons, <-app_assoc, andb_assoc. split_and!; [done|lia|done].
Qed.

Lemma entry_key counts l : MkLaneKey (ds_DeviceID (laneEntry counts l)) (ds_Lane (laneEntry counts l)) = l_key l.
Proof. unfold laneEntry. cbv zeta. repeat case_match; cbn; by destruct (l_key l). Qed.

Lemma entry_pending counts l : ds_Pending (laneEntry counts l) = default 0 (counts !! l_key l).
Proof. unfold laneEntry. cbv zeta. by repeat case_match. Qed.

(** Distinct keys cover a list exactly when their counts add up to its length. *)
Lemma ind_sum {K} `{Countable K} (o : option K) (ks : list K) :
  NoDup ks → zsum (λ k, if decide (o = Some k) then 1 else 0) ks = (if decide (o ∈ Some <$> ks) then 1 else 0).
Proof.
  intros Hnd. induction Hnd as [|k ks Hk Hnd IH]; [done|].
  rewrite zsum_cons, IH, fmap_cons. destruct (decide (o = Some k)) as [->|Hne].
  - rewrite (decide_False (P := Some k ∈ Some <$> ks)) by set_solver. rewrite decide_True by set_solver. done.
  - destruct (decide (o ∈ Some <$> ks)); [rewrite decide_True by set_solver|rewrite decide_False by set_solver]; done.
Qed.

Lemma cnt_covered {K} `{Countable K} (kf : string → option K) (l : list string) (ks : list K) :
  NoDup ks → zsum (λ k, cnt kf k l) ks = zsum (λ x, if decide (kf x ∈ Some <$> ks) then 1 else 0) l.
Proof.
  intros Hnd. induction l as [|x l IH]; [apply zsum_zero|].
  rewrite (zsum_ext _ (λ k, (if decide (kf x = Some k) then 1 else 0) + cnt kf k l)) by (intros; apply cnt_cons).
  rewrite zsum_plus, IH, zsum_cons. f_equal. by apply ind_sum.
Qed.

Lemma cnt_covered_le {K} `{Countable K} (kf : string → option K) (l : list string) (ks : list K) :
  zsum (λ x, if decide (kf x ∈ Some <$> ks) then 1 else 0) l ≤ Z.of_nat (length l).
Proof. rewrite <-zsum_const1. apply zsum_le. intros y _. case_decide; lia. Qed.

Lemma cnt_cover {K} `{Countable K} (kf : string → option K) (l : list string) (ks : list K) :
  NoDup ks → zsum (λ k, cnt kf k l) ks = Z.of_nat (length l) ↔ ∀ x, x ∈ l → kf x ∈ Some <$> ks.
Proof.
  intros Hnd. rewrite cnt_covered by done.
  induction l as [|x l IH]; [split; [set_solver|done]|]. rewrite zsum_cons. cbn [length].
  pose proof (cnt_covered_le kf l ks) as Hle. split.
  - intros E. case_decide as D; [|lia]. intros y [->|Hy]%elem_of_cons; [done|]. apply IH; [lia|done].
  - intros Hc. rewrite decide_True by (apply Hc; set_solver). rewrite (proj2 IH) by set_solver. lia.
Qed.

Lemma elem_sortedLanes lanes l : l ∈ sortedLanes lanes ↔ ∃ k f, lanes !! k = Some (MkRun l f).
Proof.
  unfold sortedLanes. rewrite list_elem_of_fmap. setoid_rewrite list_elem_of_omap. unfold sortLaneKeys.
  setoid_rewrite (merge_sort_Permutation laneKey_le). setoid_rewrite elem_of_elements. split.
  - intros ([l' f] & -> & k & _ & Hk). cbn. eauto.
  - intros (k & f & Hk). exists (MkRun l f). split; [done|]. exists k. split; [by eapply elem_of_dom_2|done].
Qed.

Lemma sortedLanes_keys lanes :
  map_Forall (λ k r, l_key (r_lane r) = k) lanes → l_key <$> sortedLanes lanes = sortLaneKeys (elements (dom lanes)).
Proof.
  intros Hk. unfold sortedLanes. assert (∀ ks : list LaneKey, (∀ k, k ∈ ks → k ∈ dom lanes) →
    l_key <$> (r_lane <$> omap (λ k, lanes !! k) ks) = ks) as G.
  { intros ks. induction ks as [|k ks IH]; [done|]. intros Hd. cbn.
    destruct (proj1 (elem_of_dom lanes k)) as [r Hr]; [apply Hd; set_solver|]. rewrite Hr. cbn.
    f_equal; [by apply (Hk k)|apply IH; set_solver]. }
  apply G. intros k. unfold sortLaneKeys. by rewrite (merge_sort_Permutation laneKey_le), elem_of_elements.
Qed.

Lemma sortedLanes_NoDup lanes :
  map_Forall (λ k r, l_key (r_lane r) = k) lanes → NoDup (l_key <$> sortedLanes lanes).
Proof.
  intros Hk. rewrite sortedLanes_keys by done. unfold sortLaneKeys.
  rewrite (merge_sort_Permutation laneKey_le). apply NoDup_elements.
Qed.
End Listed.

(** The lane an entry is about. *)
Definition ds_key (e : DeviceDeliveryStatus) : LaneKey := MkLaneKey (ds_DeviceID e) (ds_Lane e).

Lemma entries_keys counts ls : ds_key <$> entries_of counts ls `sublist_of` l_key <$> ls.
Proof.
  unfold entries_of. induction ls as [|l ls IH]; [done|]. rewrite !fmap_cons, filter_cons. case_decide.
  - rewrite fmap_cons. unfold ds_key at 1. rewrite entry_key. by apply sublist_skip.
  - by apply sublist_cons.
Qed.

Lemma entries_pending counts ls e :
  e ∈ entries_of counts ls → ds_Pending e = default 0 (counts !! ds_key e).
Proof.
  unfold entries_of. rewrite list_elem_of_filter, list_elem_of_fmap. intros (_ & l & -> & _).
  rewrite entry_pending. unfold ds_key. by rewrite entry_key.
Qed.

(** The status means what it documents. Blocked is reported exactly when
    something is pending, every pending artifact is in a listed lane, and every
    listed lane is held; Degraded exactly when a fault is active or a lane is
    listed; no two entries share a device and lane; and the listed lanes never
    count more than the total. *)
Theorem status_meaning lanes s :
  qinv (sq s) → map_Forall (λ k r, l_key (r_lane r) = k) lanes →
  let d := DeliveryWorkerStatus lanes s in
  (d_Blocked d = true ↔
     0 < d_Pending d ∧ (∀ id r, entries (sq s) !! id = Some r → recordLane r ∈ ds_key <$> d_Devices d) ∧
     ∀ e, e ∈ d_Devices d → ds_State e = DeviceHeld) ∧
  (d_Degraded d = true ↔ d_Faults d ≠ [] ∨ d_Devices d ≠ []) ∧
  NoDup (ds_key <$> d_Devices d) ∧ zsum ds_Pending (d_Devices d) ≤ d_Pending d.
Proof.
  intros Hq Hk d. unfold d, DeliveryWorkerStatus, laneCounts. clear d.
  pose proof (fold_status (laneItems (sq s)) (sortedLanes lanes) (MkAcc 0 true zeroTime "" None [])) as (Ed & El & Eh).
  set (a := foldl _ _ _) in *. cbn [d_Blocked d_Pending d_Devices d_Degraded d_Faults].
  cbn [ac_devices ac_listed ac_heldAll] in Ed, El, Eh. rewrite app_nil_l in Ed. rewrite andb_true_l in Eh. rewrite Z.add_0_l in El.
  set (es := entries_of _ _) in *.
  assert (NoDup (ds_key <$> es)) as Hnd by (eapply sublist_NoDup; [by apply sortedLanes_NoDup|apply entries_keys]).
  assert (zsum ds_Pending es = zsum (λ k, cnt (laneF (sq s)) k (order (sq s))) (ds_key <$> es)) as Esum.
  { assert (∀ e, e ∈ es → ds_Pending e = cnt (laneF (sq s)) (ds_key e) (order (sq s))) as Hp.
    { intros e He. rewrite (entries_pending _ _ _ He).
      by destruct (idx_ok_default _ _ _ _ _ (ds_key e) (qi_lanes _ Hq)) as [-> _]. }
    clearbody es. clear -Hp. induction es as [|e es IH]; [done|]. rewrite fmap_cons, !zsum_cons.
    rewrite IH by set_solver. f_equal. apply Hp. set_solver. }
  assert (Z.of_nat (size (entries (sq s))) = Z.of_nat (length (order (sq s)))) as Etot.
  { by apply QueueShares.size_order. }
  rewrite Ed, El, Eh, Esum, Etot. split_and!; [|rewrite orb_true_iff, !negb_true_iff, !bool_decide_eq_false; done|done|].
  - rewrite !andb_true_iff, Z.ltb_lt, Z.eqb_eq, (cnt_cover _ _ _ Hnd), forallb_forall.
    setoid_rewrite bool_decide_eq_true. setoid_rewrite <-list_elem_of_In.
    assert ((∀ x, x ∈ order (sq s) → laneF (sq s) x ∈ Some <$> (ds_key <$> es)) ↔
      ∀ id r, entries (sq s) !! id = Some r → recordLane r ∈ ds_key <$> es) as ->; [|tauto].
    split.
    + intros Hc id r Hr. specialize (Hc id). unfold laneF in Hc. rewrite (qi_lane _ Hq), Hr in Hc. cbn in Hc.
      apply list_elem_of_fmap in Hc as (k & [= ->] & ?); [done|]. apply (qi_order _ Hq). eauto.
    + intros Hc x [r Hr]%(qi_order _ Hq). unfold laneF. rewrite (qi_lane _ Hq), Hr. cbn.
      apply list_elem_of_fmap. exists (recordLane r). split; [done|by eapply Hc].
  - rewrite cnt_covered by done. apply cnt_covered_le.
Qed.

(** One lane backing off, one delivering cleanly. *)
Definition exLanes : gmap LaneKey laneRun :=
  {[ MkLaneKey "a" LaneEvidence :=
       MkRun (setFailure 5 "channel_unavailable" (newLane (MkLaneKey "a" LaneEvidence))) None ]}.

Lemma status_meaning_witness :
  d_Blocked (DeliveryWorkerStatus exLanes ex2) = false ∧ d_Degraded (DeliveryWorkerStatus exLanes ex2) = true ∧
  ds_key <$> d_Devices (DeliveryWorkerStatus exLanes ex2) = [MkLaneKey "a" LaneEvidence] ∧
  NoDup (ds_key <$> d_Devices (DeliveryWorkerStatus exLanes ex2)).
Proof.
  assert (map_Forall (λ k r, l_key (r_lane r) = k) exLanes) as Hk by (apply map_Forall_singleton; reflexivity).
  destruct (status_meaning exLanes ex2 (proj1 ex2_life) Hk) as (_ & _ & Hn & _).
  split; [vm_compute; reflexivity|]. split; [vm_compute; reflexivity|]. split; [vm_compute; reflexivity|exact Hn].
Defined.
End Status.
