(* ===== verification/WorkerSpec.v ===== *)
(** * What the delivery worker promises

    Holds, order, retirement and back-off of the running worker, from its
    construction on. *)
From S2P Require Import Prelude GoBytes Sha256 Json Routing Refusal Faults Store Queue Codec QueueInv QueueOps QueueDir Probe Load QueueLife QueueSpec Custody Courier Worker WorkerSys.
Import Routing Store Queue Codec QueueInv QueueOps QueueDir Probe Load QueueLife QueueSpec Courier Worker WorkerSys.

Module WorkerSpec.

(** ** A new worker *)
Section New.
Context {K : Type} `{AuthoritySink K}.

Lemma adopted_ok key l s :
  qinv (sq s) → lane_ok key s (MkRun l None) →
  lane_ok key s (MkRun (adoptedHead l s).2 None) ∧ l_key (adoptedHead l s).2 = key.
Proof.
  intros Hq Hl. pose proof (lo_key _ _ _ Hl) as Hk. cbn in Hk. unfold adoptedHead, head. rewrite Hk.
  destruct (PeekLane key (sq s)) as [q|] eqn:Ep; [|done]. cbn [snd].
  unfold adoptDurableHold. destruct (decide (_ <$> l_held l = Some (qa_ID q))) as [E|E]; [done|].
  destruct (HoldFor (qa_ID q) (sq s)) as [rec|] eqn:Eh; [|done]. split; [|done].
  split; cbn; [done|done|]. intros h [= <-]. cbn. split; [done|]. exists q. split; [done|].
  by apply (qi_holds _ Hq) in Eh as [? _].
Qed.

Lemma restore_ok o wall mono now key l s l' s' :
  qinv (sq s) → lane_ok key s (MkRun l None) → restore o wall mono now l s = (l', s') →
  lane_ok key s' (MkRun l' None) ∧ qframe s s'.
Proof.
  intros Hq Hl. unfold restore. pose proof (adopted_ok key l s Hq Hl) as [Ha _].
  destruct (adoptedHead l s) as [[h|] l1]; cbn [snd] in Ha; [|by intros [= <- <-]].
  destruct (BackoffFor _ _) as [rec|]; [|by intros [= <- <-]]. cbv zeta.
  match goal with |- (?x, ?z) = _ → _ => set (l2 := x); set (s2 := z) end. intros [= <- <-].
  assert (qframe s s2) as Q by (unfold s2; destruct (_ <? _); [by apply persistClamp_frame|reflexivity]).
  split; [|done]. eapply lane_ok_heads; [intros x; by apply (qframe_heads s)|]. destruct Ha. by split.
Qed.

Lemma restoreLanes_ok o wall mono now keys lanes s lanes' s' :
  qinv (sq s) → map_Forall (λ k r, lane_ok k s r ∧ r_flight r = None) lanes →
  restoreLanes o wall mono now keys lanes s = (lanes', s') →
  qinv (sq s') ∧ map_Forall (λ k r, lane_ok k s' r) lanes'.
Proof.
  revert lanes s. induction keys as [|key keys IH]; intros lanes s Hq Hls; cbn [restoreLanes].
  { intros [= <- <-]. split; [done|]. intros k r Hr. by apply Hls. }
  destruct (restore o wall mono now (r_lane (laneAt lanes key)) s) as [l s1] eqn:E.
  assert (lane_ok key s (MkRun (r_lane (laneAt lanes key)) None)) as Hl.
  { unfold laneAt. destruct (lanes !! key) as [[l0 f]|] eqn:El; [|by split]. destruct (Hls _ _ El) as [Hok Hf]. cbn in *. by subst f. }
  apply (restore_ok _ _ _ _ key) in E as [Hl1 Q]; [|done..]. apply IH; [by apply Q|].
  apply map_Forall_insert_2; [done|]. intros k r Hr. destruct (Hls _ _ Hr) as [Hok Hf]. split; [|done].
  eapply lane_ok_heads; [|exact Hok]. intros x. by apply qframe_heads.
Qed.

Lemma NewDeliveryWorker_ok o wall mono now s (k : K) :
  qinv (sq s) → winv (NewDeliveryWorker o wall mono now s k).
Proof.
  intros Hq. unfold NewDeliveryWorker. destruct (restoreLanes _ _ _ _ _ _ _) as [lanes s'] eqn:E.
  apply restoreLanes_ok in E as [? ?]; [by split|done|apply map_Forall_empty].
Qed.
End New.

(** ** A sink in memory, and a worker over the example queue *)
#[global] Instance list_sink : AuthoritySink (list AuthorityArtifact).
Proof.
  refine {| Store := λ a k, (Ok tt, a :: k); staged := λ k a, a ∈ k |}.
  - intros a k u k' [= _ <-]. set_solver.
  - intros a k r k' b [= _ <-]. set_solver.
Defined.

Definition exWOpts : workerOptions := normalise (MkWOpts (5 * Second) (10 * Second) (60 * Second) 0).
Definition exKey : LaneKey := MkLaneKey "a" LaneEvidence.
Definition exY0 : sys (list AuthorityArtifact) := NewDeliveryWorker exWOpts (2000000 * Second) 0 (2000000 * Second) ex2 [].
Definition exT (n : Z) : readings := MkReadings (2000000 * Second + n) (2000000 * Second + n) n (2000000 * Second + n) n.
Definition exLane {K} (y : sys K) : deliveryLane := r_lane (laneAt (y_lanes y) exKey).

(** The lane's timer fires, and its head is refused for good. *)
Definition exY1 : sys (list AuthorityArtifact) :=
  let '(act, l1, s1) := onTimer exWOpts (t_wall (exT 1)) (t_mono (exT 1)) (t_now (exT 1)) (exLane exY0) (y_q exY0) in
  match act with
  | None => attempt exWOpts (exT 1) exKey l1 s1 exY0
  | Some _ => MkSys (<[exKey := MkRun l1 None]> (y_lanes exY0)) s1 (y_k exY0) (y_sent exY0) (t_mono2 (exT 1))
  end.
Definition exHead : QueuedArtifact := MkQueued exIdA ArtifactDeliveryEnvelope exA 1000.
Definition exRefusal : outcome := Answered (MkResult false false 0 false 422 "binding_mismatch" []).
Definition exY2 : sys (list AuthorityArtifact) := answer exWOpts true (exT 2) exKey exHead exRefusal (exLane exY1) exY1.

Lemma exY0_winv : winv exY0.
Proof. apply NewDeliveryWorker_ok. exact (proj1 ex2_life). Qed.

Lemma exY1_step : wstep exWOpts true exY0 exY1.
Proof. unfold exY1. apply (w_timer exWOpts true (exT 1) exKey (exLane exY0) exY0); [vm_compute; reflexivity|by vm_compute]. Qed.

Lemma exY2_step : wstep exWOpts true exY1 exY2.
Proof. unfold exY2. apply (w_answer exWOpts true (exT 2) exKey (exLane exY1) exHead exRefusal exY1); [vm_compute; reflexivity|by vm_compute]. Qed.

Lemma exY2_winv : winv exY2.
Proof.
  apply (wsteps_winv exWOpts true exY0); [|exact exY0_winv].
  eapply rtc_l; [exact exY1_step|]. eapply rtc_l; [exact exY2_step|]. apply rtc_refl.
Qed.

Example exY1_sent : y_sent exY1 = [(exKey, exIdA)].
Proof. vm_compute. reflexivity. Qed.

(** ** Holds *)

(** C3: A held head is never sent again and nothing overtakes it: once a lane
    holds its head, then whatever handoffs, timers, admissions and answers of
    other lanes follow, the lane stays held on that record and offers nothing
    at all to the channel. *)
Theorem held_never_resent {K} `{AuthoritySink K} o hasSink (y y' : sys K) key l h :
  winv y → y_lanes y !! key = Some (MkRun l None) → l_held l = Some h → rtc (wstep o hasSink) y y' →
  (∃ l', y_lanes y' !! key = Some (MkRun l' None) ∧ l_held l' = Some h) ∧
  ∃ new, y_sent y' = new ++ y_sent y ∧ ∀ id, (key, id) ∉ new.
Proof.
  intros Hw Hl Hh Hr. revert l Hw Hl Hh. induction Hr as [y|y y1 y2 Hs Hr IH]; intros l Hw Hl Hh.
  { split; [eauto|]. exists []. split; [done|]. intros id. apply not_elem_of_nil. }
  destruct (wstep_effect _ _ _ _ Hs Hw) as [Hw1 Eh _ Es _]. destruct (Eh _ _ _ Hl Hh) as (l1 & Hl1 & Hh1).
  destruct (IH _ Hw1 Hl1 Hh1) as (Hend & new & En & Hnew). split; [done|].
  destruct Es as [Es|(k' & l' & q & mono & Hl' & Es & _ & Hn & _)]; [exists new; by rewrite En, Es|].
  exists (new ++ [(k', qa_ID q)]). split; [by rewrite En, Es, <-app_assoc|].
  intros id [?|E%list_elem_of_singleton]%elem_of_app; [by eapply Hnew|]. injection E as <- _. rewrite Hl in Hl'. congruence.
Qed.

Definition exY3 : sys (list AuthorityArtifact) :=
  MkSys (NotifyDevice "a" (y_lanes exY2)) (y_q exY2) (y_k exY2) (y_sent exY2) (y_mono exY2).

Lemma held_never_resent_witness :
  ∃ new, y_sent exY3 = new ++ y_sent exY2 ∧ ∀ id, (exKey, id) ∉ new.
Proof.
  assert (is_Some (l_held (exLane exY2))) as [h Hh] by (vm_compute; eauto).
  refine (proj2 (held_never_resent exWOpts true exY2 exY3 exKey (exLane exY2) h _ _ _ _)).
  - exact exY2_winv.
  - vm_compute. reflexivity.
  - exact Hh.
  - apply rtc_once. unfold exY3. apply w_notify.
Defined.

(** ** Order and retirement *)

(** C4: A lane offers its artifacts strictly in the order they were admitted:
    whatever is sent is, when it is sent, the oldest artifact of its lane, and
    its lane is not held and has nothing else in flight. *)
Theorem offered_in_order {K} `{AuthoritySink K} o hasSink (y y' : sys K) key id :
  winv y → wstep o hasSink y y' → y_sent y' = (key, id) :: y_sent y →
  ∃ l r, y_lanes y !! key = Some (MkRun l None) ∧ l_held l = None ∧ qr_ID r = id ∧
    is_head key (entries (sq (y_q y))) r.
Proof.
  intros Hw Hs E. destruct (wstep_effect _ _ _ _ Hs Hw) as [_ _ _ Es _].
  destruct Es as [Es|(k & l & q & mono & Hl & Es & Hp & Hn & _)].
  { rewrite E in Es. apply (f_equal length) in Es. cbn in Es. lia. }
  rewrite E in Es. injection Es as <- ->. apply (PeekLane_head _ _ _ (proj1 Hw)) in Hp as (r & Hr & ->).
  exists l, r. by split_and!.
Qed.

Lemma offered_in_order_witness :
  ∃ l r, y_lanes exY0 !! exKey = Some (MkRun l None) ∧ l_held l = None ∧ qr_ID r = exIdA ∧
    is_head exKey (entries (sq (y_q exY0))) r.
Proof.
  apply (offered_in_order exWOpts true exY0 exY1 exKey exIdA).
  - exact exY0_winv.
  - exact exY1_step.
  - rewrite exY1_sent. vm_compute. reflexivity.
Defined.


Definition exReceipt : AuthorityArtifact :=
  MkAuthority AuthorityDeliveryReceipt "" (dq "{'device_id':'a','from_seq':1,'to_seq':4}").
Definition exAccept : outcome := Answered (MkResult true false 0 false 0 "" [exReceipt]).
Definition exYD : sys (list AuthorityArtifact) := answer exWOpts true (exT 2) exKey exHead exAccept (exLane exY1) exY1.

Lemma exYD_step : wstep exWOpts true exY1 exYD.
Proof. unfold exYD. apply (w_answer exWOpts true (exT 2) exKey (exLane exY1) exHead exAccept exY1); [vm_compute; reflexivity|by vm_compute]. Qed.

Lemma exY1_winv : winv exY1.
Proof. apply (wsteps_winv exWOpts true exY0); [apply rtc_once; exact exY1_step|exact exY0_winv]. Qed.


(** ** Back-off *)
Section Backoff.
Implicit Types (o : workerOptions).

(** Options as [NewDeliveryWorker] normalises them, small enough not to
    overflow a duration. *)
Record opts_ok o : Prop := {
  oo_retry : 0 < wo_retry o;
  oo_base : wo_retry o ≤ wo_backoffBase o;
  oo_max : wo_backoffBase o ≤ wo_maxBackoff o ≤ 2 ^ 61 }.

Lemma normalise_ok o : wo_retry o ≤ 2 ^ 61 → wo_backoffBase o ≤ 2 ^ 61 → wo_maxBackoff o ≤ 2 ^ 61 → opts_ok (normalise o).
Proof.
  intros H1 H2 H3. unfold normalise. cbv zeta.
  assert (0 < defaultDeliveryRetry ≤ 2 ^ 61 ∧ defaultMaxBackoff ≤ 2 ^ 61) as [? ?] by done.
  destruct (Z.leb_spec (wo_retry o) 0), (Z.leb_spec (wo_maxBackoff o) 0); split; cbn; lia.
Qed.

Lemma doubling_min n d b :
  0 < d → b ≤ 2 ^ 62 → Z.min (doubling n d b) b = Z.min (d * 2 ^ Z.of_nat n) b ∧ 0 < doubling n d b.
Proof.
  intros Hd Hb. revert d Hd. induction n as [|n IH]; intros d Hd; cbn [doubling].
  { rewrite Z.mul_1_r. done. }
  assert (0 < 2 ^ Z.of_nat n) by (apply Z.pow_pos_nonneg; lia).
  rewrite Nat2Z.inj_succ, Z.pow_succ_r by lia. destruct (Z.ltb_spec d b).
  - rewrite wrap64_id by (unfold in_i64, i64_min, i64_max; lia).
    destruct (IH (d * 2) ltac:(lia)) as [-> ?]. split; [f_equal; lia|done].
  - split; [|done]. rewrite !Z.min_r; nia.
Qed.

Lemma backoffDelay_formula o attempts floor :
  opts_ok o → 1 ≤ attempts →
  backoffDelay o attempts floor =
    Z.max (Z.min (wo_backoffBase o * 2 ^ (attempts - 1)) (wo_maxBackoff o)) floor ∧
  Z.max (wo_retry o) floor ≤ backoffDelay o attempts floor ≤ Z.max (wo_maxBackoff o) floor.
Proof.
  intros [Hr Hb Hm] Ha. unfold backoffDelay. cbv zeta.
  destruct (doubling_min (Z.to_nat (attempts - 1)) (wo_backoffBase o) (wo_maxBackoff o)) as [E P]; [lia|lia|].
  rewrite Z2Nat.id in E by lia. assert (0 < 2 ^ (attempts - 1)) by (apply Z.pow_pos_nonneg; lia).
  destruct (Z.ltb_spec (wo_maxBackoff o) (doubling (Z.to_nat (attempts - 1)) (wo_backoffBase o) (wo_maxBackoff o))); nia.
Qed.

Lemma backoffDelay_floor o attempts floor :
  opts_ok o → Z.max (wo_retry o) floor ≤ backoffDelay o attempts floor ≤ Z.max (wo_maxBackoff o) floor.
Proof.
  intros Ho. destruct (decide (1 ≤ attempts)) as [?|?]; [by apply backoffDelay_formula|].
  unfold backoffDelay. cbv zeta. replace (Z.to_nat (attempts - 1)) with O by lia. cbn [doubling]. destruct Ho.
  destruct (Z.ltb_spec (wo_maxBackoff o) (wo_backoffBase o)); lia.
Qed.

Lemma ceilMilli_bounds t : t ≤ ceilMilli t < t + Millisecond ∧ ceilMilli t = fromMilli (UnixMilli (ceilMilli t)).
Proof.
  unfold ceilMilli, fromMilli, UnixMilli, Millisecond.
  pose proof (Z.div_mod t 1000000 ltac:(lia)). pose proof (Z.mod_pos_bound t 1000000 ltac:(lia)).
  destruct (Z.ltb_spec (t / 1000000 * 1000000) t).
  - split; [lia|]. replace (t / 1000000 * 1000000 + 1000000) with ((t / 1000000 + 1) * 1000000) by lia. by rewrite Z.div_mul.
  - split; [lia|]. by rewrite Z.div_mul.
Qed.
End Backoff.

(** The delay of the n-th consecutive back-off is exactly the base doubled
    n-1 times, capped at the maximum back-off, and raised to a Retry-After the
    authority gave; it is never below the delivery interval, and no count of
    attempts overflows it. *)
Theorem backoff_delay_exact o0 attempts floor :
  wo_retry o0 ≤ 2 ^ 61 → wo_backoffBase o0 ≤ 2 ^ 61 → wo_maxBackoff o0 ≤ 2 ^ 61 → 1 ≤ attempts →
  let o := normalise o0 in
  backoffDelay o attempts floor = Z.max (Z.min (wo_backoffBase o * 2 ^ (attempts - 1)) (wo_maxBackoff o)) floor ∧
  Z.max (wo_retry o) floor ≤ backoffDelay o attempts floor ≤ Z.max (wo_maxBackoff o) floor.
Proof. intros H1 H2 H3 Ha o. apply backoffDelay_formula; [by apply normalise_ok|done]. Qed.

Lemma backoff_delay_exact_witness :
  backoffDelay exWOpts 3 0 = 40 * Second ∧ backoffDelay exWOpts 70000 0 = 60 * Second ∧
  Z.max (wo_retry exWOpts) 0 ≤ backoffDelay exWOpts 3 0 ≤ Z.max (wo_maxBackoff exWOpts) 0.
Proof.
  split; [reflexivity|]. split; [vm_compute; reflexivity|].
  apply (backoff_delay_exact (MkWOpts (5 * Second) (10 * Second) (60 * Second) 0) 3 0); vm_compute; discriminate.
Defined.

(** A wall clock that moved backwards cannot stretch a back-off past its
    bound: however far away the stored deadline is, the remaining wait is at
    most the longest wait any back-off may have, rounded up to a millisecond,
    or what the monotonic deadline still asks; and the clamped deadline is the
    one then in force. *)
Theorem wait_is_bounded o wall mono l s :
  opts_ok o → 0 ≤ bo_retryAfter (l_bo l) ≤ 2 ^ 61 →
  let '(w, l', s') := untilDue o wall mono l s in
  let bound := waitBound o (bo_retryAfter (l_bo l)) in
  w ≤ Z.max (bound + Millisecond) (wrap64 (bo_monoDue (l_bo l) - mono)) ∧
  bo_notBefore (l_bo l') ≤ wall + bound + Millisecond ∧ bo_monoDue (l_bo l') = bo_monoDue (l_bo l).
Proof.
  intros Ho Hr. unfold untilDue. cbv zeta. set (bound := waitBound o (bo_retryAfter (l_bo l))).
  assert (0 < bound ≤ 2 ^ 61) as Hbd by (unfold bound, waitBound; destruct Ho; lia).
  destruct (Z.ltb_spec bound (timeSub (bo_notBefore (l_bo l)) wall)) as [Hlt|Hge]; cbn.
  - pose proof (ceilMilli_bounds (wall + bound)) as [Hc _]. unfold timeSub, i64_min, i64_max, Millisecond in *. lia.
  - unfold timeSub, i64_min, i64_max, Millisecond in *. lia.
Qed.

Lemma wait_is_bounded_witness :
  let l := setBO (MkBO (10 ^ 9 * Second) 0 1 0 "x") (newLane exKey) in
  let '(w, l', s') := untilDue exWOpts (5 * Second) 0 l ex2 in
  w ≤ 60 * Second + Millisecond ∧ bo_notBefore (l_bo l') = 65 * Second.
Proof.
  intros l. pose proof (wait_is_bounded exWOpts (5 * Second) 0 l ex2) as H.
  assert (opts_ok exWOpts) as Ho by (apply normalise_ok; vm_compute; discriminate).
  assert (0 ≤ bo_retryAfter (l_bo l) ≤ 2 ^ 61) as Hr by (vm_compute; split; discriminate).
  specialize (H Ho Hr). assert (bo_notBefore (l_bo (untilDue exWOpts (5 * Second) 0 l ex2).1.2) = 65 * Second) as E
    by (vm_compute; reflexivity).
  destruct (untilDue exWOpts (5 * Second) 0 l ex2) as [[w l'] s']. cbn [fst snd] in E. split; [|exact E].
  destruct H as [H _]. etransitivity; [exact H|]. vm_compute. discriminate.
Defined.

(** The answers after which the lane backs off, with the Retry-After given. *)
Definition backs_off (out : outcome) (retryAfter : Z) : Prop :=
  (∃ b, out = Unanswered b ∧ retryAfter = 0) ∨
  (∃ r, out = Answered r ∧ dr_Accepted r = false ∧ dr_Retriable r = true ∧ retryAfter = dr_RetryAfter r).

(** Steps during which the lane sends nothing. *)
Definition quiet {K} `{AuthoritySink K} o hasSink (key : LaneKey) (y y' : sys K) : Prop :=
  wstep o hasSink y y' ∧ ¬ ∃ id, y_sent y' = (key, id) :: y_sent y.

Lemma quiet_due {K} `{AuthoritySink K} o hasSink key (y y' : sys K) l :
  rtc (quiet o hasSink key) y y' → winv y → y_lanes y !! key = Some (MkRun l None) →
  winv y' ∧ y_mono y ≤ y_mono y' ∧ ∃ l', y_lanes y' !! key = Some (MkRun l' None) ∧ bo_monoDue (l_bo l') = bo_monoDue (l_bo l).
Proof.
  intros Hr. revert l. induction Hr as [y|y y1 y2 [Hs Hq] Hr IH]; intros l Hw Hl; [by eauto using Z.le_refl|].
  destruct (wstep_effect _ _ _ _ Hs Hw) as [Hw1 _ Ed _ _]. destruct (Ed _ _ Hl) as [?|(l1 & Hl1 & E1)]; [done|].
  destruct (IH _ Hw1 Hl1) as (Hw2 & Hm & l2 & Hl2 & E2). split; [done|]. split; [|exists l2; split; [done|congruence]].
  etransitivity; [|exact Hm]. clear -Hs. destruct Hs; cbn [y_mono]; try lia.
  - destruct (onWake _ _ _ _ _) as [[[] ?] ?]; cbn; [|lia]. unfold attempt.
    destruct (beginAttempt _ _) as [[? ?]|[? ?]]; [destruct (afterAttempt _ _ _ _ _ _ _ _ _) as [[? ?] ?]|]; cbn; lia.
  - destruct (onTimer _ _ _ _ _ _) as [[[] ?] ?]; cbn; [lia|]. unfold attempt.
    destruct (beginAttempt _ _) as [[? ?]|[? ?]]; [destruct (afterAttempt _ _ _ _ _ _ _ _ _) as [[? ?] ?]|]; cbn; lia.
  - unfold answer. destruct (finishAttempt _ _ _ _ _ _ _) as [[[? ?] ?] ?]. destruct (afterAttempt _ _ _ _ _ _ _ _ _) as [[? ?] ?]. cbn. lia.
Qed.

(** The deadline an answer that backs off leaves behind. *)
Lemma answer_due {K} `{AuthoritySink K} o hasSink t key q out l (y : sys K) ra :
  winv y → y_lanes y !! key = Some (MkRun l (Some q)) → y_mono y ≤ t_mono t ≤ t_mono2 t → backs_off out ra →
  let y' := answer o hasSink t key q out l y in
  winv y' ∧ y_mono y' = t_mono2 t ∧
  ∃ l' attempts, y_lanes y' !! key = Some (MkRun l' None) ∧ bo_monoDue (l_bo l') = wrap64 (t_mono t + backoffDelay o attempts ra).
Proof.
  intros Hw Hl Ht Hb y'. pose proof (ef_inv _ _ (effect_answer o hasSink t key l q out y Hw Hl Ht)) as Hw'.
  split; [exact Hw'|]. pose proof Hw as [Hq Hls]. unfold y', answer.
  destruct (finishAttempt hasSink q out (t_now t) l (y_q y) (y_k y)) as [[[d l1] s1] k1] eqn:Ef.
  pose proof Ef as Ef'. apply (finishAttempt_spec hasSink key) in Ef' as (Hq1 & _); [|done|by apply Hls].
  assert (∃ err, d = Failed err ∧ err ∉ [errHeadHeld; errChannelPermanentRefusal; errChannelReceiverState] ∧
    ra = match err with errChannelRefused ra => ra | _ => 0 end) as (err & -> & Hne & ->).
  { destruct Hb as [(b & -> & ->)|(r & -> & Ha & Hre & ->)]; cbn in Ef.
    - destruct b; injection Ef as <- _ _ _; eexists; (split; [done|]); (split; [set_solver|done]).
    - rewrite Ha, Hre in Ef. cbn in Ef. injection Ef as <- _ _ _. eexists. split; [done|]. split; [set_solver|done]. }
  destruct (afterAttempt _ _ _ _ _ _ _ _ _) as [[act l2] s2] eqn:Ea.
  apply afterAttempt_spec in Ea as (_ & _ & _ & Hd); [|done]. destruct (Hd err eq_refl Hne) as [attempts E]. cbn.
  split; [done|]. exists l2, attempts. rewrite lookup_insert_eq. done.
Qed.

(** C5: A back-off is never brought forward: after an answer that backs off,
    whatever handoffs arrive and however the wall clock moves, the lane's next
    offer comes no earlier on the monotonic clock than the delivery interval,
    and than the Retry-After the authority asked for, from that answer. *)
Theorem backoff_never_brought_forward {K} `{AuthoritySink K} o hasSink t key q out l ra (y y2 y3 : sys K) id :
  opts_ok o → winv y → y_lanes y !! key = Some (MkRun l (Some q)) → backs_off out ra →
  0 ≤ y_mono y ≤ t_mono t → t_mono t ≤ t_mono2 t → ra ≤ 2 ^ 61 → y_mono y3 ≤ 2 ^ 61 →
  rtc (quiet o hasSink key) (answer o hasSink t key q out l y) y2 →
  wstep o hasSink y2 y3 → y_sent y3 = (key, id) :: y_sent y2 →
  t_mono t + Z.max (wo_retry o) ra ≤ y_mono y3.
Proof.
  intros Ho Hw Hl Hb Ht Ht2 Hra Hm3 Hq Hs Hsent.
  destruct (answer_due o hasSink t key q out l y ra Hw Hl ltac:(lia) Hb) as (Hw1 & Hm1 & l1 & attempts & Hl1 & Hdue).
  destruct (quiet_due o hasSink key _ _ _ Hq Hw1 Hl1) as (Hw2 & Hm2 & l2 & Hl2 & Hdue2).
  destruct (wstep_effect _ _ _ _ Hs Hw2) as [_ _ _ [Es|(k & l' & q' & mono & Hl' & Es & _ & _ & Hmono & Hgo)] _].
  { rewrite Hsent in Es. apply (f_equal length) in Es. cbn in Es. lia. }
  rewrite Hsent in Es. injection Es as <- _. replace l' with l2 in * by congruence.
  pose proof (backoffDelay_floor o attempts ra Ho) as [Hlo Hhi]. destruct Ho.
  rewrite Hdue2, Hdue in Hgo. rewrite (wrap64_id (t_mono t + _)) in Hgo by (unfold in_i64, i64_min, i64_max; lia).
  rewrite wrap64_id in Hgo by (unfold in_i64, i64_min, i64_max; lia). lia.
Qed.

Definition exYB : sys (list AuthorityArtifact) := answer exWOpts true (exT 2) exKey exHead (Unanswered false) (exLane exY1) exY1.
Definition exYC : sys (list AuthorityArtifact) :=
  let t := exT (11 * Second) in
  let '(act, l1, s1) := onTimer exWOpts (t_wall t) (t_mono t) (t_now t) (exLane exYB) (y_q exYB) in
  match act with
  | None => attempt exWOpts t exKey l1 s1 exYB
  | Some _ => MkSys (<[exKey := MkRun l1 None]> (y_lanes exYB)) s1 (y_k exYB) (y_sent exYB) (t_mono2 t)
  end.

Lemma exYC_step : wstep exWOpts true exYB exYC.
Proof. unfold exYC. apply (w_timer exWOpts true (exT (11 * Second)) exKey (exLane exYB) exYB); [vm_compute; reflexivity|by vm_compute]. Qed.

Lemma backoff_never_brought_forward_witness : t_mono (exT 2) + Z.max (wo_retry exWOpts) 0 ≤ y_mono exYC.
Proof.
  apply (backoff_never_brought_forward exWOpts true (exT 2) exKey exHead (Unanswered false) (exLane exY1) 0 exY1 exYB exYC exIdA).
  - apply normalise_ok; vm_compute; discriminate.
  - exact exY1_winv.
  - vm_compute. reflexivity.
  - left. exists false. split; reflexivity.
  - vm_compute. split; discriminate.
  - vm_compute. discriminate.
  - vm_compute. discriminate.
  - vm_compute. discriminate.
  - unfold exYB. apply rtc_refl.
  - exact exYC_step.
  - vm_compute. reflexivity.
Defined.
End WorkerSpec.
