(* ===== verification/Returns.v ===== *)
(** * The way back (return_queue.go, return_publisher.go)

    Authority artifacts and custody acknowledgements are staged in a second
    durable queue, published to the runtime one head at a time under a freshly
    signed envelope, and retired or held by the runtime's authenticated
    decision. *)
From S2P Require Import Prelude GoBytes Sha256 Json Routing Refusal Faults Store Queue Codec QueueInv QueueOps QueueDir Probe Load SigningClock Custody Courier Contracts Heap Replay MqttAuth Worker.
Import Routing Store Queue Load SigningClock Courier Contracts Replay MqttAuth Worker.

Module Returns.
Local Open Scope em_scope.

(** ** The sink *)

(** The return queue and what its clock reads. *)
Record sinkSt := MkSink { sk_q : qst; sk_nowMS : Z }.

(** The queue type an authority artifact is stored under. *)
Definition storedType (kind : string) : option string :=
  if decide (kind = AuthorityDeliveryReceipt) then Some artifactDeliveryReceipt
  else if decide (kind = AuthorityEpochConfirmation) then Some artifactEpochConfirmation
  else if decide (kind = InboundCustodyAcknowledgement) then Some artifactCustodyAcknowledgement
  else None.

(** [OpenDurableAuthoritySink]: a return queue holds no outbound artifact. *)
Definition OpenDurableAuthoritySink (o : QueueOptions) (n : QueueDir.node) (probeBody : string) (d : dirst) (f : Faults.Recorder)
    : res unit * option qst * dirst :=
  match openDurableQueue o n probeBody d f with
  | (Ok _, Some s, d') =>
    if forallb (λ id, match entries (sq s) !! id with
                      | Some r => bool_decide (qr_Type r ∈ [artifactDeliveryReceipt; artifactEpochConfirmation; artifactCustodyAcknowledgement])
                      | None => false end) (order (sq s))
    then (Ok tt, Some s, d')
    else (Err (EMsg "evidence: authority return queue contains an outbound artifact"), None, d')
  | r => r
  end.

(** [inboundMemberRefusal]: the artifact inside an envelope of the inbound
    topic's members, judged by the member rule. *)
Definition inboundProbe (artifact : AuthorityArtifact) : string :=
  dq "{'device_id':'','artifact_type':'" +:+ aa_Type artifact +:+ dq "','artifact':" +:+ aa_Payload artifact +:+
  dq ",'auth':{'scheme':'hmac-sha256','signed_at_ms':1,'signature':'hmac-sha256:'}}".

Section Sink.
(** The canonical JSON package: the strict decoder and the canonical form of
    wire bytes. *)
Context (DecodeStrict : list string → string → option strictError) (MarshalWire : string → option string).

Definition inboundMemberRefusal (artifact : AuthorityArtifact) : res unit :=
  AdmitPayload DecodeStrict FamilyEvidenceInbound (inboundProbe artifact).

(** [DurableAuthoritySink.Store]. *)
Definition SinkStore (artifact : AuthorityArtifact) : EM sinkSt unit := λ k,
  match storedType (aa_Type artifact) with
  | None => (Err (EMsg "evidence: unsupported authority artifact type"), k)
  | Some kind =>
    match routingDeviceID (aa_Payload artifact) with
    | None => (Err (EMsg "evidence: authority artifact routing mismatch"), k)
    | Some device =>
      if bool_decide (device = "") || negb (bool_decide (device = aa_DeviceID artifact)) then
        (Err (EMsg "evidence: authority artifact routing mismatch"), k)
      else match inboundMemberRefusal artifact with
      | Err e => (Err e, k)
      | Ok _ =>
        match MarshalWire (aa_Payload artifact) with
        | None => (Err (EMsg "evidence: authority artifact is not canonicalisable"), k)
        | Some canonical =>
          if MaxAuthorityArtifactBytes <? slen canonical then (Err errAuthorityArtifactOverMaximum, k)
          else
            let '(r, s') := enqueue (sk_nowMS k) kind (aa_Payload artifact) (sk_q k) in
            (match r with Ok _ => Ok tt | Err e => Err e end, MkSink s' (sk_nowMS k))
        end
      end
    end
  end.

(** An artifact is staged when the queue lists the entry it is stored as. *)
Definition staged_in (k : sinkSt) (a : AuthorityArtifact) : Prop :=
  match storedType (aa_Type a) with
  | Some kind => is_Some (entries (sq (sk_q k)) !! artifactID kind (aa_Payload a))
  | None => False
  end.
End Sink.

(** ** The publisher *)
Definition EvidenceInboundMessageType : string := "evidence_inbound".
Definition EvidenceInboundAckMessageType : string := "evidence_inbound_ack".

Record ReturnPublisher := MkPublisher {
  rp_heldID : string; rp_heldDevice : string; rp_stuckID : string;
  rp_lastID : string; rp_lastAt : Z; rp_wake : bool }.

Definition newPublisher : ReturnPublisher := MkPublisher "" "" "" "" zeroTime false.

Definition defaultReturnRetry : Z := 5 * Second.
Definition normaliseRetry (retry : Z) : Z := if retry <=? 0 then defaultReturnRetry else retry.

Definition Notify (p : ReturnPublisher) : ReturnPublisher :=
  MkPublisher (rp_heldID p) (rp_heldDevice p) (rp_stuckID p) (rp_lastID p) (rp_lastAt p) true.

Definition ReceiverStateChanged (deviceID : string) (p : ReturnPublisher) : ReturnPublisher :=
  Notify (if decide (rp_heldDevice p = deviceID)
          then MkPublisher "" "" (rp_stuckID p) (rp_lastID p) (rp_lastAt p) (rp_wake p) else p).

Definition markHeld (id device : string) (p : ReturnPublisher) : ReturnPublisher :=
  MkPublisher id device (rp_stuckID p) (rp_lastID p) (rp_lastAt p) (rp_wake p).
Definition markStuck (id : string) (p : ReturnPublisher) : ReturnPublisher :=
  MkPublisher (rp_heldID p) (rp_heldDevice p) id (rp_lastID p) (rp_lastAt p) (rp_wake p).
Definition markCarried (id : string) (at_ : Z) (p : ReturnPublisher) : ReturnPublisher :=
  MkPublisher (rp_heldID p) (rp_heldDevice p) (rp_stuckID p) id at_ (rp_wake p).

Definition authorityQueueRouting (queued : QueuedArtifact) : res (string * string) :=
  match routingDeviceID (qa_Payload queued) with
  | None => Err (EMsg "evidence: invalid queued authority artifact")
  | Some device =>
    if bool_decide (device = "") then Err (EMsg "evidence: invalid queued authority artifact")
    else if decide (qa_Type queued = artifactDeliveryReceipt) then Ok (device, AuthorityDeliveryReceipt)
    else if decide (qa_Type queued = artifactEpochConfirmation) then Ok (device, AuthorityEpochConfirmation)
    else if decide (qa_Type queued = artifactCustodyAcknowledgement) then Ok (device, InboundCustodyAcknowledgement)
    else Err (EMsg "evidence: invalid authority return queue type")
  end.

(** [json.Marshal] of a raw message compacts it and escapes what HTML would
    read: "<", ">", "&", U+2028 and U+2029. *)
Fixpoint htmlEscape (raw : string) : string :=
  match raw with
  | EmptyString => ""
  | String a r =>
    if (bv a =? 60) || (bv a =? 62) || (bv a =? 38) then u4 (bv a) +:+ htmlEscape r
    else if bv a =? 226 then
      match r with
      | String b (String c r') =>
        if (bv b =? 128) && (bv c =? 168) then "\u2028" +:+ htmlEscape r'
        else if (bv b =? 128) && (bv c =? 169) then "\u2029" +:+ htmlEscape r'
        else String a (htmlEscape r)
      | _ => String a (htmlEscape r)
      end
    else String a (htmlEscape r)
  end.

Fixpoint compact (j : json) : json :=
  match j with
  | JStr raw => JStr (htmlEscape raw)
  | JArr l => JArr (map compact l)
  | JObj l => JObj (map (λ p, (htmlEscape p.1, compact p.2)) l)
  | _ => j
  end.

Definition authMember (a : HeartbeatAuth) : json :=
  JObj [("scheme", jstr (ha_Scheme a)); ("signed_at_ms", jint (ha_SignedAtMS a)); ("signature", jstr (ha_Signature a))].

Definition inboundMembers (deviceID kind : string) (artifact : json) : list (string * json) :=
  [("device_id", jstr deviceID); ("artifact_type", jstr kind); ("artifact", compact artifact)].

(** [inboundAck] without its auth member, which only has to decode. *)
Record inboundAck := MkInboundAck {
  ia_DeviceID : string; ia_ArtifactType : string; ia_ArtifactDigest : string;
  ia_Outcome : string; ia_Reason : string; ia_AcknowledgedAtMS : Z }.

Definition inboundAckStrings : list string := ["device_id"; "artifact_type"; "artifact_digest"; "outcome"; "reason"].
Definition inboundAckNames : list string := inboundAckStrings ++ ["acknowledged_at_ms"; "auth"].

Definition setAuthField (n : string) (v : json) (r : HeartbeatAuth) : HeartbeatAuth * bool :=
  if decide (n = "scheme") then let '(s, ok) := setStr v (ha_Scheme r) in (MkAuth s (ha_SignedAtMS r) (ha_Signature r), ok)
  else if decide (n = "signed_at_ms") then let '(z, ok) := setInt v (ha_SignedAtMS r) in (MkAuth (ha_Scheme r) z (ha_Signature r), ok)
  else let '(s, ok) := setStr v (ha_Signature r) in (MkAuth (ha_Scheme r) (ha_SignedAtMS r) s, ok).

(** A strict decode of the auth member into its struct. *)
Definition authDecodes (v : json) : bool :=
  match v with
  | JNull => true
  | JObj l => (decodeMembers authMembers true setAuthField l (MkAuth "" 0 "") true).2
  | _ => false
  end.

Definition setInboundAck (n : string) (v : json) (r : inboundAck) : inboundAck * bool :=
  let '(MkInboundAck dev ty dg oc re at_) := r in
  if decide (n = "device_id") then let '(s, ok) := setStr v dev in (MkInboundAck s ty dg oc re at_, ok)
  else if decide (n = "artifact_type") then let '(s, ok) := setStr v ty in (MkInboundAck dev s dg oc re at_, ok)
  else if decide (n = "artifact_digest") then let '(s, ok) := setStr v dg in (MkInboundAck dev ty s oc re at_, ok)
  else if decide (n = "outcome") then let '(s, ok) := setStr v oc in (MkInboundAck dev ty dg s re at_, ok)
  else if decide (n = "reason") then let '(s, ok) := setStr v re in (MkInboundAck dev ty dg oc s at_, ok)
  else if decide (n = "acknowledged_at_ms") then let '(z, ok) := setInt v at_ in (MkInboundAck dev ty dg oc re z, ok)
  else (r, authDecodes v).

Definition decodeInboundAck (payload : string) : option inboundAck :=
  decodeStruct inboundAckNames true setInboundAck (MkInboundAck "" "" "" "" "" 0) payload.

(** Every string member is there, as a string, on the wire bytes. *)
Definition requireInboundAckTypes (payload : string) : bool :=
  match parse payload with
  | Some (JObj l) =>
    forallb (λ name, match toMap l !! name with Some (JStr _) => true | _ => false end) inboundAckStrings
  | _ => false
  end.

Definition inboundRefusalRetires (reason : string) : option bool :=
  if bool_decide (reason ∈ ["malformed"; "bad_authenticator"; "binding_mismatch"; "non_contiguous_range"; "superseded"; "restatement_conflict"])
  then Some true
  else if bool_decide (reason ∈ ["unrecognised_version"; "wrong_purpose"; "unknown_key"; "retired_key"; "unknown_sequence"])
  then Some false
  else None.

(** [inboundDecision]: whether it retires, and whether it was recognised. *)
Definition inboundDecision (outcome reason : string) : res (bool * bool) :=
  if decide (outcome = "applied") then
    if negb (bool_decide (reason = "")) then Err (EMsg "evidence: invalid inbound acknowledgement outcome") else Ok (true, true)
  else if decide (outcome = "refused") then
    Ok (match inboundRefusalRetires reason with Some retire => (retire, true) | None => (false, false) end)
  else Err (EMsg "evidence: invalid inbound acknowledgement outcome").

Section Publisher.
Context (ValidateWireUnicode : string → bool) (DecodeStrict : list string → string → option strictError).
Context (MarshalWire : string → option string) (Marshal : gmap string json → res string).

(** [encodeInbound]. *)
Definition encodeInbound (deviceID kind artifact : string) (signedAt : Z) (secret : string) : res string :=
  match parse artifact with
  | None => Err errQueuedArtifactNotCanonical
  | Some v =>
    let members := inboundMembers deviceID kind v in
    match Sign Marshal (toMap members) EvidenceInboundMessageType deviceID "" signedAt secret with
    | Err _ => Err errQueuedArtifactNotCanonical
    | Ok auth =>
      match MarshalWire (print (JObj (members ++ [("auth", authMember auth)]))) with
      | None => Err errQueuedArtifactNotCanonical
      | Some payload =>
        if default 0 (PayloadMaxima !! FamilyEvidenceInbound) <? slen payload then Err errInboundOverMaximum
        else match AdmitPayload DecodeStrict FamilyEvidenceInbound payload with
        | Err _ => Err errInboundRefusedByMemberRule
        | Ok _ => Ok payload
        end
      end
    end
  end.

(** [reportStuck]: the head it reports on, once. *)
Definition neverCarried (e : error) : bool :=
  bool_decide (e ∈ [errInboundRefusedByMemberRule; errInboundOverMaximum; errQueuedArtifactNotCanonical]).
Definition reportStuck (queued : QueuedArtifact) (e : error) (p : ReturnPublisher) : ReturnPublisher :=
  if neverCarried e then markStuck (qa_ID queued) p else p.

(** The publisher with what it works on: the return queue, whose directory
    also holds the signing clock. *)
Record returnSt := MkReturn { rt_p : ReturnPublisher; rt_q : qst; rt_clock : Clock }.

(** What the broker was asked to publish: topic and payload. *)
Definition message : Type := string * string.

(** [publishHead] at [now] (nanoseconds), the clock it signs by reading
    [nowMS]; [sendOK] is whether the broker takes the message. The result is
    the message sent, if one was. *)
Definition publishHead (secret : string) (retry now nowMS now' : Z) (sendOK : bool) (s : returnSt)
    : res (option message) * returnSt :=
  let p := rt_p s in
  match Peek (sq (rt_q s)) with
  | None => (Ok None, s)
  | Some queued =>
    if bool_decide (qa_ID queued = rp_heldID p) ||
       (bool_decide (qa_ID queued = rp_lastID p) && (timeSub now (rp_lastAt p) <? retry)) then (Ok None, s)
    else match authorityQueueRouting queued with
    | Err e => (Err e, s)
    | Ok (deviceID, kind) =>
      let '(signed, clock, d) := Next nowMS (rt_clock s) (sd (rt_q s)) in
      let q' := MkSt (sq (rt_q s)) d (sf (rt_q s)) in
      match signed with
      | Err e => (Err e, MkReturn p q' clock)
      | Ok signedAt =>
        match encodeInbound deviceID kind (qa_Payload queued) signedAt secret with
        | Err e => (Err e, MkReturn (reportStuck queued e p) q' clock)
        | Ok payload =>
          match EvidenceInboundTopic deviceID with
          | Err e => (Err e, MkReturn p q' clock)
          | Ok topic =>
            if sendOK then (Ok (Some (topic, payload)), MkReturn (markCarried (qa_ID queued) now' p) q' clock)
            else (Err (EMsg "publish failed"), MkReturn p q' clock)
          end
        end
      end
    end
  end.

Definition ack_error (msg : string) : bool * res unit := (false, Err (EMsg msg)).

(** [decideAck]: whether the acknowledgement decided the head. *)
Definition decideAck (deviceID payload : string) (s : returnSt) : bool * res unit * returnSt :=
  if negb (Routing.refuseAmbiguousMembers inboundAckNames payload) then (ack_error "evidence: malformed inbound acknowledgement", s)
  else if negb (requireInboundAckTypes payload) then (ack_error "evidence: malformed inbound acknowledgement", s)
  else match decodeInboundAck payload with
  | None => (ack_error "evidence: malformed inbound acknowledgement", s)
  | Some ack =>
    if negb (bool_decide (ia_DeviceID ack = deviceID)) || (ia_AcknowledgedAtMS ack <=? 0) then
      (ack_error "evidence: inbound acknowledgement binding mismatch", s)
    else match Peek (sq (rt_q s)) with
    | None => (ack_error "evidence: acknowledgement names an empty return queue", s)
    | Some queued =>
      match authorityQueueRouting queued with
      | Err e => (false, Err e, s)
      | Ok (queuedDevice, queuedType) =>
        match MarshalWire (qa_Payload queued) with
        | None => (false, Err errQueuedArtifactNotCanonical, s)
        | Some canonical =>
          if negb (bool_decide (queuedDevice = deviceID)) || negb (bool_decide (queuedType = ia_ArtifactType ack)) ||
             negb (bool_decide (ia_ArtifactDigest ack = "sha256:" +:+ sha256Hex canonical)) then
            (ack_error "evidence: acknowledgement does not name the queued authority artifact", s)
          else match inboundDecision (ia_Outcome ack) (ia_Reason ack) with
          | Err e => (false, Err e, s)
          | Ok (false, recognised) =>
            (true, if recognised then Ok tt else Err (UnrecognisedInboundReason (ia_Reason ack)),
             MkReturn (markHeld (qa_ID queued) queuedDevice (rt_p s)) (rt_q s) (rt_clock s))
          | Ok (true, _) =>
            match Remove (qa_ID queued) (rt_q s) with
            | (Err e, q') => (false, Err e, MkReturn (rt_p s) q' (rt_clock s))
            | (Ok _, q') =>
              let p := if decide (rp_heldID (rt_p s) = qa_ID queued) then markHeld "" "" (rt_p s) else rt_p s in
              (true, Ok tt, MkReturn (Notify p) q' (rt_clock s))
            end
          end
        end
      end
    end
  end.

(** [HandleAck]: the acknowledgement is verified, then decided under the
    verifier's lock. *)
Definition HandleAck (v : Verifier) (topic payload : string) (t : Z) (rs : replayState) (s : returnSt)
    : res unit * replayState * returnSt :=
  match DeviceIDFromEvidenceInboundAckTopic topic with
  | Err e => (Err e, rs, s)
  | Ok deviceID =>
    VerifyJSONThenDecide ValidateWireUnicode DecodeStrict Marshal v (λ _, decideAck deviceID payload)
      payload EvidenceInboundAckMessageType deviceID "" t rs s
  end.
End Publisher.
End Returns.
