(* ===== verification/ReturnsSpec.v ===== *)
(** * What the way back promises

    The durable sink keeps what it accepted, through crashes too; the runtime's
    authenticated decision is the only thing that takes an artifact off the
    return queue; a held artifact is not published again before its device's
    state changes or it is retired. *)
From S2P Require Import Prelude GoBytes Sha256 Json Routing Refusal Faults Store Queue Codec QueueInv QueueOps QueueDir Probe Load QueueLife QueueSpec SigningClock Custody Courier Contracts Heap Replay MqttAuth MqttAuthSpec Worker WorkerSys WorkerSpec Returns.
Import Routing Store Queue QueueInv QueueOps Probe Load QueueLife QueueSpec SigningClock Courier Contracts Replay MqttAuth MqttAuthSpec Worker WorkerSys WorkerSpec Returns.

Module ReturnsSpec.

(** ** The oldest entry *)
Section Oldest.
Implicit Types (q : DurableQueue) (s : qst) (en : gmap string queueRecord).

Definition oldest en (r : queueRecord) : Prop :=
  en !! qr_ID r = Some r ∧ ∀ id' r', en !! id' = Some r' → qr_QueueSeq r ≤ qr_QueueSeq r'.

Lemma Peek_oldest q a : qinv q → Peek q = Some a ↔ ∃ r, oldest (entries q) r ∧ a = recordArtifact r.
Proof.
  intros Hq. pose proof (firstWhere_oldest (λ _, true) (λ _, True) q Hq ltac:(done)) as F.
  assert (Peek q = firstWhere (λ _, true) q) as -> by (unfold Peek, firstWhere; by destruct (order q)).
  destruct (firstWhere (λ _, true) q) as [b|].
  - destruct F as (r & H1 & _ & -> & H3). split.
    + intros [= <-]. exists r. split; [|done]. split; [done|]. intros id' r' H'. by eapply H3.
    + intros (r' & (H1' & H3') & ->). do 2 f_equal.
      assert (qr_QueueSeq r = qr_QueueSeq r') as E by (pose proof (H3 _ _ H1' I); pose proof (H3' _ _ H1); lia).
      pose proof (qi_seq _ Hq _ _ _ _ H1 H1' E) as Eid. rewrite Eid in H1. congruence.
  - split; [done|]. intros (r & (H1 & _) & _). by apply F in H1.
Qed.

Lemma enqueue_keeps_oldest nowMS kind payload s a s' x :
  qinv (sq s) → qinv (sq s') → enqueueOrFind nowMS kind payload s = (a, s') → Peek (sq s) = Some x → Peek (sq s') = Some x.
Proof.
  intros Hq Hq' H (r & [H1 H2] & ->)%(Peek_oldest _ _ Hq). apply (Peek_oldest _ _ Hq'). exists r. split; [|done].
  destruct (enqueue_entries _ _ _ _ _ _ Hq H) as [->|(r0 & -> & Hn & Hs)]; [done|].
  split; [rewrite lookup_insert_ne by congruence; done|]. intros id' r' [[_ <-]|[_ H']]%lookup_insert_Some; [|by eapply H2].
  apply (qi_wf _ Hq) in H1 as (_ & _ & ?). lia.
Qed.

Lemma same_keeps_oldest s s' x :
  qinv (sq s) → qinv (sq s') → entries (sq s') = entries (sq s) → Peek (sq s) = Some x → Peek (sq s') = Some x.
Proof. intros Hq Hq' E (r & Hr & ->)%(Peek_oldest _ _ Hq). apply (Peek_oldest _ _ Hq'). exists r. by rewrite E. Qed.

Lemma Peek_entry q x : qinv q → Peek q = Some x → ∃ r, entries q !! qa_ID x = Some r ∧ x = recordArtifact r.
Proof. intros Hq (r & [H _] & ->)%(Peek_oldest _ _ Hq). by exists r. Qed.
End Oldest.

(** ** The sink *)
Section Sink.
Context (DecodeStrict : list string → string → option strictError) (MarshalWire : string → option string).
Abbreviation Store_ := (SinkStore DecodeStrict MarshalWire).

Lemma enqueue_find nowMS kind payload s a s' :
  enqueue nowMS kind payload s = (a, s') →
  ∃ b, enqueueOrFind nowMS kind payload s = (b, s') ∧ ∀ x, a = Ok x → ∃ y, b = Ok y.
Proof.
  unfold enqueue, ebind. destruct (enqueueOrFind nowMS kind payload s) as [[y|e] s1]; intros [= <- <-]; eexists; (split; [done|]); [eauto|done].
Qed.

(** Storing either refuses and touches nothing, or queues the payload. *)
Lemma SinkStore_inv a k r k' :
  Store_ a k = (r, k') →
  (k' = k ∧ r ≠ Ok tt) ∨
  ∃ kind b, storedType (aa_Type a) = Some kind ∧ sk_nowMS k' = sk_nowMS k ∧
    enqueueOrFind (sk_nowMS k) kind (aa_Payload a) (sk_q k) = (b, sk_q k') ∧ (r = Ok tt → ∃ y, b = Ok y).
Proof.
  unfold SinkStore. destruct (storedType (aa_Type a)) as [kind|]; [|intros [= <- <-]; by left].
  destruct (routingDeviceID _) as [dev|]; [|intros [= <- <-]; by left]. destruct (_ || _); [intros [= <- <-]; by left|].
  destruct (inboundMemberRefusal _ _); [|intros [= <- <-]; by left]. destruct (MarshalWire _) as [c|]; [|intros [= <- <-]; by left].
  destruct (_ <? _); [intros [= <- <-]; by left|]. destruct (enqueue _ _ _ _) as [e s'] eqn:E. intros [= <- <-].
  apply enqueue_find in E as (b & Eb & Hb). right. exists kind, b. split_and!; [done..|]. destruct e as [x|]; [|done]. eauto.
Qed.

Lemma enqueued_listed nowMS kind payload s b s' :
  enqueueOrFind nowMS kind payload s = (b, s') →
  entries (sq s) ⊆ entries (sq s') ∧ (∀ y, b = Ok y → is_Some (entries (sq s') !! artifactID kind payload)).
Proof.
  intros [[-> H]|(Hn & _ & _ & c & Hi & ->)]%enqueueOrFind_cases.
  { split; [done|]. intros y (r & -> & _)%H. eauto. }
  destruct Hi as [e|e s1 r0 Hw|s1 r0 _ _ _ _ _ _ Hw]; [by split|by rewrite (writeRecord_sq _ _ _ _ _ Hw)|].
  cbn [sq]. rewrite commit_entries, (writeRecord_sq _ _ _ _ _ Hw). split; [by apply insert_subseteq|].
  intros y _. cbn [qr_ID r0]. rewrite lookup_insert_eq. eauto.
Qed.

Lemma stored_staged a k u k' : Store_ a k = (Ok u, k') → staged_in k' a.
Proof.
  destruct u. intros [[_ ?]|(kind & b & Ek & _ & Eb & Hb)]%SinkStore_inv; [done|].
  unfold staged_in. rewrite Ek. destruct (Hb eq_refl) as [y ->]. by eapply (enqueued_listed _ _ _ _ _ _ Eb).
Qed.

Lemma stored_keeps a k r k' b : Store_ a k = (r, k') → staged_in k b → staged_in k' b.
Proof.
  intros [[-> _]|(kind & b' & _ & _ & Eb & _)]%SinkStore_inv; [done|].
  apply enqueued_listed in Eb as [Hsub _]. unfold staged_in. destruct (storedType (aa_Type b)); [|done].
  intros [r' Hr']. exists r'. by eapply lookup_weaken.
Qed.

(** The durable sink discharges what the worker needs of one. *)
#[local] Instance durable_sink : AuthoritySink sinkSt :=
  {| Store := Store_; staged := staged_in; store_ok := stored_staged; store_keeps := stored_keeps |}.

(** Storing keeps the queue's invariant and what its disk promises. *)
Definition sink_ready (n : Z) (l : list AuthorityArtifact) (k : sinkSt) : Prop :=
  sk_nowMS k ≤ i64_max ∧ Forall (λ a, slen (aa_Payload a) ≤ 2 ^ 60) l ∧ nextSeq (sq (sk_q k)) + n ≤ i64_max.

Lemma enqueue_next nowMS kind payload s b s' :
  enqueueOrFind nowMS kind payload s = (b, s') → qinv (sq s) → nextSeq (sq s) < i64_max →
  nextSeq (sq s') ≤ nextSeq (sq s) + 1.
Proof.
  intros [[-> _]|(Hn & _ & _ & c & Hi & ->)]%enqueueOrFind_cases Hq Hs; [lia|].
  destruct Hi as [e|e s1 r0 Hw|s1 r0 _ _ _ _ _ _ Hw]; [lia|rewrite (writeRecord_sq _ _ _ _ _ Hw); lia|].
  cbn [sq]. rewrite (writeRecord_sq _ _ _ _ _ Hw). match goal with |- nextSeq (commitEntry ?r ?n ?q) ≤ _ =>
    destruct (commit_counters q r n) as (_ & _ & _ & _ & _ & ->) end.
  pose proof (qi_next _ Hq). rewrite wrap64_id by (unfold in_i64, i64_min; lia). lia.
Qed.

Lemma SinkStore_life a l k r k' D :
  Store_ a k = (r, k') → life_inv (sk_q k, D) → sink_ready (1 + Z.of_nat (length l)) (a :: l) k →
  life_inv (sk_q k', D) ∧ sink_ready (Z.of_nat (length l)) l k'.
Proof.
  intros H Hl (Hn & [Ha Hf]%Forall_cons & Hs). apply SinkStore_inv in H as [[-> _]|(kind & b & _ & En & Eb & _)].
  { split; [done|]. split_and!; [done..|lia]. }
  pose proof (enqueue_next _ _ _ _ _ _ Eb (proj1 Hl) ltac:(lia)). split.
  - apply (qop_inv (sk_q k, D)); [|done]. by eapply op_enqueue; [..|exact Eb]; [|done|lia].
  - split_and!; [by rewrite En|done|lia].
Qed.

Lemma storeAll_life l k r k' D :
  storeAll l k = (r, k') → life_inv (sk_q k, D) → sink_ready (Z.of_nat (length l)) l k → life_inv (sk_q k', D).
Proof.
  revert k. induction l as [|a l IH]; intros k; cbn [storeAll]; [by intros [= <- <-]|].
  unfold ebind. destruct (Store a k) as [[[]|e] k1] eqn:E; intros H Hl Hr.
  - destruct (SinkStore_life _ l _ _ _ _ E Hl) as [? ?]; [by rewrite length_cons, Nat2Z.inj_succ in Hr; rewrite Z.add_comm|]. by eapply IH.
  - injection H as <- <-. by destruct (SinkStore_life _ l _ _ _ _ E Hl) as [? ?];
      [rewrite length_cons, Nat2Z.inj_succ in Hr; rewrite Z.add_comm|].
Qed.

(** An answer that retires its artifact stored everything returned with it. *)
Lemma finishAttempt_stores q r now l s (k : sinkSt) d l' s' k' D :
  finishAttempt true q (Answered r) now l s k = (d, l', s', k') → qinv (sq s) →
  entries (sq s') ≠ entries (sq s) → life_inv (sk_q k, D) →
  sink_ready (Z.of_nat (length (dr_AuthorityArtifacts r))) (dr_AuthorityArtifacts r) k →
  life_inv (sk_q k', D) ∧ ∀ a, a ∈ dr_AuthorityArtifacts r → ∃ dev, staged_in k' (MkAuthority (aa_Type a) dev (aa_Payload a)).
Proof.
  intros Hf Hq Hne Hl Hr. unfold finishAttempt in Hf. destruct (dr_Accepted r); cbn [negb] in Hf.
  2: { destruct (dr_Retriable r), (dr_ReceiverState r); cbn [negb] in Hf; try (by injection Hf as <- <- <- <-).
       destruct (hold _ _ _ _ _ _) as [l2 s2] eqn:Eh. injection Hf as <- <- <- <-. by apply hold_spec in Eh as (_ & _ & _ & ?). }
  rewrite andb_false_r in Hf. destruct (routeArtifacts _ q _) as [[routed c]|] eqn:Er; [|by injection Hf as <- <- <- <-].
  pose proof (routeArtifacts_payloads _ _ _ _ _ Er) as Hp. apply routeArtifacts_covered in Er as (Hlen & _ & Ha).
  destruct (_ && _) in Hf; [by injection Hf as <- <- <- <-|].
  destruct (storeAll routed k) as [[[]|] k1] eqn:Es; [|by injection Hf as <- <- <- <-].
  assert (k1 = k') as <- by (destruct (Remove (qa_ID q) s) as [[[]|] ?]; by injection Hf as <- <- <- <-).
  split.
  - eapply storeAll_life; [exact Es|done|]. destruct Hr as (? & Hf' & ?). rewrite Hlen. split_and!; [done| |done].
    apply Forall_forall. intros b Hb. destruct (Hp _ Hb) as (a & Hin & <-). rewrite Forall_forall in Hf'. by apply Hf'.
  - intros a Hin. destruct (Ha _ Hin) as [dev Hd]. exists dev.
    apply storeAll_staged in Es as [Hst _]. by apply Hst.
Qed.

(** C6: Nothing the authority returned is lost once the evidence it answers is
    gone: when an answer takes an artifact off the outbound queue, every
    artifact returned with it is on the return queue, and whatever a crash
    loses, a return queue reopened from what is left lists it under its
    identity, the digest of its type and bytes. *)
Theorem accepted_returns_survive o t key q r l y m ro n body io f s' d' a :
  winv y → y_lanes y !! key = Some (MkRun l (Some q)) →
  let y' := answer o true t key q (Answered r) l y in
  is_Some (entries (sq (y_q y)) !! qa_ID q) → entries (sq (y_q y')) !! qa_ID q = None →
  life_inv (sk_q (y_k y), ∅) →
  sink_ready (Z.of_nat (length (dr_AuthorityArtifacts r))) (dr_AuthorityArtifacts r) (y_k y) →
  crash (sd (sk_q (y_k y'))) m →
  openDurableQueue ro (Some n) body (reboot m io) f = (Ok tt, Some s', d') →
  a ∈ dr_AuthorityArtifacts r →
  ∃ kind rec, storedType (aa_Type a) = Some kind ∧ entries (sq s') !! artifactID kind (aa_Payload a) = Some rec.
Proof.
  intros [Hq Hw] Hlane y' [r0 Hr0] Hgone Hlife Hready Hc Ho Ha. unfold y', answer in Hgone, Hc.
  destruct (finishAttempt _ _ _ _ _ _ _) as [[[d l1] s1] k1] eqn:Ef.
  destruct (afterAttempt _ _ _ _ _ _ _ _ _) as [[act l2] s2] eqn:Ea. cbn in Hgone, Hc.
  pose proof (finishAttempt_spec true _ _ _ _ _ _ _ _ _ _ _ Hq (Hw _ _ Hlane) Ef) as (Hq1 & _ & _ & _).
  apply afterAttempt_spec in Ea as (_ & _ & [_ Ee] & _); [|done].
  destruct (finishAttempt_stores _ _ _ _ _ _ _ _ _ _ _ Ef Hq ltac:(congruence) Hlife Hready) as [Hl1 Hst].
  destruct (Hst _ Ha) as [dev Hs]. unfold staged_in in Hs. cbn in Hs. destruct (storedType (aa_Type a)) as [kind|]; [|done].
  destruct Hs as [rec Hrec]. exists kind, rec. split; [done|]. by eapply life_crash.
Qed.
End Sink.

(** ** The publisher *)
Section Publisher.
Context (ValidateWireUnicode : string → bool) (DecodeStrict : list string → string → option strictError).
Context (MarshalWire : string → option string) (Marshal : gmap string json → res string).
Abbreviation open_ := (openEnvelope ValidateWireUnicode DecodeStrict Marshal).
Abbreviation ack_ := (HandleAck ValidateWireUnicode DecodeStrict MarshalWire Marshal).
Abbreviation publish_ := (publishHead DecodeStrict MarshalWire Marshal).

(** The acknowledgement names the head of the return queue: its device, its
    type and the digest of its canonical bytes. *)
Definition names_head (deviceID payload : string) (s : returnSt) (queued : QueuedArtifact) (ack : inboundAck) : Prop :=
  Peek (sq (rt_q s)) = Some queued ∧ decodeInboundAck payload = Some ack ∧ ia_DeviceID ack = deviceID ∧
  authorityQueueRouting queued = Ok (deviceID, ia_ArtifactType ack) ∧
  ∃ canonical, MarshalWire (qa_Payload queued) = Some canonical ∧ ia_ArtifactDigest ack = "sha256:" +:+ sha256Hex canonical.

Definition released (id : string) (p : ReturnPublisher) : ReturnPublisher :=
  Notify (if decide (rp_heldID p = id) then markHeld "" "" p else p).

Lemma decideAck_cases deviceID payload s applied r s' :
  decideAck MarshalWire deviceID payload s = (applied, r, s') → qinv (sq (rt_q s)) →
  s' = s ∨ ∃ queued ack known, names_head deviceID payload s queued ack ∧
    (inboundDecision (ia_Outcome ack) (ia_Reason ack) = Ok (false, known) ∧ applied = true ∧
       s' = MkReturn (markHeld (qa_ID queued) deviceID (rt_p s)) (rt_q s) (rt_clock s) ∨
     inboundDecision (ia_Outcome ack) (ia_Reason ack) = Ok (true, known) ∧ rt_clock s' = rt_clock s ∧
       ∃ a, Remove (qa_ID queued) (rt_q s) = (a, rt_q s') ∧ (applied = true ↔ a = Ok tt) ∧
         rt_p s' = if applied then released (qa_ID queued) (rt_p s) else rt_p s).
Proof.
  unfold decideAck. intros H Hq. destruct (refuseAmbiguousMembers _ _); cbn [negb] in H; [|injection H as _ _ <-; by left].
  destruct (requireInboundAckTypes payload); cbn [negb] in H; [|injection H as _ _ <-; by left].
  destruct (decodeInboundAck payload) as [ack|] eqn:Ed; [|injection H as _ _ <-; by left].
  destruct (bool_decide_reflect (ia_DeviceID ack = deviceID)) as [E1|]; cbn [negb orb] in H; [|injection H as _ _ <-; by left].
  destruct (_ <=? _); [injection H as _ _ <-; by left|].
  destruct (Peek (sq (rt_q s))) as [queued|] eqn:Ep; [|injection H as _ _ <-; by left].
  destruct (authorityQueueRouting queued) as [[qd qt]|] eqn:Er; [|injection H as _ _ <-; by left].
  destruct (MarshalWire (qa_Payload queued)) as [canonical|] eqn:Em; [|injection H as _ _ <-; by left].
  destruct (bool_decide_reflect (qd = deviceID)) as [->|]; cbn [negb orb] in H; [|injection H as _ _ <-; by left].
  destruct (bool_decide_reflect (qt = ia_ArtifactType ack)) as [->|]; cbn [negb orb] in H; [|injection H as _ _ <-; by left].
  destruct (bool_decide_reflect (ia_ArtifactDigest ack = "sha256:" +:+ sha256Hex canonical)) as [E2|]; cbn [negb] in H;
    [|injection H as _ _ <-; by left].
  assert (names_head deviceID payload s queued ack) as Hn by (split_and!; [done..|eauto]).
  destruct (inboundDecision _ _) as [[[] known]|e] eqn:Ei; [| |injection H as _ _ <-; by left]; right; exists queued, ack, known.
  - split; [done|]. right. destruct (Remove (qa_ID queued) (rt_q s)) as [[[]|e] q'] eqn:Ere; injection H as <- <- <-; cbn;
      (split; [done|]; split; [done|]; eexists; split; [done|done]).
  - split; [done|]. left. by destruct known; injection H as <- <- <-.
Qed.

(** What one acknowledgement may do. *)
Lemma HandleAck_cases v topic payload t rs s r rs' s' :
  ack_ v topic payload t rs s = (r, rs', s') → qinv (sq (rt_q s)) →
  s' = s ∨ ∃ deviceID auth unsigned queued ack known,
    DeviceIDFromEvidenceInboundAckTopic topic = Ok deviceID ∧
    open_ v payload EvidenceInboundAckMessageType deviceID "" = Ok (auth, unsigned) ∧
    check (replayKey EvidenceInboundAckMessageType deviceID "" (ha_SignedAtMS auth) (ha_Signature auth)) (ha_SignedAtMS auth) t (prune t rs) = None ∧
    names_head deviceID payload s queued ack ∧
    (inboundDecision (ia_Outcome ack) (ia_Reason ack) = Ok (false, known) ∧
       s' = MkReturn (markHeld (qa_ID queued) deviceID (rt_p s)) (rt_q s) (rt_clock s) ∨
     inboundDecision (ia_Outcome ack) (ia_Reason ack) = Ok (true, known) ∧ rt_clock s' = rt_clock s ∧
       ∃ a, Remove (qa_ID queued) (rt_q s) = (a, rt_q s') ∧
         rt_p s' = if decide (a = Ok tt) then released (qa_ID queued) (rt_p s) else rt_p s).
Proof.
  unfold HandleAck. destruct (DeviceIDFromEvidenceInboundAckTopic topic) as [deviceID|e]; [|intros [= _ _ <-] _; by left].
  intros H Hq. apply VerifyJSONThenDecide_world in H as [->|(auth & un & Ho & Hc & E)]; [by left|].
  destruct (decideAck MarshalWire deviceID payload s) as [[applied r1] s1] eqn:Ed. cbn in E. subst s1.
  apply decideAck_cases in Ed as [->|(queued & ack & known & Hn & Hd)]; [by left| |done].
  right. exists deviceID, auth, un, queued, ack, known. split_and!; [done..|].
  destruct Hd as [(? & _ & ?)|(? & ? & a & ? & Ha & Hp)]; [by left|]. right. split; [done|]. split; [done|]. exists a.
  split; [done|]. rewrite Hp. destruct applied; case_decide; naive_solver.
Qed.

(** ** The way back as a system

    What may happen to the return queue and its publisher, one call at a
    time: [Store] and the probe under the queue's mutex, the publishing loop,
    an acknowledgement handler, a state change of a receiver. *)
Record rconf := MkConf { rc_s : returnSt; rc_rs : replayState; rc_sent : list message }.

Inductive event : Type :=
| EStore (a : AuthorityArtifact) | EPublish | EAck (topic payload : string) (t : Z)
| EChanged (deviceID : string) | ENotify | EProbe.

Definition withQueue (q : qst) (c : rconf) : rconf :=
  MkConf (MkReturn (rt_p (rc_s c)) q (rt_clock (rc_s c))) (rc_rs c) (rc_sent c).
Definition withPublisher (p : ReturnPublisher) (c : rconf) : rconf :=
  MkConf (MkReturn p (rt_q (rc_s c)) (rt_clock (rc_s c))) (rc_rs c) (rc_sent c).

Inductive rstep (v : Verifier) (secret : string) (retry : Z) : event → rconf → rconf → Prop :=
| rs_store nowMS a c r k' :
    nowMS ≤ i64_max → slen (aa_Payload a) ≤ 2 ^ 60 → nextSeq (sq (rt_q (rc_s c))) < i64_max →
    SinkStore DecodeStrict MarshalWire a (MkSink (rt_q (rc_s c)) nowMS) = (r, k') →
    rstep v secret retry (EStore a) c (withQueue (sk_q k') c)
| rs_publish now nowMS now' sendOK c r s' :
    publish_ secret retry now nowMS now' sendOK (rc_s c) = (r, s') →
    rstep v secret retry EPublish c
      (MkConf s' (rc_rs c) (match r with Ok (Some m) => m :: rc_sent c | _ => rc_sent c end))
| rs_ack topic payload t c r rs' s' :
    ack_ v topic payload t (rc_rs c) (rc_s c) = (r, rs', s') →
    rstep v secret retry (EAck topic payload t) c (MkConf s' rs' (rc_sent c))
| rs_changed deviceID c :
    rstep v secret retry (EChanged deviceID) c (withPublisher (ReceiverStateChanged deviceID (rt_p (rc_s c))) c)
| rs_notify c : rstep v secret retry ENotify c (withPublisher (Notify (rt_p (rc_s c))) c)
| rs_probe body c r q' :
    ProbeOp body (rt_q (rc_s c)) = (r, q') → rstep v secret retry EProbe c (withQueue q' c).

(** Publishing changes nothing of the queue but the clock's file. *)
Lemma publishHead_frame secret retry now nowMS now' sendOK s r s' :
  publish_ secret retry now nowMS now' sendOK s = (r, s') →
  sq (rt_q s') = sq (rt_q s) ∧ rp_heldID (rt_p s') = rp_heldID (rt_p s) ∧ rp_heldDevice (rt_p s') = rp_heldDevice (rt_p s).
Proof.
  unfold publishHead. destruct (Peek _) as [queued|]; [|by intros [= _ <-]].
  destruct (_ || _); [by intros [= _ <-]|]. destruct (authorityQueueRouting queued) as [[dev kind]|]; [|by intros [= _ <-]].
  destruct (Next _ _ _) as [[[at_|] clock] d]; [|by intros [= _ <-]].
  destruct (encodeInbound _ _ _ _ _ _ _ _) as [payload|e].
  - destruct (EvidenceInboundTopic dev); [destruct sendOK|]; by intros [= _ <-].
  - intros [= _ <-]. cbn. unfold reportStuck. by destruct (neverCarried e).
Qed.

Lemma publishHead_held secret retry now nowMS now' sendOK s queued :
  Peek (sq (rt_q s)) = Some queued → rp_heldID (rt_p s) = qa_ID queued →
  publish_ secret retry now nowMS now' sendOK s = (Ok None, s).
Proof. intros Hp Hh. unfold publishHead. by rewrite Hp, bool_decide_true. Qed.

Lemma rstep_qinv v secret retry e c c' :
  rstep v secret retry e c c' → qinv (sq (rt_q (rc_s c))) → qinv (sq (rt_q (rc_s c'))).
Proof.
  intros H Hq. destruct H as [nowMS a c r k' Hn Hp Hs H|now nowMS now' sendOK c r s' H|topic payload t c r rs' s' H|dev c|c|body c r q' H]; cbn.
  - apply SinkStore_inv in H as [[-> _]|(kind & b & _ & _ & Eb & _)]; [done|]. by apply (admit_keeps _ _ _ _ _ _ Hq) in Eb as [? _].
  - by apply publishHead_frame in H as [-> _].
  - apply HandleAck_cases in H as [->|(?&?&?& queued &?&?&_&_&_&_& [[_ ->]|(_ & _ & a & Hr & _)])]; [done|done| |done].
    by apply (Remove_retired _ _ _ _ Hr).
  - done.
  - done.
  - by apply (ProbeOp_spec _ _ _ _ H).
Qed.

(** C7: Only the runtime's decision takes an artifact off the return queue:
    when a step removes an entry, the step is an acknowledgement on the topic
    of the entry's device, authenticated under the current or the previous
    secret, fresh and not seen before, which names the oldest entry by device,
    type and digest of its canonical bytes and reports an outcome that retires
    it. *)
Theorem returns_leave_by_ack v secret retry e c c' id r :
  qinv (sq (rt_q (rc_s c))) → rstep v secret retry e c c' →
  entries (sq (rt_q (rc_s c))) !! id = Some r → entries (sq (rt_q (rc_s c'))) !! id = None →
  ∃ topic payload t deviceID auth env canonical key ack known,
    e = EAck topic payload t ∧ EvidenceInboundAckTopic deviceID = Ok topic ∧
    decodeMap payload = Some env ∧ Marshal (delete "auth" env) = Ok canonical ∧
    (key = vf_sharedSecret v ∨ key = vf_previousSharedSecret v ∧ key ≠ "") ∧
    ha_Signature auth = signaturePrefix +:+ computeSignature key (SigningInput EvidenceInboundAckMessageType deviceID "" (ha_SignedAtMS auth) canonical) ∧
    check (replayKey EvidenceInboundAckMessageType deviceID "" (ha_SignedAtMS auth) (ha_Signature auth)) (ha_SignedAtMS auth) t (prune t (rc_rs c)) = None ∧
    names_head deviceID payload (rc_s c) (recordArtifact r) ack ∧
    inboundDecision (ia_Outcome ack) (ia_Reason ack) = Ok (true, known).
Proof.
  intros Hq H Hr Hn. destruct H as [nowMS a c r1 k' Hnow Hp Hlt H|now nowMS now' sendOK c r1 s' H|topic payload t c r1 rs' s' H|dev c|c|body c r1 q' H];
    cbn in Hn; try congruence.
  - apply SinkStore_inv in H as [[-> _]|(kind & b & _ & _ & Eb & _)]; [cbn in Hn; congruence|].
    apply enqueued_listed in Eb as [Hsub _]. pose proof (lookup_weaken _ _ _ _ Hr Hsub) as Hs. cbn in Hs. congruence.
  - apply publishHead_frame in H as [E _]. congruence.
  - apply HandleAck_cases in H as [->|(dev & auth & un & queued & ack & known & Ht & Ho & Hc & Hh & [[_ ->]|(Hd & _ & a & Hre & _)])];
      [congruence|cbn in Hn; congruence| |done].
    destruct (Remove_retired _ _ _ _ Hre Hq) as [_ _ R3 R4 _]. destruct (decide (a = Ok tt)) as [->|Ha]; [|rewrite R4 in Hn by done; congruence].
    destruct (R3 eq_refl) as [E _]. rewrite E in Hn. destruct (decide (id = qa_ID queued)) as [->|]; [|rewrite lookup_delete_ne in Hn by done; congruence].
    assert (queued = recordArtifact r) as ->.
    { destruct (Peek_entry _ _ Hq (proj1 Hh)) as (r' & Hr' & Eq). rewrite Eq. f_equal. rewrite Hr' in Hr. by injection Hr. }
    apply openEnvelope_ok in Ho as (env & canonical & H1 & -> & _ & _ & _ & _ & H7 & key & H8 & H9).
    exists topic, payload, t, dev, auth, env, canonical, key, ack, known. split_and!; try done.
    by apply (deviceFrom_iff _ _ _ _ _ eq_refl eq_refl) in Ht.
  - apply ProbeOp_spec in H as (_ & E & _); [|done]. congruence.
Qed.

(** One step of a held head. *)
Lemma held_step v secret retry e c c' queued dev kind0 :
  rstep v secret retry e c c' → qinv (sq (rt_q (rc_s c))) → qinv (sq (rt_q (rc_s c'))) → e ≠ EChanged dev →
  is_Some (entries (sq (rt_q (rc_s c'))) !! qa_ID queued) → authorityQueueRouting queued = Ok (dev, kind0) →
  Peek (sq (rt_q (rc_s c))) = Some queued → rp_heldID (rt_p (rc_s c)) = qa_ID queued → rp_heldDevice (rt_p (rc_s c)) = dev →
  rc_sent c' = rc_sent c ∧ Peek (sq (rt_q (rc_s c'))) = Some queued ∧
  rp_heldID (rt_p (rc_s c')) = qa_ID queued ∧ rp_heldDevice (rt_p (rc_s c')) = dev.
Proof.
  intros H Hq Hq' Hne Hin Hro Hp Hh Hd. destruct H as [nowMS a c r k' Hn Hs Hl H|now nowMS now' sendOK c r s' H|topic payload t c r rs' s' H|dev' c|c|body c r q' H];
    cbn [rc_s rc_sent withQueue withPublisher rt_p rt_q] in *.
  - split_and!; try done. apply SinkStore_inv in H as [[-> _]|(kind & b & _ & _ & Eb & _)]; [done|].
    eapply enqueue_keeps_oldest; [exact Hq|exact Hq'|exact Eb|exact Hp].
  - rewrite (publishHead_held _ _ _ _ _ _ _ _ Hp Hh) in H. by injection H as <- <-.
  - apply HandleAck_cases in H as [->|(dev1 & ? & ? & queued1 & ack & ? & _ & _ & _ & (Hp1 & _ & _ & Hr1 & _) & Hcase)]; [done| |done].
    replace queued1 with queued in * by congruence. destruct Hcase as [[_ ->]|(_ & _ & a & Hre & Hpub)].
    + cbn. split_and!; try done. congruence.
    + destruct (Remove_retired _ _ _ _ Hre Hq) as [_ _ R3 R4 _]. rewrite Hpub. case_decide as Ha.
      { destruct (R3 Ha) as [E _]. rewrite E, lookup_delete_eq in Hin. by destruct Hin. }
      split_and!; try done. eapply same_keeps_oldest; [exact Hq|exact Hq'|by apply R4|done].
  - cbn. unfold ReceiverStateChanged, Notify. case_decide as E; [congruence|]. done.
  - done.
  - split_and!; try done. apply ProbeOp_spec in H as (_ & E & _); [|done].
    eapply same_keeps_oldest; [exact Hq|exact Hq'|exact E|exact Hp].
Qed.

End Publisher.

(** ** A way back to run *)
Definition exWire (s : string) : option string := Some s.
#[local] Instance exSink : AuthoritySink sinkSt := durable_sink exStrict exWire.

Definition exW0 : sys sinkSt := NewDeliveryWorker exWOpts (2000000 * Second) 0 (2000000 * Second) ex2 (MkSink ex0 1500).
Definition exW1 : sys sinkSt :=
  let '(act, l1, s1) := onTimer exWOpts (t_wall (exT 1)) (t_mono (exT 1)) (t_now (exT 1)) (exLane exW0) (y_q exW0) in
  match act with
  | None => attempt exWOpts (exT 1) exKey l1 s1 exW0
  | Some _ => MkSys (<[exKey := MkRun l1 None]> (y_lanes exW0)) s1 (y_k exW0) (y_sent exW0) (t_mono2 (exT 1))
  end.
Definition exResult : DeliveryResult := MkResult true false 0 false 0 "" [exReceipt].
Definition exW2 : sys sinkSt := answer exWOpts true (exT 2) exKey exHead (Answered exResult) (exLane exW1) exW1.

Lemma exW1_winv : winv exW1.
Proof.
  apply (wsteps_winv exWOpts true exW0); [|apply NewDeliveryWorker_ok; exact (proj1 ex2_life)].
  apply rtc_once. unfold exW1. apply (w_timer exWOpts true (exT 1) exKey (exLane exW0) exW0); [vm_compute; reflexivity|by vm_compute].
Qed.

Lemma accepted_returns_survive_witness :
  entries (sq (y_q exW2)) !! exIdA = None ∧
  ∃ kind rec, storedType (aa_Type exReceipt) = Some kind ∧
    entries (sq (exOpen exOpts (reboot (d_dur (sd (sk_q (y_k exW2)))) []))) !! artifactID kind (aa_Payload exReceipt) = Some rec.
Proof.
  assert (entries (sq (y_q exW2)) !! exIdA = None) as Hn by (vm_compute; reflexivity).
  split; [exact Hn|].
  apply (accepted_returns_survive exStrict exWire exWOpts (exT 2) exKey exHead exResult (exLane exW1) exW1
    (d_dur (sd (sk_q (y_k exW2)))) exOpts exNode "p" [] Faults.NewRecorder _
    (sd (exOpen exOpts (reboot (d_dur (sd (sk_q (y_k exW2)))) [])))).
  - exact exW1_winv.
  - vm_compute. reflexivity.
  - vm_compute. eexists. reflexivity.
  - exact Hn.
  - exact ex0_life.
  - split; [vm_compute; discriminate|]. split; [|vm_compute; discriminate]. repeat constructor. vm_compute. discriminate.
  - apply crash_to_durable.
  - apply exOpen_ok. vm_compute. reflexivity.
  - by apply list_elem_of_singleton.
Defined.

(** An acknowledgement of the stored receipt, and a queue that holds it. *)
Definition exRQ : qst := (enqueueOrFind 1000 artifactDeliveryReceipt (aa_Payload exReceipt) ex0).2.
Definition exRecord : queueRecord :=
  MkRecord 1 (artifactID artifactDeliveryReceipt (aa_Payload exReceipt)) artifactDeliveryReceipt 1 1000 (aa_Payload exReceipt).
Definition exC0 : rconf := MkConf (MkReturn newPublisher exRQ exClock) exFresh [].

Definition exAckMembers (outcome reason : string) : list (string * json) :=
  [("device_id", jstr "a"); ("artifact_type", jstr AuthorityDeliveryReceipt);
   ("artifact_digest", jstr ("sha256:" +:+ sha256Hex (aa_Payload exReceipt)));
   ("outcome", jstr outcome); ("reason", jstr reason); ("acknowledged_at_ms", jint 1000)].
Definition exAckPayload (outcome reason : string) : string :=
  let members := exAckMembers outcome reason in
  match Sign exMarshal (toMap members) EvidenceInboundAckMessageType "a" "" 1000 "k" with
  | Ok auth => print (JObj (members ++ [("auth", authMember auth)]))
  | Err _ => ""
  end.
Definition exTopic : string := "ori/a/evidence/inbound/ack".

Abbreviation exRStep := (rstep exUnicode exStrict exWire exMarshal exVerifier "k" (5 * Second)).
Definition exAcked (outcome reason : string) (c : rconf) : rconf :=
  let '(r, rs', s') := HandleAck exUnicode exStrict exWire exMarshal exVerifier exTopic (exAckPayload outcome reason) 1000 (rc_rs c) (rc_s c) in
  MkConf s' rs' (rc_sent c).

Lemma exAcked_step outcome reason c :
  exRStep (EAck exTopic (exAckPayload outcome reason) 1000) c (exAcked outcome reason c).
Proof. unfold exAcked. destruct (HandleAck _ _ _ _ _ _ _ _ _ _) as [[r rs'] s'] eqn:E. by eapply rs_ack. Qed.

Lemma exRQ_inv : qinv (sq exRQ).
Proof.
  apply (qsteps_inv (ex0, ∅) (exRQ, ∅)); [|exact ex0_life]. apply rtc_once.
  apply (ex_enqueue_step 1000 artifactDeliveryReceipt (aa_Payload exReceipt)); vm_compute; done.
Qed.

Lemma returns_leave_by_ack_witness :
  entries (sq (rt_q (rc_s (exAcked "applied" "" exC0)))) !! qr_ID exRecord = None ∧
  ∃ deviceID payload ack known, names_head exWire deviceID payload (rc_s exC0) (recordArtifact exRecord) ack ∧
    inboundDecision (ia_Outcome ack) (ia_Reason ack) = Ok (true, known).
Proof.
  assert (entries (sq (rt_q (rc_s (exAcked "applied" "" exC0)))) !! qr_ID exRecord = None) as Hn by (vm_compute; reflexivity).
  split; [exact Hn|].
  destruct (returns_leave_by_ack exUnicode exStrict exWire exMarshal exVerifier "k" (5 * Second)
    (EAck exTopic (exAckPayload "applied" "") 1000) exC0 (exAcked "applied" "" exC0) (qr_ID exRecord) exRecord)
    as (topic & payload & t & deviceID & auth & env & canonical & key & ack & known & _ & _ & _ & _ & _ & _ & _ & H1 & H2).
  - exact exRQ_inv.
  - apply exAcked_step.
  - vm_compute. reflexivity.
  - exact Hn.
  - exists deviceID, payload, ack, known. split; [exact H1|exact H2].
Defined.

(** The runtime does not know the key yet: the receipt is held. *)
Definition exHeld : rconf := exAcked "refused" "unknown_key" exC0.
Definition exAgain : rconf := withPublisher (Notify (rt_p (rc_s exHeld))) exHeld.
Definition exQuiet : rconf :=
  let '(r, s') := publishHead exStrict exWire exMarshal "k" (5 * Second) (100 * Second) 100000 (100 * Second) true (rc_s exAgain) in
  MkConf s' (rc_rs exAgain) (match r with Ok (Some m) => m :: rc_sent exAgain | _ => rc_sent exAgain end).

Lemma exQuiet_step : exRStep EPublish exAgain exQuiet.
Proof. unfold exQuiet. destruct (publishHead _ _ _ _ _ _ _ _ _ _) as [r s'] eqn:E. by eapply rs_publish. Qed.

End ReturnsSpec.
