(* ===== verification/Ingress.v ===== *)
(** * The runtime's side of the courier (runtime_ingress.go)

    A carriage published by a runtime is judged, admitted to the outbound
    queue, acknowledged under a signed envelope and, for a delivery envelope,
    answered with a custody acknowledgement staged on the return queue. The
    two queues, the delivery lanes, the return publisher and the fault
    recorder are the ones the other components work on, wired as the gateway
    wires them: a handoff wakes the device's lanes, a new artifact also tells
    the return publisher that the device's state changed. *)
From S2P Require Import Prelude GoBytes Sha256 Json Routing Refusal Faults Store Queue Codec QueueInv QueueOps QueueDir Probe Load SigningClock Custody Courier Contracts Heap Replay MqttAuth Worker WorkerSys Returns.
Import Routing Store Queue QueueOps Probe Load SigningClock Custody Courier Contracts Replay MqttAuth Worker WorkerSys Returns.

Module Ingress.

(** ** What a carriage works on *)
Record world := MkWorld {
  w_q : DurableQueue; w_d : dirst;       (* the outbound queue and its directory *)
  w_clock : Clock;                       (* the acknowledgement clock, kept in that directory *)
  w_rq : DurableQueue; w_rd : dirst;     (* the return queue and its directory *)
  w_f : Faults.Recorder;                 (* one recorder for both queues and the admissions *)
  w_lanes : gmap LaneKey laneRun; w_p : ReturnPublisher;
  w_acks : list message }.               (* acknowledgements published, newest first *)

Definition outSt (w : world) : qst := MkSt (w_q w) (w_d w) (w_f w).
Definition retSt (w : world) : qst := MkSt (w_rq w) (w_rd w) (w_f w).

Definition withOut (s : qst) (w : world) : world :=
  MkWorld (sq s) (sd s) (w_clock w) (w_rq w) (w_rd w) (sf s) (w_lanes w) (w_p w) (w_acks w).
Definition withRet (s : qst) (w : world) : world :=
  MkWorld (w_q w) (w_d w) (w_clock w) (sq s) (sd s) (sf s) (w_lanes w) (w_p w) (w_acks w).
Definition withClock (c : Clock) (d : dirst) (w : world) : world :=
  MkWorld (w_q w) d c (w_rq w) (w_rd w) (w_f w) (w_lanes w) (w_p w) (w_acks w).
Definition withFaults (f : Faults.Recorder) (w : world) : world :=
  MkWorld (w_q w) (w_d w) (w_clock w) (w_rq w) (w_rd w) f (w_lanes w) (w_p w) (w_acks w).
Definition withHandoff (lanes : gmap LaneKey laneRun) (p : ReturnPublisher) (w : world) : world :=
  MkWorld (w_q w) (w_d w) (w_clock w) (w_rq w) (w_rd w) (w_f w) lanes p (w_acks w).
Definition withAck (m : message) (w : world) : world :=
  MkWorld (w_q w) (w_d w) (w_clock w) (w_rq w) (w_rd w) (w_f w) (w_lanes w) (w_p w) (m :: w_acks w).

(** ** Faults and handoffs *)
Definition admissionQueueSource : string := "admission.queue".
Definition admissionCustodySource : string := "admission.custody".

Definition noteAdmission (source : string) (failed : bool) (w : world) : world :=
  withFaults (Faults.Note Faults.AdmissionFailed source failed (w_f w)) w.

Inductive HandoffKind := HandoffAdmitted | HandoffQueueFull.

(** [Handoff] of the worker's lanes and the return publisher. *)
Definition Handoff (deviceID : string) (kind : HandoffKind) (w : world) : world :=
  withHandoff (NotifyDevice deviceID (w_lanes w))
    (match kind with HandoffAdmitted => ReceiverStateChanged deviceID (w_p w) | HandoffQueueFull => w_p w end) w.

(** ** Acknowledgements *)
Definition EvidenceOutboundAckMessageType : string := "evidence_outbound_ack".

Record outboundAck := MkOutboundAck {
  oa_DeviceID : string; oa_ArtifactType : string; oa_ArtifactDigest : string;
  oa_Outcome : string; oa_Reason : string; oa_AcknowledgedAtMS : Z }.

Definition outboundAckMembers (a : outboundAck) : list (string * json) :=
  [("device_id", jstr (oa_DeviceID a)); ("artifact_type", jstr (oa_ArtifactType a));
   ("artifact_digest", jstr (oa_ArtifactDigest a)); ("outcome", jstr (oa_Outcome a));
   ("reason", jstr (oa_Reason a)); ("acknowledged_at_ms", jint (oa_AcknowledgedAtMS a))].

(** What the clocks read while one carriage is handled. *)
Record times := MkTimes { tm_now : Z; tm_enqueue : Z; tm_sign : Z; tm_return : Z }.

(** ** Carriages *)
Record outboundCarriage := MkCarriage { oc_DeviceID : string; oc_ArtifactType : string; oc_ArtifactB64 : string }.

Definition carriageNames : list string := ["device_id"; "artifact_type"; "artifact_b64"].

Definition setCarriage (n : string) (v : json) (r : outboundCarriage) : outboundCarriage * bool :=
  let '(MkCarriage dev ty b64) := r in
  if decide (n = "device_id") then let '(s, ok) := setStr v dev in (MkCarriage s ty b64, ok)
  else if decide (n = "artifact_type") then let '(s, ok) := setStr v ty in (MkCarriage dev s b64, ok)
  else let '(s, ok) := setStr v b64 in (MkCarriage dev ty s, ok).

(** The carriage and the artifact bytes it carries. *)
Definition readCarriage (payload : string) : res (outboundCarriage * string) :=
  if negb (refuseAmbiguousMembers carriageNames payload) then Err (EMsg "evidence: malformed outbound carriage")
  else match decodeStruct carriageNames true setCarriage (MkCarriage "" "" "") payload with
  | None => Err (EMsg "evidence: malformed outbound carriage")
  | Some carriage =>
    match b64Decode true (oc_ArtifactB64 carriage) with
    | None => Err (EMsg "evidence: malformed outbound artifact bytes")
    | Some bytes => if bool_decide (bytes = "") then Err (EMsg "evidence: malformed outbound artifact bytes") else Ok (carriage, bytes)
    end
  end.

(** The reason a carriage is refused before admission, if it is. *)
Definition refusalOf (domain : string → bool) (deviceID : string) (carriage : outboundCarriage) (bytes : string) : option string :=
  if negb (bool_decide (oc_DeviceID carriage = deviceID)) then Some "binding_mismatch"
  else match routingDeviceID bytes with
  | None => Some "malformed"
  | Some device =>
    if bool_decide (device = "") then Some "malformed"
    else if negb (bool_decide (device = deviceID)) then Some "binding_mismatch"
    else match validateArtifactRoutingFields (oc_ArtifactType carriage) bytes domain with
    | Err _ => Some "malformed"
    | Ok _ => None
    end
  end.

(** The members of a custody acknowledgement as it is encoded. *)
Definition custodyJSON (a : Acknowledgement) : gmap string json :=
  toMap [("v", jint (k_V a)); ("device_id", jstr (k_DeviceID a)); ("local_seq", jint (k_LocalSeq a));
    ("envelope_digest", jstr (k_EnvelopeDigest a)); ("custody_at_ms", jint (k_CustodyAtMS a));
    ("key_id", jstr (k_KeyID a)); ("mac", jstr (k_MAC a))].

Definition zeroAdmission : Admission := MkAdmission noArtifact None false.

Section Handle.
Context (DecodeStrict : list string → string → option strictError) (MarshalWire : string → option string).
Context (Marshal : gmap string json → res string) (MarshalCustody : gmap string canon → res string).
Context (secret : string) (signer : option Signer).

Definition encodeOutboundAck (ack : outboundAck) (signedAt : Z) : res string :=
  match Sign Marshal (toMap (outboundAckMembers ack)) EvidenceOutboundAckMessageType (oa_DeviceID ack) "" signedAt secret with
  | Err e => Err e
  | Ok auth => Ok (print (JObj (outboundAckMembers ack ++ [("auth", authMember auth)])))
  end.

(** [publishOutboundAck]; [sendOK] is whether the broker takes the message. *)
Definition publishOutboundAck (tm : times) (sendOK : bool) (deviceID artifactType bytes outcome reason : string)
    (acknowledgedAtMS : Z) : EM world unit := λ w,
  let ack := MkOutboundAck deviceID artifactType (payloadDigest bytes) outcome reason acknowledgedAtMS in
  let '(signed, clock, d) := Next (tm_sign tm) (w_clock w) (w_d w) in
  let w1 := withClock clock d w in
  match signed with
  | Err e => (Err e, w1)
  | Ok signedAt =>
    match encodeOutboundAck ack signedAt with
    | Err e => (Err e, w1)
    | Ok encodedAck =>
      match EvidenceOutboundAckTopic deviceID with
      | Err e => (Err e, w1)
      | Ok ackTopic =>
        if sendOK then (Ok tt, withAck (ackTopic, encodedAck) w1)
        else (Err (EMsg "evidence: publish outbound acknowledgement"), w1)
      end
    end
  end.

(** What follows durable queueing: the acknowledgement, then the custody
    return. *)
Definition completeAdmission (tm : times) (sendOK : bool) (deviceID artifactType bytes : string) (admission : Admission)
    : EM world unit := λ w,
  match publishOutboundAck tm sendOK deviceID artifactType bytes "queued" "" (qa_EnqueuedAtMS (ad_Queued admission))
          (noteAdmission admissionQueueSource false w) with
  | (Err e, w1) => (Err e, w1)
  | (Ok _, w1) =>
    match ad_Custody admission with
    | None => (Ok tt, withOut (NoteAdmittedDevice deviceID (outSt w1)) w1)
    | Some custody =>
      match CanonicalJSONWithoutAuth Marshal (custodyJSON custody) with
      | Err e => (Err e, noteAdmission admissionCustodySource true w1)
      | Ok artifact =>
        match SinkStore DecodeStrict MarshalWire (MkAuthority InboundCustodyAcknowledgement deviceID artifact)
                (MkSink (retSt w1) (tm_return tm)) with
        | (Err e, k) => (Err e, noteAdmission admissionCustodySource true (withRet (sk_q k) w1))
        | (Ok _, k) =>
          let w2 := noteAdmission admissionCustodySource false (withRet (sk_q k) w1) in
          let w3 := withOut (NoteAdmittedDevice deviceID (outSt w2)) w2 in
          (Ok tt, withHandoff (w_lanes w3) (Notify (w_p w3)) w3)
        end
      end
    end
  end.

(** Admission of an artifact no check refused. *)
Definition admitCarriage (tm : times) (sendOK : bool) (deviceID artifactType bytes : string) : EM world unit := λ w,
  let '(adm, err, s1) := Admit MarshalCustody signer (tm_enqueue tm) artifactType bytes (outSt w) in
  let admission := default zeroAdmission adm in
  let w1 := withOut s1 w in
  let w2 := if ad_New admission then Handoff deviceID HandoffAdmitted w1 else w1 in
  match err with
  | None => completeAdmission tm sendOK deviceID artifactType bytes admission w2
  | Some e =>
    match e with
    | ErrUnconfiguredDevice => (Err e, withOut (NoteUnconfiguredDevice deviceID (outSt w2)).2 w2)
    | ErrQueueFull _ =>
      publishOutboundAck tm sendOK deviceID artifactType bytes "refused" "queue_full" (tm_now tm) (Handoff deviceID HandoffQueueFull w2)
    | errCustodyConstruction _ =>
      (Err e, noteAdmission admissionCustodySource true (noteAdmission admissionQueueSource false w2))
    | _ => (Err e, noteAdmission admissionQueueSource true w2)
    end
  end.

(** [Handle]. *)
Definition Handle (tm : times) (sendOK : bool) (topic payload : string) : EM world unit := λ w,
  match DeviceIDFromEvidenceOutboundTopic topic with
  | Err e => (Err e, w)
  | Ok deviceID =>
    if negb (Configured (w_q w) deviceID) then
      (Err ErrUnconfiguredDevice, withOut (NoteUnconfiguredDevice deviceID (outSt w)).2 w)
    else match readCarriage payload with
    | Err e => (Err e, w)
    | Ok (carriage, bytes) =>
      match refusalOf (RoutingDeviceID (w_q w)) deviceID carriage bytes with
      | Some reason => publishOutboundAck tm sendOK deviceID (oc_ArtifactType carriage) bytes "refused" reason (tm_now tm) w
      | None => admitCarriage tm sendOK deviceID (oc_ArtifactType carriage) bytes w
      end
    end
  end.
End Handle.
End Ingress.
