(* ===== verification/IngressSpec.v ===== *)
(** * What the runtime is told, and what a carriage may wake

    An acknowledgement is truthful: "queued" means durably stored, "refused"
    means nothing was admitted. A carriage for a device that is not configured
    is inert, and only a new artifact of a device releases that device's hold
    on the way back. *)
From S2P Require Import Prelude GoBytes Sha256 Json Routing Refusal Faults Store Queue Codec QueueInv QueueOps QueueDir Probe Load QueueLife QueueSpec SigningClock Custody Courier Contracts Heap Replay MqttAuth MqttAuthSpec Worker WorkerSys WorkerSpec Returns ReturnsSpec Ingress.
Import Routing Store Queue QueueInv QueueOps Probe Load QueueLife QueueSpec SigningClock Custody Courier Contracts Replay MqttAuth Worker WorkerSys Returns ReturnsSpec Ingress.

Module IngressSpec.

Section Frames.
Context (DecodeStrict : list string → string → option strictError) (MarshalWire : string → option string).
Context (Marshal : gmap string json → res string) (MarshalCustody : gmap string canon → res string).
Context (secret : string) (signer : option Signer).
Implicit Types (w : world) (tm : times).

Abbreviation encode_ := (encodeOutboundAck Marshal secret).
Abbreviation publish_ := (publishOutboundAck Marshal secret).
Abbreviation complete_ := (completeAdmission DecodeStrict MarshalWire Marshal secret).
Abbreviation admit_carriage := (admitCarriage DecodeStrict MarshalWire Marshal MarshalCustody secret signer).
Abbreviation handle := (Handle DecodeStrict MarshalWire Marshal MarshalCustody secret signer).

(** Signing touches only the clock's own files. *)
Lemma Next_same now c d r c' d' n :
  dotted (c_name c) → ¬ dotted n → Next now c d = (r, c', d') → same_at n d d' ∧ c_name c' = c_name c.
Proof.
  intros Hc Hn. unfold Next. cbv zeta. destruct (persist _ _ _) as [[[]|] d1] eqn:E; intros [= _ <- <-]; (split; [|done]);
    (eapply atomicWrite_same; [|intros E2; by rewrite E2 in Hn|exact E]); by apply not_dotted_prefix, dotted_prefix.
Qed.

(** Everything but the directory, the clock and the messages is as it was. *)
Lemma publish_spec tm sendOK dev ty bytes outcome reason at_ w r w' :
  publish_ tm sendOK dev ty bytes outcome reason at_ w = (r, w') → dotted (c_name (w_clock w)) →
  w_q w' = w_q w ∧ records_same (outSt w) (outSt w') ∧ retSt w' = retSt w ∧ w_lanes w' = w_lanes w ∧ w_p w' = w_p w ∧
  w_f w' = w_f w ∧ c_name (w_clock w') = c_name (w_clock w) ∧
  (w_acks w' = w_acks w ∧ r ≠ Ok tt ∨
   ∃ topic signedAt encoded, r = Ok tt ∧ EvidenceOutboundAckTopic dev = Ok topic ∧
     encode_ (MkOutboundAck dev ty (payloadDigest bytes) outcome reason at_) signedAt = Ok encoded ∧
     w_acks w' = (topic, encoded) :: w_acks w).
Proof.
  unfold publishOutboundAck. cbv zeta. destruct (Next _ _ _) as [[signed clock] d] eqn:En. intros H Hd.
  assert (c_name clock = c_name (w_clock w)) as Hcn.
  { unfold Next in En. destruct (persist _ _ _) as [[[]|] ?]; by injection En as <- <- <-. }
  assert (∀ n, ¬ dotted n → same_at n (w_d w) d) as Hs by (intros n Hn; by eapply Next_same).
  destruct signed as [signedAt|]; [|injection H as <- <-; split_and!; try done; by left].
  destruct (encode_ _ signedAt) as [encoded|] eqn:Ee; [|injection H as <- <-; split_and!; try done; by left].
  destruct (EvidenceOutboundAckTopic dev) as [topic|]; [|injection H as <- <-; split_and!; try done; by left].
  destruct sendOK; injection H as <- <-; split_and!; try done; [right; by exists topic, signedAt, encoded|by left].
Qed.

Lemma enqueueOutbound_err nowMS kind payload s e s' :
  enqueueOutbound nowMS kind payload s = (Err e, s') → entries (sq s') = entries (sq s).
Proof.
  unfold enqueueOutbound. destruct (negb _); [by intros [= _ <-]|]. unfold ebind.
  destruct (enqueueOrFind nowMS kind payload s) as [[x|e'] s1] eqn:E; [done|]. intros [= _ <-].
  apply enqueueOrFind_cases in E as [[-> _]|(_ & _ & _ & b & Hi & Eb)]; [done|].
  destruct Hi as [e1|e1 s1 r0 Hw|s1 r0 _ _ _ _ _ _ Hw]; [done|by rewrite (writeRecord_sq _ _ _ _ _ Hw)|done].
Qed.

(** What an admission returns beside the state. *)
Lemma Admit_cases nowMS kind payload s adm err s' :
  Admit MarshalCustody signer nowMS kind payload s = (adm, err, s') →
  adm = None ∧ is_Some err ∧ entries (sq s') = entries (sq s) ∨
  ∃ a queued new, adm = Some a ∧ ad_Queued a = queued ∧ ad_New a = new ∧ slen payload ≤ maxArtifactBytes ∧
    enqueueOutbound nowMS kind payload s = (Ok (queued, new), s') ∧
    (∀ e, err = Some e → e ≠ ErrUnconfiguredDevice ∧ ∀ l, e ≠ ErrQueueFull l) ∧
    (kind = ArtifactDeliveryEnvelope → err = None → is_Some signer → is_Some (ad_Custody a)).
Proof.
  unfold Admit. destruct (validateArtifactRoutingFields _ _ _) as [[]|] eqn:Ev; [|intros [= <- <- <-]; left; eauto].
  assert (slen payload ≤ maxArtifactBytes) as Hsz.
  { unfold validateArtifactRoutingFields in Ev. destruct (negb _); [done|]. destruct (routingOutbound payload); [|done].
    destruct (negb _); [done|]. destruct (Z.ltb_spec maxArtifactBytes (slen payload)); [done|lia]. }
  destruct (enqueueOutbound nowMS kind payload s) as [[[queued new]|e] s1] eqn:Ee.
  2: { intros [= <- <- <-]. left. split_and!; [done|eauto|by eapply enqueueOutbound_err]. }
  intros H. right. destruct signer as [sg|].
  2: { injection H as <- <- <-. exists (MkAdmission queued None new), queued, new. split_and!; try done. }
  destruct (bool_decide_reflect (kind = ArtifactDeliveryEnvelope)) as [Ek|Ek]; cbn [negb] in H.
  2: { injection H as <- <- <-. exists (MkAdmission queued None new), queued, new. split_and!; done. }
  destruct (routingOutbound payload) as [out|].
  2: { injection H as <- <- <-. exists (MkAdmission queued None new), queued, new. split_and!; try done. by intros e [= <-]. }
  destruct (Acknowledge _ _ _ _ _ _) as [[ack ?]|e]; injection H as <- <- <-; eexists _, queued, new; split_and!; try done.
  by intros e' [= <-].
Qed.

(** What the return publisher holds. *)
Definition held (p : ReturnPublisher) : string * string := (rp_heldID p, rp_heldDevice p).

(** One acknowledgement was published. *)
Definition acked (dev ty bytes outcome reason : string) (at_ : Z) w w' : Prop :=
  ∃ topic signedAt encoded, EvidenceOutboundAckTopic dev = Ok topic ∧
    encode_ (MkOutboundAck dev ty (payloadDigest bytes) outcome reason at_) signedAt = Ok encoded ∧
    w_acks w' = (topic, encoded) :: w_acks w.

Lemma outSt_frame w w' : w_q w' = w_q w → w_d w' = w_d w → records_same (outSt w) (outSt w').
Proof. intros E1 E2. split; cbn; rewrite ?E1, ?E2; [done|]. reflexivity. Qed.

Lemma complete_spec tm sendOK dev ty bytes a w r w' :
  complete_ tm sendOK dev ty bytes a w = (r, w') → dotted (c_name (w_clock w)) → qinv (w_q w) →
  records_same (outSt w) (outSt w') ∧ w_lanes w' = w_lanes w ∧ held (w_p w') = held (w_p w) ∧
  (w_acks w' = w_acks w ∨ acked dev ty bytes "queued" "" (qa_EnqueuedAtMS (ad_Queued a)) w w') ∧
  (r = Ok tt → ∀ custody, ad_Custody a = Some custody →
     ∃ artifact, CanonicalJSONWithoutAuth Marshal (custodyJSON custody) = Ok artifact ∧
       is_Some (entries (w_rq w') !! artifactID artifactCustodyAcknowledgement artifact)).
Proof.
  unfold completeAdmission. destruct (publish_ _ _ _ _ _ _ _ _ _) as [r1 w1] eqn:Ep. intros H Hd Hq.
  apply publish_spec in Ep as (Eq & Hs & _ & El & Epub & _ & _ & Ha); [|done].
  cbn [noteAdmission withFaults w_q w_lanes w_p w_acks] in *.
  assert (records_same (outSt w) (outSt w1)) as Hs1 by (etransitivity; [|exact Hs]; by apply outSt_frame).
  assert (w_acks w1 = w_acks w ∨ acked dev ty bytes "queued" "" (qa_EnqueuedAtMS (ad_Queued a)) w w1) as Ha1.
  { destruct Ha as [[? _]|(topic & at_ & enc & _ & ? & ? & ?)]; [by left|right; by exists topic, at_, enc]. }
  assert (∀ s, s = outSt w1 → records_same (outSt w) (NoteAdmittedDevice dev s)) as Hadm.
  { intros s ->. etransitivity; [exact Hs1|]. apply NoteAdmittedDevice_spec. cbn. by rewrite Eq. }
  destruct r1 as [[]|e]; [|injection H as <- <-; split_and!; try done; by rewrite Epub].
  destruct (ad_Custody a) as [custody|].
  2: { injection H as <- <-. split_and!; cbn; try done; [by apply (Hadm (outSt w1))|by rewrite Epub]. }
  destruct (CanonicalJSONWithoutAuth Marshal (custodyJSON custody)) as [artifact|e] eqn:Ec.
  2: { injection H as <- <-. split_and!; cbn; try done. by rewrite Epub. }
  destruct (SinkStore _ _ _ _) as [[[]|e] k] eqn:Es; injection H as <- <-; cbn.
  - split_and!; try done; [|by rewrite Epub|].
    + etransitivity; [exact Hs1|].
      match goal with |- records_same _ (outSt ?x) => change (records_same (outSt w1) (NoteAdmittedDevice dev (MkSt (w_q w1) (w_d w1) (Faults.Note Faults.AdmissionFailed admissionCustodySource false (sf (sk_q k)))))) end.
      etransitivity; [by apply (outSt_frame w1 (withFaults (Faults.Note Faults.AdmissionFailed admissionCustodySource false (sf (sk_q k))) w1))|].
      apply NoteAdmittedDevice_spec. cbn. by rewrite Eq.
    + intros _ c [= <-]. exists artifact. split; [done|]. apply stored_staged in Es. exact Es.
  - split_and!; try done. by rewrite Epub.
Qed.

(** A device's handoff leaves the other devices' lanes alone, and releases a
    hold only of its own device. *)
Lemma Handoff_frame dev kind w :
  let w' := Handoff dev kind w in
  outSt w' = outSt w ∧ retSt w' = retSt w ∧ w_clock w' = w_clock w ∧ w_acks w' = w_acks w ∧
  (∀ key, lk_Device key ≠ dev → w_lanes w' !! key = w_lanes w !! key) ∧
  (held (w_p w') ≠ held (w_p w) → kind = HandoffAdmitted ∧ rp_heldDevice (w_p w) = dev).
Proof.
  cbn. split_and!; try done.
  - intros key Hk. unfold NotifyDevice, notifyLane. rewrite !lookup_insert_ne by (intros <-; done). done.
  - destruct kind; [|done]. intros Hh. split; [done|]. apply dec_stable. intros Hd. apply Hh.
    unfold ReceiverStateChanged. by rewrite decide_False.
Qed.

(** A new entry was not listed before. *)
Lemma enqueueOutbound_new nowMS kind payload s queued new s' :
  enqueueOutbound nowMS kind payload s = (Ok (queued, new), s') →
  is_Some (entries (sq s') !! artifactID kind payload) ∧ (new = true → entries (sq s) !! artifactID kind payload = None) ∧
  (new = false → s' = s).
Proof.
  intros H%enqueueOutbound_found. pose proof (enqueued_listed _ _ _ _ _ _ H) as [_ Hl]. split; [by eapply Hl|].
  apply enqueueOrFind_cases in H as [[-> H]|(Hn & _ & _ & b & _ & E)].
  - destruct (H _ eq_refl) as (r & _ & [= _ E]). by destruct new.
  - split; [done|]. destruct b; [|done]. injection E as _ E. by destruct new.
Qed.

Lemma outbound_held nowMS kind payload s D queued new s' :
  enqueueOutbound nowMS kind payload s = (Ok (queued, new), s') → slen payload ≤ maxArtifactBytes →
  life_inv (s, D) → nowMS ≤ i64_max → nextSeq (sq s) < i64_max →
  life_inv (s', D) ∧ (artifactID kind payload ∉ D → ∃ r, entries (sq s') !! artifactID kind payload = Some r ∧
    queued = recordArtifact r ∧ on_disk (sd s') (artifactID kind payload) r).
Proof.
  intros H%enqueueOutbound_found Hp Hl Hn Hs. unfold maxArtifactBytes in Hp. split.
  - apply (qop_inv (s, D)); [|done]. apply (op_enqueue nowMS kind payload s (Ok (queued, negb new)) s' D); [done|lia|done|exact H].
  - intros HD. destruct (enqueueOrFind_held nowMS kind payload s D queued (negb new) s' Hl Hn ltac:(lia) Hs HD H) as (r & ? & ? & ? & _). by exists r.
Qed.

(** The custody return of an admitted envelope is staged. *)
Definition custody_staged (bytes : string) w : Prop :=
  ∃ custody artifact, CanonicalJSONWithoutAuth Marshal (custodyJSON custody) = Ok artifact ∧
    k_EnvelopeDigest custody = payloadDigest bytes ∧
    is_Some (entries (w_rq w) !! artifactID artifactCustodyAcknowledgement artifact).

(** What the handling of an admissible carriage leaves. *)
Record carried (ty bytes dev : string) (D : gset string) (r : res unit) w w' : Prop := {
  ca_ack : w_acks w' = w_acks w ∨
    (∃ at_, acked dev ty bytes "queued" "" at_ w w' ∧
       (artifactID ty bytes ∉ D → ∃ rec, entries (w_q w') !! artifactID ty bytes = Some rec ∧
          on_disk (w_d w') (artifactID ty bytes) rec ∧ at_ = qr_EnqueuedAtMS rec) ∧
       (r = Ok tt → ty = ArtifactDeliveryEnvelope → is_Some signer → custody_staged bytes w')) ∨
    (∃ at_, acked dev ty bytes "refused" "queue_full" at_ w w' ∧ entries (w_q w') = entries (w_q w));
  ca_lanes : ∀ key, lk_Device key ≠ dev → w_lanes w' !! key = w_lanes w !! key;
  ca_hold : held (w_p w') ≠ held (w_p w) → rp_heldDevice (w_p w) = dev ∧
    entries (w_q w) !! artifactID ty bytes = None ∧ is_Some (entries (w_q w') !! artifactID ty bytes) }.

Lemma Admit_custody nowMS kind payload s a err s' custody :
  Admit MarshalCustody signer nowMS kind payload s = (Some a, err, s') → ad_Custody a = Some custody →
  k_EnvelopeDigest custody = payloadDigest payload.
Proof.
  unfold Admit. destruct (validateArtifactRoutingFields _ _ _); [|done].
  destruct (enqueueOutbound nowMS kind payload s) as [[[queued new]|] s1]; [|done].
  destruct signer; [|by intros [= <- _ _]]. destruct (negb _); [by intros [= <- _ _]|].
  destruct (routingOutbound payload); [|by intros [= <- _ _]].
  destruct (Acknowledge _ _ _ _ _ _) as [[ack signed]|] eqn:Ea; [|by intros [= <- _ _]].
  apply Acknowledge_ok in Ea as (g & body & _ & _ & _ & _ & _ & -> & _). by intros [= <- _ _] [= <-].
Qed.

Lemma admit_carriage_spec tm sendOK dev ty bytes w r w' D :
  admit_carriage tm sendOK dev ty bytes w = (r, w') → dotted (c_name (w_clock w)) → life_inv (outSt w, D) →
  tm_enqueue tm ≤ i64_max → nextSeq (w_q w) < i64_max → carried ty bytes dev D r w w'.
Proof.
  unfold admitCarriage. destruct (Admit _ _ _ _ _ _) as [[adm err] s1] eqn:Ea. intros H Hd Hl Hn Hs. cbv zeta in H.
  pose proof Ea as [(-> & [e ->] & Ee)|(a & queued & new & -> & Eqa & Enew & Hsz & Hen & Herr & Hcu)]%Admit_cases.
  - (* refused or failed: nothing was queued *)
    change (ad_New (default zeroAdmission None)) with false in H. cbn iota in H.
    assert (∀ w1 e1, w_acks w1 = w_acks w → w_lanes w1 = w_lanes w → w_p w1 = w_p w → carried ty bytes dev D (Err e1) w w1) as Hsame.
    { intros w1 e1 E1 E2 E3. split; [by left|by rewrite E2|by rewrite E3]. }
    destruct e; try (injection H as <- <-; by apply Hsame).
    destruct (Handoff_frame dev HandoffQueueFull (withOut s1 w)) as (F1 & F2 & F3 & F4 & F5 & F6).
    set (wf := Handoff dev HandoffQueueFull (withOut s1 w)) in *. clearbody wf. cbn in F2, F3, F4, F5, F6.
    pose proof (f_equal sq F1) as Eq. cbn in Eq.
    apply publish_spec in H as (Eq' & _ & _ & El & Ep & _ & _ & Hack); [|by rewrite F3].
    split; [|by rewrite El|rewrite Ep; intros [? _]%F6; done].
    destruct Hack as [[E _]|(topic & at_ & enc & _ & H1 & H2 & H3)]; [left; congruence|].
    right; right. exists (tm_now tm). split; [exists topic, at_, enc; split_and!; [done|done|congruence]|].
    rewrite Eq', Eq. exact Ee.
  - (* queued *)
    destruct (enqueueOutbound_new _ _ _ _ _ _ _ Hen) as (Hin & Hnew & Hold).
    destruct (outbound_held _ _ _ _ D _ _ _ Hen Hsz Hl Hn Hs) as [Hl1 Hdur].
    change (default zeroAdmission (Some a)) with a in H. rewrite Enew in H.
    set (w2 := if new then Handoff dev HandoffAdmitted (withOut s1 w) else withOut s1 w) in *.
    assert (outSt w2 = s1 ∧ w_clock w2 = w_clock w ∧ w_acks w2 = w_acks w ∧
      (∀ key, lk_Device key ≠ dev → w_lanes w2 !! key = w_lanes w !! key) ∧
      (held (w_p w2) ≠ held (w_p w) → new = true ∧ rp_heldDevice (w_p w) = dev)) as (F1 & F3 & F4 & F5 & F6).
    { unfold w2. destruct new.
      - destruct (Handoff_frame dev HandoffAdmitted (withOut s1 w)) as (F1 & _ & F3 & F4 & F5 & F6).
        split_and!; [rewrite F1; by destruct s1|done|done|done|]. by intros [_ ?]%F6.
      - split_and!; [by destruct s1|done..]. }
    clearbody w2. pose proof (f_equal sq F1) as Eq2. cbn in Eq2.
    assert (∀ e w1, outSt w1 = MkSt (w_q w2) (w_d w2) (w_f w1) → w_acks w1 = w_acks w2 → w_lanes w1 = w_lanes w2 → w_p w1 = w_p w2 →
      carried ty bytes dev D (Err e) w w1) as Hfail.
    { intros e w1 E0 E1 E2 E3. apply (f_equal sq) in E0. cbn in E0. split; [left; congruence|by rewrite E2|].
      rewrite E3. intros [-> ?]%F6. split_and!; [done|by apply Hnew|]. by rewrite E0, Eq2. }
    destruct err as [e|].
    { destruct (Herr _ eq_refl) as [He1 He2]. destruct e; try done; try (injection H as <- <-; by apply Hfail). by destruct (He2 limit). }
    pose proof H as (Hrs & El & Eh & Hack & Hc)%complete_spec; [|by rewrite F3|by rewrite Eq2; apply Hl1].
    destruct Hrs as [Een Hfiles]. cbn in Een. rewrite Eq2 in Een. split; [|by rewrite El|].
    + destruct Hack as [E|(topic & at_ & enc & H1 & H2 & H3)]; [left; congruence|]. right; left.
      exists (qa_EnqueuedAtMS (ad_Queued a)). split_and!; [exists topic, at_, enc; split_and!; [done|done|congruence]| |].
      * intros (rec & Hr & Hq & Hdisk)%Hdur. exists rec. rewrite Een. split_and!; [done| |by rewrite Eqa, Hq].
        eapply on_disk_same; [apply Hfiles; eapply entry_not_dotted; [apply Hl1|exact Hr]|]. cbn. rewrite <-F1 in Hdisk. exact Hdisk.
      * intros -> Ht Hsg. destruct (Hcu Ht eq_refl Hsg) as [custody Hcust]. destruct (Hc eq_refl _ Hcust) as (artifact & ? & ?).
        exists custody, artifact. split_and!; [done| |done]. by eapply Admit_custody.
    + rewrite Eh. intros [-> ?]%F6. split_and!; [done|by apply Hnew|]. by rewrite Een.
Qed.

Lemma refusalOf_none domain dev carriage bytes :
  refusalOf domain dev carriage bytes = None → routingDeviceID bytes = Some dev.
Proof.
  unfold refusalOf. destruct (negb _); [done|]. destruct (routingDeviceID bytes) as [d|]; [|done]. destruct (bool_decide _); [done|].
  destruct (bool_decide_reflect (d = dev)) as [->|]; [done|]. done.
Qed.


(** C10: A carriage wakes only its own device: the delivery lanes of every other
    device are as they were, and a hold on the way back is released only when
    the carriage brought an artifact of the held device that was not queued
    before. *)
Theorem carriage_wakes_own_device tm sendOK topic payload w r w' D dev :
  handle tm sendOK topic payload w = (r, w') → dotted (c_name (w_clock w)) → life_inv (outSt w, D) →
  tm_enqueue tm ≤ i64_max → nextSeq (w_q w) < i64_max → EvidenceOutboundTopic dev = Ok topic →
  (∀ key, lk_Device key ≠ dev → w_lanes w' !! key = w_lanes w !! key) ∧
  (held (w_p w') ≠ held (w_p w) → rp_heldDevice (w_p w) = dev ∧
     ∃ id, entries (w_q w) !! id = None ∧ is_Some (entries (w_q w') !! id)).
Proof.
  intros H Hd Hl Hn Hs Ht. apply (deviceFrom_iff _ ["evidence"; "outbound"] "invalid evidence outbound topic" _ _ eq_refl eq_refl) in Ht.
  change (DeviceIDFromEvidenceOutboundTopic topic = Ok dev) in Ht. unfold Handle in H. rewrite Ht in H.
  destruct (negb _); [injection H as <- <-; by split|].
  destruct (readCarriage payload) as [[carriage bytes]|]; [|injection H as <- <-; by split].
  destruct (refusalOf _ dev carriage bytes) as [reason|].
  - apply publish_spec in H as (_ & _ & _ & -> & -> & _); [by split|done].
  - apply (admit_carriage_spec _ _ _ _ _ _ _ _ D) in H as [_ Hl' Hh]; [|done..]. split; [done|].
    intros (? & ? & ?)%Hh. split; [done|]. eauto.
Qed.

(** The fault of an unconfigured device outlives the failing of its record. *)
Lemma noteStore_keeps {A} (x : res A) s src :
  Faults.holds (sf s) Faults.DeviceUnconfigured src → Faults.holds (sf (noteStore x s)) Faults.DeviceUnconfigured src.
Proof.
  intros H. unfold noteStore. destruct (is_ok x); [done|]. unfold note. cbn [sf]. apply Faults.holds_Note. case_decide as E; [|done].
  by destruct E as [E _].
Qed.

Lemma onDir_keeps {A} (m : EM dirst A) s : sf (onDir m s).2 = sf s.
Proof. unfold onDir. by destruct (m (sd s)). Qed.

Lemma writeUnconfigured_keeps s src :
  Faults.holds (sf s) Faults.DeviceUnconfigured src → Faults.holds (sf (writeUnconfiguredLocked s).2) Faults.DeviceUnconfigured src.
Proof.
  intros H. unfold writeUnconfiguredLocked. cbv zeta. destruct (_ && _).
  - destruct (onDir _ s) as [[]s1] eqn:E; apply (f_equal (sf ∘ snd)) in E; cbn [compose snd] in E; rewrite onDir_keeps in E.
    + destruct (onDir _ s1) as [r2 s2] eqn:E2; apply (f_equal (sf ∘ snd)) in E2; cbn [compose snd] in E2; rewrite onDir_keeps in E2.
      cbn [snd]. apply noteStore_keeps. congruence.
    + cbn [snd]. apply noteStore_keeps. congruence.
  - unfold writeFileAtomic. destruct (onDir _ s) as [r1 s1] eqn:E; apply (f_equal (sf ∘ snd)) in E; cbn [compose snd] in E; rewrite onDir_keeps in E.
    cbn [snd]. apply noteStore_keeps. congruence.
Qed.

Lemma NoteUnconfigured_raises dev s :
  Faults.holds (sf (NoteUnconfiguredDevice dev s).2) Faults.DeviceUnconfigured devicesFaultSource.
Proof.
  assert (Faults.holds (sf (note Faults.DeviceUnconfigured devicesFaultSource true s)) Faults.DeviceUnconfigured devicesFaultSource) as H.
  { unfold note. cbn [sf]. apply Faults.holds_Note. by rewrite decide_True. }
  unfold NoteUnconfiguredDevice. cbv zeta. case_decide; [done|].
  destruct (_ || _); [case_match; [done|]|]; by apply writeUnconfigured_keeps.
Qed.

(** A carriage for a device that is not configured is inert: the handler
    reports it and raises device_unconfigured, and neither queue, no lane, no
    hold and no acknowledgement changes. *)
Theorem unconfigured_carriage_inert tm sendOK topic payload w r w' dev :
  handle tm sendOK topic payload w = (r, w') → EvidenceOutboundTopic dev = Ok topic → qinv (w_q w) →
  Configured (w_q w) dev = false →
  r = Err ErrUnconfiguredDevice ∧ w_acks w' = w_acks w ∧ w_lanes w' = w_lanes w ∧ w_p w' = w_p w ∧
  records_same (outSt w) (outSt w') ∧ w_rq w' = w_rq w ∧ w_rd w' = w_rd w ∧
  Faults.holds (w_f w') Faults.DeviceUnconfigured devicesFaultSource.
Proof.
  intros H Ht Hq Hc. apply (deviceFrom_iff _ ["evidence"; "outbound"] "invalid evidence outbound topic" _ _ eq_refl eq_refl) in Ht.
  change (DeviceIDFromEvidenceOutboundTopic topic = Ok dev) in Ht. unfold Handle in H. rewrite Ht, Hc in H. cbn [negb] in H.
  destruct (NoteUnconfiguredDevice dev (outSt w)) as [x s1] eqn:E. injection H as <- <-. cbn [snd].
  split_and!; try done.
  - apply NoteUnconfiguredDevice_spec in E as [_ ?]; [|done]. by destruct s1.
  - change s1 with (x, s1).2. rewrite <-E. apply NoteUnconfigured_raises.
Qed.
End Frames.

(** ** A carriage to run *)
Definition exWorld : world := MkWorld (sq ex0) (sd ex0) exClock (sq ex0) (sd ex0) (sf ex0) ∅ newPublisher [].
Definition exCarriage : string :=
  print (JObj [("device_id", jstr "a"); ("artifact_type", jstr ArtifactDeliveryEnvelope); ("artifact_b64", jstr (b64Encode exA))]).
Definition exCustody (_ : gmap string canon) : res string := Ok "{}".
Definition exTimes : times := MkTimes 1000 1000 1000 1000.
Definition exOutTopic : string := "ori/a/evidence/outbound".
Abbreviation exHandle := (Handle MqttAuthSpec.exStrict exWire MqttAuthSpec.exMarshal exCustody "k" (Some (MkSigner "k" "secret")) exTimes true exOutTopic).
Definition exCarried : world := (exHandle exCarriage exWorld).2.

Lemma exCarried_ok : exHandle exCarriage exWorld = (Ok tt, exCarried).
Proof. unfold exCarried. apply run_ok. vm_compute. reflexivity. Qed.

Lemma qst_eta (s : qst) : MkSt (sq s) (sd s) (sf s) = s.
Proof. by destruct s. Qed.

Lemma exWorld_life p : life_inv (outSt (withHandoff ∅ p exWorld), ∅).
Proof. unfold outSt, exWorld, withHandoff. cbn [w_q w_d w_f]. rewrite qst_eta. exact ex0_life. Qed.

Lemma exClock_dotted : dotted (c_name exClock).
Proof. by eexists. Qed.


(** The return publisher holds an artifact of the device the carriage is from. *)
Definition exHolding : world :=
  withHandoff (w_lanes exWorld) (markHeld "h" "a" newPublisher) exWorld.
Definition exReleased : world := (exHandle exCarriage exHolding).2.

Lemma exReleased_run : exHandle exCarriage exHolding = (Ok tt, exReleased).
Proof. unfold exReleased. apply run_ok. vm_compute. reflexivity. Qed.

Lemma carriage_wakes_own_device_witness :
  held (w_p exReleased) = ("", "") ∧ ∃ id, entries (w_q exHolding) !! id = None ∧ is_Some (entries (w_q exReleased) !! id).
Proof.
  assert (held (w_p exReleased) = ("", "")) as Hh by (vm_compute; reflexivity). split; [exact Hh|].
  apply (carriage_wakes_own_device MqttAuthSpec.exStrict exWire MqttAuthSpec.exMarshal exCustody "k" (Some (MkSigner "k" "secret"))
    exTimes true exOutTopic exCarriage exHolding (Ok tt) exReleased ∅ "a").
  - exact exReleased_run.
  - exact exClock_dotted.
  - exact (exWorld_life _).
  - vm_compute. discriminate.
  - vm_compute. reflexivity.
  - vm_compute. reflexivity.
  - rewrite Hh. vm_compute. discriminate.
Defined.

(** A queue configured for another device. *)
Definition exOthers : QueueOptions := MkOptions "queue" 64 100000000 ["b"] true ["b"] "outbound".
Definition exOtherConfig : qconfig := match buildConfig exOthers with Ok c => c | Err _ => MkConfig 0 0 false ∅ None 0 0 "" end.
Definition exForeign : world :=
  MkWorld (emptyQueue exOtherConfig) (sd ex0) exClock (sq ex0) (sd ex0) (sf ex0) ∅ newPublisher [].
Definition exRefused : world := (exHandle exCarriage exForeign).2.

Lemma unconfigured_carriage_inert_witness :
  w_acks exRefused = [] ∧ Faults.holds (w_f exRefused) Faults.DeviceUnconfigured devicesFaultSource.
Proof.
  destruct (unconfigured_carriage_inert MqttAuthSpec.exStrict exWire MqttAuthSpec.exMarshal exCustody "k" (Some (MkSigner "k" "secret"))
    exTimes true exOutTopic exCarriage exForeign (exHandle exCarriage exForeign).1 exRefused "a") as (_ & H1 & _ & _ & _ & _ & _ & H2).
  - apply surjective_pairing.
  - vm_compute. reflexivity.
  - apply qinv_empty. apply (buildConfig_ok exOthers); [vm_compute; reflexivity|vm_compute; reflexivity|vm_compute; discriminate].
  - vm_compute. reflexivity.
  - split; [exact H1|exact H2].
Defined.
End IngressSpec.
