(* ===== verification/Channel.v ===== *)
(** * The channel to the evidence authority (channel.go)

    One delivery is one authenticated HTTPS request and the reading of its
    response. What the network does is an input: no response, or a status, the
    media type of its Content-Type, its Retry-After header and a body. The
    result is the answer the delivery worker acts on. *)
From S2P Require Import Prelude GoBytes Sha256 Json Routing Refusal Faults Store Queue Custody Courier Worker.
Import Routing Queue Custody Courier Worker.

Module Channel.

Definition ingestPath : string := "/v1/evidence/artifacts".
Definition ingestDomain : string := "ori.evidence_ingest_request.v1".
Definition ingestKeyIDSalt : string := "ori.evidence_ingest_key_id.v1".
Definition ingestKeyIDInfo : string := "evidence_ingest".
Definition ingestKeyIDPrefix : string := "hkdf-sha256:".
Definition maxResponseBytes : Z := 2 ^ 20.

(** ** The channel *)
Definition DeriveIngestKeyID (secret : string) : res string :=
  if (slen secret <? 32) || negb (bool_decide (TrimSpace secret = secret)) then
    Err (EMsg "evidence: ingest secret must be exact UTF-8 with at least 32 bytes")
  else Ok (ingestKeyIDPrefix +:+
           hexEncode (hkdf256 (bytes_of secret) (bytes_of ingestKeyIDSalt) (bytes_of ingestKeyIDInfo) 16)).

Fixpoint allPrintable (s : string) : bool :=
  match s with EmptyString => true | String c s' => in_rng 32 126 (bv c) && allPrintable s' end.

Definition validIngestClientID (value : string) : bool :=
  if (slen value <? 1) || (128 <? slen value) then false else allPrintable value.

(** A parsed endpoint. *)
Record URL := MkURL { u_Scheme : string; u_Host : string; u_Path : string; u_RawQuery : string; u_User : bool }.

Record HTTPChannel := MkChannel { ch_endpoint : URL; ch_clientID : string; ch_keyID : string; ch_secret : string }.

(** [NewHTTPChannel]; [endpoint] is what [url.Parse] reads of the configured
    one, [hasClient] and [hasCAs] whether the options name a client or CAs. *)
Definition NewHTTPChannel (endpoint : option URL) (clientID secret : string) (hasClient hasCAs : bool) : res HTTPChannel :=
  match endpoint with
  | None => Err (EMsg "evidence: channel endpoint must be an exact HTTPS ingest URL")
  | Some u =>
    if negb (bool_decide (u_Scheme u = "https")) || bool_decide (u_Host u = "") || negb (bool_decide (u_Path u = ingestPath)) ||
       negb (bool_decide (u_RawQuery u = "")) || u_User u then
      Err (EMsg "evidence: channel endpoint must be an exact HTTPS ingest URL")
    else if negb (validIngestClientID clientID) then
      Err (EMsg "evidence: ingest client id must be 1-128 printable ASCII characters")
    else match DeriveIngestKeyID secret with
    | Err e => Err e
    | Ok keyID =>
      if hasClient && hasCAs then Err (EMsg "evidence: a channel takes either an HTTP client or authority CAs, not both")
      else Ok (MkChannel u clientID keyID secret)
    end
  end.

(** ** The request *)
Definition ingestMembers (clientID keyID kind artifactDigest : string) (sentAtMS : Z) (nonce : string) : gmap string canon :=
  list_to_map [("artifact_digest", CString artifactDigest); ("artifact_type", CString kind); ("client_id", CString clientID);
    ("key_id", CString keyID); ("method", CString "POST"); ("nonce", CString nonce); ("path", CString ingestPath);
    ("sent_at_ms", CNumber (FormatInt sentAtMS))].

(** The headers that authenticate a request, and its body. *)
Record request := MkRequest {
  rq_Client : string; rq_KeyID : string; rq_SentAtMS : string; rq_Nonce : string;
  rq_ArtifactType : string; rq_ArtifactDigest : string; rq_Authorization : string; rq_Body : string }.

(** ** The response *)
Record response := MkResponse { rs_Status : Z; rs_MediaType : option string; rs_RetryAfter : string; rs_Body : option string }.

Record channelAuthorityArtifact := MkChannelArtifact { ca_ArtifactType : string; ca_ArtifactB64 : string }.

Definition channelArtifactNames : list string := ["artifact_type"; "artifact_b64"].

Definition setChannelArtifact (n : string) (v : json) (r : channelAuthorityArtifact) : channelAuthorityArtifact * bool :=
  if decide (n = "artifact_type") then let '(s, ok) := setStr v (ca_ArtifactType r) in (MkChannelArtifact s (ca_ArtifactB64 r), ok)
  else let '(s, ok) := setStr v (ca_ArtifactB64 r) in (MkChannelArtifact (ca_ArtifactType r) s, ok).

(** [UnmarshalJSON] of one returned artifact. *)
Definition unmarshalChannelArtifact (v : json) : option channelAuthorityArtifact :=
  match v with
  | JObj l =>
    if unambiguous channelArtifactNames ∅ l then
      let '(r, ok) := decodeMembers channelArtifactNames true setChannelArtifact l (MkChannelArtifact "" "") true in
      if ok then Some r else None
    else None
  | _ => None
  end.

Record channelResponse := MkWire {
  cw_V : Z; cw_ArtifactDigest : string; cw_Outcome : string; cw_Reason : string; cw_Retriable : bool;
  cw_AuthorityArtifacts : list channelAuthorityArtifact }.

Definition channelResponseNames : list string :=
  ["v"; "artifact_digest"; "outcome"; "reason"; "retriable"; "authority_artifacts"].

Definition setChannelArtifacts (v : json) (old : list channelAuthorityArtifact) : list channelAuthorityArtifact * bool :=
  match v with
  | JArr l => match mapM unmarshalChannelArtifact l with Some r => (r, true) | None => (old, false) end
  | JNull => ([], true)
  | _ => (old, false)
  end.

Definition setWire (n : string) (v : json) (r : channelResponse) : channelResponse * bool :=
  let '(MkWire ver dg oc re rt aa) := r in
  if decide (n = "v") then let '(z, ok) := setInt v ver in (MkWire z dg oc re rt aa, ok)
  else if decide (n = "artifact_digest") then let '(s, ok) := setStr v dg in (MkWire ver s oc re rt aa, ok)
  else if decide (n = "outcome") then let '(s, ok) := setStr v oc in (MkWire ver dg s re rt aa, ok)
  else if decide (n = "reason") then let '(s, ok) := setStr v re in (MkWire ver dg oc s rt aa, ok)
  else if decide (n = "retriable") then let '(b, ok) := setBool v rt in (MkWire ver dg oc re b aa, ok)
  else let '(l, ok) := setChannelArtifacts v aa in (MkWire ver dg oc re rt l, ok).

Definition decodeWire (body : string) : option channelResponse :=
  if refuseAmbiguousMembers channelResponseNames body then
    decodeStruct channelResponseNames true setWire (MkWire 0 "" "" "" false []) body
  else None.

(** [parseRetryAfter]: whole seconds of 31 bits, as a duration. *)
Definition parseRetryAfter (value : string) : option Z :=
  let digits := TrimSpace value in
  if bool_decide (digits = "") then None
  else match readDigits digits 0 with
  | Some seconds => if (seconds =? 0) || (2 ^ 31 <=? seconds) then None else Some (seconds * Second)
  | None => None
  end.

Definition unrecognisedOutcome : outcome := Unanswered true.
Definition unavailable : outcome := Unanswered false.

(** The wire response is well formed for its status. *)
Definition digestBound (status : Z) (wire : channelResponse) (artifactDigest : string) (mayOmit : Z) : bool :=
  bool_decide (cw_ArtifactDigest wire = artifactDigest) || ((status =? mayOmit) && bool_decide (cw_ArtifactDigest wire = "")).

Definition refusedDeliveryResult (resp : response) (wire : channelResponse) (artifactDigest : string) : outcome :=
  let status := rs_Status resp in
  let recorded := Refusal.RecordedReason status (cw_Reason wire) in
  let noArtifacts := bool_decide (cw_AuthorityArtifacts wire = []) in
  let result retryAfter :=
    let class := Refusal.Policy status (cw_Reason wire) in
    Answered (MkResult false (bool_decide (class = Refusal.Backoff)) retryAfter (bool_decide (class = Refusal.Handoff)) status recorded []) in
  if bool_decide (status ∈ [400; 403; 409; 422]) then
    if negb (bool_decide (cw_Outcome wire = "refused")) || negb (digestBound status wire artifactDigest 400) || negb noArtifacts
    then unrecognisedOutcome else result 0
  else if status =? 401 then
    if negb (bool_decide (cw_Outcome wire = "refused")) || negb (bool_decide (cw_ArtifactDigest wire = "")) || negb noArtifacts
    then unrecognisedOutcome else result 0
  else if bool_decide (status ∈ [429; 503]) then
    if negb (bool_decide (cw_Outcome wire = "pending")) || negb (digestBound status wire artifactDigest 503) || negb noArtifacts
    then unrecognisedOutcome
    else if status =? 429 then
      match parseRetryAfter (rs_RetryAfter resp) with
      | None => if bool_decide (recorded ∈ ["rate_limited"; "pending_registration_limit"]) then unrecognisedOutcome else result 0
      | Some retryAfter => result retryAfter
      end
    else result 0
  else unrecognisedOutcome.

(** The artifacts of an acceptance, decoded in order. *)
Fixpoint returnedArtifacts (l : list channelAuthorityArtifact) : option (list AuthorityArtifact) :=
  match l with
  | [] => Some []
  | returned :: l' =>
    if negb (validAuthorityArtifactType (ca_ArtifactType returned)) then None
    else match b64Decode true (ca_ArtifactB64 returned) with
    | None => None
    | Some payload =>
      if bool_decide (payload = "") then None
      else match returnedArtifacts l' with
      | Some r => Some (MkAuthority (ca_ArtifactType returned) "" payload :: r)
      | None => None
      end
    end
  end.

(** What the response says of the artifact with digest [artifactDigest]. *)
Definition readResponse (resp : response) (artifactDigest : string) : outcome :=
  match rs_Body resp with
  | None => unavailable
  | Some body =>
    if maxResponseBytes <? slen body then unrecognisedOutcome
    else if negb (bool_decide (rs_MediaType resp = Some "application/json")) then unrecognisedOutcome
    else match decodeWire body with
    | None => unrecognisedOutcome
    | Some wire =>
      if negb (cw_V wire =? 1) then unrecognisedOutcome
      else if negb (rs_Status resp =? 200) then refusedDeliveryResult resp wire artifactDigest
      else if negb (bool_decide (cw_Outcome wire = "accepted")) || negb (bool_decide (cw_Reason wire = "")) || cw_Retriable wire ||
              negb (bool_decide (cw_ArtifactDigest wire = artifactDigest)) then unrecognisedOutcome
      else match returnedArtifacts (cw_AuthorityArtifacts wire) with
      | None => unrecognisedOutcome
      | Some artifacts => Answered (MkResult true false 0 false 0 "" artifacts)
      end
    end
  end.

Section Deliver.
(** [canonicaljson.Marshal] of a map from member names to values. *)
Context (Marshal : gmap string canon → res string).

Definition ingestPreimage (clientID keyID kind artifactDigest : string) (sentAtMS : Z) (nonce : string) : res string :=
  match Marshal (ingestMembers clientID keyID kind artifactDigest sentAtMS nonce) with
  | Err e => Err e
  | Ok canonical => Ok (ingestDomain +:+ String (bc 0) canonical)
  end.

(** The request for [artifact]; [nonce] is what the generator returned. *)
Definition ingestRequest (c : HTTPChannel) (artifact : QueuedArtifact) (nonceBytes : option string) (sentAtMS : Z) : res request :=
  let artifactDigest := payloadDigest (qa_Payload artifact) in
  match nonceBytes with
  | None => Err (EMsg "evidence: generate ingest nonce")
  | Some bytes =>
    if (sentAtMS <=? 0) || (MaxSafeInteger <? sentAtMS) then Err (EMsg "evidence: ingest clock is outside the D-011 integer zone")
    else
      let nonce := hexEncode (bytes_of bytes) in
      match ingestPreimage (ch_clientID c) (ch_keyID c) (qa_Type artifact) artifactDigest sentAtMS nonce with
      | Err e => Err e
      | Ok preimage =>
        Ok (MkRequest (ch_clientID c) (ch_keyID c) (FormatInt sentAtMS) nonce (qa_Type artifact) artifactDigest
              ("Ori-Evidence-HMAC hmac-sha256:" +:+ hexEncode (hmac256 (bytes_of (ch_secret c)) (bytes_of preimage))) (qa_Payload artifact))
      end
  end.

(** [Deliver]; [network] answers the request or fails. *)
Definition Deliver (c : HTTPChannel) (artifact : QueuedArtifact) (nonceBytes : option string) (sentAtMS : Z)
    (network : request → option response) : outcome :=
  match ingestRequest c artifact nonceBytes sentAtMS with
  | Err _ => unavailable
  | Ok req =>
    match network req with
    | None => unavailable
    | Some resp => readResponse resp (payloadDigest (qa_Payload artifact))
    end
  end.
End Deliver.

(** ** What an answer means *)

(** The artifacts handed on are the ones the response carried. *)
Definition carries (a : AuthorityArtifact) (w : channelAuthorityArtifact) : Prop :=
  aa_Type a = ca_ArtifactType w ∧ validAuthorityArtifactType (aa_Type a) = true ∧
  b64Decode true (ca_ArtifactB64 w) = Some (aa_Payload a) ∧ aa_Payload a ≠ "".

Lemma returnedArtifacts_carries l artifacts : returnedArtifacts l = Some artifacts → Forall2 carries artifacts l.
Proof.
  revert artifacts. induction l as [|w l IH]; intros artifacts; cbn [returnedArtifacts]; [intros [= <-]; constructor|].
  destruct (validAuthorityArtifactType (ca_ArtifactType w)) eqn:Ev; [|done]. cbn [negb].
  destruct (b64Decode true (ca_ArtifactB64 w)) as [payload|] eqn:Eb; [|done]. case_bool_decide as Hne; [done|].
  destruct (returnedArtifacts l) as [r|]; [|done]. intros [= <-]. constructor; [by split_and!|by apply IH].
Qed.

Lemma parseRetryAfter_range v d : parseRetryAfter v = Some d → Second ≤ d ≤ maxRetryAfterMS * Millisecond.
Proof.
  unfold parseRetryAfter. case_bool_decide; [done|]. destruct (readDigits (TrimSpace v) 0) as [n|] eqn:E; [|done].
  assert (0 ≤ n) as Hn.
  { revert E. generalize (TrimSpace v) as t. assert (∀ t a, 0 ≤ a → readDigits t a = Some n → 0 ≤ n) as Hr; [|intros t; by apply Hr].
    intros t. induction t as [|ch t IH]; intros a Ha; cbn [readDigits]; [by intros [= <-]|].
    destruct (in_rng 48 57 (bv ch)) eqn:Eb; [|done]. apply IH. unfold in_rng in Eb. lia. }
  destruct (Z.eqb_spec n 0), (Z.leb_spec (2 ^ 31) n); cbn [orb]; try done. intros [= <-].
  unfold maxRetryAfterMS, Second, Millisecond. lia.
Qed.

(** A refusal as the policy table classes it. *)
Record refused_by_policy (resp : response) (wire : channelResponse) (artifactDigest : string) (r : DeliveryResult) : Prop := {
  rf_accepted : dr_Accepted r = false;
  rf_status : rs_Status resp ∈ Refusal.tableStatuses;
  rf_digest : cw_ArtifactDigest wire = artifactDigest ∨ cw_ArtifactDigest wire = "" ∧ rs_Status resp ∈ [400; 401; 503];
  rf_empty : cw_AuthorityArtifacts wire = [] ∧ dr_AuthorityArtifacts r = [];
  rf_recorded : dr_RefusalStatus r = rs_Status resp ∧ dr_RefusalReason r = Refusal.RecordedReason (rs_Status resp) (cw_Reason wire);
  rf_backoff : dr_Retriable r = true ↔ Refusal.Policy (rs_Status resp) (cw_Reason wire) = Refusal.Backoff;
  rf_handoff : dr_ReceiverState r = true ↔ Refusal.Policy (rs_Status resp) (cw_Reason wire) = Refusal.Handoff;
  rf_retry : 0 ≤ dr_RetryAfter r ≤ maxRetryAfterMS * Millisecond ∧
    (dr_RefusalReason r ∈ ["rate_limited"; "pending_registration_limit"] → Second ≤ dr_RetryAfter r) }.

Lemma digestBound_true status wire dg n :
  digestBound status wire dg n = true → cw_ArtifactDigest wire = dg ∨ cw_ArtifactDigest wire = "" ∧ status = n.
Proof.
  unfold digestBound. destruct (bool_decide_reflect (cw_ArtifactDigest wire = dg)); [by left|]. cbn [orb].
  destruct (Z.eqb_spec status n); [|done]. destruct (bool_decide_reflect (cw_ArtifactDigest wire = "")); [by right|done].
Qed.

(** Only a 429 may record a rate limit. *)
Lemma rate_limit_status status reason :
  status ∈ Refusal.tableStatuses → status ≠ 429 → Refusal.RecordedReason status reason ∉ ["rate_limited"; "pending_registration_limit"].
Proof.
  unfold Refusal.tableStatuses. intros Hs Hne. unfold Refusal.RecordedReason, Refusal.admits.
  assert (status = 400 ∨ status = 401 ∨ status = 403 ∨ status = 409 ∨ status = 422 ∨ status = 503) as H by set_solver.
  assert (Refusal.Unrecognised ∉ ["rate_limited"; "pending_registration_limit"]) by (vm_compute; set_solver).
  destruct H as [->|[->|[->|[->|[->| ->]]]]]; cbn [Z.eqb];
    (match goal with |- context [bool_decide (?e ∈ ?l)] => destruct (bool_decide_reflect (e ∈ l)) as [Hin|]; [|done] end);
    cbn in Hin; unfold Refusal.byteRefusalReasons, Refusal.receiverStateRefusalReasons, Refusal.PendingRegistrationConflict in Hin; set_solver.
Qed.

Lemma refusedDeliveryResult_policy resp wire dg r :
  refusedDeliveryResult resp wire dg = Answered r → refused_by_policy resp wire dg r.
Proof.
  unfold refusedDeliveryResult. cbv zeta. set (status := rs_Status resp). set (rec := Refusal.RecordedReason status (cw_Reason wire)).
  set (class := Refusal.Policy status (cw_Reason wire)).
  assert (∀ ra, status ∈ Refusal.tableStatuses → (cw_ArtifactDigest wire = dg ∨ cw_ArtifactDigest wire = "" ∧ status ∈ [400; 401; 503]) →
    cw_AuthorityArtifacts wire = [] → 0 ≤ ra ≤ maxRetryAfterMS * Millisecond →
    (rec ∈ ["rate_limited"; "pending_registration_limit"] → Second ≤ ra) →
    Answered (MkResult false (bool_decide (class = Refusal.Backoff)) ra (bool_decide (class = Refusal.Handoff)) status rec []) = Answered r →
    refused_by_policy resp wire dg r) as Hr.
  { intros ra H1 H2 H3 H4 H5 [= <-]. split; cbn; try done; by rewrite bool_decide_eq_true. }
  assert (0 ≤ 0 ≤ maxRetryAfterMS * Millisecond) as H0 by (unfold maxRetryAfterMS, Millisecond; lia).
  destruct (bool_decide_reflect (status ∈ [400; 403; 409; 422])) as [Hs|_].
  { destruct (bool_decide_reflect (cw_Outcome wire = "refused")); [|done]. destruct (digestBound status wire dg 400) eqn:Ed; [|done].
    destruct (bool_decide_reflect (cw_AuthorityArtifacts wire = [])); [|done]. cbn [negb orb].
    assert (status ∈ Refusal.tableStatuses) by (unfold Refusal.tableStatuses; set_solver).
    apply Hr; try done; [apply digestBound_true in Ed; set_solver|]. intros Hc. exfalso. revert Hc. apply rate_limit_status; [done|].
    intros E. rewrite E in Hs. set_solver. }
  destruct (Z.eqb_spec status 401) as [Hs|_].
  { destruct (bool_decide_reflect (cw_Outcome wire = "refused")); [|done]. destruct (bool_decide_reflect (cw_ArtifactDigest wire = "")); [|done].
    destruct (bool_decide_reflect (cw_AuthorityArtifacts wire = [])); [|done]. cbn [negb orb].
    assert (status ∈ Refusal.tableStatuses) by (unfold Refusal.tableStatuses; rewrite Hs; set_solver).
    apply Hr; try done; [right; rewrite Hs; set_solver|]. intros Hc. exfalso. revert Hc. apply rate_limit_status; [done|]. by rewrite Hs. }
  destruct (bool_decide_reflect (status ∈ [429; 503])) as [Hs|_]; [|done].
  destruct (bool_decide_reflect (cw_Outcome wire = "pending")); [|done]. destruct (digestBound status wire dg 503) eqn:Ed; [|done].
  destruct (bool_decide_reflect (cw_AuthorityArtifacts wire = [])); [|done]. cbn [negb orb].
  assert (status ∈ Refusal.tableStatuses) by (unfold Refusal.tableStatuses; set_solver).
  assert (cw_ArtifactDigest wire = dg ∨ cw_ArtifactDigest wire = "" ∧ status ∈ [400; 401; 503]) by (apply digestBound_true in Ed; set_solver).
  destruct (Z.eqb_spec status 429) as [Es|Es].
  - destruct (parseRetryAfter (rs_RetryAfter resp)) as [ra|] eqn:Er.
    + apply parseRetryAfter_range in Er as [Er1 Er2]. apply Hr; try done. split; [|done]. unfold Second, Millisecond in Er1. lia.
    + destruct (bool_decide_reflect (rec ∈ ["rate_limited"; "pending_registration_limit"])); [done|]. by apply Hr.
  - apply Hr; try done. intros Hc. exfalso. revert Hc. by apply rate_limit_status.
Qed.

(** C11: The worker is told exactly what the authority said. An answer comes from
    a response of at most one mebibyte that is JSON, unambiguous and of version
    1. It reports acceptance only on a 200 that accepts the digest of the very
    bytes that were sent, with the returned artifacts decoded one by one. Every
    other answer is a refusal of a status of the policy table bound to those
    bytes, backed off, handed off or held exactly as the table classes its
    status and reason, and a rate limit carries a Retry-After of at least a
    second. *)
Theorem answers_follow_policy Marshal c artifact nonceBytes sentAtMS network r :
  Deliver Marshal c artifact nonceBytes sentAtMS network = Answered r →
  ∃ req resp body wire,
    ingestRequest Marshal c artifact nonceBytes sentAtMS = Ok req ∧ rq_Body req = qa_Payload artifact ∧
    network req = Some resp ∧ rs_Body resp = Some body ∧ slen body ≤ maxResponseBytes ∧
    rs_MediaType resp = Some "application/json" ∧ decodeWire body = Some wire ∧ cw_V wire = 1 ∧
    (dr_Accepted r = true ∧ rs_Status resp = 200 ∧ cw_Outcome wire = "accepted" ∧
       cw_ArtifactDigest wire = payloadDigest (qa_Payload artifact) ∧
       Forall2 carries (dr_AuthorityArtifacts r) (cw_AuthorityArtifacts wire) ∨
     rs_Status resp ≠ 200 ∧ refused_by_policy resp wire (payloadDigest (qa_Payload artifact)) r).
Proof.
  unfold Deliver. destruct (ingestRequest Marshal c artifact nonceBytes sentAtMS) as [req|] eqn:Eq; [|done].
  assert (rq_Body req = qa_Payload artifact) as Hb.
  { unfold ingestRequest in Eq. destruct nonceBytes; [|done]. destruct (_ || _); [done|]. cbv zeta in Eq.
    destruct (ingestPreimage _ _ _ _ _ _ _); [|done]. by injection Eq as <-. }
  destruct (network req) as [resp|] eqn:En; [|done]. unfold readResponse. destruct (rs_Body resp) as [body|] eqn:Ebo; [|done].
  destruct (Z.ltb_spec maxResponseBytes (slen body)); [done|].
  destruct (bool_decide_reflect (rs_MediaType resp = Some "application/json")); [|done]. cbn [negb].
  destruct (decodeWire body) as [wire|] eqn:Ew; [|done]. destruct (Z.eqb_spec (cw_V wire) 1); [|done]. cbn [negb].
  destruct (Z.eqb_spec (rs_Status resp) 200) as [Es|Es]; cbn [negb].
  - destruct (bool_decide_reflect (cw_Outcome wire = "accepted")); [|done]. destruct (bool_decide (cw_Reason wire = "")); [|done].
    destruct (cw_Retriable wire); [done|]. destruct (bool_decide_reflect (cw_ArtifactDigest wire = payloadDigest (qa_Payload artifact))); [|done].
    cbn [negb orb]. destruct (returnedArtifacts _) as [arts|] eqn:Ea; [|done]. intros [= <-].
    exists req, resp, body, wire. split_and!; try done. left. split_and!; try done. by apply returnedArtifacts_carries.
  - intros Hr%refusedDeliveryResult_policy. exists req, resp, body, wire. split_and!; try done. by right.
Qed.

(** A delivery to run. *)
Definition exCanonical (_ : gmap string canon) : res string := Ok "{}".
Definition exChannel : HTTPChannel := MkChannel (MkURL "https" "authority" ingestPath "" false) "gw" "k" "secret".
Definition exArtifact : QueuedArtifact := MkQueued "id" ArtifactDeliveryEnvelope (dq "{'device_id':'a','local_seq':1}") 1000.
Definition exAnswer (_ : request) : option response :=
  Some (MkResponse 200 (Some "application/json") "" (Some (
    dq "{'v':1,'outcome':'accepted','artifact_digest':'" +:+ payloadDigest (qa_Payload exArtifact) +:+
    dq "','authority_artifacts':[{'artifact_type':'delivery_receipt','artifact_b64':'e30='}]}"))).
Definition exLimited (_ : request) : option response :=
  Some (MkResponse 429 (Some "application/json") "30" (Some (
    dq "{'v':1,'outcome':'pending','reason':'rate_limited','retriable':true,'artifact_digest':'" +:+ payloadDigest (qa_Payload exArtifact) +:+ dq "'}"))).
Abbreviation exDeliver := (Deliver exCanonical exChannel exArtifact (Some "0123456789abcdef") 5000).

Lemma answers_follow_policy_witness :
  (∃ r, exDeliver exAnswer = Answered r ∧ dr_Accepted r = true ∧ length (dr_AuthorityArtifacts r) = 1%nat) ∧
  ∃ r resp, exDeliver exLimited = Answered r ∧ rs_Status resp = 429 ∧ rs_Status resp ∈ Refusal.tableStatuses ∧ dr_RetryAfter r = 30 * Second.
Proof.
  split.
  - eexists. split; [vm_compute; reflexivity|]. split; reflexivity.
  - assert (exDeliver exLimited = Answered (MkResult false true (30 * Second) false 429 "rate_limited" [])) as E by (vm_compute; reflexivity).
    destruct (answers_follow_policy exCanonical exChannel exArtifact (Some "0123456789abcdef") 5000 exLimited _ E)
      as (req & resp & body & wire & _ & _ & _ & _ & _ & _ & _ & _ & [[Ha _]|[_ Hr]]); [discriminate Ha|].
    exists (MkResult false true (30 * Second) false 429 "rate_limited" []), resp.
    destruct Hr as [_ Hs _ _ [Hst _] _ _ _]. split; [exact E|]. split; [symmetry; exact Hst|]. split; [exact Hs|reflexivity].
Defined.
End Channel.
