(* ===== verification/StateClock.v ===== *)
(** * The clock the gateway's envelopes are signed from (mqttauth/signingclock.go)

    Signing times are issued under a lock, in memory; a mark at or above them
    is persisted in the background, about once a second. At most one write is
    outstanding. A value the completed mark does not cover waits for a write,
    unless an episode is open: a write failed, or took too long, and values
    are issued uncovered until a write covers them all again.

    The goroutines become steps: one iteration of [Next] by a caller that is
    new or was woken, the write reaching the disk, its outcome being taken, the
    timers, [Stop], and the death of the process followed by a new start. What
    the clock needs of the persisted mark is an interface. Log records are not
    modelled. *)
From S2P Require Import Prelude GoBytes.

Module StateClock.

Definition SigningCeiling : Z := i64_max - 2001.
Definition signingReservation : Z := 1000.
Definition signingAheadWarning : Z := 5 * 60 * 1000.

(** ** The persisted mark

    [kept v m]: whatever is lost, a restart finds a mark of at least [v]. *)
Class DurableMark (M : Type) := {
  Found : M → option Z;
  Persist : Z → EM M unit;
  kept : Z → M → Prop;
  restarted : M → M → Prop;
  mark_inv : M → Prop;
  kept_le : ∀ v u m, v ≤ u → kept u m → kept v m;
  persist_ok : ∀ mark m u m', mark_inv m → Persist mark m = (Ok u, m') → kept mark m';
  persist_keeps : ∀ mark m r m' v, Persist mark m = (r, m') → v ≤ mark → kept v m → kept v m';
  persist_inv : ∀ mark m r m', Persist mark m = (r, m') → mark_inv m → mark_inv m';
  restart_found : ∀ m m' v, restarted m m' → kept v m → kept v m' ∧ ∃ f, Found m' = Some f ∧ v ≤ f;
  restart_inv : ∀ m m', restarted m m' → mark_inv m' ∧ ∀ f, Found m' = Some f → 0 ≤ f < SigningCeiling }.

(** ** State *)
Record SigningClock := MkStateClock {
  sc_durable : bool; sc_last : Z; sc_covered : Z; sc_written : Z; sc_ahead : bool; sc_closed : bool; sc_episode : bool;
  sc_write : option (Z * option (res unit));   (* the outstanding write, and its outcome once it reached the disk *)
  sc_retry : bool; sc_refused : bool }.

Inductive clockError := ErrSigningClockExhausted | ErrSigningClockClosed | ErrPersist (e : error) | StartWriteError.

(** [NewSigningClock]: a clock of the process only. *)
Definition NewSigningClock : SigningClock := MkStateClock false 0 0 0 false false false None false false.

(** [reservationFor]. *)
Definition reservationFor (wall at_ : Z) : Z := Z.min (Z.max (wrap64 (wall + signingReservation)) at_) (SigningCeiling - 1).

Definition setLast (at_ : Z) (ahead : bool) (c : SigningClock) : SigningClock :=
  MkStateClock (sc_durable c) at_ (sc_covered c) (sc_written c) ahead (sc_closed c) (sc_episode c) (sc_write c) (sc_retry c) (sc_refused c).
Definition setRefused (c : SigningClock) : SigningClock :=
  MkStateClock (sc_durable c) (sc_last c) (sc_covered c) (sc_written c) (sc_ahead c) (sc_closed c) (sc_episode c) (sc_write c) (sc_retry c) true.
Definition setEpisode (b : bool) (c : SigningClock) : SigningClock :=
  MkStateClock (sc_durable c) (sc_last c) (sc_covered c) (sc_written c) (sc_ahead c) (sc_closed c) b (sc_write c) (sc_retry c) (sc_refused c).
Definition setRetry (b : bool) (c : SigningClock) : SigningClock :=
  MkStateClock (sc_durable c) (sc_last c) (sc_covered c) (sc_written c) (sc_ahead c) (sc_closed c) (sc_episode c) (sc_write c) b (sc_refused c).
Definition setWrite (w : option (Z * option (res unit))) (c : SigningClock) : SigningClock :=
  MkStateClock (sc_durable c) (sc_last c) (sc_covered c) (sc_written c) (sc_ahead c) (sc_closed c) (sc_episode c) w (sc_retry c) (sc_refused c).
Definition setCovered (v : Z) (c : SigningClock) : SigningClock :=
  MkStateClock (sc_durable c) (sc_last c) v (sc_written c) (sc_ahead c) (sc_closed c) (sc_episode c) (sc_write c) (sc_retry c) (sc_refused c).

(** ** Writes and episodes *)

(** [startWriteLocked]: never lower than a mark written before. *)
Definition startWriteLocked (mark : Z) (c : SigningClock) : SigningClock :=
  let mark := Z.max mark (sc_written c) in
  MkStateClock (sc_durable c) (sc_last c) (sc_covered c) mark (sc_ahead c) (sc_closed c) (sc_episode c) (Some (mark, None)) (sc_retry c) (sc_refused c).

Definition scheduleRetryLocked (c : SigningClock) : SigningClock :=
  if sc_retry c || sc_closed c || bool_decide (is_Some (sc_write c)) then c else setRetry true c.

Definition openEpisodeLocked (c : SigningClock) : SigningClock :=
  if sc_episode c then c else scheduleRetryLocked (setEpisode true c).

Definition retryWrite (wall : Z) (c0 : SigningClock) : SigningClock :=
  let c := setRetry false c0 in
  if sc_closed c || negb (sc_episode c) || bool_decide (is_Some (sc_write c)) then c
  else startWriteLocked (reservationFor wall (sc_last c)) c.

(** [persist] taking the outcome of the write of [mark]. *)
Definition takeOutcome (mark : Z) (r : res unit) (c0 : SigningClock) : SigningClock :=
  let c := setWrite None c0 in
  let c1 := match r with
            | Err _ => openEpisodeLocked c
            | Ok _ =>
              let c2 := setCovered (Z.max (sc_covered c) mark) c in
              if sc_episode c2 && (sc_last c2 <=? sc_covered c2) then setEpisode false c2 else c2
            end in
  if sc_episode c1 then scheduleRetryLocked c1 else c1.

Definition Stop (c : SigningClock) : SigningClock :=
  MkStateClock (sc_durable c) (sc_last c) (sc_covered c) (sc_written c) (sc_ahead c) true (sc_episode c) (sc_write c) false (sc_refused c).

Definition Degraded (c : SigningClock) : bool := sc_episode c.

(** ** Issuing values *)
Inductive turn := Issued (at_ : Z) | Refused (e : clockError) | Waits.

(** Extending the coverage before it runs out. *)
Definition extend (wall at_ : Z) (c : SigningClock) : SigningClock :=
  if sc_durable c && negb (sc_episode c) && negb (bool_decide (is_Some (sc_write c))) &&
     (wrap64 (sc_covered c - at_) <? signingReservation / 2) && (sc_covered c <? reservationFor wall at_)
  then startWriteLocked (reservationFor wall at_) c else c.

(** One iteration of the loop of [Next], the wall clock reading [wall]. *)
Definition tryNext (wall : Z) (c : SigningClock) : turn * SigningClock :=
  let at_ := Z.max wall (wrap64 (sc_last c + 1)) in
  if SigningCeiling <=? at_ then (Refused ErrSigningClockExhausted, c)
  else if sc_durable c && sc_closed c then (Refused ErrSigningClockClosed, setRefused c)
  else if sc_durable c && (sc_covered c <? at_) && negb (sc_episode c) then
    (Waits, if bool_decide (is_Some (sc_write c)) then c else startWriteLocked (reservationFor wall at_) c)
  else (Issued at_, setLast at_ (signingAheadWarning <? wrap64 (at_ - wall)) (extend wall at_ c)).

Lemma openEpisode_episode c : sc_episode (openEpisodeLocked c) = true.
Proof.
  unfold openEpisodeLocked. destruct (sc_episode c) eqn:E; [done|]. unfold scheduleRetryLocked. by destruct (_ || _ || _).
Qed.


Definition exUsedUp : SigningClock := MkStateClock true 6000 6000 6000 false false false None false false.


Section Durable.
Context {M : Type} `{DM : DurableMark M}.

(** [NewDurableSigningClock], the wall clock reading [wall]; [inTime] is
    whether the first write completed within the write bound. *)
Definition NewDurableSigningClock (wall : Z) (inTime : bool) (m : M) : (clockError + SigningClock) * M :=
  let found := Found m in
  let first := match found with Some f => Z.max wall (wrap64 (f + 1)) | None => wall end in
  let start0 := match found with Some f => Z.max (wrap64 (wall + signingReservation)) f | None => wrap64 (wall + signingReservation) end in
  if SigningCeiling <=? first then (inl ErrSigningClockExhausted, m)
  else
    let start := Z.min start0 (SigningCeiling - 1) in
    let '(r, m') := Persist start m in
    (if negb inTime then inl StartWriteError
     else match r with
     | Err e => inl (ErrPersist e)
     | Ok _ => inr (MkStateClock true (default 0 found) (Z.max (default 0 found) start) start false false false None false false)
     end, m').

(** ** Histories

    The values the running process issued, and those of earlier processes that
    a completed mark covered when they died; newest first. *)
Record conf := MkClockConf { k_clock : option SigningClock; k_mark : M; k_issued : list Z; k_past : list Z; k_waiting : nat }.

Definition answered (t : turn) (c : SigningClock) (k : conf) (waiting : nat) : conf :=
  MkClockConf (Some c) (k_mark k) (match t with Issued at_ => at_ :: k_issued k | _ => k_issued k end) (k_past k) waiting.

Inductive sstep : conf → conf → Prop :=
| s_start wall inTime m1 c m2 k :
    k_clock k = None → restarted (k_mark k) m1 → NewDurableSigningClock wall inTime m1 = (inr c, m2) →
    sstep k (MkClockConf (Some c) m2 [] (k_past k) 0)
| s_start_refused wall inTime m1 e m2 k :
    k_clock k = None → restarted (k_mark k) m1 → NewDurableSigningClock wall inTime m1 = (inl e, m2) →
    sstep k (MkClockConf None m2 [] (k_past k) 0)
| s_call wall c t c' k :
    k_clock k = Some c → tryNext wall c = (t, c') →
    sstep k (answered t c' k (match t with Waits => S (k_waiting k) | _ => k_waiting k end))
| s_woken wall c t c' n k :
    k_clock k = Some c → k_waiting k = S n → tryNext wall c = (t, c') →
    sstep k (answered t c' k (match t with Waits => S n | _ => n end))
| s_disk c mark r m' k :
    k_clock k = Some c → sc_write c = Some (mark, None) → Persist mark (k_mark k) = (r, m') →
    sstep k (MkClockConf (Some (setWrite (Some (mark, Some r)) c)) m' (k_issued k) (k_past k) (k_waiting k))
| s_outcome c mark r k :
    k_clock k = Some c → sc_write c = Some (mark, Some r) →
    sstep k (MkClockConf (Some (takeOutcome mark r c)) (k_mark k) (k_issued k) (k_past k) (k_waiting k))
| s_bound c k :
    k_clock k = Some c → is_Some (sc_write c) ∨ k_waiting k ≠ 0%nat →
    sstep k (MkClockConf (Some (openEpisodeLocked c)) (k_mark k) (k_issued k) (k_past k) (k_waiting k))
| s_retry wall c k :
    k_clock k = Some c → sc_retry c = true →
    sstep k (MkClockConf (Some (retryWrite wall c)) (k_mark k) (k_issued k) (k_past k) (k_waiting k))
| s_stop c k :
    k_clock k = Some c → sstep k (MkClockConf (Some (Stop c)) (k_mark k) (k_issued k) (k_past k) (k_waiting k))
| s_death c k :
    k_clock k = Some c →
    sstep k (MkClockConf None (k_mark k) [] (filter (λ v, v ≤ sc_covered c) (k_issued k) ++ k_past k) 0).

(** ** The invariant *)
Definition later (a b : Z) : Prop := b < a.

Record running (c : SigningClock) (k : conf) : Prop := {
  ru_durable : sc_durable c = true;
  ru_inv : mark_inv (k_mark k);
  ru_covered : 0 < sc_covered c → kept (sc_covered c) (k_mark k) ∧ sc_covered c ≤ sc_written c;
  ru_write : ∀ mark r, sc_write c = Some (mark, r) →
    (0 < sc_covered c → sc_covered c ≤ mark) ∧ mark ≤ sc_written c ∧ (r = Some (Ok tt) → kept mark (k_mark k));
  ru_calm : sc_episode c = false → sc_last c ≤ sc_covered c;
  ru_last : 0 ≤ sc_last c < SigningCeiling;
  ru_order : StronglySorted later (k_issued k ++ k_past k);
  ru_below : Forall (λ v, 0 < v ≤ sc_last c) (k_issued k ++ k_past k);
  ru_past : Forall (λ v, v ≤ sc_covered c) (k_past k) }.

Definition cinv (k : conf) : Prop :=
  match k_clock k with
  | Some c => running c k
  | None => k_issued k = [] ∧ StronglySorted later (k_past k) ∧ Forall (λ v, 0 < v ∧ kept v (k_mark k)) (k_past k)
  end.

(** A step that issues nothing and takes no outcome. *)
Definition steady (c c' : SigningClock) : Prop :=
  sc_durable c' = sc_durable c ∧ sc_last c' = sc_last c ∧ sc_covered c' = sc_covered c ∧ sc_written c ≤ sc_written c' ∧
  (sc_episode c' = false → sc_episode c = false) ∧
  ∀ mark r, sc_write c' = Some (mark, r) → sc_write c = Some (mark, r) ∨ r = None ∧ sc_written c ≤ mark ≤ sc_written c'.

#[global] Instance steady_refl : Reflexive steady.
Proof. intros c. split_and!; try done. by left. Qed.

Lemma steady_trans a b c : steady a b → steady b c → steady a c.
Proof.
  intros (A1 & A2 & A3 & A4 & A5 & A6) (B1 & B2 & B3 & B4 & B5 & B6). split_and!; try congruence; try lia; [auto|].
  intros mark r [Hw|[-> Hw]]%B6; [|right; split; [done|lia]]. destruct (A6 _ _ Hw) as [?|[-> ?]]; [by left|right; split; [done|lia]].
Qed.

Lemma steady_start mark c : steady c (startWriteLocked mark c).
Proof. split_and!; cbn; try done; [lia|]. intros m r [= <- <-]. right. split; [done|lia]. Qed.

Lemma steady_schedule c : steady c (scheduleRetryLocked c).
Proof. unfold scheduleRetryLocked. destruct (_ || _); [reflexivity|]. split_and!; cbn; try done. by left. Qed.

Lemma steady_open c : steady c (openEpisodeLocked c).
Proof.
  unfold openEpisodeLocked. destruct (sc_episode c) eqn:E; [reflexivity|]. eapply steady_trans; [|apply steady_schedule].
  split_and!; cbn; try done. by left.
Qed.

Lemma steady_retry wall c : steady c (retryWrite wall c).
Proof.
  unfold retryWrite. cbv zeta. assert (steady c (setRetry false c)) as Hs by (split_and!; cbn; try done; by left).
  destruct (_ || _ || _); [done|]. eapply steady_trans; [exact Hs|apply steady_start].
Qed.

Lemma steady_extend wall at_ c : steady c (extend wall at_ c).
Proof. unfold extend. destruct (_ && _ && _ && _ && _); [apply steady_start|reflexivity]. Qed.

Lemma running_steady c c' k n :
  running c k → steady c c' → running c' (MkClockConf (Some c') (k_mark k) (k_issued k) (k_past k) n).
Proof.
  intros [D I K W Ca L O B P] (E1 & E2 & E3 & E4 & E5 & E6). split; cbn; rewrite ?E1, ?E2, ?E3; try done; [| |auto].
  - intros Hc. destruct (K Hc). split; [done|lia].
  - intros mark r [Hw|[-> Hw]]%E6; [destruct (W _ _ Hw) as (? & ? & ?); split_and!; [done|lia|done]|].
    split_and!; [|lia|done]. intros Hc. destruct (K Hc). lia.
Qed.

(** One iteration issues a value later than all before it, below the ceiling,
    and, unless an episode is open, one the completed mark covers. *)
Lemma tryNext_cases wall c t c' :
  tryNext wall c = (t, c') → 0 ≤ sc_last c < SigningCeiling → sc_durable c = true →
  (∀ at_, t ≠ Issued at_) ∧ steady c c' ∨
  ∃ at_ ahead c1, t = Issued at_ ∧ sc_last c < at_ < SigningCeiling ∧ wall ≤ at_ ∧
    (sc_episode c = false → at_ ≤ sc_covered c) ∧ steady c c1 ∧ sc_episode c1 = sc_episode c ∧ c' = setLast at_ ahead c1.
Proof.
  unfold tryNext. intros H Hl Hd. cbv zeta in H. rewrite Hd in H. cbn [andb] in H. unfold SigningCeiling, i64_max in Hl.
  rewrite wrap64_id in H by (unfold in_i64, i64_min, i64_max; lia). set (at_ := Z.max wall (sc_last c + 1)) in *.
  destruct (Z.leb_spec SigningCeiling at_); [injection H as <- <-; left; split; [done|reflexivity]|].
  destruct (sc_closed c); [injection H as <- <-; left; split; [done|split_and!; cbn; try done; by left]|].
  destruct ((sc_covered c <? at_) && negb (sc_episode c)) eqn:Ew.
  - injection H as <- <-. left. split; [done|]. case_bool_decide; [reflexivity|apply steady_start].
  - injection H as <- <-. right. eexists at_, _, (extend wall at_ c). split_and!; [done|lia|done|lia| |apply steady_extend| |done].
    + intros He. rewrite He in Ew. destruct (Z.ltb_spec (sc_covered c) at_); [done|lia].
    + unfold extend. by destruct (_ && _ && _ && _ && _).
Qed.

Lemma running_call wall c t c' k n :
  running c k → tryNext wall c = (t, c') → running c' (answered t c' k n).
Proof.
  intros Hr H. apply tryNext_cases in H as [[Ht Hs]|(at_ & ahead & c1 & -> & Ha & _ & Hc & Hs & He & ->)]; [| |apply Hr..].
  - unfold answered. replace (match t with Issued at_ => at_ :: k_issued k | _ => k_issued k end) with (k_issued k).
    + by apply (running_steady c).
    + destruct t; [by destruct (Ht at_)|done..].
  - pose proof (running_steady _ _ _ n Hr Hs) as [D I K W Ca L O B P]. cbn in I, K, W, O, B, P.
    destruct Hs as (_ & E2 & E3 & _ & _ & _). pose proof (ru_below _ _ Hr) as B0. pose proof (ru_last _ _ Hr).
    split; cbn; rewrite ?E3; rewrite ?E3 in *; try done; [rewrite He; done|lia| |].
    + constructor; [done|]. eapply Forall_impl; [exact B0|]. unfold later. cbn. intros; lia.
    + constructor; [lia|]. eapply Forall_impl; [exact B0|]. cbn. intros; lia.
Qed.

Lemma running_outcome c mark r k :
  running c k → sc_write c = Some (mark, Some r) →
  running (takeOutcome mark r c) (MkClockConf (Some (takeOutcome mark r c)) (k_mark k) (k_issued k) (k_past k) (k_waiting k)).
Proof.
  intros Hr Hw. destruct (ru_write _ _ Hr _ _ Hw) as (Hm & Hm2 & Hk). unfold takeOutcome. cbv zeta.
  assert (steady c (setWrite None c)) as Hs by (split_and!; cbn; try done).
  destruct r as [[]|e].
  - set (c2 := setCovered (Z.max (sc_covered (setWrite None c)) mark) (setWrite None c)).
    set (c3 := if sc_episode c2 && (sc_last c2 <=? sc_covered c2) then setEpisode false c2 else c2).
    assert (running c3 (MkClockConf (Some c3) (k_mark k) (k_issued k) (k_past k) (k_waiting k))) as Hr3.
    { destruct Hr as [D I K W Ca L O B P].
      assert (sc_durable c3 = true ∧ sc_last c3 = sc_last c ∧ sc_covered c3 = Z.max (sc_covered c) mark ∧
        sc_written c3 = sc_written c ∧ sc_write c3 = None ∧
        (sc_episode c3 = false → sc_last c ≤ Z.max (sc_covered c) mark)) as (F1 & F2 & F3 & F4 & F5 & F6).
      { unfold c3, c2. cbn. destruct (sc_episode c) eqn:Ee; cbn [andb].
        - destruct (Z.leb_spec (sc_last c) (Z.max (sc_covered c) mark)); cbn; [done|]. by rewrite Ee.
        - cbn. split_and!; try done. intros _. specialize (Ca eq_refl). lia. }
      split; cbn; rewrite ?F1, ?F2, ?F3, ?F4, ?F5; try done.
      - intros Hc. specialize (Hk eq_refl). destruct (decide (0 < sc_covered c)) as [Hp|Hp]; [destruct (K Hp); specialize (Hm Hp)|];
          (rewrite Z.max_r by lia; split; [done|lia]).
      - eapply Forall_impl; [exact P|]. cbn. intros; lia. }
    clearbody c3. destruct (sc_episode c3); [|done]. exact (running_steady _ _ _ _ Hr3 (steady_schedule _)).
  - pose proof (steady_trans _ _ _ Hs (steady_open (setWrite None c))) as Hs2.
    destruct (sc_episode (openEpisodeLocked (setWrite None c))).
    + apply (running_steady c); [done|]. eapply steady_trans; [exact Hs2|apply steady_schedule].
    + by apply (running_steady c).
Qed.

(** The write reaching the disk, whatever its outcome, loses nothing covered. *)
Lemma running_disk c mark r m' k :
  running c k → sc_write c = Some (mark, None) → Persist mark (k_mark k) = (r, m') →
  running (setWrite (Some (mark, Some r)) c) (MkClockConf (Some (setWrite (Some (mark, Some r)) c)) m' (k_issued k) (k_past k) (k_waiting k)).
Proof.
  intros [D I K W Ca L O B P] Hw Hp. destruct (W _ _ Hw) as (W1 & W2 & _).
  split; cbn; try done.
  - by eapply persist_inv.
  - intros Hc. destruct (K Hc). split; [|done]. eapply persist_keeps; [exact Hp|by apply W1|done].
  - intros m r0 [= <- <-]. split_and!; [done|done|]. intros [= ->]. by eapply persist_ok.
Qed.

(** The death of the process: what a completed mark covered is kept. *)
Lemma death_keeps c k :
  running c k →
  cinv (MkClockConf None (k_mark k) [] (filter (λ v, v ≤ sc_covered c) (k_issued k) ++ k_past k) 0).
Proof.
  intros [D I K W Ca L O B P]. split_and!; cbn; [done| |].
  - eapply StronglySorted_sublist; [|exact O]. apply sublist_app; [apply sublist_filter|done].
  - apply Forall_app in B as [B1 B2].
    assert (∀ v, 0 < v → v ≤ sc_covered c → kept v (k_mark k)) as Hkept.
    { intros v Hv Hc. eapply kept_le; [exact Hc|]. apply K. lia. }
    apply Forall_app. split; rewrite Forall_forall in *.
    + intros v [Hc Hv]%list_elem_of_filter. specialize (B1 _ Hv). split; [lia|]. apply Hkept; [lia|done].
    + intros v Hv. specialize (B2 _ Hv). specialize (P _ Hv). cbn in P. split; [lia|]. apply Hkept; [lia|done].
Qed.

(** A start finds a mark at or above everything kept, and, refused or not,
    keeps it. *)
Lemma start_keeps wall inTime m m1 r m2 past :
  restarted m m1 → NewDurableSigningClock wall inTime m1 = (r, m2) → Forall (λ v, 0 < v ∧ kept v m) past →
  Forall (λ v, 0 < v ∧ kept v m2) past.
Proof.
  intros Hr H Hp. eapply Forall_impl; [exact Hp|]. cbn. intros v [Hv Hk]. split; [done|].
  destruct (restart_found _ _ _ Hr Hk) as (Hk1 & f & Hf & Hle). destruct (restart_inv _ _ Hr) as [_ Hi]. pose proof (Hi _ Hf).
  unfold NewDurableSigningClock in H. rewrite Hf in H. destruct (_ <=? _); [by injection H as _ <-|].
  destruct (Persist _ m1) as [rp mp] eqn:Ep. injection H as _ <-. eapply persist_keeps; [exact Ep|lia|done].
Qed.

Lemma start_running wall inTime m m1 c m2 past :
  restarted m m1 → NewDurableSigningClock wall inTime m1 = (inr c, m2) →
  StronglySorted later past → Forall (λ v, 0 < v ∧ kept v m) past →
  running c (MkClockConf (Some c) m2 [] past 0).
Proof.
  intros Hr H Ho Hp. destruct (restart_inv _ _ Hr) as [Hm1 Hi]. unfold NewDurableSigningClock in H.
  destruct (_ <=? _); [done|]. destruct (Persist _ m1) as [[u|e] mp] eqn:Ep; destruct inTime; try done.
  injection H as <- <-.
  assert (0 ≤ default 0 (Found m1) < SigningCeiling) as Hf by (destruct (Found m1) eqn:E; [by apply Hi|done]).
  assert (Forall (λ v, 0 < v ≤ default 0 (Found m1)) past) as Hb.
  { eapply Forall_impl; [exact Hp|]. cbn. intros v [Hv Hk]. destruct (restart_found _ _ _ Hr Hk) as (_ & f & -> & Hle). cbn. lia. }
  set (start := Z.min _ _) in *.
  assert (Found m1 = None ∨ default 0 (Found m1) ≤ start) as Hs.
  { unfold start. destruct (Found m1); [right; cbn in *; lia|by left]. }
  split; cbn; try done.
  - by eapply persist_inv.
  - intros Hc. assert (Z.max (default 0 (Found m1)) start = start) as -> by (destruct Hs as [Hs|Hs]; [rewrite Hs in *; cbn in *; lia|lia]).
    split; [by eapply persist_ok|lia].
  - intros _. lia.
  - eapply Forall_impl; [exact Hb|]. cbn. intros; lia.
Qed.

Lemma sstep_cinv k k' : sstep k k' → cinv k → cinv k'.
Proof.
  unfold cinv at 1. intros Hs. destruct Hs as [? ? ? ? ? k E Hr H|? ? ? ? ? k E Hr H|? ? ? ? k E H|? ? ? ? ? k E _ H|? ? ? ? k E Hw H
    |? ? ? k E H|? k E _|? ? k E _|? k E|? k E]; rewrite E; intros Hc; cbn.
  - destruct Hc as (_ & Ho & Hp). by eapply start_running.
  - destruct Hc as (_ & Ho & Hp). split_and!; [done..|]. by eapply start_keeps.
  - by eapply running_call.
  - by eapply running_call.
  - by eapply running_disk.
  - by apply running_outcome.
  - exact (running_steady _ _ _ _ Hc (steady_open _)).
  - exact (running_steady _ _ _ _ Hc (steady_retry _ _)).
  - apply (running_steady _ _ _ _ Hc). split_and!; cbn; try done. by left.
  - by apply death_keeps.
Qed.

Definition fresh (m : M) : conf := MkClockConf None m [] [] 0.

Lemma steps_cinv m k : rtc sstep (fresh m) k → cinv k.
Proof.
  intros Hs. eapply rtc_ind_r; [|by intros ? ? _ Hst IH; apply (sstep_cinv _ _ Hst IH)|exact Hs]. repeat constructor.
Qed.

(** Values issued are ordered across restarts; covered ones are found again. *)
Lemma steps_ordered m k :
  rtc sstep (fresh m) k →
  StronglySorted later (k_issued k ++ k_past k) ∧
  (∀ c, k_clock k = Some c → Degraded c = false → ∀ v m', v ∈ k_issued k → restarted (k_mark k) m' →
     ∃ f, Found m' = Some f ∧ v ≤ f) ∧
  Forall (λ v, 0 < v < SigningCeiling) (k_issued k).
Proof.
  intros Hc%steps_cinv. unfold cinv in Hc. destruct (k_clock k) as [c|] eqn:E.
  - pose proof (ru_below _ _ Hc) as [Hb _]%Forall_app. pose proof (ru_last _ _ Hc). split_and!; [apply Hc| |].
    + intros c' [= <-] Hd v m' Hv Hr. rewrite Forall_forall in Hb. specialize (Hb _ Hv).
      pose proof (ru_calm _ _ Hc Hd). destruct (ru_covered _ _ Hc) as [Hk _]; [lia|].
      eapply (restart_found _ _ v Hr), kept_le; [|exact Hk]. lia.
    + eapply Forall_impl; [exact Hb|]. cbn. intros; lia.
  - destruct Hc as (-> & Ho & _). split_and!; [done..|constructor].
Qed.
End Durable.
End StateClock.
