(* ===== verification/GatewayState.v ===== *)
(** * The gateway's own state directory (gatewaystate/gatewaystate.go, lock_unix.go)

    The directory that holds the mark of the clock the gateway's envelopes are
    signed from: it is inspected and adopted, locked, and its mark read; marks
    are then replaced atomically. The mark is what the signing clock's
    interface asks for, so the clock's theorems hold over real directories. *)
From S2P Require Import Prelude GoBytes Json Store SigningClock QueueDir StateClock.
Import Store.

Module GatewayState.
Local Open Scope em_scope.

Definition lf : string := SigningClock.lf.

Definition markerName : string := ".ori-gateway-state-v1".
Definition markerBody : string := "ori-gateway state directory v1" +:+ lf.
Definition lockName : string := ".ori-gateway-state.lock".
Definition markName : string := ".ori-signed-at-messages".
Definition markMaxBytes : Z := 64.

(** What [os.Lstat] says of the directory's path: its kind, permission bits
    and, where the platform tells, its owner. *)
Record place := MkPlace { p_kind : fkind; p_perm : Z; p_owner : option Z }.

(** ** Files *)

(** [writeAtomically]: a staged file, synced, renamed, the directory synced. *)
Definition writeAtomically (what name body : string) : EM dirst unit :=
  atomicWrite (Texts (what +:+ ": stage") (what +:+ ": protect") (what +:+ ": write") (what +:+ ": sync")
      (what +:+ ": close") (what +:+ ": commit") (what +:+ ": sync directory"))
    (name +:+ ".") name body.

Fixpoint takeBytes (n : nat) (s : string) : string :=
  match n, s with
  | S n', String c s' => String c (takeBytes n' s')
  | _, _ => ""
  end.

(** [readAtMost] of a regular file: the file is opened, then read. *)
Definition readAtMost (msg : string) (f : file) (limit : Z) : EM dirst string :=
  sys msg (λ d, (tt, d)) ;;;
  sys msg (λ d, (takeBytes (Z.to_nat limit) (f_data f), d)).

Definition adoptionLeftover (name : string) : bool :=
  bool_decide (name = lockName) || (hasPrefix name (markerName +:+ ".") && (slen markerName + 1 <? slen name)).

(** ** Opening *)
Definition adoptable (d : dirst) : bool :=
  forallb (λ x, regular x.2 && adoptionLeftover x.1) (map_to_list (d_vol d)).

(** [ensureMarker]. *)
Definition ensureMarker : EM dirst unit :=
  found <- sys "read gateway state directory marker" (λ d, (d_vol d !! markerName, d)) ;;
  match found with
  | Some f =>
    if negb (regular f) then efail (EMsg "gateway state directory marker is corrupt: not a regular file")
    else
      body <- readAtMost "read gateway state directory marker" f (slen markerBody + 1) ;;
      if bool_decide (body = markerBody) then eret tt
      else efail (EMsg "gateway state directory marker is corrupt")
  | None =>
    ours <- sys "read gateway state directory" (λ d, (adoptable d, d)) ;;
    if (ours : bool) then writeAtomically "write gateway state directory marker" markerName markerBody
    else efail (EMsg "gateway state directory is not empty and is not a gateway state directory")
  end.

Definition checkPlace (euid : Z) (p : place) : EM dirst unit :=
  if negb (bool_decide (p_kind p = FDirectory))
  then efail (EMsg "gateway state directory must be a directory, not a symlink or file")
  else if negb (Z.land (p_perm p) 63 =? 0)
  then efail (EMsg "gateway state directory must not be accessible by group or other users")
  else if match p_owner p with Some owner => negb (owner =? euid) | None => false end
  then efail (EMsg "gateway state directory must be owned by the user the gateway runs as")
  else ensureMarker.

(** [Open]: a cleaned path is absolute exactly when the trimmed one is. *)
Definition Open (euid : Z) (dir : string) (p : option place) : EM dirst unit :=
  if negb (hasPrefix (TrimSpace dir) "/") then efail (EMsg "gateway state directory must be an absolute path")
  else
    sys "inspect gateway state directory" (λ d, (tt, d)) ;;;
    match p with
    | Some p => checkPlace euid p
    | None =>
      sys "create gateway state parent directory" (λ d, (tt, d)) ;;;
      sys "create gateway state directory" (λ d, (tt, Dir ∅ ∅ [] (d_io d))) ;;;
      sys "protect gateway state directory" (λ d, (tt, d)) ;;;
      sys "inspect gateway state directory" (λ d, (tt, d)) ;;;
      checkPlace euid (MkPlace FDirectory 448 (Some euid))
    end.

(** [lockDirectory]; [busy] is whether another process holds the lock. *)
Definition lockDirectory (busy : bool) : EM dirst unit :=
  found <- sys "open gateway state lock" (λ d, (d_vol d !! lockName, d)) ;;
  match found with
  | Some f =>
    if bool_decide (f_kind f = FSymlink) || bool_decide (f_kind f = FDirectory) then efail (EMsg "open gateway state lock")
    else eret tt
  | None => λ d, (Ok tt, change lockName (Some (File FRegular 384 "" false)) d)
  end ;;;
  kept <- sys "gateway state lock is not a regular file" (λ d, (d_vol d !! lockName, d)) ;;
  if match kept with Some f => negb (regular f) | None => true end
  then efail (EMsg "gateway state lock is not a regular file")
  else
    sys "lock gateway state directory" (λ d, (tt, d)) ;;;
    if busy then efail (EMsg "gateway state directory is in use by another gateway") else eret tt.

(** ** The mark *)
Record Mark := MkMark { m_found : Z; m_has : bool; m_persisted : Z }.

(** [parseMark]. *)
Definition trimPlus (s : string) : string := match s with String "+" s' => s' | _ => s end.

Definition parseMark (body : string) : option Z :=
  let ds := trimPlus (TrimSpace body) in
  if bool_decide (ds = "") || negb (digits ds) then None
  else match ParseInt ds with
       | Some value => if StateClock.SigningCeiling <=? value then None else Some value
       | None => None
       end.

(** [readMark]. *)
Definition readMark : EM dirst Mark :=
  found <- sys "read gateway signing clock mark" (λ d, (d_vol d !! markName, d)) ;;
  match found with
  | None => eret (MkMark 0 false (-1))
  | Some f =>
    if negb (regular f) then efail (EMsg "gateway signing clock mark is corrupt: not a regular file")
    else
      body <- readAtMost "read gateway signing clock mark" f (markMaxBytes + 1) ;;
      if markMaxBytes <? slen body then efail (EMsg "gateway signing clock mark is corrupt: longer than 64 bytes")
      else match parseMark body with
           | Some value => eret (MkMark value true (-1))
           | None => efail (EMsg "gateway signing clock mark is corrupt")
           end
  end.

(** [Acquire], as the mark the run holds. *)
Definition Acquire (euid : Z) (busy : bool) (dir : string) (p : option place) : EM dirst Mark :=
  Open euid dir p ;;; lockDirectory busy ;;; readMark.

Definition MarkFound (m : Mark) : option Z := if m_has m then Some (m_found m) else None.

(** [Persist], on the mark and the directory. *)
Definition PersistMark (mark : Z) (m : Mark) (d : dirst) : res unit * Mark * dirst :=
  if (mark <? 0) || (StateClock.SigningCeiling <=? mark)
  then (Err (EMsg "gateway signing clock mark is outside its range"), m, d)
  else if mark <=? m_persisted m then (Ok tt, m, d)
  else match writeAtomically "persist gateway signing clock mark" markName (FormatInt mark +:+ lf) d with
       | (Err e, d') => (Err e, m, d')
       | (Ok _, d') => (Ok tt, MkMark (m_found m) (m_has m) mark, d')
       end.

(** ** The mark survives *)

(** A mark file that every later start reads as at least [lo]. *)
Definition marks (lo : Z) (o : option file) : Prop :=
  match o with
  | Some f => f_kind f = FRegular ∧ f_synced f = true ∧ slen (f_data f) ≤ markMaxBytes ∧
              ∃ v, parseMark (f_data f) = Some v ∧ lo ≤ v
  | None => False
  end.

Lemma takeBytes_all n s : slen s ≤ Z.of_nat n → takeBytes n s = s.
Proof.
  revert s. induction n as [|n IH]; intros [|c s] H; try done; rewrite slen_cons in H; pose proof (slen_nonneg s); try lia.
  cbn. by rewrite IH by lia.
Qed.

Lemma digits_FormatInt v : 0 ≤ v ≤ i64_max → digits (FormatInt v) = true ∧ trimPlus (FormatInt v) = FormatInt v ∧ FormatInt v ≠ "".
Proof.
  intros (d & t & -> & Hd & Ht & _)%FormatInt_num_ok. split_and!; [| |done].
  - cbn [digits]. by rewrite is_digit_digit, Ht.
  - assert (digit d ≠ "+"%char) as Hne by (intros E; apply (f_equal bv) in E; rewrite bv_digit in E by done; change (bv "+"%char) with 43 in E; lia).
    unfold trimPlus. destruct (digit d) as [[] [] [] [] [] [] [] []]; done.
Qed.

Lemma parseMark_written v : 0 ≤ v < StateClock.SigningCeiling → parseMark (FormatInt v +:+ lf) = Some v.
Proof.
  intros H. assert (0 ≤ v ≤ i64_max) as Hv by (unfold StateClock.SigningCeiling in H; lia).
  destruct (digits_FormatInt v Hv) as (D & P & N). unfold parseMark. rewrite SigningClock.TrimSpace_mark, P, D by done.
  rewrite bool_decide_false by done. cbn. rewrite ParseInt_FormatInt by done. by destruct (Z.leb_spec StateClock.SigningCeiling v); [lia|].
Qed.

Lemma readDigits_mono s acc v : readDigits s acc = Some v → 0 ≤ acc → 0 ≤ v.
Proof.
  revert acc. induction s as [|c s IH]; intros acc; cbn; [by intros [= <-]|].
  destruct (in_rng 48 57 (bv c)) eqn:E; [|done]. unfold in_rng in E. intros H Ha. eapply IH; [exact H|lia].
Qed.

Lemma ParseInt_digits ds v : digits ds = true → ParseInt ds = Some v → 0 ≤ v.
Proof.
  destruct ds as [|c s]; [done|]. cbn [digits]. intros [Hc _]%andb_true_iff H.
  assert (c ≠ "-"%char ∧ c ≠ "+"%char) as [N1 N2] by (split; intros ->; done).
  assert (∃ n, readDigits (String c s) 0 = Some n ∧ v = n) as (n & Hn & ->).
  { unfold ParseInt in H. destruct (readDigits (String c s) 0) as [n|] eqn:E.
    - exists n. split; [done|]. destruct c as [[] [] [] [] [] [] [] []]; try done; cbn -[readDigits in_rng] in H; destruct (in_rng _ _ _); congruence.
    - destruct c as [[] [] [] [] [] [] [] []]; done. }
  by apply readDigits_mono in Hn.
Qed.

Lemma parseMark_range body v : parseMark body = Some v → 0 ≤ v < StateClock.SigningCeiling.
Proof.
  unfold parseMark. cbv zeta. destruct (bool_decide _ || _) eqn:Eb; [done|]. apply orb_false_iff in Eb as [_ Eb%negb_false_iff].
  destruct (ParseInt _) as [z|] eqn:Ep; [|done]. apply ParseInt_digits in Ep; [|done].
  destruct (Z.leb_spec StateClock.SigningCeiling z); [done|]. by intros [= <-].
Qed.

Lemma marks_of_write lo v : lo ≤ v → 0 ≤ v < StateClock.SigningCeiling → marks lo (Some (File FRegular 384 (FormatInt v +:+ lf) true)).
Proof.
  intros H1 H2. split_and!; cbn; [done|done| |exists v; by rewrite parseMark_written].
  rewrite slen_app. pose proof (slen_FormatInt v). change (slen lf) with 1. unfold StateClock.SigningCeiling, markMaxBytes in *. lia.
Qed.

(** *** The run's mark and its directory, as the clock's interface *)
Record markst := MkMarkst { ms_mark : Mark; ms_dir : dirst }.

Definition Persist (mark : Z) : EM markst unit := λ m,
  let '(r, mk, d) := PersistMark mark (ms_mark m) (ms_dir m) in (r, MkMarkst mk d).

Definition kept (v : Z) (m : markst) : Prop := values_at (marks v) markName (ms_dir m).
Definition mark_inv (m : markst) : Prop := 0 ≤ m_persisted (ms_mark m) → kept (m_persisted (ms_mark m)) m.

(** What the end of a process leaves: the machine went on, or crashed and came
    back. *)
Definition leaves (d d1 : dirst) : Prop :=
  (∃ io, d1 = Dir (d_vol d) (d_dur d) (d_log d) io) ∨ ∃ m io, crash d m ∧ d1 = reboot m io.

(** A new run: starts that were refused, and one that was not. *)
Inductive restarted : markst → markst → Prop :=
| gs_acquired euid busy dir p m d1 mk d2 :
    leaves (ms_dir m) d1 → Acquire euid busy dir (Some p) d1 = (Ok mk, d2) → restarted m (MkMarkst mk d2)
| gs_refused euid busy dir p m d1 e d2 m' :
    leaves (ms_dir m) d1 → Acquire euid busy dir (Some p) d1 = (Err e, d2) →
    restarted (MkMarkst (ms_mark m) d2) m' → restarted m m'.

Lemma marks_le v u o : v ≤ u → marks u o → marks v o.
Proof. destruct o as [f|]; [|done]. intros H (? & ? & ? & w & ? & ?). split_and!; [done..|]. exists w. split; [done|lia]. Qed.

Lemma values_impl (P Q : option file → Prop) n d : (∀ o, P o → Q o) → values_at P n d → values_at Q n d.
Proof. intros H (? & ? & H3). split_and!; eauto. Qed.

Lemma leaves_values v d d1 : leaves d d1 → values_at (marks v) markName d → values_at (marks v) markName d1.
Proof.
  intros [(io & ->)|(m & io & Hc & ->)] Hv; [exact Hv|].
  assert (marks v (settled <$> m !! markName)) as Hm.
  { eapply (values_crash (marks v) (λ o, marks v (settled <$> o))); [|exact Hv|exact Hc].
    intros [f|] [f'|] Hl Hf; try done. destruct Hl as (E1 & _ & E3), Hf as (K & S & L & Hp). cbn. rewrite E1, (E3 S). done. }
  unfold values_at. cbn. rewrite !lookup_fmap. split_and!; [done|done|]. by intros o Ho%not_elem_of_nil.
Qed.

Lemma PersistMark_values v mark mk d r mk' d' :
  PersistMark mark mk d = (r, mk', d') → v ≤ mark → values_at (marks v) markName d → values_at (marks v) markName d'.
Proof.
  unfold PersistMark. destruct (_ || _) eqn:E; [by intros [= _ _ <-]|]. destruct (mark <=? m_persisted mk); [by intros [= _ _ <-]|].
  intros H Hle Hv. destruct (writeAtomically _ _ _ d) as [[u|e] d1] eqn:Ew; injection H as _ _ <-;
    (eapply atomicWrite_values; [apply SigningClock.name_not_temp| |exact Hv|exact Ew]; apply marks_of_write; [done|lia]).
Qed.

Lemma PersistMark_ok mark mk d mk' d' u :
  PersistMark mark mk d = (Ok u, mk', d') →
  (mk' = mk ∧ d' = d ∧ 0 ≤ mark ≤ m_persisted mk) ∨ (m_persisted mk' = mark ∧ values_at (marks mark) markName d').
Proof.
  unfold PersistMark. destruct (_ || _) eqn:E; [done|]. destruct (Z.leb_spec mark (m_persisted mk)).
  - intros [= <- <- <-]. left. split_and!; [done|done|lia|done].
  - destruct (writeAtomically _ _ _ d) as [[u'|e] d1] eqn:Ew; [|done]. intros [= <- <- <-]. right. split; [done|].
    pose proof (atomicWrite_ok _ _ _ _ _ _ _ (SigningClock.name_not_temp _) Ew) as (L & _ & V & D & _ & Hl).
    assert (marks mark (Some (File FRegular 384 (FormatInt mark +:+ lf) true))) by (apply marks_of_write; lia).
    unfold values_at. rewrite V, D, L. split_and!; [done..|]. by intros o Ho%not_elem_of_nil.
Qed.

(** *** Opening leaves the mark alone *)
Definition spares {A} (f : EM dirst A) : Prop := ∀ d r d', f d = (r, d') → same_at markName d d'.

Lemma spares_ret {A} (a : A) : spares (eret a).
Proof. intros d r d' [= _ <-]. reflexivity. Qed.

Lemma spares_fail {A} e : spares (@efail dirst A e).
Proof. intros d r d' [= _ <-]. reflexivity. Qed.

Lemma spares_bind {A B} (f : EM dirst A) (g : A → EM dirst B) : spares f → (∀ a, spares (g a)) → spares (ebind f g).
Proof.
  intros Hf Hg d r d' H. apply ebind_inv in H as [(a & d1 & H1 & H2)|(e & H1 & ->)]; [|by eapply Hf].
  etransitivity; [by eapply Hf|by eapply Hg].
Qed.

Lemma spares_look {A} msg (g : dirst → A) : spares (sys msg (λ d, (g d, d))).
Proof. intros d r d' H. eapply sys_same; [|exact H]. intros; reflexivity. Qed.

Lemma spares_write what body : spares (writeAtomically what markerName body).
Proof. intros d r d' H. eapply atomicWrite_same; [| |exact H]; done. Qed.

Lemma spares_change f : spares (λ d, (Ok tt, change lockName (Some f) d)).
Proof. intros d r d' [= _ <-]. by apply change_same. Qed.

#[local] Hint Resolve spares_ret spares_fail spares_look spares_write spares_change : spares.
#[local] Hint Extern 2 (spares (ebind _ _)) => apply spares_bind; [|intros] : spares.
#[local] Hint Extern 3 (spares (match ?x with _ => _ end)) => destruct x : spares.

Lemma spares_ensureMarker : spares ensureMarker.
Proof. unfold ensureMarker, readAtMost. auto 20 with spares. Qed.
#[local] Hint Resolve spares_ensureMarker : spares.

Lemma spares_Open euid dir p : spares (Open euid dir (Some p)).
Proof. unfold Open, checkPlace. auto 20 with spares. Qed.

Lemma spares_lock busy : spares (lockDirectory busy).
Proof. unfold lockDirectory. auto 20 with spares. Qed.

Lemma spares_readMark : spares readMark.
Proof. unfold readMark, readAtMost. auto 20 with spares. Qed.

Lemma spares_Acquire euid busy dir p : spares (Acquire euid busy dir (Some p)).
Proof. unfold Acquire. auto using spares_Open, spares_lock, spares_readMark, @spares_bind. Qed.

(** *** What a start reads *)
Lemma readMark_ok d mk d' :
  readMark d = (Ok mk, d') →
  m_persisted mk = -1 ∧ (∀ f, MarkFound mk = Some f → 0 ≤ f < StateClock.SigningCeiling) ∧
  (∀ v, marks v (d_vol d !! markName) → ∃ f, MarkFound mk = Some f ∧ v ≤ f).
Proof.
  intros (found & d1 & H1 & H)%ebind_ok. apply sys_ok in H1 as (d0 & V0 & _ & _ & [= <- <-]). rewrite V0 in H.
  destruct (d_vol d !! markName) as [f|]; [|by injection H as <- _].
  destruct (negb (regular f)); [done|]. unfold readAtMost in H.
  apply ebind_ok in H as (body & d2 & Hb & H). apply ebind_ok in Hb as ([] & d3 & _ & Hb).
  apply sys_ok in Hb as (d4 & _ & _ & _ & Hb). apply (f_equal fst) in Hb. cbn [fst] in Hb.
  destruct (_ <? _); [done|]. destruct (parseMark _) as [value|] eqn:Ep; [|done]. injection H as <- _. cbn.
  split_and!; [done|intros ? [= <-]; by eapply parseMark_range|].
  intros v (_ & _ & Hl & w & Hw & Hle). rewrite <-Hb, takeBytes_all in Ep by (unfold markMaxBytes in *; lia). exists w. split; [congruence|done].
Qed.

Lemma Acquire_ok euid busy dir p d mk d' :
  Acquire euid busy dir (Some p) d = (Ok mk, d') →
  m_persisted mk = -1 ∧ (∀ f, MarkFound mk = Some f → 0 ≤ f < StateClock.SigningCeiling) ∧
  (∀ v, values_at (marks v) markName d → ∃ f, MarkFound mk = Some f ∧ v ≤ f).
Proof.
  intros ([] & d1 & H1%spares_Open & H)%ebind_ok. apply ebind_ok in H as ([] & d2 & H2%spares_lock & H).
  apply readMark_ok in H as (? & ? & Hf). split_and!; [done..|]. intros v Hv. apply Hf.
  exact (proj1 (values_same _ _ _ _ H2 (values_same _ _ _ _ H1 Hv))).
Qed.

Lemma restarted_found m m' v :
  restarted m m' → kept v m → kept v m' ∧ ∃ f, MarkFound (ms_mark m') = Some f ∧ v ≤ f.
Proof.
  unfold kept. induction 1 as [euid busy dir p m d1 mk d2 Hl Ha|euid busy dir p m d1 e d2 m' Hl Ha _ IH]; intros Hk;
    apply (leaves_values _ _ _ Hl) in Hk; pose proof (spares_Acquire _ _ _ _ _ _ _ Ha) as Hs.
  - split; [by eapply values_same|]. by eapply Acquire_ok.
  - apply IH. by eapply values_same.
Qed.

Lemma restarted_inv m m' :
  restarted m m' → mark_inv m' ∧ ∀ f, MarkFound (ms_mark m') = Some f → 0 ≤ f < StateClock.SigningCeiling.
Proof.
  induction 1 as [euid busy dir p m d1 mk d2 Hl Ha|]; [|done]. apply Acquire_ok in Ha as (E & Hf & _). split; [|done].
  unfold mark_inv. cbn. lia.
Qed.

Lemma Persist_ok mark m u m' : mark_inv m → Persist mark m = (Ok u, m') → kept mark m'.
Proof.
  unfold Persist. destruct (PersistMark _ _ _) as [[r mk] d] eqn:E. intros Hi [= -> <-]. unfold kept. cbn.
  apply PersistMark_ok in E as [(-> & -> & Hle)|[_ Hv]]; [|done].
  eapply values_impl; [intros o; apply (marks_le mark (m_persisted (ms_mark m))); lia|]. apply Hi. lia.
Qed.

Lemma Persist_keeps mark m r m' v : Persist mark m = (r, m') → v ≤ mark → kept v m → kept v m'.
Proof. unfold Persist. destruct (PersistMark _ _ _) as [[r0 mk] d] eqn:E. intros [= _ <-]. by apply (PersistMark_values _ _ _ _ _ _ _ E). Qed.

Lemma Persist_inv mark m r m' : Persist mark m = (r, m') → mark_inv m → mark_inv m'.
Proof.
  intros Hp Hi. assert (m_persisted (ms_mark m') = m_persisted (ms_mark m) ∧
    (ms_dir m' = ms_dir m ∨ m_persisted (ms_mark m) < mark) ∨ (m_persisted (ms_mark m') = mark ∧ r = Ok tt)) as [[E Hd]|[E ->]].
  { unfold Persist, PersistMark in Hp. destruct (_ || _); [injection Hp as _ <-; cbn; auto|].
    destruct (Z.leb_spec mark (m_persisted (ms_mark m))); [injection Hp as _ <-; cbn; auto|].
    destruct (writeAtomically _ _ _ _) as [[]]; injection Hp as <- <-; cbn; [right|]; auto. }
  - unfold mark_inv. rewrite E. intros H0. specialize (Hi H0). destruct Hd as [Hd|Hd]; [unfold kept in *; by rewrite Hd|].
    eapply Persist_keeps; [exact Hp|lia|done].
  - unfold mark_inv. rewrite E. intros _. by eapply Persist_ok.
Qed.

#[global] Instance gateway_mark : StateClock.DurableMark markst := {
  StateClock.Found m := MarkFound (ms_mark m);
  StateClock.Persist := Persist; StateClock.kept := kept; StateClock.restarted := restarted; StateClock.mark_inv := mark_inv;
  StateClock.kept_le v u m H := values_impl _ _ _ _ (λ o, marks_le v u o H);
  StateClock.persist_ok := Persist_ok; StateClock.persist_keeps := Persist_keeps; StateClock.persist_inv := Persist_inv;
  StateClock.restart_found := restarted_found; StateClock.restart_inv := restarted_inv }.

(** ** What is adopted *)
Lemma takeBytes_exact n s t : takeBytes n s = t → slen t < Z.of_nat n → s = t.
Proof.
  revert s t. induction n as [|n IH]; intros s t H Hl; [pose proof (slen_nonneg t); lia|].
  destruct s as [|c s]; cbn in H; [done|]. subst t. rewrite slen_cons in Hl. f_equal. apply IH; [done|lia].
Qed.

Lemma readAtMost_ok msg f limit d body d' :
  readAtMost msg f limit d = (Ok body, d') → body = takeBytes (Z.to_nat limit) (f_data f) ∧ d_vol d' = d_vol d.
Proof.
  intros ([] & d1 & H1 & H2)%ebind_ok. apply sys_ok in H1 as (d0 & V0 & _ & _ & [= <-]), H2 as (d2 & V2 & _ & _ & H2).
  injection H2 as <- <-. split; [done|congruence].
Qed.

Lemma ensureMarker_ok d u d' :
  ensureMarker d = (Ok u, d') →
  match d_vol d !! markerName with
  | Some f => f_kind f = FRegular ∧ f_data f = markerBody ∧ d_vol d' = d_vol d
  | None => adoptable d = true ∧ durably d' markerName (File FRegular 384 markerBody true)
  end.
Proof.
  intros (found & d1 & H1 & H)%ebind_ok. apply sys_ok in H1 as (d0 & V0 & _ & _ & [= <- <-]). rewrite V0 in H.
  destruct (d_vol d !! markerName) as [f|].
  - destruct (regular f) eqn:Er; [|done]. apply bool_decide_eq_true in Er. cbn [negb] in H.
    apply ebind_ok in H as (body & d2 & [-> V]%readAtMost_ok & H). case_bool_decide as Hb; [|done]. injection H as _ <-.
    split_and!; [done| |congruence]. apply takeBytes_exact in Hb; [done|]. vm_compute. reflexivity.
  - apply ebind_ok in H as (ours & d2 & H2 & H). apply sys_ok in H2 as (d3 & V3 & _ & _ & [= <- <-]).
    unfold adoptable in H. rewrite V3, V0 in H. fold (adoptable d) in H. destruct (adoptable d); [|done].
    split; [done|]. eapply atomicWrite_ok; [|exact H]. done.
Qed.

(** The gateway never adopts a directory that is not its own. [Open] of an
    existing path succeeds only on a directory, not a link, that grants nothing
    to group or others and belongs to the gateway's user; and either the
    directory already carries a regular marker file with exactly the marker's
    bytes, and nothing in it changed, or it held nothing but the lock and
    staged markers of an interrupted adoption, and the marker is durable when
    the call returns. *)
Theorem only_own_directory_adopted euid dir p d u d' :
  Open euid dir (Some p) d = (Ok u, d') →
  p_kind p = FDirectory ∧ Z.land (p_perm p) 63 = 0 ∧ (∀ owner, p_owner p = Some owner → owner = euid) ∧
  match d_vol d !! markerName with
  | Some f => f_kind f = FRegular ∧ f_data f = markerBody ∧ d_vol d' = d_vol d
  | None => (∀ n f, d_vol d !! n = Some f → f_kind f = FRegular ∧ adoptionLeftover n = true) ∧
            durably d' markerName (File FRegular 384 markerBody true)
  end.
Proof.
  unfold Open. destruct (negb _); [done|]. intros ([] & d1 & H1 & H)%ebind_ok. apply sys_ok in H1 as (d0 & V0 & _ & _ & [= <-]).
  unfold checkPlace in H. case_bool_decide; [|done]. cbn [negb] in H. destruct (Z.eqb_spec (Z.land (p_perm p) 63) 0); [|done]. cbn [negb] in H.
  destruct (match p_owner p with Some _ => _ | None => _ end) eqn:Eo; [done|]. apply ensureMarker_ok in H. rewrite V0 in H.
  split_and!; [done|done| |].
  - intros owner Ho. rewrite Ho in Eo. apply negb_false_iff, Z.eqb_eq in Eo. done.
  - destruct (d_vol d !! markerName); [done|]. destruct H as [Ha Hd]. split; [|done]. intros n f Hf.
    unfold adoptable in Ha. rewrite V0, forallb_forall in Ha. specialize (Ha (n, f)). cbn in Ha.
    assert (regular f && adoptionLeftover n = true) as [Hr Hn]%andb_true_iff by by apply Ha, list_elem_of_In, elem_of_map_to_list.
    by apply bool_decide_eq_true in Hr.
Qed.

Definition exLeft : dirst := reboot {[lockName := File FRegular 384 "" true]} [].

Lemma only_own_directory_adopted_witness :
  d_vol exLeft !! markerName = None ∧ adoptionLeftover lockName = true.
Proof.
  destruct (Open 1000 "/var/lib/ori" (Some (MkPlace FDirectory 448 (Some 1000))) exLeft) as [r d'] eqn:E.
  assert (r = Ok tt) as -> by (apply (f_equal fst) in E; vm_compute in E; by rewrite E).
  destruct (only_own_directory_adopted _ _ _ _ _ _ E) as (_ & _ & _ & H).
  assert (d_vol exLeft !! markerName = None) as Hn by (vm_compute; reflexivity). rewrite Hn in H.
  split; [exact Hn|]. refine (proj2 (proj1 H lockName (File FRegular 384 _ true) _)). vm_compute. reflexivity.
Defined.

(** ** The clock over the directory *)

(** C14: From any state directory, through any interleaving of the callers of
    [Next], the background write of the mark, its timers, [Stop], deaths of
    the process or crashes of the machine at any point, starts refused for any
    reason and starts with any wall clock: the values the running process
    issued, and every value of an earlier process that a completed mark covered
    when it died, are strictly decreasing from the newest to the oldest, so no
    signing time repeats or goes back across restarts. While no episode is
    open, every start that follows finds a mark at or above every value the
    running process issued. Every value is positive and below the ceiling. *)
Theorem signing_times_never_repeat (m : markst) (k : StateClock.conf (M:=markst)) :
  rtc StateClock.sstep (StateClock.fresh m) k →
  StronglySorted StateClock.later (StateClock.k_issued k ++ StateClock.k_past k) ∧
  (∀ c, StateClock.k_clock k = Some c → StateClock.Degraded c = false →
     ∀ v m', v ∈ StateClock.k_issued k → restarted (StateClock.k_mark k) m' →
     ∃ f, MarkFound (ms_mark m') = Some f ∧ v ≤ f) ∧
  Forall (λ v, 0 < v < StateClock.SigningCeiling) (StateClock.k_issued k).
Proof.
  intros (Ho & Hk & Hb)%StateClock.steps_ordered. split_and!; [done| |done].
  intros c Hc Hd v m' Hv Hr. by apply (Hk c Hc Hd v m' Hv Hr).
Qed.

(** *** A run of it *)
Inductive event := EvStart (wall : Z) | EvCall (wall : Z) | EvWoken (wall : Z) | EvDisk | EvOutcome | EvDeath.

Definition homePlace : place := MkPlace FDirectory 448 (Some 1000).

Definition run1 (e : event) (k : StateClock.conf (M:=markst)) : option (StateClock.conf (M:=markst)) :=
  match e, StateClock.k_clock k with
  | EvStart wall, None =>
    match Acquire 1000 false "/var/lib/ori" (Some homePlace) (reboot (d_dur (ms_dir (StateClock.k_mark k))) []) with
    | (Ok mk, d) => match StateClock.NewDurableSigningClock wall true (MkMarkst mk d) with
                    | (inr c, m2) => Some (StateClock.MkClockConf (Some c) m2 [] (StateClock.k_past k) 0)
                    | _ => None
                    end
    | _ => None
    end
  | EvCall wall, Some c =>
    let '(t, c') := StateClock.tryNext wall c in
    Some (StateClock.answered t c' k (match t with StateClock.Waits => S (StateClock.k_waiting k) | _ => StateClock.k_waiting k end))
  | EvWoken wall, Some c =>
    match StateClock.k_waiting k with
    | S n => let '(t, c') := StateClock.tryNext wall c in
             Some (StateClock.answered t c' k (match t with StateClock.Waits => S n | _ => n end))
    | O => None
    end
  | EvDisk, Some c =>
    match StateClock.sc_write c with
    | Some (mark, None) =>
      let '(r, m') := Persist mark (StateClock.k_mark k) in
      Some (StateClock.MkClockConf (Some (StateClock.setWrite (Some (mark, Some r)) c)) m' (StateClock.k_issued k) (StateClock.k_past k) (StateClock.k_waiting k))
    | _ => None
    end
  | EvOutcome, Some c =>
    match StateClock.sc_write c with
    | Some (mark, Some r) =>
      Some (StateClock.MkClockConf (Some (StateClock.takeOutcome mark r c)) (StateClock.k_mark k) (StateClock.k_issued k) (StateClock.k_past k) (StateClock.k_waiting k))
    | _ => None
    end
  | EvDeath, Some c =>
    Some (StateClock.MkClockConf None (StateClock.k_mark k) []
      (filter (λ v, v ≤ StateClock.sc_covered c) (StateClock.k_issued k) ++ StateClock.k_past k) 0)
  | _, _ => None
  end.

Fixpoint runs (es : list event) (k : StateClock.conf (M:=markst)) : option (StateClock.conf (M:=markst)) :=
  match es with [] => Some k | e :: es' => k' ← run1 e k; runs es' k' end.

Lemma run1_ok e k k' : run1 e k = Some k' → StateClock.sstep k k'.
Proof.
  unfold run1. destruct e as [wall|wall|wall| | |], (StateClock.k_clock k) as [c|] eqn:Ec; try done; intros H.
  - destruct (Acquire _ _ _ _ _) as [[mk|] d] eqn:Ea; [|done]. destruct (StateClock.NewDurableSigningClock _ _ _) as [[|c] m2] eqn:En; [done|].
    injection H as <-. eapply StateClock.s_start; [done| |exact En].
    eapply gs_acquired; [|exact Ea]. right. eexists _, _. split; [apply crash_to_durable|done].
  - destruct (StateClock.tryNext _ _) as [t c'] eqn:Et. injection H as <-. by eapply StateClock.s_call.
  - destruct (StateClock.k_waiting k) eqn:Ew; [done|]. destruct (StateClock.tryNext _ _) as [t c'] eqn:Et. injection H as <-.
    by eapply StateClock.s_woken.
  - destruct (StateClock.sc_write c) as [[mark [r|]]|] eqn:Ew; try done. destruct (Persist _ _) as [r m'] eqn:Ep. injection H as <-.
    by eapply StateClock.s_disk.
  - destruct (StateClock.sc_write c) as [[mark [r|]]|] eqn:Ew; try done. injection H as <-. by eapply StateClock.s_outcome.
  - injection H as <-. by apply StateClock.s_death.
Qed.

Lemma runs_ok es k k' : runs es k = Some k' → rtc StateClock.sstep k k'.
Proof.
  revert k. induction es as [|e es IH]; intros k; cbn; [by intros [= <-]|]. intros (k1 & H1 & H)%bind_Some.
  eapply rtc_l; [by eapply run1_ok|by apply IH].
Qed.

(** The wall clock went back across a crash: the next value waits for its mark
    and is still later. *)
Definition exEvents : list event :=
  [EvStart 5000; EvCall 5000; EvDeath; EvStart 4000; EvCall 4000; EvDisk; EvOutcome; EvWoken 4001].
Definition exHome : markst := MkMarkst (MkMark 0 false (-1)) (reboot ∅ []).

Definition after_runs (P : StateClock.conf (M:=markst) → Prop) : Prop :=
  match runs exEvents (StateClock.fresh exHome) with Some k => P k | None => False end.

Lemma signing_times_never_repeat_witness :
  after_runs (λ k, StateClock.k_issued k = [6001] ∧ StateClock.k_past k = [5000] ∧
    StronglySorted StateClock.later (StateClock.k_issued k ++ StateClock.k_past k)).
Proof.
  unfold after_runs. destruct (runs exEvents (StateClock.fresh exHome)) as [k|] eqn:E.
  - split; [|split; [|exact (proj1 (signing_times_never_repeat exHome k (runs_ok _ _ _ E)))]].
    + enough (StateClock.k_issued <$> Some k = Some [6001]) as [= ->] by done. rewrite <-E. vm_compute. reflexivity.
    + enough (StateClock.k_past <$> Some k = Some [5000]) as [= ->] by done. rewrite <-E. vm_compute. reflexivity.
  - enough (is_Some (StateClock.k_issued <$> @None (StateClock.conf (M:=markst)))) as [? ?] by done.
    rewrite <-E. exists [6001]. vm_compute. reflexivity.
Defined.
End GatewayState.
