(* ===== verification/Site.v ===== *)
(** * The site's nodes (site/degradation.go, evidence.go, site.go, health.go)

    What the gateway remembers of each runtime node: its last heartbeat, the
    chain heads it reported, the severity its health export last read. The
    projection reads it into one status per node and one for the site.
    Clock readings are arguments: [wall] is only shown, [mono] decides
    staleness and eviction. *)
From Stdlib Require Import SpecFloat.
From S2P Require Import Prelude GoBytes Json Contracts.
Import Contracts.

Module Site.

(** ** Severities *)
Definition NodeStatusHealthy : string := "healthy".
Definition NodeStatusDegraded : string := "degraded".
Definition NodeStatusCritical : string := "critical".

Definition severityHealthy : Z := 0.
Definition severityDegraded : Z := 1.
Definition severityCritical : Z := 2.

Definition statusSeverity (status : string) : option Z :=
  if bool_decide (status = NodeStatusHealthy) then Some severityHealthy
  else if bool_decide (status = NodeStatusDegraded) then Some severityDegraded
  else if bool_decide (status = NodeStatusCritical) then Some severityCritical
  else None.

(** ** Degradation reasons *)
Definition maxDegradationReasons : nat := 32.
Definition healthSnapshotInvalid : string := "health_snapshot_invalid".

Definition degradationReasonSeverity : gmap string Z := list_to_map [
  ("action_log_records_lost", severityDegraded);
  ("action_log_records_stalled", severityDegraded);
  ("alert_delivery_overdue", severityDegraded);
  ("commissioning_problem", severityDegraded);
  ("community_skills_refused", severityDegraded);
  ("config_unsigned_value_source", severityDegraded);
  ("decision_record_lost", severityCritical);
  ("evidence_contributor_link_unresolved", severityDegraded);
  ("evidence_courier_answer_unrecognised", severityDegraded);
  ("evidence_posture_problem", severityDegraded);
  ("firmware_liveness_degraded", severityHealthy);
  ("firmware_liveness_device_expired", severityCritical);
  ("firmware_liveness_over_capacity", severityDegraded);
  ("firmware_liveness_stopped", severityCritical);
  ("firmware_liveness_tick_failures", severityDegraded);
  ("firmware_liveness_tick_stale", severityCritical);
  (healthSnapshotInvalid, severityCritical);
  ("safety_zone_activation_refused", severityDegraded);
  ("safety_zone_active_unprotected", severityDegraded);
  ("safety_zone_trip_unresolved", severityCritical);
  ("sensor_measurement_degraded", severityDegraded);
  ("sensor_stale", severityDegraded);
  ("sensor_unconnected", severityDegraded);
  ("skill_optional_hooks_unavailable", severityDegraded);
  ("skill_required_hooks_unavailable", severityCritical);
  ("subsystem_starting", severityDegraded);
  ("subsystem_state_unknown", severityDegraded);
  ("subsystem_state_unknown_critical", severityCritical);
  ("tier_c_records_degraded", severityDegraded);
  ("tier_c_recovery_failed", severityDegraded);
  ("tier_d_alert_delivery_unconfirmed", severityCritical)].

Definition VerdictRuntimeStatusInvalid : string := "runtime_status_invalid".
Definition VerdictDegradationReasonsNotArray : string := "degradation_reasons_not_array".
Definition VerdictDegradationReasonsLengthInvalid : string := "degradation_reasons_length_invalid".
Definition VerdictDegradationReasonNotString : string := "degradation_reason_not_string".
Definition VerdictDegradationReasonsNotUnique : string := "degradation_reasons_not_unique".
Definition VerdictDegradationReasonsNotOrdered : string := "degradation_reasons_not_ordered".
Definition VerdictDegradationReasonUnknown : string := "degradation_reason_unknown".
Definition VerdictDegradationReasonNotAlone : string := "degradation_reason_not_alone".
Definition VerdictDegradationReasonsStatusMismatch : string := "degradation_reasons_status_mismatch".
Definition VerdictDegradationSeverityUnderstated : string := "degradation_reasons_severity_understated".

(** Go's [<] on strings. *)
Fixpoint bytesLt (s t : string) : bool :=
  match s, t with
  | _, EmptyString => false
  | EmptyString, String _ _ => true
  | String a s', String b t' => (bv a <? bv b) || ((bv a =? bv b) && bytesLt s' t')
  end.

Definition stringOf (v : json) : option string :=
  match v with JStr raw => Some (unquote raw) | _ => None end.

(** The loop over the tokens with the set of those seen. *)
Fixpoint repeated (seen : gset string) (tokens : list string) : bool :=
  match tokens with
  | [] => false
  | t :: tokens' => bool_decide (t ∈ seen) || repeated ({[t]} ∪ seen) tokens'
  end.

Fixpoint disordered (tokens : list string) : bool :=
  match tokens with
  | t :: ((u :: _) as tokens') => bytesLt u t || disordered tokens'
  | _ => false
  end.

Definition unknownToken (t : string) : bool := bool_decide (degradationReasonSeverity !! t = None).

(** Steps 6 to 11, on the decoded tokens. *)
Definition judgeTokens (tokens : list string) (status : string) : res (option (list string)) :=
  if repeated ∅ tokens then Err (DegradationError VerdictDegradationReasonsNotUnique)
  else if disordered tokens then Err (DegradationError VerdictDegradationReasonsNotOrdered)
  else if existsb unknownToken tokens then Err (DegradationError VerdictDegradationReasonUnknown)
  else if bool_decide (healthSnapshotInvalid ∈ tokens) &&
          (negb (length tokens =? 1)%nat || negb (bool_decide (status = NodeStatusCritical)))
  then Err (DegradationError VerdictDegradationReasonNotAlone)
  else if negb (bool_decide (status = NodeStatusDegraded)) && negb (bool_decide (status = NodeStatusCritical))
  then Err (DegradationError VerdictDegradationReasonsStatusMismatch)
  else if existsb (λ t, default 0 (statusSeverity status) <? default 0 (degradationReasonSeverity !! t)) tokens
  then Err (DegradationError VerdictDegradationSeverityUnderstated)
  else Ok (Some tokens).

(** [validateDegradationReasons]; [None] is the absent member. *)
Definition validateDegradationReasons (raw : option json) (status : string) : res (option (list string)) :=
  match raw with
  | None => Ok None
  | Some (JArr elements) =>
    if (length elements <? 1)%nat || (maxDegradationReasons <? length elements)%nat
    then Err (DegradationError VerdictDegradationReasonsLengthInvalid)
    else match mapM stringOf elements with
    | None => Err (DegradationError VerdictDegradationReasonNotString)
    | Some tokens => judgeTokens tokens status
    end
  | Some _ => Err (DegradationError VerdictDegradationReasonsNotArray)
  end.

(** [validateRuntimeStatus]. *)
Definition validateRuntimeStatus (raw : option json) : res string :=
  match raw with
  | Some (JStr s) =>
    match statusSeverity (unquote s) with
    | Some _ => Ok (unquote s)
    | None => Err (DegradationError VerdictRuntimeStatusInvalid)
    end
  | _ => Err (DegradationError VerdictRuntimeStatusInvalid)
  end.

(** ** Evidence heads *)
Record NodeEvidence := MkNodeEvidence {
  ne_ChainHeadHash : string; ne_AttestationGapCount : Z; ne_Available : bool; ne_ActionEventType : string;
  ne_TruncationSuspected : bool; ne_HeadRegressed : bool }.

Definition evidenceHeadHistorySize : nat := 16.

Record evidenceTrack := MkTrack { et_recentHeads : list string; et_truncationSuspected : bool; et_headRegressed : bool }.

Definition currentHead (t : evidenceTrack) : string := default "" (last (et_recentHeads t)).

Definition sawHeadBeforeCurrent (head : string) (t : evidenceTrack) : bool :=
  if (length (et_recentHeads t) <? 2)%nat then false
  else bool_decide (head ∈ take (length (et_recentHeads t) - 1) (et_recentHeads t)).

Definition recordHead (head : string) (t : evidenceTrack) : evidenceTrack :=
  let heads := et_recentHeads t ++ [head] in
  MkTrack (if (evidenceHeadHistorySize <? length heads)%nat then drop (length heads - evidenceHeadHistorySize) heads else heads)
    (et_truncationSuspected t) (et_headRegressed t).

Definition observeMissing (t : evidenceTrack) : NodeEvidence :=
  MkNodeEvidence (currentHead t) 0 false "" (et_truncationSuspected t) (et_headRegressed t).

Definition observe (reported : NodeEvidence) (t : evidenceTrack) : NodeEvidence * evidenceTrack :=
  let head := ne_ChainHeadHash reported in
  let t' :=
    if bool_decide (head = "") then
      if bool_decide (currentHead t ≠ "") then MkTrack (et_recentHeads t) true (et_headRegressed t) else t
    else if bool_decide (head ≠ currentHead t) then
      recordHead head (if sawHeadBeforeCurrent head t then MkTrack (et_recentHeads t) (et_truncationSuspected t) true else t)
    else t in
  (MkNodeEvidence head (ne_AttestationGapCount reported) (ne_Available reported) (ne_ActionEventType reported)
     (et_truncationSuspected t') (et_headRegressed t'), t').

(** ** Nodes *)
Record SiteNodeBrokerPosture := MkBrokerPosture {
  bp_Available : bool; bp_GatewayEnabled : bool; bp_DeploymentCheck : string; bp_AnonymousAccess : string; bp_ACLPolicy : string;
  bp_RequireCredentials : bool; bp_CredentialsConfigured : bool; bp_RequiresACLHardening : bool }.

Record SiteNodeEncryptionPosture := MkEncryptionPosture {
  ep_Available : bool; ep_Mode : string; ep_Satisfied : bool; ep_MarkerConfigured : bool; ep_PathPrefixConfigured : bool }.

Record SiteNodeAlertOutboxPosture := MkOutboxPosture {
  op_Available : bool; op_BacklogCount : Z; op_OldestQueuedOriginalMS : Z; op_OldestQueuedAgeMS : Z; op_RetryIntervalMinutes : spec_float;
  op_MaxNonTierDAttempts : Z; op_TierDCriticalWarningThreshold : Z; op_BatchSize : Z }.

Record SiteNodePosture := MkPosture {
  po_ExportSeverity : string; po_BrokerHardening : option SiteNodeBrokerPosture;
  po_Encryption : option SiteNodeEncryptionPosture; po_AlertOutbox : option SiteNodeAlertOutboxPosture }.

Record NodeHeartbeat := MkNode {
  nh_DeviceID : string; nh_Status : string; nh_LastSeenMS : Z; nh_GatewaySeen : Z; nh_ActiveTriggers : list string;
  nh_DegradationReasons : option (list string); nh_Posture : option SiteNodePosture; nh_Evidence : option NodeEvidence;
  nh_ExportSeverity : string; nh_receivedMono : Z; nh_advancedMono : Z }.

Record Registry := MkRegistry {
  rg_nodes : gmap string NodeHeartbeat; rg_evidence : gmap string evidenceTrack;
  rg_exportSeverity : gmap string string; rg_silentCritical : gset string }.

Definition NewRegistry : Registry := MkRegistry ∅ ∅ ∅ ∅.

(** The evidence a heartbeat is recorded with, and the track it leaves. *)
Definition enrich (reported : option NodeEvidence) (track : option evidenceTrack) : option NodeEvidence * option evidenceTrack :=
  match reported with
  | Some e => let '(enriched, t) := observe e (default (MkTrack [] false false) track) in (Some enriched, Some t)
  | None => (observeMissing <$> track, track)
  end.

(** [Upsert]. *)
Definition Upsert (wallMS mono : Z) (hb : NodeHeartbeat) (r : Registry) : Registry :=
  let id := nh_DeviceID hb in
  let advanced := match rg_nodes r !! id with
                  | Some previous => if nh_LastSeenMS hb <=? nh_LastSeenMS previous then nh_advancedMono previous else mono
                  | None => mono
                  end in
  let '(evidence, track) := enrich (nh_Evidence hb) (rg_evidence r !! id) in
  let hb' := MkNode id (nh_Status hb) (nh_LastSeenMS hb) wallMS (nh_ActiveTriggers hb) (nh_DegradationReasons hb)
               (nh_Posture hb) evidence (default "" (rg_exportSeverity r !! id)) mono advanced in
  MkRegistry (<[id := hb']> (rg_nodes r)) (partial_alter (λ _, track) id (rg_evidence r))
    (rg_exportSeverity r) (rg_silentCritical r ∖ {[id]}).

Definition withPosture (severity : string) (posture : SiteNodePosture) (hb : NodeHeartbeat) : NodeHeartbeat :=
  MkNode (nh_DeviceID hb) (nh_Status hb) (nh_LastSeenMS hb) (nh_GatewaySeen hb) (nh_ActiveTriggers hb) (nh_DegradationReasons hb)
    (Some posture) (nh_Evidence hb) severity (nh_receivedMono hb) (nh_advancedMono hb).

(** [UpsertPosture]. *)
Definition UpsertPosture (deviceID : string) (posture : SiteNodePosture) (r : Registry) : Registry :=
  let severities := if bool_decide (po_ExportSeverity posture ≠ "")
                    then <[deviceID := po_ExportSeverity posture]> (rg_exportSeverity r) else rg_exportSeverity r in
  match rg_nodes r !! deviceID with
  | None => MkRegistry (rg_nodes r) (rg_evidence r) severities (rg_silentCritical r)
  | Some hb =>
    MkRegistry (<[deviceID := withPosture (default "" (severities !! deviceID)) posture hb]> (rg_nodes r)) (rg_evidence r)
      severities (rg_silentCritical r)
  end.

Definition receiptStale (hb : NodeHeartbeat) (now ttl : Z) : bool := ttl <? wrap64 (now - nh_receivedMono hb).
Definition reportStale (hb : NodeHeartbeat) (now ttl : Z) : bool := ttl <? wrap64 (now - nh_advancedMono hb).

Definition ExportSeverityOK : string := "ok".
Definition ExportSeverityDegraded : string := "degraded".
Definition ExportSeverityCritical : string := "critical".
Definition ExportSeverityUnknown : string := "unknown".

Definition readsCritical (hb : NodeHeartbeat) : bool :=
  bool_decide (nh_Status hb = NodeStatusCritical) || bool_decide (nh_ExportSeverity hb = ExportSeverityCritical).

(** The body of the loop over the nodes, on what it has collected so far. *)
Record sweep := MkSweep { sw_registry : Registry; sw_evicted : list NodeHeartbeat; sw_retained : list NodeHeartbeat }.

Definition sweepNode (now ttl : Z) (w : sweep) (p : string * NodeHeartbeat) : sweep :=
  let '(deviceID, hb) := p in
  let r := sw_registry w in
  let silent := receiptStale hb now ttl in
  if readsCritical hb then
    if silent && negb (bool_decide (deviceID ∈ rg_silentCritical r)) then
      MkSweep (MkRegistry (rg_nodes r) (rg_evidence r) (rg_exportSeverity r) ({[deviceID]} ∪ rg_silentCritical r))
        (sw_evicted w) (sw_retained w ++ [hb])
    else w
  else if silent then
    MkSweep (MkRegistry (delete deviceID (rg_nodes r)) (delete deviceID (rg_evidence r)) (rg_exportSeverity r) (rg_silentCritical r))
      (sw_evicted w ++ [hb]) (sw_retained w)
  else w.

(** [EvictStaleRetainingCritical]; [visit] is the order the map is ranged over
    in, which the language leaves open. *)
Definition EvictStaleRetainingCritical (visit : list (string * NodeHeartbeat)) (now ttl : Z) (r : Registry) : sweep :=
  foldl (sweepNode now ttl) (MkSweep r [] []) visit.

(** ** The projection *)
Definition projectedSeverity (status : string) : Z := default severityDegraded (statusSeverity status).

Definition siteStatusName (severity : Z) : string :=
  if severity =? severityHealthy then "healthy" else if severity =? severityDegraded then "degraded" else "critical".

Definition exportSeverityFloor (severity : string) : Z :=
  if bool_decide (severity = "") || bool_decide (severity = ExportSeverityOK) then severityHealthy
  else if bool_decide (severity = ExportSeverityCritical) then severityCritical
  else severityDegraded.

Record SiteNode := MkSiteNode {
  sn_DeviceID : string; sn_Status : string; sn_LastSeenMS : Z; sn_GatewayObserved : bool; sn_Stale : bool; sn_ActiveTriggerCount : Z;
  sn_DegradationReasons : option (list string); sn_Posture : option SiteNodePosture; sn_Evidence : option NodeEvidence }.

Record MQTTIngressCount := MkIngressCount { ic_PayloadTooLarge : Z; ic_VolumeDropped : Z }.

Record EvidenceDeliveryView := MkDeliveryView { dv_Pending : Z; dv_Degraded : bool; dv_Blocked : bool }.

(** The members of the gateway's own view the projection reads. *)
Record GatewayView := MkGatewayView {
  gv_Status : string; gv_EvidenceDelivery : option EvidenceDeliveryView; gv_MQTTIngress : gmap string MQTTIngressCount }.

Record SiteHealth := MkSiteHealth { sh_GeneratedAtMS : Z; sh_Status : string; sh_Nodes : list SiteNode; sh_Gateway : GatewayView }.

Definition ReceivedFamilies : list string :=
  [FamilyRuntimeHeartbeat; FamilyReasoningRequest; FamilyEnrichmentRequest; FamilyExportResponse; FamilyEvidenceOutbound; FamilyEvidenceInboundAck].

(** The snapshot keyed by the device each heartbeat names. *)
Definition observed (r : Registry) : gmap string NodeHeartbeat :=
  foldl (λ m n, <[nh_DeviceID n := n]> m) ∅ (snd <$> map_to_list (rg_nodes r)).

Definition integrityProblem (e : NodeEvidence) : bool :=
  ne_TruncationSuspected e || ne_HeadRegressed e || negb (ne_Available e).

Definition nodeSeverity (n : NodeHeartbeat) (mono ttl : Z) : Z :=
  let status := projectedSeverity (nh_Status n) in
  let status := if reportStale n mono ttl then Z.max status severityDegraded else status in
  let status := Z.max status (exportSeverityFloor (nh_ExportSeverity n)) in
  if from_option integrityProblem false (nh_Evidence n) then Z.max status severityDegraded else status.

Definition projectNode (r : Registry) (mono ttl : Z) (deviceID : string) : SiteNode :=
  match observed r !! deviceID with
  | None =>
    MkSiteNode deviceID
      (siteStatusName (Z.max severityDegraded (exportSeverityFloor (default "" (rg_exportSeverity r !! deviceID)))))
      0 false true 0 None None None
  | Some n =>
    MkSiteNode deviceID (siteStatusName (nodeSeverity n mono ttl)) (nh_LastSeenMS n) true (reportStale n mono ttl)
      (Z.of_nat (length (nh_ActiveTriggers n))) (nh_DegradationReasons n) (nh_Posture n) (nh_Evidence n)
  end.

Definition deliveryImpaired (d : EvidenceDeliveryView) : bool := dv_Degraded d || dv_Blocked d.

Definition gatewaySeverity (gateway : GatewayView) : Z :=
  let own := projectedSeverity (gv_Status gateway) in
  if from_option deliveryImpaired false (gv_EvidenceDelivery gateway) then Z.max own severityDegraded else own.

(** [Project]. *)
Definition Project (expected : list string) (ttl nowMS mono : Z) (gateway : GatewayView) (r : Registry) : SiteHealth :=
  let nodes := projectNode r mono ttl <$> expected in
  let status := foldl (λ s n, Z.max s (projectedSeverity (sn_Status n))) (gatewaySeverity gateway) nodes in
  let ingress := list_to_map ((λ f, (f, default (MkIngressCount 0 0) (gv_MQTTIngress gateway !! f))) <$> ReceivedFamilies) in
  MkSiteHealth nowMS (siteStatusName status) nodes (MkGatewayView (gv_Status gateway) (gv_EvidenceDelivery gateway) ingress).
End Site.
