(* ===== verification/SiteSpec.v ===== *)
(** * What the site's projection and its memory promise

    A critical node is never folded away by silence, eviction, a heartbeat or
    the gateway's clocks; suspicion of a chain stays; a report is healthy only
    when everything it rests on is. *)
From S2P Require Import Prelude GoBytes Json Contracts Site.
Import Contracts Site.

Module SiteSpec.

(** ** Histories of the registry *)
Inductive event :=
| Beat (wallMS mono : Z) (hb : NodeHeartbeat)
| Reading (deviceID : string) (posture : SiteNodePosture)
| Sweep (visit : list (string * NodeHeartbeat)) (now ttl : Z).

Inductive rstep : event → Registry → Registry → Prop :=
| rs_beat wallMS mono hb r : rstep (Beat wallMS mono hb) r (Upsert wallMS mono hb r)
| rs_reading deviceID posture r : rstep (Reading deviceID posture) r (UpsertPosture deviceID posture r)
| rs_sweep visit now ttl r :
    visit ≡ₚ map_to_list (rg_nodes r) →
    rstep (Sweep visit now ttl) r (sw_registry (EvictStaleRetainingCritical visit now ttl r)).

Inductive rsteps : list event → Registry → Registry → Prop :=
| rss_nil r : rsteps [] r r
| rss_cons e es r r1 r2 : rstep e r r1 → rsteps es r1 r2 → rsteps (e :: es) r r2.

Lemma filter_agree {A} (P Q : A → Prop) `{∀ x, Decision (P x), ∀ x, Decision (Q x)} (l : list A) :
  (∀ x, x ∈ l → P x ↔ Q x) → filter P l = filter Q l.
Proof.
  induction l as [|x l IH]; intros Hl; [done|]. rewrite !filter_cons. rewrite IH by (intros; apply Hl; by right).
  apply decide_ext, Hl. left.
Qed.

(** ** A sweep, whatever the order of the map *)
Section Sweep.
Context (now ttl : Z).

Definition leaves (p : string * NodeHeartbeat) : Prop := readsCritical p.2 = false ∧ receiptStale p.2 now ttl = true.
Definition waits (p : string * NodeHeartbeat) : Prop := readsCritical p.2 = true ∧ receiptStale p.2 now ttl = true.

#[global] Instance leaves_dec p : Decision (leaves p).
Proof. unfold leaves. apply _. Defined.
#[global] Instance waits_dec p : Decision (waits p).
Proof. unfold waits. apply _. Defined.

Lemma sweep_spec visit w :
  NoDup visit.*1 →
  let w' := foldl (sweepNode now ttl) w visit in
  let r := sw_registry w in let r' := sw_registry w' in
  (∀ k, rg_nodes r' !! k = if decide (k ∈ (filter leaves visit).*1) then None else rg_nodes r !! k) ∧
  (∀ k, rg_evidence r' !! k = if decide (k ∈ (filter leaves visit).*1) then None else rg_evidence r !! k) ∧
  rg_exportSeverity r' = rg_exportSeverity r ∧
  (∀ k, k ∈ rg_silentCritical r' ↔ k ∈ (filter waits visit).*1 ∨ k ∈ rg_silentCritical r) ∧
  sw_evicted w' = sw_evicted w ++ (filter leaves visit).*2 ∧
  sw_retained w' = sw_retained w ++ (filter (λ p, waits p ∧ p.1 ∉ rg_silentCritical r) visit).*2.
Proof.
  revert w. induction visit as [|[id hb] visit IH]; intros w Hnd.
  { cbn. rewrite !app_nil_r. split_and!; try done. intros k. set_solver. }
  cbn in Hnd. apply NoDup_cons in Hnd as [Hid Hnd]. specialize (IH (sweepNode now ttl w (id, hb)) Hnd). cbv zeta in *.
  cbn [foldl]. destruct IH as (IN & IE & IX & IS & IV & IR). rewrite !filter_cons.
  assert (∀ P `{∀ p, Decision (P p)}, id ∉ (filter P visit).*1) as Hni.
  { intros P HP (p & -> & [_ Hp]%list_elem_of_filter)%list_elem_of_fmap. apply Hid, list_elem_of_fmap. by exists p. }
  unfold sweepNode in *. destruct (readsCritical hb) eqn:Ec.
  - rewrite (decide_False (P:=leaves (id, hb))) by (unfold leaves; cbn; rewrite Ec; by intros []).
    destruct (receiptStale hb now ttl) eqn:Es; cbn [andb] in *.
    + assert (waits (id, hb)) as Hw by done. rewrite (decide_True (P:=waits (id, hb))) by done. cbn [fmap list_fmap fst].
      case_bool_decide as Hin; cbn [negb sw_registry rg_nodes rg_evidence rg_exportSeverity rg_silentCritical sw_evicted sw_retained] in *.
      * rewrite decide_False by (by intros []). split_and!; try done. intros k. rewrite IS. set_solver.
      * rewrite decide_True by done. split_and!; try done; [intros k; rewrite IS; set_solver|].
        rewrite IR, <-app_assoc. f_equal. cbn. f_equal. f_equal. apply filter_agree. intros [k n] Hk. cbn.
        assert (k ≠ id) by (intros ->; apply Hid, list_elem_of_fmap; by exists (id, n)). set_solver.
    + assert (¬ waits (id, hb)) as Hw by (intros [_ H]; cbn in H; congruence). rewrite (decide_False (P:=waits (id, hb))) by done.
      rewrite decide_False by tauto. by split_and!.
  - assert (¬ waits (id, hb)) as Hw by (intros [H _]; cbn in H; congruence). rewrite (decide_False (P:=waits (id, hb))) by done.
    rewrite (decide_False (P:=waits (id, hb) ∧ _)) by tauto.
    destruct (receiptStale hb now ttl) eqn:Es; cbn [sw_registry rg_nodes rg_evidence rg_exportSeverity rg_silentCritical sw_evicted sw_retained] in *.
    + rewrite (decide_True (P:=leaves (id, hb))) by done. cbn [fmap list_fmap fst snd].
      split_and!; try done; [| |by rewrite IV, <-app_assoc].
      all: intros k; rewrite ?IN, ?IE; destruct (decide (k = id)) as [->|Hk];
        [rewrite decide_False by apply Hni; rewrite decide_True by left; apply lookup_delete_eq|].
      all: rewrite lookup_delete_ne by done; apply decide_ext; set_solver.
    + rewrite (decide_False (P:=leaves (id, hb))) by (intros [_ H]; cbn in H; congruence). by split_and!.
Qed.

Lemma ranged_keys visit (m : gmap string NodeHeartbeat) (P : string * NodeHeartbeat → Prop) `{∀ p, Decision (P p)} :
  visit ≡ₚ map_to_list m → NoDup visit.*1 ∧ ∀ k, k ∈ (filter P visit).*1 ↔ ∃ n, m !! k = Some n ∧ P (k, n).
Proof.
  intros Hv. split; [rewrite Hv; apply NoDup_fst_map_to_list|]. intros k. rewrite list_elem_of_fmap. split.
  - intros ([k' n] & -> & [HP Hp]%list_elem_of_filter). rewrite Hv, elem_of_map_to_list in Hp. by exists n.
  - intros (n & Hn & HP). exists (k, n). split; [done|]. apply list_elem_of_filter. by rewrite Hv, elem_of_map_to_list.
Qed.

(** Which nodes stay, and what is kept of the others. *)
Lemma sweep_lookup visit r :
  visit ≡ₚ map_to_list (rg_nodes r) →
  let r' := sw_registry (EvictStaleRetainingCritical visit now ttl r) in
  rg_exportSeverity r' = rg_exportSeverity r ∧
  ∀ k, (∃ n, rg_nodes r !! k = Some n ∧ leaves (k, n) ∧ rg_nodes r' !! k = None ∧ rg_evidence r' !! k = None) ∨
       (∀ n, rg_nodes r !! k = Some n → ¬ leaves (k, n)) ∧ rg_nodes r' !! k = rg_nodes r !! k ∧ rg_evidence r' !! k = rg_evidence r !! k.
Proof.
  intros Hv. destruct (ranged_keys visit (rg_nodes r) leaves Hv) as [Hnd Hk].
  destruct (sweep_spec visit (MkSweep r [] []) Hnd) as (HN & HE & HX & _). cbv zeta. split; [done|]. intros k.
  unfold EvictStaleRetainingCritical. rewrite HN, HE. cbn [sw_registry]. case_decide as Hin.
  - apply Hk in Hin as (n & Hn & Hl). left. by exists n.
  - right. split; [|done]. intros n Hn Hl. apply Hin, Hk. by exists n.
Qed.
End Sweep.

(** ** The registry's invariant *)
Definition flagged_alike (t : evidenceTrack) (e : NodeEvidence) : Prop :=
  ne_TruncationSuspected e = et_truncationSuspected t ∧ ne_HeadRegressed e = et_headRegressed t.

Record reg_inv (r : Registry) : Prop := {
  ri_nodes : ∀ k n, rg_nodes r !! k = Some n →
    nh_DeviceID n = k ∧ nh_ExportSeverity n = default "" (rg_exportSeverity r !! k) ∧
    ∀ t, rg_evidence r !! k = Some t → ∃ e, nh_Evidence n = Some e ∧ flagged_alike t e;
  ri_tracks : ∀ k t, rg_evidence r !! k = Some t → is_Some (rg_nodes r !! k) }.

Lemma enrich_flags reported track e t :
  enrich reported track = (e, Some t) → ∃ e', e = Some e' ∧ flagged_alike t e'.
Proof.
  destruct reported as [rep|]; cbn.
  - intros [= <- <-]. by eexists.
  - destruct track as [t'|]; [|done]. cbn. intros [= <- <-]. by eexists.
Qed.

Lemma rstep_inv e r r' : rstep e r r' → reg_inv r → reg_inv r'.
Proof.
  intros Hs [HN HT]. destruct Hs as [wallMS mono hb r|dev posture r|visit now ttl r Hv].
  - unfold Upsert. destruct (enrich _ _) as [ev track] eqn:Ee. split; cbn; intros k n.
    + destruct (decide (nh_DeviceID hb = k)) as [->|Hne].
      * rewrite lookup_insert_eq, lookup_partial_alter_eq. intros [= <-]. cbn. split_and!; [done..|]. intros t ->. by eapply enrich_flags.
      * rewrite lookup_insert_ne, lookup_partial_alter_ne by done. apply HN.
    + destruct (decide (nh_DeviceID hb = k)) as [->|Hne]; [by rewrite lookup_insert_eq|].
      rewrite lookup_partial_alter_ne, lookup_insert_ne by done. apply HT.
  - unfold UpsertPosture. set (sev := if bool_decide _ then _ else _).
    assert (∀ k, k ≠ dev → sev !! k = rg_exportSeverity r !! k) as Hsev.
    { intros k Hk. unfold sev. case_bool_decide; [by rewrite lookup_insert_ne|done]. }
    destruct (rg_nodes r !! dev) as [hb|] eqn:En; split; cbn; intros k n.
    + destruct (decide (k = dev)) as [->|Hk]; [rewrite lookup_insert_eq|rewrite lookup_insert_ne, Hsev by done; apply HN].
      intros [= <-]. destruct (HN _ _ En) as (E1 & _ & E3). by cbn.
    + intros Ht. destruct (decide (k = dev)) as [->|Hk]; [by rewrite lookup_insert_eq|rewrite lookup_insert_ne by done; by eapply HT].
    + intros Hn. destruct (decide (k = dev)) as [->|Hk]; [congruence|]. rewrite Hsev by done. by apply HN.
    + apply HT.
  - destruct (sweep_lookup now ttl visit r Hv) as [HX Hk]. split; intros k n.
    + rewrite HX. destruct (Hk k) as [(? & _ & _ & -> & _)|(_ & -> & ->)]; [done|apply HN].
    + destruct (Hk k) as [(? & _ & _ & _ & ->)|(_ & -> & ->)]; [done|apply HT].
Qed.

Lemma reg_inv_new : reg_inv NewRegistry.
Proof. split; intros k n; cbn; by rewrite lookup_empty. Qed.

Lemma rsteps_inv es r r' : rsteps es r r' → reg_inv r → reg_inv r'.
Proof. induction 1; eauto using rstep_inv. Qed.

(** ** The projection reads the registry *)
Lemma observed_nodes r : reg_inv r → observed r = rg_nodes r.
Proof.
  intros [HN _]. unfold observed.
  assert (∀ l (m : gmap string NodeHeartbeat), Forall (λ p, nh_DeviceID p.2 = p.1) l →
    foldl (λ m n, <[nh_DeviceID n := n]> m) m (snd <$> l) = list_to_map (reverse l) ∪ m) as Hf.
  { intros l. induction l as [|[k n] l IH]; intros m Hl; [cbn; by rewrite (left_id_L ∅ (∪))|]. cbn [fmap list_fmap foldl snd].
    apply Forall_cons in Hl as [Hk Hl]. cbn in Hk. rewrite IH, Hk by done.
    rewrite reverse_cons, list_to_map_app. cbn. rewrite <-(assoc_L (∪)). f_equal. by rewrite insert_union_singleton_l. }
  rewrite Hf; [|apply Forall_forall; intros [k n] Hp%elem_of_map_to_list; by apply HN].
  rewrite (right_id_L ∅ (∪)). etransitivity; [|apply list_to_map_to_list].
  apply list_to_map_proper; [rewrite reverse_Permutation; apply NoDup_fst_map_to_list|apply reverse_Permutation].
Qed.

(** ** Severities *)
Lemma projectedSeverity_range st : 0 ≤ projectedSeverity st ≤ 2.
Proof. unfold projectedSeverity, statusSeverity. do 3 (case_bool_decide; [done|]). done. Qed.

Lemma projectedSeverity_healthy st : projectedSeverity st = 0 ↔ st = "healthy".
Proof.
  unfold projectedSeverity, statusSeverity. unfold NodeStatusHealthy, NodeStatusDegraded, NodeStatusCritical.
  case_bool_decide; [done|]. do 2 (case_bool_decide; [subst; done|]). done.
Qed.

Lemma floor_range sev : 0 ≤ exportSeverityFloor sev ≤ 2.
Proof. unfold exportSeverityFloor. destruct (_ || _); [done|]. by case_bool_decide. Qed.

Lemma floor_zero sev : exportSeverityFloor sev = 0 ↔ sev = "" ∨ sev = ExportSeverityOK.
Proof.
  unfold exportSeverityFloor. destruct (bool_decide (sev = "")) eqn:E1; [apply bool_decide_eq_true in E1; tauto|].
  destruct (bool_decide (sev = ExportSeverityOK)) eqn:E2; [apply bool_decide_eq_true in E2; tauto|].
  apply bool_decide_eq_false in E1, E2. cbn. case_bool_decide; (split; [done|tauto]).
Qed.

Lemma nodeSeverity_range n mono ttl : 0 ≤ nodeSeverity n mono ttl ≤ 2.
Proof.
  unfold nodeSeverity. pose proof (projectedSeverity_range (nh_Status n)). pose proof (floor_range (nh_ExportSeverity n)).
  unfold severityDegraded. destruct (reportStale _ _ _), (from_option _ _ _); lia.
Qed.

Lemma nodeSeverity_floor n mono ttl :
  projectedSeverity (nh_Status n) ≤ nodeSeverity n mono ttl ∧ exportSeverityFloor (nh_ExportSeverity n) ≤ nodeSeverity n mono ttl.
Proof. unfold nodeSeverity. destruct (reportStale _ _ _), (from_option _ _ _); lia. Qed.

Lemma severity_of_name sev : 0 ≤ sev ≤ 2 → projectedSeverity (siteStatusName sev) = sev.
Proof. intros H. assert (sev = 0 ∨ sev = 1 ∨ sev = 2) as [->|[->| ->]] by lia; reflexivity. Qed.

Lemma name_critical sev : siteStatusName sev = "critical" ↔ sev ≠ 0 ∧ sev ≠ 1.
Proof. unfold siteStatusName, severityHealthy, severityDegraded. destruct (Z.eqb_spec sev 0), (Z.eqb_spec sev 1); naive_solver. Qed.

Lemma name_healthy sev : siteStatusName sev = "healthy" ↔ sev = 0.
Proof. unfold siteStatusName, severityHealthy, severityDegraded. destruct (Z.eqb_spec sev 0), (Z.eqb_spec sev 1); naive_solver. Qed.

(** The site's severity is the greatest of the gateway's and the nodes'. *)
Lemma foldl_worst (nodes : list SiteNode) s0 :
  let s := foldl (λ s n, Z.max s (projectedSeverity (sn_Status n))) s0 nodes in
  s0 ≤ s ∧ (∀ n, n ∈ nodes → projectedSeverity (sn_Status n) ≤ s) ∧
  ∀ b, s0 ≤ b → (∀ n, n ∈ nodes → projectedSeverity (sn_Status n) ≤ b) → s ≤ b.
Proof.
  cbv zeta. revert s0. induction nodes as [|n nodes IH]; intros s0; cbn; [split_and!; [done|set_solver|done]|].
  destruct (IH (Z.max s0 (projectedSeverity (sn_Status n)))) as (H1 & H2 & H3). split_and!; [lia| |].
  - intros n' [->|Hn]%elem_of_cons; [lia|auto].
  - intros b Hb Hn. apply H3; [|set_solver]. specialize (Hn n ltac:(left)). lia.
Qed.

(** ** Critical is never folded *)
Definition ofDevice (dev : string) (e : event) : Prop :=
  match e with Beat _ _ hb => nh_DeviceID hb = dev | _ => False end.
Definition exportOf (dev : string) (e : event) : Prop :=
  match e with Reading d posture => d = dev ∧ po_ExportSeverity posture ≠ "" | _ => False end.

Definition beatCritical (dev : string) (r : Registry) : Prop :=
  ∃ n, rg_nodes r !! dev = Some n ∧ nh_Status n = NodeStatusCritical.
Definition exportCritical (dev : string) (r : Registry) : Prop := rg_exportSeverity r !! dev = Some ExportSeverityCritical.

Lemma beatCritical_step dev e r r' : rstep e r r' → ¬ ofDevice dev e → beatCritical dev r → beatCritical dev r'.
Proof.
  intros Hs Ho (n & Hn & Hc). destruct Hs as [wallMS mono hb r|d posture r|visit now ttl r Hv]; unfold beatCritical.
  - cbn in Ho. unfold Upsert. destruct (enrich _ _). cbn. rewrite lookup_insert_ne by done. by exists n.
  - unfold UpsertPosture. destruct (rg_nodes r !! d) as [hb|] eqn:En; cbn; [|by exists n].
    destruct (decide (d = dev)) as [->|]; [|rewrite lookup_insert_ne by done; by exists n].
    rewrite lookup_insert_eq. eexists. split; [done|]. cbn. congruence.
  - destruct (sweep_lookup now ttl visit r Hv) as [_ Hk]. destruct (Hk dev) as [(n' & Hn' & [Hl _] & _)|(_ & -> & _)]; [|by exists n].
    assert (n' = n) as -> by congruence. cbn in Hl. unfold readsCritical in Hl. by rewrite bool_decide_true in Hl.
Qed.

Lemma exportCritical_step dev e r r' : rstep e r r' → ¬ exportOf dev e → exportCritical dev r → exportCritical dev r'.
Proof.
  unfold exportCritical. intros Hs Ho Hc. destruct Hs as [wallMS mono hb r|d posture r|visit now ttl r Hv].
  - unfold Upsert. by destruct (enrich _ _).
  - unfold UpsertPosture. cbn in Ho. set (sev := if bool_decide _ then _ else _).
    assert (sev !! dev = Some ExportSeverityCritical).
    { unfold sev. case_bool_decide; [|done]. rewrite lookup_insert_ne by (intros ->; tauto). done. }
    by destruct (rg_nodes r !! d).
  - by destruct (sweep_lookup now ttl visit r Hv) as [-> _].
Qed.

Lemma rsteps_keep (P : Registry → Prop) (Q : event → Prop) es r r' :
  (∀ e r r', rstep e r r' → ¬ Q e → P r → P r') → rsteps es r r' → Forall (λ e, ¬ Q e) es → P r → P r'.
Proof. intros HP Hs. induction Hs; intros Hq HPr; [done|]. apply Forall_cons in Hq as [? ?]. eauto. Qed.

Lemma projectNode_critical r dev mono ttl :
  reg_inv r → beatCritical dev r ∨ exportCritical dev r → sn_Status (projectNode r mono ttl dev) = "critical".
Proof.
  intros Hi Hc. unfold projectNode. rewrite observed_nodes by done. destruct (rg_nodes r !! dev) as [n|] eqn:En; cbn.
  - pose proof (nodeSeverity_range n mono ttl). destruct (nodeSeverity_floor n mono ttl) as [H1 H2].
    assert (nodeSeverity n mono ttl = 2) as ->; [|done]. destruct Hc as [(n' & Hn' & Hs)|Hc].
    + assert (n' = n) as -> by congruence. rewrite Hs in H1. change (projectedSeverity _) with 2 in H1. lia.
    + destruct (ri_nodes _ Hi _ _ En) as (_ & E & _). rewrite Hc in E. rewrite E in H2. change (exportSeverityFloor _) with 2 in H2. lia.
  - destruct Hc as [(n & Hn & _)| ->]; [congruence|done].
Qed.

(** C16: Critical is never folded. Once a node's accepted heartbeat read
    critical and until its next heartbeat is accepted, or once its health
    export read critical and until a later export is read, every projection
    that expects the node shows it critical and the site critical: whatever
    heartbeats, readings and sweeps of other nodes come in between, however
    long the node is silent, whatever the wall and monotonic clocks say and
    whatever the gateway's own state is. *)
Theorem critical_never_folded es0 es r r' dev expected ttl nowMS mono gateway :
  rsteps es0 NewRegistry r → rsteps es r r' →
  (beatCritical dev r ∧ Forall (λ e, ¬ ofDevice dev e) es ∨ exportCritical dev r ∧ Forall (λ e, ¬ exportOf dev e) es) →
  dev ∈ expected →
  let h := Project expected ttl nowMS mono gateway r' in
  sh_Status h = "critical" ∧ (∃ n, n ∈ sh_Nodes h ∧ sn_DeviceID n = dev) ∧
  ∀ n, n ∈ sh_Nodes h → sn_DeviceID n = dev → sn_Status n = "critical".
Proof.
  intros H0 Hs Hc Hd. pose proof (rsteps_inv _ _ _ Hs (rsteps_inv _ _ _ H0 reg_inv_new)) as Hi.
  assert (beatCritical dev r' ∨ exportCritical dev r') as Hc'.
  { destruct Hc as [[Hb Hf]|[Hb Hf]]; [left|right]; eapply rsteps_keep; eauto using beatCritical_step, exportCritical_step. }
  pose proof (projectNode_critical r' dev mono ttl Hi Hc') as Hp.
  assert (∀ d, sn_DeviceID (projectNode r' mono ttl d) = d) as Hid by (intros d; unfold projectNode; by destruct (observed r' !! d)).
  cbv zeta. unfold Project. cbn [sh_Status sh_Nodes]. split_and!.
  - apply name_critical. destruct (foldl_worst (projectNode r' mono ttl <$> expected) (gatewaySeverity gateway)) as (_ & Hw & _).
    specialize (Hw (projectNode r' mono ttl dev)). rewrite Hp in Hw. change (projectedSeverity "critical") with 2 in Hw.
    specialize (Hw ltac:(by apply list_elem_of_fmap_2)). lia.
  - exists (projectNode r' mono ttl dev). split; [by apply list_elem_of_fmap_2|apply Hid].
  - intros n (d & -> & Hn)%list_elem_of_fmap. rewrite Hid. by intros ->.
Qed.

(** ** What healthy means *)
Definition allClear (mono ttl : Z) (r : Registry) (dev : string) : Prop :=
  ∃ n, rg_nodes r !! dev = Some n ∧ nh_Status n = "healthy" ∧ reportStale n mono ttl = false ∧
    (default "" (rg_exportSeverity r !! dev) = "" ∨ default "" (rg_exportSeverity r !! dev) = ExportSeverityOK) ∧
    (∀ e, nh_Evidence n = Some e → integrityProblem e = false).

Lemma projectNode_healthy r dev mono ttl :
  reg_inv r → projectedSeverity (sn_Status (projectNode r mono ttl dev)) = 0 ↔ allClear mono ttl r dev.
Proof.
  intros Hi. unfold projectNode, allClear. rewrite observed_nodes by done. destruct (rg_nodes r !! dev) as [n|] eqn:En; cbn [sn_Status].
  - destruct (ri_nodes _ Hi _ _ En) as (_ & Ex & _). rewrite severity_of_name by apply nodeSeverity_range.
    unfold nodeSeverity. rewrite Ex. set (sev := default "" _). pose proof (projectedSeverity_range (nh_Status n)) as Hr.
    pose proof (floor_range sev) as Hf. pose proof (floor_zero sev) as Hz. pose proof (projectedSeverity_healthy (nh_Status n)) as Hh.
    unfold severityDegraded. split.
    + destruct (reportStale n mono ttl) eqn:Er, (from_option integrityProblem false (nh_Evidence n)) eqn:Ei; intros Hs; try lia.
      exists n. split_and!; [done|apply Hh; lia|done|apply Hz; lia|]. intros e He. by rewrite He in Ei.
    + intros (n' & [= <-] & Hs & Hst & Hse & Hev). rewrite Hst. apply Hh in Hs. apply Hz in Hse.
      destruct (nh_Evidence n) as [e|]; cbn; [rewrite Hev by done|]; lia.
  - rewrite severity_of_name by (pose proof (floor_range (default "" (rg_exportSeverity r !! dev))); unfold severityDegraded; lia).
    split; [unfold severityDegraded; lia|]. by intros (? & ? & _).
Qed.

(** A site reads healthy exactly when everything it rests on does: the
    gateway reports healthy, evidence delivery is neither degraded nor blocked,
    and every expected node was observed, reports healthy, has moved its report
    within the TTL on the monotonic clock, has no export reading other than ok,
    and shows no truncated, rolled back or unavailable chain. *)
Theorem healthy_means_all_clear es r expected ttl nowMS mono gateway :
  rsteps es NewRegistry r →
  sh_Status (Project expected ttl nowMS mono gateway r) = "healthy" ↔
    gv_Status gateway = "healthy" ∧ (∀ d, gv_EvidenceDelivery gateway = Some d → deliveryImpaired d = false) ∧
    ∀ dev, dev ∈ expected → allClear mono ttl r dev.
Proof.
  intros Hs. pose proof (rsteps_inv _ _ _ Hs reg_inv_new) as Hi. unfold Project. cbn [sh_Status]. rewrite name_healthy.
  set (own := gatewaySeverity gateway).
  destruct (foldl_worst (projectNode r mono ttl <$> expected) own) as (H1 & H2 & H3). set (s := foldl _ _ _) in *.
  pose proof (projectedSeverity_range (gv_Status gateway)) as Hr. pose proof (projectedSeverity_healthy (gv_Status gateway)) as Hh.
  assert (own = 0 ↔ gv_Status gateway = "healthy" ∧ (∀ d, gv_EvidenceDelivery gateway = Some d → deliveryImpaired d = false)) as Ho.
  { unfold own, gatewaySeverity, severityDegraded. destruct (gv_EvidenceDelivery gateway) as [d|]; cbn.
    - destruct (deliveryImpaired d) eqn:Ed; [split; [lia|intros [_ H]; by rewrite H in Ed]|]. rewrite Hh. naive_solver.
    - rewrite Hh. naive_solver. }
  assert (0 ≤ own) by (unfold own, gatewaySeverity; destruct (from_option _ _ _); unfold severityDegraded; lia).
  rewrite (assoc (∧)), <-Ho. split.
  - intros E. split; [lia|]. intros dev Hd. apply projectNode_healthy; [done|].
    specialize (H2 (projectNode r mono ttl dev) ltac:(by apply list_elem_of_fmap_2)).
    pose proof (projectedSeverity_range (sn_Status (projectNode r mono ttl dev))). lia.
  - intros [E Hc]. assert (s ≤ 0); [|lia]. apply H3; [lia|]. intros n (dev & -> & Hd)%list_elem_of_fmap.
    apply Z.eq_le_incl, projectNode_healthy; auto.
Qed.

(** ** Suspicion stays *)
Lemma observe_sticky e t :
  (et_truncationSuspected t = true → et_truncationSuspected (observe e t).2 = true) ∧
  (et_headRegressed t = true → et_headRegressed (observe e t).2 = true).
Proof. unfold observe. repeat case_bool_decide; try destruct (sawHeadBeforeCurrent _ _); done. Qed.

Definition suspected (dev : string) (r : Registry) : Prop :=
  ∃ t, rg_evidence r !! dev = Some t ∧ (et_truncationSuspected t = true ∨ et_headRegressed t = true).

Definition sweptAway (dev : string) (r : Registry) : Prop := rg_nodes r !! dev = None.

Lemma suspected_step dev e r r' : rstep e r r' → suspected dev r → suspected dev r' ∨ sweptAway dev r'.
Proof.
  intros Hs (t & Ht & Hf). unfold suspected, sweptAway. destruct Hs as [wallMS mono hb r|d posture r|visit now ttl r Hv].
  - left. unfold Upsert. destruct (enrich (nh_Evidence hb) (rg_evidence r !! nh_DeviceID hb)) as [ev track] eqn:Ee. cbn.
    destruct (decide (nh_DeviceID hb = dev)) as [<-|]; [|rewrite lookup_partial_alter_ne by done; by exists t].
    rewrite lookup_partial_alter_eq. rewrite Ht in Ee. destruct (nh_Evidence hb) as [rep|]; cbn in Ee.
    + injection Ee as _ <-. eexists. split; [done|]. destruct (observe_sticky rep t). naive_solver.
    + injection Ee as _ <-. by exists t.
  - left. unfold UpsertPosture. destruct (rg_nodes r !! d); cbn; by exists t.
  - destruct (sweep_lookup now ttl visit r Hv) as [_ Hk]. destruct (Hk dev) as [(? & _ & _ & -> & _)|(_ & _ & ->)]; [by right|]. left. by exists t.
Qed.

(** Suspicion of a device's chain stays: once a truncation or a rollback
    was seen, every history that follows either evicted the node at some point
    or still shows the suspicion, and as long as it does no projection reads
    the node, or a site that expects it, as healthy. *)
Theorem suspicion_stays es0 es r r' dev :
  rsteps es0 NewRegistry r → rsteps es r r' → suspected dev r →
  (∃ es1 r1 es2, es = es1 ++ es2 ∧ rsteps es1 r r1 ∧ rsteps es2 r1 r' ∧ sweptAway dev r1) ∨
  suspected dev r' ∧
  ∀ expected ttl nowMS mono gateway, dev ∈ expected →
    sn_Status (projectNode r' mono ttl dev) ≠ "healthy" ∧ sh_Status (Project expected ttl nowMS mono gateway r') ≠ "healthy".
Proof.
  intros H0 Hs Hf. pose proof (rsteps_inv _ _ _ Hs (rsteps_inv _ _ _ H0 reg_inv_new)) as Hi.
  assert ((∃ es1 r1 es2, es = es1 ++ es2 ∧ rsteps es1 r r1 ∧ rsteps es2 r1 r' ∧ sweptAway dev r1) ∨ suspected dev r') as [Hk|Hk].
  { clear H0 Hi. induction Hs as [r|e es r r1 r2 H1 Hs IH]; [by right|].
    destruct (suspected_step _ _ _ _ H1 Hf) as [Hf1|Hg].
    - destruct (IH Hf1) as [(es1 & r3 & es2 & -> & A & B & C)|?]; [|by right]. left. exists (e :: es1), r3, es2.
      split_and!; [done|by econstructor|done..].
    - left. exists [e], r1, es. split_and!; [done|by repeat econstructor|done..]. }
  { by left. }
  right. split; [done|]. intros expected ttl nowMS mono gateway Hd.
  assert (¬ allClear mono ttl r' dev) as Hn.
  { intros (n & Hn & _ & _ & _ & He). destruct Hk as (t & Ht & Hfl). destruct (ri_nodes _ Hi _ _ Hn) as (_ & _ & Hev).
    destruct (Hev _ Ht) as (e & He' & E1 & E2). specialize (He _ He'). unfold integrityProblem in He. rewrite E1, E2 in He.
    destruct Hfl as [Hfl|Hfl]; rewrite Hfl in He; cbn in He; [done|by rewrite orb_true_r in He]. }
  rewrite <-projectNode_healthy in Hn by done. split; [intros E; apply Hn; by rewrite E|].
  unfold Project. cbn [sh_Status]. rewrite name_healthy.
  destruct (foldl_worst (projectNode r' mono ttl <$> expected) (gatewaySeverity gateway)) as (_ & H2 & _).
  specialize (H2 (projectNode r' mono ttl dev) ltac:(by apply list_elem_of_fmap_2)).
  pose proof (projectedSeverity_range (sn_Status (projectNode r' mono ttl dev))). intros E. rewrite E in H2. lia.
Qed.

(** ** What the ring of heads remembers *)

(** The heads of a history, repetitions and empty reports left out. *)
Definition headChanges (reports : list string) : list string :=
  foldl (λ cs h, if bool_decide (h = "") || bool_decide (h = default "" (last cs)) then cs else cs ++ [h]) [] reports.

(** The track of a device after a history of reports. *)
Definition trackAfter (reports : list NodeEvidence) : evidenceTrack :=
  foldl (λ t e, (observe e t).2) (MkTrack [] false false) reports.

Definition lately (cs : list string) : list string := drop (length cs - evidenceHeadHistorySize) cs.

Lemma last_lately cs : last (lately cs) = last cs.
Proof.
  unfold lately, evidenceHeadHistorySize. rewrite !last_lookup, length_drop, lookup_drop.
  destruct cs as [|c cs]; [done|]. cbn [length]. f_equal. lia.
Qed.

Lemma lately_snoc cs h t :
  et_recentHeads t = lately cs → et_recentHeads (recordHead h t) = lately (cs ++ [h]).
Proof.
  intros E. unfold recordHead. cbn [et_recentHeads]. rewrite E. unfold lately, evidenceHeadHistorySize.
  rewrite !length_app, length_drop. cbn [length]. destruct (Nat.ltb_spec 16 (length cs - (length cs - 16) + 1)).
  - replace (length cs - (length cs - 16) + 1 - 16)%nat with 1%nat by lia.
    rewrite !drop_app_le by (rewrite ?length_drop; lia). rewrite drop_drop. do 2 f_equal. lia.
  - replace (length cs - 16)%nat with 0%nat by lia. replace (length cs + 1 - 16)%nat with 0%nat by lia. done.
Qed.

Lemma saw_lately cs h t :
  et_recentHeads t = lately cs → h ≠ default "" (last cs) → sawHeadBeforeCurrent h t = bool_decide (h ∈ lately cs).
Proof.
  intros E Hne. unfold sawHeadBeforeCurrent. rewrite E. rewrite <-last_lately in Hne. clear E. set (l := lately cs) in *. clearbody l.
  destruct l as [|x l _] using rev_ind; [done|]. rewrite last_snoc in Hne. cbn in Hne. rewrite length_app. cbn [length].
  assert (∀ n, (n + 1 - 1)%nat = n) as Hn by lia. rewrite Hn, take_app_length.
  destruct (Nat.ltb_spec (length l + 1) 2).
  - destruct l; [|cbn in *; lia]. symmetry. apply bool_decide_false. set_solver.
  - apply bool_decide_ext. set_solver.
Qed.

Lemma headChanges_current reports :
  default "" (last (headChanges reports)) = "" ↔ Forall (λ h, h = "") reports.
Proof.
  induction reports as [|h reports IH] using rev_ind; [done|]. unfold headChanges in *. rewrite foldl_app, Forall_app. cbn.
  set (cs := foldl _ [] reports) in *. rewrite <-IH, Forall_singleton.
  destruct (decide (h = "")) as [->|Hh]; [rewrite bool_decide_true by done; naive_solver|]. rewrite (bool_decide_false (h = "")) by done. cbn.
  case_bool_decide as He; [split; [congruence|naive_solver]|]. rewrite last_snoc. naive_solver.
Qed.

Definition emptied (reports : list string) : Prop := ∃ a b h, reports = a ++ "" :: b ∧ h ∈ a ∧ h ≠ "".
Definition rolledBack (cs : list string) : Prop := ∃ a h b, cs = a ++ h :: b ∧ h ∈ lately a.

Lemma emptied_snoc reports h :
  emptied (reports ++ [h]) ↔ emptied reports ∨ h = "" ∧ ¬ Forall (λ h, h = "") reports.
Proof.
  unfold emptied. split.
  - intros (a & b & x & E & Hx & Hne). destruct b as [|y b _] using rev_ind.
    + apply app_inj_tail in E as [-> ->]. right. split; [done|]. rewrite Forall_forall. naive_solver.
    + rewrite app_comm_cons, app_assoc in E. apply app_inj_tail in E as [-> ->]. left. naive_solver.
  - intros [(a & b & x & -> & Hx & Hne)|[-> Hn]].
    + exists a, (b ++ [h]), x. by rewrite <-app_assoc.
    + apply not_Forall_Exists, Exists_exists in Hn as (x & Hx & Hne); [|apply _]. by exists reports, [], x.
Qed.

Lemma rolledBack_snoc cs h : rolledBack (cs ++ [h]) ↔ rolledBack cs ∨ h ∈ lately cs.
Proof.
  unfold rolledBack. split.
  - intros (a & x & b & E & Hx). destruct b as [|y b _] using rev_ind; [apply app_inj_tail in E as [-> ->]; by right|].
    rewrite app_comm_cons, app_assoc in E. apply app_inj_tail in E as [-> ->]. left. naive_solver.
  - intros [(a & x & b & -> & Hx)|Hx]; [exists a, x, (b ++ [h]); by rewrite <-app_assoc|by exists cs, h, []].
Qed.

(** C17: The bounded ring says of a device's chain what its whole history of
    reports says: the ring is the sixteen latest changes of its head;
    truncation is suspected exactly when an empty head was reported after one
    that was not; and a rollback exactly when the head changed to one of the
    sixteen latest before it. *)
Theorem heads_remembered reports :
  let heads := ne_ChainHeadHash <$> reports in
  let t := trackAfter reports in
  et_recentHeads t = lately (headChanges heads) ∧
  (et_truncationSuspected t = true ↔ emptied heads) ∧
  (et_headRegressed t = true ↔ rolledBack (headChanges heads)).
Proof.
  cbv zeta. induction reports as [|e reports (IR & IT & IH)] using rev_ind.
  { split_and!; [done|..]; (split; [done|]).
    - by intros ([] & ? & ? & ? & _).
    - by intros ([] & ? & ? & ? & _). }
  unfold trackAfter in *. rewrite foldl_app, fmap_app. cbn [foldl fmap list_fmap]. set (t := foldl _ _ reports) in *.
  set (hs := ne_ChainHeadHash <$> reports) in *. set (h := ne_ChainHeadHash e).
  assert (currentHead t = default "" (last (headChanges hs))) as Ec by (unfold currentHead; by rewrite IR, last_lately).
  rewrite emptied_snoc. pose proof (headChanges_current hs) as Hcur.
  unfold headChanges at 1 2. rewrite !foldl_app. cbn [foldl]. fold (headChanges hs). unfold observe. cbn [snd]. fold h. rewrite Ec.
  destruct (decide (h = "")) as [->|Hh].
  - rewrite (bool_decide_true ("" = "")) by done. cbn [orb]. case_bool_decide; cbn; split_and!; try done; tauto.
  - rewrite (bool_decide_false (h = "")) by done. cbn [orb].
    destruct (decide (h = default "" (last (headChanges hs)))) as [He|He].
    + rewrite (bool_decide_true (h = _)), (bool_decide_false (h ≠ _)) by tauto. split_and!; [done|tauto|done].
    + rewrite (bool_decide_false (h = _)), (bool_decide_true (h ≠ _)) by done. rewrite (saw_lately _ _ _ IR He), rolledBack_snoc.
      split_and!; [by apply lately_snoc; case_bool_decide|..]; case_bool_decide; cbn; tauto.
Qed.

(** ** What a sweep does *)

(** In whatever order the map is ranged over, a sweep evicts exactly the
    nodes that do not read critical and whose last accepted heartbeat is older
    than the TTL on the monotonic clock, with their chain memory, and reports
    them; it keeps every other node as it is, reports each silent critical node
    exactly when it was not reported since its last heartbeat, and forgets no
    export severity. *)
Theorem sweep_exact visit now ttl r :
  visit ≡ₚ map_to_list (rg_nodes r) →
  let w := EvictStaleRetainingCritical visit now ttl r in let r' := sw_registry w in
  (∀ dev n, rg_nodes r' !! dev = Some n ↔ rg_nodes r !! dev = Some n ∧ ¬ leaves now ttl (dev, n)) ∧
  (∀ n, n ∈ sw_evicted w ↔ ∃ dev, rg_nodes r !! dev = Some n ∧ leaves now ttl (dev, n)) ∧
  (∀ n, n ∈ sw_retained w ↔ ∃ dev, rg_nodes r !! dev = Some n ∧ waits now ttl (dev, n) ∧ dev ∉ rg_silentCritical r) ∧
  (∀ dev, dev ∈ rg_silentCritical r' ↔ dev ∈ rg_silentCritical r ∨ ∃ n, rg_nodes r !! dev = Some n ∧ waits now ttl (dev, n)) ∧
  (∀ dev t, rg_evidence r' !! dev = Some t → rg_evidence r !! dev = Some t ∧ ∀ n, rg_nodes r !! dev = Some n → ¬ leaves now ttl (dev, n)) ∧
  rg_exportSeverity r' = rg_exportSeverity r.
Proof.
  intros Hv. destruct (sweep_lookup now ttl visit r Hv) as [HX Hk]. cbv zeta.
  destruct (ranged_keys visit _ (leaves now ttl) Hv) as [Hnd Hl]. destruct (ranged_keys visit _ (waits now ttl) Hv) as [_ Hw].
  destruct (sweep_spec now ttl visit (MkSweep r [] []) Hnd) as (_ & _ & _ & HS & HV & HR).
  unfold EvictStaleRetainingCritical in *. split_and!; [| | | | |done].
  - intros dev n. destruct (Hk dev) as [(n' & Hn' & Hl' & -> & _)|(Hno & -> & _)]; [|naive_solver]. split; [done|]. intros [Hn Hc].
    assert (n' = n) as -> by congruence. done.
  - intros n. rewrite HV. cbn. rewrite list_elem_of_fmap. setoid_rewrite list_elem_of_filter. setoid_rewrite Hv. split.
    + intros ([dev n'] & -> & Hp & Hm%elem_of_map_to_list). by exists dev.
    + intros (dev & Hn & Hp). exists (dev, n). by rewrite elem_of_map_to_list.
  - intros n. rewrite HR. cbn. rewrite list_elem_of_fmap. setoid_rewrite list_elem_of_filter. setoid_rewrite Hv. split.
    + intros ([dev n'] & -> & Hp & Hm%elem_of_map_to_list). by exists dev.
    + intros (dev & Hn & Hp). exists (dev, n). by rewrite elem_of_map_to_list.
  - intros dev. rewrite HS, Hw. cbn. tauto.
  - intros dev t. destruct (Hk dev) as [(? & _ & _ & _ & ->)|(Hno & _ & ->)]; [done|]. done.
Qed.

(** ** Which degradation reasons are accepted *)
Lemma bytesLt_irrefl s : bytesLt s s = false.
Proof. induction s as [|c s IH]; [done|]. cbn. rewrite IH. lia. Qed.

Lemma bytesLt_trans s t u : bytesLt s t = true → bytesLt t u = true → bytesLt s u = true.
Proof.
  revert t u. induction s as [|a s IH]; intros [|b t] [|c u]; cbn; try done. intros H1 H2.
  destruct (Z.ltb_spec (bv a) (bv b)), (Z.ltb_spec (bv b) (bv c)); cbn in *; try lia.
  apply andb_true_iff in H1 as [E1%Z.eqb_eq H1]. apply andb_true_iff in H2 as [E2%Z.eqb_eq H2].
  rewrite E1, E2, Z.eqb_refl, (IH t u) by done. apply orb_true_r.
Qed.

Lemma bytesLt_total s t : s = t ∨ bytesLt s t = true ∨ bytesLt t s = true.
Proof.
  revert t. induction s as [|a s IH]; intros [|b t]; cbn; auto.
  destruct (Z.ltb_spec (bv a) (bv b)); [auto|]. destruct (Z.ltb_spec (bv b) (bv a)); [auto|].
  assert (bv a = bv b) as E by lia. rewrite E, Z.eqb_refl. assert (a = b) as -> by (rewrite <-(bc_bv a), <-(bc_bv b); congruence).
  destruct (IH t) as [->|[->| ->]]; auto.
Qed.

Definition increasing (tokens : list string) : Prop := StronglySorted (λ s t, bytesLt s t = true) tokens.

Lemma repeated_spec seen tokens : repeated seen tokens = false ↔ NoDup tokens ∧ Forall (λ t, t ∉ seen) tokens.
Proof.
  revert seen. induction tokens as [|t tokens IH]; intros seen; cbn; [by repeat constructor|].
  rewrite orb_false_iff, bool_decide_eq_false, IH, NoDup_cons, Forall_cons. rewrite !Forall_forall. set_solver.
Qed.

Lemma in_order tokens : (repeated ∅ tokens = false ∧ disordered tokens = false) ↔ increasing tokens.
Proof.
  rewrite repeated_spec. split.
  - intros [[Hnd _] Hd]. apply Sorted_StronglySorted; [intros ? ? ?; apply bytesLt_trans|].
    induction tokens as [|t [|u tokens] IH]; [constructor|repeat constructor|]. cbn in Hd. apply orb_false_iff in Hd as [H1 H2].
    apply NoDup_cons in Hnd as [Hni Hnd]. constructor; [by apply IH|]. constructor. destruct (bytesLt_total t u) as [->|[?|?]]; [set_solver|done|congruence].
  - induction 1 as [|t tokens Hs IH Hf]; [split; [split; constructor|done]|]. destruct IH as [[Hnd _] Hd]. split; [split|].
    + apply NoDup_cons. split; [|done]. intros Hin. rewrite Forall_forall in Hf. specialize (Hf _ Hin). by rewrite bytesLt_irrefl in Hf.
    + apply Forall_forall. set_solver.
    + destruct tokens as [|u tokens]; [done|]. cbn in *. apply Forall_cons in Hf as [Hf _]. rewrite Hd, orb_false_r.
      destruct (bytesLt u t) eqn:E; [|done]. pose proof (bytesLt_trans _ _ _ Hf E) as H. by rewrite bytesLt_irrefl in H.
Qed.

Lemma strings_of elements tokens :
  mapM stringOf elements = Some tokens ↔ ∃ raws, elements = JStr <$> raws ∧ tokens = unquote <$> raws.
Proof.
  rewrite mapM_Some. split.
  - induction 1 as [|v t elements tokens Hv _ (raws & -> & ->)]; [by exists []|]. destruct v as [| | |raw| |]; try done.
    injection Hv as <-. by exists (raw :: raws).
  - intros (raws & -> & ->). induction raws; by constructor.
Qed.

Lemma existsb_false {A} (f : A → bool) l : existsb f l = false ↔ ∀ x, x ∈ l → f x = false.
Proof. induction l as [|x l IH]; cbn; [set_solver|]. rewrite orb_false_iff, IH. set_solver. Qed.

Lemma status_reasons status :
  negb (bool_decide (status = NodeStatusDegraded)) && negb (bool_decide (status = NodeStatusCritical)) = false ↔
  ∃ sev, statusSeverity status = Some sev ∧ severityDegraded ≤ sev.
Proof.
  unfold statusSeverity, NodeStatusHealthy, NodeStatusDegraded, NodeStatusCritical, severityDegraded, severityCritical, severityHealthy.
  destruct (decide (status = "healthy")) as [->|H1]; [cbn; naive_solver lia|].
  destruct (decide (status = "degraded")) as [->|H2]; [cbn; split; [by exists 1|done]|].
  destruct (decide (status = "critical")) as [->|H3]; [cbn; split; [by exists 2|done]|].
  rewrite !bool_decide_false by done. cbn. naive_solver.
Qed.

(** The declarative form of steps 3 to 11. *)
Definition goodReasons (tokens : list string) (status : string) : Prop :=
  (1 ≤ length tokens ≤ maxDegradationReasons)%nat ∧ increasing tokens ∧
  (healthSnapshotInvalid ∈ tokens → tokens = [healthSnapshotInvalid] ∧ status = NodeStatusCritical) ∧
  ∃ sev, statusSeverity status = Some sev ∧ severityDegraded ≤ sev ∧
    ∀ t, t ∈ tokens → ∃ v, degradationReasonSeverity !! t = Some v ∧ v ≤ sev.

Lemma alone_spec tokens status :
  bool_decide (healthSnapshotInvalid ∈ tokens) && (negb (length tokens =? 1)%nat || negb (bool_decide (status = NodeStatusCritical))) = false ↔
  (healthSnapshotInvalid ∈ tokens → tokens = [healthSnapshotInvalid] ∧ status = NodeStatusCritical).
Proof.
  case_bool_decide as Hin; cbn [andb]; [|by split]. rewrite orb_false_iff, !negb_false_iff, Nat.eqb_eq, bool_decide_eq_true. split.
  - intros [Hl ->] _. destruct tokens as [|t [|]]; try done. apply list_elem_of_singleton in Hin. by subst.
  - intros H. by destruct (H Hin) as [-> ->].
Qed.

Lemma refusal_ok {A} (b : bool) (e : error) (x : res A) a : (if b then Err e else x) = Ok a ↔ b = false ∧ x = Ok a.
Proof. destruct b; [split; [done|by intros []]|]. split; [done|by intros []]. Qed.

Lemma known_tokens tokens sev :
  (existsb unknownToken tokens = false ∧ existsb (λ t, sev <? default 0 (degradationReasonSeverity !! t)) tokens = false) ↔
  ∀ t, t ∈ tokens → ∃ v, degradationReasonSeverity !! t = Some v ∧ v ≤ sev.
Proof.
  rewrite !existsb_false. unfold unknownToken. split.
  - intros [Hu Hm] t Ht. specialize (Hu t Ht). specialize (Hm t Ht). apply bool_decide_eq_false, not_eq_None_Some in Hu as [v Hv].
    rewrite Hv in Hm |- *. exists v. split; [done|]. cbn in Hm. lia.
  - intros H. split; intros t Ht; destruct (H t Ht) as (v & -> & Hv); [done|]. cbn. lia.
Qed.

Lemma judgeTokens_ok tk status o :
  judgeTokens tk status = Ok o ↔
  o = Some tk ∧ increasing tk ∧ (healthSnapshotInvalid ∈ tk → tk = [healthSnapshotInvalid] ∧ status = NodeStatusCritical) ∧
  ∃ sev, statusSeverity status = Some sev ∧ severityDegraded ≤ sev ∧
    ∀ t, t ∈ tk → ∃ v, degradationReasonSeverity !! t = Some v ∧ v ≤ sev.
Proof.
  unfold judgeTokens. rewrite !refusal_ok, alone_spec, status_reasons, <-in_order. split.
  - intros (H1 & H2 & H3 & H4 & (sev & E & Hs) & H6 & [= <-]). rewrite E in H6. split_and!; try done. exists sev.
    split_and!; try done. by apply known_tokens.
  - intros (-> & [H1 H2] & H4 & sev & E & Hs & [H3 H6]%known_tokens). rewrite E. split_and!; try done. by exists sev.
Qed.

Lemma reasons_exact raw status tokens :
  (validateDegradationReasons raw status = Ok (Some tokens) ↔
     ∃ raws, raw = Some (JArr (JStr <$> raws)) ∧ tokens = unquote <$> raws ∧ goodReasons tokens status) ∧
  (validateDegradationReasons raw status = Ok None ↔ raw = None).
Proof.
  destruct raw as [[| | | |elements|]|]; unfold validateDegradationReasons.
  1-4, 6: split; (split; [done|]); [by intros (? & ? & _)|done].
  2: split; (split; [done|]); [by intros (? & ? & _)|done].
  rewrite !refusal_ok, orb_false_iff. split.
  - split.
    + intros [[L1 L2] H]. destruct (mapM stringOf elements) as [tk|] eqn:Em; [|done].
      apply judgeTokens_ok in H as ([= ->] & Hi & Ha & Hs).
      apply strings_of in Em as (raws & -> & ->). exists raws. split_and!; [done|done|]. unfold goodReasons.
      rewrite length_fmap. rewrite length_fmap in L1, L2. apply Nat.ltb_ge in L1, L2. done.
    + intros (raws & [= ->] & -> & [L1 L2] & Hi & Ha & Hs). rewrite !length_fmap in *.
      rewrite !Nat.ltb_ge. split; [done|].
      rewrite (proj2 (strings_of (JStr <$> raws) (unquote <$> raws))) by (by exists raws). by apply judgeTokens_ok.
  - split; [|done]. intros [_ H]. destruct (mapM stringOf elements) as [tk|]; [|done]. by apply judgeTokens_ok in H as [? _].
Qed.

Lemma acceptedReasons raw status tokens : validateDegradationReasons raw status = Ok (Some tokens) → goodReasons tokens status.
Proof. intros (raws & _ & _ & Hg)%reasons_exact. done. Qed.

(** The degradation reasons of a heartbeat are accepted exactly when they
    are an array of one to thirty-two strings, strictly increasing by bytes,
    each of the closed vocabulary, the fallback token only alone on a critical
    heartbeat, and the status is degraded or critical and at least as severe as
    every token; what is returned is the decoded tokens. An absent member is
    accepted as absent, and nothing else is. *)
Theorem reasons_accepted_exactly raw status tokens :
  (validateDegradationReasons raw status = Ok (Some tokens) ↔
     ∃ raws, raw = Some (JArr (JStr <$> raws)) ∧ tokens = unquote <$> raws ∧ goodReasons tokens status) ∧
  (validateDegradationReasons raw status = Ok None ↔ raw = None).
Proof. apply reasons_exact. Qed.

(** ** Instances *)
Definition exNode (status head : string) (seen : Z) : NodeHeartbeat :=
  MkNode "pump-1" status seen 0 [] None None (Some (MkNodeEvidence head 0 true "" false false)) "" 0 0.
Definition exCritical : Registry := Upsert 5000 0 (exNode "critical" "aa" 5000) NewRegistry.
Definition exVisit : list (string * NodeHeartbeat) := map_to_list (rg_nodes exCritical).
Definition exSwept : Registry := sw_registry (EvictStaleRetainingCritical exVisit 900000000000 90000000000 exCritical).
Definition exGateway : GatewayView := MkGatewayView "healthy" None ∅.

Lemma exCritical_steps : rsteps [Beat 5000 0 (exNode "critical" "aa" 5000)] NewRegistry exCritical.
Proof. repeat econstructor. Qed.

Lemma exSwept_steps : rsteps [Sweep exVisit 900000000000 90000000000] exCritical exSwept.
Proof. eapply rss_cons; [apply rs_sweep; reflexivity|constructor]. Qed.

Lemma critical_never_folded_witness :
  sh_Status (Project ["pump-1"] 90000000000 5000 900000000000 exGateway exSwept) = "critical".
Proof.
  refine (proj1 (critical_never_folded _ _ _ _ "pump-1" _ _ _ _ _ exCritical_steps exSwept_steps _ _)).
  - left. split; [eexists; split; vm_compute; reflexivity|]. constructor; [intros []|constructor].
  - left.
Defined.

Definition exHealthy : Registry := Upsert 5000 0 (exNode "healthy" "aa" 5000) NewRegistry.

Lemma healthy_means_all_clear_witness : allClear 1000 90000000000 exHealthy "pump-1".
Proof.
  assert (rsteps [Beat 5000 0 (exNode "healthy" "aa" 5000)] NewRegistry exHealthy) as Hs by (repeat econstructor).
  refine (proj2 (proj2 (proj1 (healthy_means_all_clear _ _ ["pump-1"] 90000000000 5000 1000 exGateway Hs) _)) "pump-1" _).
  - vm_compute. reflexivity.
  - left.
Defined.

(** The head went back to one the chain had moved past. *)
Definition exRolled : Registry :=
  Upsert 7000 2 (exNode "healthy" "aa" 7000) (Upsert 6000 1 (exNode "healthy" "bb" 6000) exHealthy).

Lemma suspicion_stays_witness :
  sn_Status (projectNode (Upsert 8000 3 (exNode "healthy" "cc" 8000) exRolled) 3 90000000000 "pump-1") ≠ "healthy".
Proof.
  assert (rsteps [Beat 5000 0 (exNode "healthy" "aa" 5000); Beat 6000 1 (exNode "healthy" "bb" 6000); Beat 7000 2 (exNode "healthy" "aa" 7000)]
    NewRegistry exRolled) as H0 by (repeat econstructor).
  assert (rsteps [Beat 8000 3 (exNode "healthy" "cc" 8000)] exRolled (Upsert 8000 3 (exNode "healthy" "cc" 8000) exRolled)) as H1 by (repeat econstructor).
  assert (suspected "pump-1" exRolled) as Hf by (eexists; split; [vm_compute; reflexivity|right; reflexivity]).
  destruct (suspicion_stays _ _ _ _ _ H0 H1 Hf) as [(es1 & r1 & es2 & E & Hs1 & Hs2 & Hg)|[_ H]].
  - exfalso. unfold sweptAway in Hg. destruct es1 as [|e1 [|]]; cbn in E; try done.
    + inversion Hs1; subst. vm_compute in Hg. done.
    + injection E as <- <-. inversion Hs2; subst. vm_compute in Hg. done.
  - exact (proj1 (H ["pump-1"] 90000000000 8000 3 exGateway ltac:(left))).
Defined.

Lemma sweep_exact_witness :
  is_Some (rg_nodes exSwept !! "pump-1") ∧ sw_evicted (EvictStaleRetainingCritical exVisit 900000000000 90000000000 exCritical) = [].
Proof.
  destruct (sweep_exact exVisit 900000000000 90000000000 exCritical ltac:(reflexivity)) as (H1 & H2 & _).
  destruct (rg_nodes exCritical !! "pump-1") as [n|] eqn:En; [|by vm_compute in En].
  assert (readsCritical n = true) as Hc by (vm_compute in En; injection En as <-; reflexivity).
  split; [exists n; apply H1; split; [done|intros [Hl _]; cbn in Hl; congruence]|].
  destruct (sw_evicted _) as [|m l] eqn:E in |- *; [reflexivity|]. exfalso.
  assert (m ∈ sw_evicted (EvictStaleRetainingCritical exVisit 900000000000 90000000000 exCritical)) as Hm by (rewrite E; left).
  apply H2 in Hm as (dev & Hd & [Hl _]). cbn in Hl. vm_compute in E. done.
Defined.
End SiteSpec.
