(* ===== verification/SiteBeat.v ===== *)
(** * Runtime heartbeats (site/heartbeat.go, members.go)

    A heartbeat is read off its topic, its member names are judged on the wire
    bytes, its envelope is verified, and its members are read by exact name.
    What passes is recorded in the registry; what does not changes nothing
    there. *)
From S2P Require Import Prelude GoBytes Sha256 Json Contracts Heap Replay MqttAuth Site.
Import Contracts Replay MqttAuth Site.

Module SiteBeat.

Definition defaultMaxActiveTriggers : Z := 64.
Definition maxActiveTriggerLength : Z := 128.
Definition maxActionEventTypeLength : Z := 64.
Definition defaultMaxFutureSkew : Z := 5 * 60 * 1000 * Millisecond.

Definition VerdictHeartbeatMemberCaseVariant : string := "runtime_heartbeat_member_case_variant".
Definition VerdictHeartbeatMemberDuplicate : string := "runtime_heartbeat_member_duplicate".

Definition runtimeHeartbeatMembers : list string :=
  ["device_id"; "status"; "last_seen_ms"; "gateway_seen_ms"; "active_triggers"; "degradation_reasons"; "evidence"; "auth"].
Definition runtimeHeartbeatEvidenceMembers : list string :=
  ["chain_head_hash"; "attestation_gap_count"; "available"; "action_event_type"].

Definition notDecoded {A} : res A := Err (EMsg "decode runtime node heartbeat").

(** ** Member names on the wire *)
Definition caseVariant (members : list string) (name : string) : bool :=
  existsb (λ member, negb (bool_decide (name = member)) && equalFold name member) members.

(** What one member adds to the set of contract members seen. *)
Definition judgeName (members : list string) (name : string) (seen : gset string) : res (gset string) :=
  if negb (bool_decide (name ∈ members)) then Ok seen
  else if bool_decide (name ∈ seen) then Err (DegradationError VerdictHeartbeatMemberDuplicate)
  else Ok ({[name]} ∪ seen).

(** The members of an object already known to be JSON. *)
Fixpoint judgeMembers (members : list string) (l : list (string * json)) (seen : gset string) : res unit :=
  match l with
  | [] => Ok tt
  | (k, _) :: l' =>
    if caseVariant members (unquote k) then Err (DegradationError VerdictHeartbeatMemberCaseVariant)
    else match judgeName members (unquote k) seen with
         | Err e => Err e
         | Ok seen' => judgeMembers members l' seen'
         end
  end.

(** The key at the front of [s], after a comma unless it is the first. *)
Definition nextKey (first : bool) (s : string) : option (string * string) :=
  let s' := if first then Some s
            else match s with String c r => if bv c =? 44 then Some (skip r) else None | EmptyString => None end in
  match s' with
  | Some (String q r) => if bv q =? 34 then scanStr r else None
  | _ => None
  end.

Definition nextValue (s : string) : option (json * string) :=
  match skip s with
  | String c r => if bv c =? 58 then parseValue (S (2 * String.length r)) 0 r else None
  | EmptyString => None
  end.

(** The token loop of [refuseInexactMembers]: [More] also ends it at the end
    of the input. Every turn consumes a byte, so the length of the input is
    fuel enough. *)
Fixpoint walkMembers (fuel : nat) (first : bool) (s : string) (seen : gset string) : res unit :=
  match fuel with
  | O => notDecoded
  | S f =>
    match skip s with
    | EmptyString => Ok tt
    | String c r =>
      if (bv c =? 125) || (bv c =? 93) then Ok tt
      else match nextKey first (String c r) with
      | None => notDecoded
      | Some (k, r1) =>
        let name := unquote k in
        if caseVariant runtimeHeartbeatMembers name then Err (DegradationError VerdictHeartbeatMemberCaseVariant)
        else match nextValue r1 with
        | None => notDecoded
        | Some (v, r2) =>
          match judgeName runtimeHeartbeatMembers name seen with
          | Err e => Err e
          | Ok seen' =>
            match (if bool_decide (name = "evidence") then v else JNull) with
            | JObj l =>
              match judgeMembers runtimeHeartbeatEvidenceMembers l ∅ with
              | Err e => Err e
              | Ok _ => walkMembers f false r2 seen'
              end
            | _ => walkMembers f false r2 seen'
            end
          end
        end
      end
    end
  end.

(** [refuseInexactHeartbeatMembers]. *)
Definition refuseInexactHeartbeatMembers (payload : string) : res unit :=
  match skip payload with
  | String c r => if bv c =? 123 then walkMembers (S (String.length payload)) true r ∅ else notDecoded
  | EmptyString => notDecoded
  end.

(** ** Members by exact name *)
Record RuntimeNodeHeartbeatEvidence := MkBeatEvidence {
  be_ChainHeadHash : string; be_AttestationGapCount : Z; be_Available : bool; be_ActionEventType : string }.

Record RuntimeNodeHeartbeat := MkBeat {
  b_DeviceID : string; b_Status : string; b_LastSeenMS : Z; b_ActiveTriggers : list string; b_Evidence : option RuntimeNodeHeartbeatEvidence }.

(** [decodeExactMember]: an absent member leaves the zero value. *)
Definition decodeExactMember {A} (set : json → A → A * bool) (zero : A) (members : gmap string json) (name : string) : res A :=
  match members !! name with
  | None => Ok zero
  | Some v => let '(a, ok) := set v zero in if ok then Ok a else notDecoded
  end.

Definition decodeEvidence (l : list (string * json)) : res RuntimeNodeHeartbeatEvidence :=
  let m := toMap l in
  match decodeExactMember setStr "" m "chain_head_hash", decodeExactMember setInt 0 m "attestation_gap_count",
        decodeExactMember setBool false m "available", decodeExactMember setStr "" m "action_event_type" with
  | Ok h, Ok g, Ok a, Ok t => Ok (MkBeatEvidence h g a t)
  | _, _, _, _ => notDecoded
  end.

(** [decodeRuntimeHeartbeat]; [gateway_seen_ms] is judged for its type only. *)
Definition decodeRuntimeHeartbeat (members : gmap string json) : res RuntimeNodeHeartbeat :=
  match decodeExactMember setStr "" members "device_id", decodeExactMember setStr "" members "status",
        decodeExactMember setInt 0 members "last_seen_ms", decodeExactMember setInt 0 members "gateway_seen_ms",
        decodeExactMember setStrs [] members "active_triggers" with
  | Ok d, Ok st, Ok at_, Ok _, Ok tr =>
    match members !! "evidence" with
    | None | Some JNull => Ok (MkBeat d st at_ tr None)
    | Some (JObj l) => match decodeEvidence l with Ok e => Ok (MkBeat d st at_ tr (Some e)) | Err e => Err e end
    | Some _ => notDecoded
    end
  | _, _, _, _, _ => notDecoded
  end.

(** [parseRuntimeHeartbeat]: status, then reasons, then the typed members. *)
Definition parseRuntimeHeartbeat (members : gmap string json) : res (RuntimeNodeHeartbeat * option (list string)) :=
  match validateRuntimeStatus (members !! "status") with
  | Err e => Err e
  | Ok status =>
    match validateDegradationReasons (members !! "degradation_reasons") status with
    | Err e => Err e
    | Ok reasons => match decodeRuntimeHeartbeat members with Ok beat => Ok (beat, reasons) | Err e => Err e end
    end
  end.

(** ** Bounds *)
Definition lowerHexRune (p : Z * bool) : bool := in_rng 48 57 p.1 || in_rng 97 102 p.1.
Definition snakeRune (p : Z * bool) : bool := in_rng 65 90 p.1 || (p.1 =? 95).

Definition validateEvidenceSignal (e : RuntimeNodeHeartbeatEvidence) : res unit :=
  let h := be_ChainHeadHash e in
  if negb (bool_decide (h = "")) && negb (slen h =? 64) then Err (EMsg "runtime heartbeat evidence chain_head_hash must be 64 hex chars or empty")
  else if negb (bool_decide (h = "")) && negb (forallb lowerHexRune (runes h))
  then Err (EMsg "runtime heartbeat evidence chain_head_hash must be lowercase hex")
  else if be_AttestationGapCount e <? 0 then Err (EMsg "runtime heartbeat evidence attestation_gap_count must be >= 0")
  else if maxActionEventTypeLength <? slen (be_ActionEventType e) then Err (EMsg "runtime heartbeat evidence action_event_type exceeds 64 bytes")
  else if negb (forallb snakeRune (runes (be_ActionEventType e)))
  then Err (EMsg "runtime heartbeat evidence action_event_type must be empty or SCREAMING_SNAKE_CASE")
  else Ok tt.

Fixpoint validateTriggers (triggers : list string) : res unit :=
  match triggers with
  | [] => Ok tt
  | t :: triggers' =>
    if negb (bool_decide (TrimSpace t = t)) || bool_decide (t = "")
    then Err (EMsg "runtime heartbeat active trigger names must be non-empty and trimmed")
    else if maxActiveTriggerLength <? slen t then Err (EMsg "runtime heartbeat active trigger name exceeds 128 bytes")
    else validateTriggers triggers'
  end.

(** The handler's fixed part. *)
Record RuntimeHeartbeatHandler := MkBeatHandler { hh_authVerifier : option Verifier; hh_maxActiveTriggers : Z; hh_maxFutureSkew : Z }.

Definition NewRuntimeHeartbeatHandler (verifier : option Verifier) (maxActiveTriggers maxFutureSkew : Z) : RuntimeHeartbeatHandler :=
  MkBeatHandler verifier (if maxActiveTriggers <=? 0 then defaultMaxActiveTriggers else maxActiveTriggers)
    (if maxFutureSkew <=? 0 then defaultMaxFutureSkew else maxFutureSkew).

(** [validate], the wall clock reading [now] nanoseconds. *)
Definition validate (h : RuntimeHeartbeatHandler) (now : Z) (topicDeviceID : string) (beat : RuntimeNodeHeartbeat) : res unit :=
  if negb (bool_decide (b_DeviceID beat = topicDeviceID)) then Err (EMsg "device_id does not match topic device_id")
  else if bool_decide (statusSeverity (b_Status beat) = None) then Err (EMsg "runtime heartbeat status is not supported")
  else if b_LastSeenMS beat <=? 0 then Err (EMsg "runtime heartbeat last_seen_ms must be positive")
  else if now + hh_maxFutureSkew h <? b_LastSeenMS beat * Millisecond then Err (EMsg "runtime heartbeat last_seen_ms is too far in the future")
  else if hh_maxActiveTriggers h <? Z.of_nat (length (b_ActiveTriggers beat)) then Err (EMsg "runtime heartbeat active_triggers exceeds maximum")
  else match validateTriggers (b_ActiveTriggers beat) with
  | Err e => Err e
  | Ok _ => match b_Evidence beat with Some e => validateEvidenceSignal e | None => Ok tt end
  end.

Definition RuntimeHeartbeatMessageType : string := "runtime.heartbeat".

(** The registry entry of an accepted heartbeat, before the registry stamps
    it. *)
Definition nodeOf (beat : RuntimeNodeHeartbeat) (reasons : option (list string)) : NodeHeartbeat :=
  MkNode (b_DeviceID beat) (b_Status beat) (b_LastSeenMS beat) 0 (b_ActiveTriggers beat) reasons None
    ((λ e, MkNodeEvidence (be_ChainHeadHash e) (be_AttestationGapCount e) (be_Available e) (be_ActionEventType e) false false) <$> b_Evidence beat)
    "" 0 0.

Section Handler.
Context (ValidateWireUnicode : string → bool) (DecodeStrict : list string → string → option strictError).
Context (Marshal : gmap string json → res string).

(** [unsignedPayload]: the marshalled members are read back as themselves. *)
Definition unsignedPayload (h : RuntimeHeartbeatHandler) (deviceID payload : string) (t : Z) (rs : replayState)
    : res (gmap string json) * replayState :=
  match hh_authVerifier h with
  | Some v =>
    let '(r, rs', _) := VerifyJSON ValidateWireUnicode DecodeStrict Marshal v payload RuntimeHeartbeatMessageType deviceID "" t rs tt in (r, rs')
  | None =>
    (match decodeMap payload with Some m => Ok (delete "auth" m) | None => notDecoded end, rs)
  end.

(** [Handle]: [t] is the verifier's clock in milliseconds, [now] the handler's
    in nanoseconds, [wallMS] and [mono] the registry's. *)
Definition Handle (h : RuntimeHeartbeatHandler) (t now wallMS mono : Z) (topic payload : string) (rs : replayState) (r : Registry)
    : res unit * replayState * Registry :=
  match DeviceIDFromRuntimeNodeHeartbeatTopic topic with
  | Err e => (Err e, rs, r)
  | Ok deviceID =>
    match refuseInexactHeartbeatMembers payload with
    | Err e => (Err e, rs, r)
    | Ok _ =>
      let '(u, rs') := unsignedPayload h deviceID payload t rs in
      match u with
      | Err e => (Err e, rs', r)
      | Ok unsigned =>
        match parseRuntimeHeartbeat unsigned with
        | Err e => (Err e, rs', r)
        | Ok (beat, reasons) =>
          match validate h now deviceID beat with
          | Err e => (Err e, rs', r)
          | Ok _ => (Ok tt, rs', Upsert wallMS mono (nodeOf beat reasons) r)
          end
        end
      end
    end
  end.

(** ** What a recorded heartbeat has shown *)
Lemma parse_facts members beat reasons :
  parseRuntimeHeartbeat members = Ok (beat, reasons) →
  validateRuntimeStatus (members !! "status") = Ok (b_Status beat) ∧
  validateDegradationReasons (members !! "degradation_reasons") (b_Status beat) = Ok reasons.
Proof.
  unfold parseRuntimeHeartbeat. destruct (validateRuntimeStatus (members !! "status")) as [status|] eqn:Es; [|done].
  destruct (validateDegradationReasons _ status) as [rr|] eqn:Er; [|done]. destruct (decodeRuntimeHeartbeat members) as [b|] eqn:Ed; [|done].
  intros [= <- <-]. assert (b_Status b = status) as E; [|by rewrite E].
  unfold validateRuntimeStatus in Es. destruct (members !! "status") as [[| | |raw| |]|] eqn:Em; try done.
  destruct (statusSeverity (unquote raw)); [|done]. injection Es as <-.
  unfold decodeRuntimeHeartbeat in Ed. destruct (decodeExactMember setStr "" members "device_id"); [|done].
  assert (decodeExactMember setStr "" members "status" = Ok (unquote raw)) as Hst by (unfold decodeExactMember; by rewrite Em).
  rewrite Hst in Ed. destruct (decodeExactMember setInt 0 members "last_seen_ms"); [|done].
  destruct (decodeExactMember setInt 0 members "gateway_seen_ms"); [|done].
  destruct (decodeExactMember setStrs [] members "active_triggers"); [|done].
  destruct (members !! "evidence") as [[| | | | |l]|]; try done; try (injection Ed as <-; done).
  destruct (decodeEvidence l); [|done]. by injection Ed as <-.
Qed.

Lemma validateTriggers_ok triggers :
  validateTriggers triggers = Ok tt → Forall (λ t, t ≠ "" ∧ TrimSpace t = t ∧ slen t ≤ maxActiveTriggerLength) triggers.
Proof.
  induction triggers as [|t l IH]; [by constructor|]. cbn. destruct (negb _ || _) eqn:E; [done|].
  apply orb_false_iff in E as [E1%negb_false_iff%bool_decide_eq_true E2%bool_decide_eq_false].
  destruct (Z.ltb_spec maxActiveTriggerLength (slen t)); [done|]. intros H0. constructor; [done|auto].
Qed.

Lemma validate_facts h now dev beat u :
  validate h now dev beat = Ok u →
  b_DeviceID beat = dev ∧ is_Some (statusSeverity (b_Status beat)) ∧
  0 < b_LastSeenMS beat ∧ b_LastSeenMS beat * Millisecond ≤ now + hh_maxFutureSkew h ∧
  Z.of_nat (length (b_ActiveTriggers beat)) ≤ hh_maxActiveTriggers h ∧
  Forall (λ t, t ≠ "" ∧ TrimSpace t = t ∧ slen t ≤ maxActiveTriggerLength) (b_ActiveTriggers beat) ∧
  (∀ e, b_Evidence beat = Some e → validateEvidenceSignal e = Ok tt).
Proof.
  unfold validate. case_bool_decide as E1; [|done]. cbn [negb]. case_bool_decide as E2; [done|].
  destruct (Z.leb_spec (b_LastSeenMS beat) 0); [done|]. destruct (Z.ltb_spec (now + hh_maxFutureSkew h) (b_LastSeenMS beat * Millisecond)); [done|].
  destruct (Z.ltb_spec (hh_maxActiveTriggers h) (Z.of_nat (length (b_ActiveTriggers beat)))); [done|].
  destruct (validateTriggers _) as [[]|] eqn:Et; [|done]. intros He. split_and!; try done; [by apply not_eq_None_Some|by apply validateTriggers_ok|].
  intros e Hb. rewrite Hb in He. by destruct u.
Qed.
End Handler.
End SiteBeat.
