(* ===== verification/SiteBeatSpec.v ===== *)
(** * What a recorded heartbeat has shown

    The judgement of member names on the wire bytes agrees with the reading of
    the same bytes as JSON, so that a heartbeat that is recorded has one
    reading; and what is recorded is what that reading says. *)
From S2P Require Import Prelude GoBytes Sha256 Json Contracts Heap Replay MqttAuth Site SiteSpec SiteBeat.
Import Contracts Replay MqttAuth Site SiteSpec SiteBeat.

Module SiteBeatSpec.

(** ** The JSON reader's fuel and depth do not change what it reads *)
Section Reader.
Let mono {A} (p : nat → Z → string → option A) (f : nat) : Prop :=
  ∀ d s x f' d', p f d s = Some x → (f ≤ f')%nat → d' ≤ d → p f' d' s = Some x.

Lemma reader_mono f : mono parseValue f ∧ mono parseMembers f ∧ mono parseElems f.
Proof.
  unfold mono. induction f as [|f (IV & IM & IE)]; [done|].
  split_and!; intros d s x [|f'] d' H Hf Hd; try lia; assert (f ≤ f')%nat as Hf' by lia.
  - cbn [parseValue] in *. destruct (skip s) as [|c r]; [done|]. destruct (bv c =? 123).
    + destruct (Z.leb_spec maxNestingDepth d); [done|]. destruct (Z.leb_spec maxNestingDepth d'); [lia|].
      destruct (skip r) as [|e r']; [done|]. destruct (bv e =? 125); [done|].
      destruct (parseMembers f (d + 1) (String e r')) as [[l rest]|] eqn:E; [|done].
      by rewrite (IM _ _ _ f' (d' + 1) E) by lia.
    + destruct (bv c =? 91); [|done]. destruct (Z.leb_spec maxNestingDepth d); [done|]. destruct (Z.leb_spec maxNestingDepth d'); [lia|].
      destruct (skip r) as [|e r']; [done|]. destruct (bv e =? 93); [done|].
      destruct (parseElems f (d + 1) (String e r')) as [[l rest]|] eqn:E; [|done].
      by rewrite (IE _ _ _ f' (d' + 1) E) by lia.
  - cbn [parseMembers] in *. destruct (skip s) as [|q r]; [done|]. destruct (bv q =? 34); [|done]. destruct (scanStr r) as [[k r1]|]; [|done].
    destruct (skip r1) as [|col r2]; [done|]. destruct (bv col =? 58); [|done].
    destruct (parseValue f d r2) as [[v r3]|] eqn:E; [|done]. rewrite (IV _ _ _ f' d' E) by lia.
    destruct (skip r3) as [|e r4]; [done|]. destruct (bv e =? 125); [done|]. destruct (bv e =? 44); [|done].
    destruct (parseMembers f d r4) as [[l rest]|] eqn:E2; [|done]. by rewrite (IM _ _ _ f' d' E2) by lia.
  - cbn [parseElems] in *. destruct (parseValue f d s) as [[v r3]|] eqn:E; [|done]. rewrite (IV _ _ _ f' d' E) by lia.
    destruct (skip r3) as [|e r4]; [done|]. destruct (bv e =? 93); [done|]. destruct (bv e =? 44); [|done].
    destruct (parseElems f d r4) as [[l rest]|] eqn:E2; [|done]. by rewrite (IE _ _ _ f' d' E2) by lia.
Qed.

Lemma parseValue_agree f d f' d' s x y : parseValue f d s = Some x → parseValue f' d' s = Some y → x = y.
Proof.
  intros Hx Hy. destruct (reader_mono f) as [M _], (reader_mono f') as [M' _].
  assert (parseValue (Nat.max f f') (Z.min d d') s = Some x) by (eapply M; [exact Hx|lia..]).
  assert (parseValue (Nat.max f f') (Z.min d d') s = Some y) by (eapply M'; [exact Hy|lia..]). congruence.
Qed.
End Reader.

(** ** The walk agrees with the reader *)
Definition exactNames (members : list string) (l : list (string * json)) (seen : gset string) : Prop :=
  judgeMembers members l seen = Ok tt.

Definition exactEvidence (l : list (string * json)) : Prop :=
  ∀ k le, (k, JObj le) ∈ l → unquote k = "evidence" → exactNames runtimeHeartbeatEvidenceMembers le ∅.

(** One member, as the reader and the walk see it. *)
Lemma members_step f d s l rest :
  parseMembers f d s = Some (l, rest) →
  ∃ f0 q r k r1 col r2 v r3 l', f = S f0 ∧ skip s = String q r ∧ bv q = 34 ∧ scanStr r = Some (k, r1) ∧
    skip r1 = String col r2 ∧ bv col = 58 ∧ parseValue f0 d r2 = Some (v, r3) ∧ l = (k, v) :: l' ∧
    (l' = [] ∨ ∃ e r4, skip r3 = String e r4 ∧ bv e = 44 ∧ parseMembers f0 d r4 = Some (l', rest)).
Proof.
  destruct f as [|f0]; [done|]. cbn [parseMembers]. destruct (skip s) as [|q r]; [done|]. destruct (Z.eqb_spec (bv q) 34); [|done].
  destruct (scanStr r) as [[k r1]|] eqn:Ek; [|done]. destruct (skip r1) as [|col r2] eqn:Ec; [done|]. destruct (Z.eqb_spec (bv col) 58); [|done].
  destruct (parseValue f0 d r2) as [[v r3]|] eqn:Ev; [|done]. destruct (skip r3) as [|e' r4] eqn:E3; [done|].
  destruct (bv e' =? 125); [intros [= <- <-]; eexists _, q, r, k, r1, col, r2, v, r3, []; split_and!; try done; by left|].
  destruct (Z.eqb_spec (bv e') 44); [|done]. destruct (parseMembers f0 d r4) as [[l' rest']|] eqn:Em; [|done].
  intros [= <- <-]. eexists _, q, r, k, r1, col, r2, v, r3, l'. split_and!; try done. right. by exists e', r4.
Qed.

Lemma nextValue_agree f d r1 col r2 v r3 x :
  skip r1 = String col r2 → bv col = 58 → parseValue f d r2 = Some (v, r3) → nextValue r1 = Some x → x = (v, r3).
Proof. intros Hs Hc Hp. unfold nextValue. rewrite Hs, Hc, Z.eqb_refl. intros H. exact (parseValue_agree _ _ _ _ _ _ _ H Hp). Qed.

(** The position of the next key: at the start, or after a comma. *)
Definition keysFrom (first : bool) (s s0 : string) : Prop :=
  if first then s0 = s else ∃ c, skip s = String c s0 ∧ bv c = 44.

Lemma walk_key first s s0 q r :
  keysFrom first s s0 → skip s0 = String q r → bv q = 34 →
  ∃ c r', skip s = String c r' ∧ bv c ≠ 125 ∧ bv c ≠ 93 ∧ nextKey first (String c r') = scanStr r.
Proof.
  unfold keysFrom, nextKey. destruct first.
  - intros -> Hs Hq. exists q, r. rewrite Hq. split_and!; done || lia.
  - intros (c & Hs & Hc) Hk Hq. exists c, s0. rewrite Hc, Z.eqb_refl, Hk, Hq. split_and!; done || lia.
Qed.

Lemma walk_agrees g f d first s s0 l rest seen :
  walkMembers g first s seen = Ok tt → keysFrom first s s0 → parseMembers f d s0 = Some (l, rest) →
  exactNames runtimeHeartbeatMembers l seen ∧ exactEvidence l.
Proof.
  revert f first s s0 l rest seen. induction g as [|g IH]; [done|]. intros f first s s0 l rest seen Hw Hk Hp.
  apply members_step in Hp as (f0 & q & r & k & r1 & col & r2 & v & r3 & l' & -> & Hq & Hq34 & Hscan & Hc & Hc58 & Hv & -> & Hrest).
  destruct (walk_key first s s0 q r Hk Hq Hq34) as (c & r' & Hs & N1 & N2 & Hn). cbn [walkMembers] in Hw. rewrite Hs, Hn, Hscan in Hw.
  replace ((bv c =? 125) || (bv c =? 93)) with false in Hw by lia. unfold exactNames. cbn [judgeMembers].
  destruct (caseVariant runtimeHeartbeatMembers (unquote k)); [done|].
  destruct (nextValue r1) as [x|] eqn:Enx; [|done]. apply (nextValue_agree _ _ _ _ _ _ _ _ Hc Hc58 Hv) in Enx as ->.
  destruct (judgeName runtimeHeartbeatMembers (unquote k) seen) as [seen'|]; [|done].
  assert (walkMembers g false r3 seen' = Ok tt ∧ (∀ le, v = JObj le → unquote k = "evidence" → exactNames runtimeHeartbeatEvidenceMembers le ∅)) as [Hw' He].
  { case_bool_decide as Hev; [|split; [done|by intros]]. destruct v; try (split; [done|by intros]).
    destruct (judgeMembers runtimeHeartbeatEvidenceMembers l ∅) as [[]|] eqn:Ej; [|done]. split; [done|]. by intros ? [= <-] _. }
  assert (judgeMembers runtimeHeartbeatMembers l' seen' = Ok tt ∧ exactEvidence l') as [Hl1 Hl2].
  { destruct Hrest as [->|(e & r4 & H3 & H44 & Hm)]; [split; [done|intros ? ? ?%not_elem_of_nil; done]|].
    eapply IH; [exact Hw'|by exists e|exact Hm]. }
  split; [done|]. intros k' le [[= -> <-]|Hin]%elem_of_cons; [by apply He|by eapply Hl2].
Qed.

(** The object a payload starts with has exactly named members. *)
Lemma refuse_agrees payload f d l rest :
  refuseInexactHeartbeatMembers payload = Ok tt → parseValue f d payload = Some (JObj l, rest) →
  exactNames runtimeHeartbeatMembers l ∅ ∧ exactEvidence l.
Proof.
  unfold refuseInexactHeartbeatMembers. destruct f as [|f]; [done|]. cbn [parseValue]. destruct (skip payload) as [|c r]; [done|].
  destruct (bv c =? 123); [|done]. intros Hw. destruct (_ <=? _); [done|]. destruct (skip r) as [|e r'] eqn:Er; [done|].
  destruct (bv e =? 125); [intros [= <- _]; split; [done|by intros ? ? ?%not_elem_of_nil]|].
  destruct (parseMembers f (d + 1) (String e r')) as [[l0 rest0]|] eqn:Em; [|done]. intros [= <- <-].
  assert (∀ t, skip (skip t) = skip t) as Hskip.
  { intros t. induction t as [|a t IHt]; [done|]. cbn [skip]. destruct (is_ws a) eqn:Ea; [done|]. cbn [skip]. by rewrite Ea. }
  assert (parseMembers f (d + 1) r = Some (l0, rest0)) as Hm.
  { destruct f as [|f]; [done|]. cbn [parseMembers] in Em |- *. by rewrite <-Er, Hskip in Em. }
  by eapply walk_agrees.
Qed.

(** ** One reading *)
Definition namesOf (l : list (string * json)) : list string := unquote ∘ fst <$> l.

(** No name is a case variant of a contract member, and each contract member
    is named at most once. *)
Definition oneReading (members : list string) (l : list (string * json)) : Prop :=
  Forall (λ n, caseVariant members n = false) (namesOf l) ∧ NoDup (filter (.∈ members) (namesOf l)).

Lemma exactNames_spec members l seen :
  exactNames members l seen → oneReading members l ∧ Forall (λ n, n ∈ members → n ∉ seen) (namesOf l).
Proof.
  unfold exactNames, oneReading. revert seen. induction l as [|[k v] l IH]; intros seen; [repeat constructor|].
  cbn [judgeMembers namesOf fmap list_fmap compose fst]. fold (namesOf l). destruct (caseVariant members (unquote k)) eqn:Ev; [done|].
  unfold judgeName. rewrite filter_cons. destruct (decide (unquote k ∈ members)) as [Hm|Hm].
  - rewrite (bool_decide_true (unquote k ∈ members)) by done. cbn [negb]. case_bool_decide as Hs; [done|].
    intros [[H1 H2] H3]%IH. split; [split; [by constructor|]|].
    + apply NoDup_cons. split; [|done]. intros [_ Hin]%list_elem_of_filter. rewrite Forall_forall in H3. specialize (H3 _ Hin Hm). set_solver.
    + constructor; [done|]. eapply Forall_impl; [exact H3|]. cbn. set_solver.
  - rewrite (bool_decide_false (unquote k ∈ members)) by done. cbn [negb]. intros [[H1 H2] H3]%IH.
    split; [split; [by constructor|done]|]. by constructor.
Qed.

Section Recorded.
Context (ValidateWireUnicode : string → bool) (DecodeStrict : list string → string → option strictError).
Context (Marshal : gmap string json → res string).

(** What the bytes of a heartbeat of [dev] said when it was accepted. *)
Definition heartbeatOf (h : RuntimeHeartbeatHandler) (now : Z) (dev payload : string) (n : NodeHeartbeat) : Prop :=
  ∃ l rest beat reasons, parseValue (S (2 * String.length payload)) 0 payload = Some (JObj l, rest) ∧
    oneReading runtimeHeartbeatMembers l ∧
    (∀ k le, (k, JObj le) ∈ l → unquote k = "evidence" → oneReading runtimeHeartbeatEvidenceMembers le) ∧
    parseRuntimeHeartbeat (delete "auth" (toMap l)) = Ok (beat, reasons) ∧ n = nodeOf beat reasons ∧
    nh_DeviceID n = dev ∧ is_Some (statusSeverity (nh_Status n)) ∧
    (∀ tokens, nh_DegradationReasons n = Some tokens → goodReasons tokens (nh_Status n)) ∧
    0 < nh_LastSeenMS n ∧ nh_LastSeenMS n * Millisecond ≤ now + hh_maxFutureSkew h ∧
    Z.of_nat (length (nh_ActiveTriggers n)) ≤ hh_maxActiveTriggers h.

Lemma decodeMap_object payload m :
  decodeMap payload = Some m → refuseInexactHeartbeatMembers payload = Ok tt →
  ∃ l rest, parseValue (S (2 * String.length payload)) 0 payload = Some (JObj l, rest) ∧ m = toMap l.
Proof.
  unfold decodeMap. destruct (parseValue _ 0 payload) as [[[| | | | |l] rest]|] eqn:E; try done; [|by intros [= <-] _; exists l, rest].
  intros [= <-]. unfold refuseInexactHeartbeatMembers. cbn [parseValue] in E. destruct (skip payload) as [|c r]; [done|].
  destruct (bv c =? 123); [|done]. destruct (_ <=? _); [done|]. destruct (skip r) as [|e r']; [done|]. destruct (bv e =? 125); [done|].
  by destruct (parseMembers _ _ _) as [[]|].
Qed.

Lemma unsignedPayload_ok h dev payload t rs unsigned rs' :
  unsignedPayload ValidateWireUnicode DecodeStrict Marshal h dev payload t rs = (Ok unsigned, rs') →
  (∃ m, decodeMap payload = Some m ∧ unsigned = delete "auth" m) ∧
  ∀ v, hh_authVerifier h = Some v → ∃ auth,
    openEnvelope ValidateWireUnicode DecodeStrict Marshal v payload RuntimeHeartbeatMessageType dev "" = Ok (auth, unsigned) ∧
    check (replayKey RuntimeHeartbeatMessageType dev "" (ha_SignedAtMS auth) (ha_Signature auth)) (ha_SignedAtMS auth) t (prune t rs) = None.
Proof.
  unfold unsignedPayload. destruct (hh_authVerifier h) as [v|].
  - unfold VerifyJSON, verifyJSON. destruct (openEnvelope _ _ _ v payload _ dev "") as [[auth un]|] eqn:Eo; [|done].
    unfold checkFreshAndRecord. cbn [fmap option_fmap option_map]. destruct (check _ _ _ _) eqn:Ec; [done|]. intros [= <- _].
    split; [|intros ? [= <-]; by exists auth]. apply openEnvelope_ok in Eo as (env & canonical & Hd & -> & _). by exists env.
  - destruct (decodeMap payload) as [m|]; [|done]. intros [= <- _]. split; [by exists m|done].
Qed.

(** A heartbeat changes the registry only by being accepted, and then it is
    recorded as exactly what its bytes say. The bytes have one reading: no
    member, of the heartbeat or of its evidence, is misspelled by case and none
    is named twice. With a verifier configured they carry a valid signature for
    the device of the topic and are fresh. The recorded node is that device,
    its status is one of the three, its reasons are acceptable for that
    status, its own clock is positive and not too far ahead, and its triggers
    are within their number. A refused heartbeat leaves the registry as it
    was. *)
Theorem heartbeat_recorded_as_read h t now wallMS mono topic payload rs r res rs' r' :
  Handle ValidateWireUnicode DecodeStrict Marshal h t now wallMS mono topic payload rs r = (res, rs', r') →
  (is_ok res = false ∧ r' = r) ∨
  ∃ dev n, res = Ok tt ∧ RuntimeNodeHeartbeatTopic dev = Ok topic ∧ r' = Upsert wallMS mono n r ∧ heartbeatOf h now dev payload n ∧
    (∀ v, hh_authVerifier h = Some v → ∃ auth unsigned,
       openEnvelope ValidateWireUnicode DecodeStrict Marshal v payload RuntimeHeartbeatMessageType dev "" = Ok (auth, unsigned) ∧
       check (replayKey RuntimeHeartbeatMessageType dev "" (ha_SignedAtMS auth) (ha_Signature auth)) (ha_SignedAtMS auth) t (prune t rs) = None).
Proof.
  unfold Handle. destruct (DeviceIDFromRuntimeNodeHeartbeatTopic topic) as [dev|] eqn:Et; [|intros [= <- _ <-]; by left].
  destruct (refuseInexactHeartbeatMembers payload) as [[]|] eqn:Er; [|intros [= <- _ <-]; by left].
  destruct (unsignedPayload _ _ _ h dev payload t rs) as [[unsigned|] rs1] eqn:Eu; [|intros [= <- _ <-]; by left].
  destruct (parseRuntimeHeartbeat unsigned) as [[beat reasons]|] eqn:Ep; [|intros [= <- _ <-]; by left].
  destruct (validate h now dev beat) as [[]|] eqn:Ev; [|intros [= <- _ <-]; by left].
  intros [= <- _ <-]. right. exists dev, (nodeOf beat reasons). split; [done|].
  apply unsignedPayload_ok in Eu as [(m & Hm & ->) Hv].
  split; [exact (proj2 (deviceFrom_iff "/runtime/heartbeat" ["runtime"; "heartbeat"] _ dev topic eq_refl eq_refl) Et)|]. split; [done|].
  split; [|intros v Hh; destruct (Hv v Hh) as (auth & ? & ?); by exists auth, (delete "auth" m)].
  destruct (decodeMap_object _ _ Hm Er) as (l & rest & Hl & ->). destruct (refuse_agrees _ _ _ _ _ Er Hl) as [[H1 _]%exactNames_spec He].
  apply validate_facts in Ev as (<- & Hs & Hp & Hf & Ht & _). destruct (parse_facts _ _ _ Ep) as [_ Hr].
  exists l, rest, beat, reasons. split_and!; try done.
  - intros k le Hin Hk. apply (exactNames_spec _ _ ∅). by apply (He k le).
  - intros tokens Htk. cbn in Htk. rewrite Htk in Hr. by apply acceptedReasons in Hr.
Qed.
End Recorded.

(** ** An instance *)
Definition exBeatPayload : string :=
  dq "{'device_id':'pump-1','status':'degraded','last_seen_ms':5000,'active_triggers':['flood'],'degradation_reasons':['sensor_stale','subsystem_starting']}".
Definition exBeatHandler : RuntimeHeartbeatHandler := NewRuntimeHeartbeatHandler None 0 0.
Definition exHandled : res unit * replayState * Registry :=
  Handle (λ _, true) (λ _ _, None) (λ _, Err (EMsg "unused")) exBeatHandler 5000 (5000 * Millisecond) 5000 0
    "ori/pump-1/runtime/heartbeat" exBeatPayload (newReplayState 0 0 false 0 0) NewRegistry.

Lemma heartbeat_recorded_as_read_witness :
  ∃ n, exHandled.2 = Upsert 5000 0 n NewRegistry ∧ heartbeatOf exBeatHandler (5000 * Millisecond) "pump-1" exBeatPayload n.
Proof.
  destruct exHandled as [[res rs'] r'] eqn:E. cbn [snd].
  destruct (heartbeat_recorded_as_read _ _ _ _ _ _ _ _ _ _ _ _ _ _ _ E) as [[Hr _]|(dev & n & _ & Ht & Hu & Hb & _)].
  - exfalso. apply (f_equal (λ x, is_ok x.1.1)) in E. cbn in E. rewrite Hr in E. vm_compute in E. done.
  - exists n. split; [exact Hu|]. assert (dev = "pump-1") as <-; [|exact Hb].
    apply (deviceFrom_iff "/runtime/heartbeat" ["runtime"; "heartbeat"] "" dev _ eq_refl eq_refl) in Ht. vm_compute in Ht. by injection Ht as <-.
Defined.
End SiteBeatSpec.
