(* ===== verification/AsyncLog.v ===== *)
(** * Logging off the caller's path (asynclog/asynclog.go, runtimeclient/notes.go)

    Records are queued under a lock and written by one drainer at a time; past
    a bound they are counted instead, and the count is written after what was
    queued before it. The drainer's goroutine is a program counter in the
    state: between two of its steps any number of callers may log. *)
From S2P Require Import Prelude GoBytes.

Module AsyncLog.

Definition MaxQueued : nat := 1024.
Definition maxNotes : nat := 64.

Section Log.
(** A record with the handler it is written to, and what that handler's
    [Enabled] says of it. *)
Context {R : Type} (enabled : R → bool).
(** How many records are queued before more are counted: [MaxQueued], or
    [maxNotes] of the export client's log. *)
Context (bound : nat).
Hypothesis bound_pos : (0 < bound)%nat.

(** Where the drainer is: about to take the lock, writing a record it took, or
    writing the count of the records dropped. *)
Inductive drainer := AtLock | Writing (r : R) | Counting (n : nat).

Inductive line := LRecord (r : R) | LDropped (n : nat).

Record Queue := MkLog {
  lq_records : list R; lq_draining : bool; lq_dropped : nat;
  lq_drainer : option drainer;   (* the goroutine started by [add], until it returns *)
  lq_written : list line }.      (* what the destination was given, in order *)

Definition emptyQueue : Queue := MkLog [] false 0 None [].

(** [add]. *)
Definition add (r : R) (q : Queue) : Queue :=
  if (bound <=? length (lq_records q))%nat
  then MkLog (lq_records q) (lq_draining q) (S (lq_dropped q)) (lq_drainer q) (lq_written q)
  else MkLog (lq_records q ++ [r]) true (lq_dropped q) (if lq_draining q then lq_drainer q else Some AtLock) (lq_written q).

(** [drain], from one point where it holds or takes the lock, or returns from
    a handler, to the next. *)
Definition drain (q : Queue) : Queue :=
  match lq_drainer q with
  | None => q
  | Some (Writing r) =>
    MkLog (lq_records q) (lq_draining q) (lq_dropped q) (Some AtLock)
      (if enabled r then lq_written q ++ [LRecord r] else lq_written q)
  | Some (Counting n) => MkLog (lq_records q) (lq_draining q) (lq_dropped q) (Some AtLock) (lq_written q ++ [LDropped n])
  | Some AtLock =>
    match lq_records q with
    | r :: rest => MkLog rest (lq_draining q) (lq_dropped q) (Some (Writing r)) (lq_written q)
    | [] =>
      if (lq_dropped q =? 0)%nat then MkLog [] false 0 None (lq_written q)
      else MkLog [] (lq_draining q) 0 (Some (Counting (lq_dropped q))) (lq_written q)
    end
  end.

(** One look of [Flush]: it answers as soon as nothing is being drained. *)
Definition flushed (q : Queue) : bool := negb (lq_draining q).

(** ** Histories *)

(** The queue with what was logged so far and how many records [add] refused. *)
Inductive lstep : Queue * list R * nat → Queue * list R * nat → Prop :=
| l_kept r q log n : (length (lq_records q) < bound)%nat → lstep (q, log, n) (add r q, log ++ [r], n)
| l_dropped r q log n : (bound ≤ length (lq_records q))%nat → lstep (q, log, n) (add r q, log, S n)
| l_drain q log n : is_Some (lq_drainer q) → lstep (q, log, n) (drain q, log, n).

Definition recordsOf (ls : list line) : list R := omap (λ l, match l with LRecord r => Some r | LDropped _ => None end) ls.
Definition countsOf (ls : list line) : nat := sum_list_with (λ l, match l with LRecord _ => 0%nat | LDropped n => n end) ls.

#[local] Arguments countsOf : simpl never.
#[local] Arguments recordsOf : simpl never.

Definition inHand (q : Queue) : list R := match lq_drainer q with Some (Writing r) => [r] | _ => [] end.
Definition counting (q : Queue) : nat := match lq_drainer q with Some (Counting n) => n | _ => 0%nat end.

Record accounted (q : Queue) (log : list R) (n : nat) : Prop := {
  ac_order : filter (λ r, enabled r = true) log = recordsOf (lq_written q) ++ filter (λ r, enabled r = true) (inHand q ++ lq_records q);
  ac_dropped : n = (countsOf (lq_written q) + counting q + lq_dropped q)%nat;
  ac_drainer : lq_draining q = true ↔ is_Some (lq_drainer q);
  ac_idle : lq_draining q = false → lq_records q = [] ∧ lq_dropped q = 0%nat;
  ac_bound : (length (lq_records q) ≤ bound)%nat }.

Lemma add_accounted r q log n :
  accounted q log n →
  accounted (add r q) (if (bound <=? length (lq_records q))%nat then log else log ++ [r])
    (if (bound <=? length (lq_records q))%nat then S n else n).
Proof.
  intros [O D G I B]. unfold add. destruct (Nat.leb_spec bound (length (lq_records q))).
  - split; cbn; try done; [unfold counting in *; cbn; lia|]. intros Hd. apply I in Hd as [Hr _]. rewrite Hr in *. cbn in *. lia.
  - destruct (lq_draining q) eqn:Ed.
    + split; cbn; try done; [|rewrite length_app; cbn; lia]. rewrite filter_app, O, <-app_assoc, <-filter_app. unfold inHand. cbn. by rewrite <-app_assoc.
    + destruct (I eq_refl) as [Hr _]. assert (lq_drainer q = None) as Hn by (destruct (lq_drainer q); [by destruct G as [_ G]; discriminate G|done]).
      split; cbn; try done; [|unfold counting in *; cbn; by rewrite Hn in D|rewrite length_app; cbn; lia].
      rewrite filter_app, O. unfold inHand. cbn. rewrite Hn, Hr. cbn. by rewrite app_nil_r.
Qed.

Lemma drain_accounted q log n : accounted q log n → accounted (drain q) log n.
Proof.
  intros HA. unfold drain. destruct (lq_drainer q) as [pc|] eqn:Ed; [|done]. destruct HA as [O D G I B].
  assert (lq_draining q = true) as Hd by (apply G; rewrite Ed; by eexists). rewrite Hd. unfold inHand, counting in O, D. rewrite Ed in O, D.
  destruct pc as [|r|m].
  - destruct (lq_records q) as [|r rest] eqn:Er.
    + destruct (Nat.eqb_spec (lq_dropped q) 0) as [E0|E0]; split; cbn; try done; try lia.
    + cbn in B. split; cbn; try done. lia.
  - split; cbn; try done.
    + rewrite O. cbn [app]. rewrite filter_cons. destruct (enabled r) eqn:Ee; [|by rewrite decide_False].
      rewrite decide_True by done. unfold recordsOf. rewrite omap_app. cbn. by rewrite <-app_assoc.
    + destruct (enabled r); [|lia]. unfold countsOf in *. rewrite sum_list_with_app. cbn. lia.
  - split; cbn; try done.
    + rewrite O. unfold recordsOf. rewrite omap_app. cbn. by rewrite app_nil_r.
    + unfold countsOf in *. rewrite sum_list_with_app. cbn. lia.
Qed.

Lemma lstep_accounted c c' : lstep c c' → accounted c.1.1 c.1.2 c.2 → accounted c'.1.1 c'.1.2 c'.2.
Proof.
  intros Hs HA. destruct Hs as [r q log n Hl|r q log n Hl|q log n Hd]; cbn in *; [| |by apply drain_accounted].
  - pose proof (add_accounted r q log n HA) as H. by rewrite (proj2 (Nat.leb_gt _ _) Hl) in H.
  - pose proof (add_accounted r q log n HA) as H. by rewrite (proj2 (Nat.leb_le _ _) Hl) in H.
Qed.

Lemma reachable_accounted q log n : rtc lstep (emptyQueue, [], 0%nat) (q, log, n) → accounted q log n.
Proof.
  assert (∀ c c', rtc lstep c c' → accounted c.1.1 c.1.2 c.2 → accounted c'.1.1 c'.1.2 c'.2) as Hr
    by (induction 1; eauto using lstep_accounted).
  intros H. apply (Hr _ _ H). split; cbn; try done. lia.
Qed.

(** ** The drainer ends *)
Definition drainSteps (q : Queue) : nat :=
  match lq_drainer q with
  | None => 0
  | Some pc => 2 * length (lq_records q) + (if (lq_dropped q =? 0)%nat then 0 else 2) + (match pc with AtLock => 1 | _ => 2 end)
  end.

Lemma drain_progress q : is_Some (lq_drainer q) → drainSteps q = S (drainSteps (drain q)).
Proof.
  intros [pc Hpc]. unfold drainSteps, drain. rewrite Hpc. destruct pc as [|r|m]; cbn; try lia.
  destruct (lq_records q) as [|r rest]; cbn; [|lia]. destruct (Nat.eqb_spec (lq_dropped q) 0); cbn; lia.
Qed.

Lemma drain_ends q log n :
  accounted q log n → accounted (Nat.iter (drainSteps q) drain q) log n ∧ lq_drainer (Nat.iter (drainSteps q) drain q) = None.
Proof.
  remember (drainSteps q) as k eqn:Ek. revert q Ek. induction k as [|k IH]; intros q Ek HA.
  - split; [done|]. cbn. destruct (lq_drainer q) eqn:E; [|done]. unfold drainSteps in Ek. rewrite E in Ek. destruct d; lia.
  - destruct (lq_drainer q) as [pc|] eqn:E; [|unfold drainSteps in Ek; by rewrite E in Ek].
    rewrite Nat.iter_succ_r. apply IH; [|by apply drain_accounted].
    pose proof (drain_progress q ltac:(rewrite E; by eexists)). lia.
Qed.
End Log.

(** The gateway's log and the export client's differ in the bound. *)
Definition addRecord {R} : R → @Queue R → @Queue R := add MaxQueued.
Definition queueNote {R} : R → @Queue R → @Queue R := add maxNotes.


Definition exLogged : @Queue nat := queueNote 2%nat (drain (λ _, true) (queueNote 1%nat emptyQueue)).

End AsyncLog.
