(* ===== verification/Float64.v ===== *)
(** * [float64]: IEEE 754 binary64, its decimal forms and [math.Round]

    Arithmetic is the Standard Library's [SpecFloat] at precision 53 and
    exponent 1024, rounding to nearest even as Go does. Reading a JSON number
    is [strconv.ParseFloat], correctly rounded; writing one is the form
    [encoding/json] gives: the shortest digits that read back as the same
    value, the nearest of them, in positional notation unless the exponent is
    below -6 or above 20. *)
From Stdlib Require Import SpecFloat.
From S2P Require Import Prelude GoBytes Json.

Module Float64.
Definition float64 : Type := spec_float.

#[global] Instance float64_eq_dec : EqDecision float64.
Proof. unfold float64. solve_decision. Defined.

Definition fprec : Z := 53.
Definition femax : Z := 1024.

Definition fzero : float64 := S754_zero false.
Definition ofInt (n : Z) : float64 := binary_normalize fprec femax n 0 false.
Definition fadd : float64 → float64 → float64 := SFadd fprec femax.
Definition fsub : float64 → float64 → float64 := SFsub fprec femax.
Definition fmul : float64 → float64 → float64 := SFmul fprec femax.
Definition fdiv : float64 → float64 → float64 := SFdiv fprec femax.
Definition fltb : float64 → float64 → bool := SFltb.
Definition fleb : float64 → float64 → bool := SFleb.
Definition feqb : float64 → float64 → bool := SFeqb.

Definition isNaN (f : float64) : bool := match f with S754_nan => true | _ => false end.
Definition finite (f : float64) : bool := match f with S754_zero _ | S754_finite _ _ _ => true | _ => false end.

(** ** Reading *)

(** The value [± digits * 10 ^ e], rounded once. *)
Definition ofDecimal (neg : bool) (digits e : Z) : float64 :=
  match digits with
  | Zpos m =>
    if 0 <=? e then binary_normalize fprec femax ((if neg then Z.opp else id) (Zpos m * 10 ^ e)) 0 neg
    else match 10 ^ (- e) with
         | Zpos d => fdiv (S754_finite neg m 0) (S754_finite false d 0)
         | _ => S754_nan
         end
  | _ => S754_zero neg
  end.

(** A JSON number literal as sign, digits and power of ten. *)
Definition readLiteral (lit : string) : option (bool * Z * Z) :=
  let '(neg, s0) := match lit with String "-" r => (true, r) | _ => (false, lit) end in
  let '(i, s1) := spanDigits s0 in
  let '(f, s2) := match s1 with String "." r => spanDigits r | _ => ("", s1) end in
  match readDigits (i +:+ f) 0 with
  | None => None
  | Some digits =>
    match s2 with
    | EmptyString => Some (neg, digits, - slen f)
    | String _ r =>
      let '(eneg, ed) := match r with String "-" r' => (true, r') | String "+" r' => (false, r') | _ => (false, r) end in
      match readDigits ed 0 with
      | None => None
      | Some e => Some (neg, digits, (if eneg then - e else e) - slen f)
      end
    end
  end.

(** [strconv.ParseFloat(lit, 64)]: [None] out of range. *)
Definition ParseFloat (lit : string) : option float64 :=
  match readLiteral lit with
  | None => None
  | Some (neg, digits, e) => let f := ofDecimal neg digits e in if finite f then Some f else None
  end.

Definition setFloat (v : json) (old : float64) : float64 * bool :=
  match v with
  | JNum lit => match ParseFloat lit with Some f => (f, true) | None => (old, false) end
  | JNull => (old, true)
  | _ => (old, false)
  end.

(** ** Writing *)

(** [m * 2 ^ e] as a fraction. *)
Definition fraction (m : positive) (e : Z) : Z * Z :=
  if 0 <=? e then (Zpos m * 2 ^ e, 1) else (Zpos m, 2 ^ (- e)).

(** The power of ten of the leading digit of [n / d]: the greatest [k] with
    [10 ^ k <= n / d]. It is sought downwards from a start the binary
    logarithms give, a step or two above it. *)
Fixpoint leading (fuel : nat) (k : Z) (n d : Z) : Z :=
  match fuel with
  | O => k
  | S fuel' => if (if 0 <=? k then 10 ^ k * d <=? n else d <=? n * 10 ^ (- k)) then k else leading fuel' (k - 1) n d
  end.

Definition leadingStart (n d : Z) : Z := (Z.log2 n - Z.log2 d + 1) * 30103 / 100000 + 1.

(** [n / d] in units of [10 ^ q]: the fraction again. *)
Definition inUnits (n d q : Z) : Z * Z := if 0 <=? q then (n, d * 10 ^ q) else (n * 10 ^ (- q), d).

(** The nearer of the two whole numbers around [n / d] that read back, an even
    one on a tie. *)
Definition nearest (back : Z → bool) (n d : Z) : option Z :=
  let lo := n / d in
  let rest := n mod d in
  if rest =? 0 then (if back lo then Some lo else None)
  else
    let hi := lo + 1 in
    let loFirst := (2 * rest <? d) || ((2 * rest =? d) && Z.even lo) in
    if loFirst then (if back lo then Some lo else if back hi then Some hi else None)
    else (if back hi then Some hi else if back lo then Some lo else None).

(** The shortest digits, with the power of ten of the last one. *)
Fixpoint shortest (fuel : nat) (p : Z) (f : float64) (top n d : Z) : Z * Z :=
  let q := top - p + 1 in
  let '(n', d') := inUnits n d q in
  match nearest (λ c, bool_decide (ofDecimal false c q = f)) n' d' with
  | Some c => (c, q)
  | None => match fuel with O => (n' / d', q) | S fuel' => shortest fuel' (p + 1) f top n d end
  end.

Fixpoint zeros (n : nat) : string := match n with O => "" | S n' => String "0" (zeros n') end.

Fixpoint stripZeros (fuel : nat) (c q : Z) : Z * Z :=
  match fuel with
  | O => (c, q)
  | S fuel' => if (c mod 10 =? 0) && negb (c =? 0) then stripZeros fuel' (c / 10) (q + 1) else (c, q)
  end.

(** Digits [ds] whose last stands at [10 ^ q], in positional notation. *)
Definition positional (ds : string) (q : Z) : string :=
  if 0 <=? q then ds +:+ zeros (Z.to_nat q)
  else
    let point := slen ds + q in
    if 0 <? point then
      String.substring 0 (Z.to_nat point) ds +:+ "." +:+ String.substring (Z.to_nat point) (Z.to_nat (- q)) ds
    else "0." +:+ zeros (Z.to_nat (- point)) +:+ ds.

(** One digit, the rest after a point, and the exponent as [encoding/json]
    cleans it: two digits at least, but a single one after a minus sign. *)
Definition scientific (ds : string) (q : Z) : string :=
  let e := slen ds - 1 + q in
  String.substring 0 1 ds +:+ (if slen ds <? 2 then "" else "." +:+ String.substring 1 (String.length ds - 1) ds) +:+
  "e" +:+ (if e <? 0 then "-" +:+ FormatInt (- e) else "+" +:+ (if e <? 10 then "0" else "") +:+ FormatInt e).

(** [encoding/json]'s form of a [float64]; [None] for what it refuses. *)
Definition formatFloat (f : float64) : option string :=
  match f with
  | S754_zero neg => Some (if neg then "-0" else "0")
  | S754_finite neg m e =>
    let '(n, d) := fraction m e in
    let top := leading 5 (leadingStart n d) n d in
    let '(c0, q0) := shortest 17 1 (S754_finite false m e) top n d in
    let '(c, q) := stripZeros 20 c0 q0 in
    let ds := FormatInt c in
    let e10 := slen ds - 1 + q in
    Some ((if neg then "-" else "") +:+
          (if (e10 <? -6) || (20 <? e10) then scientific ds q else positional ds q))
  | _ => None
  end.

(** ** [math.Round]: half away from zero, the sign kept *)
Definition Round (f : float64) : float64 :=
  match f with
  | S754_finite neg m e =>
    if 0 <=? e then f
    else
      let r := (2 * Zpos m + 2 ^ (- e)) / (2 * 2 ^ (- e)) in
      binary_normalize fprec femax (if neg then - r else r) 0 neg
  | _ => f
  end.

(** ** Durations: nanoseconds in an [int64] *)
Definition nanos : Z := 1000000000.

(** [t.Sub(u)] saturates. *)
Definition timeBetween (t u : Z) : Z := Z.max i64_min (Z.min i64_max (t - u)).

(** [Duration.Seconds]. *)
Definition Seconds (d : Z) : float64 := fadd (ofInt (Z.quot d nanos)) (fdiv (ofInt (Z.rem d nanos)) (ofInt nanos)).

(** [min] of two numbers that are not NaN. *)
Definition fmin (x y : float64) : float64 := if fltb y x then y else x.

Example read_write :
  (λ s, ParseFloat s ≫= formatFloat) <$>
    ["0.1"; "1"; "-2.50"; "1e21"; "1.5e-7"; "123456789012345680000"; "0.000001"; "5e-324"; "1.7976931348623157e308";
     "9007199254740993"; "1125899906842624.25"; "1e-7"; "-0"; "1e400"; "100"; "0.30000000000000004"; "9.5367431640625e-7"]
  = (Some <$> ["0.1"; "1"; "-2.5"; "1e+21"; "1.5e-7"; "123456789012345680000"; "0.000001"; "5e-324"; "1.7976931348623157e+308";
     "9007199254740992"; "1125899906842624.2"; "1e-7"; "-0"]) ++ [None] ++ (Some <$> ["100"; "0.30000000000000004"; "9.5367431640625e-7"]).
Proof. vm_compute. reflexivity. Qed.
End Float64.
