(* ===== verification/FloatBounds.v ===== *)
(** * Rounding of [float64] on values that are not negative

    What the token buckets need of binary64: the operations of [Float64] stay
    canonical and finite, the comparisons are those of the values, and every
    result is off its exact value by at most a unit in the last place. Values
    are rationals. *)
From Stdlib Require Import SpecFloat QArith Qpower Qminmax Lqa.
From S2P Require Import Prelude GoBytes Json Float64.

Module FloatBounds.
Import Float64.

(** ** Powers of two *)
Definition bp (e : Z) : Q := Qpower 2 e.

Lemma bp_pos e : (0 < bp e)%Q.
Proof. apply Qpower_0_lt. reflexivity. Qed.

Lemma bp_add a b : (bp (a + b) == bp a * bp b)%Q.
Proof. apply Qpower_plus. discriminate. Qed.

Lemma bp_le a b : (a ≤ b)%Z → (bp a <= bp b)%Q.
Proof. intros H. apply Qpower_le_compat_l; [done|]. discriminate. Qed.

Lemma bp_Z k : (0 ≤ k)%Z → (bp k == inject_Z (2 ^ k))%Q.
Proof. intros H. symmetry. apply Zpower_Qpower. done. Qed.

Definition mag (m e : Z) : Q := (inject_Z m * bp e)%Q.

Lemma mag_le m n e : (m ≤ n)%Z → (mag m e <= mag n e)%Q.
Proof. intros H. apply Qmult_le_compat_r; [by rewrite <-Zle_Qle|]. apply Qlt_le_weak, bp_pos. Qed.

Lemma mag_nonneg m e : (0 ≤ m)%Z → (0 <= mag m e)%Q.
Proof.
  intros H. apply Qmult_le_0_compat; [|apply Qlt_le_weak, bp_pos]. change 0%Q with (inject_Z 0). by rewrite <-Zle_Qle.
Qed.

Lemma mag_shift m e k : (0 ≤ k)%Z → (mag (m * 2 ^ k) e == mag m (e + k))%Q.
Proof. intros H. unfold mag. rewrite bp_add, inject_Z_mult, (bp_Z k) by done. ring. Qed.

Lemma mag_succ m e : (mag (m + 1) e == mag m e + bp e)%Q.
Proof. unfold mag. rewrite inject_Z_plus. ring. Qed.

(** ** Values *)
Definition val (f : float64) : Q :=
  match f with S754_finite s m e => mag (if s then Zneg m else Zpos m) e | _ => 0%Q end.

Definition nonneg (f : float64) : Prop :=
  match f with S754_zero _ => True | S754_finite false m e => bounded fprec femax m e = true | _ => False end.

(** The error of one rounding. *)
Definition ulps (x : Q) : Q := (bp (-52) * x + bp (-1074))%Q.
Definition near (y x : Q) : Prop := (x - ulps x <= y /\ y <= x + ulps x)%Q.

Lemma val_nonneg f : nonneg f → (0 <= val f)%Q.
Proof. destruct f as [| | |[] m e]; cbn; try done. intros _. by apply mag_nonneg. Qed.

(** ** Digits and shifts *)
Lemma digits_log2 m : Zpos (digits2_pos m) = Z.log2 (Zpos m) + 1.
Proof. induction m as [m IH|m IH|]; cbn [digits2_pos]; [| |done]; rewrite Pos2Z.inj_succ, IH; destruct m; cbn; lia. Qed.

Lemma Zdigits_bounds m : 0 < m → 2 ^ (Zdigits2 m - 1) ≤ m < 2 ^ Zdigits2 m.
Proof.
  intros H. destruct m as [|m|]; [lia| |lia]. cbn [Zdigits2]. rewrite digits_log2. pose proof (Z.log2_spec (Zpos m) H) as [? ?].
  rewrite Z.add_simpl_r. split; [done|]. by rewrite Z.add_1_r.
Qed.

Lemma Zdigits_nonneg m : 0 ≤ Zdigits2 m.
Proof. by destruct m. Qed.

Lemma Zdigits_unique m d : 0 < m → 0 < d → 2 ^ (d - 1) ≤ m < 2 ^ d → Zdigits2 m = d.
Proof.
  intros Hm Hd [H1 H2]. destruct m as [|m|]; [lia| |lia]. cbn [Zdigits2]. rewrite digits_log2.
  rewrite (Z.log2_unique (Zpos m) (d - 1)); [lia|lia|]. split; [done|]. by replace (Z.succ (d - 1)) with d by lia.
Qed.

Lemma shr_1_half r : 0 ≤ shr_m r → shr_m (shr_1 r) = shr_m r / 2.
Proof.
  destruct r as [m b s]. cbn [shr_m]. destruct m as [|[m|m|]|]; cbn [shr_1 shr_m]; intros H; try done.
  - rewrite (Pos2Z.inj_xI m), Z.mul_comm, Z.div_add_l by lia. change (1 / 2) with 0. lia.
  - rewrite (Pos2Z.inj_xO m), Z.mul_comm, Z.div_mul by lia. done.
Qed.

Lemma iter_pos_nat {A} (f : A → A) p x : SpecFloat.iter_pos f p x = Nat.iter (Pos.to_nat p) f x.
Proof.
  revert x. induction p as [p IH|p IH|]; intros x; cbn [SpecFloat.iter_pos]; [..|done]; rewrite !IH, <-Nat.iter_add.
  - rewrite <-Nat.iter_succ_r. f_equal. lia.
  - f_equal. lia.
Qed.

Lemma iter_half n r : 0 ≤ shr_m r → shr_m (Nat.iter n shr_1 r) = shr_m r / 2 ^ Z.of_nat n ∧ 0 ≤ shr_m (Nat.iter n shr_1 r).
Proof.
  intros H. induction n as [|n [IH IH']]; [cbn; by rewrite Z.div_1_r|]. rewrite Nat.iter_succ, shr_1_half, IH by done.
  rewrite Nat2Z.inj_succ, Z.pow_succ_r, (Z.mul_comm 2), Z.div_div by lia. split; [done|]. by apply Z.div_pos; [|lia].
Qed.

Lemma shr_quot r e k : 0 ≤ shr_m r → 0 ≤ k → shr_m (shr r e k).1 = shr_m r / 2 ^ k ∧ (shr r e k).2 = e + k.
Proof.
  intros Hr Hk. destruct k as [|k|]; [|..|lia]; cbn [shr fst snd]; [by rewrite Z.div_1_r, Z.add_0_r|]. split; [|done].
  rewrite iter_pos_nat. destruct (iter_half (Pos.to_nat k) r Hr) as [-> _]. by rewrite positive_nat_Z.
Qed.

(** ** Rounding *)
Notation fexp := (fexp fprec femax).

Lemma fexp_eq e : fexp e = Z.max (e - 53) (-1074).
Proof. done. Qed.

Lemma rne_cases m l : round_nearest_even m l = m ∨ round_nearest_even m l = m + 1.
Proof. destruct l as [|[]]; cbn; auto. destruct (Z.even m); auto. Qed.

Lemma shr_record_m m l : shr_m (shr_record_of_loc m l) = m.
Proof. by destruct l as [|[]]. Qed.

(** The mantissa and the exponent of the first rounding. *)
Lemma first_round m e l :
  0 ≤ m → e ≤ fexp (Zdigits2 m + e) →
  let e' := fexp (Zdigits2 m + e) in
  let q := m / 2 ^ (e' - e) in
  (shr_fexp fprec femax m e l).2 = e' ∧ shr_m (shr_fexp fprec femax m e l).1 = q ∧
  0 ≤ q < 2 ^ 53 ∧ (e' = -1074 ∨ 2 ^ 52 ≤ q).
Proof.
  intros Hm He e' q. unfold shr_fexp. fold e'. assert (Hk : 0 ≤ e' - e) by (unfold e'; lia).
  destruct (shr_quot (shr_record_of_loc m l) e (e' - e)) as [E1 E2]; [by rewrite shr_record_m|done|].
  rewrite E1, E2, shr_record_m. split; [lia|]. split; [done|].
  assert (Hp : 0 < 2 ^ (e' - e)) by lia. split; [split; [by apply Z.div_pos|]|].
  - destruct (decide (m = 0)) as [->|]; [unfold q; by rewrite Z.div_0_l by lia|].
    apply Z.div_lt_upper_bound; [done|]. pose proof (Zdigits_bounds m ltac:(lia)) as [_ Hu].
    rewrite <-Z.pow_add_r by lia. eapply Z.lt_le_trans; [exact Hu|]. apply Z.pow_le_mono_r; [lia|]. unfold e'. rewrite fexp_eq. lia.
  - unfold e' at 1. rewrite fexp_eq. destruct (decide (Zdigits2 m + e - 53 ≤ -1074)) as [|Hn]; [left; lia|right].
    assert (e' = Zdigits2 m + e - 53) as Ee by (unfold e'; rewrite fexp_eq; lia).
    assert (0 < m) as Hm0. { destruct m; [|lia..]. cbn in Ee. lia. }
    apply Z.div_le_lower_bound; [done|]. rewrite Z.mul_comm, <-Z.pow_add_r by lia. rewrite Ee.
    etransitivity; [|apply Zdigits_bounds; done]. apply Z.pow_le_mono_r; lia.
Qed.

Lemma canonical n e : 0 < n < 2 ^ 53 → e = -1074 ∨ -1074 ≤ e ∧ 2 ^ 52 ≤ n → fexp (Zdigits2 n + e) = e.
Proof.
  intros Hn He. rewrite fexp_eq. destruct He as [->|[He Hn']].
  - assert (Zdigits2 n ≤ 53); [|lia]. pose proof (Zdigits_bounds n ltac:(lia)) as [Hl _].
    destruct (decide (Zdigits2 n ≤ 53)); [done|]. exfalso. assert (2 ^ 53 ≤ 2 ^ (Zdigits2 n - 1)); [|lia]. apply Z.pow_le_mono_r; lia.
  - rewrite (Zdigits_unique n 53) by (cbn; lia). lia.
Qed.

(** The second shift brings a mantissa that was rounded up to [2 ^ 53] back. *)
Lemma second_round n e :
  0 < n ≤ 2 ^ 53 → e = -1074 ∨ -1074 ≤ e ∧ 2 ^ 52 ≤ n → e ≤ 970 →
  ∃ m' e', shr_m (shr_fexp fprec femax n e loc_Exact).1 = Zpos m' ∧ (shr_fexp fprec femax n e loc_Exact).2 = e' ∧
    bounded fprec femax m' e' = true ∧ (mag (Zpos m') e' == mag n e)%Q.
Proof.
  intros Hn He Hmax. destruct (decide (n = 2 ^ 53)) as [->|Hne].
  - exists (2 ^ 52)%positive, (e + 1). unfold shr_fexp. replace (fexp (Zdigits2 (2 ^ 53) + e) - e) with 1.
    2: { change (Zdigits2 (2 ^ 53)) with 54. rewrite fexp_eq. lia. }
    split; [done|]. split; [done|]. split.
    + apply andb_true_intro. split; [apply Z.eqb_eq|apply Z.leb_le]; [|unfold fprec, femax; lia].
      change (Zpos (digits2_pos (2 ^ 52))) with 53. rewrite fexp_eq. lia.
    + rewrite <-(mag_shift (Zpos (2 ^ 52)) e 1) by done. by apply Qeq_refl.
  - pose proof (canonical n e ltac:(lia) He) as Hc. destruct n as [|n|]; [lia| |lia]. exists n, e. unfold shr_fexp.
    rewrite Hc, Z.sub_diag. cbn [shr fst snd shr_record_of_loc shr_m]. split_and!; [done..| |apply Qeq_refl].
    apply andb_true_intro. split; [by apply Z.eqb_eq|apply Z.leb_le; unfold fprec, femax; lia].
Qed.

(** Multiplying a power of two in. *)
Lemma mag_pow d e : (0 ≤ d)%Z → (mag (2 ^ d) e == bp (d + e))%Q.
Proof. intros H. unfold mag. rewrite bp_add, (bp_Z d) by done. reflexivity. Qed.

Lemma bp_le_inv a b : (bp a <= bp b)%Q → a ≤ b.
Proof.
  intros H. destruct (decide (a ≤ b)) as [|Hn]; [done|exfalso]. assert (H1 : (bp (b + 1) <= bp a)%Q) by (apply bp_le; lia).
  rewrite bp_add in H1. change (bp 1) with 2%Q in H1. pose proof (bp_pos b). lra.
Qed.

(** The unit in the last place of what is rounded. *)
Lemma unit_small m e x :
  0 ≤ m → e ≤ fexp (Zdigits2 m + e) → (mag m e <= x)%Q → (0 <= x)%Q → (x <= bp 1000)%Q →
  (bp (fexp (Zdigits2 m + e)) <= ulps x)%Q ∧ fexp (Zdigits2 m + e) ≤ 970.
Proof.
  intros Hm He Hx H0 Hmax. unfold ulps. pose proof (bp_pos (-52)) as P. pose proof (bp_pos (-1074)) as P'.
  pose proof (Qmult_le_0_compat _ _ (Qlt_le_weak _ _ P) H0) as P2. rewrite fexp_eq in *.
  destruct (decide (Zdigits2 m + e - 53 ≤ -1074)) as [Hs|Hn].
  - rewrite Z.max_r by lia. split; [lra|lia].
  - rewrite Z.max_l in * by lia. assert (0 < m) as Hm0. { destruct m; [|lia..]. cbn in *. lia. }
    assert (H1 : (bp (Zdigits2 m - 1 + e) <= x)%Q).
    { rewrite <-mag_pow by (pose proof (Zdigits_bounds m Hm0); destruct m; cbn in *; lia). eapply Qle_trans; [|exact Hx]. apply mag_le, Zdigits_bounds, Hm0. }
    split.
    + replace (Zdigits2 m + e - 53) with (-52 + (Zdigits2 m - 1 + e)) by lia. rewrite bp_add.
      pose proof (proj2 (Qmult_le_l _ _ (bp (-52)) P) H1). lra.
    + assert (Zdigits2 m - 1 + e ≤ 1000); [|lia]. apply bp_le_inv. by eapply Qle_trans.
Qed.

Lemma round_near m e l x :
  0 ≤ m → e ≤ fexp (Zdigits2 m + e) → (0 <= x)%Q → (mag m e <= x)%Q → (x <= mag (m + 1) e)%Q → (x <= bp 1000)%Q →
  nonneg (binary_round_aux fprec femax false m e l) ∧ near (val (binary_round_aux fprec femax false m e l)) x.
Proof.
  intros Hm He H0 Hlo Hhi Hmax. destruct (unit_small m e x Hm He Hlo H0 Hmax) as [Hu H970].
  destruct (first_round m e l Hm He) as (E1 & E2 & Hq & Hc). cbv zeta in *.
  set (e' := fexp (Zdigits2 m + e)) in *. set (q := m / 2 ^ (e' - e)) in *.
  assert (Hk : 0 ≤ e' - e) by lia. assert (Hp : 0 < 2 ^ (e' - e)) by lia.
  assert (Hql : (mag q e' <= x)%Q).
  { eapply Qle_trans; [|exact Hlo]. replace e' with (e + (e' - e)) at 1 by lia. rewrite <-mag_shift by done. apply mag_le.
    rewrite Z.mul_comm. by apply Z.mul_div_le. }
  assert (Hqh : (x <= mag q e' + bp e')%Q).
  { rewrite <-mag_succ. eapply Qle_trans; [exact Hhi|]. replace e' with (e + (e' - e)) at 1 by lia. rewrite <-mag_shift by done.
    apply mag_le. pose proof (Z.mul_succ_div_gt m (2 ^ (e' - e)) Hp) as Hgt. fold q in Hgt. lia. }
  unfold binary_round_aux. destruct (shr_fexp fprec femax m e l) as [r1 e1]. cbn [fst snd] in E1, E2. subst e1. rewrite E2.
  set (n := round_nearest_even q (loc_of_shr_record r1)).
  assert (Hn : (mag n e' <= x + bp e' /\ x - bp e' <= mag n e')%Q).
  { unfold n. destruct (rne_cases q (loc_of_shr_record r1)) as [->| ->]; [|rewrite mag_succ]; split; pose proof (bp_pos e'); lra. }
  assert (Hn2 : 0 ≤ n ≤ 2 ^ 53 ∧ (e' = -1074 ∨ -1074 ≤ e' ∧ 2 ^ 52 ≤ n)).
  { assert (-1074 ≤ e') by (unfold e'; rewrite fexp_eq; lia). unfold n. destruct (rne_cases q (loc_of_shr_record r1)) as [->| ->]; lia. }
  clearbody n. destruct (decide (n = 0)) as [->|Hn0].
  { unfold shr_fexp. assert (fexp (Zdigits2 0 + e') - e' ≤ 0) as Hz by (rewrite fexp_eq; change (Zdigits2 0) with 0; destruct Hn2 as [_ [->|[? ?]]]; lia).
    assert (0 <= bp e')%Q by (apply Qlt_le_weak, bp_pos). destruct (fexp (Zdigits2 0 + e') - e') as [|?|?]; [|lia|]; cbn [shr shr_record_of_loc shr_m];
    (split; [done|]); split; cbn [val]; unfold mag in Hn; change (inject_Z 0) with 0%Q in Hn; lra. }
  destruct (second_round n e' ltac:(lia) ltac:(lia) H970) as (m' & e2 & F1 & F2 & F3 & F4).
  destruct (shr_fexp fprec femax n e' loc_Exact) as [r2 e2']. cbn [fst snd] in F1, F2. subst e2'. rewrite F1.
  pose proof F3 as [_ Hb]%andb_prop. unfold bounded in Hb. rewrite Hb. split; [done|]. unfold near. cbn [val]. rewrite F4. lra.
Qed.

(** ** The operations *)
Lemma ulps_nonneg x : (0 <= x)%Q → (0 <= ulps x)%Q.
Proof.
  intros H. unfold ulps. pose proof (bp_pos (-1074)). pose proof (Qmult_le_0_compat (bp (-52)) x (Qlt_le_weak _ _ (bp_pos _)) H). lra.
Qed.

Lemma near_refl x y : (0 <= x)%Q → (y == x)%Q → near y x.
Proof. intros H E. pose proof (ulps_nonneg x H). unfold near. rewrite E. lra. Qed.

#[global] Instance ulps_proper : Proper (Qeq ==> Qeq) ulps.
Proof. intros x y E. unfold ulps. by rewrite E. Qed.

#[global] Instance near_proper : Proper (Qeq ==> Qeq ==> iff) near.
Proof. intros x y E x' y' E'. unfold near. by rewrite E, E'. Qed.

Lemma iter_xO m d : Zpos (Pos.iter xO m d) = Zpos m * 2 ^ Zpos d.
Proof.
  revert m. induction d as [|d IH] using Pos.peano_ind; intros m; [cbn; lia|]. rewrite Pos.iter_succ, Pos2Z.inj_xO, IH.
  rewrite (Pos2Z.inj_succ d), Z.pow_succ_r by lia. lia.
Qed.

Lemma shl_align_spec m e e' :
  (shl_align m e e').2 = Z.min e e' ∧ Zpos (shl_align m e e').1 = Zpos m * 2 ^ (e - Z.min e e').
Proof.
  unfold shl_align. destruct (e' - e) as [|d|d] eqn:E; cbn [fst snd].
  - replace (Z.min e e') with e by lia. rewrite Z.sub_diag. lia.
  - replace (Z.min e e') with e by lia. rewrite Z.sub_diag. lia.
  - replace (Z.min e e') with e' by lia. split; [done|]. rewrite iter_xO. do 2 f_equal. lia.
Qed.

Lemma Zdigits_shift m k : 0 < m → 0 ≤ k → Zdigits2 (m * 2 ^ k) = Zdigits2 m + k.
Proof.
  intros Hm Hk. pose proof (Zdigits_bounds m Hm) as [Hl Hu]. pose proof (Zdigits_nonneg m).
  assert (0 < 2 ^ k) by lia. assert (1 ≤ Zdigits2 m) by (destruct m; cbn in *; lia).
  apply Zdigits_unique; [nia|lia|]. replace (Zdigits2 m + k - 1) with (Zdigits2 m - 1 + k) by lia. rewrite !Z.pow_add_r by lia. nia.
Qed.

Lemma normalize_near m e x :
  0 ≤ m → (x == mag m e)%Q → (x <= bp 1000)%Q →
  nonneg (binary_normalize fprec femax m e false) ∧ near (val (binary_normalize fprec femax m e false)) x.
Proof.
  intros Hm Hx Hmax. destruct m as [|m|]; [|..|lia]; cbn [binary_normalize].
  { split; [done|]. apply near_refl; [rewrite Hx|cbn; rewrite Hx]; unfold mag; change (inject_Z 0) with 0%Q; lra. }
  unfold binary_round. set (ez := fexp (Zpos (digits2_pos m) + e)). destruct (shl_align_spec m e ez) as [E2 E1].
  destruct (shl_align m e ez) as [m' e']. cbn [fst snd] in E1, E2. subst e'. assert (Hk : 0 ≤ e - Z.min e ez) by lia.
  assert (Hv : (mag (Zpos m') (Z.min e ez) == x)%Q).
  { rewrite E1, mag_shift, Hx by done. by replace (Z.min e ez + (e - Z.min e ez)) with e by lia. }
  apply round_near; [lia| | | |..].
  - rewrite E1, Zdigits_shift by lia. replace (Zdigits2 (Zpos m) + (e - Z.min e ez) + Z.min e ez) with (Zpos (digits2_pos m) + e) by (cbn; lia).
    fold ez. lia.
  - rewrite Hx. by apply mag_nonneg.
  - rewrite Hv. apply Qle_refl.
  - rewrite <-Hv, mag_succ. pose proof (bp_pos (Z.min e ez)). lra.
  - done.
Qed.

Lemma ofInt_near n : 0 ≤ n → (inject_Z n <= bp 1000)%Q → nonneg (ofInt n) ∧ near (val (ofInt n)) (inject_Z n).
Proof. intros Hn Hm. apply normalize_near; [done| |done]. unfold mag. change (bp 0) with 1%Q. ring. Qed.

(** What is canonical is not rounded. *)
Lemma round_canonical m e :
  fexp (Zpos (digits2_pos m) + e) = e → e ≤ 971 → binary_round_aux fprec femax false (Zpos m) e loc_Exact = S754_finite false m e.
Proof.
  intros Hc He. unfold binary_round_aux, shr_fexp. cbn [Zdigits2]. rewrite Hc, Z.sub_diag. cbn [shr shr_record_of_loc loc_of_shr_record round_nearest_even shr_m Zdigits2].
  rewrite Hc, Z.sub_diag. cbn [shr shr_record_of_loc shr_m]. by replace (e <=? femax - fprec) with true by (symmetry; apply Z.leb_le; unfold femax, fprec; lia).
Qed.

Lemma ofInt_exact n : 0 ≤ n < 2 ^ 53 → nonneg (ofInt n) ∧ (val (ofInt n) == inject_Z n)%Q.
Proof.
  intros Hn. destruct n as [|n|]; [done| |lia]. unfold ofInt. cbn [binary_normalize]. unfold binary_round.
  pose proof (Zdigits_bounds (Zpos n) ltac:(lia)) as [Hl _]. cbn [Zdigits2] in Hl. set (d := Zpos (digits2_pos n)) in *.
  assert (Hd : d ≤ 53). { destruct (decide (d ≤ 53)); [done|]. assert (2 ^ 53 ≤ 2 ^ (d - 1)) by (apply Z.pow_le_mono_r; lia). lia. }
  assert (1 ≤ d) by (unfold d; lia). assert (Hf : fexp (d + 0) = d - 53) by (rewrite fexp_eq; lia). rewrite Hf. destruct (shl_align_spec n 0 (d - 53)) as [E2 E1].
  destruct (shl_align n 0 (d - 53)) as [m' e']. cbn [fst snd] in *. rewrite Z.min_r in E1, E2 by lia. subst e'.
  assert (Hc : Zpos (digits2_pos m') = 53).
  { change (Zpos (digits2_pos m')) with (Zdigits2 (Zpos m')). rewrite E1, Zdigits_shift by lia. cbn [Zdigits2]. fold d. lia. }
  rewrite round_canonical; [|rewrite Hc, fexp_eq; lia|lia]. split.
  - cbn [nonneg]. apply andb_true_intro. split; [apply Z.eqb_eq; rewrite Hc; apply fexp_eq || (rewrite fexp_eq; lia)|apply Z.leb_le; unfold femax, fprec; lia].
  - cbn [val]. rewrite E1, mag_shift by lia. replace (d - 53 + (0 - (d - 53))) with 0 by lia. unfold mag. change (bp 0) with 1%Q. ring.
Qed.

(** Two mantissas brought to the lesser exponent. *)
Lemma aligned m e e' : (mag (Zpos (shl_align m e (Z.min e e')).1) (Z.min e e') == mag (Zpos m) e)%Q.
Proof.
  destruct (shl_align_spec m e (Z.min e e')) as [_ ->]. replace (Z.min e (Z.min e e')) with (Z.min e e') by lia.
  rewrite mag_shift by lia. by replace (Z.min e e' + (e - Z.min e e')) with e by lia.
Qed.

Lemma mag_plus m n e : (mag (m + n) e == mag m e + mag n e)%Q.
Proof. unfold mag. rewrite inject_Z_plus. ring. Qed.

Lemma mag_le_inv m n e : (mag m e <= mag n e)%Q → m ≤ n.
Proof. unfold mag. intros H. apply Qmult_le_r in H; [by rewrite <-Zle_Qle in H|apply bp_pos]. Qed.

Lemma mag_opp m e : (mag (- m) e == - mag m e)%Q.
Proof. unfold mag. rewrite inject_Z_opp. ring. Qed.

Ltac operands a b Ha Hb :=
  destruct a as [sa|sa| |[] ma ea]; cbn [nonneg] in Ha; try done; destruct b as [sb|sb| |[] mb eb]; cbn [nonneg] in Hb; try done.

(** A result that is one of the operands or zero. *)
Ltac exactly := split; [done|]; apply near_refl; [|cbn [val]; ring]; cbn [val];
  rewrite ?Qplus_0_l, ?Qplus_0_r; unfold Qminus; rewrite ?Qplus_0_r; (apply mag_nonneg; lia) || lra.

Lemma fadd_near a b :
  nonneg a → nonneg b → (val a + val b <= bp 1000)%Q → nonneg (fadd a b) ∧ near (val (fadd a b)) (val a + val b).
Proof.
  intros Ha Hb Hm. operands a b Ha Hb; unfold fadd; cbn [SFadd].
  - destruct sa, sb; exactly.
  - exactly.
  - exactly.
  - apply normalize_near; [cbn [cond_Zopp]; lia| |done]. cbn [cond_Zopp]. rewrite mag_plus, aligned.
    rewrite (Z.min_comm ea eb), aligned. reflexivity.
Qed.

Lemma fsub_near a b :
  nonneg a → nonneg b → (val b <= val a)%Q → (val a <= bp 1000)%Q → nonneg (fsub a b) ∧ near (val (fsub a b)) (val a - val b).
Proof.
  intros Ha Hb Hle Hm. pose proof (val_nonneg b Hb) as Hb0. operands a b Ha Hb; unfold fsub; cbn [SFsub].
  - destruct sa, sb; exactly.
  - exfalso. cbn [val] in Hle. unfold mag in Hle. pose proof (bp_pos eb). assert (0 < inject_Z (Zpos mb))%Q as Hz by done.
    pose proof (Qmult_lt_0_compat _ _ Hz H). lra.
  - exactly.
  - cbn [val cond_Zopp] in *. assert (E : (mag (Zpos ma) ea - mag (Zpos mb) eb ==
      mag (Zpos (shl_align ma ea (Z.min ea eb)).1 - Zpos (shl_align mb eb (Z.min ea eb)).1) (Z.min ea eb))%Q).
    { rewrite <-Z.add_opp_r, mag_plus, mag_opp, aligned, (Z.min_comm ea eb), aligned. reflexivity. }
    apply normalize_near; [|done|lra]. apply Z.le_0_sub, (mag_le_inv _ _ (Z.min ea eb)). rewrite aligned, (Z.min_comm ea eb), aligned. done.
Qed.

Lemma canonical_of m e : bounded fprec femax m e = true → fexp (Zdigits2 (Zpos m) + e) = e ∧ Zdigits2 (Zpos m) ≤ 53.
Proof.
  intros [H _]%andb_prop. apply Z.eqb_eq in H. split; [done|]. rewrite fexp_eq in H. cbn [Zdigits2]. lia.
Qed.

Lemma Zdigits_mul m n : 0 < m → 0 < n → Zdigits2 m + Zdigits2 n - 1 ≤ Zdigits2 (m * n).
Proof.
  intros Hm Hn. pose proof (Zdigits_bounds m Hm) as [H1 _]. pose proof (Zdigits_bounds n Hn) as [H2 _].
  pose proof (Zdigits_bounds (m * n) ltac:(nia)) as [_ H3].
  assert (1 ≤ Zdigits2 m) by (destruct m; cbn; lia). assert (1 ≤ Zdigits2 n) by (destruct n; cbn; lia).
  destruct (decide (Zdigits2 m + Zdigits2 n - 1 ≤ Zdigits2 (m * n))) as [|Hc]; [done|exfalso].
  assert (2 ^ Zdigits2 (m * n) ≤ 2 ^ ((Zdigits2 m - 1) + (Zdigits2 n - 1))) as Hp by (apply Z.pow_le_mono_r; lia).
  rewrite Z.pow_add_r in Hp by lia. nia.
Qed.

Lemma mag_mult m n e e' : (mag (m * n) (e + e') == mag m e * mag n e')%Q.
Proof. unfold mag. rewrite inject_Z_mult, bp_add. ring. Qed.

Lemma fmul_near a b :
  nonneg a → nonneg b → (val a * val b <= bp 1000)%Q → nonneg (fmul a b) ∧ near (val (fmul a b)) (val a * val b).
Proof.
  intros Ha Hb Hm. pose proof (Qmult_le_0_compat _ _ (val_nonneg a Ha) (val_nonneg b Hb)) as H0.
  operands a b Ha Hb; unfold fmul; cbn [SFmul xorb]; [split; [done|]; apply near_refl; [done|cbn [val]; ring]..|].
  cbn [val] in *. rewrite <-mag_mult in *. apply round_near; [lia| |done|apply Qle_refl| |done].
  - apply canonical_of in Ha as [Ha Ha'], Hb as [Hb Hb']. pose proof (Zdigits_mul (Zpos ma) (Zpos mb) ltac:(lia) ltac:(lia)) as Hd.
    change (Zpos (ma * mb)) with (Zpos ma * Zpos mb). assert (1 ≤ Zdigits2 (Zpos ma)) by (cbn; lia). assert (1 ≤ Zdigits2 (Zpos mb)) by (cbn; lia).
    rewrite fexp_eq in *. lia.
  - change (Zpos (ma * mb)) with (Zpos ma * Zpos mb). rewrite mag_succ. pose proof (bp_pos (ea + eb)). lra.
Qed.

Lemma Zdigits_div m n : 0 < m → 0 < n → Zdigits2 m - Zdigits2 n ≤ Zdigits2 (m / n).
Proof.
  intros Hm Hn. pose proof (Zdigits_bounds m Hm) as [H1 _]. pose proof (Zdigits_bounds n Hn) as [_ H2]. pose proof (Zdigits_nonneg (m / n)).
  destruct (decide (Zdigits2 m - Zdigits2 n ≤ 0)) as [|Hd]; [lia|].
  assert (2 ^ (Zdigits2 m - Zdigits2 n - 1) ≤ m / n) as Hq.
  { apply Z.div_le_lower_bound; [done|]. pose proof (Zdigits_nonneg n).
    assert (2 ^ (Zdigits2 m - 1) = 2 ^ Zdigits2 n * 2 ^ (Zdigits2 m - Zdigits2 n - 1)) as E by (rewrite <-Z.pow_add_r by lia; f_equal; lia).
    assert (0 < 2 ^ (Zdigits2 m - Zdigits2 n - 1)) by lia. nia. }
  assert (0 < m / n) as H0 by (assert (0 < 2 ^ (Zdigits2 m - Zdigits2 n - 1)); lia). pose proof (Zdigits_bounds (m / n) H0) as [_ H3].
  assert (Zdigits2 m - Zdigits2 n - 1 < Zdigits2 (m / n)); [|lia]. apply (Z.pow_lt_mono_r_iff 2); lia.
Qed.

Lemma fexp_mono a b : a ≤ b → fexp a ≤ fexp b.
Proof. rewrite !fexp_eq. lia. Qed.


(** The quotient and the remainder of the aligned mantissas. *)
Lemma div_core_spec m1 e1 m2 e2 :
  0 < m1 → 0 < m2 →
  let '(q, e, l) := SFdiv_core_binary fprec femax m1 e1 m2 e2 in
  0 ≤ q ∧ e ≤ fexp (Zdigits2 q + e) ∧ (mag q e <= mag m1 e1 / mag m2 e2)%Q ∧ (mag m1 e1 / mag m2 e2 <= mag (q + 1) e)%Q.
Proof.
  intros H1 H2. unfold SFdiv_core_binary. set (e' := Z.min _ _). set (s := e1 - e2 - e'). assert (Hs : 0 ≤ s) by (unfold s, e'; lia).
  assert (Em : (match s with 0 => m1 | Zpos _ => Z.shiftl m1 s | Zneg _ => 0 end) = m1 * 2 ^ s).
  { rewrite <-Z.shiftl_mul_pow2 by done. destruct s; [by rewrite Z.shiftl_0_r|done|lia]. }
  rewrite Em. set (m' := m1 * 2 ^ s). pose proof (Z_div_mod m' m2 ltac:(lia)) as Hdm. destruct (Z.div_eucl m' m2) as [q r] eqn:Eq.
  destruct Hdm as [Hm Hr]. assert (q = m' / m2) as Hq by (unfold Z.div; by rewrite Eq). assert (0 < 2 ^ s) by lia.
  assert (0 < m') by (unfold m'; nia). split; [rewrite Hq; apply Z.div_pos; lia|]. split.
  { assert (Zdigits2 m1 + e1 - (Zdigits2 m2 + e2) ≤ Zdigits2 q + e') as Hd.
    { pose proof (Zdigits_div m' m2 ltac:(lia) H2) as Hd. rewrite <-Hq in Hd. unfold m' in Hd. rewrite Zdigits_shift in Hd by lia. unfold s in Hd. lia. }
    apply fexp_mono in Hd. lia. }
  assert (P2 : (0 < mag m2 e2)%Q). { apply Qmult_lt_0_compat; [|apply bp_pos]. change 0%Q with (inject_Z 0). by rewrite <-Zlt_Qlt. }
  assert (Ex : (mag m' (e' + e2) == mag m1 e1)%Q).
  { unfold m'. rewrite mag_shift by done. unfold s. by replace (e' + e2 + (e1 - e2 - e')) with e1 by lia. }
  assert (Eq' : ∀ z, (mag z e' * mag m2 e2 == mag (z * m2) (e' + e2))%Q) by (intros z; by rewrite mag_mult).
  split.
  - apply Qle_shift_div_l; [done|]. rewrite Eq', <-Ex. apply mag_le. lia.
  - apply Qle_shift_div_r; [done|]. rewrite Eq', <-Ex. apply mag_le. lia.
Qed.

Lemma fdiv_near a b :
  nonneg a → nonneg b → (0 < val b)%Q → (val a / val b <= bp 1000)%Q → nonneg (fdiv a b) ∧ near (val (fdiv a b)) (val a / val b).
Proof.
  intros Ha Hb Hp Hm. operands a b Ha Hb; unfold fdiv; cbn [SFdiv xorb]; try (exfalso; exact (Qlt_irrefl 0 Hp)).
  pose proof (div_core_spec (Zpos ma) ea (Zpos mb) eb ltac:(lia) ltac:(lia)) as Hd.
  destruct (SFdiv_core_binary fprec femax (Zpos ma) ea (Zpos mb) eb) as [[q e] l]. destruct Hd as (Hq & He & Hlo & Hhi).
  cbn [val] in *. apply round_near; try done. eapply Qle_trans; [|exact Hlo]. by apply mag_nonneg.
Qed.

(** ** Comparisons *)
Lemma mantissa_bounds m e : bounded fprec femax m e = true → Zpos m < 2 ^ 53 ∧ -1074 ≤ e ∧ (e = -1074 ∨ 2 ^ 52 ≤ Zpos m).
Proof.
  intros H. apply canonical_of in H as [Hc Hd]. pose proof (Zdigits_bounds (Zpos m) ltac:(lia)) as [Hl Hu].
  assert (2 ^ Zdigits2 (Zpos m) ≤ 2 ^ 53) by (apply Z.pow_le_mono_r; lia). split; [lia|]. rewrite fexp_eq in Hc. split; [lia|].
  destruct (decide (e = -1074)) as [|Hn]; [by left|right]. assert (Zdigits2 (Zpos m) = 53) as Ed by lia. rewrite Ed in Hl. done.
Qed.

Lemma lesser_exponent m1 e1 m2 e2 :
  bounded fprec femax m1 e1 = true → bounded fprec femax m2 e2 = true → e1 < e2 → (mag (Zpos m1) e1 < mag (Zpos m2) e2)%Q.
Proof.
  intros (H1 & L1 & _)%mantissa_bounds (_ & _ & H2)%mantissa_bounds He. destruct H2 as [->|H2]; [lia|].
  apply Qlt_le_trans with (mag (2 ^ 53) e1). { apply Qmult_lt_compat_r; [apply bp_pos|]. by rewrite <-Zlt_Qlt. }
  apply Qle_trans with (mag (2 ^ 52) e2); [|by apply mag_le]. rewrite !mag_pow by lia. apply bp_le. lia.
Qed.

Lemma compare_val a b :
  nonneg a → nonneg b → ∃ c, SFcompare a b = Some c ∧ match c with Lt => (val a < val b)%Q | Eq => (val a == val b)%Q | Gt => (val b < val a)%Q end.
Proof.
  intros Ha Hb. assert (∀ m e, 0 < mag (Zpos m) e)%Q as Hp by (intros; apply Qmult_lt_0_compat; [done|apply bp_pos]).
  operands a b Ha Hb; cbn [SFcompare val]; (eexists; split; [reflexivity|]); [reflexivity|apply Hp|apply Hp|]. destruct (Z.compare_spec ea eb) as [<-|Hl|Hg].
  - change (Pos.compare_cont Eq ma mb) with (Pos.compare ma mb). destruct (Pos.compare_spec ma mb) as [->|Hl|Hg]; [done|..];
    (apply Qmult_lt_compat_r; [apply bp_pos|]; rewrite <-Zlt_Qlt; lia).
  - by apply lesser_exponent.
  - by apply lesser_exponent.
Qed.

Lemma fltb_val a b : nonneg a → nonneg b → if fltb a b then (val a < val b)%Q else (val b <= val a)%Q.
Proof. intros Ha Hb. destruct (compare_val a b Ha Hb) as (c & E & Hc). unfold fltb, SFltb. rewrite E. destruct c; lra. Qed.

Lemma fleb_val a b : nonneg a → nonneg b → if fleb a b then (val a <= val b)%Q else (val b < val a)%Q.
Proof. intros Ha Hb. destruct (compare_val a b Ha Hb) as (c & E & Hc). unfold fleb, SFleb. rewrite E. destruct c; lra. Qed.

Lemma ofInt_le a b : 0 ≤ a ≤ b → b < 2 ^ 53 → fleb (ofInt a) (ofInt b) = true.
Proof.
  intros Ha Hb. destruct (ofInt_exact a) as [Na Va]; [lia|]. destruct (ofInt_exact b) as [Nb Vb]; [lia|].
  pose proof (fleb_val _ _ Na Nb) as H. destruct (fleb _ _); [done|exfalso]. rewrite Va, Vb, <-Zlt_Qlt in H. lia.
Qed.

(** ** Small numbers *)

(** The rounding error with rounder bounds. *)
Lemma ulps_bound x : (0 <= x)%Q → (ulps x <= (1 # 1000000000000000) * x + (1 # 1000000000000000000000000000000))%Q.
Proof.
  intros H. unfold ulps. assert (bp (-1074) <= bp (-100))%Q as E by by apply bp_le.
  assert (bp (-100) <= 1 # 1000000000000000000000000000000)%Q by done.
  assert (bp (-52) * x <= (1 # 1000000000000000) * x)%Q by by apply Qmult_le_compat_r. lra.
Qed.

Lemma near_bounds y x : (0 <= x)%Q → near y x → (x - ((1 # 1000000000000000) * x + (1 # 1000000000000000000000000000000)) <= y /\ y <= x + ((1 # 1000000000000000) * x + (1 # 1000000000000000000000000000000)))%Q.
Proof. intros H [H1 H2]. pose proof (ulps_bound x H). lra. Qed.

Lemma below_max x : (x <= 1000000000000000000000000000000)%Q → (x <= bp 1000)%Q.
Proof. intros H. eapply Qle_trans; [exact H|]. apply Qle_trans with (bp 100); [done|by apply bp_le]. Qed.

Lemma val_second : (val (ofInt nanos) == 1000000000)%Q ∧ nonneg (ofInt nanos).
Proof. split; reflexivity. Qed.

(** The seconds of a duration. *)
Definition secs (d : Z) : Q := (inject_Z d * (1 # 1000000000))%Q.

Lemma secs_nonneg d : 0 ≤ d → (0 <= secs d)%Q.
Proof. intros H. apply Qmult_le_0_compat; [|done]. change 0%Q with (inject_Z 0). by rewrite <-Zle_Qle. Qed.

Lemma secs_0 : (secs 0 == 0)%Q.
Proof. reflexivity. Qed.

Lemma secs_plus a b : (secs (a + b) == secs a + secs b)%Q.
Proof. unfold secs. rewrite inject_Z_plus. ring. Qed.

Lemma Seconds_near d :
  0 ≤ d ≤ i64_max →
  nonneg (Seconds d) ∧ ((1 - (1 # 100000000000000)) * secs d <= val (Seconds d) /\ val (Seconds d) <= (1 + (1 # 100000000000000)) * secs d)%Q.
Proof.
  intros Hd. destruct (decide (d = 0)) as [->|Hd0]; [by vm_compute|]. unfold Seconds.
  set (q := Z.quot d nanos). set (r := Z.rem d nanos). assert (Hqr : d = nanos * q + r) by apply Z.quot_rem'.
  assert (Hq : 0 ≤ q ≤ 2 ^ 34). { unfold q. split; [apply Z.quot_pos; unfold nanos; lia|]. apply Z.quot_le_upper_bound; unfold nanos, i64_max in *; lia. }
  assert (Hr : 0 ≤ r < nanos) by (apply Z.rem_bound_pos; unfold nanos; lia).
  assert (Hqs : (0 <= inject_Z q <= 17179869184)%Q) by (rewrite (Zle_Qle 0), (Zle_Qle q) in Hq; exact Hq).
  assert (Hrs : (0 <= inject_Z r <= 1000000000)%Q).
  { split; [change 0%Q with (inject_Z 0)|change 1000000000%Q with (inject_Z 1000000000)]; rewrite <-Zle_Qle; unfold nanos in Hr; lia. }
  assert (Hs : (secs d == inject_Z q + inject_Z r * (1 # 1000000000))%Q).
  { unfold secs. rewrite Hqr, inject_Z_plus, inject_Z_mult. change (inject_Z nanos) with 1000000000%Q. field. }
  assert (Hs1 : (1 # 1000000000 <= secs d)%Q).
  { change (1 # 1000000000)%Q with (1 * (1 # 1000000000))%Q. unfold secs. apply Qmult_le_compat_r; [|done]. change 1%Q with (inject_Z 1). rewrite <-Zle_Qle. lia. }
  destruct (ofInt_near q) as [N1 V1]; [lia|apply below_max; lra|]. destruct (ofInt_near r) as [N2 V2]; [lia|apply below_max; lra|].
  apply near_bounds in V1; [|lra]. apply near_bounds in V2; [|lra]. destruct val_second as [Eb Nb].
  assert (V2' : (0 <= val (ofInt r) * (1 # 1000000000))%Q) by (pose proof (val_nonneg _ N2); lra).
  destruct (fdiv_near (ofInt r) (ofInt nanos)) as [N3 V3]; [done..|by rewrite Eb|rewrite Eb; apply below_max; unfold Qdiv; change (/ 1000000000)%Q with (1 # 1000000000)%Q; lra|].
  rewrite Eb in V3. unfold Qdiv in V3. change (/ 1000000000)%Q with (1 # 1000000000)%Q in V3.
  apply near_bounds in V3; [|done]. pose proof (val_nonneg _ N1) as P1. pose proof (val_nonneg _ N3) as P3.
  destruct (fadd_near (ofInt q) (fdiv (ofInt r) (ofInt nanos))) as [N4 V4]; [done..|apply below_max; lra|].
  apply near_bounds in V4; [|lra]. split; [done|]. lra.
Qed.
End FloatBounds.
