(* ===== verification/TokenBucket.v ===== *)
(** * Token buckets in [float64]

    The broker's ingress gate, the export pacer and the webhook limiter all
    keep a number of tokens that grows with time up to a burst and is spent by
    messages, in binary64. This file bounds what rounding can add: a refill
    adds the time elapsed times the rate, and a spending takes its cost, up to
    a slack of a ten-million-millionth of the burst each; a bucket left alone
    for twice the time its burst takes to come is full. *)
From Stdlib Require Import SpecFloat QArith Lqa.
From S2P Require Import Prelude GoBytes Json Float64 FloatBounds.

Module TokenBucket.
Import Float64 FloatBounds.

Section Bucket.
Context (burst perSecond : float64).

(** [min(burst, tokens + elapsed.Seconds()*perSecond)]. *)
Definition refilled (tokens : float64) (d : Z) : float64 := fmin burst (fadd tokens (fmul (Seconds d) perSecond)).

(** The guarded refill: only when the seconds elapsed are positive. *)
Definition refill (tokens : float64) (d : Z) : float64 := if fltb fzero (Seconds d) then refilled tokens d else tokens.

(** What the rounding of one refill and one spending may add. *)
Definition slack : Q := ((1 # 10000000000000) * val burst)%Q.

Class Sized : Prop := {
  sized_burst : nonneg burst;
  sized_rate : nonneg perSecond;
  sized_burst_range : (1 <= val burst <= 1000000000)%Q;
  sized_rate_max : (val perSecond <= 1000000000)%Q }.

(** The tokens of a bucket. *)
Definition within (t : float64) : Prop := nonneg t ∧ (val t <= val burst)%Q.

Context {SZ : Sized}.

Lemma within_burst : within burst.
Proof. split; [apply sized_burst|apply Qle_refl]. Qed.

Lemma elapsed_product d :
  0 ≤ d ≤ i64_max → (0 <= secs d * val perSecond <= 10000000000000000000)%Q ∧ (0 <= secs d)%Q.
Proof.
  intros Hd. pose proof (secs_nonneg d (proj1 Hd)) as Hs. pose proof (val_nonneg _ sized_rate) as Hr. split; [|done]. split; [by apply Qmult_le_0_compat|].
  change 10000000000000000000%Q with (10000000000 * 1000000000)%Q. apply Qmult_le_compat_nonneg; [split; [done|]|split; [done|apply sized_rate_max]].
  unfold secs. assert (inject_Z d <= inject_Z i64_max)%Q as Hi by (rewrite <-Zle_Qle; lia). change (inject_Z i64_max) with (9223372036854775807 # 1)%Q in Hi. lra.
Qed.

Lemma refilled_spec t d :
  within t → 0 ≤ d ≤ i64_max →
  within (refilled t d) ∧ (val (refilled t d) <= val t + secs d * val perSecond + (1 # 2) * slack)%Q ∧
  (2 * val burst <= secs d * val perSecond → refilled t d = burst)%Q.
Proof.
  intros [Nt Ht] Hd. destruct (elapsed_product d Hd) as [HX Hs]. destruct (Seconds_near d Hd) as [Ns Vs]. pose proof sized_burst_range as HB.
  pose proof (val_nonneg _ sized_rate) as Hr. pose proof (val_nonneg _ Nt) as Ht0. pose proof (val_nonneg _ Ns) as Hs0.
  set (X := (secs d * val perSecond)%Q) in *. set (S := (val (Seconds d) * val perSecond)%Q).
  assert (HS : ((1 - (1 # 100000000000000)) * X <= S /\ S <= (1 + (1 # 100000000000000)) * X)%Q).
  { unfold S, X. destruct Vs as [V1 V2]. apply (Qmult_le_compat_r _ _ (val perSecond)) in V1, V2; [|done..]. lra. }
  destruct (fmul_near (Seconds d) perSecond) as [Np Vp]; [done|apply sized_rate|apply below_max; fold S; lra|]. fold S in Vp.
  apply near_bounds in Vp; [|lra]. pose proof (val_nonneg _ Np) as Hp0.
  destruct (fadd_near t (fmul (Seconds d) perSecond)) as [Na Va]; [done..|apply below_max; lra|]. apply near_bounds in Va; [|lra].
  set (a := fadd t (fmul (Seconds d) perSecond)) in *. unfold refilled, fmin. fold a. pose proof (fltb_val a burst Na sized_burst) as Hl. unfold within, slack.
  destruct (fltb a burst).
  - split_and!; [done|lra| |]. { destruct (Qlt_le_dec X (val burst)); lra. } intros H2. exfalso. lra.
  - split_and!; [apply sized_burst|apply Qle_refl| |done]. lra.
Qed.

(** A duration that is not positive is not a positive number of seconds. *)
Definition notPositive (f : float64) : Prop := match f with S754_finite false _ _ | S754_infinity false => False | _ => True end.

Lemma round_notPositive m e l : notPositive (binary_round_aux fprec femax true m e l).
Proof.
  unfold binary_round_aux. destruct (shr_fexp _ _ m e l) as [r1 e1]. destruct (shr_fexp _ _ _ e1 loc_Exact) as [r2 e2].
  destruct (shr_m r2); [done| |done]. by destruct (e2 <=? _).
Qed.

Lemma normalize_notPositive m e : m ≤ 0 → notPositive (binary_normalize fprec femax m e false).
Proof.
  intros H. destruct m as [|m|m]; [done|lia|]. unfold binary_normalize, binary_round. destruct (shl_align m e _) as [m' e']. apply round_notPositive.
Qed.

Lemma Seconds_notPositive d : d ≤ 0 → notPositive (Seconds d).
Proof.
  intros Hd. unfold Seconds. assert (Z.quot d nanos ≤ 0) as Hq.
  { replace d with (- - d) by lia. rewrite Z.quot_opp_l by done. pose proof (Z.quot_pos (- d) nanos ltac:(lia) ltac:(done)). lia. }
  assert (Z.rem d nanos ≤ 0) as Hr. { apply Z.rem_nonpos; [done|lia]. }
  pose proof (normalize_notPositive _ 0 Hq) as P1. pose proof (normalize_notPositive _ 0 Hr) as P2. fold (ofInt (Z.quot d nanos)) in P1. fold (ofInt (Z.rem d nanos)) in P2.
  assert (P3 : notPositive (fdiv (ofInt (Z.rem d nanos)) (ofInt nanos))).
  { destruct (ofInt (Z.rem d nanos)) as [| [] | |[] m e]; try done. change (ofInt nanos) with (S754_finite false 8388608000000000 (-23)).
    unfold fdiv. cbn [SFdiv]. destruct (SFdiv_core_binary _ _ _ _ _ _) as [[q e'] l]. apply round_notPositive. }
  destruct (ofInt (Z.quot d nanos)) as [| [] | |[] m e], (fdiv _ _) as [| [] | |[] m' e']; try done.
  - by destruct s, s0.
  - apply normalize_notPositive. cbn [cond_Zopp]. lia.
Qed.

Lemma refill_spec t d :
  within t → d ≤ i64_max →
  within (refill t d) ∧ (val (refill t d) <= val t + secs (Z.max 0 d) * val perSecond + (1 # 2) * slack)%Q ∧
  (0 ≤ d → 2 * val burst <= secs d * val perSecond → refill t d = burst)%Q.
Proof.
  intros Hw Hd. destruct (decide (d ≤ 0)) as [Hn|Hn].
  - pose proof (Seconds_notPositive d Hn) as Hp. unfold refill. replace (fltb fzero (Seconds d)) with false by by destruct (Seconds d) as [| [] | |[] ? ?].
    split; [done|]. replace (Z.max 0 d) with 0 by lia. rewrite secs_0. pose proof sized_burst_range. unfold slack. split; [lra|].
    intros H0 H2. replace d with 0 in H2 by lia. rewrite secs_0 in H2. lra.
  - replace (Z.max 0 d) with d by lia. destruct (refilled_spec t d Hw ltac:(lia)) as (H1 & H2 & H3). destruct (Seconds_near d ltac:(lia)) as [Ns Vs].
    assert (Hs : (1 # 1000000000 <= secs d)%Q). { unfold secs. assert (inject_Z 1 <= inject_Z d)%Q as Hi by (rewrite <-Zle_Qle; lia). change (inject_Z 1) with 1%Q in Hi. lra. }
    unfold refill. pose proof (fltb_val fzero (Seconds d) I Ns) as Hl. change (val fzero) with 0%Q in Hl. destruct (fltb fzero (Seconds d)).
    + split_and!; [apply H1..|done|intros _; done].
    + exfalso. lra.
Qed.

(** Spending a whole number of tokens that are there. *)
Lemma spend_spec t n :
  within t → 0 ≤ n ≤ i64_max → fleb (ofInt n) t = true →
  within (fsub t (ofInt n)) ∧ (val (fsub t (ofInt n)) + inject_Z n <= val t + (1 # 2) * slack)%Q.
Proof.
  intros [Nt Ht] Hn Hle. pose proof sized_burst_range as HB. pose proof (val_nonneg _ Nt) as Ht0. unfold within, slack.
  destruct (decide (n = 0)) as [->|Hn0].
  { assert (nonneg (fsub t (ofInt 0)) ∧ val (fsub t (ofInt 0)) = val t) as [N ->] by (destruct t as [[]| | |[] m e]; done). change (inject_Z 0) with 0%Q.
    split; [by split|lra]. }
  assert (Hq : (1 <= inject_Z n)%Q) by (change 1%Q with (inject_Z 1); rewrite <-Zle_Qle; lia).
  assert (Hq' : (inject_Z n <= 10000000000000000000)%Q) by (change 10000000000000000000%Q with (inject_Z 10000000000000000000); rewrite <-Zle_Qle; unfold i64_max in Hn; lia).
  destruct (ofInt_near n) as [Nn Vn]; [lia|apply below_max; lra|]. apply near_bounds in Vn; [|lra].
  pose proof (fleb_val _ _ Nn Nt) as Hl. rewrite Hle in Hl. destruct (fsub_near t (ofInt n)) as [Ns Vs]; [done..|apply below_max; lra|].
  apply near_bounds in Vs; [|lra]. split; [split; [done|lra]|lra].
Qed.

(** Giving a token back. *)
Lemma refund_spec t :
  within t → within (fmin burst (fadd t (ofInt 1))) ∧ (val (fmin burst (fadd t (ofInt 1))) <= val t + 1 + (1 # 2) * slack)%Q.
Proof.
  intros [Nt Ht]. pose proof sized_burst_range as HB. pose proof (val_nonneg _ Nt) as Ht0. assert (nonneg (ofInt 1) ∧ (val (ofInt 1) == 1)%Q) as [N1 V1] by done.
  destruct (fadd_near t (ofInt 1)) as [Na Va]; [done..|rewrite V1; apply below_max; lra|]. rewrite V1 in Va. apply near_bounds in Va; [|lra].
  unfold within, slack, fmin. pose proof (fltb_val _ _ Na sized_burst) as Hl. destruct (fltb _ burst); [split; [split; [done|lra]|lra]|].
  split; [split; [apply sized_burst|apply Qle_refl]|lra].
Qed.

(** A token taken and given back is there again, up to the slack. *)
Lemma refund_lower t :
  within t → fleb (ofInt 1) t = true → (val t - slack <= val (fmin burst (fadd (fsub t (ofInt 1)) (ofInt 1))))%Q.
Proof.
  intros Hw Hl. pose proof sized_burst_range as HB. destruct (spend_spec t 1 Hw ltac:(done) Hl) as [[Ns _] _]. destruct Hw as [Nt Ht].
  assert (nonneg (ofInt 1) ∧ (val (ofInt 1) == 1)%Q) as [N1 V1] by done. pose proof (fleb_val _ _ N1 Nt) as Hf. rewrite Hl in Hf. rewrite V1 in Hf.
  destruct (fsub_near t (ofInt 1)) as [_ Vs]; [done|done|by rewrite V1|apply below_max; lra|]. rewrite V1 in Vs. apply near_bounds in Vs; [|lra].
  destruct (fadd_near (fsub t (ofInt 1)) (ofInt 1)) as [Na Va]; [done|done|rewrite V1; apply below_max; lra|]. rewrite V1 in Va. pose proof (val_nonneg _ Ns). apply near_bounds in Va; [|lra].
  unfold slack, fmin. pose proof (fltb_val _ _ Na sized_burst) as Hl'. destruct (fltb _ burst); lra.
Qed.

(** A refill and a spending, or a refill alone. *)
Lemma charge_spec t d n :
  within t → d ≤ i64_max → 0 ≤ n ≤ i64_max →
  (within (refill t d) ∧ val (refill t d) <= val t + secs (Z.max 0 d) * val perSecond + slack)%Q ∧
  (fleb (ofInt n) (refill t d) = true →
    within (fsub (refill t d) (ofInt n)) ∧ val (fsub (refill t d) (ofInt n)) + inject_Z n <= val t + secs (Z.max 0 d) * val perSecond + slack)%Q.
Proof.
  intros Hw Hd Hn. destruct (refill_spec t d Hw Hd) as (H1 & H2 & _). assert (0 <= slack)%Q by (unfold slack; pose proof sized_burst_range; lra).
  split; [split; [done|lra]|]. intros Hl. destruct (spend_spec _ _ H1 Hn Hl) as [H3 H4]. split; [done|lra].
Qed.
End Bucket.
End TokenBucket.
