(* ===== verification/Requests.v ===== *)
(** * Reasoning and enrichment requests and responses (contracts/contracts.go, tier_c_enrichment.go)

    The two request families a runtime sends, the responses that answer them,
    their validation, their decoding and their wire form. *)
From S2P Require Import Prelude GoBytes Json Float64 Contracts Heap Replay MqttAuth Returns.
Import Float64 Contracts MqttAuth Returns.

Module Requests.

Definition ReasoningRequestMessageType : string := "reasoning_request".
Definition ReasoningResponseMessageType : string := "reasoning_response".
Definition TierCEnrichmentRequestMessageType : string := "tier_c_enrichment_request".
Definition TierCEnrichmentResponseMessageType : string := "tier_c_enrichment_response".

Definition ActionTierA : string := "A".
Definition ActionTierB : string := "B".
Definition ActionTierC : string := "C".
Definition ActionTierD : string := "D".

Definition MaxErrorScalars : nat := 128.
Definition ErrorResponseTooLarge : string := "response_too_large".

(** ** Data *)
Record HistoryPoint := MkPoint { hp_Value : float64; hp_Timestamp : Z; hp_ReceivedAtMS : Z }.

Record ReasoningContext := MkContext { cx_Value : float64; cx_Unit : string; cx_Timestamp : Z; cx_History : list HistoryPoint }.

Record ReasoningRequest := MkRequest {
  rq_RequestID : string; rq_DeviceID : string; rq_SensorType : string; rq_TriggerName : string; rq_Prompt : string;
  rq_Context : ReasoningContext; rq_ActionTierHint : string; rq_TimeoutMS : Z; rq_Auth : option HeartbeatAuth }.

Record ReasoningResponse := MkResponse {
  rp_RequestID : string; rp_DeviceID : string; rp_Text : string; rp_Model : string; rp_TokensUsed : Z; rp_LatencyMS : Z;
  rp_Confidence : float64; rp_ActionTier : string; rp_ProposedAction : option string; rp_Error : option string;
  rp_Auth : option HeartbeatAuth }.

Record TierCEnrichmentHistorySample := MkSample {
  hs_SensorID : string; hs_SensorType : string; hs_Unit : string; hs_TimestampMS : Z; hs_Value : float64; hs_Quality : float64 }.

Record TierCEnrichmentRequest := MkEnrichment {
  eq_RequestID : string; eq_ProposalID : string; eq_DeviceID : string; eq_SkillName : string; eq_TriggerName : string;
  eq_SensorID : string; eq_SensorType : string; eq_ReadingValue : float64; eq_Unit : string;
  eq_HistoryWindow : list TierCEnrichmentHistorySample; eq_ProposedAction : string; eq_SafeDefaultAction : string;
  eq_OperatorMessage : string; eq_TimeoutMS : Z; eq_Auth : option HeartbeatAuth }.

Record TierCEnrichmentResponse := MkEnriched {
  er_RequestID : string; er_ProposalID : string; er_DeviceID : string; er_Explanation : string; er_EstimatedImpact : string;
  er_RecommendedOperatorContext : string; er_Provider : string; er_Model : string; er_TokensUsed : Z; er_LatencyMS : Z;
  er_Error : option string; er_Auth : option HeartbeatAuth }.

(** ** Bounded errors *)

(** The bytes of the first rune. *)
Definition runeWidth (p : Z * bool) : nat :=
  if negb p.2 then 1 else if p.1 <? 128 then 1 else if p.1 <? 2048 then 2 else if p.1 <? 65536 then 3 else 4.

Fixpoint stake (n : nat) (s : string) : string :=
  match n, s with S n', String c s' => String c (stake n' s') | _, _ => "" end.
Fixpoint sdrop (n : nat) (s : string) : string :=
  match n, s with S n', String _ s' => sdrop n' s' | _, _ => s end.

(** The byte offset at which the rune after the first [n] starts. *)
Fixpoint runeOffset (n : nat) (s : string) : nat :=
  match n with
  | O => 0
  | S n' => match runes s with [] => 0 | p :: _ => runeWidth p + runeOffset n' (sdrop (runeWidth p) s) end
  end.

Definition BoundedError (message : string) : string :=
  if Nat.ltb MaxErrorScalars (length (runes message)) then stake (runeOffset MaxErrorScalars message) message else message.

(** ** Building and validating *)
Definition NewErrorResponse (requestID deviceID actionTier message : string) : ReasoningResponse :=
  MkResponse requestID deviceID "" "" 0 0 fzero actionTier None (Some (BoundedError message)) None.

Definition IsValidActionTier (tier : string) : bool :=
  bool_decide (tier = ActionTierA) || bool_decide (tier = ActionTierB) || bool_decide (tier = ActionTierC) || bool_decide (tier = ActionTierD).

Definition ValidateRequest (req : ReasoningRequest) : res unit :=
  match validateMQTTRequestID (rq_RequestID req) with
  | Err e => Err e
  | Ok _ =>
    match validateMQTTDeviceID (rq_DeviceID req) with
    | Err e => Err e
    | Ok _ =>
      if bool_decide (rq_Prompt req = "") then Err (EMsg "prompt must not be empty")
      else if negb (IsValidActionTier (rq_ActionTierHint req)) then Err (EMsg "action_tier_hint must be A, B, C, or D")
      else Ok tt
    end
  end.

Definition ValidateResponseForRequest (req : ReasoningRequest) (resp : ReasoningResponse) : res unit :=
  if negb (bool_decide (rq_RequestID req = rp_RequestID resp)) then Err (EMsg "response request_id does not match request_id")
  else if negb (bool_decide (rq_DeviceID req = rp_DeviceID resp)) then Err (EMsg "response device_id does not match device_id")
  else if negb (IsValidActionTier (rp_ActionTier resp)) then Err (EMsg "action_tier must be A, B, C, or D")
  else Ok tt.

Definition NewTierCEnrichmentErrorResponse (requestID proposalID deviceID message : string) : TierCEnrichmentResponse :=
  let message := if bool_decide (message = "") then "enrichment unavailable" else message in
  MkEnriched requestID proposalID deviceID "" "" "" "" "" 0 0 (Some (BoundedError message)) None.

(** The first of the named members that is empty. *)
Fixpoint firstEmpty (members : list (string * string)) : option string :=
  match members with
  | [] => None
  | (name, value) :: members' => if bool_decide (value = "") then Some name else firstEmpty members'
  end.

Definition ValidateTierCEnrichmentRequest (req : TierCEnrichmentRequest) : res unit :=
  match validateMQTTRequestID (eq_RequestID req) with
  | Err e => Err e
  | Ok _ =>
    match validateMQTTRequestID (eq_ProposalID req) with
    | Err e => Err e
    | Ok _ =>
      match validateMQTTDeviceID (eq_DeviceID req) with
      | Err e => Err e
      | Ok _ =>
        match firstEmpty [("skill_name", eq_SkillName req); ("trigger_name", eq_TriggerName req); ("sensor_id", eq_SensorID req);
                          ("sensor_type", eq_SensorType req); ("proposed_action", eq_ProposedAction req);
                          ("safe_default_action", eq_SafeDefaultAction req); ("operator_message", eq_OperatorMessage req)] with
        | Some name => Err (EMsg (name +:+ " must not be empty"))
        | None => if eq_TimeoutMS req <=? 0 then Err (EMsg "timeout_ms must be positive") else Ok tt
        end
      end
    end
  end.

Definition ValidateTierCEnrichmentResponseForRequest (req : TierCEnrichmentRequest) (resp : TierCEnrichmentResponse) : res unit :=
  if negb (bool_decide (eq_RequestID req = er_RequestID resp)) then Err (EMsg "response request_id does not match request_id")
  else if negb (bool_decide (eq_ProposalID req = er_ProposalID resp)) then Err (EMsg "response proposal_id does not match proposal_id")
  else if negb (bool_decide (eq_DeviceID req = er_DeviceID resp)) then Err (EMsg "response device_id does not match device_id")
  else match er_Error resp with
  | Some e => if bool_decide (e = "") then Err (EMsg "error must not be empty when present") else Ok tt
  | None => if bool_decide (er_Explanation resp = "") then Err (EMsg "explanation must not be empty") else Ok tt
  end.

(** ** Decoding

    A slice is decoded over its backing array: a repeated member overwrites
    element by element, and what lies past the new length stays behind it. *)
Section Slices.
Context {A : Type} (set1 : json → A → A * bool) (zero : A).

Fixpoint decodeElems (l : list json) (backing : list A) : list A * bool :=
  match l with
  | [] => ([], true)
  | v :: l' =>
    let '(old, backing') := match backing with [] => (zero, []) | o :: b => (o, b) end in
    let '(a, ok) := set1 v old in
    let '(r, ok') := decodeElems l' backing' in (a :: r, ok && ok')
  end.

Definition setSlice (v : json) (old : list A * list A) : list A * list A * bool :=
  match v with
  | JArr [] | JNull => ([], [], true)
  | JArr l =>
    let backing := old.1 ++ old.2 in
    let '(r, ok) := decodeElems l backing in (r, drop (length l) backing, ok)
  | _ => (old, false)
  end.
End Slices.

(** An object into a struct, or behind a pointer to one. *)
Definition setStruct {A} (names : list string) (set : string → json → A → A * bool) (v : json) (old : A) : A * bool :=
  match v with
  | JObj l => decodeMembers names false set l old true
  | JNull => (old, true)
  | _ => (old, false)
  end.

Definition setStructPtr {A} (names : list string) (set : string → json → A → A * bool) (zero : A) (v : json) (old : option A) : option A * bool :=
  match v with
  | JObj l => let '(a, ok) := decodeMembers names false set l (default zero old) true in (Some a, ok)
  | JNull => (None, true)
  | _ => (Some (default zero old), false)
  end.

Definition setAuth (n : string) (v : json) (a : HeartbeatAuth) : HeartbeatAuth * bool :=
  let '(MkAuth scheme at_ signature) := a in
  if decide (n = "scheme") then let '(s, ok) := setStr v scheme in (MkAuth s at_ signature, ok)
  else if decide (n = "signed_at_ms") then let '(z, ok) := setInt v at_ in (MkAuth scheme z signature, ok)
  else let '(s, ok) := setStr v signature in (MkAuth scheme at_ s, ok).

Definition setAuthPtr : json → option HeartbeatAuth → option HeartbeatAuth * bool := setStructPtr authMembers setAuth (MkAuth "" 0 "").

Definition setPoint (n : string) (v : json) (p : HistoryPoint) : HistoryPoint * bool :=
  let '(MkPoint value ts received) := p in
  if decide (n = "value") then let '(x, ok) := setFloat v value in (MkPoint x ts received, ok)
  else if decide (n = "timestamp") then let '(x, ok) := setInt v ts in (MkPoint value x received, ok)
  else let '(x, ok) := setInt v received in (MkPoint value ts x, ok).

Definition setHistory : json → list HistoryPoint * list HistoryPoint → list HistoryPoint * list HistoryPoint * bool :=
  setSlice (setStruct ["value"; "timestamp"; "received_at_ms"] setPoint) (MkPoint fzero 0 0).

(** The second component is what lies past the length of the history. *)
Definition setContext (n : string) (v : json) (c : ReasoningContext * list HistoryPoint) : ReasoningContext * list HistoryPoint * bool :=
  let '(MkContext value unit_ ts history, spare) := c in
  if decide (n = "value") then let '(x, ok) := setFloat v value in (MkContext x unit_ ts history, spare, ok)
  else if decide (n = "unit") then let '(x, ok) := setStr v unit_ in (MkContext value x ts history, spare, ok)
  else if decide (n = "timestamp") then let '(x, ok) := setInt v ts in (MkContext value unit_ x history, spare, ok)
  else let '(x, spare', ok) := setHistory v (history, spare) in (MkContext value unit_ ts x, spare', ok).

Definition requestNames : list string :=
  ["request_id"; "device_id"; "sensor_type"; "trigger_name"; "prompt"; "context"; "action_tier_hint"; "timeout_ms"; "auth"].

Definition setRequest (n : string) (v : json) (r : ReasoningRequest * list HistoryPoint) : ReasoningRequest * list HistoryPoint * bool :=
  let '(MkRequest id dev sensor trigger prompt context hint timeout auth, spare) := r in
  if decide (n = "request_id") then let '(x, ok) := setStr v id in (MkRequest x dev sensor trigger prompt context hint timeout auth, spare, ok)
  else if decide (n = "device_id") then let '(x, ok) := setStr v dev in (MkRequest id x sensor trigger prompt context hint timeout auth, spare, ok)
  else if decide (n = "sensor_type") then let '(x, ok) := setStr v sensor in (MkRequest id dev x trigger prompt context hint timeout auth, spare, ok)
  else if decide (n = "trigger_name") then let '(x, ok) := setStr v trigger in (MkRequest id dev sensor x prompt context hint timeout auth, spare, ok)
  else if decide (n = "prompt") then let '(x, ok) := setStr v prompt in (MkRequest id dev sensor trigger x context hint timeout auth, spare, ok)
  else if decide (n = "context") then
    let '(x, spare', ok) := setStruct ["value"; "unit"; "timestamp"; "history"] setContext v (context, spare) in
    (MkRequest id dev sensor trigger prompt x hint timeout auth, spare', ok)
  else if decide (n = "action_tier_hint") then let '(x, ok) := setStr v hint in (MkRequest id dev sensor trigger prompt context x timeout auth, spare, ok)
  else if decide (n = "timeout_ms") then let '(x, ok) := setInt v timeout in (MkRequest id dev sensor trigger prompt context hint x auth, spare, ok)
  else let '(x, ok) := setAuthPtr v auth in (MkRequest id dev sensor trigger prompt context hint timeout x, spare, ok).

Definition zeroRequest : ReasoningRequest := MkRequest "" "" "" "" "" (MkContext fzero "" 0 []) "" 0 None.

Definition decodeRequest (payload : string) : option ReasoningRequest :=
  fst <$> decodeStruct requestNames false setRequest (zeroRequest, []) payload.

Definition setSample (n : string) (v : json) (p : TierCEnrichmentHistorySample) : TierCEnrichmentHistorySample * bool :=
  let '(MkSample id ty unit_ ts value quality) := p in
  if decide (n = "sensor_id") then let '(x, ok) := setStr v id in (MkSample x ty unit_ ts value quality, ok)
  else if decide (n = "sensor_type") then let '(x, ok) := setStr v ty in (MkSample id x unit_ ts value quality, ok)
  else if decide (n = "unit") then let '(x, ok) := setStr v unit_ in (MkSample id ty x ts value quality, ok)
  else if decide (n = "timestamp_ms") then let '(x, ok) := setInt v ts in (MkSample id ty unit_ x value quality, ok)
  else if decide (n = "value") then let '(x, ok) := setFloat v value in (MkSample id ty unit_ ts x quality, ok)
  else let '(x, ok) := setFloat v quality in (MkSample id ty unit_ ts value x, ok).

Definition setWindow : json → list TierCEnrichmentHistorySample * list TierCEnrichmentHistorySample →
    list TierCEnrichmentHistorySample * list TierCEnrichmentHistorySample * bool :=
  setSlice (setStruct ["sensor_id"; "sensor_type"; "unit"; "timestamp_ms"; "value"; "quality"] setSample) (MkSample "" "" "" 0 fzero fzero).

Definition enrichmentNames : list string :=
  ["request_id"; "proposal_id"; "device_id"; "skill_name"; "trigger_name"; "sensor_id"; "sensor_type"; "reading_value"; "unit";
   "history_window"; "proposed_action"; "safe_default_action"; "operator_message"; "timeout_ms"; "auth"].

Definition setEnrichment (n : string) (v : json) (r : TierCEnrichmentRequest * list TierCEnrichmentHistorySample)
    : TierCEnrichmentRequest * list TierCEnrichmentHistorySample * bool :=
  let '(MkEnrichment id prop dev skill trigger sid sty value unit_ window action safe msg timeout auth, spare) := r in
  let str (old : string) (k : string → TierCEnrichmentRequest) := let '(x, ok) := setStr v old in (k x, spare, ok) in
  if decide (n = "request_id") then str id (λ x, MkEnrichment x prop dev skill trigger sid sty value unit_ window action safe msg timeout auth)
  else if decide (n = "proposal_id") then str prop (λ x, MkEnrichment id x dev skill trigger sid sty value unit_ window action safe msg timeout auth)
  else if decide (n = "device_id") then str dev (λ x, MkEnrichment id prop x skill trigger sid sty value unit_ window action safe msg timeout auth)
  else if decide (n = "skill_name") then str skill (λ x, MkEnrichment id prop dev x trigger sid sty value unit_ window action safe msg timeout auth)
  else if decide (n = "trigger_name") then str trigger (λ x, MkEnrichment id prop dev skill x sid sty value unit_ window action safe msg timeout auth)
  else if decide (n = "sensor_id") then str sid (λ x, MkEnrichment id prop dev skill trigger x sty value unit_ window action safe msg timeout auth)
  else if decide (n = "sensor_type") then str sty (λ x, MkEnrichment id prop dev skill trigger sid x value unit_ window action safe msg timeout auth)
  else if decide (n = "reading_value") then
    let '(x, ok) := setFloat v value in (MkEnrichment id prop dev skill trigger sid sty x unit_ window action safe msg timeout auth, spare, ok)
  else if decide (n = "unit") then str unit_ (λ x, MkEnrichment id prop dev skill trigger sid sty value x window action safe msg timeout auth)
  else if decide (n = "history_window") then
    let '(x, spare', ok) := setWindow v (window, spare) in
    (MkEnrichment id prop dev skill trigger sid sty value unit_ x action safe msg timeout auth, spare', ok)
  else if decide (n = "proposed_action") then str action (λ x, MkEnrichment id prop dev skill trigger sid sty value unit_ window x safe msg timeout auth)
  else if decide (n = "safe_default_action") then str safe (λ x, MkEnrichment id prop dev skill trigger sid sty value unit_ window action x msg timeout auth)
  else if decide (n = "operator_message") then str msg (λ x, MkEnrichment id prop dev skill trigger sid sty value unit_ window action safe x timeout auth)
  else if decide (n = "timeout_ms") then
    let '(x, ok) := setInt v timeout in (MkEnrichment id prop dev skill trigger sid sty value unit_ window action safe msg x auth, spare, ok)
  else let '(x, ok) := setAuthPtr v auth in (MkEnrichment id prop dev skill trigger sid sty value unit_ window action safe msg timeout x, spare, ok).

Definition zeroEnrichment : TierCEnrichmentRequest := MkEnrichment "" "" "" "" "" "" "" fzero "" [] "" "" "" 0 None.

Definition decodeEnrichment (payload : string) : option TierCEnrichmentRequest :=
  fst <$> decodeStruct enrichmentNames false setEnrichment (zeroEnrichment, []) payload.

(** ** The wire form of the responses, as [json.Marshal] writes the structs *)
Definition omitString (name value : string) : list (string * json) := if bool_decide (value = "") then [] else [(name, jstr value)].
Definition omitInt (name : string) (value : Z) : list (string * json) := if value =? 0 then [] else [(name, jint value)].
Definition omitNil (name : string) (value : option string) : list (string * json) :=
  match value with Some s => [(name, jstr s)] | None => [] end.
Definition omitAuth (auth : option HeartbeatAuth) : list (string * json) :=
  match auth with Some a => [("auth", authMember a)] | None => [] end.

(** [None]: the confidence has no JSON form. *)
Definition responseMembers (resp : ReasoningResponse) : option (list (string * json)) :=
  match formatFloat (rp_Confidence resp) with
  | None => None
  | Some confidence => Some (
      [("request_id", jstr (rp_RequestID resp)); ("device_id", jstr (rp_DeviceID resp)); ("text", jstr (rp_Text resp));
       ("model", jstr (rp_Model resp)); ("tokens_used", jint (rp_TokensUsed resp)); ("latency_ms", jint (rp_LatencyMS resp));
       ("confidence", JNum confidence); ("action_tier", jstr (rp_ActionTier resp));
       ("proposed_action", match rp_ProposedAction resp with Some a => jstr a | None => JNull end)] ++
      omitNil "error" (rp_Error resp) ++ omitAuth (rp_Auth resp))
  end.

Definition enrichedMembers (resp : TierCEnrichmentResponse) : list (string * json) :=
  [("request_id", jstr (er_RequestID resp)); ("proposal_id", jstr (er_ProposalID resp)); ("device_id", jstr (er_DeviceID resp))] ++
  omitString "explanation" (er_Explanation resp) ++ omitString "estimated_impact" (er_EstimatedImpact resp) ++
  omitString "recommended_operator_context" (er_RecommendedOperatorContext resp) ++ omitString "provider" (er_Provider resp) ++
  omitString "model" (er_Model resp) ++ omitInt "tokens_used" (er_TokensUsed resp) ++ omitInt "latency_ms" (er_LatencyMS resp) ++
  omitNil "error" (er_Error resp) ++ omitAuth (er_Auth resp).

Example decode_request :
  decodeRequest (dq "{'request_id':'r1','device_id':'d1','prompt':'p','context':{'value':1.5,'history':[{'value':2,'timestamp':7}]},'action_tier_hint':'B','Timeout_MS':250}")
  = Some (MkRequest "r1" "d1" "" "" "p" (MkContext (fdiv (ofInt 3) (ofInt 2)) "" 0 [MkPoint (ofInt 2) 7 0]) "B" 250 None).
Proof. vm_compute. reflexivity. Qed.
End Requests.
