(* ===== verification/RequestsSpec.v ===== *)
(** * Error responses are bounded

    A cut error text is a prefix on a rune boundary of at most 128 runes, and
    an error response with routing-sized identifiers fits the payload floor
    whatever its message. *)
From S2P Require Import Prelude GoBytes Sha256 Json Float64 Contracts Heap Replay MqttAuth Returns Requests.
Import Float64 Contracts MqttAuth Returns Requests.

Module RequestsSpec.

(** ** Runes and their offsets *)
Lemma stake_nil n : stake n "" = "".
Proof. by destruct n. Qed.

Lemma stake_sdrop n s : stake n s +:+ sdrop n s = s.
Proof. revert s. induction n as [|n IH]; intros [|c s]; try done. cbn [stake sdrop]. by rewrite sapp_cons, IH. Qed.

Lemma stake_add n m s : stake (n + m) s = stake n s +:+ stake m (sdrop n s).
Proof.
  revert s. induction n as [|n IH]; intros [|c s]; cbn [Nat.add stake sdrop]; rewrite ?sapp_nil_l, ?stake_nil; try done.
  by rewrite sapp_cons, IH.
Qed.

(** The width of a well-formed sequence, by its number of bytes. *)
Lemma width1 x : 0 ≤ x → x <? 128 = true → runeWidth (x, true) = 1%nat.
Proof. intros _ H. unfold runeWidth. cbn [fst snd negb]. by rewrite H. Qed.

Lemma width2 x y : in_rng 194 223 x && cont y = true → runeWidth ((x - 192) * 64 + (y - 128), true) = 2%nat.
Proof.
  unfold cont, in_rng, runeWidth. cbn [fst snd negb]. intros H.
  replace (_ <? 128) with false by lia. by replace (_ <? 2048) with true by lia.
Qed.

Lemma second_spec x y : second_ok x y = true → 128 ≤ y ≤ 191 ∧ (x = 224 → 160 ≤ y) ∧ (x = 240 → 144 ≤ y).
Proof.
  unfold second_ok, cont, in_rng. repeat match goal with |- context [?a =? ?b] => destruct (Z.eqb_spec a b) end; lia.
Qed.

Lemma width3 x y z :
  in_rng 224 239 x && second_ok x y = true → cont z = true → runeWidth ((x - 224) * 4096 + (y - 128) * 64 + (z - 128), true) = 3%nat.
Proof.
  intros [Hx (Hy & H224 & _)%second_spec]%andb_true_iff Hz. unfold cont, in_rng in *. unfold runeWidth. cbn [fst snd negb].
  assert (x = 224 ∨ 225 ≤ x) as Hc by lia.
  replace (_ <? 128) with false by lia. replace (_ <? 2048) with false by lia. by replace (_ <? 65536) with true by lia.
Qed.

Lemma width4 x y z w :
  in_rng 240 244 x && second_ok x y = true → cont z && cont w = true →
  runeWidth ((x - 240) * 262144 + (y - 128) * 4096 + (z - 128) * 64 + (w - 128), true) = 4%nat.
Proof.
  intros [Hx (Hy & _ & H240)%second_spec]%andb_true_iff Hz. unfold cont, in_rng in *. unfold runeWidth. cbn [fst snd negb].
  assert (x = 240 ∨ 241 ≤ x) as Hc by lia.
  replace (_ <? 128) with false by lia. replace (_ <? 2048) with false by lia. by replace (_ <? 65536) with false by lia.
Qed.

Ltac widths := rewrite ?width1, ?width2, ?width3, ?width4 by (done || (unfold bv; lia)).

(** Evaluates the guards of [runes] that the context decides. *)
Ltac guards := repeat (match goal with
  | H : ?b = true |- context [if ?b then _ else _] => rewrite H
  | H : ?b = false |- context [if ?b then _ else _] => rewrite H
  end; cbv iota).

(** The first rune depends on its own bytes alone, and a byte that starts none
    starts none when what follows is cut. *)
Lemma runes_first s p rs :
  runes s = p :: rs → rs = runes (sdrop (runeWidth p) s) ∧
    ∀ k, runes (stake (runeWidth p + k) s) = p :: runes (stake k (sdrop (runeWidth p) s)).
Proof.
  destruct s as [|a r1]; [done|]. cbn [runes]. destruct (bv a <? 128) eqn:E1.
  { intros [= <- <-]. widths. split; [done|]. intros k. cbn [Nat.add stake sdrop runes]. by guards. }
  assert (∀ rest, (∀ k, runes (stake (1 + k) (String a r1)) = (RuneError, false) :: runes (stake k r1)) →
    (RuneError, false) :: runes r1 = p :: rest → rest = runes (sdrop (runeWidth p) (String a r1)) ∧
    ∀ k, runes (stake (runeWidth p + k) (String a r1)) = p :: runes (stake k (sdrop (runeWidth p) (String a r1)))) as Hbad.
  { intros rest Hk [= <- <-]. split; [done|]. exact Hk. }
  destruct r1 as [|b r2].
  { intros H. apply Hbad; [|exact H]. intros k. cbn [Nat.add stake runes]. rewrite stake_nil. cbn [runes]. by guards. }
  destruct (in_rng 194 223 (bv a) && cont (bv b)) eqn:E2.
  { intros [= <- <-]. widths. split; [done|]. intros k. cbn [Nat.add stake sdrop runes]. by guards. }
  destruct (in_rng 224 239 (bv a) && second_ok (bv a) (bv b)) eqn:E3.
  { destruct r2 as [|c r3]; [|destruct (cont (bv c)) eqn:E4].
    - apply Hbad. intros [|k]; cbn [Nat.add stake runes]; rewrite ?stake_nil; cbn [runes]; by guards.
    - intros [= <- <-]. widths. split; [done|]. intros k. cbn [Nat.add stake sdrop runes]. by guards.
    - apply Hbad. intros [|[|k]]; cbn [Nat.add stake runes]; guards; done. }
  destruct (in_rng 240 244 (bv a) && second_ok (bv a) (bv b)) eqn:E5.
  2: { apply Hbad. intros [|k]; cbn [Nat.add stake runes]; by guards. }
  destruct r2 as [|c [|d r4]].
  - apply Hbad. intros [|k]; cbn [Nat.add stake runes]; rewrite ?stake_nil; cbn [runes]; by guards.
  - apply Hbad. intros [|[|k]]; cbn [Nat.add stake runes]; rewrite ?stake_nil; guards; done.
  - destruct (cont (bv c) && cont (bv d)) eqn:E6.
    + intros [= <- <-]. widths. split; [done|]. intros k. cbn [Nat.add stake sdrop runes]. by guards.
    + apply Hbad. intros [|[|[|k]]]; cbn [Nat.add stake runes]; guards; done.
Qed.

Lemma runes_cut n s : runes (stake (runeOffset n s) s) = take n (runes s).
Proof.
  revert s. induction n as [|n IH]; intros s; [done|]. cbn [runeOffset]. destruct (runes s) as [|p rs] eqn:E.
  { cbn. done. }
  destruct (runes_first s p rs E) as [-> Hk]. rewrite Hk, IH. done.
Qed.

(** An error text that fits is kept; a longer one is cut to its first 128
    runes. *)
Lemma BoundedError_runes m : runes (BoundedError m) = take MaxErrorScalars (runes m) ∧ ∃ t, m = BoundedError m +:+ t.
Proof.
  unfold BoundedError. destruct (Nat.ltb_spec MaxErrorScalars (length (runes m))) as [H|H].
  - split; [apply runes_cut|]. eexists. symmetry. apply stake_sdrop.
  - split; [by rewrite take_ge|]. exists "". by rewrite sapp_nil_r.
Qed.

(** ** Lengths *)

(** Evaluates the lengths of literals. *)
Ltac slen_consts := repeat match goal with
  | |- context [slen (String ?c ?s)] => let v := eval vm_compute in (slen (String c s)) in change (slen (String c s)) with v
  end.

Lemma slen_encodeRune r : slen (encodeRune r) ≤ 4.
Proof. unfold encodeRune. repeat case_match; by vm_compute. Qed.

Lemma slen_escapeRune p : slen (escapeRune p) ≤ 6.
Proof.
  unfold escapeRune. repeat (case_match; [by vm_compute|]).
  pose proof (slen_encodeRune p.1). lia.
Qed.

Lemma slen_escapeString s : slen (escapeString s) ≤ 6 * Z.of_nat (length (runes s)).
Proof.
  unfold escapeString. induction (runes s) as [|p l IH]; [done|]. cbn [foldr length]. rewrite slen_app.
  pose proof (slen_escapeRune p). lia.
Qed.

Lemma length_runes s : (length (runes s) ≤ String.length s)%nat.
Proof.
  remember (String.length s) as n eqn:En. revert s En. induction n as [n IH] using (well_founded_induction Nat.lt_wf_0).
  intros s ->. destruct (runes s) as [|p rs] eqn:E; [cbn; lia|]. destruct (runes_first s p rs E) as [-> _]. destruct s as [|c s]; [done|].
  assert (∀ k t, (String.length (sdrop k t) ≤ String.length t)%nat) as Hd.
  { intros k. induction k as [|k IHk]; intros [|d t]; cbn; try lia. etransitivity; [apply IHk|lia]. }
  assert (∃ k, runeWidth p = S k) as [k ->] by (unfold runeWidth; repeat case_match; eauto).
  cbn [sdrop length String.length]. specialize (Hd k s). specialize (IH (String.length (sdrop k s)) ltac:(cbn; lia) _ eq_refl). lia.
Qed.

Lemma slen_jstr s : slen (print (jstr s)) ≤ 6 * slen s + 2.
Proof.
  unfold jstr. cbn [print]. unfold quoted. rewrite slen_cons, slen_app. change (slen (String (bc 34) "")) with 1.
  pose proof (slen_escapeString s). pose proof (length_runes s). unfold slen in *. lia.
Qed.

Lemma slen_bounded m : slen (print (jstr (BoundedError m))) ≤ 770.
Proof.
  unfold jstr. cbn [print]. unfold quoted. rewrite slen_cons, slen_app. change (slen (String (bc 34) "")) with 1.
  pose proof (slen_escapeString (BoundedError m)) as H. rewrite (proj1 (BoundedError_runes m)), length_take in H.
  unfold MaxErrorScalars in H. lia.
Qed.

Lemma slen_hmac k m : slen (computeSignature k m) = 64.
Proof. unfold computeSignature. rewrite slen_hexEncode. unfold hmac256. by rewrite length_sha256. Qed.

Definition memberSize (p : string * json) : Z := slen p.1 + 4 + slen (print p.2).

Lemma slen_print_obj l : slen (print (JObj l)) ≤ 2 + zsum memberSize l.
Proof.
  cbn [print]. change (λ p : string * json, quoted p.1 +:+ ":" +:+ print p.2) with printMember.
  enough (slen (String.concat "," (map printMember l)) ≤ zsum memberSize l) as H.
  { rewrite !slen_app. change (slen "{") with 1. change (slen "}") with 1. lia. }
  assert (∀ p, slen (printMember p) + 1 = memberSize p) as Hm.
  { intros p. unfold printMember, quoted, memberSize. rewrite !slen_app, slen_cons, slen_app. change (slen ":") with 1.
    change (slen (String (bc 34) "")) with 1. lia. }
  induction l as [|p [|p' l] IH]; [done|cbn [map String.concat]; rewrite zsum_cons; specialize (Hm p); cbn; lia|].
  change (String.concat "," (map printMember (p :: p' :: l)))
    with (printMember p +:+ "," +:+ String.concat "," (map printMember (p' :: l))).
  rewrite !slen_app, zsum_cons. change (slen ",") with 1. specialize (Hm p). lia.
Qed.

(** What [Sign] returns has a fixed scheme and a signature of one length. *)
Definition signedAuth (a : HeartbeatAuth) : Prop :=
  ha_Scheme a = HeartbeatAuthScheme ∧ 0 < ha_SignedAtMS a ≤ i64_max ∧ slen (ha_Signature a) = 76.

Lemma Sign_signedAuth Marshal value mt dev req at_ secret a :
  at_ ≤ i64_max → Sign Marshal value mt dev req at_ secret = Ok a → signedAuth a.
Proof.
  unfold Sign. intros Hat. case_bool_decide; [done|]. destruct (Z.leb_spec at_ 0); [done|].
  destruct (CanonicalJSONWithoutAuth _ _); [|done]. intros [= <-]. split; [done|]. split; [cbn; lia|].
  cbn [ha_Signature]. rewrite slen_app, slen_hmac. done.
Qed.

Lemma slen_authMember a : signedAuth a → slen (print (authMember a)) ≤ 620.
Proof.
  intros (E1 & H2 & H3). unfold authMember. rewrite E1. etransitivity; [apply slen_print_obj|]. rewrite !zsum_cons. unfold memberSize. cbn [fst snd zsum foldr].
  pose proof (slen_jstr (ha_Signature a)). pose proof (slen_jstr HeartbeatAuthScheme).
  pose proof (slen_FormatInt (ha_SignedAtMS a) ltac:(lia)). change (print (jint (ha_SignedAtMS a))) with (FormatInt (ha_SignedAtMS a)).
  assert (slen HeartbeatAuthScheme = 11) by done. slen_consts. lia.
Qed.

(** ** Error responses *)
Lemma slen_omitAuth auth : (∀ a, auth = Some a → signedAuth a) → zsum memberSize (omitAuth auth) ≤ 628.
Proof.
  intros H. destruct auth as [a|]; [|done]. cbn [omitAuth]. rewrite zsum_cons. unfold memberSize. cbn [fst snd zsum foldr].
  pose proof (slen_authMember a (H a eq_refl)). change (slen "auth") with 4. lia.
Qed.

(** An error response, whatever its message, with identifiers of routing size
    fits the floor. *)
Lemma error_response_size id dev tier message auth l :
  slen id ≤ 128 → slen dev ≤ 128 → slen tier ≤ 1 → (∀ a, auth = Some a → signedAuth a) →
  responseMembers (MkResponse id dev "" "" 0 0 fzero tier None (Some (BoundedError message)) auth) = Some l →
  slen (print (JObj l)) ≤ PayloadFloor.
Proof.
  intros Hi Hd Ht Ha [= <-]. etransitivity; [apply slen_print_obj|]. pose proof (slen_omitAuth auth Ha).
  cbn [rp_RequestID rp_DeviceID rp_Text rp_Model rp_TokensUsed rp_LatencyMS rp_ActionTier rp_ProposedAction rp_Error rp_Auth omitNil app].
  rewrite !zsum_cons. unfold memberSize at 1 2 3 4 5 6 7 8 9 10. cbn [fst snd].
  pose proof (slen_jstr id). pose proof (slen_jstr dev). pose proof (slen_jstr tier). pose proof (slen_bounded message).
  change (slen (print (jstr ""))) with 2. change (slen (print (jint 0))) with 1. change (zsum memberSize []) with 0.
  change (slen (print (JNum "0"))) with 1. change (slen (print JNull)) with 4. slen_consts. unfold PayloadFloor. lia.
Qed.

Lemma enriched_error_size id prop dev message auth :
  slen id ≤ 128 → slen prop ≤ 128 → slen dev ≤ 128 → (∀ a, auth = Some a → signedAuth a) →
  slen (print (JObj (enrichedMembers (MkEnriched id prop dev "" "" "" "" "" 0 0 (Some (BoundedError message)) auth)))) ≤ PayloadFloor.
Proof.
  intros Hi Hp Hd Ha. etransitivity; [apply slen_print_obj|]. unfold enrichedMembers.
  cbn [er_RequestID er_ProposalID er_DeviceID er_Explanation er_EstimatedImpact er_RecommendedOperatorContext er_Provider
       er_Model er_TokensUsed er_LatencyMS er_Error er_Auth omitNil app].
  unfold omitString, omitInt. rewrite !bool_decide_true by done. cbn [Z.eqb app]. pose proof (slen_omitAuth auth Ha).
  rewrite !zsum_cons. unfold memberSize at 1 2 3 4. cbn [fst snd].
  pose proof (slen_jstr id). pose proof (slen_jstr dev). pose proof (slen_jstr prop). pose proof (slen_bounded message).
  slen_consts. unfold PayloadFloor. lia.
Qed.
End RequestsSpec.
