(* ===== verification/Dispatcher.v ===== *)
(** * The dispatcher of reasoning requests (dispatcher/dispatcher.go)

    A request is decoded, validated, held against its topic, verified, and
    entered among those in flight; the provider is called under a timeout;
    one response is published; the request leaves. The provider's answer, the
    wall clock and whether the broker takes a message are arguments. Handlers
    run concurrently: the parts between the locks are definitions of their
    own, and [HandleRequest] composes them. *)
From S2P Require Import Prelude GoBytes Json Float64 Contracts Heap Replay MqttAuth Returns StateClock Requests.
Import Float64 Contracts Replay MqttAuth Returns StateClock Requests.

Module Dispatcher.

Definition Second : Z := 1000 * Millisecond.
Definition defaultPublishTimeout : Z := 5 * Second.
Definition DefaultProviderTimeoutMS : Z := 10000.
Definition confidenceDecimals : float64 := ofInt 10000.
Definition QoSReasoning : Z := 1.

(** ** Signing times

    What a component that signs needs of its clock: the wall clock's reading
    in, a time or a refusal out. *)
Class SigningSource (C : Type) := {
  NextAt : Z → EM C Z;
  NextAt_bound : ∀ wall c at_ c', NextAt wall c = (Ok at_, c') → at_ ≤ i64_max }.

(** [Next] of the gateway's signing clock: a caller that waits is woken by the
    outcome of the write it waits for or, when no more outcomes come, by the
    write bound, which opens an episode. *)
Fixpoint nextLoop (outcomes : list (res unit)) (wall : Z) (c : SigningClock) : res Z * (SigningClock * list (res unit)) :=
  match tryNext wall c with
  | (Issued at_, c') => (Ok at_, (c', outcomes))
  | (Refused ErrSigningClockExhausted, c') => (Err (EMsg "signing clock exhausted"), (c', outcomes))
  | (Refused _, c') => (Err (EMsg "signing clock closed"), (c', outcomes))
  | (Waits, c') =>
    match outcomes with
    | r :: outcomes' => nextLoop outcomes' wall (takeOutcome (from_option fst 0 (sc_write c')) r c')
    | [] =>
      match tryNext wall (openEpisodeLocked c') with
      | (Issued at_, c'') => (Ok at_, (c'', []))
      | (_, c'') => (Err (EMsg "signing clock closed"), (c'', []))
      end
    end
  end.

(** A caller is answered: once the write bound has opened an episode nobody
    waits. *)
Lemma tryNext_bound wall c at_ c' : tryNext wall c = (Issued at_, c') → at_ ≤ i64_max.
Proof.
  unfold tryNext. cbv zeta. destruct (Z.leb_spec SigningCeiling (Z.max wall (wrap64 (sc_last c + 1)))); [done|].
  destruct (_ && _); [done|]. destruct (_ && _ && _); [done|]. intros [= <- _]. unfold SigningCeiling in *. lia.
Qed.

Lemma nextLoop_bound outcomes wall c at_ c' : nextLoop outcomes wall c = (Ok at_, c') → at_ ≤ i64_max.
Proof.
  revert c. induction outcomes as [|r outcomes IH]; intros c; cbn [nextLoop];
    (destruct (tryNext wall c) as [[a|[]|] c1] eqn:E; try done; [intros [= <- _]; by eapply tryNext_bound|]).
  - destruct (tryNext wall (openEpisodeLocked c1)) as [[a|e|] c2] eqn:E2; [|done..]. intros [= <- _]. by eapply tryNext_bound.
  - apply IH.
Qed.

#[global] Instance gatewaySigning : SigningSource (SigningClock * list (res unit)) := {
  NextAt wall c := nextLoop c.2 wall c.1;
  NextAt_bound wall c at_ c' := nextLoop_bound c.2 wall c.1 at_ c' }.

(** ** Construction *)
Record Options := MkOptions { op_ProviderTimeoutMS : Z; op_PublishTimeout : Z; op_AuthVerifier : option Verifier; op_SigningSecret : string }.

Record Dispatcher := MkDispatcher {
  dp_providerTimeout : Z; dp_publishTimeout : Z; dp_verifier : option Verifier; dp_signingSecret : string }.

Definition New (publisher provider : bool) (opts : Options) : res Dispatcher :=
  if negb publisher then Err (EMsg "dispatcher: publisher must not be nil")
  else if negb provider then Err (EMsg "dispatcher: provider must not be nil")
  else if op_ProviderTimeoutMS opts <? 0 then Err (EMsg "dispatcher: provider timeout must not be negative")
  else
    let providerTimeout :=
      if op_ProviderTimeoutMS opts =? 0 then wrap64 (DefaultProviderTimeoutMS * Millisecond)
      else wrap64 (op_ProviderTimeoutMS opts * Millisecond) in
    let publishTimeout := if op_PublishTimeout opts =? 0 then defaultPublishTimeout else op_PublishTimeout opts in
    if publishTimeout <? 0 then Err (EMsg "dispatcher: publish timeout must not be negative")
    else
      let signingSecret := TrimSpace (op_SigningSecret opts) in
      if negb (Bool.eqb (bool_decide (op_AuthVerifier opts = None)) (bool_decide (signingSecret = ""))) then
        Err (EMsg "dispatcher: auth verifier and signing secret must be configured together")
      else Ok (MkDispatcher providerTimeout publishTimeout (op_AuthVerifier opts) signingSecret).

(** ** The provider's answer *)
Inductive failure := DeadlineExceeded | Canceled | ProviderPanic | OtherFailure.

Definition providerErrorMessage (e : failure) : string :=
  match e with
  | DeadlineExceeded => "provider timeout"
  | Canceled => "provider canceled"
  | ProviderPanic => "provider panic"
  | OtherFailure => "provider error"
  end.

(** The time the provider is given: the configured one, or the request's when
    shorter. *)
Definition timeoutFor (d : Dispatcher) (req : ReasoningRequest) : Z :=
  let requested := wrap64 (rq_TimeoutMS req * Millisecond) in
  if (0 <? rq_TimeoutMS req) && (requested <? dp_providerTimeout d) then requested else dp_providerTimeout d.

Definition callProvider (Reason : Z → ReasoningRequest → ReasoningResponse + failure) (d : Dispatcher) (req : ReasoningRequest)
    : ReasoningResponse + failure :=
  Reason (timeoutFor d req) req.

(** ** State *)
Record dworld (C : Type) := MkDWorld {
  dw_inFlight : gset (string * string);
  dw_replay : replayState;
  dw_clock : C;
  dw_handed : list (string * string) }.   (* what the publisher was handed, the latest first *)
Arguments MkDWorld {C}.
Arguments dw_inFlight {C}.
Arguments dw_replay {C}.
Arguments dw_clock {C}.
Arguments dw_handed {C}.

Definition validateRequestTopic (req : ReasoningRequest) (topic : string) : res unit :=
  if bool_decide (topic = "") then Ok tt
  else match RequestTopic (rq_DeviceID req) with
  | Err e => Err e
  | Ok want => if negb (bool_decide (topic = want)) then Err (EMsg "dispatcher: request topic does not match device_id") else Ok tt
  end.

Definition setDevice (dev : string) (r : ReasoningResponse) : ReasoningResponse :=
  MkResponse (rp_RequestID r) dev (rp_Text r) (rp_Model r) (rp_TokensUsed r) (rp_LatencyMS r) (rp_Confidence r)
    (rp_ActionTier r) (rp_ProposedAction r) (rp_Error r) (rp_Auth r).

(** The confidence at four decimals and no auth. *)
Definition rounded (r : ReasoningResponse) : ReasoningResponse :=
  MkResponse (rp_RequestID r) (rp_DeviceID r) (rp_Text r) (rp_Model r) (rp_TokensUsed r) (rp_LatencyMS r)
    (fdiv (Round (fmul (rp_Confidence r) confidenceDecimals)) confidenceDecimals)
    (rp_ActionTier r) (rp_ProposedAction r) (rp_Error r) None.

Definition withAuth (a : HeartbeatAuth) (r : ReasoningResponse) : ReasoningResponse :=
  MkResponse (rp_RequestID r) (rp_DeviceID r) (rp_Text r) (rp_Model r) (rp_TokensUsed r) (rp_LatencyMS r) (rp_Confidence r)
    (rp_ActionTier r) (rp_ProposedAction r) (rp_Error r) (Some a).

Definition withoutAuth (r : ReasoningRequest) : ReasoningRequest :=
  MkRequest (rq_RequestID r) (rq_DeviceID r) (rq_SensorType r) (rq_TriggerName r) (rq_Prompt r) (rq_Context r) (rq_ActionTierHint r)
    (rq_TimeoutMS r) None.

(** [json.Marshal] of a response. *)
Definition marshalResponse (r : ReasoningResponse) : res string :=
  match responseMembers r with
  | Some members => Ok (print (JObj members))
  | None => Err (EMsg "dispatcher: encode response")
  end.

Section Handler.
Context (ValidateWireUnicode : string → bool) (DecodeStrict : list string → string → option strictError).
Context (Marshal : gmap string json → res string).
Context {C : Type} `{SigningSource C}.
Context (d : Dispatcher).

Definition errorFor (req : ReasoningRequest) (message : string) : ReasoningResponse :=
  NewErrorResponse (rq_RequestID req) (rq_DeviceID req) (rq_ActionTierHint req) message.

(** The signed times it draws come from the clock. *)
Definition encodeResponse (wall : Z) (req : ReasoningRequest) (resp : ReasoningResponse) : EM C string := λ c,
  let resp := match rp_Error resp with Some e => errorFor req e | None => resp end in
  let resp := rounded resp in
  if bool_decide (dp_signingSecret d = "") then (marshalResponse resp, c)
  else match NextAt wall c with
  | (Err e, c1) => (Err e, c1)
  | (Ok signedAt, c1) =>
    match responseMembers resp with
    | None => (Err (EMsg "dispatcher: sign response"), c1)
    | Some members =>
      match Sign Marshal (toMap members) ReasoningResponseMessageType (rq_DeviceID req) (rq_RequestID req) signedAt (dp_signingSecret d) with
      | Err e => (Err e, c1)
      | Ok auth => (marshalResponse (withAuth auth resp), c1)
      end
    end
  end.

(** The payload that answers the request: the response, or the family's error
    response where it cannot be encoded or is too large. *)
Definition responsePayload (wall : Z) (req : ReasoningRequest) (resp : ReasoningResponse) : EM C string := λ c,
  match encodeResponse wall req resp c with
  | (Err _, c1) => encodeResponse wall req (errorFor req "provider returned invalid response") c1
  | (Ok payload, c1) =>
    if default 0 (PayloadMaxima !! FamilyReasoningResponse) <? slen payload
    then encodeResponse wall req (errorFor req ErrorResponseTooLarge) c1
    else (Ok payload, c1)
  end.

Definition publishResponse (wall : Z) (sendOK : bool) (req : ReasoningRequest) (resp : ReasoningResponse) : EM (dworld C) unit := λ w,
  match ResponseTopic (rq_DeviceID req) with
  | Err e => (Err e, w)
  | Ok topic =>
    match responsePayload wall req resp (dw_clock w) with
    | (Err e, c) => (Err (ErrPublishResponse e), MkDWorld (dw_inFlight w) (dw_replay w) c (dw_handed w))
    | (Ok payload, c) =>
      (if sendOK then Ok tt else Err (ErrPublishResponse (EMsg "publish")),
       MkDWorld (dw_inFlight w) (dw_replay w) c ((topic, payload) :: dw_handed w))
    end
  end.

(** Up to the request being entered: what is refused here has no effect but on
    the replay record. *)
Definition admitRequest (canceled : option error) (t : Z) (topic payload : string) : EM (dworld C) ReasoningRequest := λ w,
  match canceled with
  | Some e => (Err e, w)
  | None =>
    match decodeRequest payload with
    | None => (Err (EMsg "dispatcher: decode request"), w)
    | Some req =>
      match ValidateRequest req with
      | Err e => (Err e, w)
      | Ok _ =>
        if rq_TimeoutMS req <? 0 then (Err (EMsg "dispatcher: validate request: timeout_ms must not be negative"), w)
        else match validateRequestTopic req topic with
        | Err e => (Err e, w)
        | Ok _ =>
          match dp_verifier d with
          | None => (Ok (withoutAuth req), w)
          | Some v =>
            let '(r, s, _) := VerifyJSON ValidateWireUnicode DecodeStrict Marshal v payload ReasoningRequestMessageType
                                (rq_DeviceID req) (rq_RequestID req) t (dw_replay w) tt in
            let w' := MkDWorld (dw_inFlight w) s (dw_clock w) (dw_handed w) in
            match r with
            | Err e => (Err (errUnauthenticated e), w')
            | Ok _ => (Ok (withoutAuth req), w')
            end
          end
        end
      end
    end
  end.

Definition keyOf (req : ReasoningRequest) : string * string := (rq_DeviceID req, rq_RequestID req).

Definition begin (key : string * string) (w : dworld C) : bool * dworld C :=
  if decide (key ∈ dw_inFlight w) then (false, w)
  else (true, MkDWorld ({[key]} ∪ dw_inFlight w) (dw_replay w) (dw_clock w) (dw_handed w)).

Definition finish (key : string * string) (w : dworld C) : dworld C :=
  MkDWorld (dw_inFlight w ∖ {[key]}) (dw_replay w) (dw_clock w) (dw_handed w).

(** The response to the provider's answer. *)
Definition respond (req : ReasoningRequest) (answer : ReasoningResponse + failure) : ReasoningResponse :=
  match answer with
  | inr e => errorFor req (providerErrorMessage e)
  | inl resp =>
    let resp := setDevice (rq_DeviceID req) resp in
    match ValidateResponseForRequest req resp with
    | Err _ => errorFor req "provider returned invalid response"
    | Ok _ => resp
    end
  end.

Definition HandleRequest (Reason : Z → ReasoningRequest → ReasoningResponse + failure) (canceled : option error) (t wall : Z)
    (sendOK : bool) (topic payload : string) : EM (dworld C) unit := λ w,
  match admitRequest canceled t topic payload w with
  | (Err e, w1) => (Err e, w1)
  | (Ok req, w1) =>
    match begin (keyOf req) w1 with
    | (false, w2) => (Err ErrRequestInFlight, w2)
    | (true, w2) =>
      let '(r, w3) := publishResponse wall sendOK req (respond req (callProvider Reason d req)) w2 in
      (r, finish (keyOf req) w3)
    end
  end.
End Handler.
End Dispatcher.
