(* ===== verification/DispatcherSpec.v ===== *)
(** * What the dispatcher promises

    One correlated response per accepted request and none for any other, under
    every interleaving of handlers; at most one request of an identity in
    flight; nothing before verification; answers within the topic's maximum. *)
From S2P Require Import Prelude GoBytes Json Float64 Contracts Heap Replay MqttAuth Returns StateClock Requests RequestsSpec Dispatcher.
Import Float64 Contracts Replay MqttAuth Returns StateClock Requests RequestsSpec Dispatcher.

Module DispatcherSpec.

(** ** What is accepted *)
Lemma validRequest req :
  ValidateRequest req = Ok tt →
  ValidRoutingID (rq_RequestID req) = true ∧ validateMQTTDeviceID (rq_DeviceID req) = Ok tt ∧ rq_Prompt req ≠ "" ∧
  IsValidActionTier (rq_ActionTierHint req) = true.
Proof.
  unfold ValidateRequest, validateMQTTRequestID. destruct (ValidRoutingID _); [|done]. cbn [negb].
  destruct (validateMQTTDeviceID _) as [[]|]; [|done]. case_bool_decide; [done|]. by destruct (IsValidActionTier _).
Qed.

(** A tier name is one letter. *)
Lemma tier_size tier : IsValidActionTier tier = true → slen tier ≤ 1.
Proof. unfold IsValidActionTier. rewrite !orb_true_iff, !bool_decide_eq_true. by intros [[[->| ->]| ->]| ->]. Qed.

Lemma routing_size s : ValidRoutingID s = true → slen s ≤ 128.
Proof.
  unfold ValidRoutingID. destruct (bool_decide _ || _) eqn:E; [done|]. apply orb_false_iff in E as [_ E].
  unfold maxRoutingID in E. lia.
Qed.

Section Handler.
Context (ValidateWireUnicode : string → bool) (DecodeStrict : list string → string → option strictError).
Context (Marshal : gmap string json → res string).
Context {C : Type} `{SigningSource C}.
Context (d : Dispatcher).

Notation admitRequest := (admitRequest ValidateWireUnicode DecodeStrict Marshal d).
Notation encodeResponse := (encodeResponse Marshal d).
Notation responsePayload := (responsePayload Marshal d).
Notation publishResponse := (publishResponse Marshal d).

(** The request was decoded from a valid payload on its own topic and, where a
    verifier is configured, opened from a signed and fresh envelope. *)
Definition admitted (t : Z) (topic payload : string) (s : replayState) (req : ReasoningRequest) : Prop :=
  ∃ req0, decodeRequest payload = Some req0 ∧ req = withoutAuth req0 ∧ ValidateRequest req = Ok tt ∧ 0 ≤ rq_TimeoutMS req ∧
    (topic = "" ∨ RequestTopic (rq_DeviceID req) = Ok topic) ∧
    ∀ v, dp_verifier d = Some v → ∃ auth unsigned,
      openEnvelope ValidateWireUnicode DecodeStrict Marshal v payload ReasoningRequestMessageType (rq_DeviceID req) (rq_RequestID req) = Ok (auth, unsigned) ∧
      check (replayKey ReasoningRequestMessageType (rq_DeviceID req) (rq_RequestID req) (ha_SignedAtMS auth) (ha_Signature auth))
        (ha_SignedAtMS auth) t (prune t s) = None.

(** Admission touches nothing but the replay record. *)
Lemma admitRequest_spec canceled t topic payload (w w' : dworld C) r :
  admitRequest canceled t topic payload w = (r, w') →
  dw_inFlight w' = dw_inFlight w ∧ dw_clock w' = dw_clock w ∧ dw_handed w' = dw_handed w ∧
  ∀ req, r = Ok req → admitted t topic payload (dw_replay w) req.
Proof.
  unfold Dispatcher.admitRequest. destruct canceled; [by intros [= <- <-]|]. destruct (decodeRequest payload) as [req0|] eqn:Ed; [|by intros [= <- <-]].
  destruct (ValidateRequest req0) as [[]|] eqn:Ev; [|by intros [= <- <-]]. destruct (Z.ltb_spec (rq_TimeoutMS req0) 0); [by intros [= <- <-]|].
  unfold validateRequestTopic. case_bool_decide as Et; [|destruct (RequestTopic _) as [want|] eqn:Er; [|by intros [= <- <-]];
    case_bool_decide as Ew; [|by intros [= <- <-]]]; cbn [negb].
  all: destruct (dp_verifier d) as [v|] eqn:Edv;
    [|intros [= <- <-]; split_and!; [done..|]; intros req [= <-]; exists req0; split_and!; [done..|subst; auto|by rewrite Edv]].
  all: unfold VerifyJSON, verifyJSON; destruct (openEnvelope _ _ _ _ _ _ _ _) as [[auth un]|e] eqn:Eo; [|by intros [= <- <-]].
  all: unfold checkFreshAndRecord; cbn [fmap option_fmap option_map]; destruct (check _ _ _ _) eqn:Ec; intros [= <- <-]; [by split_and!|];
    split_and!; [done..|]; intros req [= <-]; exists req0; split_and!; [done..|subst; auto|];
    intros v' [= <-]%(eq_trans (eq_sym Edv)); by exists auth, un.
Qed.

(** ** What answers a request *)

(** The wire form of a response that carries the request's identity and a
    valid tier. *)
Definition answers (req : ReasoningRequest) (m : string * string) : Prop :=
  ResponseTopic (rq_DeviceID req) = Ok m.1 ∧
  ∃ resp members, responseMembers resp = Some members ∧ m.2 = print (JObj members) ∧
    rp_RequestID resp = rq_RequestID req ∧ rp_DeviceID resp = rq_DeviceID req ∧ IsValidActionTier (rp_ActionTier resp) = true ∧
    (dp_signingSecret d ≠ "" → ∃ auth, rp_Auth resp = Some auth).

Definition correlated (req : ReasoningRequest) (resp : ReasoningResponse) : Prop :=
  rp_RequestID resp = rq_RequestID req ∧ rp_DeviceID resp = rq_DeviceID req ∧ IsValidActionTier (rp_ActionTier resp) = true.

Lemma correlated_error req m : ValidateRequest req = Ok tt → correlated req (errorFor req m).
Proof. intros (_ & _ & _ & Hv)%validRequest. split_and!; done. Qed.

Lemma respond_correlated req answer : ValidateRequest req = Ok tt → correlated req (respond req answer).
Proof.
  intros Hv. unfold respond. destruct answer as [resp|e]; [|by apply correlated_error].
  destruct (ValidateResponseForRequest req _) as [[]|] eqn:E; [|by apply correlated_error].
  unfold ValidateResponseForRequest in E. case_bool_decide; [|done]. case_bool_decide; [|done]. cbn [negb] in E.
  destruct (IsValidActionTier _) eqn:Et; [|done]. split_and!; done.
Qed.

Lemma encodeResponse_spec wall req resp (c c' : C) payload :
  ValidateRequest req = Ok tt → correlated req resp → encodeResponse wall req resp c = (Ok payload, c') →
  ∃ resp' members, responseMembers resp' = Some members ∧ payload = print (JObj members) ∧ correlated req resp' ∧
    (dp_signingSecret d ≠ "" → ∃ auth, rp_Auth resp' = Some auth) ∧
    (is_Some (rp_Error resp) → slen (rq_DeviceID req) ≤ 128 → slen payload ≤ PayloadFloor).
Proof.
  intros Hv Hc. unfold Dispatcher.encodeResponse. cbv zeta.
  set (resp1 := match rp_Error resp with Some e => errorFor req e | None => resp end).
  assert (correlated req resp1) as Hc1 by (unfold resp1; destruct (rp_Error resp); [by apply correlated_error|done]).
  assert (∀ e auth members, rp_Error resp = Some e → (∀ a, auth = Some a → signedAuth a) → slen (rq_DeviceID req) ≤ 128 →
    responseMembers (match auth with Some a => withAuth a (rounded resp1) | None => rounded resp1 end) = Some members →
    slen (print (JObj members)) ≤ PayloadFloor) as Hsize.
  { intros e auth members He Ha Hd Hm. unfold resp1 in Hm. rewrite He in Hm. apply validRequest in Hv as (Hid & _ & _ & Ht).
    eapply (error_response_size (rq_RequestID req) (rq_DeviceID req) (rq_ActionTierHint req) e auth);
      [by apply routing_size|done|by apply tier_size|done|]. rewrite <-Hm. by destruct auth. }
  case_bool_decide as Es.
  - unfold marshalResponse. destruct (responseMembers (rounded resp1)) as [members|] eqn:Em; [|done]. intros [= <- _].
    exists (rounded resp1), members. split_and!; [done..|]. intros [e He] Hd. by apply (Hsize e None).
  - destruct (NextAt wall c) as [[at_|] c1] eqn:En; [|done]. destruct (responseMembers (rounded resp1)) as [members|] eqn:Em; [|done].
    destruct (Sign _ _ _ _ _ _ _) as [auth|] eqn:Eg; [|done]. unfold marshalResponse.
    destruct (responseMembers (withAuth auth (rounded resp1))) as [members'|] eqn:Em'; [|done]. intros [= <- _].
    exists (withAuth auth (rounded resp1)), members'. split_and!; [done..|intros _; by exists auth|].
    intros [e He] Hd. apply (Hsize e (Some auth)); [done| |done|done]. intros a [= <-].
    eapply Sign_signedAuth; [by eapply NextAt_bound|done].
Qed.

Lemma responsePayload_spec wall req resp (c c' : C) payload :
  ValidateRequest req = Ok tt → correlated req resp → responsePayload wall req resp c = (Ok payload, c') →
  (∃ resp' members, responseMembers resp' = Some members ∧ payload = print (JObj members) ∧ correlated req resp' ∧
    (dp_signingSecret d ≠ "" → ∃ auth, rp_Auth resp' = Some auth)) ∧
  (slen (rq_DeviceID req) ≤ 128 → slen payload ≤ default 0 (PayloadMaxima !! FamilyReasoningResponse)).
Proof.
  intros Hv Hc. unfold Dispatcher.responsePayload.
  assert (PayloadFloor ≤ default 0 (PayloadMaxima !! FamilyReasoningResponse)) as Hfloor by (by vm_compute).
  assert (∀ m (c1 : C), encodeResponse wall req (errorFor req m) c1 = (Ok payload, c') → (∃ resp' members, responseMembers resp' = Some members ∧
    payload = print (JObj members) ∧ correlated req resp' ∧ (dp_signingSecret d ≠ "" → ∃ auth, rp_Auth resp' = Some auth)) ∧
    (slen (rq_DeviceID req) ≤ 128 → slen payload ≤ default 0 (PayloadMaxima !! FamilyReasoningResponse))) as Herr.
  { intros m c1 He. apply encodeResponse_spec in He as (r & l & ? & ? & ? & ? & Hs); [|done|by apply correlated_error].
    split; [by exists r, l|]. intros Hd. specialize (Hs ltac:(by eexists) Hd). lia. }
  destruct (encodeResponse wall req resp c) as [[p1|e] c1] eqn:E1; [|apply Herr].
  destruct (Z.ltb_spec (default 0 (PayloadMaxima !! FamilyReasoningResponse)) (slen p1)); [apply Herr|]. intros [= <- <-].
  apply encodeResponse_spec in E1 as (r & l & ? & ? & ? & ? & _); [|done..]. split; [by exists r, l|done].
Qed.

(** A response is published at most once, correlated; without one the clock
    refused to sign. *)
Lemma publishResponse_spec wall sendOK req resp (w w' : dworld C) r :
  ValidateRequest req = Ok tt → correlated req resp → publishResponse wall sendOK req resp w = (r, w') →
  dw_inFlight w' = dw_inFlight w ∧ dw_replay w' = dw_replay w ∧
  ((∃ m, dw_handed w' = m :: dw_handed w ∧ answers req m ∧
      (slen (rq_DeviceID req) ≤ 128 → slen m.2 ≤ default 0 (PayloadMaxima !! FamilyReasoningResponse)) ∧ (r = Ok tt ↔ sendOK = true)) ∨
   (dw_handed w' = dw_handed w ∧ ∃ e c, responsePayload wall req resp (dw_clock w) = (Err e, c) ∧ r = Err (ErrPublishResponse e))).
Proof.
  intros Hv Hc. unfold Dispatcher.publishResponse. pose proof (validRequest _ Hv) as (_ & Hd & _).
  assert (∃ topic, ResponseTopic (rq_DeviceID req) = Ok topic) as [topic Et] by (unfold ResponseTopic, deviceTopic; rewrite Hd; eauto).
  rewrite Et. destruct (responsePayload wall req resp (dw_clock w)) as [[payload|e] c] eqn:Ep; intros [= <- <-]; cbn.
  - split; [done|]. split; [done|]. left. apply responsePayload_spec in Ep as [(r' & l & ? & ? & (? & ? & ?) & ?) Hs]; [|done..].
    exists (topic, payload). split_and!; [done|split; [done|]; by exists r', l|done|by destruct sendOK..].
  - split_and!; [done..|]. right. split; [done|]. by exists e, c.
Qed.

(** ** The family's error response can always be built while the clock signs *)
Definition signs : Prop :=
  dp_signingSecret d = "" ∨
  TrimSpace (dp_signingSecret d) ≠ "" ∧ (∀ m, ∃ canonical, Marshal m = Ok canonical) ∧
  ∀ wall (c : C), ∃ at_ c', NextAt wall c = (Ok at_, c') ∧ 0 < at_.

Lemma encode_error_total wall req m (c : C) : signs → ∃ payload c', encodeResponse wall req (errorFor req m) c = (Ok payload, c').
Proof.
  intros Hs. unfold Dispatcher.encodeResponse. cbn [rp_Error errorFor NewErrorResponse]. cbv zeta.
  set (r := rounded _). assert (∃ l, responseMembers r = Some l) as [l El] by (eexists; reflexivity).
  assert (∀ a, ∃ l', responseMembers (withAuth a r) = Some l') as Hl by (intros; eexists; reflexivity).
  case_bool_decide as Es; [unfold marshalResponse; rewrite El; eauto|].
  destruct Hs as [?|(Ht & Hm & Hn)]; [done|]. destruct (Hn wall c) as (at_ & c1 & -> & Hat). rewrite El.
  unfold Sign. rewrite bool_decide_false by done. replace (at_ <=? 0) with false by lia.
  unfold CanonicalJSONWithoutAuth. destruct (Hm (delete "auth" (toMap l))) as [canonical ->].
  unfold marshalResponse. match goal with |- context [withAuth ?a _] => destruct (Hl a) as [l' ->] end. eauto.
Qed.

Lemma responsePayload_total wall req resp (c : C) : signs → ∃ payload c', responsePayload wall req resp c = (Ok payload, c').
Proof.
  intros Hs. unfold Dispatcher.responsePayload. destruct (encodeResponse wall req resp c) as [[p|e] c1]; [|by apply encode_error_total].
  destruct (_ <? _); [by apply encode_error_total|eauto].
Qed.

(** ** Handlers running together

    A handler is verified, then enters, then its provider answers and it is
    done; between these points other handlers run. The configuration keeps the
    requests at each point, every request ever begun, and what each one that
    is done handed to the publisher. *)
Record dconf := MkConf {
  dc_world : dworld C; dc_verified : list ReasoningRequest; dc_running : list ReasoningRequest;
  dc_begun : list ReasoningRequest; dc_done : list (ReasoningRequest * option (string * string)) }.

(** The message handed over by one step, if any. *)
Definition handedBy (w w' : dworld C) : option (string * string) :=
  if decide (length (dw_handed w') = length (dw_handed w)) then None else head (dw_handed w').

Inductive dstep : dconf → dconf → Prop :=
| d_refuse canceled t topic payload e w' c :
    admitRequest canceled t topic payload (dc_world c) = (Err e, w') →
    dstep c (MkConf w' (dc_verified c) (dc_running c) (dc_begun c) (dc_done c))
| d_admit canceled t topic payload req w' c :
    admitRequest canceled t topic payload (dc_world c) = (Ok req, w') →
    dstep c (MkConf w' (req :: dc_verified c) (dc_running c) (dc_begun c) (dc_done c))
| d_duplicate req l1 l2 w' c :
    dc_verified c = l1 ++ req :: l2 → begin (keyOf req) (dc_world c) = (false, w') →
    dstep c (MkConf w' (l1 ++ l2) (dc_running c) (dc_begun c) (dc_done c))
| d_begin req l1 l2 w' c :
    dc_verified c = l1 ++ req :: l2 → begin (keyOf req) (dc_world c) = (true, w') →
    dstep c (MkConf w' (l1 ++ l2) (req :: dc_running c) (req :: dc_begun c) (dc_done c))
| d_done req l1 l2 answer wall sendOK r w' c :
    dc_running c = l1 ++ req :: l2 → publishResponse wall sendOK req (respond req answer) (dc_world c) = (r, w') →
    dstep c (MkConf (finish (keyOf req) w') (dc_verified c) (l1 ++ l2) (dc_begun c) ((req, handedBy (dc_world c) w') :: dc_done c)).

Record dinv (c : dconf) : Prop := {
  di_valid : ∀ req, req ∈ dc_verified c ∨ req ∈ dc_begun c → ValidateRequest req = Ok tt;
  di_begun : dc_begun c ≡ₚ dc_running c ++ (fst <$> dc_done c);
  di_keys : NoDup (keyOf <$> dc_running c);
  di_inFlight : ∀ k, k ∈ dw_inFlight (dc_world c) ↔ k ∈ keyOf <$> dc_running c;
  di_handed : dw_handed (dc_world c) = omap snd (dc_done c);
  di_answers : ∀ req m, (req, Some m) ∈ dc_done c →
    answers req m ∧ (slen (rq_DeviceID req) ≤ 128 → slen m.2 ≤ default 0 (PayloadMaxima !! FamilyReasoningResponse));
  di_silent : signs → ∀ req, (req, None) ∉ dc_done c }.

Ltac conf := cbn [dc_world dc_verified dc_running dc_begun dc_done dw_inFlight dw_handed finish].

Lemma dstep_admission c w' verified :
  dinv c → dw_inFlight w' = dw_inFlight (dc_world c) → dw_handed w' = dw_handed (dc_world c) →
  (∀ req, req ∈ verified → ValidateRequest req = Ok tt) →
  dinv (MkConf w' verified (dc_running c) (dc_begun c) (dc_done c)).
Proof.
  intros [V B K F H' A S] Ef Eh Hv. split; conf; rewrite ?Ef, ?Eh; try done. intros x [?|?]; auto.
Qed.

Lemma dstep_begin req w' verified c :
  dinv c → ValidateRequest req = Ok tt → (∀ req, req ∈ verified → ValidateRequest req = Ok tt) →
  begin (keyOf req) (dc_world c) = (true, w') →
  dinv (MkConf w' verified (req :: dc_running c) (req :: dc_begun c) (dc_done c)).
Proof.
  intros [V B K F H' A S] Hr Hv Hb. unfold begin in Hb. case_decide as Hk; [done|]. injection Hb as <-. split; conf; try done.
  - intros x [?|[->|?]%elem_of_cons]; auto.
  - by rewrite B.
  - rewrite fmap_cons. apply NoDup_cons. split; [|done]. by rewrite <-F.
  - intros k. rewrite fmap_cons, elem_of_cons, elem_of_union, elem_of_singleton, F. done.
Qed.

Lemma dstep_done req l1 l2 answer wall sendOK r w' c :
  dinv c → dc_running c = l1 ++ req :: l2 → publishResponse wall sendOK req (respond req answer) (dc_world c) = (r, w') →
  dinv (MkConf (finish (keyOf req) w') (dc_verified c) (l1 ++ l2) (dc_begun c) ((req, handedBy (dc_world c) w') :: dc_done c)).
Proof.
  intros [V B K F H' A S] El Hp.
  assert (dc_running c ≡ₚ req :: l1 ++ l2) as Pr by (rewrite El; by rewrite Permutation_middle).
  assert (ValidateRequest req = Ok tt) as Hv by (apply V; right; rewrite B, Pr; left).
  pose proof Hp as (Ef & _ & Hc)%publishResponse_spec; [|done|by apply respond_correlated].
  assert (∀ m, handedBy (dc_world c) w' = Some m → dw_handed w' = m :: dw_handed (dc_world c) ∧ answers req m ∧
    (slen (rq_DeviceID req) ≤ 128 → slen m.2 ≤ default 0 (PayloadMaxima !! FamilyReasoningResponse))) as Hsome.
  { intros m E. unfold handedBy in E. destruct Hc as [(m' & Eh & Ha & Hs & _)|(Eh & _)]; rewrite Eh in E; [|by rewrite decide_True in E].
    rewrite decide_False in E by (cbn; lia). by injection E as <-. }
  assert (handedBy (dc_world c) w' = None → dw_handed w' = dw_handed (dc_world c) ∧ ¬ signs) as Hnone.
  { intros E. unfold handedBy in E. destruct Hc as [(m' & Eh & _)|(Eh & e & c1 & Er & _)]; rewrite Eh in E.
    - by rewrite decide_False in E by (cbn; lia).
    - split; [done|]. intros Hs. destruct (responsePayload_total wall req (respond req answer) (dw_clock (dc_world c)) Hs) as (? & ? & E'). congruence. }
  assert (NoDup (keyOf req :: (keyOf <$> l1 ++ l2))) as [Kn K']%NoDup_cons by (rewrite Pr in K; exact K).
  split; conf; try done.
  - rewrite B, Pr. cbn. by rewrite Permutation_middle.
  - intros k. rewrite elem_of_difference, elem_of_singleton, Ef, F, Pr, fmap_cons, elem_of_cons. split; [intros [[->|?] Hne]; [by destruct Hne|done]|].
    intros Hk. split; [by right|]. intros ->. done.
  - cbn. destruct (handedBy (dc_world c) w') as [m|] eqn:E; [destruct (Hsome m eq_refl) as (-> & _)|destruct (Hnone eq_refl) as [-> _]]; by rewrite H'.
  - intros x m [[= -> E]|?]%elem_of_cons; [|by apply A]. by apply Hsome.
  - intros Hs x [[= -> E]|?]%elem_of_cons; [|by eapply S]. by destruct (Hnone (eq_sym E)).
Qed.

Lemma mid_elem {T} (x y : T) l1 l2 : x ∈ l1 ++ l2 → x ∈ l1 ++ y :: l2.
Proof. rewrite !elem_of_app, elem_of_cons. tauto. Qed.

Lemma dstep_inv c c' : dstep c c' → dinv c → dinv c'.
Proof.
  intros [canceled t topic payload e w' c0 Ha|canceled t topic payload req w' c0 Ha|req l1 l2 w' c0 El Hb|req l1 l2 w' c0 El Hb
    |req l1 l2 answer wall sendOK r w' c0 El Hp] I; pose proof (di_valid _ I) as V.
  - apply admitRequest_spec in Ha as (Ef & _ & Eh & _). apply dstep_admission; auto.
  - apply admitRequest_spec in Ha as (Ef & _ & Eh & (req0 & _ & _ & Hv & _)%(λ h, h req eq_refl)).
    apply dstep_admission; [done..|]. intros x [->|?]%elem_of_cons; auto.
  - unfold begin in Hb. case_decide; [|done]. injection Hb as <-. apply dstep_admission; [done..|].
    intros x Hx. apply V. left. rewrite El. by apply mid_elem.
  - apply dstep_begin; [done| | |done].
    + apply V. left. rewrite El. apply elem_of_app. right. left.
    + intros x Hx. apply V. left. rewrite El. by apply mid_elem.
  - by eapply dstep_done.
Qed.

Lemma dsteps_inv c c' : rtc dstep c c' → dinv c → dinv c'.
Proof. induction 1; eauto using dstep_inv. Qed.

Definition dinit (s : replayState) (c : C) : dconf := MkConf (MkDWorld ∅ s c []) [] [] [] [].

Lemma dinit_inv s c : dinv (dinit s c).
Proof. split; cbn; try done; [set_solver|constructor|set_solver..]. Qed.


End Handler.

(** ** Bounds *)

(** An answer never exceeds the maximum of its topic: a response over it,
    one that cannot be encoded, or an error text of any length is replaced by
    an error response that fits the payload floor, for device identifiers of
    routing size. *)
Theorem answers_fit_their_topic Marshal {C} `{SigningSource C} d wall sendOK req answer (w w' : dworld C) r m :
  ValidateRequest req = Ok tt → slen (rq_DeviceID req) ≤ 128 →
  publishResponse Marshal d wall sendOK req (respond req answer) w = (r, w') → dw_handed w' = m :: dw_handed w →
  slen m.2 ≤ default 0 (PayloadMaxima !! FamilyReasoningResponse).
Proof.
  intros Hv Hd Hp Hm. apply publishResponse_spec in Hp as (_ & _ & [(m' & E & _ & Hs & _)|(E & _)]); [| |done|by apply respond_correlated].
  - rewrite E in Hm. injection Hm as <-. by apply Hs.
  - rewrite E in Hm. apply (f_equal length) in Hm. cbn in Hm. lia.
Qed.

(** The provider is given the request's time when it asks for less than
    the configured one, and otherwise the configured one; it is never given
    more, and never none, as long as the requested milliseconds fit a
    duration. *)
Theorem provider_timeout d req :
  0 < dp_providerTimeout d → 0 ≤ rq_TimeoutMS req ≤ i64_max / Millisecond →
  timeoutFor d req = (if decide (rq_TimeoutMS req = 0) then dp_providerTimeout d
                      else Z.min (rq_TimeoutMS req * Millisecond) (dp_providerTimeout d)) ∧
  0 < timeoutFor d req ≤ dp_providerTimeout d.
Proof.
  intros Hd [H0 H1]. unfold timeoutFor. assert (rq_TimeoutMS req * Millisecond ≤ i64_max) as Hm.
  { pose proof (Z.mul_div_le i64_max Millisecond ltac:(unfold Millisecond; lia)). unfold Millisecond in *. lia. }
  rewrite wrap64_id by (unfold in_i64, i64_min, Millisecond in *; lia). case_decide as E.
  - rewrite E. cbn. lia.
  - replace (0 <? rq_TimeoutMS req) with true by lia. cbn [andb].
    unfold Millisecond in *. destruct (Z.ltb_spec (rq_TimeoutMS req * 1000000) (dp_providerTimeout d)); lia.
Qed.

(** A request whose milliseconds do not fit a duration is given a time that
    has already passed. *)
Lemma provider_timeout_wraps :
  timeoutFor (MkDispatcher (10 * Second) (5 * Second) None "") (MkRequest "r1" "d1" "" "" "p" (MkContext fzero "" 0 []) "B" 9223372036855 None)
  = -9223372036854551616.
Proof. reflexivity. Qed.

(** ** A run *)
Definition sampleDispatcher : Dispatcher := MkDispatcher (10 * Second) (5 * Second) None "s3cret".
Definition sampleClock : SigningClock * list (res unit) := (NewSigningClock, []).
Definition sampleReplay : replayState := newReplayState 300000 300000 false 10 0.
Definition sampleMarshal : gmap string json → res string := λ _, Ok "{}".
Definition samplePayload : string :=
  dq "{'request_id':'r1','device_id':'d1','prompt':'why','context':{'value':1.5},'action_tier_hint':'B','timeout_ms':250}".
Definition sampleRequest : ReasoningRequest :=
  MkRequest "r1" "d1" "" "" "why" (MkContext (fdiv (ofInt 3) (ofInt 2)) "" 0 []) "B" 250 None.
Definition sampleAnswer : ReasoningResponse :=
  MkResponse "r1" "" "because" "m" 7 12 (fdiv (ofInt 87654) (ofInt 100000)) "A" None None None.
Definition sampleWorld : dworld (SigningClock * list (res unit)) := MkDWorld ∅ sampleReplay sampleClock [].

Definition sampleHandle (w : dworld (SigningClock * list (res unit))) :=
  HandleRequest (λ _, true) (λ _ _, None) sampleMarshal sampleDispatcher (λ _ _, inl sampleAnswer) None 1000 1000 true
    "ori/d1/reasoning/request" samplePayload w.

Example sample_handled :
  (sampleHandle sampleWorld).1 = Ok tt ∧
  (λ m, (m.1, String.substring 0 158 m.2)) <$> dw_handed (sampleHandle sampleWorld).2 = [("ori/d1/reasoning/response",
    dq "{'request_id':'r1','device_id':'d1','text':'because','model':'m','tokens_used':7,'latency_ms':12,'confidence':0.8765,'action_tier':'A','proposed_action':null,")].
Proof. vm_compute. split; reflexivity. Qed.

Definition samplePublished := publishResponse sampleMarshal sampleDispatcher 1000 true sampleRequest (respond sampleRequest (inl sampleAnswer))
  (MkDWorld {[("d1", "r1")]} sampleReplay sampleClock []).

Lemma sample_run :
  ∃ c, rtc (dstep (λ _, true) (λ _ _, None) sampleMarshal sampleDispatcher) (dinit sampleReplay sampleClock) c ∧ dc_begun c = [sampleRequest] ∧ dc_running c = [].
Proof.
  eexists. split; [|shelve]. eapply rtc_l.
  { eapply (d_admit _ _ _ _ None 1000 "ori/d1/reasoning/request" samplePayload sampleRequest). vm_compute. reflexivity. }
  eapply rtc_l. { eapply (d_begin _ _ _ _ sampleRequest [] []); vm_compute; reflexivity. }
  eapply rtc_l. { eapply (d_done _ _ _ _ sampleRequest [] [] (inl sampleAnswer) 1000 true); [vm_compute; reflexivity|vm_compute; reflexivity]. }
  apply rtc_refl. Unshelve. done.
Qed.



Lemma answers_fit_their_topic_witness :
  ∃ m, dw_handed samplePublished.2 = [m] ∧ slen m.2 ≤ default 0 (PayloadMaxima !! FamilyReasoningResponse).
Proof.
  eexists. split; [vm_compute; reflexivity|].
  eapply (answers_fit_their_topic sampleMarshal sampleDispatcher 1000 true sampleRequest (inl sampleAnswer)
    (MkDWorld {[("d1", "r1")]} sampleReplay sampleClock [])); [vm_compute; reflexivity|vm_compute; discriminate| |].
  - apply (surjective_pairing samplePublished).
  - vm_compute. reflexivity.
Defined.

Lemma provider_timeout_witness : timeoutFor sampleDispatcher sampleRequest = 250 * Millisecond.
Proof.
  destruct (provider_timeout sampleDispatcher sampleRequest) as [E _]; [reflexivity|split; vm_compute; discriminate|]. exact E.
Defined.
End DispatcherSpec.
