(* ===== verification/Enrichment.v ===== *)
(** * Tier-C enrichment (enrichment/handler.go)

    A runtime asks for advisory text on a proposal it already made; the
    handler verifies the request, asks the provider and publishes one response
    that carries nothing but the correlation and the text. The provider's
    answer, the wall clock and whether the broker takes a message are
    arguments; log records are not modelled. *)
From S2P Require Import Prelude GoBytes Json Float64 Contracts Heap Replay MqttAuth Returns StateClock Requests RequestsSpec Dispatcher DispatcherSpec.
Import Contracts Replay MqttAuth Returns StateClock Requests RequestsSpec.

Module Enrichment.
Import Dispatcher (SigningSource, NextAt, NextAt_bound, failure, DeadlineExceeded, Canceled, ProviderPanic, OtherFailure, Second).

Definition defaultPublishTimeout : Z := 5 * Second.

Record Options := MkOptions { eo_PublishTimeout : Z; eo_AuthVerifier : option Verifier; eo_SigningSecret : string }.

Record Handler := MkHandler { eh_publishTimeout : Z; eh_verifier : option Verifier; eh_signingSecret : string }.

Definition NewHandler (publisher provider : bool) (opts : Options) : res Handler :=
  if negb publisher then Err (EMsg "enrichment: publisher must not be nil")
  else if negb provider then Err (EMsg "enrichment: provider must not be nil")
  else
    let publishTimeout := if eo_PublishTimeout opts =? 0 then defaultPublishTimeout else eo_PublishTimeout opts in
    if publishTimeout <? 0 then Err (EMsg "enrichment: publish timeout must not be negative")
    else
      let signingSecret := TrimSpace (eo_SigningSecret opts) in
      if negb (Bool.eqb (bool_decide (eo_AuthVerifier opts = None)) (bool_decide (signingSecret = ""))) then
        Err (EMsg "enrichment: auth verifier and signing secret must be configured together")
      else Ok (MkHandler publishTimeout (eo_AuthVerifier opts) signingSecret).

Definition validationErrorMessage : string := "invalid enrichment request".

Definition providerErrorMessage (e : failure) : string :=
  match e with
  | DeadlineExceeded => "provider timeout"
  | Canceled => "provider canceled"
  | ProviderPanic => "provider panic"
  | OtherFailure => "provider error"
  end.

Record eworld (C : Type) := MkEWorld { ew_replay : replayState; ew_clock : C; ew_handed : list (string * string) }.
Arguments MkEWorld {C}.
Arguments ew_replay {C}.
Arguments ew_clock {C}.
Arguments ew_handed {C}.

Definition callProvider (EnrichTierC : Z → TierCEnrichmentRequest → TierCEnrichmentResponse + failure) (req : TierCEnrichmentRequest)
    : TierCEnrichmentResponse + failure :=
  EnrichTierC (wrap64 (eq_TimeoutMS req * Millisecond)) req.

Definition withoutAuth (r : TierCEnrichmentRequest) : TierCEnrichmentRequest :=
  MkEnrichment (eq_RequestID r) (eq_ProposalID r) (eq_DeviceID r) (eq_SkillName r) (eq_TriggerName r) (eq_SensorID r)
    (eq_SensorType r) (eq_ReadingValue r) (eq_Unit r) (eq_HistoryWindow r) (eq_ProposedAction r) (eq_SafeDefaultAction r)
    (eq_OperatorMessage r) (eq_TimeoutMS r) None.

Definition setIdentity (req : TierCEnrichmentRequest) (r : TierCEnrichmentResponse) : TierCEnrichmentResponse :=
  MkEnriched (eq_RequestID req) (eq_ProposalID req) (eq_DeviceID req) (er_Explanation r) (er_EstimatedImpact r)
    (er_RecommendedOperatorContext r) (er_Provider r) (er_Model r) (er_TokensUsed r) (er_LatencyMS r) (er_Error r) (er_Auth r).

Definition setAuthOf (auth : option HeartbeatAuth) (r : TierCEnrichmentResponse) : TierCEnrichmentResponse :=
  MkEnriched (er_RequestID r) (er_ProposalID r) (er_DeviceID r) (er_Explanation r) (er_EstimatedImpact r)
    (er_RecommendedOperatorContext r) (er_Provider r) (er_Model r) (er_TokensUsed r) (er_LatencyMS r) (er_Error r) auth.

Section Handler.
Context (ValidateWireUnicode : string → bool) (DecodeStrict : list string → string → option strictError).
Context (Marshal : gmap string json → res string).
Context {C : Type} `{SigningSource C}.
Context (h : Handler).

Definition errorFor (req : TierCEnrichmentRequest) (message : string) : TierCEnrichmentResponse :=
  NewTierCEnrichmentErrorResponse (eq_RequestID req) (eq_ProposalID req) (eq_DeviceID req) message.

Definition encodeResponse (wall : Z) (req : TierCEnrichmentRequest) (resp : TierCEnrichmentResponse) : EM C string := λ c,
  let resp := match er_Error resp with Some e => errorFor req e | None => resp end in
  let resp := setAuthOf None resp in
  if bool_decide (eh_signingSecret h = "") then (Ok (print (JObj (enrichedMembers resp))), c)
  else match NextAt wall c with
  | (Err e, c1) => (Err e, c1)
  | (Ok signedAt, c1) =>
    match Sign Marshal (toMap (enrichedMembers resp)) TierCEnrichmentResponseMessageType (eq_DeviceID req) (eq_RequestID req) signedAt
            (eh_signingSecret h) with
    | Err e => (Err e, c1)
    | Ok auth => (Ok (print (JObj (enrichedMembers (setAuthOf (Some auth) resp)))), c1)
    end
  end.

Definition responsePayload (wall : Z) (req : TierCEnrichmentRequest) (resp : TierCEnrichmentResponse) : EM C string := λ c,
  match encodeResponse wall req resp c with
  | (Err e, c1) => (Err e, c1)
  | (Ok payload, c1) =>
    if default 0 (PayloadMaxima !! FamilyEnrichmentResponse) <? slen payload
    then encodeResponse wall req (errorFor req ErrorResponseTooLarge) c1
    else (Ok payload, c1)
  end.

Definition publishResponse (wall : Z) (sendOK : bool) (req : TierCEnrichmentRequest) (resp : TierCEnrichmentResponse) : EM (eworld C) unit := λ w,
  match TierCEnrichmentResponseTopic (eq_DeviceID req) with
  | Err e => (Err e, w)
  | Ok topic =>
    match responsePayload wall req resp (ew_clock w) with
    | (Err e, c) => (Err e, MkEWorld (ew_replay w) c (ew_handed w))
    | (Ok payload, c) =>
      (if sendOK then Ok tt else Err (EMsg "enrichment: publish response"), MkEWorld (ew_replay w) c ((topic, payload) :: ew_handed w))
    end
  end.

Definition publishError (wall : Z) (sendOK : bool) (req : TierCEnrichmentRequest) (message : string) : EM (eworld C) unit :=
  publishResponse wall sendOK req (errorFor req message).

(** What is answered to a request whose identifiers hold their form. *)
Definition respond (EnrichTierC : Z → TierCEnrichmentRequest → TierCEnrichmentResponse + failure) (req : TierCEnrichmentRequest)
    : TierCEnrichmentResponse :=
  match ValidateTierCEnrichmentRequest req with
  | Err _ => errorFor req validationErrorMessage
  | Ok _ =>
    match callProvider EnrichTierC req with
    | inr e => errorFor req (providerErrorMessage e)
    | inl resp =>
      let resp := setIdentity req resp in
      match ValidateTierCEnrichmentResponseForRequest req resp with
      | Err _ => errorFor req "provider returned invalid response"
      | Ok _ => resp
      end
    end
  end.

(** Everything before the request is answered. *)
Definition admitRequest (canceled : option error) (t : Z) (topic payload : string) : EM (eworld C) TierCEnrichmentRequest := λ w,
  match canceled with
  | Some e => (Err e, w)
  | None =>
    match DeviceIDFromTierCEnrichmentRequestTopic topic with
    | Err e => (Err e, w)
    | Ok deviceID =>
      match decodeEnrichment payload with
      | None => (Err (EMsg "enrichment: decode request"), w)
      | Some req =>
        if negb (bool_decide (eq_DeviceID req = deviceID)) then (Err (EMsg "enrichment: request topic does not match device_id"), w)
        else
          let '(r, s) :=
            match eh_verifier h with
            | None => (Ok ∅, ew_replay w)
            | Some v => (VerifyJSON ValidateWireUnicode DecodeStrict Marshal v payload TierCEnrichmentRequestMessageType deviceID
                           (eq_RequestID req) t (ew_replay w) tt).1
            end in
          let w1 := MkEWorld s (ew_clock w) (ew_handed w) in
          match r with
          | Err e => (Err (errUnauthenticated e), w1)
          | Ok _ =>
            if negb (ValidRoutingID (eq_RequestID req)) || negb (ValidRoutingID (eq_ProposalID req)) then
              (Err (EMsg "enrichment: request_id or proposal_id outside its contract form"), w1)
            else (Ok (withoutAuth req), w1)
          end
      end
    end
  end.

Definition HandleRequest (EnrichTierC : Z → TierCEnrichmentRequest → TierCEnrichmentResponse + failure) (canceled : option error)
    (t wall : Z) (sendOK : bool) (topic payload : string) : EM (eworld C) unit := λ w,
  match admitRequest canceled t topic payload w with
  | (Err e, w1) => (Err e, w1)
  | (Ok req, w1) => publishResponse wall sendOK req (respond EnrichTierC req) w1
  end.

(** ** Admission *)
Definition admitted (t : Z) (topic payload : string) (s : replayState) (req : TierCEnrichmentRequest) : Prop :=
  DeviceIDFromTierCEnrichmentRequestTopic topic = Ok (eq_DeviceID req) ∧
  (∃ req0, decodeEnrichment payload = Some req0 ∧ req = withoutAuth req0) ∧
  ValidRoutingID (eq_RequestID req) = true ∧ ValidRoutingID (eq_ProposalID req) = true ∧
  ∀ v, eh_verifier h = Some v → ∃ auth unsigned,
    openEnvelope ValidateWireUnicode DecodeStrict Marshal v payload TierCEnrichmentRequestMessageType (eq_DeviceID req) (eq_RequestID req) = Ok (auth, unsigned) ∧
    check (replayKey TierCEnrichmentRequestMessageType (eq_DeviceID req) (eq_RequestID req) (ha_SignedAtMS auth) (ha_Signature auth))
      (ha_SignedAtMS auth) t (prune t s) = None.

Lemma admitEnrichment_spec canceled t topic payload (w w' : eworld C) r :
  admitRequest canceled t topic payload w = (r, w') →
  ew_clock w' = ew_clock w ∧ ew_handed w' = ew_handed w ∧ ∀ req, r = Ok req → admitted t topic payload (ew_replay w) req.
Proof.
  unfold admitRequest. destruct canceled; [by intros [= <- <-]|].
  destruct (DeviceIDFromTierCEnrichmentRequestTopic topic) as [dev|] eqn:Et; [|by intros [= <- <-]].
  destruct (decodeEnrichment payload) as [req0|] eqn:Ed; [|by intros [= <- <-]]. case_bool_decide as Edev; [|by intros [= <- <-]]. cbn [negb].
  destruct (eh_verifier h) as [v|] eqn:Ev.
  - unfold VerifyJSON, verifyJSON. destruct (openEnvelope _ _ _ _ _ _ _ _) as [[auth un]|] eqn:Eo; [|by intros [= <- <-]].
    unfold checkFreshAndRecord. cbn [fmap option_fmap option_map]. destruct (check _ _ _ _) eqn:Ec; [by intros [= <- <-]|]. cbn [fst].
    destruct (ValidRoutingID (eq_RequestID req0)) eqn:E1; [|by intros [= <- <-]]. destruct (ValidRoutingID (eq_ProposalID req0)) eqn:E2; [|by intros [= <- <-]].
    intros [= <- <-]. split_and!; [done..|]. intros req [= <-]. split_and!; cbn; [by rewrite Edev|by exists req0|done..|].
    intros v' [= <-]%(eq_trans (eq_sym Ev)). exists auth, un. by rewrite Edev.
  - destruct (ValidRoutingID (eq_RequestID req0)) eqn:E1; [|by intros [= <- <-]]. destruct (ValidRoutingID (eq_ProposalID req0)) eqn:E2; [|by intros [= <- <-]].
    intros [= <- <-]. split_and!; [done..|]. intros req [= <-]. split_and!; cbn; [by rewrite Edev|by exists req0|done..|by rewrite Ev].
Qed.

(** ** What is published *)

(** The wire form of an advisory response to the request: its identity, and
    either text or an error. *)
Definition advises (req : TierCEnrichmentRequest) (m : string * string) : Prop :=
  TierCEnrichmentResponseTopic (eq_DeviceID req) = Ok m.1 ∧
  ∃ resp, m.2 = print (JObj (enrichedMembers resp)) ∧
    er_RequestID resp = eq_RequestID req ∧ er_ProposalID resp = eq_ProposalID req ∧ er_DeviceID resp = eq_DeviceID req ∧
    (eh_signingSecret h ≠ "" → ∃ auth, er_Auth resp = Some auth) ∧
    match er_Error resp with Some e => e ≠ "" ∧ er_Explanation resp = "" | None => er_Explanation resp ≠ "" end.

Definition correlated (req : TierCEnrichmentRequest) (resp : TierCEnrichmentResponse) : Prop :=
  er_RequestID resp = eq_RequestID req ∧ er_ProposalID resp = eq_ProposalID req ∧ er_DeviceID resp = eq_DeviceID req ∧
  match er_Error resp with Some e => e ≠ "" | None => er_Explanation resp ≠ "" end.

Lemma BoundedError_nonempty m : m ≠ "" → BoundedError m ≠ "".
Proof.
  intros Hm E. pose proof (BoundedError_runes m) as [Hr _]. rewrite E in Hr. cbn in Hr.
  destruct m as [|c m]; [done|]. destruct (runes (String c m)) as [|p l] eqn:El; [|done].
  cbn [runes] in El. repeat case_match; done.
Qed.

Lemma correlated_enrichment_error req m : correlated req (errorFor req m) ∧ er_Explanation (errorFor req m) = "".
Proof.
  split; [|done]. split_and!; [done..|]. cbn. apply BoundedError_nonempty. by case_bool_decide.
Qed.

Lemma enrichment_correlated E req : correlated req (respond E req).
Proof.
  unfold respond. destruct (ValidateTierCEnrichmentRequest req); [|apply correlated_enrichment_error].
  destruct (callProvider E req) as [resp|e]; [|apply correlated_enrichment_error].
  destruct (ValidateTierCEnrichmentResponseForRequest req _) eqn:Ev; [|apply correlated_enrichment_error].
  unfold ValidateTierCEnrichmentResponseForRequest in Ev. do 3 (case_bool_decide; [|done]). cbn [negb] in Ev.
  split_and!; [done..|]. destruct (er_Error _); by case_bool_decide.
Qed.

Lemma encodeEnrichment_spec wall req resp (c c' : C) payload :
  correlated req resp → encodeResponse wall req resp c = (Ok payload, c') →
  (∃ resp', payload = print (JObj (enrichedMembers resp')) ∧ correlated req resp' ∧
    (eh_signingSecret h ≠ "" → ∃ auth, er_Auth resp' = Some auth) ∧ (is_Some (er_Error resp') → er_Explanation resp' = "")) ∧
  (is_Some (er_Error resp) → slen (eq_RequestID req) ≤ 128 → slen (eq_ProposalID req) ≤ 128 → slen (eq_DeviceID req) ≤ 128 →
    slen payload ≤ PayloadFloor).
Proof.
  intros Hc. unfold encodeResponse. cbv zeta. set (resp1 := match er_Error resp with Some e => errorFor req e | None => resp end).
  assert (correlated req resp1 ∧ (is_Some (er_Error resp1) → er_Explanation resp1 = "")) as [Hc1 Hx].
  { unfold resp1. destruct (er_Error resp) as [e|] eqn:Ee; [split; [apply correlated_enrichment_error|done]|]. split; [done|]. rewrite Ee. by intros [? ?]. }
  assert (∀ auth, (∀ a, auth = Some a → signedAuth a) → is_Some (er_Error resp) → slen (eq_RequestID req) ≤ 128 → slen (eq_ProposalID req) ≤ 128 →
    slen (eq_DeviceID req) ≤ 128 → slen (print (JObj (enrichedMembers (setAuthOf auth (setAuthOf None resp1))))) ≤ PayloadFloor) as Hs.
  { intros auth Ha [e He] H1 H2 H3. unfold resp1. rewrite He. by apply enriched_error_size. }
  case_bool_decide as Es.
  - intros [= <- _]. split; [exists (setAuthOf None resp1); split_and!; done|]. intros. by apply (Hs None).
  - destruct (NextAt wall c) as [[at_|] c1] eqn:En; [|done]. destruct (Sign _ _ _ _ _ _ _) as [auth|] eqn:Eg; [|done]. intros [= <- _].
    split; [exists (setAuthOf (Some auth) (setAuthOf None resp1)); split_and!; try done; intros _; by exists auth|].
    apply (Hs (Some auth)). intros a [= <-]. eapply Sign_signedAuth; [by eapply NextAt_bound|done].
Qed.

Lemma publishEnrichment_spec wall sendOK req resp (w w' : eworld C) r :
  validateMQTTDeviceID (eq_DeviceID req) = Ok tt → ValidRoutingID (eq_RequestID req) = true → ValidRoutingID (eq_ProposalID req) = true →
  correlated req resp → publishResponse wall sendOK req resp w = (r, w') →
  ew_replay w' = ew_replay w ∧
  ((∃ m, ew_handed w' = m :: ew_handed w ∧ advises req m ∧ (r = Ok tt ↔ sendOK = true) ∧
      (slen (eq_DeviceID req) ≤ 128 → slen m.2 ≤ default 0 (PayloadMaxima !! FamilyEnrichmentResponse))) ∨
   (ew_handed w' = ew_handed w ∧ ∃ e, r = Err e)).
Proof.
  intros Hd Hi Hp Hc. unfold publishResponse.
  assert (∃ topic, TierCEnrichmentResponseTopic (eq_DeviceID req) = Ok topic) as [topic Et] by
    (unfold TierCEnrichmentResponseTopic, deviceTopic; rewrite Hd; eauto).
  rewrite Et. destruct (responsePayload wall req resp (ew_clock w)) as [[payload|e] c] eqn:Ep; intros [= <- <-]; cbn; [|eauto 6].
  split; [done|]. left. exists (topic, payload). split; [done|].
  assert (PayloadFloor ≤ default 0 (PayloadMaxima !! FamilyEnrichmentResponse)) as Hfloor by (by vm_compute).
  enough ((∃ resp', payload = print (JObj (enrichedMembers resp')) ∧ correlated req resp' ∧
    (eh_signingSecret h ≠ "" → ∃ auth, er_Auth resp' = Some auth) ∧ (is_Some (er_Error resp') → er_Explanation resp' = "")) ∧
    (slen (eq_DeviceID req) ≤ 128 → slen payload ≤ default 0 (PayloadMaxima !! FamilyEnrichmentResponse)))
    as [(r' & -> & (? & ? & ? & Hx) & Hs & Hy) Hsz].
  { split; [|split; [by destruct sendOK|done]]. split; [done|]. exists r'. split_and!; try done.
    destruct (er_Error r') as [e|]; [|done]. split; [done|]. by apply Hy. }
  unfold responsePayload in Ep. destruct (encodeResponse wall req resp (ew_clock w)) as [[p1|] c1] eqn:E1; [|done].
  destruct (Z.ltb_spec (default 0 (PayloadMaxima !! FamilyEnrichmentResponse)) (slen p1)).
  - apply encodeEnrichment_spec in Ep as [Hr Hs]; [|apply correlated_enrichment_error]. split; [done|]. intros Hd'.
    specialize (Hs ltac:(by eexists) (DispatcherSpec.routing_size _ Hi) (DispatcherSpec.routing_size _ Hp) Hd'). lia.
  - injection Ep as <- <-. apply encodeEnrichment_spec in E1 as [Hr _]; [|done]. by split.
Qed.

(** An enrichment request that is not on its device's topic, does not
    decode, is not signed or not fresh, or whose identifiers do not hold their
    form is refused with nothing published. Any other is answered by at most
    one message, on its device's response topic and within that topic's
    maximum for a device identifier of routing size, that carries the
    request's identity and proposal with either an explanation or a non-empty
    error and no explanation; there is no other message. *)
Theorem enrichment_outcomes EnrichTierC canceled t wall sendOK topic payload w r w' :
  HandleRequest EnrichTierC canceled t wall sendOK topic payload w = (r, w') →
  (∃ e, r = Err e ∧ ew_handed w' = ew_handed w ∧ ew_clock w' = ew_clock w) ∨
  (∃ req, admitted t topic payload (ew_replay w) req ∧
     ((∃ m, ew_handed w' = m :: ew_handed w ∧ advises req m ∧ (r = Ok tt ↔ sendOK = true) ∧
         (slen (eq_DeviceID req) ≤ 128 → slen m.2 ≤ default 0 (PayloadMaxima !! FamilyEnrichmentResponse))) ∨
      (ew_handed w' = ew_handed w ∧ ∃ e, r = Err e))).
Proof.
  unfold HandleRequest. destruct (admitRequest canceled t topic payload w) as [[req|e] w1] eqn:Ea;
    pose proof (admitEnrichment_spec _ _ _ _ _ _ _ Ea) as (Ec & Eh & Had); [|intros [= <- <-]; left; by exists e].
  intros Hp. right. exists req. specialize (Had req eq_refl). split; [done|]. destruct Had as (Ht & _ & Hi & Hpr & _).
  apply publishEnrichment_spec in Hp as [_ Hp]; [by rewrite Eh in Hp| |done|done|apply enrichment_correlated].
  unfold DeviceIDFromTierCEnrichmentRequestTopic, deviceFrom in Ht. destruct (split slash topic) as [|? [|? ?]]; [done..|].
  destruct (_ && _); [|done]. destruct (validateMQTTDeviceID _) as [[]|] eqn:E; [|done]. by injection Ht as <-.
Qed.
End Handler.

Definition samplePayload : string :=
  dq "{'request_id':'r1','proposal_id':'p1','device_id':'d1','skill_name':'s','trigger_name':'t','sensor_id':'x','sensor_type':'y','proposed_action':'a','safe_default_action':'b','operator_message':'m','timeout_ms':250}".

Definition sampleHandle := HandleRequest (λ _, true) (λ _ _, None) DispatcherSpec.sampleMarshal (MkHandler (5 * Second) None "")
  (λ _ _, inl (MkEnriched "" "" "" "why" "" "" "" "" 0 0 None None)) None 1000 1000 true "ori/d1/tier_c/enrichment/request" samplePayload
  (MkEWorld DispatcherSpec.sampleReplay DispatcherSpec.sampleClock []).

Lemma enrichment_outcomes_witness :
  ew_handed sampleHandle.2 = [("ori/d1/tier_c/enrichment/response", dq "{'request_id':'r1','proposal_id':'p1','device_id':'d1','explanation':'why'}")] ∧
  ((∃ e, sampleHandle.1 = Err e ∧ ew_handed sampleHandle.2 = [] ∧ ew_clock sampleHandle.2 = DispatcherSpec.sampleClock) ∨
   ∃ req, eq_RequestID req = "r1" ∧ ∃ m, ew_handed sampleHandle.2 = [m] ∧ advises (MkHandler (5 * Second) None "") req m).
Proof.
  split; [vm_compute; reflexivity|].
  destruct (enrichment_outcomes (λ _, true) (λ _ _, None) DispatcherSpec.sampleMarshal (MkHandler (5 * Second) None "")
    (λ _ _, inl (MkEnriched "" "" "" "why" "" "" "" "" 0 0 None None)) None 1000 1000 true "ori/d1/tier_c/enrichment/request" samplePayload
    (MkEWorld DispatcherSpec.sampleReplay DispatcherSpec.sampleClock []) sampleHandle.1 sampleHandle.2 (surjective_pairing _))
    as [Hl|(req & (_ & (req0 & Hd & ->) & _) & [(m & Em & Ha & _)|(Em & _)])].
  - left. exact Hl.
  - right. exists (withoutAuth req0). split; [|exists m; split; assumption].
    vm_compute in Hd. injection Hd as <-. reflexivity.
  - vm_compute in Em. discriminate Em.
Defined.
End Enrichment.
