(* ===== verification/Encryption.v ===== *)
(** * Encrypted export payloads (mqttauth/encryption.go)

    The key is derived from the shared secret; an envelope carries the
    identifiers in clear, bound to the ciphertext as associated data. AES-GCM
    and the canonical JSON package are parameters; a nonce that is not twelve
    bytes long is outside what the cipher accepts and makes it panic. *)
From S2P Require Import Prelude GoBytes Sha256 Json Contracts Heap Replay MqttAuth Requests.
Import Contracts MqttAuth.

Module Encryption.

(** ** Unpadded URL-safe base64 *)
Definition urlChar (z : Z) : ascii := if z =? 62 then "-"%char else if z =? 63 then "_"%char else b64char z.

Definition urlVal (c : ascii) : option Z :=
  if decide (c = "-"%char) then Some 62 else if decide (c = "_"%char) then Some 63
  else match b64val c with Some v => if v <? 62 then Some v else None | None => None end.

Fixpoint rawEncode (s : string) : string :=
  match s with
  | EmptyString => ""
  | String a EmptyString => let x := bv a in String (urlChar (x / 4)) (String (urlChar (x mod 4 * 16)) "")
  | String a (String b EmptyString) =>
    let x := bv a in let y := bv b in
    String (urlChar (x / 4)) (String (urlChar (x mod 4 * 16 + y / 16)) (String (urlChar (y mod 16 * 4)) ""))
  | String a (String b (String c r)) =>
    let x := bv a in let y := bv b in let z := bv c in
    String (urlChar (x / 4)) (String (urlChar (x mod 4 * 16 + y / 16))
      (String (urlChar (y mod 16 * 4 + z / 64)) (String (urlChar (z mod 64)) (rawEncode r))))
  end.

Fixpoint rawQuanta (s : string) : option string :=
  match s with
  | EmptyString => Some ""
  | String c1 (String c2 r2) =>
    match urlVal c1, urlVal c2 with
    | Some v1, Some v2 =>
      let a := bc (v1 * 4 + v2 / 16) in
      match r2 with
      | EmptyString => Some (String a "")
      | String c3 r3 =>
        match urlVal c3 with
        | None => None
        | Some v3 =>
          let b := bc (v2 mod 16 * 16 + v3 / 4) in
          match r3 with
          | EmptyString => Some (String a (String b ""))
          | String c4 r =>
            match urlVal c4, rawQuanta r with
            | Some v4, Some t => Some (String a (String b (String (bc (v3 mod 4 * 64 + v4)) t)))
            | _, _ => None
            end
          end
        end
      end
    | _, _ => None
    end
  | _ => None
  end.

Definition rawDecode (s : string) : option string := rawQuanta (dropNewlines s).

Lemma urlVal_char z : 0 ≤ z < 64 → urlVal (urlChar z) = Some z.
Proof.
  intros Hz. unfold urlChar. destruct (Z.eqb_spec z 62) as [->|H1]; [done|]. destruct (Z.eqb_spec z 63) as [->|H2]; [done|].
  unfold urlVal. rewrite b64val_char by done. replace (z <? 62) with true by lia.
  assert (∀ c, b64val c = None → b64char z ≠ c) as Hne by (intros c Hc <-; by rewrite b64val_char in Hc).
  rewrite !decide_False by (apply Hne; reflexivity). done.
Qed.

Lemma urlChar_newline z : 0 ≤ z < 64 → (bv (urlChar z) =? 10) || (bv (urlChar z) =? 13) = false.
Proof.
  intros Hz. unfold urlChar. destruct (z =? 62); [done|]. destruct (z =? 63); [done|]. by apply b64char_not_newline.
Qed.

Lemma rawDecode_Encode s : rawDecode (rawEncode s) = Some s.
Proof.
  unfold rawDecode. induction s as [|a|a b|a b c r IH] using string_ind3; [done| | |];
    pose proof (bv_range a); try pose proof (bv_range b) as Hb; try pose proof (bv_range c) as Hc;
    cbn [rawEncode dropNewlines]; rewrite ?urlChar_newline by (Z.to_euclidean_division_equations; lia);
    cbn [rawQuanta dropNewlines]; rewrite ?urlVal_char by (Z.to_euclidean_division_equations; lia); rewrite ?IH;
    repeat f_equal; apply bc_eq; Z.to_euclidean_division_equations; lia.
Qed.

(** ** Key derivation *)
Definition encryptionScheme : string := "aes-256-gcm".
Definition encryptionKeyInfo : string := "ori.gateway-mqtt.export-encryption.v1".
Definition encryptionSalt : string := "ori-runtime-gateway-mqtt-v1".

(** The loop of [hkdfSHA256]: a block of 32 bytes a turn, the counter a byte. *)
Fixpoint hkdfBlocks (fuel : nat) (prk info previous : list Z) (counter : Z) (out : list Z) (length_ : nat) : list Z :=
  match fuel with
  | O => take length_ out
  | S fuel' =>
    if Nat.ltb (length out) length_ then
      let block := hmac256 prk (previous ++ info ++ [counter]) in
      hkdfBlocks fuel' prk info block ((counter + 1) mod 256) (out ++ block) length_
    else take length_ out
  end.

Definition hkdfSHA256 (secret salt info : list Z) (length_ : nat) : list Z :=
  hkdfBlocks length_ (hmac256 salt secret) info [] 1 [] length_.

Record Encryptor := MkEncryptor { en_key : list Z }.

Definition NewEncryptor (sharedSecret : string) : res Encryptor :=
  let secret := TrimSpace sharedSecret in
  if bool_decide (secret = "") then Err (EMsg "mqtt encryption shared secret must not be empty")
  else Ok (MkEncryptor (hkdfSHA256 (bytes_of secret) (bytes_of encryptionSalt) (bytes_of encryptionKeyInfo) 32)).

(** ** Metadata *)

(** An association list sorted by key, the later of two equal keys kept. *)
Fixpoint putSorted (k v : string) (l : list (string * string)) : list (string * string) :=
  match l with
  | [] => [(k, v)]
  | (k', v') :: l' =>
    match String.compare k k' with
    | Lt => (k, v) :: l
    | Eq => (k, v) :: l'
    | Gt => (k', v') :: putSorted k v l'
    end
  end.

(** [fmt.Sprint] of a decoded value. *)
Fixpoint sprint (v : json) : string :=
  match v with
  | JNull => "<nil>"
  | JBool b => if b then "true" else "false"
  | JNum lit => lit
  | JStr raw => unquote raw
  | JArr l => "[" +:+ String.concat " " (map sprint l) +:+ "]"
  | JObj l =>
    "map[" +:+ String.concat " " (map (λ p : string * string, p.1 +:+ ":" +:+ p.2)
      (foldl (λ acc p, putSorted (unquote p.1) p.2 acc) [] (map (λ p, (p.1, sprint p.2)) l))) +:+ "]"
  end.

Definition stringFromAny (v : option json) : string :=
  match v with None | Some JNull => "" | Some v => sprint v end.

Record metadata := MkMetadata { md_request_id : string; md_device_id : string; md_export_type : string }.

#[global] Instance metadata_eq_dec : EqDecision metadata.
Proof. solve_decision. Defined.

Definition encryptionMetadata (payload : gmap string json) : res metadata :=
  let m := MkMetadata (stringFromAny (payload !! "request_id")) (stringFromAny (payload !! "device_id")) (stringFromAny (payload !! "export_type")) in
  if bool_decide (TrimSpace (md_request_id m) = "") || bool_decide (TrimSpace (md_device_id m) = "") || bool_decide (TrimSpace (md_export_type m) = "")
  then Err (EMsg "missing encryption metadata") else Ok m.

Definition ExportResponseMessageType : string := "export_response".

Definition plaintextFamilies : gmap string string := {[ExportResponseMessageType := FamilyExportResponse]}.

(** Members of the envelope read as a string, or the empty string. *)
Definition stringMember (m : gmap string json) (name : string) : string :=
  match m !! name with Some (JStr raw) => unquote raw | _ => "" end.

Definition trueMember (m : gmap string json) (name : string) : bool :=
  match m !! name with Some (JBool b) => b | _ => false end.

Inductive opened : Type := Plain (m : gmap string json) | Refuses (e : error) | Panics.

Section Cipher.
Context (DecodeStrict : list string → string → option strictError) (Marshal : gmap string json → res string).
(** AES-GCM under a 32-byte key and a 12-byte nonce. *)
Context (gcmSeal : list Z → string → string → string → string) (gcmOpen : list Z → string → string → string → option string).

Definition encryptionAAD (m : metadata) (messageType : string) : res string :=
  Marshal (toMap [("message_type", jstr messageType); ("request_id", jstr (md_request_id m));
                  ("device_id", jstr (md_device_id m)); ("export_type", jstr (md_export_type m))]).

Definition admitPlaintext (messageType plaintext : string) : res unit :=
  match plaintextFamilies !! messageType with
  | Some family => AdmitPayload DecodeStrict family plaintext
  | None => AdmitPayloadWithMembers DecodeStrict [] plaintext
  end.

Definition Seal (e : option Encryptor) (plaintext : string) (m : metadata) (messageType nonce : string) : res (gmap string json) :=
  match e with
  | None => Err (EMsg "mqtt encryptor is nil")
  | Some e =>
    if negb (slen nonce =? 12) then Err (EMsg "mqtt encryption nonce must be 12 bytes")
    else match encryptionAAD m messageType with
    | Err err => Err err
    | Ok aad =>
      Ok (toMap [("request_id", jstr (md_request_id m)); ("device_id", jstr (md_device_id m)); ("export_type", jstr (md_export_type m));
                 ("encrypted", JBool true);
                 ("encryption", JObj [("scheme", jstr encryptionScheme); ("nonce", jstr (rawEncode nonce));
                                      ("ciphertext", jstr (rawEncode (gcmSeal (en_key e) nonce plaintext aad)))])])
    end
  end.

(** [Encrypt] of the value whose JSON members are [value]. *)
Definition Encrypt (e : option Encryptor) (value : gmap string json) (messageType nonce : string) : res (gmap string json) :=
  match e with
  | None => Err (EMsg "mqtt encryptor is nil")
  | Some _ =>
    let plain := cloneWithoutAuth value in
    match encryptionMetadata plain with
    | Err err => Err err
    | Ok m =>
      match CanonicalJSONWithoutAuth Marshal plain with
      | Err err => Err err
      | Ok canonical => Seal e canonical m messageType nonce
      end
    end
  end.

Definition Decrypt (e : option Encryptor) (payload : gmap string json) (messageType expectedDeviceID expectedRequestID : string) : opened :=
  match e with
  | None => Refuses (EMsg "mqtt encryptor is nil")
  | Some e =>
    if negb (trueMember payload "encrypted") then Refuses (EMsg "missing encrypted flag")
    else match encryptionMetadata payload with
    | Err err => Refuses err
    | Ok m =>
      if negb (bool_decide (md_device_id m = expectedDeviceID)) then Refuses (EMsg "encrypted device_id does not match")
      else if negb (bool_decide (expectedRequestID = "")) && negb (bool_decide (md_request_id m = expectedRequestID)) then
        Refuses (EMsg "encrypted request_id does not match")
      else match payload !! "encryption" with
      | Some (JObj l) =>
        let envelope := toMap l in
        if negb (bool_decide (stringMember envelope "scheme" = encryptionScheme)) then Refuses (EMsg "unsupported encryption scheme")
        else match rawDecode (stringMember envelope "nonce"), rawDecode (stringMember envelope "ciphertext") with
        | Some nonce, Some ciphertext =>
          match encryptionAAD m messageType with
          | Err err => Refuses err
          | Ok aad =>
            if negb (slen nonce =? 12) then Panics
            else match gcmOpen (en_key e) nonce ciphertext aad with
            | None => Refuses (EMsg "decrypt payload")
            | Some plaintext =>
              match admitPlaintext messageType plaintext with
              | Err err => Refuses err
              | Ok _ =>
                match decodeMap plaintext with
                | None => Refuses (EMsg "decode plaintext")
                | Some decoded =>
                  match encryptionMetadata decoded with
                  | Err err => Refuses err
                  | Ok m' => if bool_decide (m' = m) then Plain decoded else Refuses (EMsg "encrypted metadata mismatch")
                  end
                end
              end
            end
          end
        | _, _ => Refuses (EMsg "decode nonce or ciphertext")
        end
      | _ => Refuses (EMsg "missing encryption envelope")
      end
    end
  end.

(** What a decrypted payload has shown: its device and request are the ones
    expected, and the ciphertext opened under associated data that names the
    message type and the payload's own identifiers. *)
Lemma Decrypt_ok e payload mt dev req decoded :
  Decrypt (Some e) payload mt dev req = Plain decoded →
  ∃ m nonce ciphertext aad plaintext,
    encryptionMetadata decoded = Ok m ∧ encryptionMetadata payload = Ok m ∧ md_device_id m = dev ∧ (req ≠ "" → md_request_id m = req) ∧
    slen nonce = 12 ∧ encryptionAAD m mt = Ok aad ∧ gcmOpen (en_key e) nonce ciphertext aad = Some plaintext ∧
    admitPlaintext mt plaintext = Ok tt ∧ decodeMap plaintext = Some decoded.
Proof.
  unfold Decrypt. destruct (trueMember payload "encrypted"); [|done]. cbn [negb].
  destruct (encryptionMetadata payload) as [m|] eqn:Em; [|done]. case_bool_decide as Ed; [|done]. cbn [negb].
  destruct (negb _ && negb _) eqn:Er; [done|]. destruct (payload !! "encryption") as [[]|]; try done. cbv zeta.
  destruct (bool_decide (stringMember _ "scheme" = _)); [|done]. cbn [negb]. destruct (rawDecode _) as [nonce|]; [|done]. destruct (rawDecode _) as [ciphertext|]; [|done].
  destruct (encryptionAAD m mt) as [aad|] eqn:Ea; [|done]. destruct (Z.eqb_spec (slen nonce) 12); [|done]. cbn [negb].
  destruct (gcmOpen _ _ _ _) as [plaintext|] eqn:Eo; [|done]. destruct (admitPlaintext mt plaintext) as [[]|] eqn:Eadm; [|done].
  destruct (decodeMap plaintext) as [d|] eqn:Edec; [|done]. destruct (encryptionMetadata d) as [m'|] eqn:Em'; [|done].
  destruct (bool_decide (m' = m)) eqn:E'; [|done]. apply bool_decide_eq_true in E'. intros [= <-]. subst m'. exists m, nonce, ciphertext, aad, plaintext.
  split_and!; try done. intros Hne. apply andb_false_iff in Er as [Er|Er]; apply negb_false_iff, bool_decide_eq_true in Er; done.
Qed.

Lemma sprint_jstr s : plain s = true → stringFromAny (Some (jstr s)) = s.
Proof. intros Hs. cbn. rewrite escapeString_plain by done. by apply unquote_plain. Qed.

Lemma urlChar_plain z : 0 ≤ z < 64 → plain_char (urlChar z) = true.
Proof.
  intros Hz. unfold urlChar, b64char. destruct (Z.eqb_spec z 62); [done|]. destruct (Z.eqb_spec z 63); [done|].
  unfold plain_char, in_rng. repeat case_match; rewrite ?bv_bc by lia; lia.
Qed.

Lemma rawEncode_plain s : plain (rawEncode s) = true.
Proof.
  induction s as [|a|a b|a b c r IH] using string_ind3; [done| | |];
    pose proof (bv_range a); try pose proof (bv_range b); try pose proof (bv_range c);
    cbn [rawEncode plain]; rewrite ?urlChar_plain by (Z.to_euclidean_division_equations; lia); done.
Qed.

Lemma stringMember_jstr m name s : m !! name = Some (jstr s) → plain s = true → stringMember m name = s.
Proof. intros E Hs. unfold stringMember. rewrite E. unfold jstr. rewrite escapeString_plain by done. by apply unquote_plain. Qed.

(** Identifiers an envelope can carry: not blank and with nothing to escape. *)
Definition carries (m : metadata) : Prop :=
  plain (md_request_id m) = true ∧ plain (md_device_id m) = true ∧ plain (md_export_type m) = true.

(** What is sealed is what a matching [Decrypt] returns. *)
Lemma Seal_Decrypt e plaintext m mt nonce envelope decoded :
  (∀ nonce plaintext aad, gcmOpen (en_key e) nonce (gcmSeal (en_key e) nonce plaintext aad) aad = Some plaintext) →
  carries m → Seal (Some e) plaintext m mt nonce = Ok envelope →
  admitPlaintext mt plaintext = Ok tt → decodeMap plaintext = Some decoded → encryptionMetadata decoded = Ok m →
  Decrypt (Some e) envelope mt (md_device_id m) (md_request_id m) = Plain decoded.
Proof.
  intros Hgcm (P1 & P2 & P3) Hseal Hadm Hdec Hm. unfold Seal in Hseal. destruct (Z.eqb_spec (slen nonce) 12) as [E12|]; [|done]. cbn [negb] in Hseal.
  destruct (encryptionAAD m mt) as [aad|] eqn:Ea; [|done]. injection Hseal as <-.
  set (env := toMap _).
  assert (env !! "encrypted" = Some (JBool true)) as E1 by reflexivity.
  assert (env !! "request_id" = Some (jstr (md_request_id m))) as E2 by reflexivity.
  assert (env !! "device_id" = Some (jstr (md_device_id m))) as E3 by reflexivity.
  assert (env !! "export_type" = Some (jstr (md_export_type m))) as E4 by reflexivity.
  assert (∃ l, env !! "encryption" = Some (JObj l) ∧ toMap l !! "scheme" = Some (jstr encryptionScheme) ∧
    toMap l !! "nonce" = Some (jstr (rawEncode nonce)) ∧
    toMap l !! "ciphertext" = Some (jstr (rawEncode (gcmSeal (en_key e) nonce plaintext aad)))) as (l & E5 & E6 & E7 & E8)
    by (eexists; split; [reflexivity|done]).
  clearbody env.
  assert (encryptionMetadata env = Ok m) as Em.
  { unfold encryptionMetadata in *. rewrite E2, E3, E4, !sprint_jstr by done. destruct m as [a b c]. cbn [md_request_id md_device_id md_export_type] in *.
    destruct (bool_decide (TrimSpace (stringFromAny _) = "") || _ || _) eqn:Eb in Hm; [done|]. injection Hm as <- <- <-. by rewrite Eb. }
  unfold Decrypt, trueMember. rewrite E1, Em. cbn [negb]. rewrite bool_decide_true by done. rewrite (bool_decide_true (md_request_id m = md_request_id m)) by done.
  rewrite andb_false_r. cbn [negb]. rewrite E5. cbv zeta.
  rewrite (stringMember_jstr _ _ _ E6), (stringMember_jstr _ _ _ E7), (stringMember_jstr _ _ _ E8) by (done || apply rawEncode_plain).
  rewrite bool_decide_true by done. cbn [negb]. rewrite !rawDecode_Encode, Ea, E12. cbn [negb Z.eqb Pos.eqb]. rewrite Hgcm, Hadm, Hdec, Hm.
  by rewrite bool_decide_true.
Qed.


(** A decrypted payload is bound to its context: its identifiers are the
    expected device and request and the export type in clear, the ciphertext
    opened under associated data naming the message type and exactly these
    identifiers, and the plaintext passed the member rule of its family. With
    a nonce of any length but twelve nothing is returned. *)
Theorem decrypt_binds_context e payload mt dev req decoded :
  Decrypt (Some e) payload mt dev req = Plain decoded →
  ∃ m nonce ciphertext aad plaintext,
    encryptionMetadata decoded = Ok m ∧ encryptionMetadata payload = Ok m ∧ md_device_id m = dev ∧ (req ≠ "" → md_request_id m = req) ∧
    slen nonce = 12 ∧ encryptionAAD m mt = Ok aad ∧ gcmOpen (en_key e) nonce ciphertext aad = Some plaintext ∧
    admitPlaintext mt plaintext = Ok tt ∧ decodeMap plaintext = Some decoded.
Proof. apply Decrypt_ok. Qed.
End Cipher.

(** The derivation loop gives one block of HKDF for a 32-byte key. *)
Lemma hkdfBlocks_done fuel prk info previous counter out n : (n ≤ length out)%nat → hkdfBlocks fuel prk info previous counter out n = take n out.
Proof. intros Hn. destruct fuel; [done|]. cbn [hkdfBlocks]. by replace (Nat.ltb (length out) n) with false by (symmetry; apply Nat.ltb_ge; lia). Qed.

Lemma hkdfSHA256_block secret salt info : hkdfSHA256 secret salt info 32 = hkdf256 secret salt info 32.
Proof.
  unfold hkdfSHA256, hkdf256. generalize (hmac256 salt secret) as prk. intros prk.
  etransitivity; [exact (hkdfBlocks_done 31 prk info _ 2 (hmac256 prk (info ++ [1])) 32 ltac:(unfold hmac256; rewrite length_sha256; lia))|done].
Qed.

(** ** Examples *)
Definition sampleSeal : list Z → string → string → string → string := λ _ _ plaintext _, plaintext.
Definition sampleOpen : list Z → string → string → string → option string := λ _ _ ciphertext _, Some ciphertext.
Definition sampleMeta : metadata := MkMetadata "r1" "d1" "readings".
Definition samplePlain : string := dq "{'request_id':'r1','device_id':'d1','export_type':'readings','items':[]}".
Definition sampleMarshal : gmap string json → res string := λ _, Ok "{}".
Definition sampleEncryptor : Encryptor := MkEncryptor [].
Definition sampleEnvelope : gmap string json :=
  match Seal sampleMarshal sampleSeal (Some sampleEncryptor) samplePlain sampleMeta ExportResponseMessageType "123456789012" with
  | Ok m => m
  | Err _ => ∅
  end.


Lemma decrypt_binds_context_witness :
  ∃ decoded m, Decrypt (λ _ _, None) sampleMarshal sampleOpen (Some sampleEncryptor) sampleEnvelope ExportResponseMessageType "d1" "r1" = Plain decoded ∧
    encryptionMetadata decoded = Ok m ∧ md_device_id m = "d1".
Proof.
  assert (∃ decoded, Decrypt (λ _ _, None) sampleMarshal sampleOpen (Some sampleEncryptor) sampleEnvelope ExportResponseMessageType "d1" "r1" = Plain decoded)
    as [decoded E] by (eexists; vm_compute; reflexivity).
  destruct (decrypt_binds_context (λ _ _, None) sampleMarshal sampleOpen sampleEncryptor sampleEnvelope ExportResponseMessageType "d1" "r1" decoded E)
    as (m & _ & _ & _ & _ & Em & _ & Ed & _).
  exists decoded, m. split; [exact E|]. split; [exact Em|exact Ed].
Defined.

(** A nonce of another length reaches the cipher, which panics. *)
Lemma decrypt_short_nonce_panics :
  Decrypt (λ _ _, None) sampleMarshal sampleOpen (Some sampleEncryptor)
    (toMap [("request_id", jstr "r1"); ("device_id", jstr "d1"); ("export_type", jstr "readings"); ("encrypted", JBool true);
            ("encryption", JObj [("scheme", jstr encryptionScheme); ("nonce", jstr "AAAA"); ("ciphertext", jstr "AAAA")])])
    ExportResponseMessageType "d1" "r1" = Panics.
Proof. vm_compute. reflexivity. Qed.
End Encryption.
