(* ===== verification/HealthRead.v ===== *)
(** * Reading the severity of a health export (runtimeclient/health.go)

    The first item of a verified health export is read as ok, degraded,
    critical or unknown while runtimes move to the v4 projection. A device
    that has served the projection is latched: its unmarked items are refused.
    An item is a decoded JSON object; its numbers are [json.Number]. *)
From S2P Require Import Prelude GoBytes Json Contracts Heap Replay MqttAuth.
Import MqttAuth.

Module HealthRead.

Definition HealthStatusOK : string := "ok".
Definition HealthStatusDegraded : string := "degraded".
Definition HealthStatusCritical : string := "critical".
Definition HealthStatusUnknown : string := "unknown".

Definition healthProjectionMarker : string := "runtime-health/v4/remote".

Definition projectionOnlyMembers : list string :=
  ["projection"; "unknown_critical_blocks"; "action_log_records"; "safety_registry"; "skill_hooks"].

Inductive jsonKind := kindString | kindNumber | kindBoolean | kindArray | kindObject | kindObjectOrNull.

Definition snapshotRequired : list (string * jsonKind) :=
  [("device_id", kindString); ("uptime_s", kindNumber); ("health_socket_path", kindString); ("sensors", kindArray);
   ("degradation_reasons", kindArray); ("safety", kindObjectOrNull); ("alert_outbox", kindObject); ("capability_posture", kindObject);
   ("commissioning", kindObject); ("community_skills", kindObject); ("config_authority", kindObject); ("device_policy", kindObject);
   ("evidence", kindObject); ("firmware_liveness", kindObject); ("firmware_mqtt_operator", kindObject);
   ("gateway_broker_posture", kindObject); ("last_alert_timestamps", kindObject); ("remote_command_lockout", kindObject);
   ("state_store_encryption", kindObject); ("telemetry_export", kindObject)].

Definition snapshotRequiredAfterV250 : list (string * jsonKind) :=
  [("critical", kindBoolean); ("firmware_reading_age", kindObject); ("firmware_controller_profiles", kindObject)].

Definition snapshotOptional : list (string * jsonKind) := [("status", kindString); ("safety_zones", kindArray)].

Record healthReading := MkReading { hr_severity : string; hr_fault : string; hr_marked : bool }.

Definition unknownReading (fault : string) (marked : bool) : healthReading := MkReading HealthStatusUnknown fault marked.

Definition hasKind (v : json) (k : jsonKind) : bool :=
  match k, v with
  | kindString, JStr _ => true
  | kindNumber, JNum _ => true
  | kindBoolean, JBool _ => true
  | kindArray, JArr _ => true
  | kindObject, JObj _ => true
  | kindObjectOrNull, (JObj _ | JNull) => true
  | _, _ => false
  end.

(** A member that is this string, or this boolean. *)
Definition isString (v : option json) (s : string) : bool :=
  match v with Some (JStr raw) => bool_decide (unquote raw = s) | _ => false end.

Definition isTrue (v : option json) : bool := match v with Some (JBool b) => b | _ => false end.

Definition has (item : gmap string json) (name : string) : bool := bool_decide (is_Some (item !! name)).

(** The fault of the first required member that is absent or mistyped, then of
    the first optional one that is mistyped. *)
Fixpoint requiredFault (item : gmap string json) (members : list (string * jsonKind)) : string :=
  match members with
  | [] => ""
  | (name, kind) :: members' =>
    match item !! name with
    | None => "member_absent:" +:+ name
    | Some v => if negb (hasKind v kind) then "member_mistyped:" +:+ name else requiredFault item members'
    end
  end.

Fixpoint optionalFault (item : gmap string json) (members : list (string * jsonKind)) : string :=
  match members with
  | [] => ""
  | (name, kind) :: members' =>
    match item !! name with
    | Some v => if negb (hasKind v kind) then "member_mistyped:" +:+ name else optionalFault item members'
    | None => optionalFault item members'
    end
  end.

Definition snapshotFault (item : gmap string json) (deviceID : string) (afterV250 : bool) : string :=
  let required := if afterV250 then snapshotRequired ++ snapshotRequiredAfterV250 else snapshotRequired in
  let fault := requiredFault item required in
  if negb (bool_decide (fault = "")) then fault
  else
    let fault := optionalFault item snapshotOptional in
    if negb (bool_decide (fault = "")) then fault
    else if negb (isString (item !! "device_id") deviceID) then "device_mismatch"
    else if negb afterV250 &&
            negb (Nat.eqb (size item) (length snapshotRequired + length (filter (λ p, has item p.1 = true) snapshotOptional)))
    then "member_outside_v2_5_0_set"
    else "".

Definition reasonsOf (item : gmap string json) : list json := match item !! "degradation_reasons" with Some (JArr l) => l | _ => [] end.

(** An unmarked item of a device that never served the projection: a snapshot
    of a release after v2.5.0, which always writes [critical], or of v2.5.0. *)
Definition readSnapshot (item : gmap string json) (deviceID : string) : healthReading :=
  if existsb (has item) projectionOnlyMembers then unknownReading "projection_member_unmarked" false
  else
    let status := item !! "status" in
    let hasStatus := has item "status" in
    let hasCritical := has item "critical" in
    let fault := snapshotFault item deviceID hasCritical in
    if negb (bool_decide (fault = "")) then unknownReading fault false
    else if hasStatus && isString status HealthStatusDegraded then MkReading HealthStatusDegraded "" false
    else if negb (bool_decide (reasonsOf item = [])) && (negb hasStatus || isString status HealthStatusOK) then
      unknownReading "inconsistent_degradation_reasons" false
    else if negb hasStatus then MkReading HealthStatusOK "" false
    else if isString status HealthStatusOK && hasCritical then MkReading HealthStatusOK "" false
    else unknownReading "status_unrecognised" false.

Definition readHealthItem (item : gmap string json) (deviceID : string) (latched : bool) : healthReading :=
  let marked := isString (item !! "projection") healthProjectionMarker in
  let status := item !! "status" in
  if isTrue (item !! "critical") || isString status HealthStatusCritical then MkReading HealthStatusCritical "" marked
  else if marked then
    if isString status HealthStatusOK then MkReading HealthStatusOK "" true
    else if isString status HealthStatusDegraded then MkReading HealthStatusDegraded "" true
    else unknownReading "marked_status_unrecognised" true
  else if latched then unknownReading "unmarked_after_projection" false
  else readSnapshot item deviceID.

(** ** The reader *)
Record healthReader := MkReader { hl_latched : gset string; hl_logged : gmap string string }.

Definition newReader : healthReader := MkReader ∅ ∅.

(** The reading, the fault to log if any, and the reader after it. *)
Definition read (item : gmap string json) (deviceID : string) (r : healthReader) : healthReading * string * healthReader :=
  let reading := readHealthItem item deviceID (bool_decide (deviceID ∈ hl_latched r)) in
  let latched := if hr_marked reading then {[deviceID]} ∪ hl_latched r else hl_latched r in
  let toLog := if bool_decide (hr_fault reading = default "" (hl_logged r !! deviceID)) then "" else hr_fault reading in
  let logged := if bool_decide (hr_fault reading = "") then delete deviceID (hl_logged r) else <[deviceID := hr_fault reading]> (hl_logged r) in
  (reading, toLog, MkReader latched logged).

(** ** What a reading shows *)

(** The item states that it is critical. *)
Definition statesCritical (item : gmap string json) : bool :=
  isTrue (item !! "critical") || isString (item !! "status") HealthStatusCritical.

(** The item is well formed for one of the encodings before the projection. *)
Definition wellFormed (item : gmap string json) (deviceID : string) : Prop :=
  (∀ name, name ∈ projectionOnlyMembers → item !! name = None) ∧ snapshotFault item deviceID (has item "critical") = "".

Lemma isString_has item name s : isString (item !! name) s = true → has item name = true.
Proof. unfold isString, has. destruct (item !! name) eqn:E; [|done]. intros _. apply bool_decide_eq_true. eauto. Qed.

(** Where the severity of an item before the projection comes from. *)
Lemma snapshot_cases item deviceID :
  let r := readSnapshot item deviceID in
  hr_marked r = false ∧
  (hr_severity r = HealthStatusUnknown ∧ hr_fault r ≠ "" ∨
   hr_fault r = "" ∧ wellFormed item deviceID ∧
     (hr_severity r = HealthStatusDegraded ∧ isString (item !! "status") HealthStatusDegraded = true ∨
      hr_severity r = HealthStatusOK ∧ reasonsOf item = [] ∧
        (item !! "status" = None ∨ isString (item !! "status") HealthStatusOK = true ∧ is_Some (item !! "critical")))).
Proof.
  unfold readSnapshot. cbv zeta. destruct (existsb (has item) projectionOnlyMembers) eqn:Ep; [split; [done|]; by left|].
  destruct (bool_decide_reflect (snapshotFault item deviceID (has item "critical") = "")) as [Ef|Ef]; cbn [negb]; [|split; [done|]; by left].
  assert (wellFormed item deviceID) as Hw.
  { split; [|done]. intros name Hn%list_elem_of_In. destruct (item !! name) eqn:E; [|done].
    assert (has item name = true) as Hh by (unfold has; rewrite E; by apply bool_decide_eq_true).
    assert (existsb (has item) projectionOnlyMembers = true) by (apply existsb_exists; eauto). congruence. }
  destruct (has item "status" && isString _ HealthStatusDegraded) eqn:E1.
  { apply andb_true_iff in E1 as [_ E1]. split; [done|]. right. split_and!; [done..|]. by left. }
  destruct (bool_decide_reflect (reasonsOf item = [])) as [Er|Er]; cbn [negb andb].
  - destruct (has item "status") eqn:Es; cbn [negb].
    + destruct (isString (item !! "status") HealthStatusOK && has item "critical") eqn:Eo; [|split; [done|]; by left].
      apply andb_true_iff in Eo as [Eo Ec]. apply bool_decide_eq_true in Ec. split; [done|]. right. split_and!; [done..|]. right. auto.
    + split; [done|]. right. split_and!; [done..|]. right. split_and!; [done..|]. left. unfold has in Es.
      apply bool_decide_eq_false in Es. by apply eq_None_not_Some.
  - destruct (negb (has item "status") || isString (item !! "status") HealthStatusOK) eqn:Eo; [split; [done|]; by left|].
    apply orb_false_iff in Eo as [Eo Eo']. rewrite negb_false_iff in Eo. rewrite Eo, Eo'. cbn [negb andb]. split; [done|]. by left.
Qed.

(** Where any severity comes from. *)
Lemma reading_cases item deviceID latched :
  let r := readHealthItem item deviceID latched in
  hr_marked r = isString (item !! "projection") healthProjectionMarker ∧
  if statesCritical item then hr_severity r = HealthStatusCritical ∧ hr_fault r = ""
  else if hr_marked r then
    hr_fault r = "" ∧ (hr_severity r = HealthStatusOK ∨ hr_severity r = HealthStatusDegraded) ∧ isString (item !! "status") (hr_severity r) = true ∨
    hr_severity r = HealthStatusUnknown ∧ hr_fault r ≠ ""
  else if latched then r = unknownReading "unmarked_after_projection" false
  else r = readSnapshot item deviceID.
Proof.
  unfold readHealthItem, statesCritical. cbv zeta. destruct (isTrue _ || isString _ _); [done|].
  destruct (isString (item !! "projection") healthProjectionMarker).
  - destruct (isString (item !! "status") HealthStatusOK) eqn:E1; [split; [done|]; left; split_and!; auto|].
    destruct (isString (item !! "status") HealthStatusDegraded) eqn:E2; [split; [done|]; left; split_and!; auto|].
    split; [done|]. by right.
  - destruct latched; [done|]. destruct (snapshot_cases item deviceID) as [Em _]. rewrite Em. done.
Qed.

Lemma hr_read item deviceID r : (read item deviceID r).1.1 = readHealthItem item deviceID (bool_decide (deviceID ∈ hl_latched r)).
Proof. done. Qed.

(** Whatever the reader has seen before, an item reads critical exactly
    when it states so, malformed or not; it reads ok only from an explicit ok
    under the projection marker, or from a device that never served the
    projection, well formed for its encoding, naming no degradation reason and
    stating no other status; it reads degraded only from an explicit degraded;
    and it reads unknown exactly when there is a fault to name. *)
Theorem severity_is_stated item deviceID r :
  let reading := (read item deviceID r).1.1 in
  (hr_severity reading = HealthStatusCritical ↔ statesCritical item = true) ∧
  (hr_severity reading = HealthStatusOK →
     (isString (item !! "projection") healthProjectionMarker = true ∧ isString (item !! "status") HealthStatusOK = true) ∨
     (deviceID ∉ hl_latched r ∧ wellFormed item deviceID ∧ reasonsOf item = [] ∧
        (item !! "status" = None ∨ isString (item !! "status") HealthStatusOK = true))) ∧
  (hr_severity reading = HealthStatusDegraded → isString (item !! "status") HealthStatusDegraded = true) ∧
  (hr_severity reading = HealthStatusUnknown ↔ hr_fault reading ≠ "").
Proof.
  cbv zeta. rewrite hr_read. pose proof (reading_cases item deviceID (bool_decide (deviceID ∈ hl_latched r))) as [Em H]. cbv zeta in *.
  set (rd := readHealthItem _ _ _) in *. clearbody rd. destruct (statesCritical item).
  { destruct H as [-> ->]. split_and!; done. }
  destruct (hr_marked rd).
  { destruct H as [(-> & [E|E] & Hs)|[-> Hf]]; [rewrite E in *; split_and!; try done; left; by split..|split_and!; done]. }
  destruct (bool_decide_reflect (deviceID ∈ hl_latched r)) as [Hl|Hl]; subst rd; [split_and!; done|].
  destruct (snapshot_cases item deviceID) as [_ [[-> Hf]|(-> & Hw & [[-> Hs]|(-> & Hr & Hs)])]]; [split_and!; done|split_and!; done|].
  split_and!; try done. intros _. right. split_and!; [done..|]. destruct Hs as [?|[? _]]; auto.
Qed.

(** ** A device's history *)
Fixpoint readAll (l : list (string * gmap string json)) (r : healthReader) : list (string * healthReading * string) * healthReader :=
  match l with
  | [] => ([], r)
  | (deviceID, item) :: l' =>
    let '(reading, toLog, r1) := read item deviceID r in
    let '(outs, r2) := readAll l' r1 in ((deviceID, reading, toLog) :: outs, r2)
  end.

(** The fault of the device's latest reading. *)
Fixpoint lastFault (deviceID : string) (fault : string) (outs : list (string * healthReading * string)) : string :=
  match outs with
  | [] => fault
  | (d, reading, _) :: outs' => lastFault deviceID (if decide (d = deviceID) then hr_fault reading else fault) outs'
  end.

Definition servedProjection (deviceID : string) (outs : list (string * healthReading * string)) : Prop :=
  ∃ o, o ∈ outs ∧ o.1.1 = deviceID ∧ hr_marked o.1.2 = true.

Lemma readAll_logged l r deviceID :
  default "" (hl_logged (readAll l r).2 !! deviceID) = lastFault deviceID (default "" (hl_logged r !! deviceID)) (readAll l r).1.
Proof.
  revert r. induction l as [|[d item] l IH]; intros r; [done|]. cbn [readAll].
  destruct (read item d r) as [[reading toLog] r1] eqn:Er. specialize (IH r1). destruct (readAll l r1) as [outs r2]. cbn in *. rewrite IH. f_equal.
  unfold read in Er. injection Er as <- _ <-. cbn [hl_logged]. clear IH.
  generalize (readHealthItem item d (bool_decide (d ∈ hl_latched r))) as rd. intros rd. case_bool_decide as Ef; case_decide as Ed; try subst d.
  - by rewrite lookup_delete_eq, Ef.
  - by rewrite lookup_delete_ne.
  - by rewrite lookup_insert_eq.
  - by rewrite lookup_insert_ne.
Qed.

Lemma readAll_latched l r deviceID :
  deviceID ∈ hl_latched (readAll l r).2 ↔ deviceID ∈ hl_latched r ∨ servedProjection deviceID (readAll l r).1.
Proof.
  unfold servedProjection. revert r. induction l as [|[d item] l IH]; intros r; cbn [readAll].
  { cbn. set_solver. }
  destruct (read item d r) as [[reading toLog] r1] eqn:Er. specialize (IH r1). destruct (readAll l r1) as [outs r2]. cbn in *. rewrite IH. clear IH.
  unfold read in Er. injection Er as <- _ <-. cbn [hl_latched]. set (rd := readHealthItem _ _ _). clearbody rd. split.
  - intros [H|(o & Ho & E & Em)]; [|right; exists o; split; [by right|done]].
    destruct (hr_marked rd) eqn:Em; [|by left]. apply elem_of_union in H as [->%elem_of_singleton|?]; [|by left].
    right. eexists. split; [left|done].
  - intros [H|(o & [->|Ho]%elem_of_cons & E & Em)].
    + left. destruct (hr_marked rd); [apply elem_of_union; by right|done].
    + left. cbn in E, Em. subst d. rewrite Em. apply elem_of_union. left. by apply elem_of_singleton.
    + right. by exists o.
Qed.

(** Over any sequence of readings from any devices: once a device has
    served the projection, an unmarked item from it never reads ok or degraded
    again; and a fault is logged exactly when it differs from the fault of the
    device's previous reading, so once per episode. *)
Theorem latch_and_log_over_history l item deviceID :
  let h := readAll l newReader in
  let reading := (read item deviceID h.2).1 in
  (servedProjection deviceID h.1 → hr_marked reading.1 = false →
     hr_severity reading.1 = HealthStatusCritical ∨ hr_severity reading.1 = HealthStatusUnknown) ∧
  reading.2 = (if decide (hr_fault reading.1 = lastFault deviceID "" h.1) then "" else hr_fault reading.1).
Proof.
  cbv zeta. split.
  - intros Hs. rewrite hr_read. assert (deviceID ∈ hl_latched (readAll l newReader).2) as Hl by (apply readAll_latched; by right).
    rewrite bool_decide_true by done. pose proof (reading_cases item deviceID true) as [_ H]. cbv zeta in *. intros Hm. rewrite Hm in H.
    destruct (statesCritical item); [left; apply H|right]. by rewrite H.
  - pose proof (readAll_logged l newReader deviceID) as H. unfold read. cbn [fst snd]. rewrite H. cbn [hl_logged newReader].
    generalize (readHealthItem item deviceID (bool_decide (deviceID ∈ hl_latched (readAll l newReader).2))) as rd. intros rd.
    case_bool_decide as E; [by rewrite decide_True|by rewrite decide_False].
Qed.

Definition markedItem : gmap string json := list_to_map [("projection", jstr healthProjectionMarker); ("status", jstr "ok")].

Lemma latch_and_log_over_history_witness :
  servedProjection "d1" (readAll [("d1", markedItem)] newReader).1 ∧
  hr_severity (read (list_to_map [("status", jstr "ok")]) "d1" (readAll [("d1", markedItem)] newReader).2).1.1 = HealthStatusUnknown.
Proof.
  assert (servedProjection "d1" (readAll [("d1", markedItem)] newReader).1) as Hs
    by (eexists; split; [left|split; vm_compute; reflexivity]).
  split; [exact Hs|].
  destruct (latch_and_log_over_history [("d1", markedItem)] (list_to_map [("status", jstr "ok")]) "d1") as [H _].
  destruct (H Hs) as [E|E]; [vm_compute; reflexivity|vm_compute in E; discriminate E|exact E].
Defined.
End HealthRead.
