(* ===== verification/ExportData.v ===== *)
(** * Reading export items (runtimeclient/types.go, the readers and mappers of mqtt.go)

    Requests are bounded windows; an item is a decoded JSON object whose
    numbers are kept as they were written, so the [int], [int64] and [float64]
    branches of the readers, which only hand-made items reach, have no
    counterpart. [wide] is what the machine gives for a [float64] outside the
    range of [int64]. *)
From S2P Require Import Prelude GoBytes Json Float64 Contracts Heap Replay MqttAuth Requests Encryption.
Import Float64 MqttAuth Encryption.
From Stdlib Require Import SpecFloat.

Module ExportData.

Definition MaxLimit : Z := 1000.
Definition DefaultWeeklyReportBucketMS : Z := 3600000.

(** ** Requests *)
Record BoundedWindow := MkWindow { bw_DeviceID : string; bw_SinceMS : Z; bw_UntilMS : Z; bw_Limit : Z }.

Definition NormalizeBoundedWindow (w : BoundedWindow) : res BoundedWindow :=
  if bool_decide (bw_DeviceID w = "") then Err (EMsg "device_id must not be empty")
  else if bw_SinceMS w <=? 0 then Err (EMsg "since_ms must be positive")
  else if negb (bw_UntilMS w =? 0) && (bw_UntilMS w <=? bw_SinceMS w) then Err (EMsg "until_ms must be greater than since_ms")
  else if bw_Limit w <=? 0 then Err (EMsg "limit must be positive")
  else Ok (if MaxLimit <? bw_Limit w then MkWindow (bw_DeviceID w) (bw_SinceMS w) (bw_UntilMS w) MaxLimit else w).

Definition NormalizeHealthRequest (deviceID : string) : res string :=
  if bool_decide (deviceID = "") then Err (EMsg "device_id must not be empty") else Ok deviceID.

Record SensorHistoryRequest := MkHistoryRequest { sq_window : BoundedWindow; sq_SensorID : string; sq_BucketMS : Z }.

Definition NormalizeSensorHistoryRequest (req : SensorHistoryRequest) : res SensorHistoryRequest :=
  match NormalizeBoundedWindow (sq_window req) with
  | Err e => Err e
  | Ok window =>
    if bool_decide (sq_SensorID req = "") then Err (EMsg "sensor_id must not be empty")
    else if sq_BucketMS req <? 0 then Err (EMsg "bucket_ms must not be negative")
    else Ok (MkHistoryRequest window (sq_SensorID req) (sq_BucketMS req))
  end.

Definition NormalizeActionLogRequest : BoundedWindow → res BoundedWindow := NormalizeBoundedWindow.
Definition NormalizeTierCDecisionLogRequest : BoundedWindow → res BoundedWindow := NormalizeBoundedWindow.

Record ReasoningLogRequest := MkLogRequest {
  lq_window : BoundedWindow; lq_TierUsed : string; lq_ActionTier : string; lq_ReasoningStatus : string; lq_CorrelationID : string }.

Definition isValidReasoningTier (tier : string) : bool := bool_decide (tier ∈ ["rule"; "local_slm"; "gateway"]).
Definition isValidActionTier (tier : string) : bool := bool_decide (tier ∈ ["A"; "B"; "C"; "D"]).
Definition isValidReasoningStatus (status : string) : bool := bool_decide (status ∈ ["complete"; "incomplete"; "skipped"]).

Definition NormalizeReasoningLogRequest (req : ReasoningLogRequest) : res ReasoningLogRequest :=
  match NormalizeBoundedWindow (lq_window req) with
  | Err e => Err e
  | Ok window =>
    if negb (bool_decide (lq_TierUsed req = "")) && negb (isValidReasoningTier (lq_TierUsed req)) then
      Err (EMsg "tier_used must be rule, local_slm, or gateway")
    else if negb (bool_decide (lq_ActionTier req = "")) && negb (isValidActionTier (lq_ActionTier req)) then
      Err (EMsg "action_tier must be A, B, C, or D")
    else if negb (bool_decide (lq_ReasoningStatus req = "")) && negb (isValidReasoningStatus (lq_ReasoningStatus req)) then
      Err (EMsg "reasoning_status must be complete, incomplete, or skipped")
    else Ok (MkLogRequest window (lq_TierUsed req) (lq_ActionTier req) (lq_ReasoningStatus req) (lq_CorrelationID req))
  end.

(** ** Rows *)
Record GatewayBrokerPosture := MkGatewayBroker {
  gb_Available : bool; gb_GatewayEnabled : bool; gb_DeploymentCheck : string; gb_AnonymousAccess : string; gb_ACLPolicy : string;
  gb_RequireCredentials : bool; gb_CredentialsConfigured : bool; gb_RequiresACLHardening : bool }.

Record StateStoreEncryptionPosture := MkStoreEncryption {
  se_Available : bool; se_Mode : string; se_Satisfied : bool; se_MarkerConfigured : bool; se_PathPrefixConfigured : bool }.

Record AlertOutboxPosture := MkOutbox {
  ao_Available : bool; ao_BacklogCount : Z; ao_OldestQueuedOriginalMS : Z; ao_OldestQueuedAgeMS : Z; ao_RetryIntervalMinutes : float64;
  ao_MaxNonTierDAttempts : Z; ao_TierDCriticalWarningThreshold : Z; ao_BatchSize : Z }.

Record LockoutRiskState := MkRisk { lr_RiskLevel : string; lr_LockedOut : bool; lr_Stale : bool; lr_CheckedAtMS : Z }.

Record HealthSnapshot := MkSnapshot {
  hs_DeviceID : string; hs_Status : string; hs_UptimeS : float64; hs_LastReadingMS : Z; hs_GatewaySeen : bool; hs_PolicyStatus : string;
  hs_GatewayBrokerPosture : option GatewayBrokerPosture; hs_StateStoreEncryption : option StateStoreEncryptionPosture;
  hs_AlertOutbox : option AlertOutboxPosture; hs_LockoutRiskLevels : gmap string LockoutRiskState }.

Record SensorAggregate := MkAggregate {
  sa_DeviceID : string; sa_SensorID : string; sa_Type : string; sa_Unit : string; sa_StartMS : Z; sa_EndMS : Z; sa_AvgValue : float64;
  sa_MinValue : float64; sa_MaxValue : float64; sa_Samples : Z; sa_Quality : float64; sa_Metadata : option (gmap string json); sa_ReceivedAtMS : Z }.

Record ActionLogEntry := MkAction {
  al_DeviceID : string; al_CreatedAtMS : Z; al_ActionName : string; al_Tier : string; al_SkillName : string; al_TriggerName : string;
  al_SensorType : string; al_SafeDefaultUsed : bool; al_Success : bool; al_ActionTaken : string; al_AttestationStatus : string;
  al_AttestationSeq : option Z; al_InputAttestationGrade : string; al_InputPosture : string; al_Result : option (gmap string json) }.

Record HistorySample := MkHistory {
  hi_SensorID : string; hi_SensorType : string; hi_Unit : string; hi_TimestampMS : Z; hi_Value : float64; hi_Quality : float64 }.

Record TierCDecisionEntry := MkDecision {
  td_DeviceID : string; td_ProposalID : string; td_CreatedAtMS : Z; td_SkillName : string; td_TriggerName : string; td_SensorID : string;
  td_SensorType : string; td_ReadingValue : float64; td_HistoryWindow : list HistorySample; td_ProposedAction : string;
  td_Confidence : float64; td_OperatorDecision : string; td_DecisionLatencyS : float64; td_SafeDefaultUsed : bool;
  td_FinalActionResult : option (gmap string json); td_SiteType : string; td_Location : string; td_Timezone : string;
  td_LaterOutcome : option (gmap string json) }.

Record ReasoningLogEntry := MkReasoning {
  re_DeviceID : string; re_SkillName : string; re_TriggerName : string; re_SensorID : string; re_SensorType : string; re_TierUsed : string;
  re_Model : string; re_PromptText : string; re_ReasoningText : string; re_Confidence : float64; re_ProposedAction : string;
  re_ActionTier : string; re_TokenCount : Z; re_LatencyMS : Z; re_ReasoningStatus : string; re_CorrelationID : string; re_CreatedAtMS : Z }.

(** ** Reading members *)

(** Towards zero. *)
Definition truncate (f : float64) : Z :=
  match f with
  | S754_finite neg m e =>
    let n := if 0 <=? e then Zpos m * 2 ^ e else Zpos m / 2 ^ (- e) in if neg then - n else n
  | _ => 0
  end.

Definition stringValue (m : gmap string json) (key fallback : string) : string :=
  match m !! key with
  | None | Some JNull => fallback
  | Some (JStr raw) => if bool_decide (unquote raw = "") then fallback else unquote raw
  | Some v => sprint v
  end.

Definition floatValue (m : gmap string json) (key : string) : float64 :=
  match m !! key with Some (JNum lit) => default fzero (ParseFloat lit) | _ => fzero end.

Definition boolValue (m : gmap string json) (key : string) : bool := match m !! key with Some (JBool b) => b | _ => false end.

Definition subMap (m : gmap string json) (key : string) : option (gmap string json) :=
  match m !! key with Some (JObj l) => Some (toMap l) | _ => None end.

Definition mapValue : gmap string json → string → option (gmap string json) := subMap.

Definition receiptBound : Z := 2 ^ 53.

Definition receiptValue (m : gmap string json) (key : string) : Z :=
  match m !! key with
  | Some (JNum lit) =>
    match ParseInt lit with
    | Some n => if (n <=? 0) || (receiptBound <=? n) then 0 else n
    | None => 0
    end
  | _ => 0
  end.

Section Readers.
Context (wide : float64 → Z).

Definition toInt64 (f : float64) : Z := if in_rng i64_min i64_max (truncate f) then truncate f else wide f.

Definition int64ValueOr (m : gmap string json) (key : string) (def : Z) : Z :=
  match m !! key with
  | Some (JNum lit) =>
    match ParseInt lit with
    | Some n => n
    | None => match ParseFloat lit with Some f => toInt64 f | None => def end
    end
  | _ => def
  end.

Definition int64Value (m : gmap string json) (key : string) : Z := int64ValueOr m key 0.
Definition intValue : gmap string json → string → Z := int64Value.

Definition optionalInt64Value (m : gmap string json) (key : string) : option Z :=
  match m !! key with None | Some JNull => None | _ => Some (int64Value m key) end.

(** ** Mapping *)
Definition mapGatewayBrokerPosture (item : gmap string json) : option GatewayBrokerPosture :=
  p ← subMap item "gateway_broker_posture";
  Some (MkGatewayBroker (boolValue p "available") (boolValue p "gateway_enabled") (stringValue p "deployment_check" "")
    (stringValue p "anonymous_access" "") (stringValue p "acl_policy" "") (boolValue p "require_credentials")
    (boolValue p "credentials_configured") (boolValue p "requires_acl_hardening")).

Definition mapStateStoreEncryptionPosture (item : gmap string json) : option StateStoreEncryptionPosture :=
  p ← subMap item "state_store_encryption";
  Some (MkStoreEncryption (boolValue p "available") (stringValue p "mode" "") (boolValue p "satisfied")
    (boolValue p "marker_configured") (boolValue p "path_prefix_configured")).

Definition mapAlertOutboxPosture (item : gmap string json) : option AlertOutboxPosture :=
  p ← subMap item "alert_outbox";
  Some (MkOutbox true (intValue p "backlog_count") (int64Value p "oldest_queued_original_ts") (int64Value p "oldest_queued_age_ms")
    (floatValue p "retry_interval_minutes") (intValue p "max_non_tier_d_attempts") (intValue p "tier_d_critical_warning_threshold")
    (intValue p "batch_size")).

Definition lockoutRiskStateFromMap (m : gmap string json) : LockoutRiskState :=
  MkRisk (stringValue m "risk_level" "") (boolValue m "locked_out") (boolValue m "stale") (int64Value m "checked_at_ms").

Definition objectOf (v : json) : option (gmap string json) := match v with JObj l => Some (toMap l) | _ => None end.

Definition mapLockoutRiskLevels (item : gmap string json) : gmap string LockoutRiskState :=
  let direct := match subMap item "lockout_risk_levels" with Some raw => raw | None => ∅ end in
  if negb (bool_decide (size direct = 0%nat)) then omap (λ v, lockoutRiskStateFromMap <$> objectOf v) direct
  else match subMap item "remote_command_lockout" with
  | None => ∅
  | Some lockout =>
    match lockout !! "senders" with
    | Some (JArr senders) =>
      foldl (λ out v, match objectOf v with
                      | Some m => <[stringValue m "channel" "" +:+ ":" +:+ stringValue m "from_number" "" := lockoutRiskStateFromMap m]> out
                      | None => out
                      end) ∅ senders
    | _ => ∅
    end
  end.

Definition latestSensorSeenMS (v : option json) : Z :=
  match v with
  | Some (JArr items) =>
    foldl (λ latest i, match objectOf i with
                       | Some m => if latest <? int64Value m "last_seen_ms" then int64Value m "last_seen_ms" else latest
                       | None => latest
                       end) 0 items
  | _ => 0
  end.

Definition mapHealthSnapshot (item : gmap string json) (deviceID severity : string) : HealthSnapshot :=
  let last := int64Value item "last_reading_ms" in
  let lastReadingMS := if last =? 0 then latestSensorSeenMS (item !! "sensors") else last in
  let gatewaySeen := boolValue item "gateway_seen" ||
    match subMap item "capability_posture" with Some p => boolValue p "gateway_reachable" | None => false end in
  let status := stringValue item "policy_status" "" in
  let policyStatus :=
    match subMap item "device_policy" with
    | Some policy =>
      let s := stringValue policy "tier" status in
      if bool_decide (s = "") && boolValue policy "enabled" then "enabled" else s
    | None => status
    end in
  MkSnapshot deviceID severity (floatValue item "uptime_s") lastReadingMS gatewaySeen policyStatus (mapGatewayBrokerPosture item)
    (mapStateStoreEncryptionPosture item) (mapAlertOutboxPosture item) (mapLockoutRiskLevels item).

Definition isNull (v : option json) : bool := match v with None | Some JNull => true | _ => false end.

Definition mapSensorAggregate (item : gmap string json) (fallbackDeviceID fallbackSensorID : string) : SensorAggregate :=
  let timestamp := int64Value item "timestamp" in
  let start := int64Value item "start_ms" in
  let end_ := int64Value item "end_ms" in
  let avg := if isNull (item !! "avg_value") then floatValue item "value" else floatValue item "avg_value" in
  MkAggregate (stringValue item "device_id" fallbackDeviceID) (stringValue item "sensor_id" fallbackSensorID)
    (stringValue item "sensor_type" "") (stringValue item "unit" "") (if start =? 0 then timestamp else start)
    (if end_ =? 0 then timestamp else end_) avg (floatValue item "min_value") (floatValue item "max_value")
    (intValue item "sample_count") (floatValue item "quality") (mapValue item "metadata") (receiptValue item "received_at_ms").

Definition mapActionLogEntry (item : gmap string json) (fallbackDeviceID : string) : ActionLogEntry :=
  MkAction (stringValue item "device_id" fallbackDeviceID) (int64Value item "timestamp") (stringValue item "action_name" "")
    (stringValue item "tier" "") (stringValue item "skill_name" "") (stringValue item "trigger_name" "") (stringValue item "sensor_type" "")
    (boolValue item "safe_default_used") (boolValue item "executed") (stringValue item "action_taken" "")
    (stringValue item "attestation_status" "") (optionalInt64Value item "attestation_seq") (stringValue item "input_attestation_grade" "")
    (stringValue item "input_posture" "") (mapValue item "result").

Definition mapSample (m : gmap string json) : HistorySample :=
  MkHistory (stringValue m "sensor_id" "") (stringValue m "sensor_type" "") (stringValue m "unit" "")
    (int64ValueOr m "timestamp" (int64Value m "timestamp_ms")) (floatValue m "value") (floatValue m "quality").

Definition mapHistoryWindow (v : option json) : res (list HistorySample) :=
  match v with
  | Some (JArr items) =>
    match mapM objectOf items with
    | Some ms => Ok (map mapSample ms)
    | None => Err (EMsg "runtimeclient: history_window item must be an object")
    end
  | None | Some JNull => Ok []
  | _ => Err (EMsg "runtimeclient: history_window must be an array")
  end.

Definition mapTierCDecisionEntry (item : gmap string json) (fallbackDeviceID : string) : res TierCDecisionEntry :=
  match mapHistoryWindow (item !! "history_window") with
  | Err e => Err e
  | Ok history =>
    Ok (MkDecision (stringValue item "device_id" fallbackDeviceID) (stringValue item "proposal_id" "") (int64Value item "created_at")
      (stringValue item "skill_name" "") (stringValue item "trigger_name" "") (stringValue item "sensor_id" "")
      (stringValue item "sensor_type" "") (floatValue item "reading_value") history (stringValue item "proposed_action" "")
      (floatValue item "confidence") (stringValue item "operator_decision" "") (floatValue item "decision_latency_s")
      (boolValue item "safe_default_used") (mapValue item "final_action_result") (stringValue item "site_type" "")
      (stringValue item "location" "") (stringValue item "timezone" "") (mapValue item "later_outcome"))
  end.

Definition mapReasoningLogEntry (item : gmap string json) (fallbackDeviceID : string) : ReasoningLogEntry :=
  let created := int64Value item "created_at_ms" in
  let createdAtMS := if created =? 0 then int64ValueOr item "created_at" (int64Value item "timestamp") else created in
  MkReasoning (stringValue item "device_id" fallbackDeviceID) (stringValue item "skill_name" "") (stringValue item "trigger_name" "")
    (stringValue item "sensor_id" "") (stringValue item "sensor_type" "") (stringValue item "tier_used" "") (stringValue item "model" "")
    (stringValue item "prompt_text" "") (stringValue item "reasoning_text" "") (floatValue item "confidence")
    (stringValue item "proposed_action" "") (stringValue item "action_tier" "") (intValue item "token_count") (int64Value item "latency_ms")
    (stringValue item "reasoning_status" "") (stringValue item "correlation_id" "") createdAtMS.
End Readers.

(** ** What the readers promise *)

(** A receipt is exact or absent: it is zero, or the whole positive number
    of milliseconds below 2^53 that the member spells digit for digit; nothing
    else, a float or a numeral in a string included, reads as a receipt. *)
Theorem receipt_exact m key :
  receiptValue m key = 0 ∨
  0 < receiptValue m key < 2 ^ 53 ∧ ∃ lit, m !! key = Some (JNum lit) ∧ ParseInt lit = Some (receiptValue m key).
Proof.
  unfold receiptValue. destruct (m !! key) as [[]|]; auto. destruct (ParseInt lit) as [n|] eqn:E; auto.
  destruct ((n <=? 0) || (receiptBound <=? n)) eqn:Eb; auto. right. unfold receiptBound in Eb. split; [lia|]. by exists lit.
Qed.

(** C27: Every export request is bounded: a window that is accepted names a
    device, starts after the epoch, ends after it starts or is open, and asks
    for between one and a thousand rows; an accepted request of any kind
    carries such a window, and nothing but a limit above the cap is changed. *)
Theorem requests_are_bounded w w' :
  NormalizeBoundedWindow w = Ok w' →
  bw_DeviceID w' ≠ "" ∧ 0 < bw_SinceMS w' ∧ (bw_UntilMS w' = 0 ∨ bw_SinceMS w' < bw_UntilMS w') ∧ 1 ≤ bw_Limit w' ≤ MaxLimit ∧
  w' = MkWindow (bw_DeviceID w) (bw_SinceMS w) (bw_UntilMS w) (Z.min (bw_Limit w) MaxLimit) ∧
  NormalizeBoundedWindow w' = Ok w'.
Proof.
  unfold NormalizeBoundedWindow, MaxLimit. destruct w as [dev since until limit]. cbn [bw_DeviceID bw_SinceMS bw_UntilMS bw_Limit].
  case_bool_decide as Hd; [done|]. destruct (Z.leb_spec since 0); [done|].
  destruct (negb (until =? 0) && (until <=? since)) eqn:Eu; [done|]. destruct (Z.leb_spec limit 0); [done|].
  assert (until = 0 ∨ since < until) by lia.
  destruct (Z.ltb_spec 1000 limit); intros [= <-]; cbn [bw_DeviceID bw_SinceMS bw_UntilMS bw_Limit].
  - rewrite (bool_decide_false (dev = "")), Eu, Z.min_r by (done || lia). replace (since <=? 0) with false by lia. split_and!; done || lia.
  - rewrite (bool_decide_false (dev = "")), Eu, Z.min_l by (done || lia). replace (since <=? 0) with false by lia.
    replace (limit <=? 0) with false by lia. replace (1000 <? limit) with false by lia. split_and!; done || lia.
Qed.

Lemma requests_are_bounded_witness : bw_Limit (MkWindow "d1" 5 0 MaxLimit) ≤ MaxLimit.
Proof. apply (requests_are_bounded (MkWindow "d1" 5 0 70000)). reflexivity. Defined.
End ExportData.
