(* ===== verification/RuntimeClient.v ===== *)
(** * The export client (runtimeclient/mqtt.go)

    A request is registered under its id with a channel of one place, signed
    and published; a response is correlated by its topic, verified under the
    pending request's device and id, and handed over under the client's lock
    while the request is pending and its wait has not expired. What the
    goroutines interleave between locks are definitions of their own. The
    broker's answers, request ids and clocks are arguments; log records are
    not modelled. *)
From S2P Require Import Prelude GoBytes Json Float64 Contracts Heap Replay MqttAuth Returns StateClock Requests RequestsSpec Dispatcher Encryption ExportData HealthRead.
Import Float64 Contracts Replay MqttAuth Returns Encryption ExportData.
From Stdlib Require Import SpecFloat.

Module RuntimeClient.
Import Dispatcher (SigningSource, NextAt, Second).

Definition exportTypeHealth : string := "health".
Definition exportTypeSensorHistory : string := "sensor_history".
Definition exportTypeActionLog : string := "action_log".
Definition exportTypeTierCDecisionLog : string := "tier_c_decision_log".
Definition exportTypeReasoningLog : string := "reasoning_log".
Definition maxExportPages : nat := 100.
Definition defaultExportWait : Z := 30 * Second.

Definition exportEnvelope : list string := ["request_id"; "export_type"; "device_id"; "items"; "next_page_token"; "complete"; "error"].

Definition ExportRequestMessageType : string := "export_request".

(** ** Requests and responses *)
Record exportRequest := MkExport {
  xq_RequestID : string; xq_ExportType : string; xq_DeviceID : string; xq_SinceMS : Z; xq_UntilMS : Z; xq_Limit : Z;
  xq_PageToken : string; xq_Params : list (string * json) }.

Definition withID (id : string) (r : exportRequest) : exportRequest :=
  MkExport id (xq_ExportType r) (xq_DeviceID r) (xq_SinceMS r) (xq_UntilMS r) (xq_Limit r) (xq_PageToken r) (xq_Params r).
Definition withToken (token : string) (r : exportRequest) : exportRequest :=
  MkExport (xq_RequestID r) (xq_ExportType r) (xq_DeviceID r) (xq_SinceMS r) (xq_UntilMS r) (xq_Limit r) token (xq_Params r).

Record exportResponse := MkExported {
  xr_RequestID : string; xr_ExportType : string; xr_DeviceID : string; xr_Items : list (gmap string json);
  xr_NextPageToken : string; xr_Complete : bool; xr_Error : string }.

Definition exportResult : Type := res exportResponse.

(** Members in key order, as a Go map is written. *)
Fixpoint putMember (k : string) (v : json) (l : list (string * json)) : list (string * json) :=
  match l with
  | [] => [(k, v)]
  | (k', v') :: l' =>
    match String.compare k k' with
    | Lt => (k, v) :: l
    | Eq => (k, v) :: l'
    | Gt => (k', v') :: putMember k v l'
    end
  end.
Definition sortMembers (l : list (string * json)) : list (string * json) := foldl (λ acc p, putMember p.1 p.2 acc) [] l.

Definition requestMembers (r : exportRequest) : list (string * json) :=
  [("request_id", jstr (xq_RequestID r)); ("export_type", jstr (xq_ExportType r)); ("device_id", jstr (xq_DeviceID r))] ++
  Requests.omitInt "since_ms" (xq_SinceMS r) ++ Requests.omitInt "until_ms" (xq_UntilMS r) ++ Requests.omitInt "limit" (xq_Limit r) ++
  Requests.omitString "page_token" (xq_PageToken r) ++
  match xq_Params r with [] => [] | params => [("params", JObj (sortMembers params))] end.

(** [json.Marshal] of a decoded value: strings quoted again, objects as maps. *)
Fixpoint remarshal (v : json) : json :=
  match v with
  | JStr raw => jstr (unquote raw)
  | JArr l => JArr (map remarshal l)
  | JObj l => JObj (map (λ p, (escapeString p.1, p.2)) (sortMembers (map (λ p, (unquote p.1, remarshal p.2)) l)))
  | _ => v
  end.

Definition marshalMap (m : gmap string json) : string :=
  print (JObj (map (λ p, (escapeString p.1, remarshal p.2)) (sortMembers (map_to_list m)))).

Definition setItem (v : json) (old : gmap string json) : gmap string json * bool :=
  match v with
  | JObj l => (foldl (λ m p, <[unquote p.1 := p.2]> m) old l, true)
  | JNull => (∅, true)
  | _ => (old, false)
  end.

Definition responseNames : list string := ["request_id"; "export_type"; "device_id"; "items"; "next_page_token"; "complete"; "error"].

Definition setResponse (n : string) (v : json) (r : exportResponse * list (gmap string json)) : exportResponse * list (gmap string json) * bool :=
  let '(MkExported id ty dev items token complete err, spare) := r in
  if decide (n = "request_id") then let '(x, ok) := setStr v id in (MkExported x ty dev items token complete err, spare, ok)
  else if decide (n = "export_type") then let '(x, ok) := setStr v ty in (MkExported id x dev items token complete err, spare, ok)
  else if decide (n = "device_id") then let '(x, ok) := setStr v dev in (MkExported id ty x items token complete err, spare, ok)
  else if decide (n = "items") then
    let '(x, spare', ok) := Requests.setSlice setItem ∅ v (items, spare) in (MkExported id ty dev x token complete err, spare', ok)
  else if decide (n = "next_page_token") then let '(x, ok) := setStr v token in (MkExported id ty dev items x complete err, spare, ok)
  else if decide (n = "complete") then let '(x, ok) := setBool v complete in (MkExported id ty dev items token x err, spare, ok)
  else let '(x, ok) := setStr v err in (MkExported id ty dev items token complete x, spare, ok).

Definition zeroResponse : exportResponse := MkExported "" "" "" [] "" false "".

Definition decodeExportResponse (encoded : string) : option exportResponse :=
  fst <$> decodeStruct responseNames false setResponse (zeroResponse, []) encoded.

Definition isSensitiveExport (exportType : string) : bool :=
  bool_decide (exportType = exportTypeSensorHistory) || bool_decide (exportType = exportTypeActionLog) ||
  bool_decide (exportType = exportTypeTierCDecisionLog) || bool_decide (exportType = exportTypeReasoningLog).

(** The device and request a response topic names. *)
Definition exportResponseTopicRouting (topic : string) : option (string * string) :=
  match split slash topic with
  | [ori; device; export; response; request] =>
    if negb (bool_decide (ori = "ori")) || negb (bool_decide (export = "export")) || negb (bool_decide (response = "response")) ||
       bool_decide (device = "") || bool_decide (request = "")
    then None else Some (device, request)
  | _ => None
  end.

(** ** Construction *)
Record Client := MkClient {
  cl_exportWait : Z; cl_authSecret : string; cl_verifier : option Verifier; cl_encryptor : option Encryptor }.

(** [NewMQTTClient]: the message auth secrets and the encryption secret, where
    the options ask for them. *)
Definition NewMQTTClient (broker : bool) (exportWait : Z) (auth : option (string * string)) (encryption : option string) (nowMS : Z)
    : res (Client * option replayState) :=
  if negb broker then Err (EMsg "runtimeclient: broker must not be nil")
  else match (match encryption with None => Ok None | Some secret => match NewEncryptor secret with Ok e => Ok (Some e) | Err e => Err e end end) with
  | Err e => Err e
  | Ok encryptor =>
    let wait := if 0 <? exportWait then exportWait else defaultExportWait in
    match auth with
    | None =>
      match encryptor with
      | Some _ => Err (EMsg "runtimeclient: message encryption requires message auth")
      | None => Ok (MkClient wait "" None None, None)
      end
    | Some (secret, previous) =>
      match NewVerifier (MkAuthConfig secret previous 0 0 0) nowMS with
      | Err e => Err e
      | Ok (v, s) => Ok (MkClient wait secret (Some v) encryptor, Some s)
      end
    end
  end.

(** ** State *)

(** [wait] ends at its deadline, or earlier when its context does. *)
Record pendingExport := MkPending { pe_ch : nat; pe_req : exportRequest; pe_deadline : Z }.

(** [ch_buffer]: what each channel holds, at most one result. *)
Record clientState := MkState {
  cs_pending : gmap string pendingExport;
  cs_buffer : gmap nat exportResult;
  cs_nextCh : nat;
  cs_subscribed : gset string;
  cs_subscribing : gset string }.

Definition newState : clientState := MkState ∅ ∅ 0 ∅ ∅.

Definition setPending (p : gmap string pendingExport) (s : clientState) : clientState :=
  MkState p (cs_buffer s) (cs_nextCh s) (cs_subscribed s) (cs_subscribing s).
Definition setBuffer (b : gmap nat exportResult) (s : clientState) : clientState :=
  MkState (cs_pending s) b (cs_nextCh s) (cs_subscribed s) (cs_subscribing s).

(** ** Subscribing *)
Inductive subscription := Subscribed | Joins | Starts.

(** [ensureResponseSubscription] under the lock: subscribed already, a
    subscribe in flight to wait on, or a new one. *)
Definition ensureResponseSubscription (deviceID : string) (s : clientState) : res subscription * clientState :=
  match ExportResponseTopicFilter deviceID with
  | Err e => (Err e, s)
  | Ok topic =>
    if decide (topic ∈ cs_subscribed s) then (Ok Subscribed, s)
    else if decide (topic ∈ cs_subscribing s) then (Ok Joins, s)
    else (Ok Starts, MkState (cs_pending s) (cs_buffer s) (cs_nextCh s) (cs_subscribed s) ({[topic]} ∪ cs_subscribing s))
  end.

(** The end of [subscribe]; [timedOut] is whether the wait bound ended it. *)
Definition subscribeEnds (topic : string) (err : option error) (timedOut : bool) (s : clientState) : res unit * clientState :=
  let subscribing := cs_subscribing s ∖ {[topic]} in
  match err with
  | Some e => (Err (if timedOut then ErrExportTimeout else e), MkState (cs_pending s) (cs_buffer s) (cs_nextCh s) (cs_subscribed s) subscribing)
  | None => (Ok tt, MkState (cs_pending s) (cs_buffer s) (cs_nextCh s) ({[topic]} ∪ cs_subscribed s) subscribing)
  end.

(** ** One page *)

(** The request under its id, before the wait starts. *)
Definition prepare (requestID : res string) (req : exportRequest) : res exportRequest :=
  match requestID with
  | Err e => Err e
  | Ok id =>
    if bool_decide (id = "") then Err (EMsg "runtimeclient: request_id generator returned empty id")
    else match ExportResponseTopic (xq_DeviceID req) id with
    | Err e => Err e
    | Ok _ => Ok (withID id req)
    end
  end.

Definition register (deadline : Z) (req : exportRequest) (s : clientState) : res nat * clientState :=
  match cs_pending s !! xq_RequestID req with
  | Some _ => (Err (EMsg "runtimeclient: duplicate request_id"), s)
  | None =>
    let ch := cs_nextCh s in
    (Ok ch, MkState (<[xq_RequestID req := MkPending ch req deadline]> (cs_pending s)) (cs_buffer s) (S ch) (cs_subscribed s) (cs_subscribing s))
  end.

Definition removePending (requestID : string) (s : clientState) : clientState := setPending (delete requestID (cs_pending s)) s.

(** Receiving without waiting. *)
Definition receive (ch : nat) (s : clientState) : option exportResult * clientState :=
  match cs_buffer s !! ch with
  | Some r => (Some r, setBuffer (delete ch (cs_buffer s)) s)
  | None => (None, s)
  end.

Definition settle (requestID : string) (ch : nat) (s : clientState) : option exportResult * clientState :=
  receive ch (removePending requestID s).

(** [now] is when the hand-over is decided, [ended] whether the wait's context
    is done. *)
Definition deliver (now : Z) (ended : bool) (requestID : string) (ch : nat) (result : exportResult) (s : clientState) : bool * clientState :=
  match cs_pending s !! requestID with
  | None => (false, s)
  | Some p =>
    if negb (Nat.eqb (pe_ch p) ch) then (false, s)
    else if ended || (pe_deadline p <=? now) then (false, s)
    else match cs_buffer s !! ch with
    | Some _ => (false, s)
    | None => (true, setBuffer (<[ch := result]> (cs_buffer s)) s)
    end
  end.

Definition acceptResponse (req : exportRequest) (requestID : string) (result : exportResult) : res exportResponse :=
  match result with
  | Err e => Err e
  | Ok resp =>
    if negb (bool_decide (xr_RequestID resp = requestID)) then Err (EMsg "runtimeclient: response request_id does not match")
    else if negb (bool_decide (xr_DeviceID resp = "")) && negb (bool_decide (xr_DeviceID resp = xq_DeviceID req)) then
      Err (EMsg "runtimeclient: response device_id does not match")
    else if negb (bool_decide (xr_ExportType resp = "")) && negb (bool_decide (xr_ExportType resp = xq_ExportType req)) then
      Err (EMsg "runtimeclient: response export_type does not match")
    else Ok resp
  end.

(** How a page's wait ends: the result it received, or none. *)
Definition pageOutcome (req : exportRequest) (received : option exportResult) (why : error) : res exportResponse :=
  match received with
  | Some result => acceptResponse req (xq_RequestID req) result
  | None => Err why
  end.

Section Wire.
Context (ValidateWireUnicode : string → bool) (DecodeStrict : list string → string → option strictError).
(** The strict decoder with required members. *)
Context (DecodeShape : list string → list string → string → option strictError).
Context (Marshal : gmap string json → res string).
Context (gcmOpen : list Z → string → string → string → option string).
Context {C : Type} `{SigningSource C}.
Context (cl : Client).

Definition encodeRequest (wall : Z) (req : exportRequest) : EM C string := λ c,
  match cl_verifier cl with
  | None => (Ok (print (JObj (requestMembers req))), c)
  | Some _ =>
    match NextAt wall c with
    | (Err e, c1) => (Err e, c1)
    | (Ok signedAt, c1) =>
      match Sign Marshal (toMap (requestMembers req)) ExportRequestMessageType (xq_DeviceID req) (xq_RequestID req) signedAt (cl_authSecret cl) with
      | Err e => (Err e, c1)
      | Ok auth => (Ok (print (JObj (sortMembers (requestMembers req ++ [("auth", authMember auth)])))), c1)
      end
    end
  end.

(** The message a registered request is published as. *)
Definition requestMessage (wall : Z) (req : exportRequest) : EM C (string * string) := λ c,
  match encodeRequest wall req c with
  | (Err e, c1) => (Err e, c1)
  | (Ok payload, c1) =>
    if default 0 (PayloadMaxima !! FamilyExportRequest) <? slen payload then
      (Err (EMsg "runtimeclient: export request exceeds its topic maximum"), c1)
    else match ExportRequestTopic (xq_DeviceID req) with
    | Err e => (Err e, c1)
    | Ok topic => (Ok (topic, payload), c1)
    end
  end.

(** [None]: the cipher panicked. *)
Definition decodeResponsePayload (decoded : gmap string json) (req : exportRequest) : option exportResult :=
  let read (decoded : gmap string json) : exportResult :=
    let encoded := marshalMap decoded in
    match DecodeShape (default [] (definedMembers !! FamilyExportResponse)) exportEnvelope encoded with
    | Some e => Err (EMsg ("runtimeclient: malformed export response: " +:+ memberRuleReason e))
    | None => match decodeExportResponse encoded with
              | Some resp => Ok resp
              | None => Err (EMsg "runtimeclient: decode export response")
              end
    end in
  if negb (isSensitiveExport (xq_ExportType req)) then Some (read decoded)
  else match cl_encryptor cl with
  | Some e =>
    if negb (trueMember decoded "encrypted") then Some (Err (EMsg "runtimeclient: sensitive export response is not encrypted"))
    else match Decrypt DecodeStrict Marshal gcmOpen (Some e) decoded ExportResponseMessageType (xq_DeviceID req) (xq_RequestID req) with
    | Plain m => Some (read m)
    | Refuses err => Some (Err err)
    | Panics => None
    end
  | None =>
    if trueMember decoded "encrypted" then
      Some (Err (EMsg "runtimeclient: encrypted export response received but encryption is not configured"))
    else Some (read decoded)
  end.

Definition refusedByMemberRule (r : exportResult) : bool := match r with Err (MemberRuleError _) => true | _ => false end.

(** The pending request a message is for, read under the lock. *)
Definition lookupPending (topic : string) (s : clientState) : option (string * pendingExport) :=
  match exportResponseTopicRouting topic with
  | None => None
  | Some (deviceID, requestID) =>
    match cs_pending s !! requestID with
    | Some p => if bool_decide (xq_DeviceID (pe_req p) = deviceID) then Some (requestID, p) else None
    | None => None
    end
  end.

(** The decision taken on an opened envelope: whether the response was handed
    over. *)
Definition decideResponse (now : Z) (ended : bool) (requestID : string) (p : pendingExport) (verified : gmap string json) (s : clientState)
    : bool * res unit * clientState :=
  match decodeResponsePayload verified (pe_req p) with
  | None => (false, Ok tt, s)
  | Some result =>
    if refusedByMemberRule result then (false, Ok tt, s)
    else let '(applied, s') := deliver now ended requestID (pe_ch p) result s in (applied, Ok tt, s')
  end.

(** What follows the look-up. *)
Definition answerPending (t now : Z) (ended : bool) (requestID : string) (p : pendingExport) (payload : string)
    (rs : replayState) (s : clientState) : replayState * clientState :=
  match cl_verifier cl with
  | None =>
    match decodeMap payload with
    | None => (rs, s)
    | Some raw => (rs, (decideResponse now ended requestID p raw s).2)
    end
  | Some v =>
    let '(_, rs', s') := VerifyJSONThenDecide ValidateWireUnicode DecodeStrict Marshal v (decideResponse now ended requestID p) payload
      ExportResponseMessageType (xq_DeviceID (pe_req p)) (xq_RequestID (pe_req p)) t rs s in (rs', s')
  end.

Definition handleResponseMessage (t now : Z) (ended : bool) (topic payload : string) (rs : replayState) (s : clientState) : replayState * clientState :=
  match lookupPending topic s with
  | None => (rs, s)
  | Some (requestID, p) => answerPending t now ended requestID p payload rs s
  end.
End Wire.

(** ** All pages *)
Section Pages.
Context {W : Type} (requestPage : exportRequest → EM W exportResponse).

Fixpoint exportPages (pages : nat) (base : exportRequest) (pageToken : string) (seen : gset string) (all : list (gmap string json))
    : EM W (list (gmap string json)) := λ s,
  match pages with
  | O => (Err (EMsg "runtimeclient: runtime export exceeded max page limit"), s)
  | S pages' =>
    match requestPage (withToken pageToken base) s with
    | (Err e, s1) => (Err e, s1)
    | (Ok resp, s1) =>
      if negb (bool_decide (xr_Error resp = "")) then (Err (EMsg ("runtimeclient: runtime export failed: " +:+ xr_Error resp)), s1)
      else if MaxLimit <? Z.of_nat (length all) + Z.of_nat (length (xr_Items resp)) then
        (Err (EMsg "runtimeclient: runtime export exceeded max item limit"), s1)
      else
        let all' := all ++ xr_Items resp in
        if xr_Complete resp then (Ok all', s1)
        else if bool_decide (xr_NextPageToken resp = "") then (Err (EMsg "runtimeclient: runtime export incomplete without next_page_token"), s1)
        else if decide (xr_NextPageToken resp ∈ seen) then (Err (EMsg "runtimeclient: runtime export repeated next_page_token"), s1)
        else exportPages pages' base (xr_NextPageToken resp) ({[xr_NextPageToken resp]} ∪ seen) all' s1
    end
  end.

(** [exportAll] once the responses are subscribed. *)
Definition exportAll (subscribe : EM W unit) (base : exportRequest) : EM W (list (gmap string json)) := λ s,
  match subscribe s with
  | (Err e, s1) => (Err e, s1)
  | (Ok _, s1) => exportPages maxExportPages base "" ∅ [] s1
  end.
End Pages.

(** ** The exports *)
Section Exports.
Context {W : Type} (subscribe : string → EM W unit) (requestPage : exportRequest → EM W exportResponse) (wide : float64 → Z).

Definition rows (base : exportRequest) : EM W (list (gmap string json)) := exportAll requestPage (subscribe (xq_DeviceID base)) base.

Definition Health (deviceID : string) (reader : HealthRead.healthReader) (s : W) : res (HealthSnapshot * string * HealthRead.healthReader) * W :=
  match NormalizeHealthRequest deviceID with
  | Err e => (Err e, s)
  | Ok dev =>
    match rows (MkExport "" exportTypeHealth dev 0 0 0 "" []) s with
    | (Err e, s1) => (Err e, s1)
    | (Ok [], s1) => (Err (EMsg "runtimeclient: health export returned no items"), s1)
    | (Ok (item :: _), s1) =>
      let '(reading, toLog, reader') := HealthRead.read item dev reader in
      (Ok (mapHealthSnapshot wide item dev (HealthRead.hr_severity reading), toLog, reader'), s1)
    end
  end.

Definition windowRequest (exportType : string) (w : BoundedWindow) (params : list (string * json)) : exportRequest :=
  MkExport "" exportType (bw_DeviceID w) (bw_SinceMS w) (bw_UntilMS w) (bw_Limit w) "" params.

Definition SensorHistory (req : SensorHistoryRequest) : EM W (list SensorAggregate) := λ s,
  match NormalizeSensorHistoryRequest req with
  | Err e => (Err e, s)
  | Ok n =>
    match rows (windowRequest exportTypeSensorHistory (sq_window n) [("sensor_id", jstr (sq_SensorID n)); ("bucket_ms", jint (sq_BucketMS n))]) s with
    | (Err e, s1) => (Err e, s1)
    | (Ok items, s1) => (Ok (map (λ i, mapSensorAggregate wide i (bw_DeviceID (sq_window n)) (sq_SensorID n)) items), s1)
    end
  end.

Definition ActionLog (req : BoundedWindow) : EM W (list ActionLogEntry) := λ s,
  match NormalizeActionLogRequest req with
  | Err e => (Err e, s)
  | Ok n =>
    match rows (windowRequest exportTypeActionLog n []) s with
    | (Err e, s1) => (Err e, s1)
    | (Ok items, s1) => (Ok (map (λ i, mapActionLogEntry wide i (bw_DeviceID n)) items), s1)
    end
  end.

(** The first row that does not map ends the export. *)
Fixpoint mapRows {A} (f : gmap string json → res A) (items : list (gmap string json)) : res (list A) :=
  match items with
  | [] => Ok []
  | i :: items' =>
    match f i with
    | Err e => Err e
    | Ok a => match mapRows f items' with Ok l => Ok (a :: l) | Err e => Err e end
    end
  end.

Definition TierCDecisionLog (req : BoundedWindow) : EM W (list TierCDecisionEntry) := λ s,
  match NormalizeTierCDecisionLogRequest req with
  | Err e => (Err e, s)
  | Ok n =>
    match rows (windowRequest exportTypeTierCDecisionLog n []) s with
    | (Err e, s1) => (Err e, s1)
    | (Ok items, s1) => (mapRows (λ i, mapTierCDecisionEntry wide i (bw_DeviceID n)) items, s1)
    end
  end.

Definition reasoningLogParams (req : ReasoningLogRequest) : list (string * json) :=
  Requests.omitString "tier_used" (lq_TierUsed req) ++ Requests.omitString "action_tier" (lq_ActionTier req) ++
  Requests.omitString "reasoning_status" (lq_ReasoningStatus req) ++ Requests.omitString "correlation_id" (lq_CorrelationID req).

Definition ReasoningLog (req : ReasoningLogRequest) : EM W (list ReasoningLogEntry) := λ s,
  match NormalizeReasoningLogRequest req with
  | Err e => (Err e, s)
  | Ok n =>
    match rows (windowRequest exportTypeReasoningLog (lq_window n) (reasoningLogParams n)) s with
    | (Err e, s1) => (Err e, s1)
    | (Ok items, s1) => (Ok (map (λ i, mapReasoningLogEntry wide i (bw_DeviceID (lq_window n))) items), s1)
    end
  end.
End Exports.

(** ** Pacing

    A token bucket per device in [float64], products rounded before they are
    added. *)
Definition exportRatePerSecond : float64 := ofDecimal false 16 (-1).
Definition exportBurst : float64 := ofInt 8.

Record paceBucket := MkBucket { pb_tokens : float64; pb_last : Z }.

(** [math.Ceil] to an integer. *)
Definition ceiling (f : float64) : Z :=
  match f with
  | S754_finite neg m e =>
    if 0 <=? e then (if neg then - (Zpos m * 2 ^ e) else Zpos m * 2 ^ e)
    else if neg then - (Zpos m / 2 ^ (- e)) else - ((- Zpos m) / 2 ^ (- e))
  | _ => 0
  end.

Inductive paced := Acquired | WaitFor (d : Z).

(** One turn of [acquire]'s loop at [now]: a token taken, or the time to wait
    before the next turn. *)
Definition tryAcquire (now : Z) (deviceID : string) (buckets : gmap string paceBucket) : paced * gmap string paceBucket :=
  let bucket := default (MkBucket fzero now) (buckets !! deviceID) in
  let elapsed := timeBetween now (pb_last bucket) in
  let tokens := if 0 <? elapsed then fmin exportBurst (fadd (pb_tokens bucket) (fmul (Seconds elapsed) exportRatePerSecond)) else pb_tokens bucket in
  if fleb (ofInt 1) tokens then (Acquired, <[deviceID := MkBucket (fsub tokens (ofInt 1)) now]> buckets)
  else (WaitFor (Z.max (ceiling (fmul (fdiv (fsub (ofInt 1) tokens) exportRatePerSecond) (ofInt Second))) 1),
        <[deviceID := MkBucket tokens now]> buckets).
End RuntimeClient.
