(* ===== verification/RuntimeClientSpec.v ===== *)
(** * What the export client promises

    An export returns complete, bounded, linked pages; a response reaches its
    request only verified, correlated, in time and while the request is
    pending; what settles a request takes what was handed to it; a response
    that is not handed over leaves no replay key. *)
From S2P Require Import Prelude GoBytes Json Float64 Contracts Heap Replay MqttAuth Returns StateClock Requests Dispatcher DispatcherSpec Encryption ExportData HealthRead RuntimeClient.
Import Float64 Contracts Replay MqttAuth Encryption ExportData RuntimeClient.

Module RuntimeClientSpec.

(** ** Pages *)
Section Pages.
Context {W : Type} (requestPage : exportRequest → EM W exportResponse) (subscribe : EM W unit) (base : exportRequest).

(** Pages answered one after the other, each asked for with the token of the
    one before. *)
Inductive pagesRun : string → W → list exportResponse → W → Prop :=
| pr_nil token s : pagesRun token s [] s
| pr_cons token s resp s1 rest s2 :
    requestPage (withToken token base) s = (Ok resp, s1) → pagesRun (xr_NextPageToken resp) s1 rest s2 → pagesRun token s (resp :: rest) s2.

(** A chain of pages that was returned. *)
Record chain (seen : gset string) (ps : list exportResponse) (last : exportResponse) : Prop := {
  ch_errors : Forall (λ p, xr_Error p = "") (ps ++ [last]);
  ch_more : Forall (λ p, xr_Complete p = false ∧ xr_NextPageToken p ≠ "") ps;
  ch_done : xr_Complete last = true;
  ch_tokens : NoDup (xr_NextPageToken <$> ps);
  ch_fresh : ∀ p, p ∈ ps → xr_NextPageToken p ∉ seen }.

Lemma exportPages_ok n token seen all s items s' :
  exportPages requestPage n base token seen all s = (Ok items, s') →
  ∃ ps last, pagesRun token s (ps ++ [last]) s' ∧ (length (ps ++ [last]) ≤ n)%nat ∧ chain seen ps last ∧
    items = all ++ concat (xr_Items <$> ps ++ [last]) ∧ Z.of_nat (length items) ≤ MaxLimit.
Proof.
  revert token seen all s. induction n as [|n IH]; intros token seen all s; cbn [exportPages]; [done|].
  destruct (requestPage (withToken token base) s) as [[resp|e] s1] eqn:Ep; [|done].
  destruct (bool_decide_reflect (xr_Error resp = "")) as [Ee|]; [|done]. cbn [negb].
  destruct (Z.ltb_spec MaxLimit (Z.of_nat (length all) + Z.of_nat (length (xr_Items resp)))); [done|].
  destruct (xr_Complete resp) eqn:Ec.
  - intros [= <- <-]. exists [], resp. cbn. split_and!.
    + econstructor; [done|constructor].
    + lia.
    + split; cbn; [by repeat constructor|constructor|done|constructor|set_solver].
    + by rewrite app_nil_r.
    + rewrite length_app. lia.
  - destruct (bool_decide_reflect (xr_NextPageToken resp = "")) as [|Et]; [done|]. destruct (decide (xr_NextPageToken resp ∈ seen)) as [|Hs]; [done|].
    intros (ps & last & Hr & Hl & [C1 C2 C3 C4 C5] & -> & Hm)%IH. exists (resp :: ps), last. cbn [app fmap list_fmap length].
    split_and!; [by econstructor|lia| |by rewrite <-app_assoc|done]. split; cbn.
    + by constructor.
    + by constructor.
    + done.
    + constructor; [|done]. intros (p & E & Hp)%list_elem_of_fmap. apply (C5 p Hp). rewrite <-E. set_solver.
    + intros p [->|Hp]%elem_of_cons; [done|]. specialize (C5 p Hp). set_solver.
Qed.

(** C25: An export that returns rows returns all of them: after subscribing, at
    most a hundred pages were asked for, the first without a token and each
    other with the token of the page before, no token twice; every page came
    without an error, the last one and no other was complete; the rows are the
    pages' items in order, a thousand at most. *)
Theorem export_is_complete s items s' :
  exportAll requestPage subscribe base s = (Ok items, s') →
  ∃ s0 u ps last, subscribe s = (Ok u, s0) ∧ pagesRun "" s0 (ps ++ [last]) s' ∧ (length (ps ++ [last]) ≤ maxExportPages)%nat ∧
    chain ∅ ps last ∧ items = concat (xr_Items <$> ps ++ [last]) ∧ Z.of_nat (length items) ≤ MaxLimit.
Proof.
  unfold exportAll. destruct (subscribe s) as [[u|e] s0] eqn:Es; [|done]. intros (ps & last & H)%exportPages_ok.
  exists s0, u, ps, last. destruct H as (? & ? & ? & ? & ?). by split_and!.
Qed.
End Pages.

(** Every request counted. *)
Definition counted {W} (page : exportRequest → EM W exportResponse) (req : exportRequest) : EM (nat * W) exportResponse := λ s,
  let '(r, s') := page req s.2 in (r, (S s.1, s')).

Lemma exportPages_count {W} (page : exportRequest → EM W exportResponse) n base token seen all (k : nat) (s : W) r k' s' :
  exportPages (counted page) n base token seen all (k, s) = (r, (k', s')) → (k' ≤ k + n)%nat.
Proof.
  revert token seen all k s. induction n as [|n IH]; intros token seen all k s; cbn [exportPages]; [intros [= <- <- <-]; lia|].
  unfold counted at 1. cbn [fst snd]. destruct (page (withToken token base) s) as [[resp|e] s1]; [|intros [= <- <- <-]; lia].
  destruct (negb _); [intros [= <- <- <-]; lia|]. destruct (_ <? _); [intros [= <- <- <-]; lia|]. destruct (xr_Complete resp); [intros [= <- <- <-]; lia|].
  destruct (bool_decide _); [intros [= <- <- <-]; lia|]. destruct (decide _); [intros [= <- <- <-]; lia|]. intros H%IH. lia.
Qed.

(** Whatever a device answers, an export ends after at most a hundred page
    requests, so with each page's wait bounded the export is bounded. *)
Theorem export_requests_bounded {W} (page : exportRequest → EM W exportResponse) subscribe base (k : nat) (s : W) r k' s' :
  (∀ k s r k1 s1, subscribe (k, s) = (r, (k1, s1)) → k1 = k) →
  exportAll (counted page) subscribe base (k, s) = (r, (k', s')) → (k' ≤ k + maxExportPages)%nat.
Proof.
  intros Hs. unfold exportAll. destruct (subscribe (k, s)) as [[u|e] [k1 s1]] eqn:Es.
  - intros H%exportPages_count. specialize (Hs _ _ _ _ _ Es). lia.
  - intros [= <- <- <-]. specialize (Hs _ _ _ _ _ Es). lia.
Qed.

(** ** Handing over *)
Section HandOver.
Context (ValidateWireUnicode : string → bool) (DecodeStrict : list string → string → option strictError).
Context (DecodeShape : list string → list string → string → option strictError).
Context (Marshal : gmap string json → res string) (gcmOpen : list Z → string → string → string → option string).
Context (cl : Client).

Notation decodeResponsePayload := (decodeResponsePayload DecodeStrict DecodeShape Marshal gcmOpen cl).
Notation answerPending := (answerPending ValidateWireUnicode DecodeStrict DecodeShape Marshal gcmOpen cl).

(** The result was read from a payload that, with a verifier, opened under the
    request's own device and id and was fresh. *)
Definition vouched (req : exportRequest) (result : exportResult) : Prop :=
  ∃ payload members, decodeResponsePayload members req = Some result ∧ refusedByMemberRule result = false ∧
  match cl_verifier cl with
  | None => decodeMap payload = Some members
  | Some v => ∃ auth t rs,
      openEnvelope ValidateWireUnicode DecodeStrict Marshal v payload ExportResponseMessageType (xq_DeviceID req) (xq_RequestID req) = Ok (auth, members) ∧
      check (replayKey ExportResponseMessageType (xq_DeviceID req) (xq_RequestID req) (ha_SignedAtMS auth) (ha_Signature auth))
        (ha_SignedAtMS auth) t (prune t rs) = None
  end.

Lemma deliver_spec now ended requestID ch result s b s' :
  deliver now ended requestID ch result s = (b, s') →
  (b = false ∧ s' = s) ∨
  (b = true ∧ cs_buffer s !! ch = None ∧ s' = setBuffer (<[ch := result]> (cs_buffer s)) s ∧
    ∃ p, cs_pending s !! requestID = Some p ∧ pe_ch p = ch ∧ ended = false ∧ now < pe_deadline p).
Proof.
  unfold deliver. destruct (cs_pending s !! requestID) as [p|] eqn:Ep; [|intros [= <- <-]; by left].
  destruct (Nat.eqb_spec (pe_ch p) ch) as [Ec|]; [|intros [= <- <-]; by left]. cbn [negb].
  destruct (ended || (pe_deadline p <=? now)) eqn:Ee; [intros [= <- <-]; by left|]. apply orb_false_iff in Ee as [-> Ed].
  destruct (cs_buffer s !! ch) eqn:Eb; [intros [= <- <-]; by left|]. intros [= <- <-]. right. split_and!; [done..|].
  exists p. split_and!; [done..|lia].
Qed.

(** A response answers only by handing over a vouched result; otherwise
    neither the client nor the replay record gains anything. *)
Lemma answerPending_spec t now ended requestID p payload rs s rs' s' :
  answerPending t now ended requestID p payload rs s = (rs', s') →
  (s' = s ∧ (rs' = rs ∨ rs' = prune t rs)) ∨
  (∃ result, vouched (pe_req p) result ∧ deliver now ended requestID (pe_ch p) result s = (true, s')).
Proof.
  unfold RuntimeClient.answerPending. destruct (cl_verifier cl) as [v|] eqn:Ev.
  - unfold VerifyJSONThenDecide, verifyJSON. destruct (openEnvelope _ _ _ _ _ _ _ _) as [[auth un]|] eqn:Eo; [|intros [= <- <-]; auto].
    unfold checkFreshAndRecord. cbn [fmap option_fmap option_map]. destruct (check _ _ _ _) eqn:Ec; [intros [= <- <-]; auto|].
    unfold decideResponse at 1. destruct (decodeResponsePayload un (pe_req p)) as [result|] eqn:Ed; [|intros [= <- <-]; auto].
    destruct (refusedByMemberRule result) eqn:Er; [intros [= <- <-]; auto|].
    destruct (deliver now ended requestID (pe_ch p) result s) as [b s1] eqn:Edl.
    pose proof (deliver_spec _ _ _ _ _ _ _ _ Edl) as [[-> ->]|(-> & _)]; [intros [= <- <-]; auto|].
    intros H. right. exists result. split.
    + exists payload, un. split_and!; [done..|]. rewrite Ev. by exists auth, t, rs.
    + destruct (recheck _ _ _); injection H as <- <-; done.
  - destruct (decodeMap payload) as [raw|] eqn:Em; [|intros [= <- <-]; auto]. unfold decideResponse.
    destruct (decodeResponsePayload raw (pe_req p)) as [result|] eqn:Ed; [|intros [= <- <-]; auto].
    destruct (refusedByMemberRule result) eqn:Er; [intros [= <- <-]; auto|].
    destruct (deliver now ended requestID (pe_ch p) result s) as [b s1] eqn:Edl.
    pose proof (deliver_spec _ _ _ _ _ _ _ _ Edl) as [[-> ->]|(-> & _)]; intros [= <- <-]; [auto|]. right. exists result. split; [|done].
    exists payload, raw. split_and!; [done..|]. by rewrite Ev.
Qed.

(** ** Requests and messages in flight

    A page is registered, waits, receives a result from its channel or settles,
    and is released; a message is looked up, then answered. The configuration
    keeps, by channel, the pages in progress with what each has received and
    how each other page ended, the messages between look-up and answer, and
    every hand-over. *)
Inductive ending := Settled | Released | Abandoned.

Record xconf := MkX {
  x_state : clientState; x_replay : replayState;
  x_pages : gmap nat (exportRequest * option exportResult);
  x_ended : gmap nat (exportRequest * option exportResult * ending);
  x_looked : list (string * pendingExport * string);
  x_handed : list (nat * exportRequest * exportResult) }.

Inductive xstep : xconf → xconf → Prop :=
| x_register deadline req ch s' c :
    register deadline req (x_state c) = (Ok ch, s') →
    xstep c (MkX s' (x_replay c) (<[ch := (req, None)]> (x_pages c)) (x_ended c) (x_looked c) (x_handed c))
| x_look topic payload requestID p c :
    lookupPending topic (x_state c) = Some (requestID, p) →
    xstep c (MkX (x_state c) (x_replay c) (x_pages c) (x_ended c) ((requestID, p, payload) :: x_looked c) (x_handed c))
| x_dropped t now ended l1 requestID p payload l2 rs' c :
    x_looked c = l1 ++ (requestID, p, payload) :: l2 →
    answerPending t now ended requestID p payload (x_replay c) (x_state c) = (rs', x_state c) →
    xstep c (MkX (x_state c) rs' (x_pages c) (x_ended c) (l1 ++ l2) (x_handed c))
| x_answered t now ended l1 requestID p payload l2 result rs' s' c :
    x_looked c = l1 ++ (requestID, p, payload) :: l2 →
    answerPending t now ended requestID p payload (x_replay c) (x_state c) = (rs', s') →
    vouched (pe_req p) result → deliver now ended requestID (pe_ch p) result (x_state c) = (true, s') →
    xstep c (MkX s' rs' (x_pages c) (x_ended c) (l1 ++ l2) ((pe_ch p, pe_req p, result) :: x_handed c))
| x_receive ch req r s' c :
    x_pages c !! ch = Some (req, None) → receive ch (x_state c) = (Some r, s') →
    xstep c (MkX s' (x_replay c) (<[ch := (req, Some r)]> (x_pages c)) (x_ended c) (x_looked c) (x_handed c))
| x_settle ch req r s' c :
    x_pages c !! ch = Some (req, None) → settle (xq_RequestID req) ch (x_state c) = (r, s') →
    xstep c (MkX s' (x_replay c) (delete ch (x_pages c)) (<[ch := (req, r, Settled)]> (x_ended c)) (x_looked c) (x_handed c))
| x_release ch req r c :
    x_pages c !! ch = Some (req, Some r) →
    xstep c (MkX (removePending (xq_RequestID req) (x_state c)) (x_replay c) (delete ch (x_pages c))
               (<[ch := (req, Some r, Released)]> (x_ended c)) (x_looked c) (x_handed c))
| x_abandon ch req c :
    x_pages c !! ch = Some (req, None) →
    xstep c (MkX (removePending (xq_RequestID req) (x_state c)) (x_replay c) (delete ch (x_pages c))
               (<[ch := (req, None, Abandoned)]> (x_ended c)) (x_looked c) (x_handed c)).

(** Every answer is one of the two steps for it. *)
Lemma answer_steps t now ended l1 requestID p payload l2 rs' s' c :
  x_looked c = l1 ++ (requestID, p, payload) :: l2 →
  answerPending t now ended requestID p payload (x_replay c) (x_state c) = (rs', s') → ∃ c', xstep c c' ∧ x_state c' = s' ∧ x_replay c' = rs'.
Proof.
  intros Hl Ha. destruct (answerPending_spec _ _ _ _ _ _ _ _ _ _ Ha) as [[-> _]|(result & Hv & Hd)].
  - eexists. split; [by eapply x_dropped|done].
  - eexists. split; [by eapply x_answered|done].
Qed.

Record xinv (c : xconf) : Prop := {
  xi_apart : ∀ ch e, x_ended c !! ch = Some e → x_pages c !! ch = None;
  xi_old : ∀ ch, is_Some (x_pages c !! ch) ∨ is_Some (x_ended c !! ch) → (ch < cs_nextCh (x_state c))%nat;
  xi_pages : ∀ ch req g, x_pages c !! ch = Some (req, g) → ∃ d, cs_pending (x_state c) !! xq_RequestID req = Some (MkPending ch req d);
  xi_pending : ∀ id p, cs_pending (x_state c) !! id = Some p → xq_RequestID (pe_req p) = id ∧ ∃ g, x_pages c !! pe_ch p = Some (pe_req p, g);
  xi_looked : ∀ id p payload, (id, p, payload) ∈ x_looked c →
    (pe_ch p < cs_nextCh (x_state c))%nat ∧ ∀ req g, x_pages c !! pe_ch p = Some (req, g) → req = pe_req p;
  xi_handed : ∀ ch req r, (ch, req, r) ∈ x_handed c →
    vouched req r ∧ ((∃ g, x_pages c !! ch = Some (req, g)) ∨ ∃ o e, x_ended c !! ch = Some (req, o, e));
  xi_buffer : ∀ ch r, cs_buffer (x_state c) !! ch = Some r → ∃ req, (ch, req, r) ∈ x_handed c;
  xi_waiting : ∀ ch req req' r, x_pages c !! ch = Some (req, None) → (ch, req', r) ∈ x_handed c → cs_buffer (x_state c) !! ch = Some r;
  xi_got : ∀ ch req r, x_pages c !! ch = Some (req, Some r) → (ch, req, r) ∈ x_handed c;
  xi_ended : ∀ ch req r e, x_ended c !! ch = Some (req, Some r, e) → (ch, req, r) ∈ x_handed c;
  xi_settled : ∀ ch req req' r, x_ended c !! ch = Some (req, None, Settled) → (ch, req', r) ∉ x_handed c }.

Ltac xconf := cbn [x_state x_replay x_pages x_ended x_looked x_handed cs_pending cs_buffer cs_nextCh setPending setBuffer removePending] in *.

Lemma register_inv deadline req ch s' c :
  xinv c → register deadline req (x_state c) = (Ok ch, s') →
  xinv (MkX s' (x_replay c) (<[ch := (req, None)]> (x_pages c)) (x_ended c) (x_looked c) (x_handed c)).
Proof.
  intros [A O P Q L H B W G E S] Hr. unfold register in Hr. destruct (cs_pending (x_state c) !! xq_RequestID req) as [|] eqn:Ep; [done|].
  injection Hr as <- <-. set (ch := cs_nextCh (x_state c)).
  assert (x_pages c !! ch = None ∧ x_ended c !! ch = None) as [Hp He].
  { split; apply eq_None_not_Some; intros Hs; specialize (O ch ltac:(auto)); unfold ch in O; lia. }
  assert (∀ ch' req' r, (ch', req', r) ∈ x_handed c → ch' ≠ ch) as Hh.
  { intros ch' req' r [_ [[g Hx]|(o & e & Hx)]]%H ->; congruence. }
  split; xconf.
  - intros ch' e Hx. rewrite lookup_insert_ne by congruence. by eapply A.
  - intros ch' [Hx|Hx]; [|specialize (O ch' (or_intror Hx)); lia]. apply lookup_insert_is_Some in Hx as [<-|[_ Hx]]; [unfold ch; lia|].
    specialize (O ch' (or_introl Hx)). lia.
  - intros ch' req' g [[<- [= <- <-]]|[Hne Hx]]%lookup_insert_Some; [rewrite lookup_insert_eq; eauto|].
    destruct (P _ _ _ Hx) as [d Hd]. exists d. rewrite lookup_insert_ne by congruence. done.
  - intros id p [[<- <-]|[Hne Hx]]%lookup_insert_Some; [split; [done|]; exists None; by rewrite lookup_insert_eq|].
    destruct (Q _ _ Hx) as [Hid [g Hg]]. split; [done|]. exists g. rewrite lookup_insert_ne by congruence. done.
  - intros id p payload Hx. destruct (L _ _ _ Hx) as [Hlt Hr]. split; [lia|]. intros req' g. rewrite lookup_insert_ne by (unfold ch; lia). apply Hr.
  - intros ch' req' r Hx. pose proof (Hh _ _ _ Hx). destruct (H _ _ _ Hx) as [Hv [[g Hg]|Ho]]; (split; [done|]); [left; exists g|by right].
    by rewrite lookup_insert_ne.
  - done.
  - intros ch' req' req'' r Hx Hy. rewrite lookup_insert_ne in Hx by (apply not_eq_sym; by eapply Hh). by eapply W.
  - intros ch' req' r [[_ [=]]|[_ Hx]]%lookup_insert_Some. by apply G.
  - done.
  - done.
Qed.

Lemma end_page_inv ch req g s' o e c :
  xinv c → x_pages c !! ch = Some (req, g) →
  cs_pending s' = delete (xq_RequestID req) (cs_pending (x_state c)) → cs_nextCh s' = cs_nextCh (x_state c) →
  (∀ ch', ch' ≠ ch → cs_buffer s' !! ch' = cs_buffer (x_state c) !! ch') → (∀ r, cs_buffer s' !! ch = Some r → cs_buffer (x_state c) !! ch = Some r) →
  (∀ r, o = Some r → (ch, req, r) ∈ x_handed c) → (o = None → e = Settled → ∀ req' r, (ch, req', r) ∉ x_handed c) →
  xinv (MkX s' (x_replay c) (delete ch (x_pages c)) (<[ch := (req, o, e)]> (x_ended c)) (x_looked c) (x_handed c)).
Proof.
  intros [A O P Q L H B W G E S] Hp Ep En Eb Eb' Ho Hn.
  split; xconf; rewrite ?Ep, ?En.
  - intros ch' x [[<- _]|[Hne Hx]]%lookup_insert_Some; [by rewrite lookup_delete_eq|]. rewrite lookup_delete_ne by done. by eapply A.
  - intros ch' Hx. apply O. destruct Hx as [Hx|Hx]; [apply lookup_delete_is_Some in Hx as [_ Hx]; auto|].
    apply lookup_insert_is_Some in Hx as [<-|[_ Hx]]; [left; by eexists|auto].
  - intros ch' req' g' [Hne Hx]%lookup_delete_Some. destruct (P _ _ _ Hx) as [d Hd]. exists d.
    rewrite lookup_delete_ne; [done|]. intros Ei. destruct (P _ _ _ Hp) as [d' Hd']. rewrite Ei in Hd'. congruence.
  - intros id p [Hne Hx]%lookup_delete_Some. destruct (Q _ _ Hx) as [Hid [g' Hg]]. split; [done|]. exists g'.
    rewrite lookup_delete_ne; [done|]. intros Ei. rewrite <-Ei in Hg. congruence.
  - intros id p payload Hx. destruct (L _ _ _ Hx) as [Hlt Hr]. split; [done|]. intros req' g' [_ Hy]%lookup_delete_Some. by eapply Hr.
  - intros ch' req' r Hx. destruct (H _ _ _ Hx) as [Hv Hc]. split; [done|]. destruct (decide (ch' = ch)) as [->|Hne].
    + right. exists o, e. rewrite lookup_insert_eq. destruct Hc as [[g' Hg]|(o' & e' & Hy)]; [congruence|]. apply A in Hy. congruence.
    + rewrite lookup_delete_ne, lookup_insert_ne by done. done.
  - intros ch' r Hx. apply B. destruct (decide (ch' = ch)) as [->|Hne]; [by apply Eb'|]. by rewrite <-Eb.
  - intros ch' req' req'' r [Hne Hx]%lookup_delete_Some Hy. rewrite Eb by done. by eapply W.
  - intros ch' req' r [Hne Hx]%lookup_delete_Some. by apply G.
  - intros ch' req' r e' [[<- [= <- -> <-]]|[Hne Hx]]%lookup_insert_Some; [by apply Ho|by eapply E].
  - intros ch' req' req'' r [[<- [= <- -> ->]]|[Hne Hx]]%lookup_insert_Some; [by apply Hn|by eapply S].
Qed.

Lemma receive_inv ch req r s' c :
  xinv c → x_pages c !! ch = Some (req, None) → receive ch (x_state c) = (Some r, s') →
  xinv (MkX s' (x_replay c) (<[ch := (req, Some r)]> (x_pages c)) (x_ended c) (x_looked c) (x_handed c)).
Proof.
  intros [A O P Q L H B W G E S] Hp Hr. unfold receive in Hr. destruct (cs_buffer (x_state c) !! ch) as [r'|] eqn:Eb; [|done].
  injection Hr as -> <-.
  assert (∀ ch' x, <[ch := (req, Some r)]> (x_pages c) !! ch' = Some x → ∃ g, x_pages c !! ch' = Some (x.1, g)) as Hl.
  { intros ch' x [[<- <-]|[_ Hx]]%lookup_insert_Some; [by exists None|]. exists x.2. by destruct x. }
  assert (∀ ch' req' g, x_pages c !! ch' = Some (req', g) → ∃ g', <[ch := (req, Some r)]> (x_pages c) !! ch' = Some (req', g')) as Hl'.
  { intros ch' req' g Hx. destruct (decide (ch' = ch)) as [->|]; [|rewrite lookup_insert_ne by done; eauto].
    assert (req' = req) as -> by congruence. rewrite lookup_insert_eq. eauto. }
  split; xconf.
  - intros ch' e Hx. destruct (decide (ch' = ch)) as [->|]; [|rewrite lookup_insert_ne by done; by eapply A].
    apply A in Hx. congruence.
  - intros ch' [[x Hx]|Hx]; [|auto]. destruct (Hl _ _ Hx) as [g Hg]. apply O. left. by eexists.
  - intros ch' req' g Hx. destruct (Hl _ _ Hx) as [g' Hg]. by eapply P.
  - intros id p Hx. destruct (Q _ _ Hx) as [Hid [g Hg]]. split; [done|]. by eapply Hl'.
  - intros id p payload Hx. destruct (L _ _ _ Hx) as [Hlt Hreq]. split; [done|]. intros req' g Hy. destruct (Hl _ _ Hy) as [g' Hg]. by eapply Hreq.
  - intros ch' req' r' Hx. destruct (H _ _ _ Hx) as [Hv [[g Hg]|Ho]]; (split; [done|]); [left; by eapply Hl'|by right].
  - intros ch' r' [_ Hx]%lookup_delete_Some. by apply B.
  - intros ch' req' req'' r' [[_ [=]]|[Hne Hx]]%lookup_insert_Some Hy. rewrite lookup_delete_ne by done. by eapply W.
  - intros ch' req' r' [[<- [= <- <-]]|[Hne Hx]]%lookup_insert_Some; [|by apply G]. destruct (B _ _ Eb) as [req' Hh].
    destruct (H _ _ _ Hh) as [_ [[g Hg]|(o & e & Hy)]]; [|apply A in Hy; congruence]. congruence.
  - done.
  - done.
Qed.

Lemma answered_inv t now ended l1 requestID p payload l2 result rs' s' c :
  xinv c → x_looked c = l1 ++ (requestID, p, payload) :: l2 → vouched (pe_req p) result →
  deliver now ended requestID (pe_ch p) result (x_state c) = (true, s') →
  answerPending t now ended requestID p payload (x_replay c) (x_state c) = (rs', s') →
  xinv (MkX s' rs' (x_pages c) (x_ended c) (l1 ++ l2) ((pe_ch p, pe_req p, result) :: x_handed c)).
Proof.
  intros [A O P Q L H B W G E S] El Hv Hd _. destruct (deliver_spec _ _ _ _ _ _ _ _ Hd) as [[? _]|(_ & Eb & -> & p' & Ep & Ec & _)]; [done|].
  assert (∃ g, x_pages c !! pe_ch p = Some (pe_req p, g)) as [g Hg].
  { destruct (Q _ _ Ep) as [_ [g Hg]]. rewrite Ec in Hg. destruct (L requestID p payload) as [_ Hreq]; [rewrite El; apply elem_of_app; right; left|].
    exists g. rewrite Hg. by rewrite (Hreq _ _ Hg). }
  split; xconf; try done.
  - intros id q pl Hx. apply (L id q pl). rewrite El. by apply DispatcherSpec.mid_elem.
  - intros ch req r [[= -> -> ->]|Hx]%elem_of_cons; [|by apply H]. split; [done|]. left. eauto.
  - intros ch r [[<- <-]|[Hne Hx]]%lookup_insert_Some; [eexists; left|]. destruct (B _ _ Hx) as [req Hr]. exists req. by right.
  - intros ch req req' r Hx [[= -> -> ->]|Hy]%elem_of_cons; [by rewrite lookup_insert_eq|].
    pose proof (W _ _ _ _ Hx Hy) as Hb. rewrite lookup_insert_ne by congruence. done.
  - intros ch req r Hx. right. by apply G.
  - intros ch req r e Hx. right. by eapply E.
  - intros ch req req' r Hx [[= -> -> ->]|Hy]%elem_of_cons; [apply A in Hx; congruence|]. by eapply S.
Qed.

Lemma xstep_inv c c' : xstep c c' → xinv c → xinv c'.
Proof.
  intros Hs Hi. destruct Hs as [deadline req ch s' c Hr|topic payload requestID p c Hl|t now ended l1 requestID p payload l2 rs' c El Ha
    |t now ended l1 requestID p payload l2 result rs' s' c El Ha Hv Hd|ch req r s' c Hp Hr|ch req r s' c Hp Hr|ch req r c Hp|ch req c Hp].
  - by eapply register_inv.
  - unfold lookupPending in Hl. destruct (exportResponseTopicRouting topic) as [[dev rid]|]; [|done].
    destruct (cs_pending (x_state c) !! rid) as [q|] eqn:Ep; [|done]. case_bool_decide as Edev; [|done]. injection Hl as -> ->.
    destruct Hi as [A O P Q L H B W G E S]. split; xconf; try done. intros id q pl [[= -> -> ->]|Hx]%elem_of_cons; [|by eapply L].
    destruct (Q _ _ Ep) as [_ [g Hg]]. split; [apply O; left; by eexists|]. intros req g' Hx. congruence.
  - destruct Hi as [A O P Q L H B W G E S]. split; xconf; try done.
    intros id q pl Hx. apply (L id q pl). rewrite El. by apply DispatcherSpec.mid_elem.
  - by eapply answered_inv.
  - by eapply receive_inv.
  - unfold settle, receive in Hr. xconf. pose proof (xi_waiting _ Hi ch req) as W. pose proof (xi_buffer _ Hi ch) as B.
    destruct (cs_buffer (x_state c) !! ch) as [r'|] eqn:Eb; injection Hr as <- <-; (eapply end_page_inv; [done|exact Hp|done|done|..]; xconf).
    + intros ch' Hne. by rewrite lookup_delete_ne.
    + intros r. by rewrite lookup_delete_eq.
    + intros r [= <-]. destruct (B _ eq_refl) as [req' Hh]. destruct (xi_handed _ Hi _ _ _ Hh) as [_ [[g Hg]|(o & e & Hy)]]; [congruence|].
      apply (xi_apart _ Hi) in Hy. congruence.
    + done.
    + done.
    + intros r. congruence.
    + done.
    + intros _ _ req' r Hh. specialize (W _ _ Hp Hh). congruence.
  - eapply end_page_inv; [done|exact Hp|done|done|done|done| |done]. intros r' [= <-]. by apply (xi_got _ Hi).
  - eapply end_page_inv; done.
Qed.

Lemma xsteps_inv c c' : rtc xstep c c' → xinv c → xinv c'.
Proof. induction 1; eauto using xstep_inv. Qed.

Definition xinit (rs : replayState) : xconf := MkX newState rs ∅ ∅ [] [].

Lemma xinit_inv rs : xinv (xinit rs).
Proof. split; xconf; try (intros *; rewrite ?lookup_empty); try done; [by intros [[? ?]|[? ?]]|intros; set_solver..]. Qed.


(** A response to a pending request is either handed over, which takes a
    result vouched for that request, while the request is pending on the same
    channel, the wait is neither over nor past its deadline and the channel is
    empty, or it changes nothing: the client is as before and the replay
    record holds no new key. *)
Theorem response_handed_or_forgotten t now ended requestID p payload rs s rs' s' :
  answerPending t now ended requestID p payload rs s = (rs', s') →
  (s' = s ∧ (rs' = rs ∨ rs' = prune t rs)) ∨
  (∃ result p', vouched (pe_req p) result ∧ cs_pending s !! requestID = Some p' ∧ pe_ch p' = pe_ch p ∧ ended = false ∧ now < pe_deadline p' ∧
     cs_buffer s !! pe_ch p = None ∧ s' = setBuffer (<[pe_ch p := result]> (cs_buffer s)) s).
Proof.
  intros [?|(result & Hv & Hd)]%answerPending_spec; [by left|right].
  destruct (deliver_spec _ _ _ _ _ _ _ _ Hd) as [[? _]|(_ & Eb & -> & p' & Ep & Ec & Ee & Hlt)]; [done|].
  exists result, p'. by split_and!.
Qed.
End HandOver.

(** A page's answer is the request's own: what a page returns has the
    request's id and, where it names them, its device and export type; a
    result with none of this, an error or no result at all is an error. *)
Theorem page_outcome_matches req received why resp :
  pageOutcome req received why = Ok resp →
  received = Some (Ok resp) ∧ xr_RequestID resp = xq_RequestID req ∧
  (xr_DeviceID resp = "" ∨ xr_DeviceID resp = xq_DeviceID req) ∧ (xr_ExportType resp = "" ∨ xr_ExportType resp = xq_ExportType req).
Proof.
  unfold pageOutcome, acceptResponse. destruct received as [[r|e]|]; [|done..].
  destruct (bool_decide_reflect (xr_RequestID r = xq_RequestID req)); [|done]. cbn [negb].
  destruct (negb (bool_decide (xr_DeviceID r = "")) && _) eqn:Ed; [done|]. destruct (negb (bool_decide (xr_ExportType r = "")) && _) eqn:Et; [done|].
  intros [= <-]. apply andb_false_iff in Ed, Et. rewrite !negb_false_iff, !bool_decide_eq_true in Ed, Et. split_and!; done || tauto.
Qed.

(** ** Runs *)
Definition plainClient : Client := MkClient defaultExportWait "" None None.
Definition sampleExport : exportRequest := MkExport "r1" exportTypeHealth "d1" 0 0 0 "" [].
Definition samplePage : string :=
  dq "{'request_id':'r1','export_type':'health','device_id':'d1','items':[{'status':'ok'}],'next_page_token':'','complete':true,'error':''}".
Definition sampleTopic : string := "ori/d1/export/response/r1".
Definition sampleResult : exportResult :=
  match decodeMap samplePage with
  | Some m => default (Err ErrExportTimeout) (decodeResponsePayload (λ _ _, None) (λ _ _ _, None) DispatcherSpec.sampleMarshal (λ _ _ _ _, None) plainClient m sampleExport)
  | None => Err ErrExportTimeout
  end.

Notation plainStep := (xstep (λ _, true) (λ _ _, None) (λ _ _ _, None) DispatcherSpec.sampleMarshal (λ _ _ _ _, None) plainClient).
Notation plainVouched := (vouched (λ _, true) (λ _ _, None) (λ _ _ _, None) DispatcherSpec.sampleMarshal (λ _ _ _ _, None) plainClient).

Lemma sample_vouched : plainVouched sampleExport sampleResult.
Proof. exists samplePage, (default ∅ (decodeMap samplePage)). split; [vm_compute; reflexivity|]. split; vm_compute; reflexivity. Qed.

Definition samplePending : pendingExport := MkPending 0 sampleExport 1000.
Definition sampleState (b : gmap nat exportResult) : clientState := MkState {["r1" := samplePending]} b 1 ∅ ∅.

Lemma sample_answered rs l1 l2 pages ended handed :
  plainStep (MkX (sampleState ∅) rs pages ended (l1 ++ ("r1", samplePending, samplePage) :: l2) handed)
    (MkX (sampleState {[0%nat := sampleResult]}) rs pages ended (l1 ++ l2) ((0%nat, sampleExport, sampleResult) :: handed)).
Proof.
  eapply (x_answered _ _ _ _ _ _ 10 10 false l1 "r1" samplePending samplePage l2 sampleResult rs); [reflexivity| |exact sample_vouched|].
  - vm_compute. reflexivity.
  - vm_compute. reflexivity.
Qed.

Definition sampleReplay : replayState := DispatcherSpec.sampleReplay.

(** Registered, two responses looked up, the first one handed over. *)
Definition runHanded : xconf :=
  MkX (sampleState {[0%nat := sampleResult]}) sampleReplay {[0%nat := (sampleExport, None)]} ∅ [("r1", samplePending, samplePage)]
    [(0%nat, sampleExport, sampleResult)].

Lemma run_handed : rtc plainStep (xinit sampleReplay) runHanded.
Proof.
  eapply rtc_l; [eapply (x_register _ _ _ _ _ _ 1000 sampleExport 0%nat (sampleState ∅)); reflexivity|].
  eapply rtc_l; [eapply (x_look _ _ _ _ _ _ sampleTopic samplePage "r1" samplePending); vm_compute; reflexivity|].
  eapply rtc_l; [eapply (x_look _ _ _ _ _ _ sampleTopic samplePage "r1" samplePending); vm_compute; reflexivity|].
  eapply rtc_l; [exact (sample_answered sampleReplay [] [("r1", samplePending, samplePage)] {[0%nat := (sampleExport, None)]} ∅ [])|].
  apply rtc_refl.
Qed.

(** The page settles and takes what was handed to it. *)
Definition runSettled : xconf :=
  MkX (MkState ∅ ∅ 1 ∅ ∅) sampleReplay ∅ {[0%nat := (sampleExport, Some sampleResult, Settled)]} [("r1", samplePending, samplePage)]
    [(0%nat, sampleExport, sampleResult)].

Lemma run_settled : rtc plainStep (xinit sampleReplay) runSettled.
Proof.
  eapply rtc_r; [exact run_handed|]. unfold runHanded, runSettled.
  eapply (x_settle _ _ _ _ _ _ 0%nat sampleExport (Some sampleResult) (MkState ∅ ∅ 1 ∅ ∅)); vm_compute; reflexivity.
Qed.


(** Between a page taking its response from the channel and its release, the
    request is answered and still pending: a second response is handed over,
    and is never read. *)
Lemma second_response_after_receipt :
  ∃ c, rtc plainStep (xinit sampleReplay) c ∧ x_pages c !! 0%nat = Some (sampleExport, Some sampleResult) ∧
    x_handed c = [(0%nat, sampleExport, sampleResult); (0%nat, sampleExport, sampleResult)].
Proof.
  eexists. split; [|shelve]. eapply rtc_r; [eapply rtc_r; [exact run_handed|]|].
  - eapply (x_receive _ _ _ _ _ _ 0%nat sampleExport sampleResult (sampleState ∅)); vm_compute; reflexivity.
  - exact (sample_answered sampleReplay [] [] {[0%nat := (sampleExport, Some sampleResult)]} ∅ [(0%nat, sampleExport, sampleResult)]).
  Unshelve. split; reflexivity.
Qed.

Lemma response_handed_or_forgotten_witness :
  ∃ rs' s', answerPending (λ _, true) (λ _ _, None) (λ _ _ _, None) DispatcherSpec.sampleMarshal (λ _ _ _ _, None) plainClient 10 10 false "r1"
      samplePending samplePage sampleReplay (sampleState ∅) = (rs', s') ∧
    ((s' = sampleState ∅ ∧ (rs' = sampleReplay ∨ rs' = prune 10 sampleReplay)) ∨ s' = sampleState {[0%nat := sampleResult]}).
Proof.
  destruct (answerPending (λ _, true) (λ _ _, None) (λ _ _ _, None) DispatcherSpec.sampleMarshal (λ _ _ _ _, None) plainClient 10 10 false "r1"
      samplePending samplePage sampleReplay (sampleState ∅)) as [rs' s'] eqn:E. exists rs', s'. split; [reflexivity|].
  destruct (response_handed_or_forgotten _ _ _ _ _ _ _ _ _ _ _ _ _ _ _ _ E) as [H|_]; [left; exact H|right].
  assert (s' = (answerPending (λ _, true) (λ _ _, None) (λ _ _ _, None) DispatcherSpec.sampleMarshal (λ _ _ _ _, None) plainClient 10 10 false "r1"
      samplePending samplePage sampleReplay (sampleState ∅)).2) as -> by (rewrite E; reflexivity).
  vm_compute. reflexivity.
Defined.

Lemma page_outcome_matches_witness :
  ∃ resp, pageOutcome sampleExport (Some sampleResult) ErrExportTimeout = Ok resp ∧ xr_RequestID resp = "r1".
Proof.
  eexists. split; [vm_compute; reflexivity|].
  eapply (page_outcome_matches sampleExport (Some sampleResult) ErrExportTimeout). vm_compute. reflexivity.
Defined.

(** A device that answers each page in one of two ways. *)
Definition sampleDevice (req : exportRequest) : EM unit exportResponse := λ _,
  (Ok (if bool_decide (xq_PageToken req = "") then MkExported "" "" "" [∅] "t1" false "" else MkExported "" "" "" [∅; ∅] "" true ""), tt).

Lemma export_is_complete_witness :
  ∃ ps last, chain ∅ ps last ∧ [∅; ∅; ∅] = concat (xr_Items <$> ps ++ [last]).
Proof.
  destruct (export_is_complete sampleDevice (λ s, (Ok tt, s)) sampleExport tt [∅; ∅; ∅] tt) as (s0 & u & ps & last & _ & _ & _ & Hc & Hi & _).
  { vm_compute. reflexivity. }
  exists ps, last. split; [exact Hc|exact Hi].
Defined.

Lemma export_requests_bounded_witness :
  (exportAll (counted sampleDevice) (λ s, (Ok tt, s)) sampleExport (0%nat, tt)).2.1 = 2%nat ∧ (2 ≤ 0 + maxExportPages)%nat.
Proof.
  split; [vm_compute; reflexivity|].
  eapply (export_requests_bounded sampleDevice (λ s, (Ok tt, s)) sampleExport 0%nat tt (Ok [∅; ∅; ∅]) 2%nat tt).
  - intros k s r k1 s1 E. injection E as _ -> _. reflexivity.
  - vm_compute. reflexivity.
Defined.
End RuntimeClientSpec.
