(* ===== verification/Session.v ===== *)
(** * Request sessions (session/session.go)

    A session counts the attempts of one request under a retry policy; the
    registry correlates a response with the session of its request id, once,
    and evicts the sessions whose time is over. *)
From S2P Require Import Prelude GoBytes Json Float64 Contracts Heap Replay MqttAuth Requests.
Import Requests.

Module Session.

Record RetryPolicy := MkPolicy { pl_TimeoutMS : Z; pl_MaxRetries : Z }.

Definition TotalAttempts (p : RetryPolicy) : Z := wrap64 (pl_MaxRetries p + 1).

Record Session := MkSession { ss_Request : ReasoningRequest; ss_Policy : RetryPolicy; ss_Started : Z; ss_Attempts : Z }.

Definition New (req : ReasoningRequest) (policy : RetryPolicy) (nowMS : Z) : Session := MkSession req policy nowMS 0.

Definition IsCorrelated (s : Session) (resp : ReasoningResponse) : bool := bool_decide (rq_RequestID (ss_Request s) = rp_RequestID resp).

Definition IsTimedOut (s : Session) (nowMS : Z) : bool :=
  (0 <? pl_TimeoutMS (ss_Policy s)) && (pl_TimeoutMS (ss_Policy s) <=? wrap64 (nowMS - ss_Started s)).

Definition AttemptsRemaining (s : Session) : Z :=
  let remaining := wrap64 (TotalAttempts (ss_Policy s) - ss_Attempts s) in if remaining <? 0 then 0 else remaining.

Definition NextAttempt (nowMS : Z) (s : Session) : option ReasoningRequest * Session :=
  if AttemptsRemaining s =? 0 then (None, s)
  else (Some (ss_Request s), MkSession (ss_Request s) (ss_Policy s) nowMS (wrap64 (ss_Attempts s + 1))).

(** ** The registry *)
Notation Registry := (gmap string Session).
Definition NewRegistry : Registry := ∅.

Definition Register (s : Session) (r : Registry) : Registry := <[rq_RequestID (ss_Request s) := s]> r.

Definition Correlate (resp : ReasoningResponse) (r : Registry) : option Session * Registry :=
  match r !! rp_RequestID resp with
  | Some s => (Some s, delete (rp_RequestID resp) r)
  | None => (None, r)
  end.

(** The map is ranged over in the order [visit], which the runtime picks. *)
Definition EvictTimedOut (visit : list (string * Session)) (nowMS : Z) (r : Registry) : list Session * Registry :=
  foldl (λ acc p, if IsTimedOut p.2 nowMS then (acc.1 ++ [p.2], delete p.1 acc.2) else acc) ([], r) visit.

(** ** Attempts *)

(** [n] calls of [NextAttempt]: the requests handed out. *)
Fixpoint attempts (times : list Z) (s : Session) : list ReasoningRequest * Session :=
  match times with
  | [] => ([], s)
  | t :: times' =>
    let '(r, s1) := NextAttempt t s in
    let '(l, s2) := attempts times' s1 in (match r with Some q => q :: l | None => l end, s2)
  end.

Lemma remaining_spec s :
  0 ≤ pl_MaxRetries (ss_Policy s) < i64_max → 0 ≤ ss_Attempts s ≤ pl_MaxRetries (ss_Policy s) + 1 →
  AttemptsRemaining s = pl_MaxRetries (ss_Policy s) + 1 - ss_Attempts s.
Proof.
  intros Hm Ha. unfold AttemptsRemaining, TotalAttempts. rewrite (wrap64_id (_ + 1)) by (unfold in_i64, i64_min, i64_max in *; lia).
  rewrite wrap64_id by (unfold in_i64, i64_min, i64_max in *; lia). cbv zeta.
  destruct (Z.ltb_spec (pl_MaxRetries (ss_Policy s) + 1 - ss_Attempts s) 0); lia.
Qed.

Lemma attempts_spec times s :
  0 ≤ pl_MaxRetries (ss_Policy s) < i64_max → 0 ≤ ss_Attempts s ≤ pl_MaxRetries (ss_Policy s) + 1 →
  (attempts times s).1 = replicate (min (length times) (Z.to_nat (AttemptsRemaining s))) (ss_Request s).
Proof.
  revert s. induction times as [|t times IH]; intros s Hm Ha; [done|]. cbn [attempts]. unfold NextAttempt.
  pose proof (remaining_spec s Hm Ha) as Hr. destruct (Z.eqb_spec (AttemptsRemaining s) 0) as [E|E].
  - specialize (IH s Hm Ha). destruct (attempts times s) as [l s2]. cbn [fst] in *. rewrite IH, E. by rewrite !Nat.min_0_r.
  - set (s1 := MkSession _ _ _ _). specialize (IH s1 Hm).
    assert (ss_Attempts s1 = ss_Attempts s + 1) as E1 by (apply wrap64_id; unfold in_i64, i64_min, i64_max in *; lia).
    specialize (IH ltac:(rewrite E1; cbn; lia)). pose proof (remaining_spec s1 Hm ltac:(rewrite E1; cbn; lia)) as Hr1.
    destruct (attempts times s1) as [l s2]. cbn [fst] in *. rewrite IH, Hr1, Hr, E1. cbn [ss_Policy ss_Request s1 length].
    replace (Z.to_nat (pl_MaxRetries (ss_Policy s) + 1 - ss_Attempts s))
      with (S (Z.to_nat (pl_MaxRetries (ss_Policy s) + 1 - (ss_Attempts s + 1)))) by lia. done.
Qed.

(** ** Eviction *)
Lemma evict_fold nowMS (visit : list (string * Session)) (acc : list Session) (r : Registry) :
  NoDup (fst <$> visit) →
  foldl (λ acc p, if IsTimedOut p.2 nowMS then (acc.1 ++ [p.2], delete p.1 acc.2) else acc) (acc, r) visit =
  (acc ++ (snd <$> filter (λ p, IsTimedOut p.2 nowMS = true) visit),
   foldl (λ m p, delete p.1 m) r (filter (λ p, IsTimedOut p.2 nowMS = true) visit)).
Proof.
  revert acc r. induction visit as [|[k s] visit IH]; intros acc r Hn; [by rewrite app_nil_r|].
  apply NoDup_cons in Hn as [_ Hn]. cbn [foldl fst snd]. rewrite filter_cons. cbn [snd]. destruct (IsTimedOut s nowMS) eqn:E.
  - rewrite IH by done. rewrite decide_True by done. cbn. by rewrite <-app_assoc.
  - rewrite IH by done. by rewrite decide_False.
Qed.

Lemma foldl_delete_lookup {A} (l : list (string * A)) (m : gmap string A) k :
  foldl (λ m p, delete p.1 m) m l !! k = if decide (k ∈ fst <$> l) then None else m !! k.
Proof.
  revert m. induction l as [|[k' v] l IH]; intros m; [done|]. cbn [foldl fst]. rewrite IH, fmap_cons. cbn [fst].
  destruct (decide (k ∈ fst <$> l)), (decide (k ∈ k' :: (fst <$> l))) as [H|H]; try set_solver.
  - apply elem_of_cons in H as [->|]; [by rewrite lookup_delete_eq|done].
  - rewrite lookup_delete_ne; [done|]. intros ->. apply H. left.
Qed.

(** A session hands out its request as often as its policy allows and no
    more; a response takes the session of its request id and a second response
    finds none; an eviction removes exactly the sessions whose time is over,
    whatever the order in which they are visited. *)
Theorem sessions_are_bounded req policy now times r resp visit t :
  0 ≤ pl_MaxRetries policy < i64_max → visit ≡ₚ map_to_list r →
  (attempts times (New req policy now)).1 = replicate (min (length times) (Z.to_nat (pl_MaxRetries policy + 1))) req ∧
  (Correlate resp r).1 = r !! rp_RequestID resp ∧ (Correlate resp (Correlate resp r).2).1 = None ∧
  (EvictTimedOut visit t r).1 ≡ₚ snd <$> filter (λ p, IsTimedOut p.2 t = true) (map_to_list r) ∧
  ∀ k, (EvictTimedOut visit t r).2 !! k = match r !! k with Some s => if IsTimedOut s t then None else Some s | None => None end.
Proof.
  intros Hm Hv. split_and!.
  - rewrite attempts_spec by (cbn; lia). rewrite remaining_spec by (cbn; lia). cbn. do 3 f_equal. lia.
  - unfold Correlate. by destruct (r !! rp_RequestID resp).
  - unfold Correlate. destruct (r !! rp_RequestID resp) eqn:E; cbn; [by rewrite lookup_delete_eq|by rewrite E].
  - unfold EvictTimedOut. rewrite evict_fold by (rewrite Hv; apply NoDup_fst_map_to_list). cbn. by rewrite Hv.
  - intros k. unfold EvictTimedOut. rewrite evict_fold by (rewrite Hv; apply NoDup_fst_map_to_list). cbn. rewrite foldl_delete_lookup.
    assert (k ∈ fst <$> filter (λ p, IsTimedOut p.2 t = true) visit ↔ ∃ s, r !! k = Some s ∧ IsTimedOut s t = true) as Hk.
    { rewrite list_elem_of_fmap. split.
      - intros ([k' s] & -> & [Ht Hx]%list_elem_of_filter). exists s. split; [|done]. apply elem_of_map_to_list. by rewrite <-Hv.
      - intros (s & Hs & Ht). exists (k, s). split; [done|]. apply list_elem_of_filter. split; [done|]. rewrite Hv. by apply elem_of_map_to_list. }
    case_decide as Hd; rewrite Hk in Hd.
    + destruct Hd as (s & -> & ->). done.
    + destruct (r !! k) as [s|] eqn:E; [|done]. destruct (IsTimedOut s t) eqn:Et; [|done]. destruct Hd. eauto.
Qed.

Lemma sessions_are_bounded_witness :
  (attempts [1; 2; 3; 4] (New zeroRequest (MkPolicy 10 2) 0)).1 = [zeroRequest; zeroRequest; zeroRequest].
Proof. apply (sessions_are_bounded zeroRequest (MkPolicy 10 2) 0 [1; 2; 3; 4] ∅ (NewErrorResponse "" "" "" "") [] 0); [split; done|reflexivity]. Defined.
End Session.
