(* ===== verification/BrokerIngress.v ===== *)
(** * The broker's ingress (broker/ingress.go)

    Every subscription has a gate: a payload over its family's maximum is
    refused by its length alone, then the sending device's bucket of messages
    and bytes decides, then the member rule. Refusals are counted by family
    and logged at most once a second for each family and reason; what the
    clock, the timers and the log interleave is a step relation in
    [BrokerIngressSpec]. Times are nanoseconds of the monotonic clock. *)
From S2P Require Import Prelude GoBytes Json Float64 Contracts TokenBucket.

Module BrokerIngress.
Import Float64 Contracts.
Import TokenBucket (refill).

Definition RefusalPayloadTooLarge : string := "payload_too_large".
Definition RefusalVolumeDropped : string := "volume_dropped".
Definition refusalHeldLimit : string := "held_limit".
Definition ReasonMalformedJSON : string := "malformed_json".
Definition ingressLogInterval : Z := nanos.

(** ** Rates *)
Record IngressRate := MkRate { ir_PerSecond : float64; ir_Burst : Z; ir_BytesPerSecond : float64; ir_BurstBytes : Z }.

Definition IngressRates : gmap string IngressRate := list_to_map [
  (FamilyRuntimeHeartbeat, MkRate (ofInt 1) 5 (ofInt (Z.shiftl 128 10)) (Z.shiftl 256 10));
  (FamilyReasoningRequest, MkRate (ofInt 10) 20 (ofInt (Z.shiftl 512 10)) (Z.shiftl 1 20));
  (FamilyEnrichmentRequest, MkRate (ofInt 2) 10 (ofInt (Z.shiftl 256 10)) (Z.shiftl 512 10));
  (FamilyExportResponse, MkRate (ofInt 20) 64 (ofInt (Z.shiftl 4 20)) (Z.shiftl 16 20));
  (FamilyEvidenceOutbound, MkRate (ofInt 20) 160 (ofInt (Z.shiftl 2 20)) (Z.shiftl 4 20));
  (FamilyEvidenceInboundAck, MkRate (ofInt 20) 64 (ofInt (Z.shiftl 64 10)) (Z.shiftl 256 10))].

Definition ErrNoPayloadMaximum : error := EMsg "broker: topic has no payload maximum".

Definition CheckSubscription (visit : list string) (topic : string) : res unit :=
  match PayloadFamily visit topic with
  | None => Err ErrNoPayloadMaximum
  | Some family => match IngressRates !! family with None => Err ErrNoPayloadMaximum | Some _ => Ok tt end
  end.

(** ** Counting and logging *)
Definition wrapU64 (x : Z) : Z := x mod 2 ^ 64.

Record IngressCount := MkCount { ic_PayloadTooLarge : Z; ic_VolumeDropped : Z }.

Definition ingressLogKey : Type := string * string.

(** [loggedAt] is [None] for the zero time. *)
Record ingressPending := MkPendingLog { ip_count : Z; ip_classes : gset Z; ip_loggedAt : option Z; ip_flushing : bool }.

Record IngressStats := MkStats { is_counts : gmap string IngressCount; is_unlogged : gmap ingressLogKey ingressPending }.

Definition NewIngressStats : IngressStats := MkStats ∅ ∅.

Definition Snapshot (s : IngressStats) : gmap string IngressCount := is_counts s.

Record ingressLine := MkLine { il_count : Z; il_classes : list Z }.

(** What [refuse] leaves to do once it has released the lock. *)
Inductive afterRefusal := NothingMore | StartTimer (wait : Z) | WriteLine (line : ingressLine).

Definition countRefusal (reason : string) (c : IngressCount) : IngressCount :=
  if decide (reason = RefusalPayloadTooLarge) then MkCount (wrapU64 (ic_PayloadTooLarge c + 1)) (ic_VolumeDropped c)
  else if decide (reason = RefusalVolumeDropped ∨ reason = refusalHeldLimit) then MkCount (ic_PayloadTooLarge c) (wrapU64 (ic_VolumeDropped c + 1))
  else c.

(** [takeLocked] at the time [now]. *)
Definition takeLocked (now : Z) (p : ingressPending) : ingressLine * ingressPending :=
  (MkLine (ip_count p) (merge_sort Z.le (elements (ip_classes p))), MkPendingLog 0 ∅ (Some now) (ip_flushing p)).

Definition setFlushing (b : bool) (p : ingressPending) : ingressPending := MkPendingLog (ip_count p) (ip_classes p) (ip_loggedAt p) b.

(** The time left until [loggedAt + ingressLogInterval]; the zero time is long
    past. *)
Definition logWait (now : Z) (p : ingressPending) : Z :=
  match ip_loggedAt p with None => i64_min | Some t => timeBetween (t + ingressLogInterval) now end.

Definition putPending (key : ingressLogKey) (p : ingressPending) (s : IngressStats) : IngressStats :=
  MkStats (is_counts s) (<[key := p]> (is_unlogged s)).

(** [refuse]; the clock is read once for the wait and again by [takeLocked]. *)
Definition refuse (family reason : string) (length now now' : Z) (s : IngressStats) : afterRefusal * IngressStats :=
  let count := countRefusal reason (default (MkCount 0 0) (is_counts s !! family)) in
  let key := (family, reason) in
  let p0 := default (MkPendingLog 0 ∅ None false) (is_unlogged s !! key) in
  let p := MkPendingLog (wrapU64 (ip_count p0 + 1))
             (if decide (reason = RefusalPayloadTooLarge) then {[SizeClass length]} ∪ ip_classes p0 else ip_classes p0)
             (ip_loggedAt p0) (ip_flushing p0) in
  let s1 := MkStats (<[family := count]> (is_counts s)) (<[key := p]> (is_unlogged s)) in
  if ip_flushing p then (NothingMore, s1)
  else
    let wait := logWait now p in
    if 0 <? wait then (StartTimer wait, putPending key (setFlushing true p) s1)
    else let '(line, p') := takeLocked now' p in (WriteLine line, putPending key p' s1).

Definition Drop (family : string) (length now now' : Z) (s : IngressStats) : afterRefusal * IngressStats :=
  refuse family refusalHeldLimit length now now' s.

(** [flush] when a timer fires; [None] where the code would dereference nil. *)
Definition flush (key : ingressLogKey) (now : Z) (s : IngressStats) : option (ingressLine * IngressStats) :=
  match is_unlogged s !! key with
  | None => None
  | Some p => let '(line, p') := takeLocked now (setFlushing false p) in Some (line, putPending key p' s)
  end.

(** The record a line is logged as. *)
Inductive ingressRecord :=
| OverMaximum (family : string) (refused : Z) (size_classes : list Z) (maximum : Z)
| OverRate (family : string) (dropped : Z)
| OverHeld (family : string) (dropped : Z)
| UnderMemberRule (family reason : string) (refused : Z).

Definition write (key : ingressLogKey) (line : ingressLine) : option ingressRecord :=
  let '(family, reason) := key in
  if il_count line =? 0 then None
  else if decide (reason = RefusalPayloadTooLarge) then Some (OverMaximum family (il_count line) (il_classes line) (default 0 (PayloadMaxima !! family)))
  else if decide (reason = RefusalVolumeDropped) then Some (OverRate family (il_count line))
  else if decide (reason = refusalHeldLimit) then Some (OverHeld family (il_count line))
  else Some (UnderMemberRule family reason (il_count line)).

(** ** The gate *)
Record ingressBucket := MkIngressBucket { ib_tokens : float64; ib_bytes : float64; ib_last : Z }.

Record ingressGate := MkGate {
  ig_family : string; ig_maximum : Z; ig_rate : IngressRate; ig_perDevice : bool;
  ig_buckets : gmap string ingressBucket; ig_overflow : ingressBucket }.

Definition newIngressBucket (rate : IngressRate) (now : Z) : ingressBucket :=
  MkIngressBucket (ofInt (ir_Burst rate)) (ofInt (ir_BurstBytes rate)) now.

(** The second segment of at least three. *)
Definition deviceSegment (topic : string) : string :=
  match split slash topic with _ :: segment :: _ :: _ => segment | _ => "" end.

Definition newIngressGate (visit : list string) (topic : string) (devices : list string) (start : Z) : res ingressGate :=
  match CheckSubscription visit topic with
  | Err e => Err e
  | Ok _ =>
    let family := default "" (PayloadFamily visit topic) in
    let rate := default (MkRate fzero 0 fzero 0) (IngressRates !! family) in
    let perDevice := bool_decide (deviceSegment topic = "+") in
    Ok (MkGate family (default 0 (PayloadMaxima !! family)) rate perDevice
      (if perDevice then foldr (λ device m, <[device := newIngressBucket rate start]> m) ∅ devices else ∅)
      (newIngressBucket rate start))
  end.

(** The bucket a topic draws on: its device's own, or the shared one. *)
Definition bucketKey (g : ingressGate) (topic : string) : option string :=
  if ig_perDevice g && bool_decide (is_Some (ig_buckets g !! deviceSegment topic)) then Some (deviceSegment topic) else None.

Definition bucketAt (g : ingressGate) (k : option string) : option ingressBucket :=
  match k with Some device => ig_buckets g !! device | None => Some (ig_overflow g) end.

Definition putBucket (k : option string) (b : ingressBucket) (g : ingressGate) : ingressGate :=
  match k with
  | Some device => MkGate (ig_family g) (ig_maximum g) (ig_rate g) (ig_perDevice g) (<[device := b]> (ig_buckets g)) (ig_overflow g)
  | None => MkGate (ig_family g) (ig_maximum g) (ig_rate g) (ig_perDevice g) (ig_buckets g) b
  end.

(** The refill, the decision and the charge, under the gate's lock. *)
Definition chargeBucket (rate : IngressRate) (length now : Z) (b : ingressBucket) : bool * ingressBucket :=
  let elapsed := timeBetween now (ib_last b) in
  let tokens := refill (ofInt (ir_Burst rate)) (ir_PerSecond rate) (ib_tokens b) elapsed in
  let bytes := refill (ofInt (ir_BurstBytes rate)) (ir_BytesPerSecond rate) (ib_bytes b) elapsed in
  if fleb (ofInt 1) tokens && fleb (ofInt length) bytes
  then (true, MkIngressBucket (fsub tokens (ofInt 1)) (fsub bytes (ofInt length)) now)
  else (false, MkIngressBucket tokens bytes now).

(** The gate's part of [admitVolume]: the reason of a refusal. *)
Definition judgeVolume (topic : string) (length now : Z) (g : ingressGate) : option string * ingressGate :=
  if ig_maximum g <? length then (Some RefusalPayloadTooLarge, g)
  else
    let k := bucketKey g topic in
    match bucketAt g k with
    | None => (None, g)
    | Some b => let '(admitted, b') := chargeBucket (ig_rate g) length now b in
                (if admitted then None else Some RefusalVolumeDropped, putBucket k b' g)
    end.

Section Admission.
Context (DecodeStrict : list string → string → option strictError).

(** The gate's part of [admitMembers]. *)
Definition judgeMembers (payload : string) (g : ingressGate) : option string :=
  match AdmitPayload DecodeStrict (ig_family g) payload with
  | Ok _ => None
  | Err (MemberRuleError reason) => Some reason
  | Err _ => Some ReasonMalformedJSON
  end.

(** What the gate did to the statistics. *)
Definition recordRefusal (g : ingressGate) (reason : option string) (length now now' : Z) (s : IngressStats) : bool * afterRefusal * IngressStats :=
  match reason with
  | None => (true, NothingMore, s)
  | Some r => let '(a, s') := refuse (ig_family g) r length now now' s in (false, a, s')
  end.

Definition admitVolume (topic : string) (length now now1 now2 : Z) (g : ingressGate) (s : IngressStats) : bool * afterRefusal * ingressGate * IngressStats :=
  let '(reason, g') := judgeVolume topic length now g in
  let '(ok, a, s') := recordRefusal g reason length now1 now2 s in
  (ok, a, g', s').

Definition admitMembers (payload : string) (now1 now2 : Z) (g : ingressGate) (s : IngressStats) : bool * afterRefusal * IngressStats :=
  recordRefusal g (judgeMembers payload g) (slen payload) now1 now2 s.
End Admission.
End BrokerIngress.
