(* ===== verification/BrokerIngressSpec.v ===== *)
(** * What the broker's ingress promises

    First the buckets: no device passes more messages or bytes than its
    family's burst and rate allow, and no sender can starve a configured
    device. Then the refusal log, as a step relation over refusals, timers and
    the clock. *)
From Stdlib Require Import SpecFloat QArith Lqa.
From S2P Require Import Prelude GoBytes Json Float64 FloatBounds Contracts TokenBucket BrokerIngress.

Module BrokerIngressSpec.
Import Float64 FloatBounds Contracts TokenBucket BrokerIngress.

(** ** Buckets *)
Definition burst (r : IngressRate) : float64 := ofInt (ir_Burst r).
Definition burstBytes (r : IngressRate) : float64 := ofInt (ir_BurstBytes r).

(** A rate whose numbers are exact and of moderate size. *)
Record soundRate (r : IngressRate) : Prop := MkSound {
  sr_tokens : Sized (burst r) (ir_PerSecond r);
  sr_bytes : Sized (burstBytes r) (ir_BytesPerSecond r);
  sr_burst : (val (burst r) == inject_Z (ir_Burst r))%Q;
  sr_burstBytes : (val (burstBytes r) == inject_Z (ir_BurstBytes r))%Q }.

Lemma rates_elem f r : IngressRates !! f = Some r → (f, r) ∈ map_to_list IngressRates.
Proof. apply elem_of_map_to_list. Qed.

Ltac each_rate H :=
  apply rates_elem in H; vm_compute in H;
  repeat (apply elem_of_cons in H as [[= -> ->]|H]; [|]); [..|by apply elem_of_nil in H].

Lemma rates_sound f r : IngressRates !! f = Some r → soundRate r.
Proof. intros H. each_rate H; (constructor; [constructor..|reflexivity|reflexivity]; (reflexivity || (split; discriminate) || discriminate)). Qed.

Record wfBucket (r : IngressRate) (b : ingressBucket) : Prop := MkWf {
  wf_tokens : within (burst r) (ib_tokens b);
  wf_bytes : within (burstBytes r) (ib_bytes b) }.

Lemma new_bucket_wf r now : soundRate r → wfBucket r (newIngressBucket r now).
Proof. intros [S1 S2 _ _]. split; by eapply within_burst. Qed.

Lemma between_max t u : timeBetween t u ≤ i64_max.
Proof. unfold timeBetween, i64_min, i64_max. lia. Qed.

Lemma between_exact t u : u ≤ t → t - u ≤ i64_max → timeBetween t u = t - u.
Proof. unfold timeBetween, i64_min, i64_max. lia. Qed.

(** A message charges the bucket what it costs, and the bucket gains what the
    time elapsed is worth. *)
Lemma charge_bucket r length now b :
  soundRate r → wfBucket r b → 0 ≤ length ≤ i64_max → ib_last b ≤ now → now - ib_last b ≤ i64_max →
  let c := chargeBucket r length now b in
  wfBucket r c.2 ∧ ib_last c.2 = now ∧
  (val (ib_tokens c.2) + (if c.1 then 1 else 0) <= val (ib_tokens b) + secs (now - ib_last b) * val (ir_PerSecond r) + slack (burst r) /\
   val (ib_bytes c.2) + (if c.1 then inject_Z length else 0) <= val (ib_bytes b) + secs (now - ib_last b) * val (ir_BytesPerSecond r) + slack (burstBytes r))%Q.
Proof.
  intros [S1 S2 _ _] [W1 W2] Hl Hn Hm. cbv zeta. unfold chargeBucket. rewrite between_exact by done.
  destruct (charge_spec (burst r) (ir_PerSecond r) (ib_tokens b) (now - ib_last b) 1 W1 Hm ltac:(done)) as [[A1 A2] A3].
  destruct (charge_spec (burstBytes r) (ir_BytesPerSecond r) (ib_bytes b) (now - ib_last b) length W2 Hm Hl) as [[B1 B2] B3].
  rewrite Z.max_r in * by lia. change (inject_Z 1) with 1%Q in A3. fold (burst r) (burstBytes r).
  set (tk := refill (burst r) _ _ _) in *. set (by_ := refill (burstBytes r) _ _ _) in *. clearbody tk by_.
  destruct (fleb (ofInt 1) tk) eqn:E1; [destruct (fleb (ofInt length) by_) eqn:E2|]; cbn [andb fst snd ib_tokens ib_bytes ib_last].
  - destruct (A3 eq_refl) as [A4 A5], (B3 eq_refl) as [B4 B5]. split; [by split|]. split; [done|]. split; [exact A5|exact B5].
  - split; [by split|]. split; [done|]. split; lra.
  - split; [by split|]. split; [done|]. split; lra.
Qed.

(** ** Runs *)
Record arrival := MkArrival { ar_topic : string; ar_length : Z; ar_now : Z }.

Definition judge (a : arrival) (g : ingressGate) : option string * ingressGate := judgeVolume (ar_topic a) (ar_length a) (ar_now a) g.

Fixpoint judgeAll (l : list arrival) (g : ingressGate) : list (arrival * option string) * ingressGate :=
  match l with
  | [] => ([], g)
  | a :: l' => let '(v, g1) := judge a g in let '(vs, g2) := judgeAll l' g1 in ((a, v) :: vs, g2)
  end.

(** The messages a bucket admitted, and what drew on it. *)
Definition admittedBy (g : ingressGate) (k : option string) (vs : list (arrival * option string)) : list arrival :=
  fst <$> filter (λ v, bucketKey g (ar_topic v.1) = k ∧ v.2 = None) vs.
Definition drawing (g : ingressGate) (k : option string) (l : list arrival) : list arrival := filter (λ a, bucketKey g (ar_topic a) = k) l.
Definition totalBytes (l : list arrival) : Z := foldr (λ a n, ar_length a + n) 0 l.

Record wfGate (g : ingressGate) : Prop := MkWfGate {
  wg_rate : IngressRates !! ig_family g = Some (ig_rate g);
  wg_maximum : PayloadMaxima !! ig_family g = Some (ig_maximum g);
  wg_buckets : ∀ k b, bucketAt g k = Some b → wfBucket (ig_rate g) b }.

(** Times do not go back from [t] on. *)
Fixpoint ordered (t : Z) (l : list arrival) : Prop := match l with [] => True | a :: l' => t ≤ ar_now a ∧ ordered (ar_now a) l' end.

Lemma bucketKey_put g k b topic : is_Some (bucketAt g k) → bucketKey (putBucket k b g) topic = bucketKey g topic.
Proof.
  destruct k as [device|]; [|done]. cbn. intros Hs. unfold bucketKey. cbn [putBucket ig_perDevice ig_buckets]. destruct (ig_perDevice g); [|done]. cbn [andb].
  destruct (decide (deviceSegment topic = device)) as [<-|Hn]; [|by rewrite lookup_insert_ne].
  rewrite lookup_insert_eq, !bool_decide_true by eauto. done.
Qed.

Lemma bucketAt_put g k b k' : is_Some (bucketAt g k) → bucketAt (putBucket k b g) k' = if decide (k = k') then Some b else bucketAt g k'.
Proof.
  intros Hs. destruct k as [d|], k' as [d'|]; cbn; try (by case_decide). case_decide as E; [injection E as ->; by rewrite lookup_insert_eq|].
  rewrite lookup_insert_ne; [done|congruence].
Qed.

Lemma bucketKey_bucket g topic : is_Some (bucketAt g (bucketKey g topic)).
Proof.
  unfold bucketKey. destruct (ig_perDevice g); cbn [andb]; [|done]. case_bool_decide; cbn; eauto.
Qed.

(** One message: refused by its size alone, or charged to its bucket. *)
Lemma judge_cases a g :
  (judge a g = (Some RefusalPayloadTooLarge, g) ∧ ig_maximum g < ar_length a) ∨
  (ar_length a ≤ ig_maximum g ∧ ∃ b, bucketAt g (bucketKey g (ar_topic a)) = Some b ∧
     let c := chargeBucket (ig_rate g) (ar_length a) (ar_now a) b in
     judge a g = (if c.1 then None else Some RefusalVolumeDropped, putBucket (bucketKey g (ar_topic a)) c.2 g)).
Proof.
  unfold judge, judgeVolume. destruct (Z.ltb_spec (ig_maximum g) (ar_length a)); [by left|right]. split; [done|].
  destruct (bucketKey_bucket g (ar_topic a)) as [b E]. rewrite E. exists b. split; [done|]. cbv zeta. by destruct (chargeBucket _ _ _ b).
Qed.

Lemma gate_put_same g k b :
  ig_family (putBucket k b g) = ig_family g ∧ ig_maximum (putBucket k b g) = ig_maximum g ∧ ig_rate (putBucket k b g) = ig_rate g.
Proof. by destruct k. Qed.

Lemma charge_wf r length now b : soundRate r → wfBucket r b → 0 ≤ length ≤ i64_max → wfBucket r (chargeBucket r length now b).2.
Proof.
  intros [S1 S2 _ _] [W1 W2] Hl. unfold chargeBucket. pose proof (between_max now (ib_last b)) as Hm.
  destruct (charge_spec (burst r) (ir_PerSecond r) (ib_tokens b) _ 1 W1 Hm ltac:(done)) as [[A1 _] A3].
  destruct (charge_spec (burstBytes r) (ir_BytesPerSecond r) (ib_bytes b) _ length W2 Hm Hl) as [[B1 _] B3]. unfold burst, burstBytes in *.
  destruct (_ && _) eqn:E; [apply andb_prop in E as [E1 E2]|by split]. split; [apply (A3 E1)|apply (B3 E2)].
Qed.

Lemma judge_wf a g : wfGate g → 0 ≤ ar_length a ≤ i64_max → wfGate (judge a g).2.
Proof.
  intros W Hl. destruct (judge_cases a g) as [[-> _]|(_ & b & Eb & ->)]; [done|]. cbv zeta. cbn [snd].
  pose proof (rates_sound _ _ (wg_rate g W)) as Hs. set (k := bucketKey g (ar_topic a)) in *. destruct (gate_put_same g k (chargeBucket (ig_rate g) (ar_length a) (ar_now a) b).2) as (E1 & E2 & E3).
  split; rewrite ?E1, ?E2, ?E3; [apply W..|]. intros k' b'. rewrite bucketAt_put by eauto. case_decide.
  - intros [= <-]. apply charge_wf; [done| |done]. by eapply W.
  - apply W.
Qed.

Lemma ordered_weaken t t' l : t' ≤ t → ordered t l → ordered t' l.
Proof. destruct l; [done|]. cbn. intros H [? ?]. split; [lia|done]. Qed.

Lemma admittedBy_cons g k a v vs :
  admittedBy g k ((a, v) :: vs) = (if decide (bucketKey g (ar_topic a) = k ∧ v = None) then [a] else []) ++ admittedBy g k vs.
Proof. unfold admittedBy. rewrite filter_cons. cbn [fst snd]. by case_decide. Qed.

Lemma drawing_cons g k a l : drawing g k (a :: l) = (if decide (bucketKey g (ar_topic a) = k) then [a] else []) ++ drawing g k l.
Proof. unfold drawing. rewrite filter_cons. by case_decide. Qed.

Lemma same_key_filter g g' k : (∀ topic, bucketKey g' topic = bucketKey g topic) →
  (∀ vs, admittedBy g' k vs = admittedBy g k vs) ∧ (∀ l, drawing g' k l = drawing g k l).
Proof. intros H. split; intros; unfold admittedBy, drawing; [f_equal|]; apply list_filter_iff; intros; by rewrite H. Qed.

(** The number of tokens a list of messages cost, and the slack of as many
    roundings. *)
Definition qlen {A} (l : list A) : Q := inject_Z (Z.of_nat (length l)).

Lemma qlen_cons {A} (x : A) l : (qlen (x :: l) == 1 + qlen l)%Q.
Proof. unfold qlen. cbn [length]. rewrite Nat2Z.inj_succ, <-Z.add_1_l, inject_Z_plus. reflexivity. Qed.

Lemma qlen_nonneg {A} (l : list A) : (0 <= qlen l)%Q.
Proof. unfold qlen. change 0%Q with (inject_Z 0). rewrite <-Zle_Qle. lia. Qed.

Lemma slack_nonneg b p : Sized b p → (0 <= slack b)%Q.
Proof. intros H. pose proof (sized_burst_range b p). unfold slack. lra. Qed.

(** What is left in a bucket after a run, against what it admitted. *)
Record accounted (r : IngressRate) (b b' : ingressBucket) (n : Q) (passed : list arrival) : Prop := MkAccounted {
  ac_tokens : (qlen passed + val (ib_tokens b') <= val (ib_tokens b) + secs (ib_last b' - ib_last b) * val (ir_PerSecond r) + n * slack (burst r))%Q;
  ac_bytes : (inject_Z (totalBytes passed) + val (ib_bytes b') <=
              val (ib_bytes b) + secs (ib_last b' - ib_last b) * val (ir_BytesPerSecond r) + n * slack (burstBytes r))%Q }.

Lemma accounted_refl r b : accounted r b b 0 [].
Proof. split; unfold qlen; cbn [length totalBytes foldr]; change (inject_Z (Z.of_nat 0)) with 0%Q; change (inject_Z 0) with 0%Q; rewrite Z.sub_diag, secs_0; lra. Qed.

Lemma secs_split a b c : (secs (c - a) == secs (b - a) + secs (c - b))%Q.
Proof. rewrite <-secs_plus. by replace (b - a + (c - b)) with (c - a) by lia. Qed.

(** One more message in front of an accounted run. *)
Lemma accounted_step r a b b1 b' n passed (ok : bool) :
  (val (ib_tokens b1) + (if ok then 1 else 0) <= val (ib_tokens b) + secs (ib_last b1 - ib_last b) * val (ir_PerSecond r) + slack (burst r))%Q →
  (val (ib_bytes b1) + (if ok then inject_Z (ar_length a) else 0) <= val (ib_bytes b) + secs (ib_last b1 - ib_last b) * val (ir_BytesPerSecond r) + slack (burstBytes r))%Q →
  accounted r b1 b' n passed → accounted r b b' (1 + n) ((if ok then [a] else []) ++ passed).
Proof.
  intros H1 H2 [A1 A2]. split; rewrite (secs_split (ib_last b) (ib_last b1)).
  - destruct ok; cbn [app]; rewrite ?qlen_cons; lra.
  - destruct ok; cbn [app totalBytes foldr]; fold (totalBytes passed); rewrite ?inject_Z_plus; lra.
Qed.

Lemma accounted_more r b b' n n' passed : soundRate r → (n <= n')%Q → accounted r b b' n passed → accounted r b b' n' passed.
Proof.
  intros [S1 S2 _ _] Hn [A1 A2]. pose proof (Qmult_le_compat_r _ _ _ Hn (slack_nonneg _ _ S1)). pose proof (Qmult_le_compat_r _ _ _ Hn (slack_nonneg _ _ S2)).
  split; lra.
Qed.

(** One message of a run, seen from the bucket [k]: it was not charged to it,
    or it was. *)
Lemma judgeAll_step a l g k b :
  wfGate g → 0 ≤ ar_length a ≤ i64_max → bucketAt g k = Some b →
  ∃ g1, wfGate g1 ∧ ig_rate g1 = ig_rate g ∧ (∀ topic, bucketKey g1 topic = bucketKey g topic) ∧ (judgeAll (a :: l) g).2 = (judgeAll l g1).2 ∧
    let passed := admittedBy g k (judgeAll (a :: l) g).1 in let rest := admittedBy g1 k (judgeAll l g1).1 in
    let c := chargeBucket (ig_rate g) (ar_length a) (ar_now a) b in
    (bucketAt g1 k = Some b ∧ passed = rest) ∨
    (bucketKey g (ar_topic a) = k ∧ bucketAt g1 k = Some c.2 ∧ passed = (if c.1 then [a] else []) ++ rest).
Proof.
  intros W Ha Eb. pose proof (judge_wf a g W Ha) as W1. cbn [judgeAll]. destruct (judge_cases a g) as [[Ej _]|(_ & b0 & Eb0 & Ej)]; cbv zeta in *; rewrite Ej in W1 |- *.
  { exists g. destruct (judgeAll l g) as [vs g2]. split_and!; [done..|]. left. split; [done|]. cbn [fst]. rewrite admittedBy_cons. by rewrite decide_False by by intros [_ ?]. }
  set (ka := bucketKey g (ar_topic a)) in *. cbn [fst snd] in *. eexists. split; [exact W1|]. split; [apply gate_put_same|].
  assert (Ek : ∀ topic, bucketKey (putBucket ka (chargeBucket (ig_rate g) (ar_length a) (ar_now a) b0).2 g) topic = bucketKey g topic) by (intros; apply bucketKey_put; eauto).
  split; [done|]. rewrite (proj1 (same_key_filter _ _ k Ek)), bucketAt_put by eauto. set (g1 := putBucket _ _ g). destruct (judgeAll l g1) as [vs g2]. split; [done|].
  cbn [fst]. rewrite admittedBy_cons. fold ka. destruct (decide (ka = k)) as [Hk|Hk].
  - right. subst k. rewrite Eb0 in Eb. injection Eb as ->. split_and!; [done..|]. f_equal.
    destruct (chargeBucket (ig_rate g) (ar_length a) (ar_now a) b).1; [by rewrite decide_True|by rewrite decide_False by by intros [_ ?]].
  - left. split; [done|]. by rewrite decide_False by by intros [? _].
Qed.

(** The messages that draw on [k], and their times, without the first. *)
Lemma drawing_tail g k a l t stop :
  ordered t (drawing g k (a :: l)) → Forall (λ a, ar_now a ≤ stop) (drawing g k (a :: l)) →
  ordered t (drawing g k l) ∧ Forall (λ a, ar_now a ≤ stop) (drawing g k l) ∧ (qlen (drawing g k l) <= qlen (drawing g k (a :: l)))%Q ∧
  (bucketKey g (ar_topic a) = k → t ≤ ar_now a ≤ stop ∧ ordered (ar_now a) (drawing g k l) ∧ (qlen (drawing g k (a :: l)) == 1 + qlen (drawing g k l))%Q).
Proof.
  rewrite drawing_cons. case_decide as E; cbn [app].
  - intros [H1 H2] [H3 H4]%Forall_cons. rewrite qlen_cons. split_and!; [by eapply ordered_weaken|done|lra|]. intros _. by split_and!.
  - intros. split_and!; [done..|apply Qle_refl|done].
Qed.

Lemma run_accounted l : ∀ g k b stop,
  wfGate g → Forall (λ a, 0 ≤ ar_length a ≤ i64_max) l → bucketAt g k = Some b → ordered (ib_last b) (drawing g k l) →
  Forall (λ a, ar_now a ≤ stop) (drawing g k l) → ib_last b ≤ stop → stop - ib_last b ≤ i64_max →
  ∃ b', wfBucket (ig_rate g) b' ∧ ib_last b ≤ ib_last b' ≤ stop ∧
    accounted (ig_rate g) b b' (qlen (drawing g k l)) (admittedBy g k (judgeAll l g).1).
Proof.
  induction l as [|a l IH]; intros g k b stop W Hl Eb Ho Hs Hb Hm.
  { exists b. split; [by eapply W|]. split; [lia|]. apply accounted_refl. }
  apply Forall_cons in Hl as [Ha Hl]. pose proof (rates_sound _ _ (wg_rate g W)) as Sr.
  destruct (drawing_tail g k a l _ stop Ho Hs) as (To & Ts & Tn & Tk). destruct (judgeAll_step a l g k b W Ha Eb) as (g1 & W1 & Er & Ek & _ & Hc). cbv zeta in Hc.
  destruct (same_key_filter g g1 k Ek) as [_ Fd]. destruct Hc as [[Eb1 ->]|(Hk & Eb1 & ->)].
  - destruct (IH g1 k b stop) as (b' & Wb & Hl' & Hac); [by rewrite ?Fd..|]. rewrite Er, Fd in *. exists b'. split_and!; [done|lia..|]. by eapply accounted_more.
  - destruct (Tk Hk) as (H1 & H2 & H3).
    destruct (charge_bucket (ig_rate g) (ar_length a) (ar_now a) b) as (_ & El & C1 & C2); [done|by eapply W|done|lia..|].
    destruct (IH g1 k _ stop W1 Hl Eb1) as (b' & Wb & Hl' & Hac); rewrite ?El, ?Fd; [done..|lia|lia|]. rewrite Er, Fd in *. exists b'. split_and!; [done|lia..|].
    eapply accounted_more; [done| |eapply (accounted_step _ a b _ b'); [rewrite El; exact C1|rewrite El; exact C2|exact Hac]]. lra.
Qed.

(** Whatever the time elapsed, a message leaves at most the burst less its
    cost. *)
Lemma charge_capped r length now b :
  soundRate r → wfBucket r b → 0 ≤ length ≤ i64_max →
  let c := chargeBucket r length now b in
  (val (ib_tokens c.2) + (if c.1 then 1 else 0) <= inject_Z (ir_Burst r) + slack (burst r) /\
   val (ib_bytes c.2) + (if c.1 then inject_Z length else 0) <= inject_Z (ir_BurstBytes r) + slack (burstBytes r))%Q.
Proof.
  intros [S1 S2 E1 E2] [W1 W2] Hl. cbv zeta. unfold chargeBucket. pose proof (between_max now (ib_last b)) as Hm. fold (burst r) (burstBytes r).
  destruct (refill_spec (burst r) (ir_PerSecond r) (ib_tokens b) _ W1 Hm) as ([A1 A2] & _).
  destruct (refill_spec (burstBytes r) (ir_BytesPerSecond r) (ib_bytes b) _ W2 Hm) as ([B1 B2] & _). rewrite <-E1, <-E2.
  pose proof (slack_nonneg _ _ S1) as P1. pose proof (slack_nonneg _ _ S2) as P2.
  set (tk := refill (burst r) _ _ _) in *. set (by_ := refill (burstBytes r) _ _ _) in *. clearbody tk by_.
  destruct (fleb (ofInt 1) tk) eqn:F1; [destruct (fleb (ofInt length) by_) eqn:F2|]; cbn [andb fst snd ib_tokens ib_bytes]; [|split; lra..].
  destruct (spend_spec (burst r) (ir_PerSecond r) tk 1 ltac:(done) ltac:(done) F1) as [_ A3].
  destruct (spend_spec (burstBytes r) (ir_BytesPerSecond r) by_ length ltac:(done) Hl F2) as [_ B3]. change (inject_Z 1) with 1%Q in A3. split; lra.
Qed.

(** The allowance of a window. *)
Definition allowed (r : IngressRate) (T : Q) (n : Q) (passed : list arrival) : Prop :=
  (qlen passed <= inject_Z (ir_Burst r) + T * val (ir_PerSecond r) + n * slack (burst r) /\
   inject_Z (totalBytes passed) <= inject_Z (ir_BurstBytes r) + T * val (ir_BytesPerSecond r) + n * slack (burstBytes r))%Q.

Lemma secs_mono a b : a ≤ b → (secs a <= secs b)%Q.
Proof. intros H. unfold secs. apply Qmult_le_compat_r; [|done]. by rewrite <-Zle_Qle. Qed.

Lemma rate_nonneg r : soundRate r → (0 <= val (ir_PerSecond r) /\ 0 <= val (ir_BytesPerSecond r))%Q.
Proof. intros [S1 S2 _ _]. split; apply val_nonneg; [apply (sized_rate (burst r))|apply (sized_rate (burstBytes r))]; done. Qed.

Lemma allowed_nil r T : soundRate r → (0 <= T)%Q → allowed r T 0 [].
Proof.
  intros Sr HT. destruct (rate_nonneg r Sr) as [R1 R2], Sr as [S1 S2 E1 E2]. pose proof (sized_burst_range (burst r) _). pose proof (sized_burst_range (burstBytes r) _).
  pose proof (Qmult_le_0_compat _ _ HT R1). pose proof (Qmult_le_0_compat _ _ HT R2). unfold allowed, qlen. cbn [length totalBytes foldr].
  change (inject_Z (Z.of_nat 0)) with 0%Q. change (inject_Z 0) with 0%Q. rewrite <-E1, <-E2. lra.
Qed.

Lemma allowed_more r T n n' passed : soundRate r → (n <= n')%Q → allowed r T n passed → allowed r T n' passed.
Proof.
  intros [S1 S2 _ _] Hn [A1 A2]. pose proof (Qmult_le_compat_r _ _ _ Hn (slack_nonneg _ _ S1)). pose proof (Qmult_le_compat_r _ _ _ Hn (slack_nonneg _ _ S2)).
  unfold allowed. lra.
Qed.

(** The first message that is charged caps the bucket; the rest is accounted
    for from there. *)
Lemma allowed_first r a b' n passed (ok : bool) c from stop :
  soundRate r → wfBucket r b' → from ≤ ib_last c → ib_last c ≤ ib_last b' ≤ stop →
  (val (ib_tokens c) + (if ok then 1 else 0) <= inject_Z (ir_Burst r) + slack (burst r))%Q →
  (val (ib_bytes c) + (if ok then inject_Z (ar_length a) else 0) <= inject_Z (ir_BurstBytes r) + slack (burstBytes r))%Q →
  accounted r c b' n passed → allowed r (secs (stop - from)) (1 + n) ((if ok then [a] else []) ++ passed).
Proof.
  intros Sr [W1 W2] Hf Hl C1 C2 [A1 A2]. destruct (rate_nonneg r Sr) as [R1 R2]. pose proof (val_nonneg _ (proj1 W1)). pose proof (val_nonneg _ (proj1 W2)).
  assert (Hm : (secs (ib_last b' - ib_last c) <= secs (stop - from))%Q) by (apply secs_mono; lia).
  pose proof (Qmult_le_compat_r _ _ _ Hm R1). pose proof (Qmult_le_compat_r _ _ _ Hm R2). unfold allowed. split.
  - destruct ok; cbn [app]; rewrite ?qlen_cons; lra.
  - destruct ok; cbn [app totalBytes foldr]; fold (totalBytes passed); rewrite ?inject_Z_plus; lra.
Qed.

Lemma window_allowed l : ∀ g k from stop,
  wfGate g → Forall (λ a, 0 ≤ ar_length a ≤ i64_max) l → is_Some (bucketAt g k) → ordered from (drawing g k l) →
  Forall (λ a, ar_now a ≤ stop) (drawing g k l) → from ≤ stop → stop - from ≤ i64_max →
  allowed (ig_rate g) (secs (stop - from)) (qlen (drawing g k l)) (admittedBy g k (judgeAll l g).1).
Proof.
  induction l as [|a l IH]; intros g k from stop W Hl [b Eb] Ho Hs Hb Hm; pose proof (rates_sound _ _ (wg_rate g W)) as Sr.
  { apply allowed_nil; [done|]. apply secs_nonneg. lia. }
  apply Forall_cons in Hl as [Ha Hl].
  destruct (drawing_tail g k a l _ stop Ho Hs) as (To & Ts & Tn & Tk). destruct (judgeAll_step a l g k b W Ha Eb) as (g1 & W1 & Er & Ek & _ & Hc). cbv zeta in Hc.
  destruct (same_key_filter g g1 k Ek) as [_ Fd]. destruct Hc as [[Eb1 ->]|(Hk & Eb1 & ->)].
  - assert (A := IH g1 k from stop W1 Hl ltac:(eauto)). rewrite Er, Fd in A. eapply allowed_more; [done|exact Tn|by apply A].
  - destruct (Tk Hk) as (H1 & H2 & H3). destruct (charge_capped (ig_rate g) (ar_length a) (ar_now a) b) as [C1 C2]; [done|by eapply W|done|].
    assert (El : ib_last (chargeBucket (ig_rate g) (ar_length a) (ar_now a) b).2 = ar_now a) by (unfold chargeBucket; by destruct (_ && _)).
    destruct (run_accounted l g1 k _ stop W1 Hl Eb1) as (b' & Wb & Hl' & Hac); rewrite ?El, ?Fd; [done..|lia|lia|]. rewrite Er, Fd in *.
    eapply allowed_more; [done| |eapply (allowed_first _ a b'); [done|done|rewrite El; lia|exact Hl'|exact C1|exact C2|exact Hac]]. lra.
Qed.

(** ** Gates as they are made *)
Lemma rated_family f r : IngressRates !! f = Some r → ∃ m, PayloadMaxima !! f = Some m ∧ m ≤ ir_BurstBytes r ∧ 0 < m.
Proof. intros H. exists (default 0 (PayloadMaxima !! f)). each_rate H; vm_compute; (split; [reflexivity|split; [discriminate|reflexivity]]). Qed.

Lemma deviceBuckets rate start devices device b :
  foldr (λ device m, <[device := newIngressBucket rate start]> m) (∅ : gmap string ingressBucket) devices !! device = Some b →
  device ∈ devices ∧ b = newIngressBucket rate start.
Proof.
  induction devices as [|d devices IH]; cbn [foldr]; [by rewrite lookup_empty|]. destruct (decide (d = device)) as [->|Hn].
  - rewrite lookup_insert_eq. intros [= <-]. split; [left|done].
  - rewrite lookup_insert_ne by done. intros [? ?]%IH. split; [by right|done].
Qed.

Lemma deviceBuckets_configured rate start devices device :
  device ∈ devices → foldr (λ device m, <[device := newIngressBucket rate start]> m) (∅ : gmap string ingressBucket) devices !! device = Some (newIngressBucket rate start).
Proof.
  induction devices as [|d devices IH]; [by intros ?%elem_of_nil|]. cbn [foldr]. intros [->|H]%elem_of_cons; [by rewrite lookup_insert_eq|].
  destruct (decide (d = device)) as [->|Hn]; [by rewrite lookup_insert_eq|]. rewrite lookup_insert_ne by done. by apply IH.
Qed.

Lemma new_gate visit topic devices start g :
  newIngressGate visit topic devices start = Ok g →
  wfGate g ∧ PayloadFamily visit topic = Some (ig_family g) ∧ ig_perDevice g = bool_decide (deviceSegment topic = "+") ∧
  (deviceSegment topic = "+" → ∀ device, device ∈ devices → is_Some (ig_buckets g !! device)).
Proof.
  unfold newIngressGate, CheckSubscription. destruct (PayloadFamily visit topic) as [f|]; [|done]. change (default "" (Some f)) with f. destruct (IngressRates !! f) as [r|] eqn:Er; [|done].
  cbn [from_option id]. intros [= <-]. destruct (rated_family f r Er) as (m & Em & _). pose proof (rates_sound f r Er) as Sr. split_and!; [|done|done|].
  - split; cbn [ig_family ig_rate ig_maximum]; [exact Er|by rewrite Em|]. intros [device|] b; cbn [bucketAt ig_buckets ig_overflow].
    + case_bool_decide; [|by rewrite lookup_empty]. intros [_ ->]%deviceBuckets. by apply new_bucket_wf.
    + intros [= <-]. by apply new_bucket_wf.
  - intros E device Hd. cbn [ig_buckets]. rewrite bool_decide_true by done. rewrite deviceBuckets_configured by done. by eexists.
Qed.

Lemma judgeAll_wf l : ∀ g, wfGate g → Forall (λ a, 0 ≤ ar_length a ≤ i64_max) l → wfGate (judgeAll l g).2 ∧ (∀ topic, bucketKey (judgeAll l g).2 topic = bucketKey g topic).
Proof.
  induction l as [|a l IH]; intros g W Hl; [done|]. apply Forall_cons in Hl as [Ha Hl].
  destruct (judgeAll_step a l g None (ig_overflow g) W Ha eq_refl) as (g1 & W1 & _ & Ek & -> & _). destruct (IH g1 W1 Hl) as [W2 Ek2].
  split; [done|]. intros topic. by rewrite Ek2.
Qed.

(** C31: Whatever a gate has seen before, in any window of the monotonic clock
    the messages a device passes are at most its family's burst, the family's
    rate times the window and, for each message that drew on the bucket in the
    window, a ten-million-millionth of the burst that rounding may add; and
    their bytes are bounded in the same way by the byte burst and rate. *)
Theorem ingress_rate_bounded visit topic devices start g0 before l k from stop :
  newIngressGate visit topic devices start = Ok g0 → Forall (λ a, 0 ≤ ar_length a ≤ i64_max) (before ++ l) →
  let g := (judgeAll before g0).2 in
  is_Some (bucketAt g k) → ordered from (drawing g k l) → Forall (λ a, ar_now a ≤ stop) (drawing g k l) → from ≤ stop → stop - from ≤ i64_max →
  let passed := admittedBy g k (judgeAll l g).1 in
  let n := qlen (drawing g k l) in
  (qlen passed <= inject_Z (ir_Burst (ig_rate g)) + secs (stop - from) * val (ir_PerSecond (ig_rate g)) + n * slack (burst (ig_rate g)) /\
   inject_Z (totalBytes passed) <= inject_Z (ir_BurstBytes (ig_rate g)) + secs (stop - from) * val (ir_BytesPerSecond (ig_rate g)) + n * slack (burstBytes (ig_rate g)))%Q.
Proof.
  intros (W & _)%new_gate [Hl1 Hl2]%Forall_app g Hk Ho Hs Hb Hm. apply (window_allowed l g k from stop); try done. by apply judgeAll_wf.
Qed.

Definition sampleVisit : list string := elements (dom PayloadMaxima).
Definition heartbeats : string := "ori/+/runtime/heartbeat".
Definition beats (n : nat) : list arrival := (λ i, MkArrival "ori/d1/runtime/heartbeat" 1000 (Z.of_nat i)) <$> seq 0 n.

Lemma ingress_rate_bounded_witness :
  match newIngressGate sampleVisit heartbeats ["d1"] 0 with
  | Ok g => length (admittedBy g (Some "d1") (judgeAll (beats 9) g).1) = 5%nat ∧
    (qlen (admittedBy g (Some "d1") (judgeAll (beats 9) g).1) <= inject_Z 5 + secs (10 - 0) * val (ofInt 1) + qlen (drawing g (Some "d1") (beats 9)) * slack (ofInt 5))%Q
  | Err _ => False
  end.
Proof.
  destruct (newIngressGate sampleVisit heartbeats ["d1"] 0) as [g|e] eqn:E; [|vm_compute in E; discriminate E].
  split; [vm_compute in E; injection E as <-; vm_compute; reflexivity|].
  pose proof E as E0. vm_compute in E0. injection E0 as E0.
  destruct (ingress_rate_bounded sampleVisit heartbeats ["d1"] 0 g [] (beats 9) (Some "d1") 0 10 E) as [H _].
  - repeat (apply Forall_cons; split; [cbn; unfold i64_max; lia|]). apply Forall_nil. exact I.
  - rewrite <-E0. vm_compute. eexists. reflexivity.
  - rewrite <-E0. vm_compute. repeat split; discriminate.
  - rewrite <-E0. vm_compute. repeat (apply Forall_cons; split; [discriminate|]). apply Forall_nil. exact I.
  - lia.
  - unfold i64_max. lia.
  - cbn [judgeAll snd] in H. assert (R : ig_rate g = default (MkRate fzero 0 fzero 0) (IngressRates !! FamilyRuntimeHeartbeat)) by (rewrite <-E0; vm_compute; reflexivity).
    rewrite R in H. exact H.
Defined.

(** ** No sender starves a configured device *)

(** Sixteen seconds fill every family's bucket twice over. *)
Definition idleTime : Z := 16 * nanos.

Lemma rates_fill f r : IngressRates !! f = Some r →
  (2 * val (burst r) <= secs idleTime * val (ir_PerSecond r) /\ 2 * val (burstBytes r) <= secs idleTime * val (ir_BytesPerSecond r))%Q.
Proof. intros H. each_rate H; split; vm_compute; discriminate. Qed.

(** A bucket that was left alone for that long admits whatever the family's
    maximum admits. *)
Lemma charge_idle f r m length now b :
  IngressRates !! f = Some r → PayloadMaxima !! f = Some m → wfBucket r b → 0 ≤ length ≤ m → ib_last b + idleTime ≤ now → now - ib_last b ≤ i64_max →
  (chargeBucket r length now b).1 = true.
Proof.
  intros Er Em [W1 W2] Hl Hi Hm. destruct (rates_sound f r Er) as [S1 S2 E1 E2]. destruct (rated_family f r Er) as (m' & Em' & Hm' & _). rewrite Em in Em'. injection Em' as <-.
  destruct (rates_fill f r Er) as [F1 F2]. assert (Hi' : (secs idleTime <= secs (now - ib_last b))%Q) by (apply secs_mono; lia).
  destruct (rate_nonneg r (rates_sound f r Er)) as [R1 R2]. pose proof (Qmult_le_compat_r _ _ _ Hi' R1). pose proof (Qmult_le_compat_r _ _ _ Hi' R2).
  assert (0 ≤ now - ib_last b) as Hn0 by (unfold idleTime, nanos in Hi; lia). unfold chargeBucket. rewrite between_exact by lia. fold (burst r) (burstBytes r).
  destruct (refill_spec (burst r) (ir_PerSecond r) (ib_tokens b) (now - ib_last b) W1 ltac:(lia)) as (_ & _ & T1).
  destruct (refill_spec (burstBytes r) (ir_BytesPerSecond r) (ib_bytes b) (now - ib_last b) W2 ltac:(lia)) as (_ & _ & T2).
  specialize (T1 Hn0 ltac:(lra)). specialize (T2 Hn0 ltac:(lra)). rewrite T1, T2. clear T1 T2. replace (fleb (ofInt 1) (burst r) && fleb (ofInt length) (burstBytes r)) with true; [done|symmetry].
  apply andb_true_intro. split.
  - pose proof (fleb_val (ofInt 1) (burst r) eq_refl (sized_burst _ _)) as Hf. destruct (fleb (ofInt 1) (burst r)); [done|exfalso].
    pose proof (sized_burst_range (burst r) _). assert (val (ofInt 1) == 1)%Q by reflexivity. lra.
  - apply ofInt_le; [lia|]. clear -Er. each_rate Er; reflexivity.
Qed.

(** The time of a device's bucket is the start or that of a message of its
    own. *)
Lemma last_own l : ∀ g device b0 (P : Z → Prop),
  wfGate g → Forall (λ a, 0 ≤ ar_length a ≤ i64_max) l → bucketAt g (Some device) = Some b0 → P (ib_last b0) →
  Forall (λ a, deviceSegment (ar_topic a) = device → P (ar_now a)) l →
  ∃ b, bucketAt (judgeAll l g).2 (Some device) = Some b ∧ P (ib_last b).
Proof.
  induction l as [|a l IH]; intros g device b0 P W Hl Eb HP Hf; [by exists b0|]. apply Forall_cons in Hl as [Ha Hl], Hf as [Hfa Hf].
  destruct (judgeAll_step a l g (Some device) b0 W Ha Eb) as (g1 & W1 & _ & _ & -> & Hc). cbv zeta in Hc. destruct Hc as [[Eb1 _]|(Hk & Eb1 & _)].
  - by apply (IH g1 device b0).
  - eapply (IH g1 device _ P W1 Hl Eb1); [|done]. assert (ib_last (chargeBucket (ig_rate g) (ar_length a) (ar_now a) b0).2 = ar_now a) as -> by (unfold chargeBucket; by destruct (_ && _)).
    apply Hfa. unfold bucketKey in Hk. destruct (_ && _); [|done]. by injection Hk.
Qed.

(** C32: On a wildcard subscription no sender can starve a configured device:
    whatever other devices sent, however much and whenever, a message of the
    device within its family's maximum is admitted when the device itself has
    sent nothing for sixteen seconds. *)
Theorem configured_device_not_starved visit topic devices start g0 before device a :
  newIngressGate visit topic devices start = Ok g0 → deviceSegment topic = "+" → device ∈ devices →
  Forall (λ a, 0 ≤ ar_length a ≤ i64_max) before → deviceSegment (ar_topic a) = device →
  start + idleTime ≤ ar_now a ≤ start + i64_max →
  Forall (λ a', deviceSegment (ar_topic a') = device → ar_now a' + idleTime ≤ ar_now a ≤ ar_now a' + i64_max) before →
  0 ≤ ar_length a ≤ ig_maximum (judgeAll before g0).2 →
  (judge a (judgeAll before g0).2).1 = None.
Proof.
  intros Hg Ht Hd Hl Ha Hstart Hown Hmax. pose proof (new_gate _ _ _ _ _ Hg) as (W & _ & Hp & Hb). destruct (Hb Ht device Hd) as [b0 Eb0].
  assert (Hlast : ib_last b0 = start).
  { clear -Hg Eb0. unfold newIngressGate in Hg. destruct (CheckSubscription visit topic); [|done]. injection Hg as <-. cbn [ig_buckets] in Eb0.
    destruct (bool_decide _); [|by rewrite lookup_empty in Eb0]. apply deviceBuckets in Eb0 as [_ ->]. done. }
  destruct (last_own before g0 device b0 (λ t, t + idleTime ≤ ar_now a ≤ t + i64_max) W Hl Eb0) as (b & Eb & Hi & Hi'); [by rewrite Hlast|done|].
  destruct (judgeAll_wf before g0 W Hl) as [W2 Ek]. set (g := (judgeAll before g0).2) in *.
  assert (Ka : bucketKey g (ar_topic a) = Some device).
  { rewrite Ek. unfold bucketKey. rewrite Hp, (bool_decide_true (deviceSegment topic = "+")) by done. cbn [andb]. rewrite Ha, bool_decide_true by eauto. done. }
  destruct (judge_cases a g) as [[_ Hbig]|(_ & b1 & Eb1 & ->)]; [lia|]. cbn [fst]. rewrite Ka, Eb in Eb1. injection Eb1 as <-.
  rewrite (charge_idle (ig_family g) (ig_rate g) (ig_maximum g)); [done|apply W2|apply W2|by eapply (wg_buckets g W2)|lia..].
Qed.

Lemma configured_device_not_starved_witness :
  match newIngressGate sampleVisit heartbeats ["d1"; "d2"] 0 with
  | Ok g => (judge (MkArrival "ori/d2/runtime/heartbeat" 65536 (20 * nanos)) (judgeAll (beats 30) g).2).1 = None
  | Err _ => False
  end.
Proof.
  destruct (newIngressGate sampleVisit heartbeats ["d1"; "d2"] 0) as [g|e] eqn:E; [|vm_compute in E; discriminate E].
  apply (configured_device_not_starved sampleVisit heartbeats ["d1"; "d2"] 0 g (beats 30) "d2"); [exact E|vm_compute; reflexivity| | | | | |].
  - apply elem_of_cons. right. apply elem_of_cons. left. reflexivity.
  - repeat (apply Forall_cons; split; [cbn; unfold i64_max; lia|]). apply Forall_nil. exact I.
  - vm_compute. reflexivity.
  - cbn [ar_now]. unfold idleTime, nanos, i64_max. lia.
  - repeat (apply Forall_cons; split; [intros H; vm_compute in H; discriminate H|]). apply Forall_nil. exact I.
  - vm_compute in E. injection E as <-. vm_compute. split; discriminate.
Defined.
End BrokerIngressSpec.
