(* ===== verification/BrokerLog.v ===== *)
(** * The refusal log of the broker's ingress

    Refusals from any subscription, timers that are started after the lock is
    released and fire when they are due or later, and the clock, as steps over
    [BrokerIngress.IngressStats]. The clock is read under the lock and does
    not go back. *)
From S2P Require Import Prelude GoBytes Json Float64 Contracts BrokerIngress.

Module BrokerLog.
Import Float64 Contracts BrokerIngress.

(** ** Steps *)
Record lconf := MkLConf {
  lc_now : Z; lc_stats : IngressStats;
  lc_starting : list (ingressLogKey * Z); (* timers about to be started, with their wait *)
  lc_timers : list (ingressLogKey * Z); (* timers, with the time they are due *)
  lc_taken : list (ingressLogKey * (Z * Z)); (* lines taken: their count and time, the latest first *)
  lc_refused : list ingressLogKey }. (* every refusal so far *)

Definition after (key : ingressLogKey) (t : Z) (a : afterRefusal) (c : lconf) (s : IngressStats) : lconf :=
  match a with
  | NothingMore => MkLConf t s (lc_starting c) (lc_timers c) (lc_taken c) (key :: lc_refused c)
  | StartTimer w => MkLConf t s ((key, w) :: lc_starting c) (lc_timers c) (lc_taken c) (key :: lc_refused c)
  | WriteLine line => MkLConf t s (lc_starting c) (lc_timers c) ((key, (il_count line, t)) :: lc_taken c) (key :: lc_refused c)
  end.

Inductive lstep : lconf → lconf → Prop :=
| l_tick c t : lc_now c ≤ t → lstep c (MkLConf t (lc_stats c) (lc_starting c) (lc_timers c) (lc_taken c) (lc_refused c))
| l_refuse c family reason len t1 t2 a s :
    lc_now c ≤ t1 ≤ t2 → refuse family reason len t1 t2 (lc_stats c) = (a, s) → lstep c (after (family, reason) t2 a c s)
| l_start c key w l1 l2 :
    lc_starting c = l1 ++ (key, w) :: l2 →
    lstep c (MkLConf (lc_now c) (lc_stats c) (l1 ++ l2) ((key, lc_now c + w) :: lc_timers c) (lc_taken c) (lc_refused c))
| l_fire c key due t line s l1 l2 :
    lc_timers c = l1 ++ (key, due) :: l2 → due ≤ t → lc_now c ≤ t → flush key t (lc_stats c) = Some (line, s) →
    lstep c (MkLConf t s (lc_starting c) (l1 ++ l2) ((key, (il_count line, t)) :: lc_taken c) (lc_refused c)).

Definition linit (t : Z) : lconf := MkLConf t NewIngressStats [] [] [] [].

(** ** One key *)
Definition ofKey {A} (key : ingressLogKey) (l : list (ingressLogKey * A)) : list A := snd <$> filter (λ x, x.1 = key) l.
Definition timesOf (p : ingressLogKey → bool) (l : list ingressLogKey) : Z := Z.of_nat (length (filter (λ k, p k = true) l)).
Definition isKey (key k : ingressLogKey) : bool := bool_decide (k = key).
Definition sumCounts (l : list (Z * Z)) : Z := foldr (λ x n, x.1 + n) 0 l.

(** Lines a second apart, the latest first. *)
Fixpoint spaced (l : list (Z * Z)) : Prop :=
  match l with
  | x :: (y :: _) as l' => y.2 + ingressLogInterval ≤ x.2 ∧ spaced l'
  | _ => True
  end.

(** What holds of one key: [r] refusals, its lines, waits and due times. *)
Record kpending (now : Z) (p : ingressPending) (r : Z) (lines : list (Z * Z)) (ws ds : list Z) : Prop := MkK {
  k_sum : r = sumCounts lines + ip_count p;
  k_count : 0 ≤ ip_count p ∧ 0 ≤ sumCounts lines;
  k_spaced : spaced lines;
  k_logged : ip_loggedAt p = (snd <$> head lines);
  k_past : ∀ t, ip_loggedAt p = Some t → t ≤ now;
  k_timer :
    if ip_flushing p
    then ∃ t, ip_loggedAt p = Some t ∧
      ((∃ w, ws = [w] ∧ ds = [] ∧ 0 < w ≤ ingressLogInterval ∧ t + ingressLogInterval ≤ now + w) ∨ (∃ d, ws = [] ∧ ds = [d] ∧ t + ingressLogInterval ≤ d))
    else ws = [] ∧ ds = [] ∧ ip_count p = 0 }.

Definition kinv (now : Z) (p : option ingressPending) (r : Z) (lines : list (Z * Z)) (ws ds : list Z) : Prop :=
  match p with
  | None => r = 0 ∧ lines = [] ∧ ws = [] ∧ ds = []
  | Some p => kpending now p r lines ws ds
  end.

Lemma kinv_tick now t p r lines ws ds : now ≤ t → kinv now p r lines ws ds → kinv t p r lines ws ds.
Proof.
  intros Ht. destruct p as [p|]; [|done]. intros [A B C D E F]. split; [done..| |].
  - intros t' H. specialize (E t' H). lia.
  - destruct (ip_flushing p); [|done]. destruct F as (t0 & E0 & [(w & ? & ? & ? & ?)|?]); exists t0; (split; [done|]); [left; exists w; split_and!; try done; lia|by right].
Qed.

Lemma wrapU64_id x : 0 ≤ x < 2 ^ 64 → wrapU64 x = x.
Proof. intros. by apply Z.mod_small. Qed.

(** The pending record a refusal leaves under its key, and what it adds. *)
Definition refusePending (reason : string) (len t1 t2 : Z) (p0 : option ingressPending) : afterRefusal * ingressPending :=
  let p0 := default (MkPendingLog 0 ∅ None false) p0 in
  let p := MkPendingLog (wrapU64 (ip_count p0 + 1))
             (if decide (reason = RefusalPayloadTooLarge) then {[SizeClass len]} ∪ ip_classes p0 else ip_classes p0) (ip_loggedAt p0) (ip_flushing p0) in
  if ip_flushing p then (NothingMore, p)
  else if 0 <? logWait t1 p then (StartTimer (logWait t1 p), setFlushing true p)
  else let '(line, p') := takeLocked t2 p in (WriteLine line, p').

Lemma refuse_pending family reason len t1 t2 s :
  refuse family reason len t1 t2 s =
  let '(a, p) := refusePending reason len t1 t2 (is_unlogged s !! (family, reason)) in
  (a, MkStats (<[family := countRefusal reason (default (MkCount 0 0) (is_counts s !! family))]> (is_counts s)) (<[(family, reason) := p]> (is_unlogged s))).
Proof.
  unfold refuse, refusePending. cbv zeta. destruct (ip_flushing _); [done|]. destruct (0 <? logWait t1 _).
  - unfold putPending. cbn [is_counts is_unlogged]. by rewrite insert_insert_eq.
  - cbn [takeLocked]. unfold putPending. cbn [is_counts is_unlogged]. by rewrite insert_insert_eq.
Qed.

(** What a refusal adds to its key's lines and waits. *)
Definition addsLines (t : Z) (a : afterRefusal) : list (Z * Z) := match a with WriteLine line => [(il_count line, t)] | _ => [] end.
Definition addsWaits (a : afterRefusal) : list Z := match a with StartTimer w => [w] | _ => [] end.

Lemma kinv_refuse now t1 t2 reason len p r lines ws ds a p' :
  now ≤ t1 ≤ t2 → r + 1 < 2 ^ 64 → kinv now p r lines ws ds → refusePending reason len t1 t2 p = (a, p') →
  kinv t2 (Some p') (r + 1) (addsLines t2 a ++ lines) (addsWaits a ++ ws) ds.
Proof.
  intros Ht Hr Hk. unfold refusePending. set (cl := if decide _ then _ else _).
  assert (∃ c0 lg fl, default (MkPendingLog 0 ∅ None false) p = MkPendingLog c0 (ip_classes (default (MkPendingLog 0 ∅ None false) p)) lg fl ∧
    kpending now (MkPendingLog c0 (ip_classes (default (MkPendingLog 0 ∅ None false) p)) lg fl) r lines ws ds) as (c0 & lg & fl & Ep & [A B C D E F]).
  { destruct p as [[c0 ? lg fl]|]; cbn [default from_option id]; [by exists c0, lg, fl|]. destruct Hk as (-> & -> & -> & ->). exists 0, None, false. by split. }
  clear Hk. clearbody cl. rewrite Ep. clear Ep. cbn [ip_count ip_loggedAt ip_flushing] in *. rewrite wrapU64_id by lia. destruct fl.
  - intros [= <- <-]. cbn [addsLines addsWaits app]. destruct F as (t & Et & F). split; cbn [ip_count ip_loggedAt ip_flushing]; [lia..|done|done| |].
    + intros t' H. specialize (E t' H). lia.
    + exists t. split; [done|]. destruct F as [(w & ? & ? & ? & ?)|F]; [left; exists w; split_and!; try done; lia|by right].
  - destruct F as (-> & -> & ->). destruct (Z.ltb_spec 0 (logWait t1 (MkPendingLog (0 + 1) cl lg false))) as [Hw|Hw].
    + intros [= <- <-]. cbn [addsLines addsWaits app setFlushing]. unfold logWait in *. cbn [ip_loggedAt ip_count ip_classes] in *. destruct lg as [t|]; [|unfold i64_min in Hw; lia].
      specialize (E t eq_refl). assert (timeBetween (t + ingressLogInterval) t1 = t + ingressLogInterval - t1) as Ew.
      { unfold timeBetween, ingressLogInterval, nanos, i64_max, i64_min in *. lia. }
      rewrite Ew in *. split; unfold setFlushing; cbn [ip_count ip_loggedAt ip_flushing]; [lia|lia|done|done| |].
      * intros t' [= <-]. lia.
      * exists t. split; [done|]. left. eexists. split_and!; [done..|lia|lia|lia].
    + cbn [takeLocked]. intros [= <- <-]. cbn [addsLines addsWaits app il_count ip_count]. split; cbn [ip_count ip_loggedAt ip_flushing head fmap option_fmap option_map snd]; [cbn [sumCounts foldr fst]; fold (sumCounts lines); lia|cbn [sumCounts foldr fst]; fold (sumCounts lines); lia| |done| |done].
      * destruct lines as [|[c1 t] lines]; [done|]. split; [|done]. cbn [snd]. cbn [head fmap option_fmap option_map snd] in D. subst lg. specialize (E t eq_refl).
        unfold logWait in Hw. cbn [ip_loggedAt] in Hw. unfold timeBetween, ingressLogInterval, nanos, i64_max, i64_min in *. lia.
      * intros t' [= <-]. lia.
Qed.

Lemma kinv_start now p r lines ws1 w ws2 ds : kinv now p r lines (ws1 ++ w :: ws2) ds → kinv now p r lines (ws1 ++ ws2) (now + w :: ds).
Proof.
  destruct p as [p|]; [|intros (_ & _ & H & _); by destruct ws1]. intros [A B C D E F]. split; [done..|]. destruct (ip_flushing p); [|destruct F as (H & _); by destruct ws1].
  destruct F as (t & Et & [(w' & Hw & -> & Hi & Ht)|(d & Hw & _)]); [|by destruct ws1]. exists t. split; [done|]. right. exists (now + w).
  destruct ws1 as [|? [|]]; [|done..]. injection Hw as -> ->. by split_and!.
Qed.

Lemma kinv_fire now t p r lines ws ds1 d ds2 :
  now ≤ t → d ≤ t → kinv now p r lines ws (ds1 ++ d :: ds2) →
  ∃ p0, p = Some p0 ∧ let '(line, p') := takeLocked t (setFlushing false p0) in kinv t (Some p') r ((il_count line, t) :: lines) ws (ds1 ++ ds2).
Proof.
  intros Hn Hd. destruct p as [p|]; [|intros (_ & _ & _ & H); by destruct ds1]. intros [A B C D E F]. exists p. split; [done|].
  cbn [takeLocked]. unfold setFlushing. cbn [ip_count ip_loggedAt ip_flushing ip_classes il_count].
  destruct (ip_flushing p); [|destruct F as (_ & H & _); by destruct ds1].
  destruct F as (t0 & Et & [(w & _ & H & _)|(d' & -> & Hds & Hd')]); [by destruct ds1|]. destruct ds1 as [|? [|]]; [|done..]. injection Hds as -> ->.
  split; cbn [ip_count ip_loggedAt ip_flushing head fmap option_fmap option_map snd]; [cbn [sumCounts foldr fst]; fold (sumCounts lines); lia|cbn [sumCounts foldr fst]; fold (sumCounts lines); lia| |done| |by split_and!].
  - destruct lines as [|[c1 t1] lines]; [done|]. split; [|done]. rewrite D in Et. injection Et as ->. cbn [snd]. lia.
  - intros t' [= <-]. done.
Qed.

(** ** Every key *)
Lemma ofKey_cons {A} key k (x : A) l : ofKey key ((k, x) :: l) = (if decide (k = key) then [x] else []) ++ ofKey key l.
Proof. unfold ofKey. rewrite filter_cons. cbn [fst]. by case_decide. Qed.

Lemma ofKey_app {A} key (l l' : list (ingressLogKey * A)) : ofKey key (l ++ l') = ofKey key l ++ ofKey key l'.
Proof. unfold ofKey. by rewrite filter_app, fmap_app. Qed.

Lemma timesOf_cons p k l : timesOf p (k :: l) = (if p k then 1 else 0) + timesOf p l.
Proof. unfold timesOf. rewrite filter_cons. destruct (p k); cbn [length]; [rewrite decide_True by done|rewrite decide_False by done]; cbn [length]; lia. Qed.

Lemma timesOf_le p l : 0 ≤ timesOf p l ≤ Z.of_nat (length l).
Proof. unfold timesOf. pose proof (length_filter (λ k, p k = true) l). lia. Qed.

Definition volumeReason (r : string) : bool := bool_decide (r = RefusalVolumeDropped ∨ r = refusalHeldLimit).
Definition tooLargeOf (family : string) (k : ingressLogKey) : bool := bool_decide (k.1 = family ∧ k.2 = RefusalPayloadTooLarge).
Definition volumeOf (family : string) (k : ingressLogKey) : bool := bool_decide (k.1 = family) && volumeReason k.2.

Record linv (c : lconf) : Prop := MkLinv {
  li_keys : ∀ key, kinv (lc_now c) (is_unlogged (lc_stats c) !! key) (timesOf (isKey key) (lc_refused c))
                     (ofKey key (lc_taken c)) (ofKey key (lc_starting c)) (ofKey key (lc_timers c));
  li_counts : ∀ family, default (MkCount 0 0) (is_counts (lc_stats c) !! family) =
                     MkCount (timesOf (tooLargeOf family) (lc_refused c)) (timesOf (volumeOf family) (lc_refused c)) }.

Lemma tooLargeOf_key family f reason : tooLargeOf f (family, reason) = bool_decide (family = f ∧ reason = RefusalPayloadTooLarge).
Proof. done. Qed.
Lemma volumeOf_key family f reason : volumeOf f (family, reason) = bool_decide (family = f) && volumeReason reason.
Proof. done. Qed.

Lemma countRefusal_spec family reason l :
  Z.of_nat (length l) + 1 < 2 ^ 64 →
  countRefusal reason (MkCount (timesOf (tooLargeOf family) l) (timesOf (volumeOf family) l)) =
  MkCount (timesOf (tooLargeOf family) ((family, reason) :: l)) (timesOf (volumeOf family) ((family, reason) :: l)).
Proof.
  intros Hl. pose proof (timesOf_le (tooLargeOf family) l). pose proof (timesOf_le (volumeOf family) l). rewrite !timesOf_cons, tooLargeOf_key, volumeOf_key.
  unfold countRefusal, volumeReason. cbn [ic_PayloadTooLarge ic_VolumeDropped]. rewrite (bool_decide_true (family = family)) by done. cbn [andb].
  destruct (decide (reason = RefusalPayloadTooLarge)) as [->|H1].
  - rewrite bool_decide_true by done. rewrite bool_decide_false by (by intros [?|?]). rewrite wrapU64_id by lia. f_equal; lia.
  - rewrite (bool_decide_false (_ ∧ _)) by (by intros [_ ?]). case_decide as H2; [rewrite bool_decide_true by done; rewrite wrapU64_id by lia|rewrite bool_decide_false by done]; f_equal; lia.
Qed.

Lemma after_parts key t a c s :
  lc_now (after key t a c s) = t ∧ lc_stats (after key t a c s) = s ∧ lc_refused (after key t a c s) = key :: lc_refused c ∧
  lc_timers (after key t a c s) = lc_timers c ∧
  lc_starting (after key t a c s) = ((λ w, (key, w)) <$> addsWaits a) ++ lc_starting c ∧ lc_taken (after key t a c s) = ((λ x, (key, x)) <$> addsLines t a) ++ lc_taken c.
Proof. by destruct a. Qed.

Lemma ofKey_same {A} key (l : list A) : ofKey key ((λ x, (key, x)) <$> l) = l.
Proof. induction l as [|x l IH]; [done|]. rewrite fmap_cons, ofKey_cons, decide_True by done. cbn [app]. by f_equal. Qed.

Lemma ofKey_other {A} key k (l : list A) : k ≠ key → ofKey key ((λ x, (k, x)) <$> l) = [].
Proof. intros H. induction l as [|x l IH]; [done|]. rewrite fmap_cons, ofKey_cons, decide_False by done. done. Qed.

Lemma lstep_inv c c' : lstep c c' → Z.of_nat (length (lc_refused c')) < 2 ^ 64 → linv c → linv c'.
Proof.
  intros Hs Hlen [K N]. destruct Hs as [c t Ht|c family reason len t1 t2 a s Ht Hr|c key w l1 l2 Hl|c key due t line s l1 l2 Hl Hd Ht Hf].
  - split; [|done]. intros key. eapply kinv_tick; [done|apply K].
  - destruct (after_parts (family, reason) t2 a c s) as (E1 & E2 & E3 & E4 & E5 & E6). rewrite E3 in Hlen. cbn [length] in Hlen.
    rewrite refuse_pending in Hr. destruct (refusePending _ _ _ _ _) as [a' p'] eqn:Ep. injection Hr as -> <-. split; rewrite E2, E3.
    + intros key. rewrite E1, E4, E5, E6, !ofKey_app, timesOf_cons. unfold isKey at 1. cbn [is_unlogged]. destruct (decide ((family, reason) = key)) as [<-|Hk].
      * rewrite lookup_insert_eq, !ofKey_same, bool_decide_true, Z.add_comm by done. eapply kinv_refuse; [done| |apply K|exact Ep]. pose proof (timesOf_le (isKey (family, reason)) (lc_refused c)). lia.
      * rewrite lookup_insert_ne, !ofKey_other, bool_decide_false by done. cbn [app]. eapply kinv_tick; [|apply K]. lia.
    + intros f. cbn [is_counts]. destruct (decide (family = f)) as [<-|Hf].
      * rewrite lookup_insert_eq. cbn [default from_option id]. rewrite N. apply countRefusal_spec. lia.
      * rewrite lookup_insert_ne, N, !timesOf_cons, tooLargeOf_key, volumeOf_key by done.
        rewrite (bool_decide_false (family = f)), (bool_decide_false (family = f ∧ _)) by (done || by intros [? _]). done.
  - split; [|done]. intros key0. cbn [lc_now lc_stats lc_refused lc_taken lc_starting lc_timers]. specialize (K key0). rewrite Hl in K. rewrite !ofKey_app, !ofKey_cons in *. case_decide; cbn [app] in *; [by apply kinv_start|done].
  - unfold flush in Hf. specialize (K key) as Kk. rewrite Hl, ofKey_app, ofKey_cons, decide_True in Kk by done. cbn [app] in Kk.
    destruct (kinv_fire _ t _ _ _ _ _ _ _ Ht Hd Kk) as (p0 & Ep & Hk). rewrite Ep in Hf. destruct (takeLocked t (setFlushing false p0)) as [line' p']. injection Hf as -> <-.
    split; [|done]. intros key0. cbn [lc_now lc_stats lc_refused lc_taken lc_starting lc_timers putPending is_unlogged]. rewrite ofKey_cons, ofKey_app.
    destruct (decide (key = key0)) as [<-|Hne]; [by rewrite lookup_insert_eq|]. rewrite lookup_insert_ne by done. cbn [app].
    specialize (K key0). rewrite Hl, ofKey_app, ofKey_cons, decide_False in K by done. by eapply kinv_tick.
Qed.

Lemma lstep_refused c c' : lstep c c' → (length (lc_refused c) ≤ length (lc_refused c'))%nat.
Proof. destruct 1; cbn; try lia. destruct a; cbn; lia. Qed.

Lemma lsteps_inv c c' : rtc lstep c c' → Z.of_nat (length (lc_refused c')) < 2 ^ 64 → linv c → linv c'.
Proof.
  induction 1 as [|c c1 c' H1 H2 IH]; [done|]. intros Hl Hi. apply IH; [done|]. eapply lstep_inv; [done| |done].
  assert (length (lc_refused c1) ≤ length (lc_refused c'))%nat; [|lia]. clear -H2. induction H2 as [|? ? ? H]; [done|]. apply lstep_refused in H. lia.
Qed.

Lemma linit_inv t : linv (linit t).
Proof. split; [|done]. intros key. unfold linit, NewIngressStats. cbn [lc_stats is_unlogged]. rewrite lookup_empty. by split_and!. Qed.

(** However refusals, timers and the clock interleave, every refusal is
    counted under its family and, for each family and reason, is on a line
    already taken or waits for one: the counts of the lines and what is
    pending add up to the refusals. A line is at least a second after the one
    before. What is pending has its timer, started or about to be, and a timer
    that fires finds its record, so once no timer is left every refusal was
    logged. *)
Theorem refusals_are_logged t c :
  rtc lstep (linit t) c → Z.of_nat (length (lc_refused c)) < 2 ^ 64 →
  (∀ family, default (MkCount 0 0) (Snapshot (lc_stats c) !! family) =
     MkCount (timesOf (tooLargeOf family) (lc_refused c)) (timesOf (volumeOf family) (lc_refused c))) ∧
  (∀ key, timesOf (isKey key) (lc_refused c) = sumCounts (ofKey key (lc_taken c)) + default 0 (ip_count <$> is_unlogged (lc_stats c) !! key) ∧
     spaced (ofKey key (lc_taken c)) ∧
     (ofKey key (lc_starting c) = [] → ofKey key (lc_timers c) = [] → timesOf (isKey key) (lc_refused c) = sumCounts (ofKey key (lc_taken c)))) ∧
  (∀ key due now, (key, due) ∈ lc_timers c → is_Some (flush key now (lc_stats c))).
Proof.
  intros Hr Hl. pose proof (lsteps_inv _ _ Hr Hl (linit_inv t)) as [K N]. split; [exact N|]. split.
  - intros key. specialize (K key). destruct (is_unlogged (lc_stats c) !! key) as [p|]; cbn [kinv fmap option_fmap option_map default from_option id] in *.
    + destruct K as [A B C D E F]. split_and!; [done|done|]. intros H1 H2. rewrite A. destruct (ip_flushing p); [|destruct F as (_ & _ & ->); lia].
      destruct F as (? & _ & [(w & H & _)|(d & _ & H & _)]); congruence.
    + destruct K as (-> & -> & _). by split_and!.
  - intros key due now Hin. specialize (K key). apply list_elem_of_split in Hin as (l1 & l2 & El). rewrite El, ofKey_app, ofKey_cons, decide_True in K by done.
    unfold flush. destruct (is_unlogged (lc_stats c) !! key); [by eexists|]. destruct K as (_ & _ & _ & K). by destruct (ofKey key l1).
Qed.

Definition sampleKey : ingressLogKey := (FamilyRuntimeHeartbeat, RefusalVolumeDropped).
Definition sampleRefuse (c : lconf) : lconf :=
  let '(a, s) := refuse FamilyRuntimeHeartbeat RefusalVolumeDropped 10 (lc_now c) (lc_now c) (lc_stats c) in after sampleKey (lc_now c) a c s.
Definition sampleLog : lconf := sampleRefuse (sampleRefuse (sampleRefuse (linit 5))).

(** Three refusals at once: one line, and the other two wait for the timer. *)
Lemma refusals_are_logged_witness :
  ofKey sampleKey (lc_taken sampleLog) = [(1, 5)] ∧ ofKey sampleKey (lc_starting sampleLog) = [nanos] ∧
  timesOf (isKey sampleKey) (lc_refused sampleLog) = sumCounts (ofKey sampleKey (lc_taken sampleLog)) + default 0 (ip_count <$> is_unlogged (lc_stats sampleLog) !! sampleKey).
Proof.
  split; [vm_compute; reflexivity|]. split; [vm_compute; reflexivity|].
  destruct (refusals_are_logged 5 sampleLog) as (_ & H & _); [|vm_compute; reflexivity|exact (proj1 (H sampleKey))].
  assert (∀ c, lstep c (sampleRefuse c)) as Hs.
  { intros c. unfold sampleRefuse. destruct (refuse _ _ _ _ _ _) as [a s] eqn:E. eapply l_refuse; [|exact E]. split; reflexivity. }
  eapply rtc_l; [apply Hs|]. eapply rtc_l; [apply Hs|]. eapply rtc_l; [apply Hs|]. apply rtc_refl.
Defined.
End BrokerLog.
