(* ===== verification/Broker.v ===== *)
(** * The broker client (broker/broker.go)

    A client keeps whether it is connected and its subscriptions; each
    subscription has a handler and a gate of its own that a reconnect keeps.
    Every message paho routes passes the gate before its handler runs, and a
    handler's panic ends there. The MQTT library is outside: what its tokens
    report, which callbacks it makes and which messages it routes are inputs.
    Gates live in a heap, since a subscription and the closures handed to the
    library share one; handlers are numbered, as the code compares them by
    address. *)
From S2P Require Import Prelude GoBytes Json Float64 FloatBounds Contracts TokenBucket BrokerIngress BrokerIngressSpec.

Module Broker.
Import Float64 Contracts BrokerIngress BrokerIngressSpec.

Definition defaultReconnectInitial : Z := 1 * nanos.
Definition defaultReconnectMax : Z := 30 * nanos.

Definition ErrNotConnected : error := EMsg "broker: not connected".
Definition ErrAlreadyConnected : error := EMsg "broker: already connected".
Definition ErrSubscriptionExists : error := EMsg "broker: subscription already exists with a different handler".
Definition ErrInvalidQoS : error := EMsg "broker: qos must be 0, 1, or 2".
Definition ErrEmptyTopic : error := EMsg "broker: topic must not be empty".
Definition ErrEmptyClientID : error := EMsg "broker: client id must not be empty".
Definition ErrEmptyBrokerURL : error := EMsg "broker: broker url must not be empty".
Definition DeadlineExceeded : error := EMsg "context deadline exceeded".

Definition QoSHeartbeat : Z := 0.
Definition QoSReasoning : Z := 1.

(** ** Construction *)
Record Options := MkOptions {
  op_BrokerURL : string; op_ClientID : string; op_PersistentSession : bool; op_ReconnectInitial : Z; op_ReconnectMax : Z; op_Devices : list string }.

Record subscription := MkSub { sb_qos : Z; sb_handler : nat; sb_gate : nat }.

(** The client, the gates of its subscriptions, the statistics it shares, and
    the closures handed to the library so far. *)
Record Client := MkClient {
  bc_opts : Options; bc_connected : bool; bc_subscriptions : gmap string subscription;
  bc_gates : list ingressGate; bc_ingress : IngressStats; bc_routes : list (string * subscription) }.

Definition withDefaults (o : Options) : Options :=
  MkOptions (op_BrokerURL o) (op_ClientID o) (op_PersistentSession o)
    (if op_ReconnectInitial o =? 0 then defaultReconnectInitial else op_ReconnectInitial o)
    (if op_ReconnectMax o =? 0 then defaultReconnectMax else op_ReconnectMax o) (op_Devices o).

Definition New (o : Options) (ingress : IngressStats) : res Client :=
  if bool_decide (op_BrokerURL o = "") then Err ErrEmptyBrokerURL
  else if bool_decide (op_ClientID o = "") then Err ErrEmptyClientID
  else Ok (MkClient (withDefaults o) false ∅ [] ingress []).

Definition setConnected (b : bool) (c : Client) : Client :=
  MkClient (bc_opts c) b (bc_subscriptions c) (bc_gates c) (bc_ingress c) (bc_routes c).
Definition setSubscriptions (m : gmap string subscription) (c : Client) : Client :=
  MkClient (bc_opts c) (bc_connected c) m (bc_gates c) (bc_ingress c) (bc_routes c).
Definition addRoutes (l : list (string * subscription)) (c : Client) : Client :=
  MkClient (bc_opts c) (bc_connected c) (bc_subscriptions c) (bc_gates c) (bc_ingress c) (bc_routes c ++ l).
Definition addGate (g : ingressGate) (c : Client) : Client :=
  MkClient (bc_opts c) (bc_connected c) (bc_subscriptions c) (bc_gates c ++ [g]) (bc_ingress c) (bc_routes c).
Definition setGate (i : nat) (g : ingressGate) (s : IngressStats) (c : Client) : Client :=
  MkClient (bc_opts c) (bc_connected c) (bc_subscriptions c) (<[i := g]> (bc_gates c)) s (bc_routes c).

(** ** Waiting for a token *)
Inductive woken := TokenDone | ContextDone | BoundPassed.

(** [waitToken]: what ended the first [select], whether the token had
    completed by the second, the token's error and the context's error before
    and after. *)
Definition waitToken (ctxErr : option error) (woke : woken) (doneByThen : bool) (tokenErr ctxErr' : option error) : option error :=
  match ctxErr with
  | Some e => Some e
  | None =>
    match woke with
    | TokenDone => tokenErr
    | _ => if doneByThen then tokenErr else Some (default DeadlineExceeded ctxErr')
    end
  end.

(** How a call to the library went. *)
Record attempt := MkAttempt { at_ctxErr : option error; at_woke : woken; at_done : bool; at_tokenErr : option error; at_ctxErr' : option error }.
Definition waited (a : attempt) : option error := waitToken (at_ctxErr a) (at_woke a) (at_done a) (at_tokenErr a) (at_ctxErr' a).

(** ** Connecting *)

(** The check before the library is asked. *)
Definition connectStart (ctxErr : option error) (c : Client) : res unit :=
  match ctxErr with
  | Some e => Err e
  | None => if bc_connected c then Err ErrAlreadyConnected else Ok tt
  end.

Definition connectEnd (a : attempt) (c : Client) : res unit * Client :=
  match waited a with
  | Some e => (Err e, c)
  | None => match at_tokenErr a with None => (Ok tt, setConnected true c) | Some e => (Err e, c) end
  end.

Definition disconnectStart (ctxErr : option error) (c : Client) : res bool :=
  match ctxErr with Some e => Err e | None => Ok (bc_connected c) end.
Definition disconnectEnd (c : Client) : Client := setConnected false c.

(** The library's callbacks. *)
Definition onConnectionLost (c : Client) : Client := setConnected false c.
Definition resubscribeAll (c : Client) : Client := addRoutes (map_to_list (bc_subscriptions c)) c.
Definition onConnect (c : Client) : Client := resubscribeAll (setConnected true c).

Definition IsConnected (c : Client) : bool := bc_connected c.

(** ** Subscribing and publishing *)
Definition validateQoS (qos : Z) : res unit := if 2 <? qos then Err ErrInvalidQoS else Ok tt.

(** Up to the call of the library: [Ok None] when the subscription is there
    already. [handler] is [None] for nil. *)
Definition subscribeStart (visit : list string) (ctxErr : option error) (topic : string) (qos : Z) (handler : option nat) (now : Z) (c : Client) :
    res (option subscription) * Client :=
  match ctxErr with
  | Some e => (Err e, c)
  | None =>
    if bool_decide (topic = "") then (Err ErrEmptyTopic, c)
    else match validateQoS qos with
    | Err e => (Err e, c)
    | Ok _ =>
      match handler with
      | None => (Err (EMsg "broker: handler must not be nil"), c)
      | Some h =>
        match newIngressGate visit topic (op_Devices (bc_opts c)) now with
        | Err e => (Err e, c)
        | Ok gate =>
          if negb (bc_connected c) then (Err ErrNotConnected, c)
          else match bc_subscriptions c !! topic with
          | Some existing =>
            if (sb_qos existing =? qos) && bool_decide (sb_handler existing = h) then (Ok None, c) else (Err ErrSubscriptionExists, c)
          | None =>
            let sub := MkSub qos h (length (bc_gates c)) in
            (Ok (Some sub), addRoutes [(topic, sub)] (setSubscriptions (<[topic := sub]> (bc_subscriptions c)) (addGate gate c)))
          end
        end
      end
    end
  end.

(** After it: a failed subscription is forgotten. *)
Definition subscribeEnd (topic : string) (a : attempt) (c : Client) : res unit * Client :=
  match waited a with
  | Some e => (Err e, setSubscriptions (delete topic (bc_subscriptions c)) c)
  | None => match at_tokenErr a with
            | None => (Ok tt, c)
            | Some e => (Err e, setSubscriptions (delete topic (bc_subscriptions c)) c)
            end
  end.

(** [Publish] up to the call of the library, and its answer. *)
Definition publishStart (ctxErr : option error) (topic : string) (qos : Z) (c : Client) : res unit :=
  match ctxErr with
  | Some e => Err e
  | None =>
    if bool_decide (topic = "") then Err ErrEmptyTopic
    else match validateQoS qos with
    | Err e => Err e
    | Ok _ => if bc_connected c then Ok tt else Err ErrNotConnected
    end
  end.
Definition publishEnd (a : attempt) : res unit :=
  match waited a with Some e => Err e | None => match at_tokenErr a with None => Ok tt | Some e => Err e end end.

(** ** Messages *)
Record message := MkMessage { ms_topic : string; ms_payload : string; ms_retained : bool }.

Section Handling.
Context (DecodeStrict : list string → string → option strictError).
(** A handler's effects on the rest of the process, and whether it panicked. *)
Context {W : Type} (handle : nat → string → string → W → bool * W).

(** What became of a message. *)
Inductive fate := RefusedAtGate (reason : string) | RetainedRejected | Handled | HandlerPanicked.

(** The closure [wrapHandler] returns; [t0] is the gate's clock reading, [t1]
    and [t2] those of the statistics. [None] for a gate that does not exist. *)
Definition wrapHandler (sub : subscription) (m : message) (t0 t1 t2 : Z) (c : Client) (w : W) : option (fate * afterRefusal * Client * W) :=
  match bc_gates c !! sb_gate sub with
  | None => None
  | Some g =>
    let '(reason, g') := judgeVolume (ms_topic m) (slen (ms_payload m)) t0 g in
    let '(_, a, s') := recordRefusal g reason (slen (ms_payload m)) t1 t2 (bc_ingress c) in
    let c1 := setGate (sb_gate sub) g' s' c in
    match reason with
    | Some r => Some (RefusedAtGate r, a, c1, w)
    | None =>
      if ms_retained m then Some (RetainedRejected, NothingMore, c1, w)
      else
        let reason2 := judgeMembers DecodeStrict (ms_payload m) g' in
        let '(_, a2, s2) := recordRefusal g' reason2 (slen (ms_payload m)) t1 t2 s' in
        let c2 := setGate (sb_gate sub) g' s2 c1 in
        match reason2 with
        | Some r => Some (RefusedAtGate r, a2, c2, w)
        | None => let '(panicked, w') := handle (sb_handler sub) (ms_topic m) (ms_payload m) w in
                  Some (if panicked then HandlerPanicked else Handled, NothingMore, c2, w')
        end
    end
  end.

(** ** A client's life *)
Inductive bstep (visit : list string) : Client * W → Client * W → Prop :=
| b_connected a c w r c' : connectEnd a c = (r, c') → bstep visit (c, w) (c', w)
| b_disconnected c w : bstep visit (c, w) (disconnectEnd c, w)
| b_lost c w : bstep visit (c, w) (onConnectionLost c, w)
| b_onConnect c w : bstep visit (c, w) (onConnect c, w)
| b_subscribing ctxErr topic qos handler now c w r c' :
    subscribeStart visit ctxErr topic qos handler now c = (r, c') → bstep visit (c, w) (c', w)
| b_subscribed topic a c w r c' : subscribeEnd topic a c = (r, c') → bstep visit (c, w) (c', w)
| b_message topic sub m t0 t1 t2 c w f a c' w' :
    (topic, sub) ∈ bc_routes c → wrapHandler sub m t0 t1 t2 c w = Some (f, a, c', w') → slen (ms_payload m) ≤ i64_max →
    bstep visit (c, w) (c', w')
| b_others c w w' : bstep visit (c, w) (c, w').

(** A subscription of a topic has a gate of the topic's family. *)
Definition gated (visit : list string) (c : Client) (topic : string) (sub : subscription) : Prop :=
  ∃ g, bc_gates c !! sb_gate sub = Some g ∧ wfGate g ∧ PayloadFamily visit topic = Some (ig_family g).

(** The gates of two topics are two. *)
Definition ownGates (l : list (string * subscription)) : Prop :=
  ∀ t1 s1 t2 s2, (t1, s1) ∈ l → (t2, s2) ∈ l → sb_gate s1 = sb_gate s2 → t1 = t2.

Record binv (visit : list string) (c : Client) : Prop := MkBinv {
  bi_routes : ∀ topic sub, (topic, sub) ∈ bc_routes c → gated visit c topic sub;
  bi_subs : ∀ topic sub, bc_subscriptions c !! topic = Some sub → (topic, sub) ∈ bc_routes c;
  bi_own : ownGates (bc_routes c) }.

Lemma gated_gates visit c c' topic sub :
  (∀ i g, bc_gates c !! i = Some g → ∃ g', bc_gates c' !! i = Some g' ∧ (wfGate g → wfGate g') ∧ ig_family g' = ig_family g) →
  gated visit c topic sub → gated visit c' topic sub.
Proof. intros H (g & E & W0 & F). destruct (H _ _ E) as (g' & E' & W' & F'). exists g'. rewrite F'. auto. Qed.

Lemma judgeVolume_gate topic len now g reason g' :
  judgeVolume topic len now g = (reason, g') → 0 ≤ len ≤ i64_max → (wfGate g → wfGate g') ∧ ig_family g' = ig_family g ∧ ig_maximum g' = ig_maximum g.
Proof.
  intros E Hl. split.
  - intros Wg. pose proof (judge_wf (MkArrival topic len now) g Wg Hl) as H. unfold judge in H. cbn [ar_topic ar_length ar_now] in H. by rewrite E in H.
  - destruct (judge_cases (MkArrival topic len now) g) as [[Ej _]|(_ & b & _ & Ej)]; unfold judge in Ej; cbn [ar_topic ar_length ar_now] in Ej; cbv zeta in Ej; rewrite E in Ej; injection Ej as _ ->; [done|].
    split; apply gate_put_same.
Qed.

(** Everything a message can do to the client. *)
Lemma wrapHandler_client sub m t0 t1 t2 c w f a c' w' :
  wrapHandler sub m t0 t1 t2 c w = Some (f, a, c', w') →
  ∃ g reason g', bc_gates c !! sb_gate sub = Some g ∧ judgeVolume (ms_topic m) (slen (ms_payload m)) t0 g = (reason, g') ∧
    bc_gates c' = <[sb_gate sub := g']> (bc_gates c) ∧ bc_opts c' = bc_opts c ∧ bc_connected c' = bc_connected c ∧
    bc_subscriptions c' = bc_subscriptions c ∧ bc_routes c' = bc_routes c.
Proof.
  unfold wrapHandler. destruct (bc_gates c !! sb_gate sub) as [g|] eqn:Eg; [|done]. destruct (judgeVolume _ _ t0 g) as [reason g'] eqn:Ej.
  destruct (recordRefusal g reason _ _ _ _) as [[? a1] s1]. intros H. exists g, reason, g'. split; [done|]. split; [done|]. destruct reason as [r|].
  { injection H as <- <- <- <-. done. }
  destruct (ms_retained m); [by injection H as <- <- <- <-|]. destruct (recordRefusal g' _ _ _ _ _) as [[? a2] s2]. destruct (judgeMembers _ _ g').
  - injection H as <- <- <- <-. cbn. by rewrite list_insert_insert_eq.
  - destruct (handle _ _ _ w) as [p w2]. injection H as <- <- <- <-. cbn. by rewrite list_insert_insert_eq.
Qed.

Lemma wrapHandler_gates sub m t0 t1 t2 c w f a c' w' i g :
  wrapHandler sub m t0 t1 t2 c w = Some (f, a, c', w') → slen (ms_payload m) ≤ i64_max → bc_gates c !! i = Some g →
  ∃ g', bc_gates c' !! i = Some g' ∧ (wfGate g → wfGate g') ∧ ig_family g' = ig_family g.
Proof.
  intros (g0 & reason & g' & E0 & Ej & -> & _)%wrapHandler_client Hl Ei. destruct (decide (i = sb_gate sub)) as [->|Hn].
  - rewrite E0 in Ei. injection Ei as ->. exists g'. rewrite list_lookup_insert_eq by (by eapply lookup_lt_Some). split; [done|].
    apply judgeVolume_gate in Ej as (? & ? & _); [done|]. unfold slen in *. lia.
  - exists g. by rewrite list_lookup_insert_ne.
Qed.

Lemma binv_same visit c c' :
  bc_gates c' = bc_gates c → bc_routes c' = bc_routes c → bc_subscriptions c' ⊆ bc_subscriptions c → binv visit c → binv visit c'.
Proof.
  intros Eg Er Es [R S O]. split; rewrite ?Er; [|intros topic sub H; apply S; by eapply lookup_weaken|done]. intros topic sub H%R. unfold gated in *. by rewrite Eg.
Qed.

Lemma connected_inv visit b c : binv visit c → binv visit (setConnected b c).
Proof. intros H. by apply (binv_same visit c). Qed.

Lemma subscribeStart_inv visit ctxErr topic qos handler now c r c' :
  subscribeStart visit ctxErr topic qos handler now c = (r, c') → binv visit c → binv visit c'.
Proof.
  unfold subscribeStart. destruct ctxErr; [by intros [= <- <-]|]. case_bool_decide as Ht0; [by intros [= <- <-]|]. destruct (validateQoS qos); [|by intros [= <- <-]].
  destruct handler as [h|]; [|by intros [= <- <-]]. destruct (newIngressGate _ _ _ _) as [g|] eqn:Eg; [|by intros [= <- <-]].
  destruct (bc_connected c); [|by intros [= <- <-]]. cbn [negb]. destruct (bc_subscriptions c !! topic) as [e|] eqn:Es; [destruct (_ && _); by intros [= <- <-]|].
  intros [= <- <-] [R S O]. destruct (new_gate _ _ _ _ _ Eg) as (Wg & Fg & _).
  assert (Hlt : ∀ t s, (t, s) ∈ bc_routes c → (sb_gate s < length (bc_gates c))%nat) by (intros t s (g0 & E0 & _)%R; by eapply lookup_lt_Some).
  split; cbn [addRoutes setSubscriptions addGate bc_routes bc_subscriptions bc_gates].
  - intros t s [H|H%list_elem_of_singleton]%elem_of_app.
    + destruct (R t s H) as (g0 & E0 & ?). exists g0. split; [|done]. by apply lookup_app_l_Some.
    + injection H as -> ->. exists g. split; [|done]. cbn [sb_gate bc_gates addRoutes setSubscriptions addGate]. by rewrite lookup_app_r, Nat.sub_diag by lia.
  - intros t s. destruct (decide (topic = t)) as [<-|Hn].
    + rewrite lookup_insert_eq. intros [= <-]. apply elem_of_app. right. by apply list_elem_of_singleton.
    + rewrite lookup_insert_ne by done. intros H%S. apply elem_of_app. by left.
  - intros t1 s1 t2 s2 H1 H2 E. apply elem_of_app in H1 as [H1|H1%list_elem_of_singleton], H2 as [H2|H2%list_elem_of_singleton].
    + by apply (O t1 s1 t2 s2).
    + injection H2 as -> ->. apply Hlt in H1. cbn in E. lia.
    + injection H1 as -> ->. apply Hlt in H2. cbn in E. lia.
    + congruence.
Qed.

Lemma onConnect_inv visit c : binv visit c → binv visit (onConnect c).
Proof.
  intros [R S O]. unfold onConnect, resubscribeAll. cbn [setConnected bc_subscriptions].
  assert (Hin : ∀ t s, (t, s) ∈ bc_routes c ++ map_to_list (bc_subscriptions c) → (t, s) ∈ bc_routes c).
  { intros t s [H|H%elem_of_map_to_list]%elem_of_app; auto. }
  split; cbn [addRoutes bc_routes bc_subscriptions setConnected].
  - intros t s H%Hin%R. exact H.
  - intros t s H%S. apply elem_of_app. by left.
  - intros t1 s1 t2 s2 H1%Hin H2%Hin. by apply O.
Qed.

Lemma bstep_inv visit x y : bstep visit x y → binv visit x.1 → binv visit y.1.
Proof.
  intros Hs Hi. destruct Hs as [a c w r c' E|c w|c w|c w|ctxErr topic qos handler now c w r c' E|topic a c w r c' E|topic sub m t0 t1 t2 c w f a c' w' Hr E Hl|c w w']; cbn [fst] in *.
  - unfold connectEnd in E. destruct (waited a); [by injection E as _ <-|]. destruct (at_tokenErr a); injection E as _ <-; [done|]. by apply connected_inv.
  - by apply connected_inv.
  - by apply connected_inv.
  - by apply onConnect_inv.
  - by eapply subscribeStart_inv.
  - unfold subscribeEnd in E. assert (Hd : binv visit (setSubscriptions (delete topic (bc_subscriptions c)) c)) by (apply (binv_same visit c); [done|done|apply delete_subseteq|done]).
    destruct (waited a); [by injection E as _ <-|]. destruct (at_tokenErr a); by injection E as _ <-.
  - pose proof (wrapHandler_client _ _ _ _ _ _ _ _ _ _ _ E) as (g & reason & g' & _ & _ & _ & _ & _ & Es & Er). destruct Hi as [R S O]. split; rewrite ?Er, ?Es; [|done..].
    intros t s H. eapply gated_gates; [|by apply R]. intros i g0 Ei. by eapply wrapHandler_gates.
  - done.
Qed.

Lemma New_inv visit o s c : New o s = Ok c → binv visit c.
Proof.
  unfold New. do 2 (case_bool_decide; [done|]). intros [= <-]. split; cbn.
  - by intros ? ? ?%elem_of_nil.
  - intros ? ?. by rewrite lookup_empty.
  - by intros ? ? ? ? ?%elem_of_nil.
Qed.

Lemma bsteps_inv visit x y : rtc (bstep visit) x y → binv visit x.1 → binv visit y.1.
Proof. induction 1; eauto using bstep_inv. Qed.

(** What a fate says of a message on a gate [g]. *)
Definition fateMeans (g : ingressGate) (sub : subscription) (m : message) (t0 t1 t2 : Z) (c c' : Client) (w w' : W) (f : fate) (a : afterRefusal) : Prop :=
  let payload := ms_payload m in
  let volume := (judgeVolume (ms_topic m) (slen payload) t0 g).1 in
  match f with
  | Handled | HandlerPanicked =>
    slen payload ≤ ig_maximum g ∧ volume = None ∧ ms_retained m = false ∧
    (∃ members, definedMembers !! ig_family g = Some members ∧ DecodeStrict members payload = None) ∧
    handle (sb_handler sub) (ms_topic m) payload w = (match f with HandlerPanicked => true | _ => false end, w') ∧ bc_ingress c' = bc_ingress c
  | RetainedRejected => volume = None ∧ ms_retained m = true ∧ w' = w ∧ bc_ingress c' = bc_ingress c
  | RefusedAtGate r =>
    refuse (ig_family g) r (slen payload) t1 t2 (bc_ingress c) = (a, bc_ingress c') ∧ w' = w ∧
    (volume = Some r ∨ volume = None ∧ ms_retained m = false ∧ judgeMembers DecodeStrict payload g = Some r)
  end.

Lemma judgeMembers_family payload g g' : ig_family g' = ig_family g → judgeMembers DecodeStrict payload g' = judgeMembers DecodeStrict payload g.
Proof. intros E. unfold judgeMembers. by rewrite E. Qed.

Lemma judgeMembers_admits payload g : judgeMembers DecodeStrict payload g = None → ∃ members, definedMembers !! ig_family g = Some members ∧ DecodeStrict members payload = None.
Proof.
  unfold judgeMembers, AdmitPayload. destruct (definedMembers !! ig_family g) as [members|]; [|done]. unfold admit_.
  destruct (DecodeStrict members payload) eqn:E; [done|]. intros _. by exists members.
Qed.

Lemma judgeVolume_admits topic len now g g' : judgeVolume topic len now g = (None, g') → len ≤ ig_maximum g.
Proof. unfold judgeVolume. destruct (Z.ltb_spec (ig_maximum g) len); [done|]. lia. Qed.

Lemma wrapHandler_fate sub m t0 t1 t2 c w g :
  bc_gates c !! sb_gate sub = Some g → slen (ms_payload m) ≤ i64_max →
  ∃ f a c' w', wrapHandler sub m t0 t1 t2 c w = Some (f, a, c', w') ∧ fateMeans g sub m t0 t1 t2 c c' w w' f a.
Proof.
  intros Eg Hl. unfold wrapHandler, fateMeans. rewrite Eg. destruct (judgeVolume _ _ t0 g) as [reason g'] eqn:Ej. cbn [fst].
  assert (Ef : ig_family g' = ig_family g). { apply judgeVolume_gate in Ej as (_ & ? & _); [done|]. unfold slen in *. lia. }
  destruct reason as [r|]; cbn [recordRefusal].
  - destruct (refuse (ig_family g) r _ t1 t2 _) as [a1 s1] eqn:Er. do 4 eexists. split; [done|]. cbn [setGate bc_ingress]. split_and!; [done..|by left].
  - destruct (ms_retained m) eqn:Et; [do 4 eexists; by split|]. rewrite (judgeMembers_family _ g g' Ef). destruct (judgeMembers _ _ g) as [r|] eqn:Em; cbn [recordRefusal].
    + rewrite Ef. cbn [setGate bc_ingress]. destruct (refuse (ig_family g) r _ t1 t2 _) as [a1 s1] eqn:Er. do 4 eexists. split; [done|]. cbn [setGate bc_ingress]. split; [exact Er|]. split; [reflexivity|]. right. repeat split.
    + destruct (handle _ _ _ w) as [[] w2] eqn:Eh; do 4 eexists; (split; [done|]); cbn [setGate bc_ingress]; apply judgeVolume_admits in Ej; apply judgeMembers_admits in Em; by split_and!.
Qed.

(** C33: In every state of a client's life, connects, losses, failed
    subscriptions and messages included, each closure the library holds has a
    gate of its own topic's family that no other topic shares. A message is
    handled only within the family's maximum, the device's rate and the member
    rule and when it is not retained; a refused one reaches no handler and is
    recorded once, under its family and reason; a handler's panic changes
    nothing but what the handler itself did. *)
Theorem messages_pass_their_gate visit o s c0 w0 c w topic sub m t0 t1 t2 :
  New o s = Ok c0 → rtc (bstep visit) (c0, w0) (c, w) → (topic, sub) ∈ bc_routes c → slen (ms_payload m) ≤ i64_max →
  (∀ topic' sub', (topic', sub') ∈ bc_routes c → sb_gate sub' = sb_gate sub → topic' = topic) ∧
  ∃ g f a c' w', bc_gates c !! sb_gate sub = Some g ∧ PayloadFamily visit topic = Some (ig_family g) ∧ PayloadMaxima !! ig_family g = Some (ig_maximum g) ∧
    wrapHandler sub m t0 t1 t2 c w = Some (f, a, c', w') ∧ fateMeans g sub m t0 t1 t2 c c' w w' f a ∧
    bc_connected c' = bc_connected c ∧ bc_subscriptions c' = bc_subscriptions c ∧ bc_routes c' = bc_routes c.
Proof.
  intros Hn Hr Hin Hl. pose proof (bsteps_inv visit _ _ Hr (New_inv visit _ _ _ Hn)) as [R S O]. cbn [fst] in *. split.
  { intros topic' sub' H E. by apply (O topic' sub' topic sub). }
  destruct (R topic sub Hin) as (g & Eg & Wg & Fg). destruct (wrapHandler_fate sub m t0 t1 t2 c w g Eg Hl) as (f & a & c' & w' & Ew & Hf).
  exists g, f, a, c', w'. destruct (wrapHandler_client _ _ _ _ _ _ _ _ _ _ _ Ew) as (? & ? & ? & _ & _ & _ & _ & Ec & Es & Er). split_and!; try done. apply Wg.
Qed.
End Handling.

(** ** A run *)
Definition sampleOptions : Options := MkOptions "tcp://b" "gw" false 0 0 ["d1"].
Definition sampleClient : Client := setConnected true (MkClient (withDefaults sampleOptions) false ∅ [] NewIngressStats []).
Definition subscribed : Client := (subscribeStart sampleVisit None heartbeats QoSHeartbeat (Some 0%nat) 0 sampleClient).2.
Definition sampleSub : subscription := MkSub QoSHeartbeat 0 0.
Definition sampleMessage : message := MkMessage "ori/d1/runtime/heartbeat" "{}" false.
Definition countHandler : nat → string → string → nat → bool * nat := λ _ _ _ n, (true, S n).

Lemma messages_pass_their_gate_witness :
  ∃ g c' a, wrapHandler (λ _ _, None) countHandler sampleSub sampleMessage 1 1 1 subscribed 0%nat = Some (HandlerPanicked, a, c', 1%nat) ∧
    fateMeans (λ _ _, None) countHandler g sampleSub sampleMessage 1 1 1 subscribed c' 0%nat 1%nat HandlerPanicked a.
Proof.
  destruct (messages_pass_their_gate (λ _ _, None) countHandler sampleVisit sampleOptions NewIngressStats
    (MkClient (withDefaults sampleOptions) false ∅ [] NewIngressStats []) 0%nat subscribed 0%nat heartbeats sampleSub sampleMessage 1 1 1)
    as (_ & g & f & a & c' & w' & _ & _ & _ & Ew & Hf & _).
  - reflexivity.
  - eapply rtc_l; [eapply (b_connected (λ _ _, None) countHandler sampleVisit (MkAttempt None TokenDone true None None)); reflexivity|].
    eapply rtc_l; [|apply rtc_refl]. apply (b_subscribing (λ _ _, None) countHandler sampleVisit None heartbeats QoSHeartbeat (Some 0%nat) 0 sampleClient 0%nat
      (subscribeStart sampleVisit None heartbeats QoSHeartbeat (Some 0%nat) 0 sampleClient).1). apply surjective_pairing.
  - vm_compute. apply list_elem_of_singleton. reflexivity.
  - vm_compute. discriminate.
  - exists g, c', a. assert (E : (λ r, (r.1.1.1, r.2)) <$> wrapHandler (λ _ _, None) countHandler sampleSub sampleMessage 1 1 1 subscribed 0%nat = Some (HandlerPanicked, 1%nat)) by (vm_compute; reflexivity).
    rewrite Ew in E. injection E as E1 E2. rewrite E1, E2 in Ew, Hf. split; [exact Ew|exact Hf].
Defined.
End Broker.
