(* ===== verification/PacerSpec.v ===== *)
(** * The export pacer's promise

    The requests a client starts towards one device are bounded over any
    window of its clock by the burst and the rate, whatever the callers do. *)
From Stdlib Require Import SpecFloat QArith Lqa.
From S2P Require Import Prelude GoBytes Json Float64 FloatBounds TokenBucket BrokerIngressSpec RuntimeClient.

Module PacerSpec.
Import Float64 FloatBounds TokenBucket RuntimeClient.
Import BrokerIngressSpec (qlen, qlen_cons, slack_nonneg, secs_split, secs_mono).

#[global] Instance pacer_sized : Sized exportBurst exportRatePerSecond.
Proof. split; vm_compute; (reflexivity || (split; discriminate) || discriminate). Qed.

(** Attempts at [times], for one device; the times a request was let go. *)
Fixpoint acquireAll (device : string) (times : list Z) (buckets : gmap string paceBucket) : list Z * gmap string paceBucket :=
  match times with
  | [] => ([], buckets)
  | now :: times' =>
    let '(r, b1) := tryAcquire now device buckets in
    let '(gone, b2) := acquireAll device times' b1 in
    (match r with Acquired => now :: gone | WaitFor _ => gone end, b2)
  end.

Fixpoint rising (t : Z) (l : list Z) : Prop := match l with [] => True | x :: l' => t ≤ x ∧ rising x l' end.

(** One attempt, on the bucket it finds or makes. *)
Lemma tryAcquire_bucket now device buckets :
  let b := default (MkBucket fzero now) (buckets !! device) in
  within exportBurst (pb_tokens b) → pb_last b ≤ now → now - pb_last b ≤ i64_max →
  ∃ r b', tryAcquire now device buckets = (r, <[device := b']> buckets) ∧ within exportBurst (pb_tokens b') ∧ pb_last b' = now ∧
    (val (pb_tokens b') + (match r with Acquired => 1 | WaitFor _ => 0 end) <=
       val (pb_tokens b) + secs (now - pb_last b) * val exportRatePerSecond + slack exportBurst)%Q ∧
    (val (pb_tokens b') + (match r with Acquired => 1 | WaitFor _ => 0 end) <= val exportBurst + slack exportBurst)%Q.
Proof.
  cbv zeta. set (b := default _ _). intros Hw Hl Hm. unfold tryAcquire. fold b. assert (E : timeBetween now (pb_last b) = now - pb_last b) by (unfold timeBetween, i64_max, i64_min in *; lia).
  rewrite E. pose proof (slack_nonneg exportBurst exportRatePerSecond _) as Hs.
  set (tk := if 0 <? now - pb_last b then _ else _).
  assert (Ht : within exportBurst tk ∧ (val tk <= val (pb_tokens b) + secs (now - pb_last b) * val exportRatePerSecond + (1 # 2) * slack exportBurst)%Q).
  { unfold tk. destruct (Z.ltb_spec 0 (now - pb_last b)).
    - destruct (refilled_spec exportBurst exportRatePerSecond (pb_tokens b) (now - pb_last b) Hw ltac:(lia)) as (? & ? & _). by split.
    - split; [done|]. replace (now - pb_last b) with 0 by lia. rewrite secs_0. lra. }
  clearbody tk. destruct Ht as [Wt Vt]. destruct (fleb (ofInt 1) tk) eqn:Ef.
  - destruct (spend_spec exportBurst exportRatePerSecond tk 1 Wt ltac:(done) Ef) as [W1 V1]. change (inject_Z 1) with 1%Q in V1. destruct Wt as [_ Wt].
    do 2 eexists. split; [done|]. cbn [pb_tokens pb_last]. split; [exact W1|]. split; [done|]. split; lra.
  - do 2 eexists. split; [done|]. cbn [pb_tokens pb_last]. split; [exact Wt|]. split; [done|]. destruct Wt as [_ Wt]. split; lra.
Qed.

Lemma acquire_accounted device times : ∀ buckets b stop,
  buckets !! device = Some b → within exportBurst (pb_tokens b) → rising (pb_last b) times → Forall (λ t, t ≤ stop) times → pb_last b ≤ stop → stop - pb_last b ≤ i64_max →
  (qlen (acquireAll device times buckets).1 <= val (pb_tokens b) + secs (stop - pb_last b) * val exportRatePerSecond + qlen times * slack exportBurst)%Q.
Proof.
  assert (Hr : (0 <= val exportRatePerSecond)%Q) by (vm_compute; discriminate).
  induction times as [|now times IH]; intros buckets b stop Eb Hw Ho Hs Hb Hm; cbn [acquireAll].
  { pose proof (Qmult_le_0_compat _ _ (secs_nonneg (stop - pb_last b) ltac:(lia)) Hr) as Hp. pose proof (val_nonneg _ (proj1 Hw)).
    cbn [fst]. change (qlen (@nil Z)) with 0%Q. lra. }
  destruct Ho as [Ho1 Ho]. apply Forall_cons in Hs as [Hs1 Hs].
  pose proof (tryAcquire_bucket now device buckets) as Ht. rewrite Eb in Ht. cbn [default from_option id] in Ht. destruct (Ht Hw Ho1 ltac:(lia)) as (r & b' & -> & W' & El & V1 & _).
  specialize (IH (<[device := b']> buckets) b' stop ltac:(by rewrite lookup_insert_eq) W' ltac:(by rewrite El) Hs ltac:(lia) ltac:(lia)). rewrite El in IH.
  destruct (acquireAll device times (<[device := b']> buckets)) as [gone bs]. cbn [fst] in *. rewrite qlen_cons, (secs_split (pb_last b) now stop).
  destruct r; rewrite ?qlen_cons; lra.
Qed.

(** In any window of the monotonic clock the requests let go towards one
    device are at most the burst, the rate times the window, and a
    ten-million-millionth of the burst for each attempt. *)
Theorem export_pace_bounded device first times buckets stop :
  (∀ b, buckets !! device = Some b → within exportBurst (pb_tokens b) ∧ pb_last b ≤ first ∧ first - pb_last b ≤ i64_max) →
  rising first times → Forall (λ t, t ≤ stop) times → first ≤ stop → stop - first ≤ i64_max →
  (qlen (acquireAll device (first :: times) buckets).1 <= val exportBurst + secs (stop - first) * val exportRatePerSecond + qlen (first :: times) * slack exportBurst)%Q.
Proof.
  intros Hb Ho Hs Hf Hm. cbn [acquireAll]. set (b := default (MkBucket fzero first) (buckets !! device)).
  assert (Hw : within exportBurst (pb_tokens b) ∧ pb_last b ≤ first ∧ first - pb_last b ≤ i64_max).
  { unfold b. destruct (buckets !! device) as [b0|]; [by apply Hb|]. cbn. split; [split; [done|]; vm_compute; discriminate|]. unfold i64_max. lia. }
  destruct Hw as (Hw & Hl & Hm'). destruct (tryAcquire_bucket first device buckets Hw Hl Hm') as (r & b' & -> & W' & El & _ & V2).
  pose proof (acquire_accounted device times (<[device := b']> buckets) b' stop ltac:(by rewrite lookup_insert_eq) W' ltac:(by rewrite El) Hs ltac:(lia) ltac:(lia)) as A. rewrite El in A.
  destruct (acquireAll device times (<[device := b']> buckets)) as [gone bs]. cbn [fst] in *. rewrite qlen_cons. destruct r; rewrite ?qlen_cons; lra.
Qed.
End PacerSpec.
