(* ===== verification/NetAddr.v ===== *)
(** * Addresses: what the sources use of [net] and [net/netip]

    [net.SplitHostPort], [netip.ParseAddr], [netip.ParsePrefix],
    [Prefix.Contains] and [Addr.IsLoopback]. An address is its number, with
    the zone of an IPv6 one; errors carry no text, since no caller reads it. *)
From S2P Require Import Prelude GoBytes Json Contracts.

Module NetAddr.
Import Contracts (split).

Definition dot : ascii := ".".
Definition colon : ascii := ":".

(** ** Strings *)
Fixpoint cutAt (c : ascii) (s : string) : option (string * string) :=
  match s with
  | EmptyString => None
  | String x r => if decide (x = c) then Some ("", r) else (λ p, (String x p.1, p.2)) <$> cutAt c r
  end.

(** The last occurrence. *)
Fixpoint cutLast (c : ascii) (s : string) : option (string * string) :=
  match s with
  | EmptyString => None
  | String x r =>
    match cutLast c r with
    | Some (a, b) => Some (String x a, b)
    | None => if decide (x = c) then Some ("", r) else None
    end
  end.

Definition containsByte (c : ascii) (s : string) : bool := match cutAt c s with Some _ => true | None => false end.

(** ** [net.SplitHostPort] *)
Definition SplitHostPort (hostport : string) : option (string * string) :=
  match cutLast colon hostport with
  | None => None
  | Some (before, port) =>
    match hostport with
    | String "[" rest =>
      match cutAt "]" rest with
      | None => None
      | Some (host, tail) =>
        (* the first ']' stands just before the last ':' *)
        if decide (tail = String colon port) then
          if containsByte "[" rest || containsByte "]" tail then None else Some (host, port)
        else None
      end
    | _ =>
      if containsByte colon before || containsByte "[" hostport || containsByte "]" hostport then None else Some (before, port)
    end
  end.

(** ** [netip.ParseAddr] *)
Inductive Addr := V4 (n : Z) | V6 (n : Z) (zone : string).

#[global] Instance Addr_eq_dec : EqDecision Addr.
Proof. solve_decision. Defined.

(** One octet: one to three digits, no leading zero, at most 255. *)
Definition octet (s : string) : option Z :=
  match s with
  | EmptyString => None
  | String c r =>
    if (match r with EmptyString => false | _ => true end) && bool_decide (c = "0"%char) then None
    else match readDigits s 0 with Some v => if 255 <? v then None else Some v | None => None end
  end.

Definition parseIPv4 (s : string) : option Z :=
  match split dot s with
  | [a; b; c; d] => x ← octet a; y ← octet b; z ← octet c; w ← octet d; Some (((x * 256 + y) * 256 + z) * 256 + w)
  | _ => None
  end.

(** The hexadecimal digits in front, with their value. *)
Fixpoint spanHex (s : string) (acc : Z) : nat * Z * string :=
  match s with
  | String c r => if is_hex c then let '(n, v, rest) := spanHex r (acc * 16 + hexVal c) in (S n, v, rest) else (O, acc, s)
  | EmptyString => (O, acc, s)
  end.

(** The loop over the fields: the 16-bit groups read, the place of the
    ellipsis and what is left. *)
Fixpoint fieldsV6 (fuel : nat) (s : string) (groups : list Z) (ellipsis : option nat) : option (list Z * option nat * string) :=
  match fuel with
  | O => Some (groups, ellipsis, s)
  | S fuel' =>
    let '(n, acc, rest) := spanHex s 0 in
    if decide (n = 0 ∨ 4 < n)%nat then None
    else match rest with
    | String "." _ =>
      if bool_decide (ellipsis = None) && negb (Nat.eqb (length groups) 6) then None
      else if Nat.ltb 6 (length groups) then None
      else v ← parseIPv4 s; Some (groups ++ [v / 65536; v mod 65536], ellipsis, "")
    | EmptyString => Some (groups ++ [acc], ellipsis, "")
    | String c EmptyString => None
    | String c (String c' r' as r) =>
      if decide (c = colon) then
        if decide (c' = colon) then
          if ellipsis then None
          else if decide (r' = "") then Some (groups ++ [acc], Some (S (length groups)), "")
          else fieldsV6 fuel' r' (groups ++ [acc]) (Some (S (length groups)))
        else fieldsV6 fuel' r (groups ++ [acc]) ellipsis
      else None
    end
  end.

Definition numberV6 (groups : list Z) : Z := foldl (λ n g, n * 65536 + g) 0 groups.

(** The groups with the ellipsis filled in. *)
Definition expandV6 (groups : list Z) (ellipsis : option nat) : option (list Z) :=
  if Nat.ltb (length groups) 8 then
    match ellipsis with
    | None => None
    | Some k => Some (take k groups ++ replicate (8 - length groups) 0 ++ drop k groups)
    end
  else if ellipsis then None else Some groups.

Definition parseIPv6 (input : string) : option Addr :=
  let '(s, zone) := match cutAt "%" input with Some (a, b) => (a, Some b) | None => (input, None) end in
  if bool_decide (zone = Some "") then None
  else
    let zone := default "" zone in
    let '(ellipsis, s) := match s with String ":" (String ":" r) => (Some 0%nat, r) | _ => (None, s) end in
    if bool_decide (ellipsis = Some 0%nat) && bool_decide (s = "") then Some (V6 0 zone)
    else
      '(groups, ellipsis, rest) ← fieldsV6 8 s [] ellipsis;
      if decide (rest = "") then gs ← expandV6 groups ellipsis; Some (V6 (numberV6 gs) zone) else None.

Fixpoint firstOf (s : string) : option ascii :=
  match s with
  | EmptyString => None
  | String c r => if bool_decide (c = dot) || bool_decide (c = colon) || bool_decide (c = "%"%char) then Some c else firstOf r
  end.

Definition ParseAddr (s : string) : option Addr :=
  match firstOf s with
  | Some "."%char => V4 <$> parseIPv4 s
  | Some ":"%char => parseIPv6 s
  | _ => None
  end.

(** ** Prefixes *)
Record Prefix := MkPrefix { px_ip : Addr; px_bits : Z }.

Definition is4In6 (a : Addr) : option Z :=
  match a with V6 n _ => if n / 2 ^ 32 =? 65535 then Some (n mod 2 ^ 32) else None | V4 _ => None end.

Definition IsLoopback (a : Addr) : bool :=
  match is4In6 a with
  | Some n => n / 2 ^ 24 =? 127
  | None => match a with V4 n => n / 2 ^ 24 =? 127 | V6 n _ => n =? 1 end
  end.

(** Bits are plain digits: no sign and no leading zero. *)
Definition ParsePrefix (s : string) : option Prefix :=
  '(addr, bits) ← cutLast "/" s;
  ip ← ParseAddr addr;
  if (match ip with V6 _ zone => negb (bool_decide (zone = "")) | V4 _ => false end) then None
  else if (match bits with String c (String _ _) => negb (in_rng 49 57 (bv c)) | _ => false end) then None
  else
    n ← ParseInt bits;
    if (n <? 0) || ((match ip with V4 _ => 32 | V6 _ _ => 128 end) <? n) then None else Some (MkPrefix ip n).

Definition Contains (p : Prefix) (a : Addr) : bool :=
  match px_ip p, a with
  | V4 m, V4 n => Z.shiftr (Z.lxor m n) (32 - px_bits p) =? 0
  | V6 m _, V6 n zone => bool_decide (zone = "") && (Z.shiftr (Z.lxor m n) (128 - px_bits p) =? 0)
  | _, _ => false
  end.

Example addresses :
  (ParseAddr <$> ["1.2.3.4"; "01.2.3.4"; "1.2.3"; "256.1.1.1"; "1.2.3.4.5"; "::1"; "::"; "1::"; "fe80::1%eth0"; "::ffff:127.0.0.1"; "1:2:3:4:5:6:7:8"; "1:2:3:4:5:6:7::";
    "1::2::3"; "12345::"; ":1"; "1:"; "1:2:3:4:5:6:7:8:9"; "::1%"; "g::"; "1:2:3:4:5:6:7::8"; ""; "localhost"; "%1.2.3.4"]) =
  [Some (V4 16909060); None; None; None; None; Some (V6 1 ""); Some (V6 0 ""); Some (V6 (2 ^ 112) ""); Some (V6 (0xfe80 * 2 ^ 112 + 1) "eth0");
   Some (V6 0xffff7f000001 ""); Some (V6 0x00010002000300040005000600070008 ""); Some (V6 0x00010002000300040005000600070000 "");
   None; None; None; None; None; None; None; None; None; None; None].
Proof. vm_compute. reflexivity. Qed.

Example hosts :
  SplitHostPort <$> ["1.2.3.4:80"; "[::1]:80"; "::1:80"; "[::1]"; "1.2.3.4"; "[::1]x:80"; "a[b:80"; ":80"; "h:"] =
  [Some ("1.2.3.4", "80"); Some ("::1", "80"); None; None; None; None; None; Some ("", "80"); Some ("h", "")].
Proof. vm_compute. reflexivity. Qed.

Example prefixes :
  (λ p, (λ q, Contains q <$> (ParseAddr p.2)) <$> ParsePrefix p.1) <$>
    [("10.0.0.0/8", "10.255.1.2"); ("10.0.0.0/8", "11.0.0.1"); ("10.0.0.0/08", "10.0.0.1"); ("10.0.0.0/33", "10.0.0.1"); ("0.0.0.0/0", "::ffff:1.2.3.4");
     ("2001:db8::/32", "2001:db8:1::5"); ("2001:db8::/32", "2001:db9::5"); ("2001:db8::/32", "2001:db8::1%z")] =
  [Some (Some true); Some (Some false); None; None; Some (Some false); Some (Some true); Some (Some false); Some (Some false)].
Proof. vm_compute. reflexivity. Qed.

(** A prefix holds the addresses that agree with it on its leading bits. *)
Lemma Contains_V4 m n bits : 0 ≤ bits ≤ 32 → 0 ≤ m → 0 ≤ n → Contains (MkPrefix (V4 m) bits) (V4 n) = true ↔ m / 2 ^ (32 - bits) = n / 2 ^ (32 - bits).
Proof.
  intros Hb Hm Hn. cbn. rewrite Z.eqb_eq, Z.shiftr_lxor, Z.lxor_eq_0_iff, !Z.shiftr_div_pow2 by lia. done.
Qed.
End NetAddr.
