(* ===== verification/Webhook.v ===== *)
(** * The webhook bridge (webhookbridge/limit.go, bridge.go)

    A provider's request is checked for its source, read within the body
    bound, charged to its sender's bucket and the bridge-wide one, signed and
    forwarded unchanged to the runtime. The sender is read only to key the
    limiter, the runtime's way where the two readings agree and to one shared
    key where they may not. The HTTP server and client are outside: a request
    and the runtime's answer are inputs. [IsDigit] is the table of decimal
    digits of package unicode, which changes with Unicode's version. *)
From S2P Require Import Prelude GoBytes Sha256 Json Float64 Contracts Replay MqttAuth TokenBucket NetAddr.

Module Webhook.
Import Float64 Contracts NetAddr TokenBucket Replay MqttAuth.

(** ** [net/url] *)
Definition amp : ascii := "&".

(** [url.QueryUnescape]. *)
Fixpoint QueryUnescape (s : string) : option string :=
  match s with
  | EmptyString => Some ""
  | String "%" (String a (String b r)) =>
    if is_hex a && is_hex b then String (bc (hexVal a * 16 + hexVal b)) <$> QueryUnescape r else None
  | String "%" _ => None
  | String "+" r => String " " <$> QueryUnescape r
  | String c r => String c <$> QueryUnescape r
  end.

(** [strings.Cut]. *)
Definition Cut (c : ascii) (s : string) : string * string := default (s, "") (cutAt c s).

Definition maxQueryParams : Z := 10000.

(** One pair: nothing to add, a key and a value, or an error. *)
Inductive pairRead := NoPair | Pair (key value : string) | BadPair.

Definition readPair (pair : string) : pairRead :=
  if containsByte ";" pair then BadPair
  else if bool_decide (pair = "") then NoPair
  else
    let '(key, value) := Cut "=" pair in
    match QueryUnescape key with
    | None => BadPair
    | Some k => match QueryUnescape value with None => BadPair | Some v => Pair k v end
    end.

Definition pairsOf (l : list string) : list (string * string) :=
  omap (λ pair, match readPair pair with Pair k v => Some (k, v) | _ => None end) l.

(** [url.ParseQuery]: the pairs in order, and whether it reports an error. A
    query of more pairs than the limit is an error without a single pair. *)
Definition ParseQuery (query : string) : list (string * string) * bool :=
  let l := split amp query in
  if maxQueryParams <? Z.of_nat (length l) then ([], true)
  else (pairsOf l, existsb (λ pair, match readPair pair with BadPair => true | _ => false end) l).

Definition Get (key : string) (values : list (string * string)) : string :=
  match List.find (λ p, bool_decide (p.1 = key)) values with Some p => p.2 | None => "" end.
Definition Has (key : string) (values : list (string * string)) : bool := existsb (λ p, bool_decide (p.1 = key)) values.

(** ** The sender *)
Fixpoint containsStr (sub s : string) : bool :=
  hasPrefix s sub || match s with EmptyString => false | String _ r => containsStr sub r end.

(** [strings.ToLower] as far as it yields ASCII: besides the ASCII capitals,
    the dotted capital I and the Kelvin sign. *)
Definition lowerRune (r : Z) : Z := if in_rng 65 90 r then r + 32 else if r =? 0x130 then 105 else if r =? 0x212A then 107 else r.
Definition lowered (s : string) : string := foldr (λ p acc, encodeRune (lowerRune p.1) +:+ acc) "" (runes s).

Definition unreadSender : string := "unread".
Definition backslashU : string := String (bc 92) "u".

Section Sender.
Context (IsDigit : Z → bool).

Definition normalizeSender (value : string) : string :=
  foldr (λ p acc, if IsDigit p.1 || (p.1 =? 43) then encodeRune p.1 +:+ acc else acc) "" (runes value).

Definition readSender (value : string) (present : bool) : string :=
  let sender := normalizeSender value in
  if bool_decide (sender = "") then (if present then unreadSender else "") else sender.

(** A body decoded as a map of raw messages; [null] is a nil map. *)
Definition rawMap (body : string) : option (gmap string json) :=
  match parse body with Some JNull => Some ∅ | Some (JObj l) => Some (toMap l) | _ => None end.

Definition jsonSender (body : string) : string :=
  match rawMap body with
  | None => if containsStr "from" body || containsStr backslashU body then unreadSender else ""
  | Some payload =>
    let from := payload !! "from" in
    let fromNumber := payload !! "from_number" in
    match from, fromNumber with
    | None, None => if existsb (λ key, hasPrefix key "from") (elements (dom payload)) then unreadSender else ""
    | _, _ =>
      match (match from with None | Some JNull => Some "" | Some (JStr raw) => Some (unquote raw) | Some _ => None end) with
      | None => unreadSender
      | Some sender =>
        if bool_decide (sender = "") then
          match fromNumber with
          | None | Some JNull => readSender "" true
          | Some (JStr raw) => readSender (unquote raw) true
          | Some _ => unreadSender
          end
        else readSender sender true
      end
    end
  end.

Definition namesSenderField (body : string) : bool :=
  existsb (λ pair,
    let '(key, value) := Cut "=" pair in
    match QueryUnescape key with
    | None => true
    | Some unescapedKey =>
      if containsByte ";" key then true
      else hasPrefix unescapedKey "from" && (match QueryUnescape value with None => true | Some _ => containsByte ";" value end)
    end) (split amp body).

Definition formSender (body : string) : string :=
  let '(values, err) := ParseQuery body in
  if err && namesSenderField body then unreadSender
  else
    let from := Get "from" values in
    let from := if bool_decide (from = "") then Get "from_number" values else from in
    readSender from (Has "from" values || Has "from_number" values).

Definition senderOf (contentType body : string) : string :=
  if containsStr "application/json" (lowered contentType) then jsonSender body else formSender body.
End Sender.

(** ** The limiter *)
Record bucket := MkTokens { bk_tokens : float64; bk_last : Z }.

Definition refund (burst : float64) (b : bucket) : bucket := MkTokens (fmin burst (fadd (bk_tokens b) (ofInt 1))) (bk_last b).

Definition take_ (now : Z) (perSecond burst : float64) (b : bucket) : bool * bucket :=
  let tokens := refill burst perSecond (bk_tokens b) (timeBetween now (bk_last b)) in
  if fltb tokens (ofInt 1) then (false, MkTokens tokens now) else (true, MkTokens (fsub tokens (ofInt 1)) now).

(** The list is the order of use, the latest first; the map finds the element
    of a key in it. *)
Record limiter := MkLimiter {
  lm_hashKey : list Z; lm_senderPerSecond : float64; lm_senderBurst : float64; lm_globalPerSecond : float64; lm_globalBurst : float64; lm_maxSenders : Z;
  lm_order : list (list Z * bucket); lm_senders : gset (list Z); lm_global : bucket }.

Definition newLimiter (hashKey : list Z) (senderPerMinute senderBurst globalPerMinute globalBurst maxSenders now : Z) : limiter :=
  MkLimiter hashKey (fdiv (ofInt senderPerMinute) (ofInt 60)) (ofInt senderBurst) (fdiv (ofInt globalPerMinute) (ofInt 60)) (ofInt globalBurst) maxSenders
    [] ∅ (MkTokens (ofInt globalBurst) now).

Definition keyOf (l : limiter) (sender : string) : list Z := hmac256 (lm_hashKey l) (bytes_of sender).

Definition setGlobal (b : bucket) (l : limiter) : limiter :=
  MkLimiter (lm_hashKey l) (lm_senderPerSecond l) (lm_senderBurst l) (lm_globalPerSecond l) (lm_globalBurst l) (lm_maxSenders l) (lm_order l) (lm_senders l) b.
Definition setOrder (o : list (list Z * bucket)) (s : gset (list Z)) (l : limiter) : limiter :=
  MkLimiter (lm_hashKey l) (lm_senderPerSecond l) (lm_senderBurst l) (lm_globalPerSecond l) (lm_globalBurst l) (lm_maxSenders l) o s (lm_global l).

Inductive verdict := Admitted_ | refusedBySender | refusedByGlobal.

#[global] Instance verdict_eq_dec : EqDecision verdict.
Proof. solve_decision. Defined.

(** The element of a key, found and moved to the front or made there, the
    least recently seen one evicted at the bound. *)
Definition frontSender (key : list Z) (now : Z) (l : limiter) : bucket * limiter :=
  if decide (key ∈ lm_senders l) then
    let own := default (MkTokens fzero 0) (snd <$> List.find (λ e, bool_decide (e.1 = key)) (lm_order l)) in
    (own, setOrder ((key, own) :: filter (λ e, e.1 ≠ key) (lm_order l)) (lm_senders l) l)
  else
    let full := lm_maxSenders l <=? Z.of_nat (length (lm_order l)) in
    let oldest := if full then last (lm_order l) else None in
    let order := if oldest then removelast (lm_order l) else lm_order l in
    let senders := match oldest with Some e => lm_senders l ∖ {[e.1]} | None => lm_senders l end in
    let own := MkTokens (lm_senderBurst l) now in
    (own, setOrder ((key, own) :: order) ({[key]} ∪ senders) l).

(** The bucket at the front written back. *)
Definition setFront (b : bucket) (l : limiter) : limiter :=
  match lm_order l with e :: o => setOrder ((e.1, b) :: o) (lm_senders l) l | [] => l end.

Definition admitSender (sender : string) (now : Z) (l : limiter) : verdict * limiter :=
  if bool_decide (sender = "") then
    let '(ok, g) := take_ now (lm_globalPerSecond l) (lm_globalBurst l) (lm_global l) in
    (if ok then Admitted_ else refusedByGlobal, setGlobal g l)
  else
    let '(own, l1) := frontSender (keyOf l sender) now l in
    let '(ok, own1) := take_ now (lm_senderPerSecond l) (lm_senderBurst l) own in
    if negb ok then (refusedBySender, setFront own1 l1)
    else
      let '(okg, g) := take_ now (lm_globalPerSecond l) (lm_globalBurst l) (lm_global l) in
      if negb okg then (refusedByGlobal, setGlobal g (setFront (refund (lm_senderBurst l) own1) l1))
      else (Admitted_, setGlobal g (setFront own1 l1)).

Definition tracked (l : limiter) : Z := Z.of_nat (length (lm_order l)).

(** ** The refusal log *)
Definition wrapU64 (x : Z) : Z := x mod 2 ^ 64.

(** The zero time of [last] is long past. *)
Record refusalLog := MkRefusalLog { rl_last : gmap string Z; rl_pending : gmap string Z; rl_flushing : gset string }.

(** What is left to do outside the lock. *)
Inductive noted := NotedNothing | NotedTimer (wait : Z) | NotedLine (count : Z).

Definition note (now : Z) (limit : string) (r : refusalLog) : noted * refusalLog :=
  let pending := default 0 (rl_pending r !! limit) + 1 in
  let wait := match rl_last r !! limit with None => i64_min | Some last => nanos - timeBetween now last end in
  if 0 <? wait then
    if decide (limit ∈ rl_flushing r) then (NotedNothing, MkRefusalLog (rl_last r) (<[limit := pending]> (rl_pending r)) (rl_flushing r))
    else (NotedTimer wait, MkRefusalLog (rl_last r) (<[limit := pending]> (rl_pending r)) ({[limit]} ∪ rl_flushing r))
  else (NotedLine pending, MkRefusalLog (<[limit := now]> (rl_last r)) (<[limit := 0]> (rl_pending r)) (rl_flushing r)).

Definition flush (limit : string) (r : refusalLog) : option Z * refusalLog :=
  let count := default 0 (rl_pending r !! limit) in
  (if 0 <? count then Some count else None,
   MkRefusalLog (alter (λ t, t + nanos) limit (rl_last r)) (<[limit := 0]> (rl_pending r)) (rl_flushing r ∖ {[limit]})).

(** ** The server *)
Definition signaturePrefix : string := "hmac-sha256:".
Definition newline : string := String (bc 10) "".

Definition signBody (body secret : string) (signedAtMS : Z) (nonce : string) : string :=
  signaturePrefix +:+ hexEncode (hmac256 (bytes_of secret) (bytes_of (FormatInt signedAtMS +:+ newline +:+ nonce +:+ newline +:+ body))).

Record Config := MkConfig {
  wc_Enabled : bool; wc_Path : string; wc_TargetURL : string; wc_ProviderSourceCIDRs : list string; wc_MaxBodyBytes : Z;
  wc_SenderPerMinute : Z; wc_SenderBurst : Z; wc_GlobalPerMinute : Z; wc_GlobalBurst : Z; wc_MaxSenders : Z }.

Record Server := MkServer {
  sv_path : string; sv_targetURL : string; sv_providerPrefixes : list Prefix; sv_loopbackOnly : bool; sv_runtimeToken : string; sv_hmacSecret : string; sv_maxBodyBytes : Z }.

Record serverState := MkSState { ss_limiter : limiter; ss_sender : Z; ss_global : Z; ss_log : refusalLog }.

Fixpoint parsePrefixes (l : list string) : option (list Prefix) :=
  match l with
  | [] => Some []
  | s :: l' => p ← ParsePrefix s; ps ← parsePrefixes l'; Some (p :: ps)
  end.

(** [New]: [token] and [secret] are what the environment holds, [validURI] is
    [url.ParseRequestURI], [hashKey] the random key or a failure to draw it. *)
Definition New (cfg : Config) (token secret : string) (validURI : string → bool) (hashKey : option (list Z)) (now : Z) : res (Server * serverState) :=
  if negb (wc_Enabled cfg) then Err (EMsg "webhook bridge is disabled")
  else
    let runtimeToken := TrimSpace token in
    if bool_decide (runtimeToken = "") then Err (EMsg "webhook_bridge.runtime_token_env is empty")
    else
      let hmacSecret := TrimSpace secret in
      if bool_decide (hmacSecret = "") then Err (EMsg "webhook_bridge.hmac_secret_env is empty")
      else if negb (validURI (wc_TargetURL cfg)) then Err (EMsg "webhook_bridge.target_url is invalid")
      else match parsePrefixes (wc_ProviderSourceCIDRs cfg) with
      | None => Err (EMsg "parse provider CIDR")
      | Some prefixes =>
        if (wc_SenderPerMinute cfg <=? 0) || (wc_SenderBurst cfg <=? 0) || (wc_GlobalPerMinute cfg <=? 0) || (wc_GlobalBurst cfg <=? 0) || (wc_MaxSenders cfg <=? 0)
        then Err (EMsg "webhook bridge rate limits must be positive")
        else match hashKey with
        | None => Err (EMsg "webhook bridge sender key")
        | Some key =>
          Ok (MkServer (wc_Path cfg) (wc_TargetURL cfg) prefixes (bool_decide (prefixes = [])) runtimeToken hmacSecret (wc_MaxBodyBytes cfg),
              MkSState (newLimiter key (wc_SenderPerMinute cfg) (wc_SenderBurst cfg) (wc_GlobalPerMinute cfg) (wc_GlobalBurst cfg) (wc_MaxSenders cfg) now) 0 0
                (MkRefusalLog ∅ ∅ ∅))
        end
      end.

Definition sourceAllowed (s : Server) (remoteAddr : string) : bool :=
  match SplitHostPort remoteAddr with
  | None => false
  | Some (host, _) =>
    match ParseAddr host with
    | None => false
    | Some addr => if sv_loopbackOnly s then IsLoopback addr else existsb (λ prefix, Contains prefix addr) (sv_providerPrefixes s)
    end
  end.

(** A request: [rq_body] is what the body delivers, [rq_bodyErr] whether it
    then fails. *)
Record httpRequest := MkHTTP { rq_path : string; rq_method : string; rq_remoteAddr : string; rq_contentType : string; rq_body : string; rq_bodyErr : bool }.

Record response := MkResponse_ { rs_status : Z; rs_text : string }.

(** What is sent to the runtime. *)
Record forwarded := MkForward { fw_url : string; fw_body : string; fw_headers : list (string * string) }.

(** The body through [http.MaxBytesReader]. *)
Inductive bodyRead := BodyRead (body : string) | BodyTooLarge | BodyBroken.
Definition readBody (max : Z) (r : httpRequest) : bodyRead :=
  if max <? slen (rq_body r) then BodyTooLarge else if rq_bodyErr r then BodyBroken else BodyRead (rq_body r).

Definition headersOf (s : Server) (contentType body : string) (signedAtMS : Z) (nonce : string) : list (string * string) :=
  (if bool_decide (contentType = "") then [] else [("Content-Type", contentType)]) ++
  [("X-Ori-Webhook-Token", sv_runtimeToken s); ("X-Ori-Webhook-Signature", signBody body (sv_hmacSecret s) signedAtMS nonce);
   ("X-Ori-Webhook-Timestamp", FormatInt signedAtMS); ("X-Ori-Webhook-Nonce", nonce)].

(** A refusal for volume, counted and noted. *)
Definition refuseVolume (limit : string) (now : Z) (l : limiter) (st : serverState) : serverState * noted :=
  let '(n, log) := note now limit (ss_log st) in
  (if bool_decide (limit = "sender") then MkSState l (wrapU64 (ss_sender st + 1)) (ss_global st) log
   else MkSState l (ss_sender st) (wrapU64 (ss_global st + 1)) log, n).

(** [ServeHTTP]: the gateway's own admission, the clock readings, the nonce,
    whether the request to the runtime can be built, and the runtime's answer
    ([None] for a failure) are inputs. The request to the runtime, if one is
    sent, is part of the result. *)
Definition ServeHTTP (IsDigit : Z → bool) (s : Server) (stopping : bool) (r : httpRequest) (now now' signedAtMS : Z) (nonce : option string) (buildOK : bool)
    (answer : option Z) (st : serverState) : response * option forwarded * serverState * noted :=
  let refuse code text := (MkResponse_ code text, None, st, NotedNothing) in
  if stopping then refuse 503 "stopping"
  else if negb (bool_decide (rq_path r = sv_path s)) then refuse 404 "404 page not found"
  else if negb (bool_decide (rq_method r = "POST")) then refuse 405 "method not allowed"
  else if negb (sourceAllowed s (rq_remoteAddr r)) then refuse 403 "forbidden"
  else match readBody (sv_maxBodyBytes s) r with
  | BodyTooLarge => refuse 413 "request body too large"
  | BodyBroken => refuse 400 "invalid request body"
  | BodyRead body =>
    let '(v, l) := admitSender (senderOf IsDigit (rq_contentType r) body) now (ss_limiter st) in
    let st1 := MkSState l (ss_sender st) (ss_global st) (ss_log st) in
    match v with
    | refusedBySender => let '(st', n) := refuseVolume "sender" now' l st in (MkResponse_ 429 "too many requests", None, st', n)
    | refusedByGlobal => let '(st', n) := refuseVolume "global" now' l st in (MkResponse_ 429 "too many requests", None, st', n)
    | Admitted_ =>
      match nonce with
      | None => (MkResponse_ 500 "internal error", None, st1, NotedNothing)
      | Some nc =>
        if negb buildOK then (MkResponse_ 500 "internal error", None, st1, NotedNothing)
        else
          let fw := MkForward (sv_targetURL s) body (headersOf s (rq_contentType r) body signedAtMS nc) in
          match answer with
          | None => (MkResponse_ 502 "runtime webhook unavailable", Some fw, st1, NotedNothing)
          | Some code =>
            if (code <? 200) || (300 <=? code) then (MkResponse_ 502 "runtime webhook rejected request", Some fw, st1, NotedNothing)
            else (MkResponse_ 200 "ok", Some fw, st1, NotedNothing)
          end
      end
    end
  end.

Definition redactHost (remoteAddr : string) : string := match SplitHostPort remoteAddr with Some (host, _) => host | None => "invalid" end.
End Webhook.
