(* ===== verification/WebhookSpec.v ===== *)
(** * What the webhook bridge promises

    No body that names a sender escapes a sender's bucket, within the number
    of form pairs Go reads; the limiter's state and what passes it are
    bounded; and nothing is forwarded that a check refused. *)
From Stdlib Require Import SpecFloat QArith Lqa.
From S2P Require Import Prelude GoBytes Sha256 Json Float64 FloatBounds Contracts TokenBucket NetAddr BrokerIngressSpec Webhook.

Module WebhookSpec.
Import Float64 FloatBounds Contracts TokenBucket NetAddr Webhook.
Import BrokerIngressSpec (qlen, qlen_cons, qlen_nonneg, slack_nonneg, secs_split, secs_mono).

(** ** The sender *)
Section Sender.
Context (IsDigit : Z → bool).

Lemma readSender_present value : readSender IsDigit value true ≠ "".
Proof. unfold readSender. by case_bool_decide. Qed.

Lemma readSender_absent value present : readSender IsDigit value present = "" → present = false.
Proof. destruct present; [|done]. intros H. by apply readSender_present in H. Qed.

Lemma existsb_none {A} (p : A → bool) l : existsb p l = false → ∀ x, x ∈ l → p x = false.
Proof. induction l as [|y l IH]; [by intros _ x ?%elem_of_nil|]. cbn. intros [H1 H2]%orb_false_iff x [->|H]%elem_of_cons; auto. Qed.

Lemma jsonSender_unnamed body :
  jsonSender IsDigit body = "" →
  (rawMap body = None ∧ containsStr "from" body = false ∧ containsStr backslashU body = false) ∨
  (∃ m, rawMap body = Some m ∧ ∀ key, key ∈ dom m → hasPrefix key "from" = false).
Proof.
  unfold jsonSender. destruct (rawMap body) as [m|].
  - intros H. right. exists m. split; [done|]. intros key Hk.
    destruct (m !! "from") as [v|] eqn:Ef, (m !! "from_number") as [w|] eqn:En;
      [exfalso..|destruct (existsb _ _) eqn:Ee; [done|]; exact (existsb_none _ _ Ee key ltac:(by apply elem_of_elements))].
    all: revert H; repeat (case_match; try done); try (apply readSender_present); apply readSender_present.
  - destruct (containsStr "from" body), (containsStr backslashU body); cbn; try done. intros _. by left.
Qed.

Lemma pairsOf_elem pair l k v : pair ∈ l → readPair pair = Pair k v → (k, v) ∈ pairsOf l.
Proof. intros Hin E. apply list_elem_of_omap. exists pair. by rewrite E. Qed.

Lemma Has_elem key v values : (key, v) ∈ values → Has key values = true.
Proof. intros H. apply existsb_exists. exists (key, v). split; [by apply list_elem_of_In|]. by apply bool_decide_eq_true. Qed.

Lemma formSender_unnamed body pair :
  formSender IsDigit body = "" → Z.of_nat (length (split amp body)) ≤ maxQueryParams → pair ∈ split amp body →
  ∃ k, QueryUnescape (Cut "=" pair).1 = Some k ∧ k ≠ "from" ∧ k ≠ "from_number".
Proof.
  unfold formSender, ParseQuery. intros H Hn Hin. replace (maxQueryParams <? Z.of_nat (length (split amp body))) with false in H by lia.
  destruct (existsb _ (split amp body) && namesSenderField body) eqn:Ee; [done|]. apply readSender_absent, orb_false_iff in H as [H1 H2].
  assert (Hno : ∀ k v, readPair pair = Pair k v → k ≠ "from" ∧ k ≠ "from_number").
  { intros k v Ep. pose proof (pairsOf_elem _ _ _ _ Hin Ep) as Hp. split; intros ->; apply Has_elem in Hp; congruence. }
  apply andb_false_iff in Ee as [Ee|Ee].
  - pose proof (existsb_none _ _ Ee pair Hin) as Hb. cbv beta in Hb. unfold readPair in Hb, Hno. destruct (containsByte ";" pair); [done|].
    case_bool_decide as E0; [subst pair; by exists ""|]. destruct (Cut "=" pair) as [key value]. cbn [fst]. destruct (QueryUnescape key) as [k|]; [|done].
    exists k. split; [done|]. destruct (QueryUnescape value) as [v|]; [|done]. by apply (Hno k v).
  - pose proof (existsb_none _ _ Ee pair Hin) as Hb. cbv beta in Hb. unfold readPair in Hno. destruct (Cut "=" pair) as [key value] eqn:Ec. cbn [fst].
    destruct (QueryUnescape key) as [k|] eqn:Ek; [|done]. exists k. split; [done|]. destruct (containsByte ";" key) eqn:Es; [done|].
    destruct (hasPrefix k "from") eqn:Ef; [|split; intros ->; done]. cbn [andb] in Hb. destruct (QueryUnescape value) as [v|] eqn:Ev; [|done].
    destruct (containsByte ";" pair) eqn:Esp.
    + exfalso. clear -Ec Es Hb Esp. revert key value Ec Es Hb Esp. unfold Cut, containsByte. induction pair as [|c pair IH]; intros key value; cbn [cutAt]; [done|].
      destruct (decide (c = "="%char)) as [->|Hc].
      * rewrite decide_False by done. cbn [default from_option id]. intros [= <- <-] _ Hv. by destruct (cutAt ";" pair).
      * destruct (decide (c = ";"%char)) as [->|Hs].
        { destruct (cutAt "=" pair) as [[a b]|]; cbn [fmap option_fmap option_map default from_option id fst snd]; intros [= <- <-]; cbn [cutAt]; by rewrite decide_True. }
        destruct (cutAt "=" pair) as [[a b]|]; cbn [fmap option_fmap option_map default from_option id fst snd] in *; intros [= <- <-]; cbn [cutAt]; rewrite decide_False by done.
        -- intros H1 H2 H3. apply (IH a b eq_refl); destruct (cutAt ";" a), (cutAt ";" pair); done.
        -- intros H1 H2 H3. apply (IH pair "" eq_refl); destruct (cutAt ";" pair); done.
    + case_bool_decide as E0; [|by apply (Hno k v)]. subst pair. injection Ec as <- <-. injection Ek as <-. done.
Qed.
End Sender.

(** No spelling of a sender escapes a sender's bucket: a request is left
    to the bridge-wide bucket alone only when its body names no sender field.
    A JSON body is then one that does not decode and spells neither [from] nor
    an escape, or an object without a member that starts with [from]; in a
    form body of at most as many pairs as Go reads, every pair's key decodes,
    and to neither [from] nor [from_number]. *)
Theorem unkeyed_means_unnamed IsDigit contentType body :
  senderOf IsDigit contentType body = "" →
  if containsStr "application/json" (lowered contentType) then
    (rawMap body = None ∧ containsStr "from" body = false ∧ containsStr backslashU body = false) ∨
    (∃ m, rawMap body = Some m ∧ ∀ key, key ∈ dom m → hasPrefix key "from" = false)
  else
    Z.of_nat (length (split amp body)) ≤ maxQueryParams →
    ∀ pair, pair ∈ split amp body → ∃ k, QueryUnescape (Cut "=" pair).1 = Some k ∧ k ≠ "from" ∧ k ≠ "from_number".
Proof.
  unfold senderOf. destruct (containsStr _ (lowered contentType)); [apply jsonSender_unnamed|]. intros H Hn pair. by eapply formSender_unnamed.
Qed.

Definition asciiDigit (r : Z) : bool := in_rng 48 57 r.

Lemma unkeyed_means_unnamed_witness :
  senderOf asciiDigit "application/x-www-form-urlencoded" "status=sent&id=7" = "" ∧
  ∀ pair, pair ∈ split amp "status=sent&id=7" → ∃ k, QueryUnescape (Cut "=" pair).1 = Some k ∧ k ≠ "from" ∧ k ≠ "from_number".
Proof.
  split; [vm_compute; reflexivity|].
  pose proof (unkeyed_means_unnamed asciiDigit "application/x-www-form-urlencoded" "status=sent&id=7" ltac:(vm_compute; reflexivity)) as H.
  assert (J : containsStr "application/json" (lowered "application/x-www-form-urlencoded") = false) by (vm_compute; reflexivity).
  rewrite J in H. apply H. vm_compute. discriminate.
Defined.

Example senders :
  (λ p, senderOf asciiDigit p.1 p.2) <$>
    [("application/json", dq "{'from':'+1 (555) 01','text':'hi'}"); ("APPLİCATION/JSON", dq "{'from':'','from_number':'42'}"); ("application/json", dq "{'from':5}");
     ("application/json", dq "{'from':null}"); ("application/json", dq "{'fromm':'1'}"); ("application/json", dq "{'text':'hi'}"); ("application/json", dq "{'from':NaN}");
     ("text/plain", "from=%2B1555&x=1"); ("", "from=&from_number=7"); ("", "fro%6d=9"); ("", "from=%zz"); ("", "a;b=1&from=3"); ("", "x=1"); ("", "%zz=1")] =
  ["+155501"; "42"; "unread"; "unread"; "unread"; ""; "unread"; "+1555"; "7"; "9"; "unread"; "unread"; ""; "unread"].
Proof. vm_compute. reflexivity. Qed.

(** Beyond that number of pairs Go reads none of them and reports an error,
    and a body whose pairs all decode is taken to name no sender. *)
Lemma many_pairs_escape :
  senderOf asciiDigit "" (Nat.iter (Z.to_nat 10000) (String amp) "from=15550100") = "" ∧ senderOf asciiDigit "" "from=15550100" = "15550100".
Proof. split; vm_compute; reflexivity. Qed.

(** ** The limiter *)

(** A limiter whose rates are of moderate size. *)
Class soundLimiter (l : limiter) : Prop := {
  sl_sender : Sized (lm_senderBurst l) (lm_senderPerSecond l);
  sl_global : Sized (lm_globalBurst l) (lm_globalPerSecond l) }.

Record lok (l : limiter) : Prop := MkLok {
  lo_nodup : NoDup (fst <$> lm_order l);
  lo_senders : ∀ key, key ∈ lm_senders l ↔ key ∈ fst <$> lm_order l;
  lo_bound : Z.of_nat (length (lm_order l)) ≤ lm_maxSenders l;
  lo_room : 0 < lm_maxSenders l;
  lo_buckets : ∀ key b, (key, b) ∈ lm_order l → within (lm_senderBurst l) (bk_tokens b);
  lo_global : within (lm_globalBurst l) (bk_tokens (lm_global l)) }.

(** The rates of a limiter never change. *)
Definition sameRates (l l' : limiter) : Prop :=
  lm_hashKey l' = lm_hashKey l ∧ lm_senderPerSecond l' = lm_senderPerSecond l ∧ lm_senderBurst l' = lm_senderBurst l ∧
  lm_globalPerSecond l' = lm_globalPerSecond l ∧ lm_globalBurst l' = lm_globalBurst l ∧ lm_maxSenders l' = lm_maxSenders l.

Lemma bridge_between_max t u : timeBetween t u ≤ i64_max.
Proof. unfold timeBetween, i64_min, i64_max. lia. Qed.

Lemma fltb_fleb a b : nonneg a → nonneg b → fltb a b = negb (fleb b a).
Proof.
  intros Ha Hb. pose proof (fltb_val a b Ha Hb) as H1. pose proof (fleb_val b a Hb Ha) as H2. destruct (fltb a b), (fleb b a); try done; exfalso; lra.
Qed.

(** One draw on a bucket. *)
Lemma take_spec burst perSecond b now :
  Sized burst perSecond → within burst (bk_tokens b) →
  let r := take_ now perSecond burst b in
  within burst (bk_tokens r.2) ∧ bk_last r.2 = now ∧
  (val (bk_tokens r.2) + (if r.1 then 1 else 0) <= val (bk_tokens b) + secs (Z.max 0 (timeBetween now (bk_last b))) * val perSecond + slack burst)%Q ∧
  (val (bk_tokens r.2) + (if r.1 then 1 else 0) <= val burst + slack burst)%Q.
Proof.
  intros S W. cbv zeta. unfold take_. pose proof (bridge_between_max now (bk_last b)) as Hm. pose proof (slack_nonneg _ _ S) as Hs.
  destruct (charge_spec burst perSecond (bk_tokens b) _ 1 W Hm ltac:(done)) as [[A1 A2] A3]. change (inject_Z 1) with 1%Q in A3.
  set (tk := refill _ _ _ _) in *. clearbody tk. rewrite fltb_fleb by (apply A1 || done). pose proof A1 as [A0 A0'].
  destruct (fleb (ofInt 1) tk) eqn:E; cbn [negb fst snd bk_tokens bk_last].
  - destruct (A3 eq_refl) as [A4 A5]. destruct (spend_spec burst perSecond tk 1 A1 ltac:(done) E) as [_ A6]. change (inject_Z 1) with 1%Q in A6.
    split; [done|]. split; [done|]. split; lra.
  - split; [done|]. split; [done|]. split; lra.
Qed.

Lemma find_key key (o : list (list Z * bucket)) : key ∈ fst <$> o → ∃ b, List.find (λ e, bool_decide (e.1 = key)) o = Some (key, b) ∧ (key, b) ∈ o.
Proof.
  induction o as [|[k b] o IH]; [by intros ?%elem_of_nil|]. cbn [fmap list_fmap fst List.find]. intros [->|H]%elem_of_cons.
  - rewrite bool_decide_true by done. exists b. split; [done|left].
  - case_bool_decide as E; [subst; exists b; split; [done|left]|]. destruct (IH H) as (b' & ? & ?). exists b'. split; [done|by right].
Qed.

Lemma removelast_last {A} (l : list A) x : last l = Some x → l = removelast l ++ [x].
Proof.
  intros H. destruct (exists_last (l := l)) as (l' & y & ->); [by intros ->|]. rewrite last_snoc in H. injection H as ->. by rewrite removelast_app, app_nil_r by done.
Qed.

(** Finding or making the sender's bucket. *)
Record fronted (key : list Z) (now : Z) (l : limiter) (own : bucket) (l1 : limiter) : Prop := MkFronted {
  fr_ok : lok l1;
  fr_rates : sameRates l l1;
  fr_global : lm_global l1 = lm_global l;
  fr_front : ∃ rest, lm_order l1 = (key, own) :: rest;
  fr_others : ∀ k b, k ≠ key → (k, b) ∈ lm_order l1 → (k, b) ∈ lm_order l;
  fr_kept : ∀ k b, k ≠ key → (k, b) ∈ lm_order l → (k, b) ∈ lm_order l1 ∨ key ∉ lm_senders l ∧ lm_maxSenders l ≤ Z.of_nat (length (lm_order l)) ∧ (fst <$> last (lm_order l)) = Some k;
  fr_own : (key, own) ∈ lm_order l ∨ key ∉ lm_senders l ∧ own = MkTokens (lm_senderBurst l) now }.

Lemma frontSender_found key now l own l1 :
  soundLimiter l → lok l → key ∈ lm_senders l → frontSender key now l = (own, l1) → fronted key now l own l1.
Proof.
  intros S [N M B R W G] Hin. unfold frontSender. rewrite decide_True by done. destruct (find_key key (lm_order l)) as (b & Ef & Hb); [by apply M|].
  rewrite Ef. cbn [fmap option_fmap option_map default from_option id snd]. intros [= <- <-]. set (rest := filter (λ e, e.1 ≠ key) (lm_order l)).
  assert (Hr : ∀ k b', (k, b') ∈ rest ↔ k ≠ key ∧ (k, b') ∈ lm_order l) by (intros; unfold rest; by rewrite list_elem_of_filter).
  assert (Hlen : (length rest < length (lm_order l))%nat).
  { unfold rest. clear -Hb. induction (lm_order l) as [|[k x] o IH]; [by apply elem_of_nil in Hb|]. rewrite filter_cons. apply elem_of_cons in Hb as [[= <- <-]|Hb].
    - rewrite decide_False by (cbn; auto). pose proof (length_filter (λ e : list Z * bucket, e.1 ≠ key) o). cbn [length]. lia.
    - specialize (IH Hb). destruct (decide ((k, x).1 ≠ key)); cbn [length]; lia. }
  split; cbn [setOrder lm_order lm_senders lm_global]; [split; cbn [setOrder lm_order lm_senders lm_global lm_maxSenders lm_senderBurst lm_globalBurst]|..]; try done.
  - cbn [fmap list_fmap fst]. apply NoDup_cons. split; [intros ([k b'] & E & H)%list_elem_of_fmap; apply Hr in H; cbn in E; by destruct H|].
    unfold rest. clear -N. induction (lm_order l) as [|[k x] o IH]; [constructor|]. cbn in N. apply NoDup_cons in N as [N1 N2]. rewrite filter_cons. case_decide; [|by apply IH].
    cbn [fmap list_fmap fst]. apply NoDup_cons. split; [|by apply IH]. intros ([k' x'] & E & H')%list_elem_of_fmap. apply list_elem_of_filter in H' as [_ H']. cbn in E. subst k'.
    apply N1. apply list_elem_of_fmap. by exists (k, x').
  - intros k. rewrite M. cbn [fmap list_fmap fst]. rewrite elem_of_cons. rewrite !list_elem_of_fmap. split.
    + intros ([k' b'] & -> & H). cbn [fst]. destruct (decide (k' = key)) as [->|Hn]; [by left|right]. exists (k', b'). split; [done|]. by apply Hr.
    + intros [->|([k' b'] & -> & H)]; [by exists (key, b)|]. exists (k', b'). split; [done|]. by apply Hr in H as [_ ?].
  - cbn [length]. lia.
  - intros k b' [[= -> ->]|H]%elem_of_cons; [by eapply W|]. apply Hr in H as [_ ?]. by eapply W.
  - by eexists.
  - intros k b' Hn [[= -> ->]|H]%elem_of_cons; [done|]. by apply Hr in H as [_ ?].
  - intros k b' Hn H. left. right. by apply Hr.
  - by left.
Qed.

Lemma frontSender_new key now l own l1 :
  soundLimiter l → lok l → key ∉ lm_senders l → frontSender key now l = (own, l1) → fronted key now l own l1.
Proof.
  intros S [N M B R W G] Hin. unfold frontSender. rewrite decide_False by done. destruct S as [S1 S2].
  assert (Hk : key ∉ fst <$> lm_order l) by (by rewrite <-M).
  set (full := lm_maxSenders l <=? Z.of_nat (length (lm_order l))). destruct (if full then last (lm_order l) else None) as [e|] eqn:Ee.
  - destruct full eqn:Ef; [|done]. apply Z.leb_le in Ef. pose proof (removelast_last _ _ Ee) as El. intros [= <- <-]. set (o := removelast (lm_order l)) in *. rewrite El in N, M, Hk, B.
    rewrite fmap_app in N, M, Hk. apply NoDup_app in N as (N1 & N2 & _). rewrite length_app in B. cbn [length] in B.
    split; cbn [setOrder lm_order lm_senders lm_global]; [split; cbn [setOrder lm_order lm_senders lm_global lm_maxSenders lm_senderBurst lm_globalBurst]|..]; try done.
    + cbn [fmap list_fmap fst]. apply NoDup_cons. split; [|done]. intros H. apply Hk, elem_of_app. by left.
    + intros k. rewrite elem_of_union, elem_of_singleton, elem_of_difference, elem_of_singleton, M, elem_of_app. cbn [fmap list_fmap fst]. rewrite list_elem_of_singleton, elem_of_cons.
      split; [intros [->|[[?|?] ?]]; auto; done|]. intros [->|H]; [by left|]. right. split; [by left|]. intros ->. apply (N2 _ H). by apply list_elem_of_singleton.
    + cbn [length]. lia.
    + intros k b' [[= -> ->]|H]%elem_of_cons; [by eapply within_burst|]. apply (W k). rewrite El. apply elem_of_app. by left.
    + by eexists.
    + intros k b' Hn [[= -> ->]|H]%elem_of_cons; [done|]. rewrite El. apply elem_of_app. by left.
    + intros k b' Hn H. rewrite El in H. apply elem_of_app in H as [H|H%list_elem_of_singleton]; [left; by right|]. right. subst e. rewrite Ee. by split_and!.
    + by right.
  - assert (full = false) as Ef. { destruct full eqn:Ef; [|done]. apply Z.leb_le in Ef. apply last_None in Ee. rewrite Ee in Ef. cbn in Ef. lia. }
    intros [= <- <-]. apply Z.leb_gt in Ef. split; cbn [setOrder lm_order lm_senders lm_global]; [split; cbn [setOrder lm_order lm_senders lm_global lm_maxSenders lm_senderBurst lm_globalBurst]|..]; try done.
    + cbn [fmap list_fmap fst]. by apply NoDup_cons.
    + intros k. cbn [fmap list_fmap fst]. rewrite elem_of_union, elem_of_singleton, M, elem_of_cons. done.
    + cbn [length]. lia.
    + intros k b' [[= -> ->]|H]%elem_of_cons; [by eapply within_burst|by eapply W].
    + by eexists.
    + intros k b' Hn [[= -> ->]|H]%elem_of_cons; done.
    + intros k b' Hn H. left. by right.
    + by right.
Qed.

Lemma frontSender_spec key now l own l1 : soundLimiter l → lok l → frontSender key now l = (own, l1) → fronted key now l own l1.
Proof. intros S L. destruct (decide (key ∈ lm_senders l)); [by apply frontSender_found|by apply frontSender_new]. Qed.

Lemma setFront_ok l key own rest b :
  lok l → lm_order l = (key, own) :: rest → within (lm_senderBurst l) (bk_tokens b) → lok (setFront b l) ∧ sameRates l (setFront b l) ∧ lm_global (setFront b l) = lm_global l ∧ lm_order (setFront b l) = (key, b) :: rest.
Proof.
  intros [N M B R W G] E Hb. unfold setFront. rewrite E in *. cbn [fst]. split; [|done]. split; cbn [setOrder lm_order lm_senders lm_global lm_maxSenders lm_senderBurst lm_globalBurst]; try done.
  intros k b' [[= -> ->]|H]%elem_of_cons; [done|]. apply (W k). by right.
Qed.

Lemma setGlobal_ok l g : lok l → within (lm_globalBurst l) (bk_tokens g) → lok (setGlobal g l) ∧ sameRates l (setGlobal g l).
Proof. intros [N M B R W G] Hg. split; [by split|done]. Qed.

Lemma sameRates_trans l l1 l2 : sameRates l l1 → sameRates l1 l2 → sameRates l l2.
Proof. unfold sameRates. intros. destruct_and!. split_and!; congruence. Qed.

(** The bridge-wide bucket after a request: drawn on unless the sender's own
    bucket refused it. *)
Definition globalAfter (v : verdict) (now : Z) (l l' : limiter) : Prop :=
  match v with
  | refusedBySender => lm_global l' = lm_global l
  | _ => (match v with Admitted_ => true | _ => false end, lm_global l') = take_ now (lm_globalPerSecond l) (lm_globalBurst l) (lm_global l)
  end.

(** What the sender's bucket holds after a request. *)
Definition ownAfter (v : verdict) (now : Z) (l : limiter) (own own' : bucket) : Prop :=
  let r := take_ now (lm_senderPerSecond l) (lm_senderBurst l) own in
  match v with
  | refusedBySender => r = (false, own')
  | Admitted_ => r = (true, own')
  | refusedByGlobal => r.1 = true ∧ own' = refund (lm_senderBurst l) r.2
  end.

Lemma admit_spec sender now l v l' :
  soundLimiter l → lok l → admitSender sender now l = (v, l') →
  lok l' ∧ sameRates l l' ∧ globalAfter v now l l' ∧
  (sender = "" ∧ lm_order l' = lm_order l ∨
   sender ≠ "" ∧ ∃ own own' l1 rest, fronted (keyOf l sender) now l own l1 ∧ lm_order l1 = (keyOf l sender, own) :: rest ∧
     lm_order l' = (keyOf l sender, own') :: rest ∧ ownAfter v now l own own').
Proof.
  intros Hs L. pose proof Hs as [S1 S2]. unfold admitSender. pose proof (take_spec _ _ _ now S2 (lo_global _ L)) as (Wg & _). case_bool_decide as E0.
  - destruct (take_ now _ _ (lm_global l)) as [ok g] eqn:Eg. cbn [fst snd] in *. intros [= <- <-]. destruct (setGlobal_ok l g L Wg) as [L' R'].
    split; [done|]. split; [done|]. split; [|by left]. unfold globalAfter. destruct ok; by rewrite Eg.
  - destruct (frontSender (keyOf l sender) now l) as [own l1] eqn:Ef. pose proof (frontSender_spec _ _ _ _ _ Hs L Ef) as F. pose proof F as [L1 R1 G1 [rest E1] _ _ _].
    pose proof R1 as (_ & _ & Rb & _ & Rg & _). assert (Wo : within (lm_senderBurst l) (bk_tokens own)) by (rewrite <-Rb; apply (lo_buckets _ L1 (keyOf l sender)); rewrite E1; left).
    pose proof (take_spec _ _ _ now S1 Wo) as (W1 & _). destruct (take_ now (lm_senderPerSecond l) (lm_senderBurst l) own) as [ok own1] eqn:Eo. cbn [fst snd] in W1.
    destruct (take_ now _ _ (lm_global l)) as [okg g] eqn:Eg. cbn [fst snd] in Wg. rewrite <-Rb in W1. rewrite <-Rg in Wg.
    destruct (refund_spec (lm_senderBurst l) (lm_senderPerSecond l) (bk_tokens own1)) as [W2 _]; [by rewrite <-Rb|]. rewrite <-Rb in W2.
    destruct (setFront_ok l1 _ own rest own1 L1 E1 W1) as (La & Ra & Ga & Oa).
    destruct (setFront_ok l1 _ own rest (refund (lm_senderBurst l) own1) L1 E1) as (Lb & Rb' & Gb & Ob); [unfold refund; cbn [bk_tokens]; by rewrite <-Rb|].
    destruct ok; cbn [negb]; [destruct okg; cbn [negb]|]; intros [= <- <-].
    + destruct (setGlobal_ok (setFront own1 l1) g La) as [L2 R2]; [destruct Ra as (_ & _ & _ & _ & -> & _); done|]. split; [done|].
      split; [exact (sameRates_trans _ _ _ R1 (sameRates_trans _ _ _ Ra R2))|]. split; [by cbn; rewrite Eg|]. right. split; [done|]. exists own, own1, l1, rest. unfold ownAfter. rewrite Eo. by split_and!.
    + destruct (setGlobal_ok (setFront (refund (lm_senderBurst l) own1) l1) g Lb) as [L2 R2]; [destruct Rb' as (_ & _ & _ & _ & -> & _); done|]. split; [done|].
      split; [exact (sameRates_trans _ _ _ R1 (sameRates_trans _ _ _ Rb' R2))|]. split; [by cbn; rewrite Eg|]. right. split; [done|]. exists own, (refund (lm_senderBurst l) own1), l1, rest. unfold ownAfter. rewrite Eo. by split_and!.
    + split; [done|]. split; [exact (sameRates_trans _ _ _ R1 Ra)|]. split; [cbn; congruence|]. right. split; [done|]. exists own, own1, l1, rest. unfold ownAfter. rewrite Eo. by split_and!.
Qed.

(** ** Runs: requests as the lock orders them, each with the time it read *)
Fixpoint admitAll (reqs : list (string * Z)) (l : limiter) : list verdict * limiter :=
  match reqs with
  | [] => ([], l)
  | (sender, now) :: reqs' => let '(v, l1) := admitSender sender now l in let '(vs, l2) := admitAll reqs' l1 in (v :: vs, l2)
  end.

Definition passed (vs : list verdict) : list verdict := filter (λ v, v = Admitted_) vs.

(** The time that passed between the readings, going back not counted. *)
Fixpoint forward (t : Z) (times : list Z) : Z :=
  match times with [] => 0 | t' :: times' => Z.max 0 (t' - t) + forward t' times' end.

Lemma forward_nonneg times : ∀ t, 0 ≤ forward t times.
Proof. induction times as [|t' times IH]; intros t; cbn; [lia|]. specialize (IH t'). lia. Qed.

Lemma soundLimiter_same l l' : sameRates l l' → soundLimiter l → soundLimiter l'.
Proof. intros (_ & E1 & E2 & E3 & E4 & _) [S1 S2]. split; [by rewrite E1, E2|by rewrite E3, E4]. Qed.

Lemma passed_cons v vs : passed (v :: vs) = (match v with Admitted_ => [v] | _ => [] end) ++ passed vs.
Proof. unfold passed. rewrite filter_cons. by destruct v. Qed.

(** What passes, against what the bridge-wide bucket holds: [D] is the time
    that passed since the bucket was last drawn on. *)
Lemma admit_accounted reqs : ∀ l cur D,
  soundLimiter l → lok l → Z.max 0 (cur - bk_last (lm_global l)) ≤ D →
  (qlen (passed (admitAll reqs l).1) <= val (bk_tokens (lm_global l)) + secs (D + forward cur (snd <$> reqs)) * val (lm_globalPerSecond l) + qlen reqs * slack (lm_globalBurst l))%Q.
Proof.
  induction reqs as [|[sender now] reqs IH]; intros l cur D Hs L HD; pose proof Hs as [_ S2]; pose proof (val_nonneg _ (@sized_rate _ _ S2)) as Hr; pose proof (val_nonneg _ (proj1 (lo_global _ L))) as Hg.
  { cbn [admitAll fst]. change (qlen (passed [])) with 0%Q. change (qlen (@nil (string * Z))) with 0%Q. cbn [fmap list_fmap forward].
    pose proof (Qmult_le_0_compat _ _ (secs_nonneg (D + 0) ltac:(lia)) Hr). lra. }
  cbn [admitAll fmap list_fmap snd forward]. destruct (admitSender sender now l) as [v l1] eqn:Ea. destruct (admit_spec _ _ _ _ _ Hs L Ea) as (L1 & R1 & G1 & _).
  pose proof (soundLimiter_same _ _ R1 Hs) as Hs1. destruct R1 as (_ & _ & _ & E3 & E4 & _). pose proof (slack_nonneg _ _ S2) as Hsl.
  set (m := Z.max 0 (now - cur)). replace (D + (m + forward now (snd <$> reqs))) with (D + m + forward now (snd <$> reqs)) by lia.
  destruct (decide (v = refusedBySender)) as [->|Hv].
  - cbn in G1. specialize (IH l1 now (D + m) Hs1 L1 ltac:(rewrite G1; lia)). rewrite G1, E3, E4 in IH. destruct (admitAll reqs l1) as [vs l2]. cbn [fst] in *.
    rewrite passed_cons. cbn [app]. rewrite qlen_cons. lra.
  - pose proof (take_spec _ _ _ now S2 (lo_global _ L)) as (_ & El & V & _).
    assert (Eg : (match v with Admitted_ => true | _ => false end, lm_global l1) = take_ now (lm_globalPerSecond l) (lm_globalBurst l) (lm_global l)) by by destruct v.
    rewrite <-Eg in El, V. cbn [fst snd] in El, V. specialize (IH l1 now 0 Hs1 L1 ltac:(lia)). rewrite E3, E4 in IH.
    assert (Hm : (secs (Z.max 0 (timeBetween now (bk_last (lm_global l)))) <= secs (D + m))%Q) by (apply secs_mono; unfold timeBetween, i64_max, i64_min; lia).
    pose proof (Qmult_le_compat_r _ _ _ Hm Hr) as Hp. rewrite secs_plus. rewrite Z.add_0_l in IH. destruct (admitAll reqs l1) as [vs l2]. cbn [fst] in *.
    rewrite passed_cons, qlen_cons. destruct v; [|done|]; cbn [app]; rewrite ?qlen_cons; lra.
Qed.

Lemma admit_window reqs : ∀ l cur,
  soundLimiter l → lok l →
  (qlen (passed (admitAll reqs l).1) <= val (lm_globalBurst l) + secs (forward cur (snd <$> reqs)) * val (lm_globalPerSecond l) + qlen reqs * slack (lm_globalBurst l))%Q.
Proof.
  induction reqs as [|[sender now] reqs IH]; intros l cur Hs L; pose proof Hs as [_ S2]; pose proof (val_nonneg _ (@sized_rate _ _ S2)) as Hr; pose proof (slack_nonneg _ _ S2) as Hsl.
  { cbn [admitAll fst]. change (qlen (passed [])) with 0%Q. change (qlen (@nil (string * Z))) with 0%Q. cbn [fmap list_fmap forward]. rewrite secs_0. pose proof (sized_burst_range (lm_globalBurst l) _). lra. }
  cbn [admitAll fmap list_fmap snd forward]. destruct (admitSender sender now l) as [v l1] eqn:Ea. destruct (admit_spec _ _ _ _ _ Hs L Ea) as (L1 & R1 & G1 & _).
  pose proof (soundLimiter_same _ _ R1 Hs) as Hs1. destruct R1 as (_ & _ & _ & E3 & E4 & _). pose proof (forward_nonneg (snd <$> reqs) now) as Hf.
  assert (Hm : (secs (forward now (snd <$> reqs)) <= secs (Z.max 0 (now - cur) + forward now (snd <$> reqs)))%Q) by (apply secs_mono; lia).
  pose proof (Qmult_le_compat_r _ _ _ Hm Hr) as Hp. destruct (decide (v = refusedBySender)) as [->|Hv].
  - specialize (IH l1 now Hs1 L1). rewrite E3, E4 in IH. destruct (admitAll reqs l1) as [vs l2]. cbn [fst] in *. rewrite passed_cons. cbn [app]. rewrite qlen_cons. lra.
  - pose proof (take_spec _ _ _ now S2 (lo_global _ L)) as (_ & El & _ & V).
    assert (Eg : (match v with Admitted_ => true | _ => false end, lm_global l1) = take_ now (lm_globalPerSecond l) (lm_globalBurst l) (lm_global l)) by by destruct v.
    rewrite <-Eg in El, V. cbn [fst snd] in El, V. pose proof (admit_accounted reqs l1 now 0 Hs1 L1 ltac:(lia)) as A. rewrite E3, E4, Z.add_0_l in A.
    destruct (admitAll reqs l1) as [vs l2]. cbn [fst] in *. rewrite passed_cons, qlen_cons. destruct v; [|done|]; cbn [app]; rewrite ?qlen_cons; lra.
Qed.

(** ** Limiters as they are made *)
Lemma perMinute_sized burst perMinute :
  1 ≤ burst ≤ 1000000000 → 1 ≤ perMinute ≤ 10000000000 → Sized (ofInt burst) (fdiv (ofInt perMinute) (ofInt 60)).
Proof.
  intros Hb Hp. destruct (ofInt_exact burst) as [Nb Vb]; [lia|]. destruct (ofInt_exact perMinute) as [Np Vp]; [lia|]. destruct (ofInt_exact 60) as [N6 V6]; [lia|].
  assert (Q1 : (1 <= inject_Z perMinute <= 10000000000)%Q) by (split; [change 1%Q with (inject_Z 1)|change 10000000000%Q with (inject_Z 10000000000)]; rewrite <-Zle_Qle; lia).
  assert (Q2 : (1 <= inject_Z burst <= 1000000000)%Q) by (split; [change 1%Q with (inject_Z 1)|change 1000000000%Q with (inject_Z 1000000000)]; rewrite <-Zle_Qle; lia).
  assert (E : (val (ofInt perMinute) / val (ofInt 60) == inject_Z perMinute * (1 # 60))%Q) by (rewrite V6, Vp; reflexivity).
  destruct (fdiv_near (ofInt perMinute) (ofInt 60)) as [Nd Vd]; [done..|rewrite V6; reflexivity|rewrite E; apply below_max; lra|]. rewrite E in Vd. apply near_bounds in Vd; [|lra].
  split; [done|done|rewrite Vb; done|lra].
Qed.

Section Made.
Context (hashKey : list Z) (senderPerMinute senderBurst globalPerMinute globalBurst maxSenders start : Z).
Hypothesis (Hsp : 1 ≤ senderPerMinute ≤ 10000000000) (Hsb : 1 ≤ senderBurst ≤ 1000000000).
Hypothesis (Hgp : 1 ≤ globalPerMinute ≤ 10000000000) (Hgb : 1 ≤ globalBurst ≤ 1000000000) (Hms : 1 ≤ maxSenders).

Definition made : limiter := newLimiter hashKey senderPerMinute senderBurst globalPerMinute globalBurst maxSenders start.

Lemma made_sound : soundLimiter made.
Proof. split; by apply perMinute_sized. Qed.

Lemma made_ok : lok made.
Proof.
  split; cbn; [constructor|intros; split; [set_solver|by intros ?%elem_of_nil]|lia|lia|by intros ? ? ?%elem_of_nil|]. eapply within_burst. by apply (perMinute_sized globalBurst globalPerMinute).
Qed.

Lemma admitAll_ok reqs : ∀ l, soundLimiter l → lok l → lok (admitAll reqs l).2 ∧ sameRates l (admitAll reqs l).2.
Proof.
  induction reqs as [|[sender now] reqs IH]; intros l Hs L; [by split|]. cbn [admitAll]. destruct (admitSender sender now l) as [v l1] eqn:Ea.
  destruct (admit_spec _ _ _ _ _ Hs L Ea) as (L1 & R1 & _). destruct (IH l1 (soundLimiter_same _ _ R1 Hs) L1) as [L2 R2]. destruct (admitAll reqs l1). cbn [snd] in *.
  split; [done|]. exact (sameRates_trans _ _ _ R1 R2).
Qed.


(** No sender spends another's allowance: a request leaves the bucket of
    every other sender as it was, unless it evicts the least recently seen one
    at the bound; one the sender's own bucket refuses leaves the bridge-wide
    bucket alone; and one the bridge-wide bucket refuses gives the sender's
    token back, so that its bucket holds what it held, refilled, up to the
    slack. *)
Theorem others_spend_nothing before sender now v l' :
  let l := (admitAll before made).2 in
  sender ≠ "" → admitSender sender now l = (v, l') →
  (∀ k b, k ≠ keyOf l sender → (k, b) ∈ lm_order l' → (k, b) ∈ lm_order l) ∧
  (∀ k b, k ≠ keyOf l sender → (k, b) ∈ lm_order l →
     (k, b) ∈ lm_order l' ∨ keyOf l sender ∉ lm_senders l ∧ maxSenders ≤ tracked l ∧ (fst <$> last (lm_order l)) = Some k) ∧
  (v = refusedBySender → lm_global l' = lm_global l) ∧
  (v = refusedByGlobal → ∃ own own' rest, lm_order l' = (keyOf l sender, own') :: rest ∧
     ((keyOf l sender, own) ∈ lm_order l ∨ own = MkTokens (ofInt senderBurst) now) ∧
     (val (refill (ofInt senderBurst) (fdiv (ofInt senderPerMinute) (ofInt 60)) (bk_tokens own) (timeBetween now (bk_last own))) - slack (ofInt senderBurst) <= val (bk_tokens own'))%Q).
Proof.
  intros l Hn Ea. destruct (admitAll_ok before made made_sound made_ok) as [L R]. fold l in L, R. pose proof (soundLimiter_same _ _ R made_sound) as Hs.
  destruct (admit_spec _ _ _ _ _ Hs L Ea) as (L' & R' & G & [[E _]|(_ & own & own' & l1 & rest & F & E1 & E' & O)]); [done|]. pose proof F as [_ _ _ _ Fo Fk Fw].
  pose proof R as (_ & Rp & Rb & _ & _ & Rm). cbn [made newLimiter lm_maxSenders lm_senderBurst lm_senderPerSecond] in Rp, Rb, Rm. split_and!.
  - intros k b Hk H. apply Fo; [done|]. rewrite E1. rewrite E' in H. apply elem_of_cons in H as [[= -> ->]|H]; [done|]. by right.
  - intros k b Hk H. destruct (Fk k b Hk H) as [H1|(H1 & H2 & H3)].
    + left. rewrite E'. rewrite E1 in H1. apply elem_of_cons in H1 as [[= -> ->]|H1]; [done|]. by right.
    + right. rewrite Rm in H2. by split_and!.
  - intros ->. exact G.
  - intros ->. exists own, own', rest. split; [done|]. split; [destruct Fw as [?|[_ ->]]; [by left|right; by rewrite Rb]|].
    destruct O as [O1 ->]. cbn [refund bk_tokens]. unfold take_ in O1 |- *. rewrite Rp, Rb in O1 |- *. set (t := refill (ofInt senderBurst) _ _ _) in O1 |- *.
    pose proof (perMinute_sized senderBurst senderPerMinute Hsb Hsp) as S1.
    assert (Wo : within (ofInt senderBurst) (bk_tokens own)).
    { destruct Fw as [H|[_ ->]]; [rewrite <-Rb; by eapply (lo_buckets _ L)|]. cbn [bk_tokens]. rewrite Rb. by eapply within_burst. }
    destruct (refill_spec _ _ _ (timeBetween now (bk_last own)) Wo (bridge_between_max _ _)) as (Wt & _). fold t in Wt. pose proof (fltb_fleb t (ofInt 1) (proj1 Wt) eq_refl) as Ec. rewrite Ec in O1 |- *.
    destruct (fleb (ofInt 1) t) eqn:Ef; cbn [negb fst snd bk_tokens] in *; [|done]. by apply (refund_lower _ _ (SZ := S1)).
Qed.
End Made.

(** Five requests at one moment through a bridge-wide burst of three. *)
Definition sampleLimiter : limiter := made [7] 6 2 60 3 2 0.
Definition sampleRun : list (string * Z) := [("1", 0); ("2", 0); ("", 0); ("3", 0); ("1", 0)].


Definition spentLimiter : limiter := (admitAll [("1", 0); ("2", 0); ("2", 0)] sampleLimiter).2.

Lemma others_spend_nothing_witness :
  (admitSender "1" 0 spentLimiter).1 = refusedByGlobal ∧
  ∀ k b, k ≠ keyOf spentLimiter "1" → (k, b) ∈ lm_order (admitSender "1" 0 spentLimiter).2 → (k, b) ∈ lm_order spentLimiter.
Proof.
  split; [vm_compute; reflexivity|].
  destruct (others_spend_nothing [7] 6 2 60 3 2 0 ltac:(lia) ltac:(lia) ltac:(lia) ltac:(lia) ltac:(lia) [("1", 0); ("2", 0); ("2", 0)] "1" 0
    (admitSender "1" 0 spentLimiter).1 (admitSender "1" 0 spentLimiter).2) as (H & _);
    [discriminate|apply surjective_pairing|exact H].
Defined.

(** ** The server *)

(** A request refused before the limiter, and one that is not sent. *)
Ltac early := intros [= <- <- <- <-]; cbn [rs_status]; split; [by intros _|]; split; [done|]; split; [done|]; split; [done|by intros [[? ?] _]].
Ltac unsent := intros [= <- <- <- <-]; cbn [rs_status ss_limiter ss_sender ss_global]; split; [done|]; split; [intros _; by split_and!|]; split; [done|]; split; [done|by intros [[? ?] _]].

(** C35: The bridge forwards a request at most once and only when the gateway
    is not stopping, path, method and source are right, the body fits and
    reads whole, and the limiter admits its sender; the body goes on
    unchanged under a signature over the time, the nonce and that body. The
    answer is 200 exactly when the runtime answered in the two hundreds. A
    request refused for volume is counted once under its limit, and one
    refused before that changes nothing. *)
Theorem bridge_forwards_exactly IsDigit s stopping r now now' ms nonce buildOK answer st rsp fw st' n :
  ServeHTTP IsDigit s stopping r now now' ms nonce buildOK answer st = (rsp, fw, st', n) →
  let checked := negb stopping && bool_decide (rq_path r = sv_path s) && bool_decide (rq_method r = "POST") && sourceAllowed s (rq_remoteAddr r) &&
                 (slen (rq_body r) <=? sv_maxBodyBytes s) && negb (rq_bodyErr r) in
  let v := (admitSender (senderOf IsDigit (rq_contentType r) (rq_body r)) now (ss_limiter st)).1 in
  (checked = false → st' = st ∧ fw = None ∧ rs_status rsp ≠ 200) ∧
  (checked = true →
     ss_limiter st' = (admitSender (senderOf IsDigit (rq_contentType r) (rq_body r)) now (ss_limiter st)).2 ∧
     (v = refusedBySender → rs_status rsp = 429 ∧ fw = None ∧ ss_sender st' = wrapU64 (ss_sender st + 1) ∧ ss_global st' = ss_global st) ∧
     (v = refusedByGlobal → rs_status rsp = 429 ∧ fw = None ∧ ss_sender st' = ss_sender st ∧ ss_global st' = wrapU64 (ss_global st + 1)) ∧
     (v = Admitted_ → ss_sender st' = ss_sender st ∧ ss_global st' = ss_global st)) ∧
  (∀ f, fw = Some f → checked = true ∧ v = Admitted_ ∧
     ∃ nc, nonce = Some nc ∧ fw_url f = sv_targetURL s ∧ fw_body f = rq_body r ∧
       ("X-Ori-Webhook-Signature", signBody (rq_body r) (sv_hmacSecret s) ms nc) ∈ fw_headers f ∧
       ("X-Ori-Webhook-Timestamp", FormatInt ms) ∈ fw_headers f ∧ ("X-Ori-Webhook-Nonce", nc) ∈ fw_headers f) ∧
  (rs_status rsp = 200 ↔ is_Some fw ∧ ∃ code, answer = Some code ∧ 200 ≤ code < 300).
Proof.
  unfold ServeHTTP, readBody. destruct stopping; [early|]. cbn [negb andb].
  destruct (bool_decide (rq_path r = sv_path s)); [|early]. cbn [negb andb].
  destruct (bool_decide (rq_method r = "POST")); [|early]. cbn [negb andb].
  destruct (sourceAllowed s (rq_remoteAddr r)); [|early]. cbn [negb andb].
  destruct (Z.ltb_spec (sv_maxBodyBytes s) (slen (rq_body r))) as [Hb|Hb].
  { replace (slen (rq_body r) <=? sv_maxBodyBytes s) with false by lia. early. }
  replace (slen (rq_body r) <=? sv_maxBodyBytes s) with true by lia. destruct (rq_bodyErr r); [early|]. cbn [negb andb].
  destruct (admitSender _ now (ss_limiter st)) as [v l]. cbn [fst snd]. destruct v.
  - destruct nonce as [nc|]; [|unsent].
    destruct buildOK; cbn [negb]; [|unsent].
    assert (Hh : ∀ x, x ∈ drop 1 [("X-Ori-Webhook-Token", sv_runtimeToken s); ("X-Ori-Webhook-Signature", signBody (rq_body r) (sv_hmacSecret s) ms nc); ("X-Ori-Webhook-Timestamp", FormatInt ms); ("X-Ori-Webhook-Nonce", nc)] →
      x ∈ headersOf s (rq_contentType r) (rq_body r) ms nc) by (intros x Hx; unfold headersOf; apply elem_of_app; right; by right).
    set (f := MkForward _ _ _).
    assert (Hf : ∃ nc', Some nc = Some nc' ∧ fw_url f = sv_targetURL s ∧ fw_body f = rq_body r ∧ ("X-Ori-Webhook-Signature", signBody (rq_body r) (sv_hmacSecret s) ms nc') ∈ fw_headers f ∧
       ("X-Ori-Webhook-Timestamp", FormatInt ms) ∈ fw_headers f ∧ ("X-Ori-Webhook-Nonce", nc') ∈ fw_headers f).
    { exists nc. split_and!; try done; apply Hh; cbn [drop]; [left|right; left|right; right; left]. }
    destruct answer as [code|]; [destruct ((code <? 200) || (300 <=? code)) eqn:Ec|]; intros [= <- <- <- <-]; cbn [rs_status ss_limiter ss_sender ss_global]; split_and!; try done;
      try (intros ? [= <-]; by split_and!); split; try done.
    + intros (_ & code' & [= <-] & ?). lia.
    + intros _. split; [by eexists|]. exists code. split; [done|lia].
    + intros (_ & code' & ? & _). done.
  - unfold refuseVolume. destruct (note now' "sender" (ss_log st)) as [n0 log]. unsent.
  - unfold refuseVolume. destruct (note now' "global" (ss_log st)) as [n0 log]. unsent.
Qed.

Definition sampleServer : Server := MkServer "/hook" "http://127.0.0.1:9/in" [] true "tok" "sec" 1000.
Definition sampleServed := ServeHTTP asciiDigit sampleServer false (MkHTTP "/hook" "POST" "127.0.0.1:555" "" "from=1&text=hi" false) 5 5 1000 (Some "n0") true (Some 204)
  (MkSState sampleLimiter 0 0 (MkRefusalLog ∅ ∅ ∅)).

Lemma bridge_forwards_exactly_witness :
  rs_status sampleServed.1.1.1 = 200 ∧
  ∃ f, sampleServed.1.1.2 = Some f ∧ fw_body f = "from=1&text=hi".
Proof.
  split; [vm_compute; reflexivity|].
  destruct (bridge_forwards_exactly asciiDigit sampleServer false (MkHTTP "/hook" "POST" "127.0.0.1:555" "" "from=1&text=hi" false) 5 5 1000 (Some "n0") true (Some 204)
    (MkSState sampleLimiter 0 0 (MkRefusalLog ∅ ∅ ∅)) sampleServed.1.1.1 sampleServed.1.1.2 sampleServed.1.2 sampleServed.2) as (_ & _ & H & H200).
  - unfold sampleServed. destruct (ServeHTTP _ _ _ _ _ _ _ _ _ _ _) as [[[? ?] ?] ?]. reflexivity.
  - destruct H200 as [H200 _]. destruct (H200 ltac:(vm_compute; reflexivity)) as [[f Ef] _]. exists f. split; [exact Ef|].
    destruct (H f Ef) as (_ & _ & nc & _ & _ & Hb & _). exact Hb.
Defined.

(** ** The refusal log *)

(** A timer that fires late: the refusal after it was due is logged at once,
    the next one within the same second waits for that timer, and the timer
    then logs it, so two lines of one limit come in one second. *)
Lemma two_lines_in_a_second :
  let t0 := 100 * nanos in
  let '(a1, r1) := note t0 "sender" (MkRefusalLog ∅ ∅ ∅) in
  let '(a2, r2) := note (t0 + 1) "sender" r1 in
  let '(a3, r3) := note (t0 + nanos + 5) "sender" r2 in
  let '(a4, r4) := note (t0 + nanos + 6) "sender" r3 in
  let '(a5, r5) := flush "sender" r4 in
  a1 = NotedLine 1 ∧ a2 = NotedTimer (nanos - 1) ∧ a3 = NotedLine 2 ∧ a4 = NotedNothing ∧ a5 = Some 1.
Proof. vm_compute. by split_and!. Qed.
End WebhookSpec.
