(* ===== verification/Config.v ===== *)
(** * Configuration (config/config.go)

    The file's values, the configuration they become with defaults applied,
    and every check of the loader. The YAML decoder, [url.Parse] (its scheme
    and host) and the time zone database are parameters. Paths are Unix
    paths. *)
From S2P Require Import Prelude GoBytes Json Routing Queue Load Contracts Worker NetAddr Webhook.

Module Config.
Import Routing Queue Contracts NetAddr.
Import Load (QueueOptions, MkOptions, o_Directory, o_MaxItems, o_MaxBytes, o_Devices, o_ReserveDeviceShares, o_VersionedDevices, o_FaultSource).
Import Webhook (lowered).

Definition DefaultHeartbeatIntervalS : Z := 30.
Definition DefaultProviderTimeoutMS : Z := 10000.
Definition DefaultGatewayAuthSecretEnv : string := "GATEWAY_SHARED_SECRET".
Definition DefaultEvidenceMaxItems : Z := 10000.
Definition DefaultEvidenceMaxBytes : Z := Z.shiftl 256 20.
Definition DefaultEvidenceBackoffMaxS : Z := 300.
Definition DefaultEvidenceStoreProbeIntervalS : Z := 900.
Definition MinEvidenceStoreProbeIntervalS : Z := 300.
Definition MaxEvidenceStoreProbeIntervalS : Z := 900.
Definition DefaultEvidenceRetryS : Z := 5.
Definition DefaultWebhookBridgeListenAddr : string := "127.0.0.1:8090".
Definition DefaultSiteHealthListenAddr : string := "127.0.0.1:8765".
Definition DefaultWebhookBridgePath : string := "/webhooks/sms/africastalking".
Definition DefaultWebhookBridgeRequestTimeoutMS : Z := 3000.
Definition DefaultWebhookBridgeMaxBodyBytes : Z := 65536.
Definition DefaultWebhookBridgeSenderPerMinute : Z := 10.
Definition DefaultWebhookBridgeSenderBurst : Z := 5.
Definition DefaultWebhookBridgeGlobalPerMinute : Z := 120.
Definition DefaultWebhookBridgeGlobalBurst : Z := 20.
Definition DefaultWebhookBridgeMaxSenders : Z := 4096.
Definition maxWebhookBridgeTrackedSenders : Z := 65536.

Definition ProviderEcho : string := "echo".
Definition ProviderLlamaCpp : string := "llama_cpp".
Definition ProviderCloudLLM : string := "cloud_llm".
Definition CloudVendorOpenAICompatible : string := "openai_compatible".
Definition cloudVendors : list string := ["claude"; "openai"; "gemini"; "deepseek"; CloudVendorOpenAICompatible].
Definition ReportingProviderGemini : string := "gemini".

Definition CarriageGatewayAPIV1 : string := "gateway-api/v1".
Definition CarriageEvidenceCarriageV1 : string := "gateway-evidence-carriage/v1".

(** ** Paths: [filepath.Clean] and [filepath.IsAbs] on Unix *)
Fixpoint cleanSegments (rooted : bool) (segments acc : list string) : list string :=
  match segments with
  | [] => reverse acc
  | s :: rest =>
    if bool_decide (s = "") || bool_decide (s = ".") then cleanSegments rooted rest acc
    else if bool_decide (s = "..") then
      match acc with
      | x :: acc' => if bool_decide (x = "..") then cleanSegments rooted rest (s :: acc) else cleanSegments rooted rest acc'
      | [] => cleanSegments rooted rest (if rooted then [] else [s])
      end
    else cleanSegments rooted rest (s :: acc)
  end.

Definition IsAbs (path : string) : bool := hasPrefix path "/".

Definition Clean (path : string) : string :=
  let rooted := IsAbs path in
  let l := cleanSegments rooted (split slash path) [] in
  if rooted then String slash (join slash l) else if bool_decide (l = []) then "." else join slash l.

(** ** The sections *)
Record GatewayAuthConfig := MkAuth { ga_Enabled : bool; ga_SharedSecretEnv : string; ga_PreviousSharedSecretEnv : string }.

Record GatewayConfig := MkGateway {
  gc_BrokerURL : string; gc_DeviceIDs : list string; gc_HeartbeatIntervalS : Z; gc_Auth : GatewayAuthConfig; gc_CustodySecretEnv : string;
  gc_EncryptionEnabled : bool; gc_StateDirectory : string }.

Record EvidenceConfig := MkEvidence {
  ev_Enabled : bool; ev_QueueDirectory : string; ev_ReturnQueueDirectory : string; ev_MaxItems : Z; ev_MaxBytes : Z; ev_RetryIntervalS : Z;
  ev_BackoffBaseS : Z; ev_BackoffMaxS : Z; ev_StoreProbeIntervalS : Z; ev_EndpointEnv : string; ev_ClientIDEnv : string; ev_SecretEnv : string;
  ev_AuthorityCAFile : string; ev_DeviceCarriage : gmap string string }.

Record ProviderConfig := MkProvider {
  pc_Name : string; pc_TimeoutMS : Z; pc_LlamaCppURL : string; pc_LlamaCppModel : string;
  pc_Vendor : string; pc_APIKeyEnv : string; pc_Model : string; pc_BaseURL : string }.

Record WeeklyReportConfig := MkWeekly {
  wr_Enabled : bool; wr_Day : string; wr_Time : string; wr_Timezone : string; wr_DeviceID : string; wr_SensorIDs : list string;
  wr_CustomerName : string; wr_SiteName : string; wr_FileEnabled : bool; wr_FilePath : string; wr_CloudEnabled : bool; wr_CloudEndpoint : string; wr_CloudAuthEnv : string }.

Record ReportingConfig := MkReporting {
  rc_Provider : string; rc_GeminiAPIKeyEnv : string; rc_GeminiModel : string; rc_GeminiBaseURL : string; rc_WeeklyReport : WeeklyReportConfig; rc_TierCEnrichmentEnabled : bool }.

Record WebhookBridgeConfig := MkBridge {
  wb_Enabled : bool; wb_ListenAddr : string; wb_Path : string; wb_TargetURL : string; wb_ProviderSourceCIDRs : list string; wb_RuntimeTokenEnv : string;
  wb_HMACSecretEnv : string; wb_RequestTimeoutMS : Z; wb_MaxBodyBytes : Z; wb_SenderPerMinute : Z; wb_SenderBurst : Z; wb_GlobalPerMinute : Z; wb_GlobalBurst : Z; wb_MaxSenders : Z }.

Record SIMConfig := MkSIM { sm_Enabled : bool; sm_ModemPath : string }.
Record FleetConfig := MkFleet { fl_Enabled : bool; fl_CloudURL : string }.
Record SiteHealthConfig := MkSiteHealth { sh_Enabled : bool; sh_ListenAddr : string }.

Record Config := MkConf {
  cf_Gateway : GatewayConfig; cf_Provider : ProviderConfig; cf_Reporting : ReportingConfig; cf_WebhookBridge : WebhookBridgeConfig;
  cf_SIM : SIMConfig; cf_Fleet : FleetConfig; cf_SiteHealth : SiteHealthConfig; cf_Evidence : EvidenceConfig }.

(** ** The file: numbers that may be absent are options *)
Record fileGatewayConfig := MkFileGateway {
  fg_BrokerURL : string; fg_DeviceIDs : list string; fg_HeartbeatIntervalS : option Z; fg_Auth : GatewayAuthConfig; fg_CustodySecretEnv : string;
  fg_EncryptionEnabled : bool; fg_StateDirectory : string }.

Record fileProviderConfig := MkFileProvider {
  fp_Name : string; fp_TimeoutMS : option Z; fp_LlamaCppURL : string; fp_LlamaCppModel : string; fp_Vendor : string; fp_APIKeyEnv : string; fp_Model : string; fp_BaseURL : string }.

Record fileWebhookBridgeConfig := MkFileBridge {
  fw_Enabled : bool; fw_ListenAddr : string; fw_Path : string; fw_TargetURL : string; fw_ProviderSourceCIDRs : list string; fw_RuntimeTokenEnv : string;
  fw_HMACSecretEnv : string; fw_RequestTimeoutMS : option Z; fw_MaxBodyBytes : option Z; fw_SenderPerMinute : option Z; fw_SenderBurst : option Z;
  fw_GlobalPerMinute : option Z; fw_GlobalBurst : option Z; fw_MaxSenders : option Z }.

Record fileEvidenceConfig := MkFileEvidence {
  fe_Enabled : bool; fe_QueueDirectory : string; fe_ReturnQueueDirectory : string; fe_MaxItems : option Z; fe_MaxBytes : option Z; fe_RetryIntervalS : option Z;
  fe_BackoffBaseS : option Z; fe_BackoffMaxS : option Z; fe_StoreProbeIntervalS : option Z; fe_EndpointEnv : string; fe_ClientIDEnv : string; fe_SecretEnv : string;
  fe_AuthorityCAFile : string; fe_DeviceCarriage : gmap string string }.

Record fileConfig := MkFile {
  ff_Gateway : fileGatewayConfig; ff_Provider : fileProviderConfig; ff_Reporting : ReportingConfig; ff_WebhookBridge : fileWebhookBridgeConfig;
  ff_SIM : SIMConfig; ff_Fleet : FleetConfig; ff_SiteHealth : SiteHealthConfig; ff_Evidence : fileEvidenceConfig }.

(** ** Evidence *)
Definition DeclaresVersionedCarriage (c : EvidenceConfig) : bool :=
  bool_decide (map_Exists (λ _ carriage, carriage = CarriageEvidenceCarriageV1) (ev_DeviceCarriage c)).

Definition stringLe (a b : string) : Prop := String.leb a b = true.
#[global] Instance stringLe_dec : RelDecision stringLe := λ a b, decide (String.leb a b = true).

Definition VersionedDevices (c : EvidenceConfig) : list string :=
  merge_sort stringLe (fst <$> filter (λ p, p.2 = CarriageEvidenceCarriageV1) (map_to_list (ev_DeviceCarriage c))).

(** Seconds as a duration, in an [int64]. *)
Definition secondsDuration (s : Z) : Z := wrap64 (s * 1000000000).

Definition StoreProbeInterval (c : EvidenceConfig) : Z :=
  if DeclaresVersionedCarriage c then secondsDuration (ev_StoreProbeIntervalS c) else secondsDuration DefaultEvidenceStoreProbeIntervalS.

Definition Backoff (c : EvidenceConfig) : Z * Z :=
  if DeclaresVersionedCarriage c then (secondsDuration (ev_BackoffBaseS c), secondsDuration (ev_BackoffMaxS c))
  else let base := secondsDuration (ev_RetryIntervalS c) in (base, Z.max (secondsDuration DefaultEvidenceBackoffMaxS) base).

Definition normalizeEvidence (raw : fileEvidenceConfig) : EvidenceConfig :=
  let retry := default DefaultEvidenceRetryS (fe_RetryIntervalS raw) in
  let base := default retry (fe_BackoffBaseS raw) in
  let bound := default (Z.max DefaultEvidenceBackoffMaxS base) (fe_BackoffMaxS raw) in
  MkEvidence (fe_Enabled raw) (TrimSpace (fe_QueueDirectory raw)) (TrimSpace (fe_ReturnQueueDirectory raw))
    (default DefaultEvidenceMaxItems (fe_MaxItems raw)) (default DefaultEvidenceMaxBytes (fe_MaxBytes raw)) retry base bound
    (default DefaultEvidenceStoreProbeIntervalS (fe_StoreProbeIntervalS raw))
    (TrimSpace (fe_EndpointEnv raw)) (TrimSpace (fe_ClientIDEnv raw)) (TrimSpace (fe_SecretEnv raw)) (fe_AuthorityCAFile raw) (fe_DeviceCarriage raw).

Definition envNameBreakers : list ascii := [" "%char; bc 9; bc 13; bc 10; "="%char].

Definition validateEnvVarName (field value : string) : res unit :=
  if bool_decide (value = "") || containsAny envNameBreakers value then Err (EMsg (field +:+ " must be an environment variable name")) else Ok tt.

(** Checks in sequence, the first failure returned. *)
Fixpoint firstError (l : list (res unit)) : res unit :=
  match l with [] => Ok tt | Ok _ :: l' => firstError l' | Err e :: _ => Err e end.

Definition resolveDeviceCarriage (declared : gmap string string) (deviceIDs : list string) : res (gmap string string) :=
  match firstError ((λ p, if bool_decide (p.1 ∈ deviceIDs) then
                             if bool_decide (p.2 = CarriageGatewayAPIV1) || bool_decide (p.2 = CarriageEvidenceCarriageV1) then Ok tt
                             else Err (EMsg "evidence.device_carriage must be gateway-api/v1 or gateway-evidence-carriage/v1")
                           else Err (EMsg "evidence.device_carriage names a device_id which gateway.device_ids does not configure")) <$> map_to_list declared) with
  | Err e => Err e
  | Ok _ => Ok (list_to_map ((λ d, (d, default CarriageGatewayAPIV1 (declared !! d))) <$> deviceIDs))
  end.

Definition validateEvidenceDeviceID (deviceID : string) : res unit :=
  if validRoutingDeviceID deviceID then Ok tt else Err (EMsg "gateway.device_ids: device_id declares gateway-evidence-carriage/v1, so it must be of the routing domain").

Definition setCarriage (m : gmap string string) (c : EvidenceConfig) : EvidenceConfig :=
  MkEvidence (ev_Enabled c) (ev_QueueDirectory c) (ev_ReturnQueueDirectory c) (ev_MaxItems c) (ev_MaxBytes c) (ev_RetryIntervalS c) (ev_BackoffBaseS c) (ev_BackoffMaxS c)
    (ev_StoreProbeIntervalS c) (ev_EndpointEnv c) (ev_ClientIDEnv c) (ev_SecretEnv c) (ev_AuthorityCAFile c) m.

(** [validateEvidence] with the configuration it leaves; [fields] is the
    order in which the three names are visited. *)
Definition validateEvidence (fields : list (string * string) → list (string * string)) (cfg : EvidenceConfig) (deviceIDs : list string) : res EvidenceConfig :=
  if negb (ev_Enabled cfg) then Ok (setCarriage ∅ cfg)
  else if negb (IsAbs (ev_QueueDirectory cfg)) || negb (IsAbs (ev_ReturnQueueDirectory cfg)) then Err (EMsg "evidence queue directories must be absolute")
  else if bool_decide (Clean (ev_QueueDirectory cfg) = Clean (ev_ReturnQueueDirectory cfg)) then
    Err (EMsg "evidence outbound and return queues must use distinct directories")
  else if negb (bool_decide (ev_AuthorityCAFile cfg = "")) &&
          (negb (IsAbs (ev_AuthorityCAFile cfg)) || negb (bool_decide (Clean (ev_AuthorityCAFile cfg) = ev_AuthorityCAFile cfg)) ||
           negb (bool_decide (TrimSpace (ev_AuthorityCAFile cfg) = ev_AuthorityCAFile cfg))) then
    Err (EMsg "evidence.authority_ca_file must be an absolute, clean path")
  else if (ev_MaxItems cfg <=? 0) || (ev_MaxBytes cfg <=? 0) || (ev_RetryIntervalS cfg <=? 0) then
    Err (EMsg "evidence queue bounds and retry interval must be positive")
  else match firstError ((λ p, validateEnvVarName p.1 p.2) <$> fields [("evidence.endpoint_env", ev_EndpointEnv cfg); ("evidence.client_id_env", ev_ClientIDEnv cfg); ("evidence.secret_env", ev_SecretEnv cfg)]) with
  | Err e => Err e
  | Ok _ =>
    match resolveDeviceCarriage (ev_DeviceCarriage cfg) deviceIDs with
    | Err e => Err e
    | Ok carriage =>
      let cfg' := setCarriage carriage cfg in
      if negb (DeclaresVersionedCarriage cfg') then Ok cfg'
      else match firstError (validateEvidenceDeviceID <$> filter (λ d, carriage !! d = Some CarriageEvidenceCarriageV1) deviceIDs) with
      | Err e => Err e
      | Ok _ =>
        if (ev_BackoffMaxS cfg <? ev_BackoffBaseS cfg) || (ev_BackoffBaseS cfg <? ev_RetryIntervalS cfg) then
          Err (EMsg "evidence back-off must satisfy backoff_max_s >= backoff_base_s >= retry_interval_s")
        else
          let devices := Z.of_nat (length deviceIDs) in
          if (0 <? devices) && ((Z.quot (ev_MaxItems cfg) devices <? MinDeviceShareItems) || (Z.quot (ev_MaxBytes cfg) devices <? MinDeviceShareBytes)) then
            Err (EMsg "evidence.max_items and evidence.max_bytes are shared equally across devices")
          else if (ev_StoreProbeIntervalS cfg <? MinEvidenceStoreProbeIntervalS) || (MaxEvidenceStoreProbeIntervalS <? ev_StoreProbeIntervalS cfg) then
            Err (EMsg "evidence.store_probe_interval_s out of range")
          else Ok cfg'
      end
    end
  end.

(** ** The other sections *)
Definition defaultIfBlank (value fallback : string) : string := let trimmed := TrimSpace value in if bool_decide (trimmed = "") then fallback else trimmed.
Definition intOrDefault (value : option Z) (fallback : Z) : Z := default fallback value.

Definition normalizeSiteHealth (cfg : SiteHealthConfig) : SiteHealthConfig :=
  if sh_Enabled cfg then MkSiteHealth true (defaultIfBlank (sh_ListenAddr cfg) DefaultSiteHealthListenAddr) else cfg.

Definition validateSiteHealth (cfg : SiteHealthConfig) : res unit :=
  if negb (sh_Enabled cfg) then Ok tt
  else match SplitHostPort (sh_ListenAddr cfg) with None => Err (EMsg "site_health.listen_addr must be host:port") | Some _ => Ok tt end.

(** First occurrences, in order. *)
Fixpoint dedup (seen : gset string) (l : list string) : list string :=
  match l with [] => [] | d :: l' => if decide (d ∈ seen) then dedup seen l' else d :: dedup ({[d]} ∪ seen) l' end.
Definition normalizeGatewayDeviceIDs (deviceIDs : list string) : list string := dedup ∅ deviceIDs.

Definition validateGatewayDeviceID (deviceID : string) : res unit :=
  if bool_decide (deviceID = "") then Err (EMsg "device_id must not be empty")
  else if negb (bool_decide (TrimSpace deviceID = deviceID)) then Err (EMsg "device_id must not contain leading or trailing whitespace")
  else if containsAny ["/"; "+"; "#"; "|"]%char deviceID then Err (EMsg "device_id must not contain MQTT separators, wildcards, or auth delimiters")
  else Ok tt.

Definition isKnownProvider (name : string) : bool := bool_decide (name ∈ [ProviderEcho; ProviderLlamaCpp; ProviderCloudLLM]).
Definition isKnownCloudVendor (vendor : string) : bool := bool_decide (vendor ∈ cloudVendors).
Definition isKnownReportingProvider (name : string) : bool := bool_decide (name = ReportingProviderGemini).

Definition normalizeProviderStrings (p : fileProviderConfig) : ProviderConfig :=
  MkProvider (TrimSpace (fp_Name p)) 0 (TrimSpace (fp_LlamaCppURL p)) (TrimSpace (fp_LlamaCppModel p)) (TrimSpace (fp_Vendor p)) (TrimSpace (fp_APIKeyEnv p))
    (TrimSpace (fp_Model p)) (TrimSpace (fp_BaseURL p)).

Definition keyNameBreakers : list ascii := [" "%char; bc 9; bc 13; bc 10].

Definition validateProvider (p : ProviderConfig) : res unit :=
  if bool_decide (pc_Name p = ProviderLlamaCpp) then
    if bool_decide (pc_LlamaCppURL p = "") then Err (EMsg "provider.llama_cpp.url must not be empty when provider.name is llama_cpp") else Ok tt
  else if negb (bool_decide (pc_Name p = ProviderCloudLLM)) then Ok tt
  else if bool_decide (pc_Vendor p = "") then Err (EMsg "provider.cloud_llm.vendor must not be empty when provider.name is cloud_llm")
  else if negb (isKnownCloudVendor (pc_Vendor p)) then Err (EMsg "provider.cloud_llm.vendor is unknown (allowed: claude, openai, gemini, deepseek, openai_compatible)")
  else if bool_decide (pc_APIKeyEnv p = "") then Err (EMsg "provider.cloud_llm.api_key_env must not be empty when provider.name is cloud_llm")
  else if containsAny keyNameBreakers (pc_APIKeyEnv p) then Err (EMsg "provider.cloud_llm.api_key_env must be an environment variable name")
  else if bool_decide (pc_Model p = "") then Err (EMsg "provider.cloud_llm.model must not be empty when provider.name is cloud_llm")
  else if bool_decide (pc_Vendor p = CloudVendorOpenAICompatible) && bool_decide (pc_BaseURL p = "") then
    Err (EMsg "provider.cloud_llm.base_url must not be empty when vendor is openai_compatible")
  else Ok tt.

Definition normalizeWeekly (w : WeeklyReportConfig) : WeeklyReportConfig :=
  MkWeekly (wr_Enabled w) (TrimSpace (wr_Day w)) (TrimSpace (wr_Time w)) (TrimSpace (wr_Timezone w)) (TrimSpace (wr_DeviceID w)) (TrimSpace <$> wr_SensorIDs w)
    (TrimSpace (wr_CustomerName w)) (TrimSpace (wr_SiteName w)) (wr_FileEnabled w) (TrimSpace (wr_FilePath w)) (wr_CloudEnabled w) (TrimSpace (wr_CloudEndpoint w))
    (TrimSpace (wr_CloudAuthEnv w)).

Definition normalizeReportingStrings (r : ReportingConfig) : ReportingConfig :=
  MkReporting (TrimSpace (rc_Provider r)) (TrimSpace (rc_GeminiAPIKeyEnv r)) (TrimSpace (rc_GeminiModel r)) (TrimSpace (rc_GeminiBaseURL r)) (normalizeWeekly (rc_WeeklyReport r))
    (rc_TierCEnrichmentEnabled r).

(** [time.Parse("15:04", s)]: an hour of one or two digits below 24, a colon
    and a minute of two digits below 60. *)
Definition parseClock (s : string) : option (Z * Z) :=
  '(h, m) ← cutAt ":" s;
  if (0 <? slen h) && (slen h <=? 2) && (slen m =? 2) then
    hour ← readDigits h 0; minute ← readDigits m 0;
    if (hour <? 24) && (minute <? 60) then Some (hour, minute) else None
  else None.

Definition weekdays : list string := ["monday"; "tuesday"; "wednesday"; "thursday"; "friday"; "saturday"; "sunday"].
Definition isValidWeekday (day : string) : bool := bool_decide (lowered day ∈ weekdays).

Section Validation.
(** [url.Parse]: the scheme and the host. *)
Context (urlParse : string → option (string * string)).
(** [time.LoadLocation] finds the zone. *)
Context (LoadLocation : string → bool).

Definition validateDelivery (w : WeeklyReportConfig) : res unit :=
  match (if wr_FileEnabled w then
           if bool_decide (wr_FilePath w = "") then Err (EMsg "reporting.weekly_report.delivery.file.path must not be empty when file delivery is enabled")
           else if negb (IsAbs (wr_FilePath w)) then Err (EMsg "reporting.weekly_report.delivery.file.path must be an absolute path")
           else if bool_decide (".." ∈ split slash (wr_FilePath w)) then Err (EMsg "reporting.weekly_report.delivery.file.path must not contain path traversal segments")
           else Ok tt
         else Ok tt) with
  | Err e => Err e
  | Ok _ =>
    if wr_CloudEnabled w then
      if bool_decide (wr_CloudEndpoint w = "") then Err (EMsg "reporting.weekly_report.delivery.cloud.endpoint must not be empty when cloud delivery is enabled")
      else match urlParse (wr_CloudEndpoint w) with
      | Some (scheme, host) =>
        if negb (bool_decide (scheme = "https")) || bool_decide (host = "") then Err (EMsg "reporting.weekly_report.delivery.cloud.endpoint must be an absolute https URL")
        else validateEnvVarName "reporting.weekly_report.delivery.cloud.auth_env" (wr_CloudAuthEnv w)
      | None => Err (EMsg "reporting.weekly_report.delivery.cloud.endpoint must be an absolute https URL")
      end
    else Ok tt
  end.

Definition validateWeekly (w : WeeklyReportConfig) : res unit :=
  if negb (isValidWeekday (wr_Day w)) then Err (EMsg "reporting.weekly_report.day must be a weekday name")
  else if bool_decide (parseClock (wr_Time w) = None) then Err (EMsg "reporting.weekly_report.time must use HH:MM 24-hour format")
  else if bool_decide (wr_Timezone w = "") then Err (EMsg "reporting.weekly_report.timezone must not be empty")
  else if negb (LoadLocation (wr_Timezone w)) then Err (EMsg "reporting.weekly_report.timezone is invalid")
  else if bool_decide (wr_DeviceID w = "") then Err (EMsg "reporting.weekly_report.device_id must not be empty")
  else if containsAny ["/"; "+"; "#"]%char (wr_DeviceID w) then Err (EMsg "reporting.weekly_report.device_id must not contain MQTT topic separators or wildcards")
  else if bool_decide (wr_SensorIDs w = []) then Err (EMsg "reporting.weekly_report.sensor_ids must not be empty")
  else if bool_decide ("" ∈ wr_SensorIDs w) then Err (EMsg "reporting.weekly_report.sensor_ids must not contain empty values")
  else validateDelivery w.

Definition validateReporting (r : ReportingConfig) : res unit :=
  if negb (bool_decide (rc_Provider r = "")) && negb (isKnownReportingProvider (rc_Provider r)) then Err (EMsg "reporting.provider is unknown (allowed: gemini)")
  else if negb (wr_Enabled (rc_WeeklyReport r)) && negb (rc_TierCEnrichmentEnabled r) then Ok tt
  else if bool_decide (rc_Provider r = "") then Err (EMsg "reporting.provider must not be empty when reporting features are enabled")
  else if negb (isKnownReportingProvider (rc_Provider r)) then Err (EMsg "reporting.provider is unknown (allowed: gemini)")
  else match (if bool_decide (rc_Provider r = ReportingProviderGemini) then
                if bool_decide (rc_GeminiAPIKeyEnv r = "") then Err (EMsg "reporting.gemini.api_key_env must not be empty when reporting features are enabled")
                else if containsAny keyNameBreakers (rc_GeminiAPIKeyEnv r) then Err (EMsg "reporting.gemini.api_key_env must be an environment variable name")
                else if bool_decide (rc_GeminiModel r = "") then Err (EMsg "reporting.gemini.model must not be empty when reporting features are enabled")
                else Ok tt
              else Ok tt) with
  | Err e => Err e
  | Ok _ => if wr_Enabled (rc_WeeklyReport r) then validateWeekly (rc_WeeklyReport r) else Ok tt
  end.

Definition normalizeWebhookBridge (raw : fileWebhookBridgeConfig) : WebhookBridgeConfig :=
  MkBridge (fw_Enabled raw) (defaultIfBlank (fw_ListenAddr raw) DefaultWebhookBridgeListenAddr) (defaultIfBlank (fw_Path raw) DefaultWebhookBridgePath)
    (TrimSpace (fw_TargetURL raw)) (filter (λ c, c ≠ "") (TrimSpace <$> fw_ProviderSourceCIDRs raw)) (TrimSpace (fw_RuntimeTokenEnv raw)) (TrimSpace (fw_HMACSecretEnv raw))
    (default DefaultWebhookBridgeRequestTimeoutMS (fw_RequestTimeoutMS raw)) (default DefaultWebhookBridgeMaxBodyBytes (fw_MaxBodyBytes raw))
    (intOrDefault (fw_SenderPerMinute raw) DefaultWebhookBridgeSenderPerMinute) (intOrDefault (fw_SenderBurst raw) DefaultWebhookBridgeSenderBurst)
    (intOrDefault (fw_GlobalPerMinute raw) DefaultWebhookBridgeGlobalPerMinute) (intOrDefault (fw_GlobalBurst raw) DefaultWebhookBridgeGlobalBurst)
    (intOrDefault (fw_MaxSenders raw) DefaultWebhookBridgeMaxSenders).

Definition validateProviderCIDR (p : Prefix) : res unit :=
  if px_bits p =? 0 then Err (EMsg "webhook_bridge.provider_source_cidrs must not contain a catch-all CIDR")
  else match px_ip p with
  | V4 _ => if px_bits p <? 8 then Err (EMsg "webhook_bridge.provider_source_cidrs CIDR is too broad; IPv4 prefixes must be /8 or narrower") else Ok tt
  | V6 _ _ => if px_bits p <? 32 then Err (EMsg "webhook_bridge.provider_source_cidrs CIDR is too broad; IPv6 prefixes must be /32 or narrower") else Ok tt
  end.

Definition checkCIDR (cidr : string) : res unit :=
  match ParsePrefix cidr with None => Err (EMsg "webhook_bridge.provider_source_cidrs contains invalid CIDR") | Some p => validateProviderCIDR p end.

Definition listenAddrIsLoopback (listenAddr : string) : bool :=
  match SplitHostPort listenAddr with
  | None => false
  | Some (host, _) => bool_decide (host = "localhost") || match ParseAddr host with Some a => IsLoopback a | None => false end
  end.

Definition validateWebhookBridge (c : WebhookBridgeConfig) : res unit :=
  if negb (wb_Enabled c) then Ok tt
  else if bool_decide (SplitHostPort (wb_ListenAddr c) = None) then Err (EMsg "webhook_bridge.listen_addr must be host:port")
  else if negb (hasPrefix (wb_Path c) "/") then Err (EMsg "webhook_bridge.path must start with /")
  else if bool_decide (wb_TargetURL c = "") then Err (EMsg "webhook_bridge.target_url must not be empty when webhook_bridge.enabled is true")
  else match urlParse (wb_TargetURL c) with
  | None => Err (EMsg "webhook_bridge.target_url must be an absolute http(s) URL")
  | Some (scheme, host) =>
    if bool_decide (scheme = "") || bool_decide (host = "") then Err (EMsg "webhook_bridge.target_url must be an absolute http(s) URL")
    else if negb (bool_decide (scheme = "http")) && negb (bool_decide (scheme = "https")) then Err (EMsg "webhook_bridge.target_url must use http or https")
    else match firstError [validateEnvVarName "webhook_bridge.runtime_token_env" (wb_RuntimeTokenEnv c); validateEnvVarName "webhook_bridge.hmac_secret_env" (wb_HMACSecretEnv c)] with
    | Err e => Err e
    | Ok _ =>
      if wb_RequestTimeoutMS c <=? 0 then Err (EMsg "webhook_bridge.request_timeout_ms must be positive")
      else if (wb_MaxBodyBytes c <=? 0) || (Z.shiftl 1 20 <? wb_MaxBodyBytes c) then Err (EMsg "webhook_bridge.max_body_bytes must be between 1 and 1048576")
      else if (wb_SenderPerMinute c <? DefaultWebhookBridgeSenderPerMinute) || (wb_SenderBurst c <? DefaultWebhookBridgeSenderBurst) then
        Err (EMsg "webhook_bridge.sender_per_minute and sender_burst must be at least the defaults")
      else if (wb_GlobalPerMinute c <? wb_SenderPerMinute c) || (wb_GlobalBurst c <? wb_SenderBurst c) then
        Err (EMsg "webhook_bridge.global_per_minute and global_burst must be at least the per-sender values")
      else if (wb_MaxSenders c <? 1) || (maxWebhookBridgeTrackedSenders <? wb_MaxSenders c) then Err (EMsg "webhook_bridge.max_senders must be between 1 and 65536")
      else match firstError (checkCIDR <$> wb_ProviderSourceCIDRs c) with
      | Err e => Err e
      | Ok _ =>
        if negb (listenAddrIsLoopback (wb_ListenAddr c)) && bool_decide (wb_ProviderSourceCIDRs c = []) then
          Err (EMsg "webhook_bridge.provider_source_cidrs must not be empty for non-loopback listen_addr")
        else Ok tt
      end
    end
  end.

(** ** The whole file *)
Definition normalizeGateway (g : fileGatewayConfig) : GatewayConfig :=
  let shared := TrimSpace (ga_SharedSecretEnv (fg_Auth g)) in
  MkGateway (TrimSpace (fg_BrokerURL g)) (normalizeGatewayDeviceIDs (fg_DeviceIDs g)) (default DefaultHeartbeatIntervalS (fg_HeartbeatIntervalS g))
    (MkAuth (ga_Enabled (fg_Auth g)) (if bool_decide (shared = "") then DefaultGatewayAuthSecretEnv else shared) (TrimSpace (ga_PreviousSharedSecretEnv (fg_Auth g))))
    (TrimSpace (fg_CustodySecretEnv g)) (fg_EncryptionEnabled g) (TrimSpace (fg_StateDirectory g)).

(** The gateway section's checks, up to the heartbeat interval. *)
Definition validateGateway (g : GatewayConfig) (heartbeat : option Z) : res unit :=
  if bool_decide (gc_BrokerURL g = "") then Err (EMsg "gateway.broker_url must not be empty")
  else if bool_decide (gc_DeviceIDs g = []) then Err (EMsg "gateway.device_ids must include at least one runtime device")
  else match firstError (validateGatewayDeviceID <$> gc_DeviceIDs g) with
  | Err e => Err e
  | Ok _ =>
    let auth := gc_Auth g in
    if containsAny envNameBreakers (ga_SharedSecretEnv auth) then Err (EMsg "gateway.auth.shared_secret_env must be an environment variable name")
    else if negb (bool_decide (ga_PreviousSharedSecretEnv auth = "")) && containsAny envNameBreakers (ga_PreviousSharedSecretEnv auth) then
      Err (EMsg "gateway.auth.previous_shared_secret_env must be an environment variable name")
    else if containsAny envNameBreakers (gc_CustodySecretEnv g) then Err (EMsg "gateway.custody.secret_env must be an environment variable name")
    else if negb (bool_decide (gc_CustodySecretEnv g = "")) && bool_decide (gc_CustodySecretEnv g = ga_SharedSecretEnv auth) then
      Err (EMsg "gateway.custody.secret_env must differ from gateway.auth.shared_secret_env")
    else if negb (bool_decide (gc_CustodySecretEnv g = "")) && bool_decide (gc_CustodySecretEnv g = ga_PreviousSharedSecretEnv auth) then
      Err (EMsg "gateway.custody.secret_env must differ from gateway.auth.previous_shared_secret_env")
    else if gc_EncryptionEnabled g && negb (ga_Enabled auth) then Err (EMsg "gateway.encryption.enabled requires gateway.auth.enabled")
    else if ga_Enabled auth && bool_decide (gc_StateDirectory g = "") then Err (EMsg "gateway.state_directory is required when gateway.auth.enabled is true")
    else if negb (bool_decide (gc_StateDirectory g = "")) && negb (IsAbs (gc_StateDirectory g)) then Err (EMsg "gateway.state_directory must be an absolute path")
    else match heartbeat with
    | Some h => if h <=? 0 then Err (EMsg "gateway.heartbeat_interval_s must be positive") else Ok tt
    | None => Ok tt
    end
  end.

(** The provider section with its timeout. *)
Definition normalizeProvider (p : fileProviderConfig) : ProviderConfig :=
  let q := normalizeProviderStrings p in
  MkProvider (pc_Name q) (default DefaultProviderTimeoutMS (fp_TimeoutMS p)) (pc_LlamaCppURL q) (pc_LlamaCppModel q) (pc_Vendor q) (pc_APIKeyEnv q) (pc_Model q) (pc_BaseURL q).

Definition checkProvider (p : ProviderConfig) (timeout : option Z) : res unit :=
  if (match timeout with Some t => t <=? 0 | None => false end) then Err (EMsg "provider.timeout_ms must be positive")
  else if bool_decide (pc_Name p = "") then Err (EMsg "provider.name must not be empty")
  else if negb (isKnownProvider (pc_Name p)) then Err (EMsg "provider.name is unknown (allowed: echo, llama_cpp, cloud_llm)")
  else validateProvider p.

Definition normalize (fields : list (string * string) → list (string * string)) (f : fileConfig) : res Config :=
  let gateway := normalizeGateway (ff_Gateway f) in
  let provider := normalizeProvider (ff_Provider f) in
  let reporting := normalizeReportingStrings (ff_Reporting f) in
  let bridge := normalizeWebhookBridge (ff_WebhookBridge f) in
  let siteHealth := normalizeSiteHealth (ff_SiteHealth f) in
  match firstError [
    validateGateway gateway (fg_HeartbeatIntervalS (ff_Gateway f));
    checkProvider provider (fp_TimeoutMS (ff_Provider f));
    validateReporting reporting;
    validateWebhookBridge bridge;
    (if sm_Enabled (ff_SIM f) && bool_decide (TrimSpace (sm_ModemPath (ff_SIM f)) = "") then Err (EMsg "sim.modem_path must not be empty when sim.enabled is true") else Ok tt);
    (if fl_Enabled (ff_Fleet f) && bool_decide (TrimSpace (fl_CloudURL (ff_Fleet f)) = "") then Err (EMsg "fleet.cloud_url must not be empty when fleet.enabled is true") else Ok tt);
    validateSiteHealth siteHealth] with
  | Err e => Err e
  | Ok _ =>
    match validateEvidence fields (normalizeEvidence (ff_Evidence f)) (gc_DeviceIDs gateway) with
    | Err e => Err e
    | Ok evidence => Ok (MkConf gateway provider reporting bridge (ff_SIM f) (ff_Fleet f) siteHealth evidence)
    end
  end.

(** ** Directories apart *)
Definition pathWithin (a dir : string) : bool :=
  bool_decide (a = dir) || hasPrefix a (if hasSuffix dir "/" then dir else dir +:+ "/").
Definition pathsOverlap (a b : string) : bool := pathWithin a b || pathWithin b a.

Definition validateStateDirectory (cfg : Config) : res unit :=
  let state := gc_StateDirectory (cf_Gateway cfg) in
  if bool_decide (state = "") || negb (ev_Enabled (cf_Evidence cfg)) then Ok tt
  else firstError ((λ queue, if bool_decide (queue = "") then Ok tt
                             else if pathsOverlap (Clean state) (Clean queue) then Err (EMsg "gateway.state_directory must be separate from the evidence queue directories")
                             else Ok tt) <$> [ev_QueueDirectory (cf_Evidence cfg); ev_ReturnQueueDirectory (cf_Evidence cfg)]).

(** [Load]: [content] is what the file holds, if it could be read, [decode]
    the YAML decoder. *)
Definition LoadFile (decode : string → option fileConfig) (fields : list (string * string) → list (string * string)) (content : option string) : res Config :=
  match content with
  | None => Err (EMsg "read config")
  | Some data =>
    match decode data with
    | None => Err (EMsg "parse config")
    | Some raw =>
      match normalize fields raw with
      | Err e => Err e
      | Ok cfg => match validateStateDirectory cfg with Err e => Err e | Ok _ => Ok cfg end
      end
    end
  end.
End Validation.

(** ** What the process makes of it (cmd/ori-gateway/app.go) *)
Definition outboundOptions (c : Config) : QueueOptions :=
  let e := cf_Evidence c in
  MkOptions (Clean (TrimSpace (ev_QueueDirectory e))) (ev_MaxItems e) (ev_MaxBytes e) (gc_DeviceIDs (cf_Gateway c)) (DeclaresVersionedCarriage e) (VersionedDevices e) "outbound".
Definition returnOptions (c : Config) : QueueOptions :=
  let e := cf_Evidence c in MkOptions (Clean (TrimSpace (ev_ReturnQueueDirectory e))) (ev_MaxItems e) (ev_MaxBytes e) [] false [] "return".
Definition deliveryOptions (c : Config) : Worker.workerOptions :=
  let e := cf_Evidence c in let '(base, bound) := Backoff e in Worker.MkWOpts (secondsDuration (ev_RetryIntervalS e)) base bound 0.
End Config.
