(* ===== verification/ConfigSpec.v ===== *)
(** * What an accepted configuration guarantees

    The loader's checks as theorems about the components that consume the
    configuration: the directories it separates are separate component by
    component, the queues and the delivery worker take the options it
    produces, and every device has its topics. *)
From S2P Require Import Prelude GoBytes Json Routing Queue Load Contracts Worker NetAddr Webhook Config.

Module ConfigSpec.
Import Routing Queue Contracts Config.
Import Load (o_Directory, o_MaxItems, o_MaxBytes, o_Devices, o_ReserveDeviceShares, o_VersionedDevices, checkOptions, buildConfig).

(** ** Clean paths *)
Definition plainSegment (s : string) : Prop := s ≠ "" ∧ containsAny [slash] s = false.

(** The components of an absolute path. *)
Definition components (path : string) : list string := cleanSegments true (split slash path) [].

Lemma split_plain s : Forall (λ x, containsAny [slash] x = false) (split slash s).
Proof.
  induction s as [|c s IH]; cbn [split]; [by constructor|]. case_decide as E; [by constructor|].
  pose proof (split_nonempty slash s). destruct (split slash s) as [|p ps]; [done|]. inversion IH as [|?? Hp Hps]; subst. constructor; [|done].
  cbn [containsAny]. rewrite Hp, bool_decide_eq_false_2; [done|]. set_solver.
Qed.

Lemma cleanSegments_plain l acc :
  Forall (λ x, containsAny [slash] x = false) l → Forall plainSegment acc → Forall plainSegment (cleanSegments true l acc).
Proof.
  revert acc. induction l as [|s l IH]; intros acc Hl Ha; cbn [cleanSegments]; [by apply Forall_reverse|].
  inversion Hl as [|?? Hs Hl']; subst. repeat case_bool_decide; cbn [orb]; subst; try by apply IH.
  - destruct acc as [|x acc']; [by apply IH|]. inversion Ha; subst. case_bool_decide; apply IH; try done. by constructor.
  - apply IH; [done|]. by constructor.
Qed.

Lemma components_plain path : Forall plainSegment (components path).
Proof. apply cleanSegments_plain; [apply split_plain|constructor]. Qed.

Lemma Clean_abs path : IsAbs path = true → Clean path = String slash (join slash (components path)).
Proof. intros H. unfold Clean. by rewrite H. Qed.

Lemma split_single s : containsAny [slash] s = false → split slash s = [s].
Proof.
  induction s as [|c s IH]; [done|]. cbn [containsAny]. intros [Hc Hs]%orb_false_iff. cbn [split].
  rewrite decide_False; [by rewrite (IH Hs)|]. apply bool_decide_eq_false in Hc. set_solver.
Qed.

Lemma split_both a s : split slash (a +:+ String slash s) = split slash a ++ split slash s.
Proof.
  induction a as [|c a IH]; [done|]. change (String c a +:+ String slash s) with (String c (a +:+ String slash s)).
  cbn [split]. rewrite IH. destruct (decide (c = slash)); [done|]. destruct (split slash a) as [|p ps] eqn:E; [|done].
  destruct a as [|c0 a]; cbn in E; [done|]. destruct (decide _); [done|]. destruct (split slash a); done.
Qed.

Lemma cleanSegments_app l k acc : cleanSegments true (l ++ k) acc = cleanSegments true k (reverse (cleanSegments true l acc)).
Proof.
  revert acc. induction l as [|s l IH]; intros acc; cbn [app cleanSegments]; [by rewrite reverse_involutive|].
  destruct (_ || _); [done|]. destruct (bool_decide (s = "..")); [|done]. destruct acc as [|x acc]; [done|]. by destruct (bool_decide (x = "..")).
Qed.

Lemma split_join_app l r : l ≠ [] → Forall plainSegment l → split slash (join slash l +:+ String slash r) = l ++ split slash r.
Proof.
  induction l as [|x l IH]; [done|]. intros _ Hl. inversion Hl as [|?? [_ Hx] Hl']; subst. destruct l as [|y l].
  - cbn [join]. by rewrite split_app.
  - change (join slash (x :: y :: l)) with (x +:+ String slash (join slash (y :: l))). rewrite sapp_assoc, sapp_cons, split_app by done.
    by rewrite IH.
Qed.

Lemma split_join l : l ≠ [] → Forall plainSegment l → split slash (join slash l) = l.
Proof.
  induction l as [|x l IH]; [done|]. intros _ Hl. inversion Hl as [|?? [_ Hx] Hl']; subst. destruct l as [|y l].
  - cbn [join]. by apply split_single.
  - change (join slash (x :: y :: l)) with (x +:+ String slash (join slash (y :: l))). rewrite split_app by done. by rewrite IH.
Qed.

Lemma join_app l k : l ≠ [] → k ≠ [] → join slash (l ++ k) = join slash l +:+ String slash (join slash k).
Proof.
  induction l as [|x l IH]; [done|]. intros _ Hk. destruct l as [|y l].
  - cbn [app]. by destruct k.
  - change (join slash ((x :: y :: l) ++ k)) with (x +:+ String slash (join slash ((y :: l) ++ k))).
    change (join slash (x :: y :: l)) with (x +:+ String slash (join slash (y :: l))).
    by rewrite IH, sapp_assoc, sapp_cons.
Qed.

Lemma join_nil_inv l : Forall plainSegment l → join slash l = "" → l = [].
Proof.
  destruct l as [|x [|y l]]; [done| |]; intros Hl; inversion Hl as [|?? [Hx _] _]; subst; cbn [join]; [done|].
  destruct x; [done|]. by rewrite sapp_cons.
Qed.

Lemma join_inj l k : Forall plainSegment l → Forall plainSegment k → join slash l = join slash k → l = k.
Proof.
  intros Hl Hk E. destruct (decide (l = [])) as [->|Nl]; [cbn in E; symmetry; by apply join_nil_inv|].
  destruct (decide (k = [])) as [->|Nk]; [by apply join_nil_inv|].
  by rewrite <- (split_join l), <- (split_join k), E.
Qed.

Lemma hasSuffix_split s x : hasSuffix s x = true → ∃ r, s = r +:+ x.
Proof.
  induction s as [|c s IH]; cbn [hasSuffix]; case_decide as E; subst; try done.
  - intros _. by exists "".
  - intros _. by exists "".
  - intros [r ->]%IH. exists (String c r). by rewrite sapp_cons.
Qed.

(** A joined path never ends in a separator. *)
Lemma join_suffix l : l ≠ [] → Forall plainSegment l → hasSuffix (String slash (join slash l)) "/" = false.
Proof.
  intros Hn Hl. destruct (hasSuffix _ _) eqn:E; [|done]. exfalso. apply hasSuffix_split in E as [[|c r] E].
  - rewrite sapp_nil_l in E. injection E as E. by apply join_nil_inv in E.
  - rewrite sapp_cons in E. injection E as _ E. apply (f_equal (split slash)) in E. rewrite split_join in E by done.
    assert (last (split slash (r +:+ "/")) = Some "") as L.
    { clear. induction r as [|c r IH]; [done|]. rewrite sapp_cons. cbn [split]. pose proof (split_nonempty slash (r +:+ "/")).
      case_decide; destruct (split slash (r +:+ "/")) as [|p [|q ps]] eqn:Es; try done; try (by rewrite last_cons_cons).
      exfalso. apply (f_equal (join slash)) in Es. rewrite join_split in Es. cbn in Es. cbn in IH. injection IH as ->. destruct r; done. }
    rewrite <- E in L. apply last_Some in L as [l' ->]. apply Forall_app in Hl as [_ Hl]. inversion Hl as [|?? [? _] _]; subst. done.
Qed.

(** [pathWithin] on clean absolute paths compares whole components. *)
Lemma pathWithin_components a b : IsAbs a = true → IsAbs b = true → pathWithin (Clean a) (Clean b) = true ↔ components b `prefix_of` components a.
Proof.
  intros Ha Hb. rewrite !Clean_abs by done. pose proof (components_plain a) as Pa. pose proof (components_plain b) as Pb.
  generalize dependent (components a). generalize dependent (components b). intros lb Pb la Pa. unfold pathWithin.
  rewrite orb_true_iff, bool_decide_eq_true. destruct (decide (lb = [])) as [->|Nb].
  { split; [intros _; apply prefix_nil|]. intros _. right. done. }
  rewrite join_suffix by done. split.
  - intros [[= E]|H]; [by rewrite (join_inj la lb)|]. apply hasPrefix_drop in H as [r H]. rewrite !sapp_cons, sapp_assoc in H. injection H as H.
    change ("/" +:+ r) with (String slash r) in H.
    assert (la ≠ []) as Na. { intros ->. cbn in H. destruct (join slash lb); discriminate H. }
    rewrite <- (split_join la), H, split_join_app by done. by eexists.
  - intros [k ->]. destruct k as [|c k]; [left; by rewrite app_nil_r|]. right. rewrite join_app by done.
    change (String slash (join slash (c :: k))) with ("/" +:+ join slash (c :: k)). rewrite <- sapp_assoc, <- !sapp_cons. apply hasPrefix_app.
Qed.

Lemma pathsOverlap_components a b :
  IsAbs a = true → IsAbs b = true → pathsOverlap (Clean a) (Clean b) = false → ¬ components b `prefix_of` components a ∧ ¬ components a `prefix_of` components b.
Proof.
  intros Ha Hb [H1 H2]%orb_false_iff. split; intros H.
  - apply (pathWithin_components a b) in H; [congruence|done..].
  - apply (pathWithin_components b a) in H; [congruence|done..].
Qed.

(** ** The checks, read back *)
Lemma firstError_ok l : firstError l = Ok tt ↔ Forall (λ r, r = Ok tt) l.
Proof.
  induction l as [|[[]|e] l IH]; cbn [firstError]; [by split|..].
  - rewrite Forall_cons. naive_solver.
  - split; [done|]. intros H. inversion H; done.
Qed.

Lemma firstError_map {A} (f : A → res unit) l : firstError (f <$> l) = Ok tt ↔ ∀ x, x ∈ l → f x = Ok tt.
Proof. rewrite firstError_ok, Forall_fmap, Forall_forall. done. Qed.

Lemma unit_ok (r : res unit) u : r = Ok u → r = Ok tt.
Proof. by destruct u. Qed.

Lemma dedup_spec l : ∀ seen, NoDup (dedup seen l) ∧ ∀ d, d ∈ dedup seen l ↔ d ∈ l ∧ d ∉ seen.
Proof.
  induction l as [|x l IH]; intros seen; cbn [dedup]; [split; [constructor|set_solver]|]. case_decide as E.
  - destruct (IH seen) as [N H]. split; [done|]. intros d. rewrite H. set_solver.
  - destruct (IH ({[x]} ∪ seen)) as [N H]. split; [constructor; [rewrite H; set_solver|done]|]. intros d. rewrite elem_of_cons, H.
    destruct (decide (d = x)); set_solver.
Qed.

(** The gateway section of an accepted file. *)
Record soundGateway (g : GatewayConfig) : Prop := MkSoundGateway {
  sg_devices : gc_DeviceIDs g ≠ [] ∧ NoDup (gc_DeviceIDs g) ∧ ∀ d, d ∈ gc_DeviceIDs g → validateMQTTDeviceID d = Ok tt;
  sg_encryption : gc_EncryptionEnabled g = true → ga_Enabled (gc_Auth g) = true;
  sg_state : (ga_Enabled (gc_Auth g) = true → gc_StateDirectory g ≠ "") ∧ (gc_StateDirectory g ≠ "" → IsAbs (gc_StateDirectory g) = true);
  sg_secrets : ga_SharedSecretEnv (gc_Auth g) ≠ "" ∧
    (gc_CustodySecretEnv g ≠ "" → gc_CustodySecretEnv g ≠ ga_SharedSecretEnv (gc_Auth g) ∧ gc_CustodySecretEnv g ≠ ga_PreviousSharedSecretEnv (gc_Auth g));
  sg_heartbeat : 0 < gc_HeartbeatIntervalS g }.

Lemma validateGatewayDeviceID_ok d : validateGatewayDeviceID d = Ok tt → validateMQTTDeviceID d = Ok tt.
Proof. unfold validateGatewayDeviceID, validateMQTTDeviceID. repeat case_match; done. Qed.

Lemma validateGateway_ok f : validateGateway (normalizeGateway f) (fg_HeartbeatIntervalS f) = Ok tt → soundGateway (normalizeGateway f).
Proof.
  unfold validateGateway. case_bool_decide as H1; [done|]. case_bool_decide as H2; [done|].
  destruct (firstError _) as [u|] eqn:E; [|done]. apply unit_ok in E. cbv zeta.
  destruct (containsAny _ _); [done|]. destruct (_ && containsAny _ _); [done|]. destruct (containsAny _ _); [done|].
  destruct (_ && _) eqn:Hc1; [done|]. destruct (_ && _) eqn:Hc2 in |- *; [done|]. destruct (_ && _) eqn:He in |- *; [done|].
  destruct (_ && _) eqn:Hs in |- *; [done|]. destruct (_ && _) eqn:Ha in |- *; [done|]. intros Hh. rewrite firstError_map in E. constructor.
  - split; [done|]. split; [apply dedup_spec|]. intros d Hd. by apply validateGatewayDeviceID_ok, E.
  - intros Hx. rewrite Hx in He. by apply negb_false_iff in He.
  - split; intros Hx.
    + rewrite Hx in Hs. by apply bool_decide_eq_false in Hs.
    + rewrite bool_decide_eq_false_2 in Ha by done. by apply negb_false_iff in Ha.
  - split; [unfold normalizeGateway; cbn [gc_Auth ga_SharedSecretEnv]; clear; case_bool_decide; [discriminate|done]|]. intros Hx. rewrite bool_decide_eq_false_2 in Hc1, Hc2 by done.
    by apply bool_decide_eq_false in Hc1, Hc2.
  - cbn. destruct (fg_HeartbeatIntervalS f) as [h|]; cbn in *; [|done]. destruct (h <=? 0) eqn:?; [done|]. lia.
Qed.

(** The evidence section of an accepted file that enables it. *)
Record soundEvidence (devices : list string) (e : EvidenceConfig) : Prop := MkSoundEvidence {
  se_dirs : IsAbs (ev_QueueDirectory e) = true ∧ IsAbs (ev_ReturnQueueDirectory e) = true ∧ Clean (ev_QueueDirectory e) ≠ Clean (ev_ReturnQueueDirectory e);
  se_ca : ev_AuthorityCAFile e ≠ "" → IsAbs (ev_AuthorityCAFile e) = true ∧ Clean (ev_AuthorityCAFile e) = ev_AuthorityCAFile e;
  se_bounds : 0 < ev_MaxItems e ∧ 0 < ev_MaxBytes e ∧ 0 < ev_RetryIntervalS e;
  se_carriage d : (d ∈ devices → is_Some (ev_DeviceCarriage e !! d)) ∧
    ∀ c, ev_DeviceCarriage e !! d = Some c → d ∈ devices ∧ (c = CarriageGatewayAPIV1 ∨ c = CarriageEvidenceCarriageV1);
  se_routing d : ev_DeviceCarriage e !! d = Some CarriageEvidenceCarriageV1 → validRoutingDeviceID d = true;
  se_versioned : DeclaresVersionedCarriage e = true →
    ev_RetryIntervalS e ≤ ev_BackoffBaseS e ≤ ev_BackoffMaxS e ∧
    (devices ≠ [] → MinDeviceShareItems ≤ Z.quot (ev_MaxItems e) (Z.of_nat (length devices)) ∧ MinDeviceShareBytes ≤ Z.quot (ev_MaxBytes e) (Z.of_nat (length devices))) ∧
    MinEvidenceStoreProbeIntervalS ≤ ev_StoreProbeIntervalS e ≤ MaxEvidenceStoreProbeIntervalS }.

Lemma resolveDeviceCarriage_ok declared devices m : resolveDeviceCarriage declared devices = Ok m → ∀ d,
  (d ∈ devices → is_Some (m !! d)) ∧ ∀ c, m !! d = Some c → d ∈ devices ∧ (c = CarriageGatewayAPIV1 ∨ c = CarriageEvidenceCarriageV1).
Proof.
  unfold resolveDeviceCarriage. destruct (firstError _) as [u|] eqn:E; [|done]. apply unit_ok in E. rewrite firstError_map in E.
  intros [= <-] d. split.
  - intros Hd. apply elem_of_dom. rewrite dom_list_to_map. rewrite <- list_fmap_compose. apply elem_of_list_to_set, list_elem_of_fmap. by exists d.
  - intros c H. apply elem_of_list_to_map_2, list_elem_of_fmap in H as (d' & [= -> ->] & Hd). split; [done|].
    destruct (declared !! d') as [c|] eqn:Ed; [|by left]. specialize (E (d', c)). rewrite elem_of_map_to_list in E. specialize (E Ed). cbn [fst snd] in E.
    rewrite bool_decide_eq_true_2 in E by done. destruct (_ || _) eqn:Eo in E; [|done]. by rewrite orb_true_iff, !bool_decide_eq_true in Eo.
Qed.

Lemma declares_any e : DeclaresVersionedCarriage e = true ↔ ∃ d, ev_DeviceCarriage e !! d = Some CarriageEvidenceCarriageV1.
Proof. unfold DeclaresVersionedCarriage. rewrite bool_decide_eq_true. unfold map_Exists. naive_solver. Qed.

Lemma validateEvidence_ok fields cfg devices e : validateEvidence fields cfg devices = Ok e → ev_Enabled e = true → soundEvidence devices e.
Proof.
  unfold validateEvidence. destruct (ev_Enabled cfg) eqn:En; [|intros [= <-]; cbn; congruence]. cbn [negb].
  destruct (_ || _) eqn:Hd in |- *; [done|]. destruct (bool_decide (Clean _ = _)) eqn:Hc in |- *; [done|]. destruct (_ && _) eqn:Hca in |- *; [done|].
  destruct (_ || _) eqn:Hb in |- *; [done|]. destruct (firstError _); [|done].
  destruct (resolveDeviceCarriage _ _) as [m|] eqn:Hr; [|done]. cbv zeta.
  rewrite orb_false_iff, !negb_false_iff in Hd. apply bool_decide_eq_false in Hc. destruct Hd as [Hq Hq']. rewrite !orb_false_iff, !Z.leb_gt in Hb. destruct Hb as [[B1 B2] B3].
  assert (ev_AuthorityCAFile cfg ≠ "" → IsAbs (ev_AuthorityCAFile cfg) = true ∧ Clean (ev_AuthorityCAFile cfg) = ev_AuthorityCAFile cfg) as Hca'.
  { intros Hx. rewrite bool_decide_eq_false_2 in Hca by done. cbn [negb andb] in Hca. rewrite !orb_false_iff, !negb_false_iff, !bool_decide_eq_true in Hca. by destruct Hca as [[? ?] _]. }
  pose proof (resolveDeviceCarriage_ok _ _ _ Hr) as Hm. destruct (DeclaresVersionedCarriage _) eqn:Hv in |- *; cbn [negb].
  - destruct (firstError _) as [u|] eqn:Hf in |- *; [|done]. destruct (_ || _) eqn:Hk in |- *; [done|]. destruct (_ && _) eqn:Hsh in |- *; [done|].
    destruct (_ || _) eqn:Hp in |- *; [done|]. intros [= <-] _. apply unit_ok in Hf. rewrite firstError_map in Hf.
    rewrite orb_false_iff, !Z.ltb_ge in Hk, Hp. constructor; cbn; try done.
    + intros d Hd. specialize (Hf d). unfold validateEvidenceDeviceID in Hf. destruct (validRoutingDeviceID d); [done|].
      enough (Err (EMsg "gateway.device_ids: device_id declares gateway-evidence-carriage/v1, so it must be of the routing domain") = Ok tt) as HX by discriminate HX.
      apply Hf. apply list_elem_of_filter. split; [done|]. by apply (Hm d) in Hd as [? _].
    + intros _. split; [lia|]. split; [|lia]. intros Hn. destruct devices as [|x devices]; [done|].
      apply andb_false_iff in Hsh as [Hsh|Hsh]; [apply Z.ltb_ge in Hsh; cbn [length] in Hsh; lia|]. rewrite orb_false_iff, !Z.ltb_ge in Hsh. done.
  - intros [= <-] _. constructor; cbn; try done.
    + intros d Hd. exfalso. apply not_true_iff_false in Hv. apply Hv, declares_any. by exists d.
    + intros H. exfalso. change (DeclaresVersionedCarriage (setCarriage m cfg) = true) in H. congruence.
Qed.

Lemma trimRight_abs s : IsAbs s = true → IsAbs (trimRight s) = true.
Proof. destruct s as [|c s]; [done|]. unfold IsAbs. cbn [hasPrefix]. destruct (ascii_dec _ c) as [<-|]; [|done]. done. Qed.

Lemma TrimSpace_abs s : IsAbs s = true → IsAbs (TrimSpace s) = true.
Proof.
  intros H. unfold TrimSpace. apply trimRight_abs. destruct s as [|c s]; [done|]. revert H. unfold IsAbs. cbn [hasPrefix].
  destruct (ascii_dec _ c) as [<-|]; [|done]. done.
Qed.

Lemma Clean_abs_nonempty s : IsAbs s = true → Clean s ≠ "." ∧ Clean s ≠ "".
Proof. intros H. rewrite Clean_abs by done. done. Qed.

Lemma VersionedDevices_spec e d : d ∈ VersionedDevices e ↔ ev_DeviceCarriage e !! d = Some CarriageEvidenceCarriageV1.
Proof.
  unfold VersionedDevices. rewrite merge_sort_Permutation, list_elem_of_fmap. split.
  - intros ([k c] & -> & [Hc Hk]%list_elem_of_filter). cbn in *. subst. by apply elem_of_map_to_list.
  - intros H. exists (d, CarriageEvidenceCarriageV1). split; [done|]. apply list_elem_of_filter. split; [done|]. by apply elem_of_map_to_list.
Qed.

Lemma normalize_ok urlParse LoadLocation fields f cfg : normalize urlParse LoadLocation fields f = Ok cfg →
  soundGateway (cf_Gateway cfg) ∧ (ev_Enabled (cf_Evidence cfg) = true → soundEvidence (gc_DeviceIDs (cf_Gateway cfg)) (cf_Evidence cfg)) ∧
  validateWebhookBridge urlParse (cf_WebhookBridge cfg) = Ok tt.
Proof.
  unfold normalize. cbv zeta. destruct (firstError _) as [u|] eqn:E; [|done]. apply unit_ok in E. rewrite firstError_ok, !Forall_cons in E.
  destruct E as (Hg & _ & _ & Hb & _). destruct (validateEvidence _ _ _) as [e|] eqn:Ev; [|done]. intros [= <-]. split_and!.
  - by apply validateGateway_ok.
  - intros En. by apply validateEvidence_ok in Ev.
  - done.
Qed.

Lemma LoadFile_ok urlParse LoadLocation decode fields content cfg : LoadFile urlParse LoadLocation decode fields content = Ok cfg →
  soundGateway (cf_Gateway cfg) ∧ (ev_Enabled (cf_Evidence cfg) = true → soundEvidence (gc_DeviceIDs (cf_Gateway cfg)) (cf_Evidence cfg)) ∧
  validateWebhookBridge urlParse (cf_WebhookBridge cfg) = Ok tt ∧ validateStateDirectory cfg = Ok tt.
Proof.
  unfold LoadFile. destruct content as [data|]; [|done]. destruct (decode data) as [raw|]; [|done].
  destruct (normalize _ _ _ _) as [c|] eqn:En; [|done]. destruct (validateStateDirectory c) as [u|] eqn:Es; [|done]. intros [= <-]. apply unit_ok in Es.
  destruct (normalize_ok _ _ _ _ _ En) as (H1 & H2 & H3). done.
Qed.

(** The outbound queue's options give it the devices and the shares. *)
Lemma outbound_builds cfg : soundGateway (cf_Gateway cfg) → soundEvidence (gc_DeviceIDs (cf_Gateway cfg)) (cf_Evidence cfg) →
  ∃ c, buildConfig (outboundOptions cfg) = Ok c ∧ configured c = Some (list_to_set (gc_DeviceIDs (cf_Gateway cfg))) ∧
    reserved c = DeclaresVersionedCarriage (cf_Evidence cfg) ∧
    (reserved c = true → MinDeviceShareItems ≤ shareItems c ∧ MinDeviceShareBytes ≤ shareBytes c) ∧
    ∀ d, d ∈ versioned c ↔ ev_DeviceCarriage (cf_Evidence cfg) !! d = Some CarriageEvidenceCarriageV1.
Proof.
  intros [(Hn & Nd & _) _ _ _ _] [_ _ (B1 & B2 & _) _ _ Hv]. unfold buildConfig, outboundOptions. cbn [o_Devices o_ReserveDeviceShares o_VersionedDevices o_MaxItems o_MaxBytes].
  destruct (gc_DeviceIDs (cf_Gateway cfg)) as [|x ds]; [done|].
  assert (∀ d, d ∈ (list_to_set (VersionedDevices (cf_Evidence cfg)) : gset string) ↔ ev_DeviceCarriage (cf_Evidence cfg) !! d = Some CarriageEvidenceCarriageV1) as HV
    by (intros d; rewrite elem_of_list_to_set; apply VersionedDevices_spec).
  destruct (DeclaresVersionedCarriage _) eqn:Dv; [|eexists; split; [done|]; by split_and!].
  destruct (Hv eq_refl) as (_ & Hs & _). destruct (Hs ltac:(done)) as [S1 S2].
  rewrite Z.quot_div_nonneg in S1, S2 by (cbn [length]; lia).
  rewrite size_list_to_set by done. apply Z.ltb_ge in S1 as S1', S2 as S2'. rewrite S1', S2'. cbn [orb]. eexists. split; [done|]. by split_and!.
Qed.

Lemma secondsDuration_id n : 0 < n ≤ 9223372036 → secondsDuration n = n * 1000000000.
Proof. intros H. apply wrap64_id. unfold in_i64, i64_min, i64_max. lia. Qed.

(** The worker keeps the delivery options as they are. *)
Lemma delivery_kept cfg : soundEvidence (gc_DeviceIDs (cf_Gateway cfg)) (cf_Evidence cfg) →
  ev_RetryIntervalS (cf_Evidence cfg) ≤ 9223372036 → (DeclaresVersionedCarriage (cf_Evidence cfg) = true → ev_BackoffMaxS (cf_Evidence cfg) ≤ 9223372036) →
  ∃ base bound, Backoff (cf_Evidence cfg) = (base, bound) ∧
    Worker.normalise (deliveryOptions cfg) = Worker.MkWOpts (ev_RetryIntervalS (cf_Evidence cfg) * 1000000000) base bound Worker.defaultBlockedReminder.
Proof.
  intros [_ _ (_ & _ & B3) _ _ Hv] Hr Hm. unfold Worker.normalise, deliveryOptions, Backoff. destruct (DeclaresVersionedCarriage _).
  - destruct (Hv eq_refl) as (Hb & _ & _). specialize (Hm eq_refl). eexists _, _. split; [done|]. rewrite !secondsDuration_id by lia. cbn [Worker.wo_retry Worker.wo_backoffBase Worker.wo_maxBackoff Worker.wo_reminder].
    repeat match goal with |- context [?a <=? ?b] => destruct (Z.leb_spec a b); try lia end. f_equal; lia.
  - eexists _, _. split; [done|]. rewrite !secondsDuration_id by (try done; lia). cbn [Worker.wo_retry Worker.wo_backoffBase Worker.wo_maxBackoff Worker.wo_reminder].
    repeat match goal with |- context [?a <=? ?b] => destruct (Z.leb_spec a b); try lia end. f_equal; lia.
Qed.

(** C36: What the loader accepts, the courier takes: when a loaded file enables
    evidence, both queues' options pass their checks and give bounds and
    shares, the outbound queue's configured devices are the gateway's, its
    versioned devices exactly those declared for it, each share holds the
    registration reserve and a record when shares are reserved, and the
    delivery worker keeps the file's intervals unchanged, as long as they fit
    a duration. *)
Theorem accepted_config_opens_the_courier urlParse LoadLocation decode fields content cfg :
  LoadFile urlParse LoadLocation decode fields content = Ok cfg → ev_Enabled (cf_Evidence cfg) = true →
  checkOptions (outboundOptions cfg) = Ok tt ∧ checkOptions (returnOptions cfg) = Ok tt ∧
  (∃ c, buildConfig (outboundOptions cfg) = Ok c ∧ configured c = Some (list_to_set (gc_DeviceIDs (cf_Gateway cfg))) ∧
    reserved c = DeclaresVersionedCarriage (cf_Evidence cfg) ∧
    (reserved c = true → MinDeviceShareItems ≤ shareItems c ∧ MinDeviceShareBytes ≤ shareBytes c) ∧
    ∀ d, d ∈ versioned c ↔ ev_DeviceCarriage (cf_Evidence cfg) !! d = Some CarriageEvidenceCarriageV1) ∧
  (∃ c, buildConfig (returnOptions cfg) = Ok c ∧ configured c = None ∧ reserved c = false) ∧
  (ev_RetryIntervalS (cf_Evidence cfg) ≤ 9223372036 → (DeclaresVersionedCarriage (cf_Evidence cfg) = true → ev_BackoffMaxS (cf_Evidence cfg) ≤ 9223372036) →
   ∃ base bound, Backoff (cf_Evidence cfg) = (base, bound) ∧
     Worker.normalise (deliveryOptions cfg) = Worker.MkWOpts (ev_RetryIntervalS (cf_Evidence cfg) * 1000000000) base bound Worker.defaultBlockedReminder).
Proof.
  intros (Hg & He & _)%LoadFile_ok En. specialize (He En). pose proof (se_dirs _ _ He) as (Q1 & Q2 & _). pose proof (se_bounds _ _ He) as (B1 & B2 & _).
  assert (∀ d, IsAbs d = true → bool_decide (Clean (TrimSpace d) = ".") || bool_decide (Clean (TrimSpace d) = "") = false) as Hdir.
  { intros d Hd. apply TrimSpace_abs, Clean_abs_nonempty in Hd as [N1 N2]. by rewrite !bool_decide_eq_false_2. }
  split_and!.
  - unfold checkOptions, outboundOptions. cbn [o_Directory o_MaxItems o_MaxBytes]. rewrite Hdir by done. apply Z.leb_gt in B1, B2. by rewrite B1, B2.
  - unfold checkOptions, returnOptions. cbn [o_Directory o_MaxItems o_MaxBytes]. rewrite Hdir by done. apply Z.leb_gt in B1, B2. by rewrite B1, B2.
  - by apply outbound_builds.
  - eexists. by split_and!.
  - by apply delivery_kept.
Qed.

(** The gateway's durable state is apart from the evidence it carries: in a
    loaded file that enables evidence and names a state directory, that
    directory, compared component by component once cleaned, is neither one of
    the two queue directories nor inside one nor around one, and the two queue
    directories differ. *)
Theorem state_directory_apart urlParse LoadLocation decode fields content cfg :
  LoadFile urlParse LoadLocation decode fields content = Ok cfg → ev_Enabled (cf_Evidence cfg) = true → gc_StateDirectory (cf_Gateway cfg) ≠ "" →
  let state := components (gc_StateDirectory (cf_Gateway cfg)) in
  let outbound := components (ev_QueueDirectory (cf_Evidence cfg)) in
  let return_ := components (ev_ReturnQueueDirectory (cf_Evidence cfg)) in
  outbound ≠ return_ ∧ ∀ q, q ∈ [outbound; return_] → ¬ q `prefix_of` state ∧ ¬ state `prefix_of` q.
Proof.
  intros (Hg & He & _ & Hs)%LoadFile_ok En Hn state outbound return_. specialize (He En). destruct (se_dirs _ _ He) as (Q1 & Q2 & Qn).
  destruct (sg_state _ Hg) as [_ Ha]. specialize (Ha Hn). split.
  { intros E. apply Qn. rewrite !Clean_abs by done. unfold outbound, return_ in E. by rewrite E. }
  unfold validateStateDirectory in Hs. rewrite bool_decide_eq_false_2, En in Hs by done. cbn [negb orb] in Hs. rewrite firstError_map in Hs.
  assert (∀ q, q ∈ [ev_QueueDirectory (cf_Evidence cfg); ev_ReturnQueueDirectory (cf_Evidence cfg)] → IsAbs q = true →
    ¬ components q `prefix_of` state ∧ ¬ state `prefix_of` components q) as HX.
  { intros q Hq Aq. specialize (Hs q Hq). rewrite bool_decide_eq_false_2 in Hs by (intros ->; done). destruct (pathsOverlap _ _) eqn:E in Hs; [done|].
    by apply pathsOverlap_components. }
  intros q Hq. apply list_elem_of_In in Hq as [<-|[<-|[]]]; apply HX; set_solver.
Qed.

(** Every device of a loaded file can be addressed and no secret does two
    jobs: there is at least one device, none twice, each with its topics;
    encryption comes with authentication, authentication with an absolute state
    directory, and the custody secret's variable is neither of the
    authentication secrets'. *)
Theorem accepted_gateway_is_usable urlParse LoadLocation decode fields content cfg :
  LoadFile urlParse LoadLocation decode fields content = Ok cfg →
  let g := cf_Gateway cfg in
  gc_DeviceIDs g ≠ [] ∧ NoDup (gc_DeviceIDs g) ∧
  (∀ d, d ∈ gc_DeviceIDs g → RequestTopic d = Ok ("ori/" +:+ d +:+ "/reasoning/request") ∧ ResponseTopic d = Ok ("ori/" +:+ d +:+ "/reasoning/response") ∧
     EvidenceOutboundTopic d = Ok ("ori/" +:+ d +:+ "/evidence/outbound") ∧ EvidenceInboundTopic d = Ok ("ori/" +:+ d +:+ "/evidence/inbound")) ∧
  (gc_EncryptionEnabled g = true → ga_Enabled (gc_Auth g) = true) ∧
  (ga_Enabled (gc_Auth g) = true → gc_StateDirectory g ≠ "" ∧ IsAbs (gc_StateDirectory g) = true) ∧
  (gc_CustodySecretEnv g ≠ "" → gc_CustodySecretEnv g ≠ ga_SharedSecretEnv (gc_Auth g) ∧ gc_CustodySecretEnv g ≠ ga_PreviousSharedSecretEnv (gc_Auth g)).
Proof.
  intros (Hg & _)%LoadFile_ok g. destruct Hg as [(Hn & Nd & Hd) Hen [Hs1 Hs2] [_ Hsec] _]. fold g in Hn, Nd, Hd, Hen, Hs1, Hs2, Hsec. split_and!; try done.
  - intros d H. specialize (Hd d H). unfold RequestTopic, ResponseTopic, EvidenceOutboundTopic, EvidenceInboundTopic, deviceTopic. by rewrite Hd.
  - intros H. auto.
Qed.

(** A retry interval past what a duration holds is accepted; its duration
    wraps below zero and the worker falls back to five seconds. *)
Definition overlongFile : fileConfig :=
  MkFile (MkFileGateway "tcp://127.0.0.1:1883" ["node-1"] None (MkAuth true "" "") "CUSTODY" false "/var/lib/ori/state")
    (MkFileProvider "echo" None "" "" "" "" "" "")
    (MkReporting "" "" "" "" (MkWeekly false "" "" "" "" [] "" "" false "" false "" "") false)
    (MkFileBridge false "" "" "" [] "" "" None None None None None None None)
    (MkSIM false "") (MkFleet false "") (MkSiteHealth false "")
    (MkFileEvidence true "/var/lib/ori/out" "/var/lib/ori/return" None None (Some 9223372037) None None None "ENDPOINT" "CLIENT" "SECRET" "" ∅).
Definition plainFile : fileConfig :=
  MkFile (ff_Gateway overlongFile) (ff_Provider overlongFile) (ff_Reporting overlongFile) (ff_WebhookBridge overlongFile) (ff_SIM overlongFile) (ff_Fleet overlongFile)
    (ff_SiteHealth overlongFile)
    (MkFileEvidence true "/var/lib/ori/out" "/var/lib/ori/return" None None None (Some 10) None None "ENDPOINT" "CLIENT" "SECRET" "" {["node-1" := CarriageEvidenceCarriageV1]}).
Definition noURL (_ : string) : option (string * string) := None.
Definition loaded (f : fileConfig) : res Config := LoadFile noURL (λ _, true) (λ _, Some f) id (Some "").

Lemma overlong_retry_falls_back :
  match loaded overlongFile with
  | Ok cfg => ev_RetryIntervalS (cf_Evidence cfg) = 9223372037 ∧ Worker.wo_retry (deliveryOptions cfg) < 0 ∧ Worker.wo_retry (Worker.normalise (deliveryOptions cfg)) = Worker.defaultDeliveryRetry
  | Err _ => False
  end.
Proof. vm_compute. done. Qed.

Definition plainConfig : Config := match loaded plainFile with Ok c => c | Err _ => MkConf (MkGateway "" [] 0 (MkAuth false "" "") "" false "") (normalizeProvider (ff_Provider plainFile)) (ff_Reporting plainFile) (normalizeWebhookBridge (ff_WebhookBridge plainFile)) (MkSIM false "") (MkFleet false "") (MkSiteHealth false "") (normalizeEvidence (ff_Evidence plainFile)) end.

Lemma plain_loads : loaded plainFile = Ok plainConfig.
Proof. vm_compute. reflexivity. Qed.

Lemma accepted_config_opens_the_courier_witness : checkOptions (outboundOptions plainConfig) = Ok tt.
Proof. destruct (accepted_config_opens_the_courier _ _ _ _ _ _ plain_loads) as (H & _); [vm_compute; reflexivity|exact H]. Defined.

Lemma state_directory_apart_witness : components (ev_QueueDirectory (cf_Evidence plainConfig)) ≠ components (ev_ReturnQueueDirectory (cf_Evidence plainConfig)).
Proof. destruct (state_directory_apart _ _ _ _ _ _ plain_loads) as (H & _); [vm_compute; reflexivity|vm_compute; discriminate|exact H]. Defined.

Lemma accepted_gateway_is_usable_witness : NoDup (gc_DeviceIDs (cf_Gateway plainConfig)).
Proof. destruct (accepted_gateway_is_usable _ _ _ _ _ _ plain_loads) as (_ & H & _). exact H. Defined.
End ConfigSpec.
