(* ===== verification/RequestPool.v ===== *)
(** * Admission gates and request pools (cmd/ori-gateway/app.go, requests.go)

    A callback gate counts what it admitted and refuses everything once the
    stop is decided. A request pool runs messages off the broker callback: each
    configured device has its own allowance of each family and every other
    device segment shares one; an unordered pool gives each message a goroutine,
    an ordered one gives each device a goroutine that takes its messages in
    turn. Goroutines are threads of a step relation, each step one critical
    section or one unlocked action of the source; a handler's own panic is
    recovered and ends it like a return. *)
From S2P Require Import Prelude GoBytes Json Contracts BrokerIngress.

Module RequestPool.
Import Contracts.
Import BrokerIngress (IngressRates, ir_Burst).

(** ** [callbackGate]: its wait group is a count *)
Record callbackGate := MkCallbackGate { cg_closed : bool; cg_running : Z }.
Definition newCallbackGate : callbackGate := MkCallbackGate false 0.
Definition enter (g : callbackGate) : bool * callbackGate :=
  if cg_closed g then (false, g) else (true, MkCallbackGate false (cg_running g + 1)).
Definition refuse (g : callbackGate) : callbackGate := MkCallbackGate true (cg_running g).
Definition refused (g : callbackGate) : bool := cg_closed g.
Definition Done (g : callbackGate) : callbackGate := MkCallbackGate (cg_closed g) (cg_running g - 1).
(** [close] returns once this holds of the refused gate. *)
Definition joined (g : callbackGate) : Prop := cg_closed g = true ∧ cg_running g = 0.

(** ** The pool *)
Definition heldKey : Type := string * string.
(** [pr_handle] names the handler of the subscription. *)
Record pendingRequest := MkPending { pr_topic : string; pr_payload : string; pr_family : string; pr_handle : nat }.

Record requestPool := MkPool {
  rp_ordered : bool; rp_limits : gmap string Z; rp_configured : gset string;
  rp_held : gmap heldKey Z; rp_queued : gmap string (list pendingRequest); rp_draining : gset string }.

Definition makePool (ordered : bool) (devices families : list string) : requestPool :=
  MkPool ordered (list_to_map ((λ f, (f, match IngressRates !! f with Some r => ir_Burst r | None => 0 end)) <$> families)) (list_to_set devices) ∅ ∅ ∅.
Definition newRequestPool := makePool false.
Definition newOrderedRequestPool := makePool true.
Definition newEvidencePool (devices : list string) : requestPool := newOrderedRequestPool devices [FamilyEvidenceOutbound; FamilyEvidenceInboundAck].

Definition setPool (p : requestPool) (held : gmap heldKey Z) (queued : gmap string (list pendingRequest)) (draining : gset string) : requestPool :=
  MkPool (rp_ordered p) (rp_limits p) (rp_configured p) held queued draining.

Definition heldOf (p : requestPool) (key : heldKey) : Z := default 0 (rp_held p !! key).
Definition queuedOf (p : requestPool) (device : string) : list pendingRequest := default [] (rp_queued p !! device).
Definition limitOf (p : requestPool) (family : string) : Z := default 0 (rp_limits p !! family).

(** [subscribe] up to the broker: the family its handler serves. *)
Definition subscribe (visit : list string) (p : requestPool) (topic : string) : res string :=
  match PayloadFamily visit topic with
  | Some family => if decide (is_Some (rp_limits p !! family)) then Ok family else Err (EMsg "request pool does not serve the family of the topic")
  | None => Err (EMsg "request pool does not serve the family of the topic")
  end.

Definition requestDeviceSegment (topic : string) : string :=
  match dropPrefix topic "ori/" with
  | None => ""
  | Some rest => match split slash rest with d :: _ => d | [] => "" end
  end.

(** The allowance a topic draws on: its device's, or the shared one. *)
Definition allowance (p : requestPool) (topic : string) : string :=
  let device := requestDeviceSegment topic in if decide (device ∈ rp_configured p) then device else "".

(** What the callback goes on with once it left the lock. *)
Inductive verdict := NotAdmitted | OverBound | Spawn (device : string) (req : pendingRequest) | Enqueued (device : string) (req : pendingRequest) (start : bool).

Definition handler (family : string) (handle : nat) (topic payload : string) (g : callbackGate) (p : requestPool) : verdict * callbackGate * requestPool :=
  let device := allowance p topic in
  let key := (device, family) in
  match enter g with
  | (false, g') => (NotAdmitted, g', p)
  | (true, g') =>
    if limitOf p family <=? heldOf p key then (OverBound, g', p)
    else
      let held := <[key := heldOf p key + 1]> (rp_held p) in
      let req := MkPending topic payload family handle in
      if negb (rp_ordered p) then (Spawn device req, g', setPool p held (rp_queued p) (rp_draining p))
      else (Enqueued device req (negb (bool_decide (device ∈ rp_draining p))), g',
            setPool p held (<[device := queuedOf p device ++ [req]]> (rp_queued p)) ({[device]} ∪ rp_draining p))
  end.

(** The head of a device's queue, which [drain] indexes; [None] is its panic. *)
Definition take (device : string) (p : requestPool) : option (pendingRequest * requestPool) :=
  match queuedOf p device with
  | [] => None
  | req :: rest => Some (req, setPool p (rp_held p) (<[device := rest]> (rp_queued p)) (rp_draining p))
  end.

(** The deferred section of [run]: whether it was the last. *)
Definition finish (device : string) (req : pendingRequest) (p : requestPool) : bool * requestPool :=
  let key := (device, pr_family req) in
  let n := heldOf p key - 1 in
  let held := if n =? 0 then delete key (rp_held p) else <[key := n]> (rp_held p) in
  if rp_ordered p && bool_decide (queuedOf p device = []) then (true, setPool p held (delete device (rp_queued p)) (rp_draining p ∖ {[device]}))
  else (false, setPool p held (rp_queued p) (rp_draining p)).

(** ** Goroutines *)
Inductive thread :=
| TDrop (family : string) (length : Z)                    (* over the bound, its admission not yet released *)
| TDrain (device : string)                                (* at the top of drain's loop *)
| TRun (device : string) (req : pendingRequest)           (* run, before it looks at the gate *)
| THandle (device : string) (req : pendingRequest)        (* inside the handler *)
| TFinish (device : string) (req : pendingRequest)        (* before the deferred section *)
| TRelease (device : string) (again : bool).              (* before the release; then drain's loop or the end *)

(** [c_others] counts the callbacks the gate admitted besides the pool's
    messages; the histories are the messages accepted, those whose turn came
    (with whether they were handled), and the drops counted. *)
Record conf := MkPConf {
  c_gate : callbackGate; c_pool : requestPool; c_threads : list thread; c_others : nat;
  c_accepted : list (string * pendingRequest); c_begun : list (string * pendingRequest * bool); c_drops : list (string * Z) }.

(** What the verdict starts. *)
Definition spawned (v : verdict) (family payload : string) : list thread :=
  match v with
  | NotAdmitted => []
  | OverBound => [TDrop family (slen payload)]
  | Spawn device req => [TRun device req]
  | Enqueued device _ start => if start then [TDrain device] else []
  end.
Definition acceptedBy (v : verdict) : list (string * pendingRequest) :=
  match v with Spawn device req | Enqueued device req _ => [(device, req)] | _ => [] end.

(** One step of a goroutine: what it becomes, and the state. [None] is a
    panic outside the handler, which nothing recovers. *)
Definition advance (t : thread) (c : conf) : option (list thread * conf) :=
  match t with
  | TDrop family length => Some ([], MkPConf (Done (c_gate c)) (c_pool c) (c_threads c) (c_others c) (c_accepted c) (c_begun c) (c_drops c ++ [(family, length)]))
  | TDrain device =>
    '(req, p') ← take device (c_pool c);
    Some ([TRun device req], MkPConf (c_gate c) p' (c_threads c) (c_others c) (c_accepted c) (c_begun c) (c_drops c))
  | TRun device req =>
    let handled := negb (refused (c_gate c)) in
    Some ([if handled then THandle device req else TFinish device req],
      MkPConf (c_gate c) (c_pool c) (c_threads c) (c_others c) (c_accepted c) (c_begun c ++ [(device, req, handled)]) (c_drops c))
  | THandle device req => Some ([TFinish device req], c)
  | TFinish device req =>
    let '(last, p') := finish device req (c_pool c) in
    Some ([TRelease device (rp_ordered (c_pool c) && negb last)], MkPConf (c_gate c) p' (c_threads c) (c_others c) (c_accepted c) (c_begun c) (c_drops c))
  | TRelease device again =>
    Some (if again then [TDrain device] else [], MkPConf (Done (c_gate c)) (c_pool c) (c_threads c) (c_others c) (c_accepted c) (c_begun c) (c_drops c))
  end.

Definition withThreads (ts : list thread) (c : conf) : conf := MkPConf (c_gate c) (c_pool c) ts (c_others c) (c_accepted c) (c_begun c) (c_drops c).

Inductive pstep : conf → conf → Prop :=
| P_enter c g' : enter (c_gate c) = (true, g') →
    pstep c (MkPConf g' (c_pool c) (c_threads c) (S (c_others c)) (c_accepted c) (c_begun c) (c_drops c))
| P_leave c n : c_others c = S n →
    pstep c (MkPConf (Done (c_gate c)) (c_pool c) (c_threads c) n (c_accepted c) (c_begun c) (c_drops c))
| P_refuse c : pstep c (MkPConf (refuse (c_gate c)) (c_pool c) (c_threads c) (c_others c) (c_accepted c) (c_begun c) (c_drops c))
| P_message c family handle topic payload v g' p' :
    is_Some (rp_limits (c_pool c) !! family) → handler family handle topic payload (c_gate c) (c_pool c) = (v, g', p') →
    pstep c (MkPConf g' p' (c_threads c ++ spawned v family payload) (c_others c) (c_accepted c ++ acceptedBy v) (c_begun c) (c_drops c))
| P_thread c l1 t l2 ts c' : c_threads c = l1 ++ t :: l2 → advance t c = Some (ts, c') → pstep c (withThreads (l1 ++ ts ++ l2) c').

(** A goroutine's step alone. *)
Inductive tstep : conf → conf → Prop :=
| T_thread c l1 t l2 ts c' : c_threads c = l1 ++ t :: l2 → advance t c = Some (ts, c') → tstep c (withThreads (l1 ++ ts ++ l2) c').

Definition pinit (p : requestPool) : conf := MkPConf newCallbackGate p [] 0 [] [] [].
End RequestPool.
