(* ===== verification/RequestPoolSpec.v ===== *)
(** * What a request pool guarantees

    The invariant of a pool's steps, and from it: no device holds more than
    its allowance nor another's, an ordered pool handles each device's messages
    in turn, and a stop ends with everything joined. *)
From S2P Require Import Prelude GoBytes Json Contracts BrokerIngress RequestPool.

Module RequestPoolSpec.
Import Contracts RequestPool.

(** ** Counting *)
Lemma zsum_nil {A} (f : A → Z) : zsum f [] = 0.
Proof. done. Qed.
Lemma zsum_pos {A} (f : A → Z) l : (∀ x, 0 ≤ f x) → 0 ≤ zsum f l.
Proof. intros H. apply zsum_nonneg. auto. Qed.

Definition qtotal (m : gmap string (list pendingRequest)) : Z := map_fold (λ _ l n, Z.of_nat (length l) + n) 0 m.
Definition lenAt (m : gmap string (list pendingRequest)) d : Z := Z.of_nat (length (default [] (m !! d))).

Lemma qtotal_delete m d : qtotal m = lenAt m d + qtotal (delete d m).
Proof.
  unfold lenAt. destruct (m !! d) as [l|] eqn:E; cbn [default]; [|by rewrite delete_id].
  unfold qtotal. rewrite (map_fold_delete_L _ _ d l m); [done|intros; lia|done].
Qed.
Lemma qtotal_insert m d l : qtotal (<[d := l]> m) = qtotal m - lenAt m d + Z.of_nat (length l).
Proof.
  rewrite (qtotal_delete (<[d := l]> m) d), (qtotal_delete m d), delete_insert_eq. unfold lenAt at 1. rewrite lookup_insert_eq. cbn. lia.
Qed.
Lemma qtotal_nonneg m : 0 ≤ qtotal m.
Proof. unfold qtotal. apply (map_fold_weak_ind (λ r _, 0 ≤ r)); intros; lia. Qed.
Lemma lenAt_le m d : 0 ≤ lenAt m d ≤ qtotal m.
Proof. rewrite (qtotal_delete m d). pose proof (qtotal_nonneg (delete d m)). unfold lenAt. lia. Qed.

(** ** What a goroutine holds *)
Definition holds (t : thread) : Z := match t with TDrain _ => 0 | _ => 1 end.
Definition onKey (k : heldKey) (t : thread) : Z :=
  match t with TRun d r | THandle d r | TFinish d r => if decide ((d, pr_family r) = k) then 1 else 0 | _ => 0 end.
Definition drains (d : string) (t : thread) : Z :=
  match t with
  | TDrain d' | TRun d' _ | THandle d' _ | TFinish d' _ | TRelease d' true => if decide (d' = d) then 1 else 0
  | _ => 0
  end.
(** About to take the head of [d]'s queue. *)
Definition needs (d : string) (t : thread) : bool :=
  match t with TDrain d' | TRelease d' true => bool_decide (d' = d) | _ => false end.
(** The message of [d] taken and not begun. *)
Definition cur (d : string) (t : thread) : list pendingRequest := match t with TRun d' r => if decide (d' = d) then [r] else [] | _ => [] end.
Definition currents (d : string) (l : list thread) : list pendingRequest := l ≫= cur d.

Definition ofFamily (f : string) (l : list pendingRequest) : Z := zsum (λ r, if decide (pr_family r = f) then 1 else 0) l.
Definition acceptedOf (d : string) (c : conf) : list pendingRequest := snd <$> filter (λ x, x.1 = d) (c_accepted c).
Definition begunOf (d : string) (c : conf) : list pendingRequest := (λ x, x.1.2) <$> filter (λ x, x.1.1 = d) (c_begun c).

Record pinv (c : conf) : Prop := MkPinv {
  pi_running : cg_running (c_gate c) = Z.of_nat (c_others c) + zsum holds (c_threads c) + qtotal (rp_queued (c_pool c));
  pi_held k : heldOf (c_pool c) k = zsum (onKey k) (c_threads c) + ofFamily k.2 (queuedOf (c_pool c) k.1);
  pi_pos k n : rp_held (c_pool c) !! k = Some n → 0 < n;
  pi_bound k : heldOf (c_pool c) k ≤ Z.max 0 (limitOf (c_pool c) k.2);
  pi_plain : rp_ordered (c_pool c) = false → rp_queued (c_pool c) = ∅ ∧ ∀ t d, t ∈ c_threads c → needs d t = false;
  pi_drain d : rp_ordered (c_pool c) = true → zsum (drains d) (c_threads c) = if decide (d ∈ rp_draining (c_pool c)) then 1 else 0;
  pi_idle d : d ∉ rp_draining (c_pool c) → rp_queued (c_pool c) !! d = None;
  pi_needs d t : t ∈ c_threads c → needs d t = true → queuedOf (c_pool c) d ≠ [];
  pi_order d : rp_ordered (c_pool c) = true → acceptedOf d c = begunOf d c ++ currents d (c_threads c) ++ queuedOf (c_pool c) d }.

Lemma holds_nonneg t : 0 ≤ holds t.
Proof. by destruct t. Qed.
Lemma onKey_nonneg k t : 0 ≤ onKey k t.
Proof. destruct t; cbn; try case_decide; lia. Qed.
Lemma drains_nonneg d t : 0 ≤ drains d t.
Proof. destruct t as [| | | | |? []]; cbn; try case_decide; lia. Qed.
Lemma ofFamily_app f l k : ofFamily f (l ++ k) = ofFamily f l + ofFamily f k.
Proof. apply zsum_app. Qed.
Lemma ofFamily_one f r : ofFamily f [r] = if decide (pr_family r = f) then 1 else 0.
Proof. unfold ofFamily. rewrite zsum_cons, zsum_nil. lia. Qed.
Lemma ofFamily_nonneg f l : 0 ≤ ofFamily f l.
Proof. apply zsum_pos. intros r. case_decide; lia. Qed.

(** Where nothing drains a device, nothing of it was taken. *)
Lemma currents_none d l : zsum (drains d) l = 0 → currents d l = [].
Proof.
  intros H. unfold currents. induction l as [|t l IH]; [done|]. rewrite zsum_cons in H. pose proof (drains_nonneg d t). pose proof (zsum_pos (drains d) l (drains_nonneg d)).
  rewrite bind_cons, IH by lia. destruct t; cbn in *; try done. case_decide; [lia|done].
Qed.

(** The only goroutine of a device stands alone. *)
Lemma sole_drainer d l1 t l2 c : pinv c → rp_ordered (c_pool c) = true → c_threads c = l1 ++ t :: l2 → drains d t = 1 →
  d ∈ rp_draining (c_pool c) ∧ zsum (drains d) l1 = 0 ∧ zsum (drains d) l2 = 0.
Proof.
  intros I Ho E Ht. pose proof (pi_drain c I d Ho) as H. rewrite E, zsum_app, zsum_cons, Ht in H.
  pose proof (zsum_pos (drains d) l1 (drains_nonneg d)). pose proof (zsum_pos (drains d) l2 (drains_nonneg d)). case_decide; [|lia]. split; [done|lia].
Qed.

(** ** Preservation *)
Definition fresh (p : requestPool) : Prop := rp_held p = ∅ ∧ rp_queued p = ∅ ∧ rp_draining p = ∅.

Lemma pinv_init p : fresh p → pinv (pinit p).
Proof.
  intros (H1 & H2 & H3). constructor; cbn; unfold heldOf, queuedOf; rewrite ?H1, ?H2, ?H3.
  - unfold qtotal. by rewrite map_fold_empty.
  - intros k. by rewrite !lookup_empty.
  - intros k n. by rewrite lookup_empty.
  - intros k. rewrite lookup_empty. cbn. lia.
  - intros _. split; [done|]. intros t d H. by apply not_elem_of_nil in H.
  - intros d _. case_decide; [set_solver|done].
  - intros d _. by rewrite lookup_empty.
  - intros d t H. by apply not_elem_of_nil in H.
  - intros d _. by rewrite lookup_empty.
Qed.

Lemma heldOf_insert p k n q dr k' : heldOf (setPool p (<[k := n]> (rp_held p)) q dr) k' = if decide (k' = k) then n else heldOf p k'.
Proof. unfold heldOf, setPool. cbn [rp_held]. case_decide as E; [subst; by rewrite lookup_insert_eq|by rewrite lookup_insert_ne]. Qed.

Lemma queuedOf_insert p h d l dr d' : queuedOf (setPool p h (<[d := l]> (rp_queued p)) dr) d' = if decide (d' = d) then l else queuedOf p d'.
Proof. unfold queuedOf, setPool. cbn [rp_queued]. case_decide as E; [subst; by rewrite lookup_insert_eq|by rewrite lookup_insert_ne]. Qed.

Lemma acceptedOf_app d c x : acceptedOf d (MkPConf (c_gate c) (c_pool c) (c_threads c) (c_others c) (c_accepted c ++ x) (c_begun c) (c_drops c)) =
  acceptedOf d c ++ (snd <$> filter (λ y, y.1 = d) x).
Proof. unfold acceptedOf. cbn [c_accepted]. by rewrite filter_app, fmap_app. Qed.

(** An unordered pool's message on its own goroutine. *)
Lemma pinv_spawn c device req others :
  pinv c → rp_ordered (c_pool c) = false → heldOf (c_pool c) (device, pr_family req) < limitOf (c_pool c) (pr_family req) →
  pinv (MkPConf (MkCallbackGate false (cg_running (c_gate c) + 1))
    (setPool (c_pool c) (<[(device, pr_family req) := heldOf (c_pool c) (device, pr_family req) + 1]> (rp_held (c_pool c))) (rp_queued (c_pool c)) (rp_draining (c_pool c)))
    (c_threads c ++ [TRun device req]) (c_others c) (c_accepted c ++ others) (c_begun c) (c_drops c)).
Proof.
  intros I Ho Hl. destruct (pi_plain c I Ho) as [Hq Hn]. constructor; cbn [c_gate c_pool c_threads c_others cg_running].
  - rewrite zsum_app, (pi_running c I). cbn. lia.
  - intros k. rewrite heldOf_insert, zsum_app, zsum_cons, zsum_nil. change (queuedOf (setPool _ _ _ _) k.1) with (queuedOf (c_pool c) k.1).
    pose proof (pi_held c I k). cbn [onKey]. repeat case_decide; subst; try congruence; lia.
  - intros k n. cbn. rewrite lookup_insert_Some. intros [[<- <-]|[_ H]]; [|by apply (pi_pos c I) in H].
    unfold heldOf. destruct (rp_held (c_pool c) !! _) as [m|] eqn:E; cbn; [|lia]. apply (pi_pos c I) in E. lia.
  - intros k. rewrite heldOf_insert. change (limitOf (setPool _ _ _ _) k.2) with (limitOf (c_pool c) k.2). pose proof (pi_bound c I k). case_decide; subst; cbn in *; lia.
  - intros _. cbn. split; [done|]. intros t d [H| ->%list_elem_of_singleton]%elem_of_app; [by apply Hn|done].
  - cbn. congruence.
  - apply (pi_idle c I).
  - intros d t [H| ->%list_elem_of_singleton]%elem_of_app; [by apply (pi_needs c I)|done].
  - cbn. congruence.
Qed.

(** An ordered pool's message at the end of its device's queue. *)
Lemma pinv_enqueue c device req :
  pinv c → rp_ordered (c_pool c) = true → heldOf (c_pool c) (device, pr_family req) < limitOf (c_pool c) (pr_family req) →
  pinv (MkPConf (MkCallbackGate false (cg_running (c_gate c) + 1))
    (setPool (c_pool c) (<[(device, pr_family req) := heldOf (c_pool c) (device, pr_family req) + 1]> (rp_held (c_pool c)))
      (<[device := queuedOf (c_pool c) device ++ [req]]> (rp_queued (c_pool c))) ({[device]} ∪ rp_draining (c_pool c)))
    (c_threads c ++ (if negb (bool_decide (device ∈ rp_draining (c_pool c))) then [TDrain device] else [])) (c_others c) (c_accepted c ++ [(device, req)]) (c_begun c) (c_drops c)).
Proof.
  intros I Ho Hl. set (new := if negb _ then [TDrain device] else []).
  assert (∀ t, t ∈ new → t = TDrain device) as Hnew by (intros t; unfold new; case_bool_decide; cbn; set_solver).
  constructor; cbn [c_gate c_pool c_threads c_others cg_running].
  - rewrite zsum_app, (pi_running c I). cbn [setPool rp_queued]. rewrite qtotal_insert. unfold lenAt, queuedOf. rewrite length_app. cbn [length].
    assert (zsum holds new = 0) as -> by (unfold new; by case_bool_decide). lia.
  - intros k. rewrite heldOf_insert, queuedOf_insert, zsum_app. assert (zsum (onKey k) new = 0) as -> by (unfold new; by case_bool_decide).
    pose proof (pi_held c I k) as H. destruct k as [d f]. cbn [fst snd] in *. repeat case_decide; subst; simplify_eq; rewrite ?ofFamily_app, ?ofFamily_one;
      repeat case_decide; try congruence; lia.
  - intros k n. cbn. rewrite lookup_insert_Some. intros [[<- <-]|[_ H]]; [|by apply (pi_pos c I) in H].
    unfold heldOf. destruct (rp_held (c_pool c) !! _) as [m|] eqn:E; cbn; [|lia]. apply (pi_pos c I) in E. lia.
  - intros k. rewrite heldOf_insert. change (limitOf (setPool _ _ _ _) k.2) with (limitOf (c_pool c) k.2). pose proof (pi_bound c I k). case_decide; subst; cbn in *; lia.
  - cbn. congruence.
  - intros d _. cbn [setPool rp_draining]. rewrite zsum_app, (pi_drain c I d Ho). unfold new. case_bool_decide as Hd; cbn [negb]; rewrite ?zsum_cons, ?zsum_nil; cbn [drains].
    + destruct (decide (d ∈ rp_draining (c_pool c))), (decide (d ∈ {[device]} ∪ rp_draining (c_pool c))); set_solver.
    + destruct (decide (device = d)) as [->|]; [rewrite !decide_False by done; rewrite decide_True by set_solver; done|].
      destruct (decide (d ∈ rp_draining (c_pool c))), (decide (d ∈ {[device]} ∪ rp_draining (c_pool c))); set_solver.
  - intros d. cbn [setPool rp_draining rp_queued]. intros Hd. rewrite lookup_insert_ne by set_solver. apply (pi_idle c I). set_solver.
  - intros d t Ht Hn. rewrite queuedOf_insert. case_decide; [by destruct (queuedOf (c_pool c) device)|].
    apply elem_of_app in Ht as [Ht|Ht%Hnew]; [by apply (pi_needs c I d t)|]. subst t. cbn in Hn. case_bool_decide; congruence.
  - intros d _. rewrite queuedOf_insert. unfold acceptedOf, begunOf, currents. cbn [c_accepted c_begun]. rewrite filter_app, fmap_app, bind_app.
    pose proof (pi_order c I d Ho) as H. unfold acceptedOf, begunOf, currents in H. rewrite H.
    assert (new ≫= cur d = []) as -> by (unfold new; by case_bool_decide). rewrite app_nil_r. rewrite filter_cons, filter_nil. cbn [fst].
    destruct (decide (device = d)) as [->|Hne]; [rewrite decide_True by done|rewrite decide_False by done]; cbn [fmap list_fmap snd]; rewrite ?app_nil_r, ?app_assoc; done.
Qed.

Lemma needs_drains d t : needs d t = true → drains d t = 1.
Proof. destruct t as [| | | | |? []]; cbn; try done; intros H; apply bool_decide_eq_true in H; by rewrite decide_True. Qed.

Lemma no_needs d l t : zsum (drains d) l = 0 → t ∈ l → needs d t = false.
Proof.
  intros Hz Ht. destruct (needs d t) eqn:E; [|done]. apply needs_drains in E. apply list_elem_of_split in Ht as (a & b & ->).
  rewrite zsum_app, zsum_cons in Hz. pose proof (zsum_pos (drains d) a (drains_nonneg d)). pose proof (zsum_pos (drains d) b (drains_nonneg d)). lia.
Qed.

Lemma drainer_ordered d t c : pinv c → t ∈ c_threads c → needs d t = true → rp_ordered (c_pool c) = true.
Proof.
  intros I Ht Hn. destruct (rp_ordered (c_pool c)) eqn:Ho; [done|]. destruct (pi_plain c I Ho) as [_ H]. rewrite (H t d Ht) in Hn. done.
Qed.

Lemma sole_finisher d req l1 l2 c : pinv c → c_threads c = l1 ++ TFinish d req :: l2 → rp_ordered (c_pool c) = true →
  d ∈ rp_draining (c_pool c) ∧ zsum (drains d) l1 = 0 ∧ zsum (drains d) l2 = 0.
Proof. intros I E Ho. apply (sole_drainer d l1 (TFinish d req) l2 c I Ho E). cbn. by rewrite decide_True. Qed.

(** The rest of a thread list, after one goroutine moved on. *)
Lemma in_rest {P : thread → Prop} l1 t ts l2 : (∀ x, x ∈ l1 ++ t :: l2 → P x) → (∀ x, x ∈ ts → P x) → ∀ x, x ∈ l1 ++ ts ++ l2 → P x.
Proof. intros H H' x. rewrite !elem_of_app. intros [?|[?|?]]; [apply H; set_solver|by apply H'|apply H; set_solver]. Qed.

(** A goroutine that only leaves: its admission is released, and nothing else
    it held remains. *)
Lemma pinv_release c l1 t l2 ts drops :
  pinv c → c_threads c = l1 ++ t :: l2 → holds t = 1 → zsum holds ts = 0 → (∀ k, onKey k t = 0 ∧ zsum (onKey k) ts = 0) →
  (∀ d, cur d t = [] ∧ currents d ts = []) → (∀ d, zsum (drains d) ts = drains d t) → (∀ d x, x ∈ ts → needs d x = needs d t) →
  pinv (MkPConf (Done (c_gate c)) (c_pool c) (l1 ++ ts ++ l2) (c_others c) (c_accepted c) (c_begun c) drops).
Proof.
  intros I E H1 H2 H3 H4 H5 H6. constructor; cbn [c_gate c_pool c_threads c_others Done cg_running].
  - rewrite (pi_running c I), E, !zsum_app, zsum_cons. lia.
  - intros k. rewrite (pi_held c I k), E, !zsum_app, zsum_cons. destruct (H3 k). lia.
  - apply (pi_pos c I).
  - apply (pi_bound c I).
  - intros Ho. destruct (pi_plain c I Ho) as [Hq Hn]. rewrite E in Hn. split; [done|]. intros x d. revert x. apply (in_rest l1 t); [auto|].
    intros x Hx. rewrite (H6 d x Hx). apply Hn. set_solver.
  - intros d Ho. rewrite <- (pi_drain c I d Ho), E, !zsum_app, zsum_cons, H5. lia.
  - apply (pi_idle c I).
  - intros d. pose proof (pi_needs c I d) as H. rewrite E in H. apply (in_rest (P := λ x, needs d x = true → queuedOf (c_pool c) d ≠ []) l1 t); [done|]. intros x Hx Hn. rewrite (H6 d x Hx) in Hn. apply (H t); [set_solver|done].
  - intros d Ho. pose proof (pi_order c I d Ho) as H. unfold acceptedOf, begunOf in *. cbn [c_accepted c_begun]. rewrite H, E. unfold currents. rewrite !bind_app, bind_cons.
    destruct (H4 d) as [-> Hc]. unfold currents in Hc. rewrite Hc. done.
Qed.

Lemma pinv_take c l1 d l2 req rest :
  pinv c → c_threads c = l1 ++ TDrain d :: l2 → queuedOf (c_pool c) d = req :: rest →
  pinv (MkPConf (c_gate c) (setPool (c_pool c) (rp_held (c_pool c)) (<[d := rest]> (rp_queued (c_pool c))) (rp_draining (c_pool c))) (l1 ++ [TRun d req] ++ l2) (c_others c) (c_accepted c)
    (c_begun c) (c_drops c)).
Proof.
  intros I E Hq. assert (rp_ordered (c_pool c) = true) as Ho by (apply (drainer_ordered d (TDrain d)); [done|rewrite E; set_solver|cbn; by apply bool_decide_eq_true]).
  destruct (sole_drainer d l1 (TDrain d) l2 c I Ho E) as (Hd & Z1 & Z2); [cbn; by rewrite decide_True|].
  constructor; cbn [c_gate c_pool c_threads c_others].
  - rewrite (pi_running c I), E. cbn [setPool rp_queued]. rewrite qtotal_insert, !zsum_app, !zsum_cons, zsum_nil. unfold lenAt. unfold queuedOf in Hq. rewrite Hq. cbn [length holds]. lia.
  - intros k. rewrite queuedOf_insert. pose proof (pi_held c I k) as H. change (heldOf (setPool _ _ _ _) k) with (heldOf (c_pool c) k). rewrite H, E, !zsum_app, !zsum_cons, zsum_nil. cbn [onKey].
    destruct k as [d' f]. cbn [fst snd]. destruct (decide (d' = d)) as [->|Hne]; [rewrite Hq; unfold ofFamily; rewrite zsum_cons|]; repeat case_decide; try congruence; lia.
  - apply (pi_pos c I).
  - apply (pi_bound c I).
  - cbn. congruence.
  - intros d' _. cbn [setPool rp_draining]. rewrite <- (pi_drain c I d' Ho), E, !zsum_app, !zsum_cons, zsum_nil. cbn [drains]. lia.
  - intros d'. cbn [setPool rp_draining rp_queued]. intros Hd'. rewrite lookup_insert_ne by set_solver. by apply (pi_idle c I).
  - intros d' x Hx Hn. rewrite queuedOf_insert. rewrite !elem_of_app, list_elem_of_singleton in Hx. case_decide as Ed; subst.
    + exfalso. destruct Hx as [Hx|[->|Hx]]; [rewrite (no_needs d l1 x) in Hn|discriminate Hn|rewrite (no_needs d l2 x) in Hn]; done.
    + apply (pi_needs c I d' x); [|done]. rewrite E. destruct Hx as [?|[->|?]]; [set_solver|done|set_solver].
  - intros d' _. pose proof (pi_order c I d' Ho) as H. rewrite queuedOf_insert. unfold acceptedOf, begunOf in *. cbn [c_accepted c_begun]. rewrite H, E. unfold currents. rewrite !bind_app, !bind_cons.
    cbn [cur]. destruct (decide (d' = d)) as [->|Hne]; [|rewrite decide_False by congruence; done]. rewrite decide_True by done.
    pose proof (currents_none d l1 Z1) as C1. pose proof (currents_none d l2 Z2) as C2. unfold currents in C1, C2. rewrite C1, C2, Hq. done.
Qed.

Lemma pinv_begin c l1 d req l2 (b : bool) :
  pinv c → c_threads c = l1 ++ TRun d req :: l2 →
  pinv (MkPConf (c_gate c) (c_pool c) (l1 ++ [if b then THandle d req else TFinish d req] ++ l2) (c_others c) (c_accepted c) (c_begun c ++ [(d, req, b)]) (c_drops c)).
Proof.
  intros I E. set (t' := if b then THandle d req else TFinish d req).
  assert (∀ k, onKey k t' = onKey k (TRun d req)) as K by (by destruct b). assert (∀ x, drains x t' = drains x (TRun d req)) as D by (by destruct b).
  assert (∀ x, needs x t' = false) as N by (by destruct b). assert (∀ x, cur x t' = []) as C by (by destruct b). assert (holds t' = 1) as Hh by (by destruct b).
  constructor; cbn [c_gate c_pool c_threads c_others].
  - rewrite (pi_running c I), E, !zsum_app, !zsum_cons, zsum_nil, Hh. cbn [holds]. lia.
  - intros k. rewrite (pi_held c I k), E, !zsum_app, !zsum_cons, zsum_nil, K. lia.
  - apply (pi_pos c I).
  - apply (pi_bound c I).
  - intros Ho. destruct (pi_plain c I Ho) as [Hq Hn]. rewrite E in Hn. split; [done|]. intros x d'. revert x. apply (in_rest l1 (TRun d req)); [auto|].
    intros x ->%list_elem_of_singleton. apply N.
  - intros d' Ho. rewrite <- (pi_drain c I d' Ho), E, !zsum_app, !zsum_cons, zsum_nil, D. lia.
  - apply (pi_idle c I).
  - intros d'. pose proof (pi_needs c I d') as H. rewrite E in H. apply (in_rest (P := λ x, needs d' x = true → queuedOf (c_pool c) d' ≠ []) l1 (TRun d req)); [done|]. intros x ->%list_elem_of_singleton. by rewrite N.
  - intros d' Ho. pose proof (pi_order c I d' Ho) as H. unfold acceptedOf, begunOf in *. cbn [c_accepted c_begun]. rewrite H, E. unfold currents. rewrite !bind_app, !bind_cons, C, filter_app, fmap_app.
    rewrite filter_cons, filter_nil. cbn [fst snd cur]. destruct (decide (d = d')) as [->|Hne].
    + destruct (sole_drainer d' l1 (TRun d' req) l2 c I Ho E) as (_ & Z1 & Z2); [cbn; by rewrite decide_True|].
      pose proof (currents_none d' l1 Z1) as C1. pose proof (currents_none d' l2 Z2) as C2. unfold currents in C1, C2. rewrite C1, C2. cbn. by rewrite <- app_assoc.
    + cbn. by rewrite app_nil_r.
Qed.

Lemma pinv_handled c l1 d req l2 : pinv c → c_threads c = l1 ++ THandle d req :: l2 → pinv (withThreads (l1 ++ [TFinish d req] ++ l2) c).
Proof.
  intros I E. unfold withThreads. constructor; cbn [c_gate c_pool c_threads c_others].
  - rewrite (pi_running c I), E, !zsum_app, !zsum_cons, zsum_nil. cbn [holds]. lia.
  - intros k. rewrite (pi_held c I k), E, !zsum_app, !zsum_cons, zsum_nil. cbn [onKey]. lia.
  - apply (pi_pos c I).
  - apply (pi_bound c I).
  - intros Ho. destruct (pi_plain c I Ho) as [Hq Hn]. rewrite E in Hn. split; [done|]. intros x d'. revert x. apply (in_rest l1 (THandle d req)); [auto|].
    by intros x ->%list_elem_of_singleton.
  - intros d' Ho. rewrite <- (pi_drain c I d' Ho), E, !zsum_app, !zsum_cons, zsum_nil. cbn [drains]. lia.
  - apply (pi_idle c I).
  - intros d'. pose proof (pi_needs c I d') as H. rewrite E in H. apply (in_rest (P := λ x, needs d' x = true → queuedOf (c_pool c) d' ≠ []) l1 (THandle d req)); [done|].
    by intros x ->%list_elem_of_singleton.
  - intros d' Ho. pose proof (pi_order c I d' Ho) as H. unfold acceptedOf, begunOf in *. cbn [c_accepted c_begun]. rewrite H, E. unfold currents. by rewrite !bind_app, !bind_cons.
Qed.

(** What the deferred section leaves held. *)
Lemma finish_held d req p last p' k : finish d req p = (last, p') →
  heldOf p' k = heldOf p k - (if decide (k = (d, pr_family req)) then 1 else 0) ∧ rp_limits p' = rp_limits p ∧ rp_ordered p' = rp_ordered p.
Proof.
  unfold finish. cbv zeta. set (key := (d, pr_family req)). set (held' := if _ =? 0 then _ else _).
  assert (default 0 (held' !! k) = heldOf p k - (if decide (k = key) then 1 else 0)) as H.
  { unfold held'. case_decide as E; [subst k|].
    - destruct (Z.eqb_spec (heldOf p key - 1) 0) as [Ez|Ez]; [rewrite lookup_delete_eq|rewrite lookup_insert_eq]; cbn; lia.
    - destruct (_ =? 0); [rewrite lookup_delete_ne by done|rewrite lookup_insert_ne by done]; unfold heldOf; lia. }
  destruct (_ && _); intros [= <- <-]; unfold heldOf; cbn [setPool rp_held]; by rewrite H.
Qed.

Lemma finish_pos d req p last p' : finish d req p = (last, p') → (∀ k n, rp_held p !! k = Some n → 0 < n) → 0 < heldOf p (d, pr_family req) → ∀ k n, rp_held p' !! k = Some n → 0 < n.
Proof.
  unfold finish. cbv zeta. intros H Hp H0 k n Hk.
  assert (rp_held p' = if heldOf p (d, pr_family req) - 1 =? 0 then delete (d, pr_family req) (rp_held p) else <[(d, pr_family req) := heldOf p (d, pr_family req) - 1]> (rp_held p)) as E
    by (destruct (_ && _) in H; injection H as <- <-; done).
  rewrite E in Hk. destruct (Z.eqb_spec (heldOf p (d, pr_family req) - 1) 0) as [Ez|Ez].
  - apply lookup_delete_Some in Hk as [_ Hk]. by apply Hp in Hk.
  - apply lookup_insert_Some in Hk as [[_ <-]|[_ Hk]]; [lia|by apply Hp in Hk].
Qed.

Lemma finish_queue d req p last p' : finish d req p = (last, p') →
  (∀ x, queuedOf p' x = queuedOf p x) ∧ qtotal (rp_queued p') = qtotal (rp_queued p) ∧
  (last = true → rp_ordered p = true ∧ queuedOf p d = [] ∧ rp_draining p' = rp_draining p ∖ {[d]} ∧ rp_queued p' = delete d (rp_queued p)) ∧
  (last = false → (rp_ordered p = true → queuedOf p d ≠ []) ∧ rp_draining p' = rp_draining p ∧ rp_queued p' = rp_queued p).
Proof.
  unfold finish. cbv zeta. destruct (rp_ordered p) eqn:Ho; cbn [andb].
  - case_bool_decide as Hq; intros [= <- <-]; cbn [setPool rp_queued rp_draining]; split_and!; try done.
    + intros x. unfold queuedOf in *. cbn. destruct (decide (x = d)) as [->|]; [rewrite lookup_delete_eq; by rewrite Hq|by rewrite lookup_delete_ne].
    + rewrite (qtotal_delete (rp_queued p) d). unfold lenAt. unfold queuedOf in Hq. rewrite Hq. cbn. lia.
  - intros [= <- <-]. by split_and!.
Qed.

Lemma pinv_finish c l1 d req l2 last p' :
  pinv c → c_threads c = l1 ++ TFinish d req :: l2 → finish d req (c_pool c) = (last, p') →
  pinv (MkPConf (c_gate c) p' (l1 ++ [TRelease d (rp_ordered (c_pool c) && negb last)] ++ l2) (c_others c) (c_accepted c) (c_begun c) (c_drops c)).
Proof.
  intros I E F. pose proof (finish_held d req _ _ _ (d, pr_family req) F) as (_ & Hl & Ho'). pose proof (finish_queue _ _ _ _ _ F) as (Hq & Ht & HT & HF).
  assert (0 < heldOf (c_pool c) (d, pr_family req)) as Hp.
  { rewrite (pi_held c I), E, zsum_app, zsum_cons. cbn [onKey fst snd]. rewrite decide_True by done.
    pose proof (zsum_pos (onKey (d, pr_family req)) l1 (onKey_nonneg _)). pose proof (zsum_pos (onKey (d, pr_family req)) l2 (onKey_nonneg _)). pose proof (ofFamily_nonneg (pr_family req) (queuedOf (c_pool c) d)). lia. }
  set (again := rp_ordered (c_pool c) && negb last). constructor; cbn [c_gate c_pool c_threads c_others].
  - rewrite (pi_running c I), E, Ht, !zsum_app, !zsum_cons, zsum_nil. cbn [holds]. lia.
  - intros k. destruct (finish_held d req _ _ _ k F) as (-> & _). rewrite Hq, (pi_held c I k), E, !zsum_app, !zsum_cons, zsum_nil. cbn [onKey]. repeat case_decide; try congruence; lia.
  - exact (finish_pos _ _ _ _ _ F (pi_pos c I) Hp).
  - intros k. destruct (finish_held d req _ _ _ k F) as (-> & _). unfold limitOf. rewrite Hl. pose proof (pi_bound c I k). unfold limitOf in *. case_decide; lia.
  - rewrite Ho'. intros Ho. destruct (pi_plain c I Ho) as [Hp0 Hn]. rewrite E in Hn. destruct last; [destruct (HT eq_refl); congruence|]. destruct (HF eq_refl) as (_ & _ & ->).
    split; [done|]. intros x d'. revert x. apply (in_rest l1 (TFinish d req)); [auto|]. intros x ->%list_elem_of_singleton. unfold again. by rewrite Ho.
  - rewrite Ho'. intros d' Ho. pose proof (pi_drain c I d' Ho) as H. rewrite E, !zsum_app, !zsum_cons in H. rewrite !zsum_app, !zsum_cons, zsum_nil. unfold again. rewrite Ho. cbn [drains andb] in *.
    destruct last; cbn [negb]; [destruct (HT eq_refl) as (_ & _ & -> & _)|destruct (HF eq_refl) as (_ & -> & _); lia].
    destruct (sole_finisher _ _ _ _ _ I E Ho) as (Hd & Z1 & Z2). destruct (decide (d = d')) as [->|Hne]; [rewrite (decide_False (P := d' ∈ _ ∖ _)) by set_solver; lia|].
    destruct (decide (d' ∈ rp_draining (c_pool c))); [rewrite decide_True by set_solver|rewrite decide_False by set_solver]; lia.
  - intros d' Hd'. destruct last; [destruct (HT eq_refl) as (_ & _ & Hdr & ->)|destruct (HF eq_refl) as (_ & Hdr & ->); rewrite Hdr in Hd'; by apply (pi_idle c I)].
    destruct (decide (d' = d)) as [->|]; [by rewrite lookup_delete_eq|]. rewrite lookup_delete_ne by done. apply (pi_idle c I). rewrite Hdr in Hd'. set_solver.
  - intros d' x Hx Hn. rewrite Hq. rewrite !elem_of_app, list_elem_of_singleton in Hx.
    destruct Hx as [Hx|[->|Hx]]; [apply (pi_needs c I d' x); [rewrite E; set_solver|done]| |apply (pi_needs c I d' x); [rewrite E; set_solver|done]].
    unfold again in Hn. destruct (rp_ordered (c_pool c)) eqn:Ho; [|discriminate Hn]. destruct last; [discriminate Hn|]. cbn in Hn. apply bool_decide_eq_true in Hn as ->. by apply HF.
  - rewrite Ho'. intros d' Ho. pose proof (pi_order c I d' Ho) as H. unfold acceptedOf, begunOf in *. cbn [c_accepted c_begun]. rewrite H, E, Hq. unfold currents. by rewrite !bind_app, !bind_cons.
Qed.

Lemma pinv_thread c l1 t l2 ts c' : pinv c → c_threads c = l1 ++ t :: l2 → advance t c = Some (ts, c') → pinv (withThreads (l1 ++ ts ++ l2) c').
Proof.
  intros I E. destruct t as [f n|d|d req|d req|d req|d again]; cbn [advance].
  - intros [= <- <-]. unfold withThreads; cbn. apply (pinv_release c l1 _ l2 [] _ I E); try done. intros d x Hx. by apply not_elem_of_nil in Hx.
  - unfold take. destruct (queuedOf (c_pool c) d) as [|req rest] eqn:Eq; [done|]. intros [= <- <-]. exact (pinv_take _ _ _ _ _ _ I E Eq).
  - intros [= <- <-]. by apply (pinv_begin c l1 d req l2).
  - intros [= <- <-]. by apply pinv_handled.
  - destruct (finish d req (c_pool c)) as [last p'] eqn:F. intros [= <- <-]. exact (pinv_finish _ _ _ _ _ _ _ I E F).
  - intros [= <- <-]. unfold withThreads; cbn. apply (pinv_release c l1 _ l2 (if again then [TDrain d] else []) _ I E); try (by destruct again).
    + intros x. destruct again; [|done]. rewrite zsum_cons, zsum_nil. cbn. lia.
    + intros x y. destruct again; [|by intros ?%not_elem_of_nil]. by intros ->%list_elem_of_singleton.
Qed.

Lemma pinv_step c c' : pinv c → pstep c c' → pinv c'.
Proof.
  intros I H. destruct H as [c g' Hg|c n Hn|c|c family handle topic payload v g' p' Hf Hh|c l1 t l2 ts c' E Ha].
  - unfold enter in Hg. destruct (cg_closed (c_gate c)); [done|]. injection Hg as <-. destruct I. constructor; try done. cbn [c_gate c_pool c_threads c_others cg_running Done]. lia.
  - destruct I. constructor; try done. cbn [c_gate c_pool c_threads c_others cg_running Done]. lia.
  - destruct I. by constructor.
  - unfold handler in Hh. cbv zeta in Hh. unfold enter in Hh. destruct (cg_closed (c_gate c)) eqn:Ec; [injection Hh as <- <- <-; destruct c; cbn in *; by rewrite !app_nil_r|].
    destruct (Z.leb_spec (limitOf (c_pool c) family) (heldOf (c_pool c) (allowance (c_pool c) topic, family))) as [Hb|Hb].
    + injection Hh as <- <- <-. cbn [spawned acceptedBy]. rewrite app_nil_r. destruct I. constructor; cbn [c_gate c_pool c_threads c_others cg_running]; try done.
      * rewrite zsum_app, zsum_cons, zsum_nil. cbn [holds]. lia.
      * intros k. rewrite zsum_app, zsum_cons, zsum_nil, pi_held0. cbn [onKey]. lia.
      * intros Ho. destruct (pi_plain0 Ho) as [? Hn]. split; [done|]. intros t d [?| ->%list_elem_of_singleton]%elem_of_app; [by apply Hn|done].
      * intros d Ho. rewrite zsum_app, zsum_cons, zsum_nil, pi_drain0 by done. cbn [drains]. lia.
      * intros d t [?| ->%list_elem_of_singleton]%elem_of_app; [by apply pi_needs0|done].
      * intros d Ho. unfold acceptedOf, begunOf, currents in *. cbn [c_accepted c_begun]. rewrite bind_app, pi_order0 by done. cbn. by rewrite app_nil_r.
    + destruct (rp_ordered (c_pool c)) eqn:Ho; cbn [negb] in Hh; injection Hh as <- <- <-; cbn [spawned acceptedBy].
      * exact (pinv_enqueue c _ (MkPending topic payload family handle) I Ho Hb).
      * exact (pinv_spawn c _ (MkPending topic payload family handle) _ I Ho Hb).
  - by eapply pinv_thread.
Qed.

Lemma pinv_reachable p c : fresh p → rtc pstep (pinit p) c → pinv c.
Proof. intros Hf H. eapply (rtc_ind_r (λ x, pinv x)); [by apply pinv_init| |exact H]. intros x y _ Hs I. by eapply pinv_step. Qed.

(** ** What it promises *)
Definition reachable (p : requestPool) (c : conf) : Prop := fresh p ∧ rtc pstep (pinit p) c.

(** The messages of a key accepted and not finished. *)
Definition live (k : heldKey) (c : conf) : Z := zsum (onKey k) (c_threads c) + ofFamily k.2 (queuedOf (c_pool c) k.1).

Lemma pstep_static c c' : pstep c c' → rp_ordered (c_pool c') = rp_ordered (c_pool c) ∧ rp_limits (c_pool c') = rp_limits (c_pool c) ∧ rp_configured (c_pool c') = rp_configured (c_pool c).
Proof.
  destruct 1 as [| | |c family handle topic payload v g' p' Hf Hh|c l1 t l2 ts c' E Ha]; try done.
  - unfold handler in Hh. cbv zeta in Hh. destruct (enter _) as [[] ?]; [|by injection Hh as <- <- <-]. destruct (_ <=? _); [by injection Hh as <- <- <-|].
    destruct (negb _); by injection Hh as <- <- <-.
  - destruct t; cbn [advance] in Ha; try by injection Ha as <- <-.
    + unfold take in Ha. destruct (queuedOf _ _); [done|]. by injection Ha as <- <-.
    + unfold finish in Ha. cbv zeta in Ha. destruct (_ && bool_decide _) in Ha; by injection Ha as <- <-.
Qed.

Lemma static_reachable p c : rtc pstep (pinit p) c → rp_ordered (c_pool c) = rp_ordered p ∧ rp_limits (c_pool c) = rp_limits p ∧ rp_configured (c_pool c) = rp_configured p.
Proof.
  intros H. eapply (rtc_ind_r (λ x, rp_ordered (c_pool x) = rp_ordered p ∧ rp_limits (c_pool x) = rp_limits p ∧ rp_configured (c_pool x) = rp_configured p) (pinit p)); [done| |exact H].
  intros x y _ Hs (I1 & I2 & I3). destruct (pstep_static _ _ Hs) as (J1 & J2 & J3). by rewrite J1, J2, J3.
Qed.

(** No sender takes a configured device's allowance. Whatever arrives and
    however the pool's goroutines interleave, the messages of a family that a
    device has accepted and unfinished never exceed the family's burst, and
    while the gate is open a message on a configured device's topic is dropped
    exactly when that device's own unfinished messages of the family are at
    the burst. *)
Theorem pool_allowance p c family handle topic payload v g' p' :
  reachable p c → is_Some (rp_limits p !! family) → cg_closed (c_gate c) = false → requestDeviceSegment topic ∈ rp_configured p →
  handler family handle topic payload (c_gate c) (c_pool c) = (v, g', p') →
  (∀ k, 0 ≤ live k c ≤ Z.max 0 (limitOf p k.2)) ∧
  (v = OverBound ↔ limitOf p family ≤ live (requestDeviceSegment topic, family) c) ∧
  (v ≠ OverBound → ∃ req, acceptedBy v = [(requestDeviceSegment topic, req)] ∧ pr_topic req = topic ∧ pr_payload req = payload).
Proof.
  intros [Hf Hr] _ Hc Hd Hh. pose proof (pinv_reachable _ _ Hf Hr) as I. destruct (static_reachable _ _ Hr) as (S1 & S2 & S3).
  assert (∀ k, heldOf (c_pool c) k = live k c) as Hl by apply (pi_held c I).
  assert (∀ f, limitOf (c_pool c) f = limitOf p f) as Hli by (intros f; unfold limitOf; by rewrite S2).
  split.
  { intros k. rewrite <- Hl, <- Hli. split; [|apply (pi_bound c I)]. rewrite (pi_held c I). pose proof (zsum_pos (onKey k) (c_threads c) (onKey_nonneg k)). pose proof (ofFamily_nonneg k.2 (queuedOf (c_pool c) k.1)). lia. }
  unfold handler in Hh. cbv zeta in Hh. unfold enter in Hh. rewrite Hc in Hh. unfold allowance in Hh. rewrite decide_True in Hh by (rewrite S3; done). rewrite Hli, Hl in Hh.
  destruct (Z.leb_spec (limitOf p family) (live (requestDeviceSegment topic, family) c)) as [Hb|Hb].
  - injection Hh as <- <- <-. split; [done|]. done.
  - destruct (negb _) in Hh; injection Hh as <- <- <-; split; try (split; [done|lia]); intros _; eexists; done.
Qed.

(** An ordered pool handles each device's messages in the order they were
    accepted, one at a time: the messages whose turn came, then the one just
    taken, then those queued are exactly the accepted ones in order; no device
    has two goroutines; and no goroutine of the pool indexes an empty queue. *)
Theorem pool_keeps_order p c d :
  reachable p c → rp_ordered p = true →
  acceptedOf d c = begunOf d c ++ currents d (c_threads c) ++ queuedOf (c_pool c) d ∧
  0 ≤ zsum (drains d) (c_threads c) ≤ 1 ∧ Forall (λ t, advance t c ≠ None) (c_threads c).
Proof.
  intros [Hf Hr] Ho. pose proof (pinv_reachable _ _ Hf Hr) as I. destruct (static_reachable _ _ Hr) as (S1 & _). rewrite Ho in S1. split_and!.
  - by apply (pi_order c I).
  - apply zsum_pos, drains_nonneg.
  - rewrite (pi_drain c I) by done. case_decide; lia.
  - apply Forall_forall. intros t Ht. destruct t as [| | | |d' req|]; cbn [advance]; try done.
    + unfold take. destruct (queuedOf _ _) eqn:Eq; [|done]. exfalso. eapply (pi_needs c I _ _ Ht); [|exact Eq]. cbn. by apply bool_decide_eq_true.
    + by destruct (finish _ _ _).
Qed.

(** The steps left to the goroutines and the queued messages. *)
Definition weight (t : thread) : Z := match t with TDrop _ _ => 1 | TDrain _ => 1 | TRun _ _ => 6 | THandle _ _ => 5 | TFinish _ _ => 4 | TRelease _ _ => 3 end.
Definition stepsLeft (c : conf) : Z := zsum weight (c_threads c) + 6 * qtotal (rp_queued (c_pool c)).

Lemma weight_nonneg t : 0 ≤ weight t.
Proof. by destruct t. Qed.

Lemma tstep_pstep c c' : tstep c c' → pstep c c'.
Proof. destruct 1. by eapply P_thread. Qed.

Lemma tstep_less c c' : tstep c c' → stepsLeft c' + 1 ≤ stepsLeft c.
Proof.
  destruct 1 as [c l1 t l2 ts c' E Ha]. unfold stepsLeft, withThreads. cbn [c_threads c_pool]. rewrite E, !zsum_app, zsum_cons.
  destruct t as [f n|d|d req|d req|d req|d again]; cbn [advance] in Ha.
  - injection Ha as <- <-. cbn. lia.
  - unfold take in Ha. destruct (queuedOf (c_pool c) d) as [|req rest] eqn:Eq; [done|]. injection Ha as <- <-. cbn [c_pool setPool rp_queued]. rewrite qtotal_insert. unfold lenAt. unfold queuedOf in Eq. rewrite Eq.
    rewrite zsum_cons, zsum_nil. cbn [weight length]. lia.
  - injection Ha as <- <-. cbn [c_pool]. rewrite zsum_cons, zsum_nil. destruct (refused _); cbn [negb weight]; lia.
  - injection Ha as <- <-. rewrite zsum_cons, zsum_nil. cbn [weight]. lia.
  - destruct (finish d req (c_pool c)) as [last p'] eqn:F. injection Ha as <- <-. cbn [c_pool]. destruct (finish_queue _ _ _ _ _ F) as (_ & -> & _). rewrite zsum_cons, zsum_nil. cbn [weight]. lia.
  - injection Ha as <- <-. cbn [c_pool]. destruct again; rewrite ?zsum_cons, ?zsum_nil; cbn [weight]; lia.
Qed.

Lemma tsteps_bounded n c c' : nsteps tstep n c c' → Z.of_nat n + stepsLeft c' ≤ stepsLeft c.
Proof. induction 1 as [|n x y z H _ IH]; [lia|]. apply tstep_less in H. lia. Qed.

Lemma all_joined c : pinv c → cg_running (c_gate c) = 0 ↔ c_threads c = [] ∧ c_others c = 0%nat.
Proof.
  intros I. rewrite (pi_running c I). pose proof (zsum_pos holds (c_threads c) holds_nonneg). pose proof (qtotal_nonneg (rp_queued (c_pool c))). split.
  - intros H1. split; [|lia]. destruct (c_threads c) as [|t ts] eqn:E; [done|]. exfalso. rewrite zsum_cons in *. pose proof (holds_nonneg t). pose proof (zsum_pos holds ts holds_nonneg).
    destruct t as [| d| | | |]; cbn [holds] in *; try lia. assert (queuedOf (c_pool c) d ≠ []) as Hq by (apply (pi_needs c I d (TDrain d)); [rewrite E; set_solver|cbn; by apply bool_decide_eq_true]).
    pose proof (lenAt_le (rp_queued (c_pool c)) d) as Hle. unfold lenAt in Hle. unfold queuedOf in Hq. destruct (default [] _); [done|]. cbn [length] in Hle. lia.
  - intros [E0 E1]. rewrite E0, E1, zsum_nil in *. enough (rp_queued (c_pool c) = ∅) as -> by done. destruct (rp_ordered (c_pool c)) eqn:Ho; [|by apply (pi_plain c I)].
    apply map_eq. intros d. rewrite lookup_empty. apply (pi_idle c I). intros Hd. pose proof (pi_drain c I d Ho) as Hz. rewrite E0, decide_True in Hz by done. done.
Qed.

(** C29: The stop joins everything. Once the gate refuses, no step accepts a
    message or begins to handle one; the pool's goroutines can always go on
    while there are any and take at most the steps left, so they end; and the
    gate's count is zero exactly when none of them and no other callback is
    left, so what waits on it returns, and only then. *)
Theorem stop_joins_the_pool p c :
  reachable p c → cg_closed (c_gate c) = true →
  (∀ c', pstep c c' → cg_closed (c_gate c') = true ∧ c_accepted c' = c_accepted c ∧ filter (λ x, x.2 = true) (c_begun c') = filter (λ x, x.2 = true) (c_begun c)) ∧
  (c_threads c ≠ [] → ∃ c', tstep c c') ∧
  (∀ n c', nsteps tstep n c c' → Z.of_nat n ≤ stepsLeft c) ∧
  (joined (c_gate c) ↔ c_threads c = [] ∧ c_others c = 0%nat).
Proof.
  intros [Hf Hr] Hc. pose proof (pinv_reachable _ _ Hf Hr) as I. split_and!.
  - destruct 1 as [c g' Hg|c n Hn|c|c family handle topic payload v g' p' _ Hh|c l1 t l2 ts c' E Ha]; try done.
    + unfold enter in Hg. by rewrite Hc in Hg.
    + unfold handler, enter in Hh. rewrite Hc in Hh. injection Hh as <- <- <-. cbn. by rewrite app_nil_r.
    + destruct t; cbn [advance] in Ha; try by injection Ha as <- <-.
      * unfold take in Ha. destruct (queuedOf _ _); [done|]. by injection Ha as <- <-.
      * unfold refused in Ha. rewrite Hc in Ha. injection Ha as <- <-. cbn. by rewrite filter_app, app_nil_r.
      * destruct (finish _ _ _). by injection Ha as <- <-.
  - intros Hn. destruct (c_threads c) as [|t ts] eqn:E; [done|]. assert (∃ ts' c', advance t c = Some (ts', c')) as (ts' & c' & Ha).
    { destruct t as [| d| | | d req|]; cbn [advance]; try by eexists _, _.
      - unfold take. destruct (queuedOf (c_pool c) d) eqn:Eq; [|by eexists _, _]. exfalso. apply (pi_needs c I d (TDrain d)); [rewrite E; set_solver|cbn; by apply bool_decide_eq_true|done].
      - destruct (finish _ _ _). by eexists _, _. }
    eexists. by apply (T_thread c [] t ts).
  - intros n c' H. apply tsteps_bounded in H. unfold stepsLeft at 1 in H. pose proof (zsum_pos weight (c_threads c') weight_nonneg). pose proof (qtotal_nonneg (rp_queued (c_pool c'))). lia.
  - rewrite <- (all_joined c I). unfold joined. naive_solver.
Qed.

(** ** Samples *)
Definition samplePool : requestPool := newEvidencePool ["node-1"].
Definition sampleTopic : string := "ori/node-1/evidence/outbound".
Definition sampleOpen : conf := pinit samplePool.
Definition sampleTaken : conf :=
  match handler FamilyEvidenceOutbound 0 sampleTopic "a" newCallbackGate samplePool with
  | (v, g, p) => MkPConf g p (spawned v FamilyEvidenceOutbound "a") 0 (acceptedBy v) [] []
  end.
Definition sampleStopped : conf := MkPConf (refuse (c_gate sampleTaken)) (c_pool sampleTaken) (c_threads sampleTaken) 0 (c_accepted sampleTaken) [] [].

Lemma sample_taken : reachable samplePool sampleTaken.
Proof.
  split; [done|]. apply rtc_once. unfold sampleTaken. destruct (handler _ _ _ _ _ _) as [[v g] p] eqn:E.
  refine (P_message (pinit samplePool) FamilyEvidenceOutbound 0 sampleTopic "a" v g p _ E). vm_compute. by eexists.
Qed.

Lemma sample_stopped : reachable samplePool sampleStopped.
Proof. destruct sample_taken as [Hf Hr]. split; [done|]. eapply rtc_r; [exact Hr|]. apply P_refuse. Qed.

Lemma pool_allowance_witness : 0 ≤ live ("node-1", FamilyEvidenceOutbound) sampleTaken ≤ Z.max 0 (limitOf samplePool FamilyEvidenceOutbound).
Proof.
  destruct (handler FamilyEvidenceOutbound 0 sampleTopic "b" (c_gate sampleTaken) (c_pool sampleTaken)) as [[v g'] p'] eqn:E.
  destruct (pool_allowance samplePool sampleTaken FamilyEvidenceOutbound 0 sampleTopic "b" v g' p' sample_taken) as (H & _).
  - vm_compute. by eexists.
  - reflexivity.
  - vm_compute. done.
  - exact E.
  - exact (H ("node-1", FamilyEvidenceOutbound)).
Defined.

Lemma pool_keeps_order_witness : acceptedOf "node-1" sampleTaken = [MkPending sampleTopic "a" FamilyEvidenceOutbound 0].
Proof. destruct (pool_keeps_order samplePool sampleTaken "node-1" sample_taken) as (H & _); [reflexivity|]. rewrite H. vm_compute. reflexivity. Defined.

Lemma stop_joins_the_pool_witness : ∃ c', tstep sampleStopped c'.
Proof. destruct (stop_joins_the_pool samplePool sampleStopped sample_stopped) as (_ & H & _); [reflexivity|]. apply H. vm_compute. discriminate. Defined.
End RequestPoolSpec.
