(* ===== verification/Heartbeat.v ===== *)
(** * The gateway's own heartbeat (heartbeat/*.go)

    A payload is built at a time the signing clock issues, signed when the
    gateway authenticates, and published at once and then at every tick; a
    publisher that fails too often in a row ends the process. The provider,
    the SIM, the webhook bridge's posture, the clocks and the broker's answer
    are inputs of an attempt. The signing clock is an instance of
    [SigningSource]; [degraded] reads whether its mark writes are failing. *)
From S2P Require Import Prelude GoBytes Json Float64 Contracts Heap Replay MqttAuth Returns StateClock Requests Dispatcher.

Module Heartbeat.
Import Float64 Contracts MqttAuth Requests Dispatcher.
Import Json (JObj, JBool, JNum).

Definition HeartbeatMessageType : string := "gateway.heartbeat".
Definition StatusStarting : string := "starting".
Definition StatusHealthy : string := "healthy".
Definition StatusDegraded : string := "degraded".
Definition DefaultFailureLimit : Z := 5.

Record AuthConfig := MkHeartbeatAuth { ha_Enabled : bool; ha_SharedSecret : string }.

Record WebhookBridgePosture := MkBridgePosture {
  wp_Enabled : bool; wp_Ready : bool; wp_LoopbackOnly : bool; wp_SourceCIDRsConfigured : bool; wp_ProviderCIDRCount : Z; wp_RuntimeTargetConfigured : bool;
  wp_BodyLimitBytes : Z; wp_RequestTimeoutMS : Z }.

Record Beat := MkBeat {
  bt_Status : string; bt_UptimeS : float64; bt_Provider : string; bt_SIMAvailable : bool; bt_TimestampMS : Z;
  bt_WebhookBridge : option WebhookBridgePosture; bt_Auth : option HeartbeatAuth }.

Definition postureMembers (p : WebhookBridgePosture) : list (string * json) :=
  [("enabled", JBool (wp_Enabled p)); ("ready", JBool (wp_Ready p)); ("loopback_only", JBool (wp_LoopbackOnly p));
   ("source_cidrs_configured", JBool (wp_SourceCIDRsConfigured p)); ("provider_cidr_count", jint (wp_ProviderCIDRCount p));
   ("runtime_target_configured", JBool (wp_RuntimeTargetConfigured p)); ("body_limit_bytes", jint (wp_BodyLimitBytes p));
   ("request_timeout_ms", jint (wp_RequestTimeoutMS p))].

(** [None]: the uptime has no JSON form. *)
Definition beatMembers (b : Beat) : option (list (string * json)) :=
  match formatFloat (bt_UptimeS b) with
  | None => None
  | Some uptime => Some (
      [("status", jstr (bt_Status b)); ("uptime_s", JNum uptime); ("provider", jstr (bt_Provider b)); ("sim_available", JBool (bt_SIMAvailable b));
       ("timestamp_ms", jint (bt_TimestampMS b))] ++
      (match bt_WebhookBridge b with Some p => [("webhook_bridge", JObj (postureMembers p))] | None => [] end) ++ omitAuth (bt_Auth b))
  end.

Definition marshalBeat (b : Beat) : res string :=
  match beatMembers b with Some members => Ok (print (JObj members)) | None => Err (EMsg "json: unsupported value") end.

Definition withBeatAuth (a : HeartbeatAuth) (b : Beat) : Beat :=
  MkBeat (bt_Status b) (bt_UptimeS b) (bt_Provider b) (bt_SIMAvailable b) (bt_TimestampMS b) (bt_WebhookBridge b) (Some a).

(** ** The SIM's availability *)
Record SIMStatus := MkSIMStatus { ss_Enabled : bool; ss_Probe : option bool }.
Definition Available (s : SIMStatus) : bool := if ss_Enabled s then default false (ss_Probe s) else false.

(** ** The publisher *)
Record Publisher := MkPublisher { pb_interval : Z; pb_failureLimit : Z; pb_startedAt : Z; pb_auth : AuthConfig }.

Definition NewPublisher (interval failureLimit startedAt : Z) (auth : AuthConfig) : res Publisher :=
  if interval <=? 0 then Err (EMsg "heartbeat: interval must be positive")
  else if ha_Enabled auth && bool_decide (TrimSpace (ha_SharedSecret auth) = "") then Err (EMsg "heartbeat: auth shared secret must not be empty")
  else Ok (MkPublisher interval (if failureLimit <=? 0 then DefaultFailureLimit else failureLimit) startedAt auth).

(** What the publisher's lock guards, and the loop's own count. *)
Record pubState := MkPubState { ps_everPublished : bool; ps_failing : bool; ps_lastPublished : Z; ps_failures : Z }.
Definition newPubState : pubState := MkPubState false false 0 0.

(** [time.Since] on the monotonic clock. *)
Definition Publishing (p : Publisher) (mono : Z) (s : pubState) : bool :=
  ps_everPublished s && negb (ps_failing s) && (timeBetween mono (ps_lastPublished s) <=? wrap64 (3 * pb_interval p)).

(** What an attempt sees. *)
Record attempt := MkAttempt {
  at_ended : bool; at_now : Z; at_wall : Z; at_provider : string; at_healthy : bool; at_sim : SIMStatus; at_posture : option WebhookBridgePosture;
  at_stopping : bool; at_sent : bool; at_mono : Z }.

(** Rounded to milliseconds. *)
Definition uptime (p : Publisher) (now : Z) : float64 := fdiv (Round (fmul (Seconds (timeBetween now (pb_startedAt p))) (ofInt 1000))) (ofInt 1000).

Section Publish.
Context (Marshal : gmap string json → res string).
Context {C : Type} `{SigningSource C} (degraded : C → bool).
Context (p : Publisher).

Definition SignHeartbeat (b : Beat) (sharedSecret : string) : res Beat :=
  let secret := TrimSpace sharedSecret in
  if bool_decide (secret = "") then Err (EMsg "heartbeat auth shared secret must not be empty")
  else if bt_TimestampMS b <=? 0 then Err (EMsg "heartbeat timestamp_ms must be positive")
  else match beatMembers b with
  | None => Err (EMsg "mqtt auth: value")
  | Some members =>
    match Sign Marshal (toMap members) HeartbeatMessageType "" "" (bt_TimestampMS b) secret with
    | Err e => Err e
    | Ok auth => Ok (withBeatAuth auth b)
    end
  end.

Definition status (healthy : bool) (s : pubState) (c : C) : string :=
  if degraded c then StatusDegraded else if negb (ps_everPublished s) then StatusStarting else if healthy then StatusHealthy else StatusDegraded.

Definition buildBeat (a : attempt) (s : pubState) (timestampMS : Z) (c : C) : Beat :=
  MkBeat (status (at_healthy a) s c) (uptime p (at_now a)) (at_provider a) (Available (at_sim a)) timestampMS (at_posture a) None.

Definition buildPayload (a : attempt) (s : pubState) : EM C string := λ c,
  match NextAt (at_wall a) c with
  | (Err e, c1) => (Err e, c1)
  | (Ok timestampMS, c1) =>
    let beat := buildBeat a s timestampMS c1 in
    if ha_Enabled (pb_auth p) then
      match SignHeartbeat beat (ha_SharedSecret (pb_auth p)) with Err e => (Err e, c1) | Ok signed => (marshalBeat signed, c1) end
    else (marshalBeat beat, c1)
  end.

(** A failure counts, and at the limit ends the process. *)
Definition recordFailure (s : pubState) : bool * pubState :=
  let failures := ps_failures s + 1 in
  (pb_failureLimit p <=? failures, MkPubState (ps_everPublished s) true (ps_lastPublished s) failures).

(** [publishOnce]: whether the process ends, the state, and what the broker
    was handed. *)
Definition publishOnce (a : attempt) (s : pubState) (c : C) : bool * pubState * C * option string :=
  if at_ended a then (false, s, c, None)
  else match buildPayload a s c with
  | (Err _, c1) => if at_stopping a then (false, s, c1, None) else let '(fatal, s1) := recordFailure s in (fatal, s1, c1, None)
  | (Ok payload, c1) =>
    if at_sent a then (false, MkPubState true false (at_mono a) 0, c1, Some payload)
    else if at_stopping a then (false, s, c1, Some payload) else let '(fatal, s1) := recordFailure s in (fatal, s1, c1, Some payload)
  end.

(** The loop over its ticks: an attempt, or a panic, which starts a new loop
    with its count at zero. *)
Inductive tick := Attempt (a : attempt) | Panic.

Fixpoint run (ticks : list tick) (s : pubState) (c : C) : bool * pubState * C * list string :=
  match ticks with
  | [] => (false, s, c, [])
  | Panic :: rest => run rest (MkPubState (ps_everPublished s) (ps_failing s) (ps_lastPublished s) 0) c
  | Attempt a :: rest =>
    let '(fatal, s1, c1, out) := publishOnce a s c in
    if fatal then (true, s1, c1, option_list out) else let '(fatal', s2, c2, outs) := run rest s1 c1 in (fatal', s2, c2, option_list out ++ outs)
  end.
End Publish.
End Heartbeat.
