(* ===== verification/HeartbeatSpec.v ===== *)
(** * What the gateway's heartbeat promises *)
From S2P Require Import Prelude GoBytes Json Float64 FloatBounds Contracts Heap Replay MqttAuth Returns StateClock Requests Dispatcher Heartbeat.
From Stdlib Require Import QArith Lqa SpecFloat.

Module HeartbeatSpec.
Import Float64 FloatBounds Contracts MqttAuth StateClock Requests Dispatcher Heartbeat.
#[local] Open Scope Z_scope.

(** ** The uptime *)
Lemma ofInt_atleast r : 1 ≤ r ≤ 2 ^ 53 → nonneg (ofInt r) ∧ (999999 # 1000000 <= val (ofInt r))%Q ∧ (val (ofInt r) <= 10000000000000000)%Q.
Proof.
  intros Hr. assert (1 <= inject_Z r <= 9007199254740992)%Q as Hq.
  { split; [change 1%Q with (inject_Z 1)|change 9007199254740992%Q with (inject_Z 9007199254740992)]; rewrite <- Zle_Qle; lia. }
  destruct (ofInt_near r) as [N V]; [lia|apply below_max; lra|]. apply near_bounds in V; [|lra]. split; [done|]. lra.
Qed.

(** A rounded number that is not zero is at least one, up to its own error. *)
Lemma Round_atleast f : nonneg f → (val f <= 100000000000000)%Q →
  (∃ z, Round f = S754_zero z) ∨ nonneg (Round f) ∧ (999999 # 1000000 <= val (Round f))%Q ∧ (val (Round f) <= 10000000000000000)%Q.
Proof.
  destruct f as [z|z| |neg m e]; cbn [nonneg Round]; try tauto; [intros _ _; left; by exists z|]. destruct neg; [done|]. intros Hn Hv. cbn [val] in Hv.
  destruct (Z.leb_spec 0 e) as [He|He].
  - right. split; [done|]. cbn [val]. split; [|lra]. unfold mag. rewrite bp_Z by done. rewrite <- inject_Z_mult. apply Qle_trans with 1%Q; [lra|]. change 1%Q with (inject_Z 1).
    rewrite <- Zle_Qle. assert (0 < 2 ^ e) by lia. nia.
  - set (r := (2 * Z.pos m + 2 ^ (- e)) / (2 * 2 ^ (- e))). destruct (mantissa_bounds m e Hn) as (Hm & _). assert (0 < 2 ^ (- e)) as Hp by (apply Z.pow_pos_nonneg; lia).
    assert (0 ≤ r ≤ 2 ^ 53) as Hr.
    { split; [apply Z.div_pos; lia|]. apply Z.lt_succ_r. apply Z.div_lt_upper_bound; [lia|]. assert (1 ≤ 2 ^ (- e)) by lia. nia. }
    change (binary_normalize fprec femax r 0 false) with (ofInt r). destruct (decide (r = 0)) as [->|Hr0]; [left; by exists false|]. right. apply ofInt_atleast. lia.
Qed.

Lemma uptime_readable p now : 0 ≤ now - pb_startedAt p ≤ i64_max →
  (∃ z, uptime p now = S754_zero z) ∨ nonneg (uptime p now) ∧ (999 # 1000000 <= val (uptime p now))%Q.
Proof.
  intros Hd. unfold uptime. assert (timeBetween now (pb_startedAt p) = now - pb_startedAt p) as -> by (unfold timeBetween, i64_min, i64_max in *; lia).
  set (d := now - pb_startedAt p) in *. destruct (Seconds_near d Hd) as [N1 V1]. destruct (ofInt_exact 1000) as [N2 V2]; [lia|]. change (inject_Z 1000) with 1000%Q in V2.
  assert (0 <= secs d <= 9223372037)%Q as Hs.
  { split; [apply secs_nonneg; lia|]. unfold secs. assert (inject_Z d <= 9223372036854775807)%Q as Hq by (change 9223372036854775807%Q with (inject_Z 9223372036854775807); rewrite <- Zle_Qle; unfold i64_max in Hd; lia). lra. }
  pose proof (val_nonneg _ N1) as P1. destruct (fmul_near (Seconds d) (ofInt 1000)) as [N3 V3]; [done..|rewrite V2; apply below_max; lra|]. rewrite V2 in V3.
  apply near_bounds in V3; [|lra]. destruct (Round_atleast _ N3) as [[z Hz]|(N4 & V4 & V5)]; [lra| |].
  - left. rewrite Hz. unfold fdiv. destruct (ofInt 1000) eqn:E; vm_compute in E; try discriminate E. injection E as <- <- <-. cbn. by eexists.
  - right. destruct (fdiv_near _ (ofInt 1000) N4 N2) as [N6 V6]; [rewrite V2; lra|rewrite V2; apply below_max; unfold Qdiv; change (/ 1000)%Q with (1 # 1000)%Q; lra|].
    rewrite V2 in V6. unfold Qdiv in V6. change (/ 1000)%Q with (1 # 1000)%Q in V6. apply near_bounds in V6; [|lra]. split; [done|]. lra.
Qed.

(** ** Attempts *)
Inductive tickResult := RSent (mono : Z) | RFailed | RSkipped | RPanic.

Section Publisher.
Context (Marshal : gmap string json → res string).
Context {C : Type} `{SigningSource C} (degraded : C → bool).
Context (p : Publisher).

Definition resultOf (a : attempt) (s : pubState) (c : C) : tickResult :=
  if at_ended a then RSkipped
  else match buildPayload Marshal degraded p a s c with
  | (Err _, _) => if at_stopping a then RSkipped else RFailed
  | (Ok _, _) => if at_sent a then RSent (at_mono a) else if at_stopping a then RSkipped else RFailed
  end.

(** What the ticks came to, up to the one that ended the process. *)
Fixpoint results (ticks : list tick) (s : pubState) (c : C) : list tickResult :=
  match ticks with
  | [] => []
  | Panic :: rest => RPanic :: results rest (MkPubState (ps_everPublished s) (ps_failing s) (ps_lastPublished s) 0) c
  | Attempt a :: rest =>
    let '(fatal, s1, c1, _) := publishOnce Marshal degraded p a s c in
    resultOf a s c :: (if fatal then [] else results rest s1 c1)
  end.

(** Failures since the last heartbeat sent and the last panic. *)
Definition streakStep (n : Z) (r : tickResult) : Z := match r with RSent _ | RPanic => 0 | RFailed => n + 1 | RSkipped => n end.
Definition streak (n : Z) (l : list tickResult) : Z := foldl streakStep n l.

(** The latest attempt that came to something. *)
Definition latestStep (o : option tickResult) (r : tickResult) : option tickResult := match r with RSent _ | RFailed => Some r | _ => o end.
Definition latest (o : option tickResult) (l : list tickResult) : option tickResult := foldl latestStep o l.

Lemma publishOnce_spec a s c fatal s1 c1 out : publishOnce Marshal degraded p a s c = (fatal, s1, c1, out) →
  match resultOf a s c with
  | RSent m => fatal = false ∧ s1 = MkPubState true false m 0 ∧ out ≠ None
  | RFailed => fatal = (pb_failureLimit p <=? ps_failures s + 1) ∧ s1 = MkPubState (ps_everPublished s) true (ps_lastPublished s) (ps_failures s + 1)
  | RSkipped => fatal = false ∧ s1 = s
  | RPanic => False
  end.
Proof.
  unfold publishOnce, resultOf. destruct (at_ended a); [intros [= <- <- <- <-]; done|]. destruct (buildPayload _ _ _ _ _ _) as [[payload|err] c2].
  - destruct (at_sent a); [intros [= <- <- <- <-]; done|]. destruct (at_stopping a); intros [= <- <- <- <-]; done.
  - destruct (at_stopping a); intros [= <- <- <- <-]; done.
Qed.

(** What the guarded state says of the attempts behind it. *)
Definition tells (o : option tickResult) (s : pubState) : Prop :=
  match o with
  | None => ps_everPublished s = false ∧ ps_failing s = false
  | Some (RSent m) => ps_everPublished s = true ∧ ps_failing s = false ∧ ps_lastPublished s = m
  | Some _ => ps_failing s = true
  end.

Lemma run_spec ticks : 0 < pb_failureLimit p → ∀ s c fatal s' c' outs o, run Marshal degraded p ticks s c = (fatal, s', c', outs) → tells o s → ps_failures s < pb_failureLimit p →
  ps_failures s' = streak (ps_failures s) (results ticks s c) ∧ fatal = (pb_failureLimit p <=? ps_failures s') ∧ tells (latest o (results ticks s c)) s'.
Proof.
  intros Hlim. induction ticks as [|[a|] ticks IH]; intros s c fatal s' c' outs o Hr Ht Hl; cbn [run results] in *.
  - injection Hr as <- <- <- <-. split; [done|]. split; [|done]. symmetry. by apply Z.leb_gt.
  - destruct (publishOnce Marshal degraded p a s c) as [[[f1 s1] c1] out] eqn:E. apply publishOnce_spec in E. destruct (resultOf a s c) as [m| | |] eqn:Er; try done.
    + destruct E as (-> & -> & _). destruct (run _ _ _ ticks _ c1) as [[[f2 s2] c2] outs2] eqn:E2. injection Hr as <- <- <- <-. exact (IH _ _ _ _ _ _ (Some (RSent m)) E2 (conj eq_refl (conj eq_refl eq_refl)) Hlim).
    + destruct E as [-> ->]. destruct (Z.leb_spec (pb_failureLimit p) (ps_failures s + 1)) as [Hx|Hx].
      * injection Hr as <- <- <- <-. cbn. split; [done|]. split; [|done]. symmetry. by apply Z.leb_le.
      * destruct (run _ _ _ ticks _ c1) as [[[f2 s2] c2] outs2] eqn:E2. injection Hr as <- <- <- <-. exact (IH _ _ _ _ _ _ (Some RFailed) E2 eq_refl Hx).
    + destruct E as [-> ->]. destruct (run _ _ _ ticks _ c1) as [[[f2 s2] c2] outs2] eqn:E2. injection Hr as <- <- <- <-. exact (IH _ _ _ _ _ _ o E2 Ht Hl).
  - apply (IH _ _ _ _ _ _ o Hr); [|exact Hlim]. destruct o as [[]|]; exact Ht.
Qed.

(** C39: The heartbeat never fails silently. The publisher ends the process
    exactly when the failures since the last heartbeat sent, and since the
    last panic of its loop, reach the limit, whatever its ticks see; attempts
    its own stop interrupted do not count. And it reads as publishing exactly
    when the latest attempt that came to something was sent, no longer than
    three intervals ago. *)
Theorem heartbeat_gives_up_exactly interval limit startedAt auth ticks c fatal s c' outs mono :
  NewPublisher interval limit startedAt auth = Ok p → run Marshal degraded p ticks newPubState c = (fatal, s, c', outs) →
  let seen := results ticks newPubState c in
  (fatal = true ↔ pb_failureLimit p ≤ streak 0 seen) ∧
  (Publishing p mono s = true ↔ ∃ m, latest None seen = Some (RSent m) ∧ timeBetween mono m ≤ wrap64 (3 * pb_interval p)).
Proof.
  intros Hn Hr seen. assert (0 < pb_failureLimit p) as Hlim.
  { unfold NewPublisher in Hn. destruct (interval <=? 0); [done|]. destruct (_ && _) in Hn; [done|]. injection Hn as <-. cbn. destruct (Z.leb_spec limit 0); unfold DefaultFailureLimit; lia. }
  destruct (run_spec ticks Hlim _ _ _ _ _ _ None Hr) as (H1 & H2 & H3); [done..|]. fold seen in H1, H3. cbn in H1. split.
  - rewrite H2, H1. apply Z.leb_le.
  - unfold Publishing. destruct (latest None seen) as [[m| | |]|]; cbn [tells] in H3.
    + destruct H3 as (-> & -> & ->). cbn. rewrite Z.leb_le. naive_solver.
    + rewrite H3, andb_false_r. naive_solver.
    + rewrite H3, andb_false_r. naive_solver.
    + rewrite H3, andb_false_r. naive_solver.
    + destruct H3 as [-> _]. cbn. naive_solver.
Qed.

(** Every heartbeat says what it should: it is dated by the signing clock,
    it reports degraded while the clock's mark cannot be written and healthy
    only when one was published before and the provider is healthy, its uptime
    is zero or large enough to be written the same way by every peer, and,
    where the gateway authenticates, it carries the signature of its own
    members at its own time. *)
Theorem heartbeat_payload_is_true a s c fatal s1 c1 payload :
  publishOnce Marshal degraded p a s c = (fatal, s1, c1, Some payload) → 0 ≤ at_now a - pb_startedAt p ≤ i64_max →
  ∃ ts beat members, NextAt (at_wall a) c = (Ok ts, c1) ∧ beat = buildBeat degraded p a s ts c1 ∧
    (bt_Status beat = StatusHealthy → degraded c1 = false ∧ ps_everPublished s = true ∧ at_healthy a = true) ∧
    (degraded c1 = true → bt_Status beat = StatusDegraded) ∧
    ((∃ z, bt_UptimeS beat = S754_zero z) ∨ (999 # 1000000 <= val (bt_UptimeS beat))%Q) ∧
    (if ha_Enabled (pb_auth p) then
       ∃ auth unsigned, beatMembers beat = Some unsigned ∧ Sign Marshal (toMap unsigned) HeartbeatMessageType "" "" ts (TrimSpace (ha_SharedSecret (pb_auth p))) = Ok auth ∧
         beatMembers (withBeatAuth auth beat) = Some members
     else beatMembers beat = Some members) ∧ payload = print (JObj members).
Proof.
  intros Hp Hu. unfold publishOnce in Hp. destruct (at_ended a); [done|]. destruct (buildPayload Marshal degraded p a s c) as [[pl|err] c2] eqn:Eb;
    [|destruct (at_stopping a); [|destruct (recordFailure p s)]; discriminate Hp].
  assert (c2 = c1 ∧ pl = payload) as [-> ->] by (destruct (at_sent a); [|destruct (at_stopping a); [|destruct (recordFailure p s)]]; injection Hp; by intros).
  unfold buildPayload in Eb. destruct (NextAt (at_wall a) c) as [[ts|err] c3] eqn:En; [|done]. cbv zeta in Eb.
  assert (c3 = c1) as -> by (destruct (ha_Enabled (pb_auth p)); [destruct (SignHeartbeat _ _ _)|]; by injection Eb).
  set (beat := buildBeat degraded p a s ts c1) in *.
  assert ((bt_Status beat = StatusHealthy → degraded c1 = false ∧ ps_everPublished s = true ∧ at_healthy a = true) ∧ (degraded c1 = true → bt_Status beat = StatusDegraded)) as [S1 S2].
  { unfold beat, buildBeat, status. cbn [bt_Status]. destruct (degraded c1), (ps_everPublished s), (at_healthy a); cbn; done. }
  assert ((∃ z, bt_UptimeS beat = S754_zero z) ∨ (999 # 1000000 <= val (bt_UptimeS beat))%Q) as S3 by (destruct (uptime_readable p (at_now a) Hu) as [?|[_ ?]]; auto).
  destruct (ha_Enabled (pb_auth p)) eqn:Ea.
  - destruct (SignHeartbeat Marshal beat (ha_SharedSecret (pb_auth p))) as [signed|] eqn:Es; [|done]. unfold SignHeartbeat in Es. cbv zeta in Es.
    destruct (bool_decide _) in Es; [done|]. destruct (_ <=? _) in Es; [done|]. destruct (beatMembers beat) as [unsigned|] eqn:Em; [|done].
    destruct (Sign _ _ _ _ _ _ _) as [auth|] eqn:Eg in Es; [|done]. injection Es as <-. unfold marshalBeat in Eb. destruct (beatMembers (withBeatAuth auth beat)) as [members|] eqn:Ew; [|done].
    injection Eb as <-. exists ts, beat, members. split_and!; eauto.
  - unfold marshalBeat in Eb. destruct (beatMembers beat) as [members|] eqn:Ew; [|done]. injection Eb as <-. exists ts, beat, members. split_and!; eauto.
Qed.
End Publisher.

(** ** Samples *)
Definition sampleAuth : AuthConfig := MkHeartbeatAuth true "secret".
Definition samplePublisher : Publisher := MkPublisher 30000000000 5 0 sampleAuth.
Definition sampleClock : SigningClock * list (res unit) := (NewSigningClock, []).
Definition sampleAttempt (sent : bool) : attempt := MkAttempt false 35000 1000 "echo" true (MkSIMStatus false None) None false sent 7.
Definition sampleMarshal (_ : gmap string json) : res string := Ok "{}".
Definition clockDegraded (c : SigningClock * list (res unit)) : bool := Degraded c.1.
Definition sampleTicks : list tick := Attempt (sampleAttempt true) :: repeat (Attempt (sampleAttempt false)) 5.

Lemma heartbeat_gives_up_exactly_witness : (run sampleMarshal clockDegraded samplePublisher sampleTicks newPubState sampleClock).1.1.1 = true.
Proof.
  destruct (run sampleMarshal clockDegraded samplePublisher sampleTicks newPubState sampleClock) as [[[fatal s] c'] outs] eqn:E.
  destruct (heartbeat_gives_up_exactly sampleMarshal clockDegraded samplePublisher 30000000000 5 0 sampleAuth sampleTicks sampleClock fatal s c' outs 7) as [H _].
  - vm_compute. reflexivity.
  - exact E.
  - apply H. vm_compute. discriminate.
Defined.

Lemma heartbeat_payload_is_true_witness : ∃ ts c1, NextAt 1000 sampleClock = (Ok ts, c1).
Proof.
  destruct (publishOnce sampleMarshal clockDegraded samplePublisher (sampleAttempt true) newPubState sampleClock) as [[[fatal s1] c1] out] eqn:E.
  destruct out as [payload|]; [|exfalso; vm_compute in E; discriminate E].
  destruct (heartbeat_payload_is_true sampleMarshal clockDegraded samplePublisher (sampleAttempt true) newPubState sampleClock fatal s1 c1 payload E) as (ts & beat & members & Hn & _).
  - vm_compute. split; discriminate.
  - exists ts, c1. exact Hn.
Defined.
End HeartbeatSpec.
