(* ===== verification/Process.v ===== *)
(** * The process's own decisions (cmd/ori-gateway/app.go)

    The secrets it reads from the environment, the posture debouncer, the
    escalation on undelivered replies, the end of a supervised runner, the
    wait for the signing clock's outstanding write, and the views the site
    projection is given. [Getenv] is the environment. *)
From S2P Require Import Prelude GoBytes Json Float64 Routing Queue Contracts BrokerIngress Worker Status Site ExportData HealthRead Heartbeat RequestPool Webhook Config.

Module Process.
Import Config.
Import Queue (laneName).
Import Site (SiteNodePosture, MkPosture, MkBrokerPosture, MkEncryptionPosture, MkOutboxPosture).
Import ExportData (hs_Status, hs_GatewayBrokerPosture, hs_StateStoreEncryption, hs_AlertOutbox).

Definition defaultRequestFailureLimit : Z := 5.
Definition defaultStateQuiescenceBound : Z := 5 * Worker.Second.

(** ** Secrets *)
Record gatewayAuthSecrets := MkSecrets { gs_Enabled : bool; gs_CurrentSecret : string; gs_PreviousSecret : string }.

Definition heartbeatAuthFromSecrets (s : gatewayAuthSecrets) : Heartbeat.AuthConfig :=
  if gs_Enabled s then Heartbeat.MkHeartbeatAuth true (gs_CurrentSecret s) else Heartbeat.MkHeartbeatAuth false "".

Record resolvedEvidenceChannel := MkChannelSecrets { rc_endpoint : string; rc_clientID : string; rc_secret : string }.

(** The message authentication and the encryption secret the runtime client
    is given. *)
Record runtimeClientOptions := MkClientOptions { co_auth : option (string * string); co_encryption : option string }.

Definition runtimeClientOptionsFromSecrets (encryption : bool) (s : gatewayAuthSecrets) : res runtimeClientOptions :=
  if negb (gs_Enabled s) then if encryption then Err (EMsg "gateway.encryption.enabled requires gateway.auth.enabled") else Ok (MkClientOptions None None)
  else Ok (MkClientOptions (Some (gs_CurrentSecret s, gs_PreviousSecret s)) (if encryption then Some (gs_CurrentSecret s) else None)).

Section Environment.
Context (Getenv : string → string).

Definition gatewayAuthSecretsFromConfig (auth : GatewayAuthConfig) : res gatewayAuthSecrets :=
  if negb (ga_Enabled auth) then Ok (MkSecrets false "" "")
  else
    let trimmedEnv := TrimSpace (ga_SharedSecretEnv auth) in
    let envName := if bool_decide (trimmedEnv = "") then DefaultGatewayAuthSecretEnv else trimmedEnv in
    let secret := TrimSpace (Getenv envName) in
    if bool_decide (secret = "") then Err (EMsg "gateway.auth.enabled is true but the environment variable is empty")
    else
      let previousEnv := TrimSpace (ga_PreviousSharedSecretEnv auth) in
      if bool_decide (previousEnv = "") then Ok (MkSecrets true secret "")
      else
        let previousSecret := TrimSpace (Getenv previousEnv) in
        if bool_decide (previousSecret = "") then Err (EMsg "gateway.auth.previous_shared_secret_env is set but the environment variable is empty")
        else if bool_decide (previousSecret = secret) then
          Err (EMsg "gateway.auth.previous_shared_secret_env must reference a secret different from gateway.auth.shared_secret_env")
        else Ok (MkSecrets true secret previousSecret).

Definition isEnvelopeSecret (secret : string) (envelope : gatewayAuthSecrets) : bool :=
  bool_decide (secret = gs_CurrentSecret envelope) || (negb (bool_decide (gs_PreviousSecret envelope = "")) && bool_decide (secret = gs_PreviousSecret envelope)).

Definition resolveCustodySecret (secretEnv : string) (envelope : gatewayAuthSecrets) : res string :=
  let envName := TrimSpace secretEnv in
  if bool_decide (envName = "") then Ok ""
  else
    let secret := Getenv envName in
    if bool_decide (secret = "") then Err (EMsg "gateway.custody.secret_env names an environment variable that is empty")
    else if isEnvelopeSecret secret envelope then
      Err (EMsg "gateway.custody.secret_env resolves to a runtime-gateway envelope secret; custody requires key material of its own")
    else Ok secret.

Definition resolveEvidenceChannel (cfg : EvidenceConfig) (envelope : gatewayAuthSecrets) (custodySecret : string) : res resolvedEvidenceChannel :=
  let endpoint := TrimSpace (Getenv (ev_EndpointEnv cfg)) in
  let clientID := TrimSpace (Getenv (ev_ClientIDEnv cfg)) in
  let secret := Getenv (ev_SecretEnv cfg) in
  if bool_decide (endpoint = "") || bool_decide (clientID = "") || bool_decide (secret = "") then Err (EMsg "evidence environment variable is empty")
  else if negb (bool_decide (TrimSpace secret = secret)) then Err (EMsg "evidence ingest secret carries surrounding whitespace")
  else if bool_decide (secret = custodySecret) || isEnvelopeSecret secret envelope then
    Err (EMsg "evidence ingest secret must be distinct from custody and MQTT envelope secrets")
  else Ok (MkChannelSecrets endpoint clientID secret).
End Environment.

(** ** The posture debouncer *)
Record postureDebouncer := MkDebouncer { pd_inflight : gset string; pd_closed : bool; pd_running : Z }.
Definition newPostureDebouncer : postureDebouncer := MkDebouncer ∅ false 0.

Definition tryStart (deviceID : string) (d : postureDebouncer) : bool * postureDebouncer :=
  if pd_closed d || bool_decide (deviceID ∈ pd_inflight d) then (false, d)
  else (true, MkDebouncer ({[deviceID]} ∪ pd_inflight d) (pd_closed d) (pd_running d + 1)).
(** [done] leaves the lock before it leaves the wait group. *)
Definition doneLocked (deviceID : string) (d : postureDebouncer) : postureDebouncer := MkDebouncer (pd_inflight d ∖ {[deviceID]}) (pd_closed d) (pd_running d).
Definition doneWait (d : postureDebouncer) : postureDebouncer := MkDebouncer (pd_inflight d) (pd_closed d) (pd_running d - 1).
Definition refusePosture (d : postureDebouncer) : postureDebouncer := MkDebouncer (pd_inflight d) true (pd_running d).

(** ** The decision to stop *)
Record stopState := MkStop { st_callbacks : RequestPool.callbackGate; st_webhook : RequestPool.callbackGate; st_posture : postureDebouncer; st_signing : bool; st_cancelled : bool }.
Definition decide_ (s : stopState) : stopState :=
  MkStop (RequestPool.refuse (st_callbacks s)) (RequestPool.refuse (st_webhook s)) (refusePosture (st_posture s)) false true.

(** ** The escalation on replies that were not delivered

    [ended] is whether the run's context has ended, [closed] whether the cause
    is the closed signing clock. *)
Record escalation := MkEscalation { es_failures : Z; es_recorded : option error; es_stopped : bool }.

Definition onReasoningResult (ended closed : bool) (r : res unit) (s : escalation) : escalation :=
  match r with
  | Ok _ => MkEscalation 0 (es_recorded s) (es_stopped s)
  | Err (ErrPublishResponse cause) =>
    if ended || closed then s
    else
      let failures := es_failures s + 1 in
      if defaultRequestFailureLimit <=? failures then MkEscalation failures (Some (default (ErrPublishResponse cause) (es_recorded s))) true
      else MkEscalation failures (es_recorded s) (es_stopped s)
  | Err _ => s
  end.

(** ** Supervised runners

    What a runner's own end reports to its group: nothing when it was
    cancelled or the group's context had ended. *)
Definition runnerEnd (name : string) (canceled ended : bool) (r : res unit) : res unit :=
  if canceled || ended then Ok tt
  else match r with
  | Err e => Err e
  | Ok _ => Err (EMsg (name +:+ " stopped unexpectedly"))
  end.

(** ** The wait for the outstanding write

    [idle] is when the write ended, if it did, and [looked] when the wait,
    its deadline passed, looks once more: no sooner than the bound after the
    stop was decided. *)
Definition quiescenceWarningLead (bound : Z) : Z := Z.min (100 * Worker.Millisecond) (Z.quot bound 10).
Definition awaitQuiescence (looked : Z) (idle : option Z) : bool :=
  match idle with Some t => t <=? looked | None => false end.
Definition warnsAt (bound started : Z) : Z := started + (bound - quiescenceWarningLead bound).

(** What becomes of the state directory: released, or left to the process's
    end. *)
Inductive disposal := Released | Abandoned.
Definition disposeState (looked : Z) (idle : option Z) : disposal := if awaitQuiescence looked idle then Released else Abandoned.

(** ** What the site projection is given *)
Definition siteExportSeverity (status : string) : string :=
  if bool_decide (status = HealthRead.HealthStatusOK) then Site.ExportSeverityOK
  else if bool_decide (status = HealthRead.HealthStatusDegraded) then Site.ExportSeverityDegraded
  else if bool_decide (status = HealthRead.HealthStatusCritical) then Site.ExportSeverityCritical
  else Site.ExportSeverityUnknown.

Definition sitePostureFromHealth (h : ExportData.HealthSnapshot) : SiteNodePosture :=
  MkPosture (siteExportSeverity (hs_Status h))
    ((λ b, MkBrokerPosture (ExportData.gb_Available b) (ExportData.gb_GatewayEnabled b) (ExportData.gb_DeploymentCheck b) (ExportData.gb_AnonymousAccess b) (ExportData.gb_ACLPolicy b)
        (ExportData.gb_RequireCredentials b) (ExportData.gb_CredentialsConfigured b) (ExportData.gb_RequiresACLHardening b)) <$> hs_GatewayBrokerPosture h)
    ((λ e, MkEncryptionPosture (ExportData.se_Available e) (ExportData.se_Mode e) (ExportData.se_Satisfied e) (ExportData.se_MarkerConfigured e) (ExportData.se_PathPrefixConfigured e))
       <$> hs_StateStoreEncryption h)
    ((λ a, MkOutboxPosture (ExportData.ao_Available a) (ExportData.ao_BacklogCount a) (ExportData.ao_OldestQueuedOriginalMS a) (ExportData.ao_OldestQueuedAgeMS a)
        (ExportData.ao_RetryIntervalMinutes a) (ExportData.ao_MaxNonTierDAttempts a) (ExportData.ao_TierDCriticalWarningThreshold a) (ExportData.ao_BatchSize a)) <$> hs_AlertOutbox h).

(** A fetch's effect on the registry. *)
Definition fetchAndUpsertPosture (deviceID : string) (snapshot : res ExportData.HealthSnapshot) (r : Site.Registry) : Site.Registry :=
  match snapshot with Err _ => r | Ok h => Site.UpsertPosture deviceID (sitePostureFromHealth h) r end.

Record GatewayEvidenceDeliveryHeld := MkHeldView {
  gh_QueueRecord : string; gh_ArtifactDigest : string; gh_ArtifactType : string; gh_RefusalStatus : Z; gh_Reason : string; gh_FirstHeldAtMS : Z; gh_Acknowledged : bool }.
Record GatewayEvidenceDeliveryDevice := MkDeviceView { gd_DeviceID : string; gd_Lane : string; gd_Pending : Z; gd_State : string; gd_Held : option GatewayEvidenceDeliveryHeld }.
Record GatewayEvidenceDeliveryView := MkFullDeliveryView {
  ge_Pending : Z; ge_Degraded : bool; ge_Blocked : bool; ge_LastFailureAtMS : Z; ge_LastError : string; ge_Faults : list string; ge_Devices : list GatewayEvidenceDeliveryDevice }.

(** [UnixMilli] of a time in nanoseconds. *)
Definition unixMilli (t : Z) : Z := t / 1000000.

Definition evidenceDeliveryView (status : Status.DeliveryStatus) : GatewayEvidenceDeliveryView :=
  MkFullDeliveryView (Status.d_Pending status) (Status.d_Degraded status) (Status.d_Blocked status)
    (if Status.d_LastFailureAt status =? Worker.zeroTime then 0 else unixMilli (Status.d_LastFailureAt status)) (Status.d_LastError status) (Status.d_Faults status)
    ((λ device, MkDeviceView (Status.ds_DeviceID device) (laneName (Status.ds_Lane device)) (Status.ds_Pending device) (Status.ds_State device)
        ((λ h, MkHeldView (Status.hs_QueueRecord h) (Status.hs_ArtifactDigest h) (Status.hs_ArtifactType h) (Status.hs_RefusalStatus h) (Status.hs_Reason h)
            (unixMilli (Status.hs_FirstHeldAt h)) (Status.hs_Acknowledged h)) <$> Status.ds_Held device)) <$> Status.d_Devices status).

Definition mqttIngressView (s : BrokerIngress.IngressStats) : gmap string Site.MQTTIngressCount :=
  (λ c, Site.MkIngressCount (BrokerIngress.ic_PayloadTooLarge c) (BrokerIngress.ic_VolumeDropped c)) <$> BrokerIngress.Snapshot s.

(** The gateway's view: its status and the members the projection reads. *)
Definition gatewayView (providerHealthy clockDegraded publishing : bool) (delivery : option GatewayEvidenceDeliveryView) (s : BrokerIngress.IngressStats) : Site.GatewayView :=
  let impaired := match delivery with Some d => ge_Degraded d || ge_Blocked d | None => false end in
  Site.MkGatewayView (if negb providerHealthy || clockDegraded || negb publishing || impaired then "degraded" else "healthy")
    ((λ d, Site.MkDeliveryView (ge_Pending d) (ge_Degraded d) (ge_Blocked d)) <$> delivery) (mqttIngressView s).

Definition webhookBridgePostureProbe (cfg : WebhookBridgeConfig) (ready : bool) : option Heartbeat.WebhookBridgePosture :=
  if negb (wb_Enabled cfg) then None
  else
    let count := Z.of_nat (length (wb_ProviderSourceCIDRs cfg)) in
    Some (Heartbeat.MkBridgePosture true ready (count =? 0) (0 <? count) count (negb (bool_decide (wb_TargetURL cfg = ""))) (wb_MaxBodyBytes cfg) (wb_RequestTimeoutMS cfg)).
End Process.
