(* ===== verification/ProcessSpec.v ===== *)
(** * What the process's own decisions promise

    Secrets that are never shared between purposes, an escalation that only
    undelivered replies bring about, posture fetches that never pile up and are
    all joined, and a site projection that reads healthy only when the
    gateway's own parts do. *)
From S2P Require Import Prelude GoBytes Json Float64 Queue Contracts BrokerIngress Worker Status Site SiteSpec ExportData HealthRead Heap Replay MqttAuth Returns StateClock Requests Dispatcher Heartbeat RequestPool Webhook Config Process.

Module ProcessSpec.
Import Config Process.

(** ** Secrets *)
Lemma isEnvelopeSecret_false secret s : isEnvelopeSecret secret s = false → secret ≠ gs_CurrentSecret s ∧ (gs_PreviousSecret s ≠ "" → secret ≠ gs_PreviousSecret s).
Proof.
  unfold isEnvelopeSecret. intros [H1 H2]%orb_false_iff. apply bool_decide_eq_false in H1. split; [done|]. intros Hp.
  rewrite bool_decide_eq_false_2 in H2 by done. by apply bool_decide_eq_false in H2.
Qed.

Lemma authSecrets_ok env auth s : gatewayAuthSecretsFromConfig env auth = Ok s → ga_Enabled auth = true →
  gs_Enabled s = true ∧ gs_CurrentSecret s ≠ "" ∧ gs_PreviousSecret s ≠ gs_CurrentSecret s.
Proof.
  unfold gatewayAuthSecretsFromConfig. intros H E. rewrite E in H. cbn [negb] in H. cbv zeta in H.
  set (env1 := if bool_decide (TrimSpace (ga_SharedSecretEnv auth) = "") then _ else _) in H. destruct (bool_decide (TrimSpace (env env1) = "")) eqn:E1; [done|]. apply bool_decide_eq_false in E1.
  destruct (bool_decide (TrimSpace (ga_PreviousSharedSecretEnv auth) = "")); [injection H as <-; cbn; auto|].
  destruct (bool_decide (_ = "")) in H; [done|]. destruct (bool_decide (_ = TrimSpace (env env1))) eqn:E2 in H; [done|]. apply bool_decide_eq_false in E2. injection H as <-. done.
Qed.

(** No secret does two jobs. When the envelope, custody and ingest secrets
    of a gateway that authenticates and carries evidence all resolve, the
    current one, the previous one if there is one, the custody one and the
    ingest one are pairwise different bytes and none is empty, whatever the
    variables that hold them are called. *)
Theorem secrets_are_separate env auth custodyEnv cfg s custodySecret channel :
  ga_Enabled auth = true → gatewayAuthSecretsFromConfig env auth = Ok s → resolveCustodySecret env custodyEnv s = Ok custodySecret → custodySecret ≠ "" →
  resolveEvidenceChannel env cfg s custodySecret = Ok channel →
  let secrets := [gs_CurrentSecret s; custodySecret; rc_secret channel] ++ (if bool_decide (gs_PreviousSecret s = "") then [] else [gs_PreviousSecret s]) in
  NoDup secrets ∧ "" ∉ secrets.
Proof.
  intros He Ha Hc Hn Hr secrets. destruct (authSecrets_ok _ _ _ Ha He) as (_ & A1 & A2).
  unfold resolveCustodySecret in Hc. cbv zeta in Hc. destruct (bool_decide (TrimSpace custodyEnv = "")); [by injection Hc as <-|]. destruct (bool_decide (_ = "")) in Hc; [done|].
  destruct (isEnvelopeSecret (env (TrimSpace custodyEnv)) s) eqn:E1; [done|]. injection Hc as Hc. rewrite Hc in E1. apply isEnvelopeSecret_false in E1 as [C1 C2].
  unfold resolveEvidenceChannel in Hr. cbv zeta in Hr. destruct (_ || _) eqn:E2 in Hr; [done|]. apply orb_false_iff in E2 as [_ E2]. apply bool_decide_eq_false in E2.
  destruct (negb _) in Hr; [done|]. destruct (_ || isEnvelopeSecret _ _) eqn:E3 in Hr; [done|]. injection Hr as <-. apply orb_false_iff in E3 as [E3 E4]. apply bool_decide_eq_false in E3.
  apply isEnvelopeSecret_false in E4 as [R1 R2]. unfold secrets. cbn [rc_secret]. destruct (bool_decide (gs_PreviousSecret s = "")) eqn:Ep.
  - cbn [app]. split; [repeat constructor; set_solver|set_solver].
  - apply bool_decide_eq_false in Ep. specialize (C2 Ep). specialize (R2 Ep). cbn [app]. split; [repeat constructor; set_solver|set_solver].
Qed.

(** ** The escalation *)
Record reply := MkReply { rl_ended : bool; rl_closed : bool; rl_result : res unit }.
Definition noEscalation : escalation := MkEscalation 0 None false.
Definition escalate (l : list reply) : escalation := foldl (λ s x, onReasoningResult (rl_ended x) (rl_closed x) (rl_result x) s) noEscalation l.

(** A reply the broker did not take while the run went on. *)
Definition undelivered (x : reply) : bool := match rl_result x with Err (ErrPublishResponse _) => negb (rl_ended x || rl_closed x) | _ => false end.
Definition delivered (x : reply) : bool := match rl_result x with Ok _ => true | Err _ => false end.
Definition runOf (n : Z) (x : reply) : Z := if delivered x then 0 else if undelivered x then n + 1 else n.
Definition inARow (l : list reply) : Z := foldl runOf 0 l.

Lemma onReasoningResult_spec x s : let s' := onReasoningResult (rl_ended x) (rl_closed x) (rl_result x) s in
  es_failures s' = runOf (es_failures s) x ∧
  (es_stopped s' = es_stopped s || (undelivered x && (defaultRequestFailureLimit <=? es_failures s'))) ∧
  (es_stopped s' = true → es_stopped s = true ∨ es_recorded s' ≠ None) ∧ (es_recorded s ≠ None → es_recorded s' ≠ None).
Proof.
  unfold onReasoningResult, runOf, undelivered, delivered. destruct x as [e c [u|err]]; cbn [rl_ended rl_closed rl_result].
  - cbn. rewrite orb_false_r. auto.
  - destruct err; cbn [es_failures es_stopped]; rewrite ?orb_false_r; try (by split_and!; auto). destruct (e || c); cbn [negb andb]; rewrite ?orb_false_r; [by split_and!; auto|].
    destruct (defaultRequestFailureLimit <=? es_failures s + 1) eqn:El; cbn [es_failures es_stopped es_recorded]; rewrite ?El, ?orb_true_r, ?orb_false_r; split_and!; auto.
Qed.

(** Only replies that could not be delivered end the gateway: the stop is
    decided exactly when, at some point, five replies in a row, counting
    neither refused requests nor what the stop itself interrupted, were not
    taken; whenever it is decided the cause is recorded. *)
Theorem escalates_on_undelivered_replies l :
  (es_stopped (escalate l) = true ↔ ∃ pre suf, l = pre ++ suf ∧ defaultRequestFailureLimit ≤ inARow pre) ∧
  (es_stopped (escalate l) = true → es_recorded (escalate l) ≠ None) ∧ es_failures (escalate l) = inARow l.
Proof.
  induction l as [|x l (IH1 & IH2 & IH3)] using rev_ind.
  { cbn. split_and!; try done. split; [done|]. intros (pre & suf & H & Hl). symmetry in H. apply app_eq_nil in H as [-> _]. cbn in Hl. unfold defaultRequestFailureLimit in Hl. lia. }
  unfold escalate, inARow in *. rewrite !foldl_app. cbn [foldl]. set (s := foldl _ noEscalation l) in *. set (n := foldl runOf 0 l) in *.
  destruct (onReasoningResult_spec x s) as (H1 & H2 & H3 & H4). cbv zeta in *. set (s' := onReasoningResult _ _ _ s) in *. rewrite IH3 in H1. split_and!; [|intros Hs; destruct (H3 Hs); auto|done].
  rewrite H2, orb_true_iff, andb_true_iff, Z.leb_le, H1. split.
  - intros [Hs|[_ Hs]].
    + apply IH1 in Hs as (pre & suf & -> & Hl). exists pre, (suf ++ [x]). by rewrite app_assoc.
    + exists (l ++ [x]), []. rewrite app_nil_r. split; [done|]. unfold inARow. rewrite foldl_app. exact Hs.
  - intros (pre & suf & E & Hl). destruct suf as [|y suf _] using rev_ind.
    + rewrite app_nil_r in E. subst pre. unfold inARow in Hl. rewrite foldl_app in Hl. cbn [foldl] in Hl. fold n in Hl. destruct (undelivered x) eqn:Eu; [by right|]. left. apply IH1. exists l, []. rewrite app_nil_r. split; [done|].
      fold n. unfold runOf in Hl. rewrite Eu in Hl. destruct (delivered x); [unfold defaultRequestFailureLimit in *; lia|done].
    + left. apply IH1. rewrite app_assoc in E. apply app_inj_tail in E as [-> _]. by exists pre, suf.
Qed.

(** ** Posture fetches

    A fetch runs, then gives its device up, then leaves. *)
Inductive fetch := Fetching (device : string) | Leaving.
Record fetches := MkFetches { f_debouncer : postureDebouncer; f_running : list fetch }.

Inductive fstep : fetches → fetches → Prop :=
| F_start c device d' : tryStart device (f_debouncer c) = (true, d') → fstep c (MkFetches d' (Fetching device :: f_running c))
| F_done c l1 device l2 : f_running c = l1 ++ Fetching device :: l2 → fstep c (MkFetches (doneLocked device (f_debouncer c)) (l1 ++ Leaving :: l2))
| F_leave c l1 l2 : f_running c = l1 ++ Leaving :: l2 → fstep c (MkFetches (doneWait (f_debouncer c)) (l1 ++ l2))
| F_refuse c : fstep c (MkFetches (refusePosture (f_debouncer c)) (f_running c)).

Definition devicesOf (l : list fetch) : list string := l ≫= λ f, match f with Fetching d => [d] | Leaving => [] end.

Record finv (c : fetches) : Prop := MkFinv {
  fi_running : pd_running (f_debouncer c) = Z.of_nat (length (f_running c));
  fi_once : NoDup (devicesOf (f_running c));
  fi_inflight d : d ∈ pd_inflight (f_debouncer c) ↔ d ∈ devicesOf (f_running c) }.

Lemma finv_step c c' : fstep c c' → finv c → finv c'.
Proof.
  intros H [I1 I2 I3]. destruct H as [c device d' Ht|c l1 device l2 E|c l1 l2 E|c]; [| | |by constructor].
  - unfold tryStart in Ht. destruct (_ || _) eqn:Eo; [done|]. injection Ht as <-. apply orb_false_iff in Eo as [_ Eo]. apply bool_decide_eq_false in Eo. rewrite I3 in Eo.
    constructor; cbn; [lia|by constructor|]. intros d. rewrite elem_of_union, I3, elem_of_singleton. set_solver.
  - rewrite E in *. unfold devicesOf in *. rewrite bind_app in I2, I3. cbn in I2, I3. constructor; cbn; unfold devicesOf; rewrite ?bind_app; cbn.
    + rewrite I1, !length_app. done.
    + apply NoDup_app in I2 as (N1 & N2 & N3). apply NoDup_cons in N3 as [_ N3]. apply NoDup_app. split; [done|]. split; [set_solver|done].
    + intros d. rewrite elem_of_difference, I3. apply NoDup_app in I2 as (_ & N2 & N3). apply NoDup_cons in N3 as [N3 _]. set_solver.
  - rewrite E in *. unfold devicesOf in *. rewrite bind_app in I2, I3. cbn in I2, I3. constructor; cbn; unfold devicesOf; rewrite ?bind_app; cbn.
    + rewrite I1, !length_app. cbn [length]. lia.
    + done.
    + done.
Qed.

(** Posture fetches never pile up and are all joined: at most one fetch of
    a device runs at a time; once the stop refuses them none starts; and what
    waits for them returns exactly when none is left. *)
Theorem posture_fetches_joined c :
  rtc fstep (MkFetches newPostureDebouncer []) c →
  NoDup (devicesOf (f_running c)) ∧ (pd_running (f_debouncer c) = 0 ↔ f_running c = []) ∧
  (pd_closed (f_debouncer c) = true → ∀ c', fstep c c' → pd_closed (f_debouncer c') = true ∧ (length (f_running c') ≤ length (f_running c))%nat).
Proof.
  intros H. assert (finv c) as [I1 I2 I3].
  { eapply (rtc_ind_r finv (MkFetches newPostureDebouncer [])); [split; [done|apply NoDup_nil_2|intros d; cbn; by rewrite elem_of_empty, elem_of_nil]| |exact H]. intros x y _ Hs. by apply finv_step. }
  split; [done|]. split; [rewrite I1; destruct (f_running c); cbn; [done|split; [lia|done]]|].
  intros Hc c' Hs. destruct Hs as [c device d' Ht|c l1 device l2 E|c l1 l2 E|c]; cbn; try (split; [done|]).
  - unfold tryStart in Ht. by rewrite Hc in Ht.
  - rewrite E, !length_app. cbn. lia.
  - rewrite E, !length_app. cbn. lia.
  - lia.
Qed.

(** ** The site's health *)
Lemma gatewayView_healthy provider clock publishing delivery stats :
  Site.gv_Status (gatewayView provider clock publishing delivery stats) = "healthy" ↔
  provider = true ∧ clock = false ∧ publishing = true ∧ (∀ d, delivery = Some d → ge_Degraded d = false ∧ ge_Blocked d = false).
Proof.
  unfold gatewayView. cbn [Site.gv_Status]. destruct provider, clock, publishing; cbn [negb orb]; try (split; [done|naive_solver]).
  destruct delivery as [d|]; [|split; [intros _; by split_and!|done]]. destruct (ge_Degraded d || ge_Blocked d) eqn:E.
  - split; [done|]. intros (_ & _ & _ & H). destruct (H d eq_refl) as [H1 H2]. by rewrite H1, H2 in E.
  - apply orb_false_iff in E. split; [|done]. intros _. split_and!; try done. by intros d' [= <-].
Qed.

(** C40: The site reads healthy exactly when all it rests on does: the reasoning
    provider is healthy, the signing clock's mark is being written, heartbeats
    are going out, the delivery worker's status is neither degraded nor
    blocked, and every configured node is observed, reports healthy, has moved
    within the TTL, has no export reading other than ok and shows no damaged
    chain. *)
Theorem site_health_is_truthful es r expected ttl nowMS mono provider clock pub beats (worker : option Status.DeliveryStatus) stats :
  SiteSpec.rsteps es Site.NewRegistry r →
  let view := gatewayView provider (StateClock.Degraded clock) (Heartbeat.Publishing pub mono beats) (evidenceDeliveryView <$> worker) stats in
  Site.sh_Status (Site.Project expected ttl nowMS mono view r) = "healthy" ↔
    provider = true ∧ StateClock.Degraded clock = false ∧ Heartbeat.Publishing pub mono beats = true ∧
    (∀ st, worker = Some st → Status.d_Degraded st = false ∧ Status.d_Blocked st = false) ∧ ∀ dev, dev ∈ expected → SiteSpec.allClear mono ttl r dev.
Proof.
  intros Hs view. rewrite (SiteSpec.healthy_means_all_clear es r expected ttl nowMS mono view Hs). unfold view at 1. rewrite gatewayView_healthy.
  assert ((∀ d, evidenceDeliveryView <$> worker = Some d → ge_Degraded d = false ∧ ge_Blocked d = false) ↔ (∀ st, worker = Some st → Status.d_Degraded st = false ∧ Status.d_Blocked st = false)) as Hw.
  { destruct worker as [st|]; cbn; [|naive_solver]. split; [intros H st' [= <-]; by apply (H _ eq_refl)|intros H d [= <-]; by apply (H _ eq_refl)]. }
  rewrite Hw. split; [intros ((H1 & H2 & H3 & H4) & _ & H5); auto|]. intros (H1 & H2 & H3 & H4 & H5). split; [auto|]. split; [|done].
  intros d. unfold view, gatewayView. cbn. destruct worker as [st|]; cbn; [|done]. intros [= <-]. unfold Site.deliveryImpaired. cbn. destruct (H4 st eq_refl) as [-> ->]. done.
Qed.

(** ** Samples *)
Definition sampleEnv (name : string) : string :=
  if bool_decide (name = "GATEWAY_SHARED_SECRET") then "one" else if bool_decide (name = "CUSTODY") then "two" else if bool_decide (name = "INGEST") then "three" else "x".
Definition sampleEvidence : EvidenceConfig := MkEvidence true "/q" "/r" 10 10 5 5 300 900 "ENDPOINT" "CLIENT" "INGEST" "" ∅.

Lemma secrets_are_separate_witness : NoDup ["one"; "two"; "three"].
Proof.
  destruct (secrets_are_separate sampleEnv (MkAuth true "" "") "CUSTODY" sampleEvidence (MkSecrets true "one" "") "two" (MkChannelSecrets "x" "x" "three")) as [H _];
    [reflexivity|vm_compute; reflexivity|vm_compute; reflexivity|discriminate|vm_compute; reflexivity|exact H].
Defined.

Definition samplePosture : fetches := MkFetches (tryStart "pump-1" newPostureDebouncer).2 [Fetching "pump-1"].

Lemma posture_fetches_joined_witness : NoDup (devicesOf (f_running samplePosture)).
Proof.
  assert (rtc fstep (MkFetches newPostureDebouncer []) samplePosture) as H.
  { apply rtc_once. refine (F_start (MkFetches newPostureDebouncer []) "pump-1" (tryStart "pump-1" newPostureDebouncer).2 _). reflexivity. }
  destruct (posture_fetches_joined samplePosture H) as [N _]. exact N.
Defined.

Definition sampleBeats : Heartbeat.pubState := Heartbeat.MkPubState true false 900 0.
Definition sampleBeater : Heartbeat.Publisher := Heartbeat.MkPublisher 30000000000 5 0 (Heartbeat.MkHeartbeatAuth false "").

Lemma site_health_is_truthful_witness :
  Site.sh_Status (Site.Project ["pump-1"] 90000000000 5000 1000 (gatewayView true (StateClock.Degraded StateClock.NewSigningClock) (Heartbeat.Publishing sampleBeater 1000 sampleBeats) None BrokerIngress.NewIngressStats) SiteSpec.exHealthy) = "healthy".
Proof.
  assert (SiteSpec.rsteps [SiteSpec.Beat 5000 0 (SiteSpec.exNode "healthy" "aa" 5000)] Site.NewRegistry SiteSpec.exHealthy) as Hs by (repeat econstructor).
  apply (site_health_is_truthful _ SiteSpec.exHealthy ["pump-1"] 90000000000 5000 1000 true StateClock.NewSigningClock sampleBeater sampleBeats None BrokerIngress.NewIngressStats Hs).
  split; [reflexivity|]. split; [reflexivity|]. split; [vm_compute; reflexivity|]. split; [discriminate|]. intros dev H. apply list_elem_of_singleton in H as ->.
  eexists. split; [vm_compute; reflexivity|]. split; [reflexivity|]. split; [vm_compute; reflexivity|]. split; [left; vm_compute; reflexivity|]. intros e [= <-]. vm_compute. reflexivity.
Defined.
End ProcessSpec.
