(* ===== verification/Trust.v ===== *)
(** * The authority's trust roots (evidence/courier/trust.go, trust_unix.go, trust_other.go)

    The bundle's path is checked component by component up to the root, the
    file that was opened must be the file that was checked, and its contents
    must be CA certificates and nothing else. What the file system answers is
    an input, call by call, since it may change between calls; [pem.Decode]
    and [x509.ParseCertificate] are parameters. *)
From S2P Require Import Prelude GoBytes Contracts Config ConfigSpec.

Module Trust.
Import Contracts Config ConfigSpec.

Definition maxAuthorityTrustBytes : Z := 1048576.

(** [fi_owner] is [fileOwner]'s: none where the platform has no owners.
    [fi_id] tells files apart, as [os.SameFile] does. *)
Record fileInfo := MkInfo { fi_symlink : bool; fi_regular : bool; fi_perm : Z; fi_owner : option Z; fi_id : Z * Z }.

(** [filepath.Dir] on Unix: what is left of the last slash, cleaned. *)
Fixpoint uptoSlash (s : string) : option string :=
  match s with
  | EmptyString => None
  | String c r => match uptoSlash r with Some d => Some (String c d) | None => if Ascii.eqb c slash then Some (String c "") else None end
  end.
Definition Dir (path : string) : string := Clean (default "" (uptoSlash path)).

Section Path.
Context (lstat : nat → string → option fileInfo) (trustedOwner : Z).

(** The checks of one component; [first] is the bundle itself. *)
Definition checkComponent (first : bool) (answer : option fileInfo) : res fileInfo :=
  match answer with
  | None => Err (EMsg "evidence: authority CA bundle: lstat")
  | Some info =>
    if fi_symlink info then Err (EMsg "evidence: authority CA bundle path component is a symlink")
    else if first && negb (fi_regular info) then Err (EMsg "evidence: authority CA bundle must be a regular file")
    else if negb (Z.land (fi_perm info) 18 =? 0) then Err (EMsg "evidence: authority CA bundle path component is writable by group or others")
    else match fi_owner info with
    | None => Err (EMsg "evidence: authority CA bundle owner cannot be determined on this platform")
    | Some owner => if negb (owner =? 0) && negb (owner =? trustedOwner) then Err (EMsg "evidence: authority CA bundle path component is owned by an untrusted user") else Ok info
    end
  end.

(** [i] counts the calls; the fuel is the number of components and is never
    used up, [checkTrustPath_spec]. *)
Fixpoint checkFrom (fuel i : nat) (component : string) (bundle : option fileInfo) : res fileInfo :=
  match fuel with
  | O => Err (EMsg "out of components")
  | S fuel' =>
    match checkComponent (negb (bool_decide (is_Some bundle))) (lstat i component) with
    | Err e => Err e
    | Ok info =>
      let bundle := default info bundle in
      let parent := Dir component in
      if bool_decide (parent = component) then Ok bundle else checkFrom fuel' (S i) parent (Some bundle)
    end
  end.
Definition checkTrustPath (path : string) : res fileInfo := checkFrom (S (length (split slash path))) 0 path None.
End Path.

(** ** The bundle's contents *)
Record certificate := MkCert { ct_BasicConstraintsValid : bool; ct_IsCA : bool; ct_raw : string }.
Record pemBlock := MkBlock { pb_Type : string; pb_Bytes : string }.

Section Bundle.
Context (pemDecode : string → option (pemBlock * string)) (ParseCertificate : string → option certificate).

Fixpoint parseBlocks (fuel : nat) (pool : list certificate) (rest : string) : res (list certificate) :=
  match fuel with
  | O => Err (EMsg "out of blocks")
  | S fuel' =>
    match pemDecode rest with
    | None =>
      if negb (bool_decide (TrimSpace rest = "")) then Err (EMsg "evidence: authority CA bundle carries data that is not a PEM certificate")
      else if bool_decide (pool = []) then Err (EMsg "evidence: authority CA bundle holds no certificate") else Ok pool
    | Some (block, rest') =>
      if negb (bool_decide (pb_Type block = "CERTIFICATE")) then Err (EMsg "evidence: authority CA bundle holds a block; only CA certificates belong there")
      else match ParseCertificate (pb_Bytes block) with
      | None => Err (EMsg "evidence: authority CA bundle: certificate")
      | Some cert => if negb (ct_BasicConstraintsValid cert) || negb (ct_IsCA cert) then Err (EMsg "evidence: authority CA bundle: certificate is not a CA")
                     else parseBlocks fuel' (pool ++ [cert]) rest'
      end
    end
  end.
Definition parseAuthorityTrust (data : string) : res (list certificate) := parseBlocks (S (String.length data)) [] data.

(** [opened] is what the opened file is, [content] what was read of it, up to
    a byte past the limit. *)
Definition LoadAuthorityTrust (lstat : nat → string → option fileInfo) (opened : option fileInfo) (content : option string) (path : string) (trustedOwner : Z) : res (list certificate) :=
  if negb (IsAbs path) || negb (bool_decide (Clean path = path)) then Err (EMsg "evidence: authority CA bundle path must be absolute and clean")
  else match checkTrustPath lstat trustedOwner path with
  | Err e => Err e
  | Ok info =>
    match opened with
    | None => Err (EMsg "evidence: authority CA bundle: open")
    | Some now =>
      if negb (bool_decide (fi_id info = fi_id now)) then Err (EMsg "evidence: authority CA bundle changed while it was opened")
      else match content with
      | None => Err (EMsg "evidence: authority CA bundle: read")
      | Some data => if maxAuthorityTrustBytes <? slen data then Err (EMsg "evidence: authority CA bundle exceeds the limit") else parseAuthorityTrust data
      end
    end
  end.
End Bundle.

(** ** The components of a path *)
Definition absPath (l : list string) : string := String slash (join slash l).
Definition named (s : string) : Prop := plainSegment s ∧ s ≠ "." ∧ s ≠ "..".

Lemma cleanSegments_named l acc : Forall (λ x, containsAny [slash] x = false) l → Forall named acc → Forall named (cleanSegments true l acc).
Proof.
  revert acc. induction l as [|s l IH]; intros acc Hl Ha; cbn [cleanSegments]; [by apply Forall_reverse|].
  apply Forall_cons in Hl as [Hs Hl]. destruct (bool_decide_reflect (s = "")); [by apply IH|]. destruct (bool_decide_reflect (s = ".")); [by apply IH|]. cbn [orb].
  destruct (bool_decide_reflect (s = "..")).
  - destruct acc as [|x acc]; [by apply IH|]. apply Forall_cons in Ha as [Hx Ha]. destruct (bool_decide_reflect (x = "..")) as [->|]; [by destruct Hx as (_ & _ & [])|by apply IH].
  - apply IH; [done|]. constructor; [|done]. by repeat split.
Qed.

Lemma cleanSegments_id l acc : Forall named l → cleanSegments true l acc = reverse acc ++ l.
Proof.
  revert acc. induction l as [|s l IH]; intros acc Hl; cbn [cleanSegments]; [by rewrite app_nil_r|].
  apply Forall_cons in Hl as [([N _] & D & DD) Hl]. rewrite !bool_decide_false by done. cbn [orb]. rewrite IH by done. by rewrite reverse_cons, <- app_assoc.
Qed.

Lemma cleanSegments_length l acc : (length (cleanSegments true l acc) ≤ length l + length acc)%nat.
Proof.
  revert acc. induction l as [|s l IH]; intros acc; cbn [cleanSegments length]; [by rewrite length_reverse|].
  destruct (_ || _); [specialize (IH acc); lia|]. destruct (bool_decide (s = "..")); [|specialize (IH (s :: acc)); cbn in IH; lia].
  destruct acc as [|x acc]; [specialize (IH []); cbn in *; lia|]. destruct (bool_decide (x = "..")); [specialize (IH (s :: x :: acc))|specialize (IH acc)]; cbn in *; lia.
Qed.

Lemma components_named path : Forall named (components path).
Proof. apply cleanSegments_named; [apply split_plain|constructor]. Qed.

Lemma uptoSlash_plain x : containsAny [slash] x = false → uptoSlash x = None.
Proof.
  induction x as [|c x IH]; [done|]. cbn [containsAny uptoSlash]. intros [Hc Hx]%orb_false_iff. rewrite IH by done.
  destruct (Ascii.eqb_spec c slash) as [->|]; [|done]. apply bool_decide_eq_false in Hc. by destruct Hc; left.
Qed.
Lemma uptoSlash_app a x : containsAny [slash] x = false → uptoSlash (a +:+ String slash x) = Some (a +:+ String slash "").
Proof.
  intros H. induction a as [|c a IH].
  - change ("" +:+ String slash x) with (String slash x). cbn [uptoSlash]. by rewrite uptoSlash_plain.
  - rewrite !sapp_cons. cbn [uptoSlash]. by rewrite IH.
Qed.

Lemma Dir_root : Dir (absPath []) = absPath [].
Proof. reflexivity. Qed.

Lemma Dir_last l x : Forall named l → named x → Dir (absPath (l ++ [x])) = absPath l.
Proof.
  intros L [[Nx Sx] _]. unfold Dir, absPath. assert (Forall plainSegment l) as P by (eapply Forall_impl; [exact L|intros y Hy; apply Hy]).
  destruct l as [|y l].
  - cbn [app join]. change (String slash x) with ("" +:+ String slash x). rewrite uptoSlash_app by done. reflexivity.
  - rewrite join_app by done. change (join slash [x]) with x. rewrite <- sapp_cons, uptoSlash_app by done. cbn [default id]. unfold id.
    rewrite Clean_abs by done. f_equal. f_equal. unfold components. set (J := join slash (y :: l)).
    change (String slash J +:+ String slash "") with ("" +:+ String slash (J +:+ String slash "")). rewrite !split_both. unfold J. rewrite split_join by done.
    assert (∀ acc, cleanSegments true [""] acc = reverse acc) as E by done.
    change (split slash "") with [""]. rewrite !cleanSegments_app, !E, reverse_involutive. cbn [reverse]. rewrite cleanSegments_id by done. done.
Qed.

Lemma absPath_inj l k : Forall named l → Forall named k → absPath l = absPath k → l = k.
Proof.
  intros L K E. injection E as E. apply join_inj in E; [done|eapply Forall_impl; [done|]..]; by intros x [].
Qed.

(** ** The check of a path *)
Section Spec.
Context (lstat : nat → string → option fileInfo) (trustedOwner : Z).

(** What a component must be for nobody but root and the trusted owner to be
    able to replace it. *)
Definition guarded (info : fileInfo) : Prop :=
  fi_symlink info = false ∧ Z.land (fi_perm info) 18 = 0 ∧ ∃ owner, fi_owner info = Some owner ∧ (owner = 0 ∨ owner = trustedOwner).

Lemma checkComponent_spec first answer info :
  checkComponent trustedOwner first answer = Ok info ↔ answer = Some info ∧ guarded info ∧ (first = true → fi_regular info = true).
Proof.
  unfold checkComponent, guarded. destruct answer as [a|]; [|naive_solver].
  destruct (fi_symlink a) eqn:Es; [naive_solver congruence|]. destruct first, (fi_regular a) eqn:Er; cbn [negb andb]; try (split; [done|]; intros (? & _ & ?); naive_solver congruence);
  (destruct (Z.eqb_spec (Z.land (fi_perm a) 18) 0); cbn [negb]; [|naive_solver congruence]; destruct (fi_owner a) as [o|] eqn:Eo; [|naive_solver congruence];
   destruct (Z.eqb_spec o 0), (Z.eqb_spec o trustedOwner); cbn [negb andb]; naive_solver congruence).
Qed.

(** The path of [l] and the directories above it, each in its own call. *)
Definition allGuarded (i : nat) (l : list string) : Prop :=
  ∀ j, (j ≤ length l)%nat → ∃ info, lstat (i + j) (absPath (take (length l - j) l)) = Some info ∧ guarded info.

Lemma allGuarded_snoc i l x : allGuarded i (l ++ [x]) ↔ (∃ info, lstat i (absPath (l ++ [x])) = Some info ∧ guarded info) ∧ allGuarded (S i) l.
Proof.
  unfold allGuarded. rewrite length_app. cbn [length]. split.
  - intros H. split.
    + destruct (H 0%nat) as (info & E & G); [lia|]. rewrite Nat.add_0_r, take_ge in E by (rewrite length_app; cbn; lia). eauto.
    + intros j Hj. destruct (H (S j)) as (info & E & G); [lia|]. rewrite take_app_le in E by lia. replace (length l + 1 - S j)%nat with (length l - j)%nat in E by lia.
      replace (i + S j)%nat with (S i + j)%nat in E by lia. eauto.
  - intros [(info & E & G) H] [|j] Hj.
    + rewrite Nat.add_0_r, take_ge by (rewrite length_app; cbn; lia). eauto.
    + rewrite take_app_le by lia. replace (length l + 1 - S j)%nat with (length l - j)%nat by lia. replace (i + S j)%nat with (S i + j)%nat by lia. apply H. lia.
Qed.

Lemma allGuarded_nil i : allGuarded i [] ↔ ∃ info, lstat i (absPath []) = Some info ∧ guarded info.
Proof.
  unfold allGuarded. split; [intros H; destruct (H 0%nat) as (info & E & G); [done|]; rewrite Nat.add_0_r in E; eauto|].
  intros (info & E & G) [|j] Hj; [|cbn in Hj; lia]. rewrite Nat.add_0_r. eauto.
Qed.

(** Above the bundle, with fuel for the components that are left. *)
Lemma checkFrom_above l : Forall named l → ∀ fuel i bundle info, (length l < fuel)%nat →
  checkFrom lstat trustedOwner fuel i (absPath l) (Some bundle) = Ok info ↔ info = bundle ∧ allGuarded i l.
Proof.
  induction l as [|x l IH] using rev_ind; intros L fuel i bundle info F.
  - destruct fuel as [|fuel]; [lia|]. cbn [checkFrom]. rewrite allGuarded_nil. rewrite bool_decide_true by (by eexists). cbn [negb].
    destruct (checkComponent trustedOwner false (lstat i (absPath []))) as [a|] eqn:C.
    + apply checkComponent_spec in C as (E & G & _). rewrite Dir_root, bool_decide_true by done. cbn. split; [intros [= ->]; eauto|intros [-> _]; done].
    + split; [done|]. intros (_ & a & E & G). assert (checkComponent trustedOwner false (lstat i (absPath [])) = Ok a) as X by (apply checkComponent_spec; done). congruence.
  - apply Forall_app in L as [L Lx]. rewrite Forall_singleton in Lx. rewrite length_app in F. cbn in F. destruct fuel as [|fuel]; [lia|]. cbn [checkFrom].
    rewrite allGuarded_snoc, bool_decide_true by (by eexists). cbn [negb].
    destruct (checkComponent trustedOwner false (lstat i (absPath (l ++ [x])))) as [a|] eqn:C.
    + apply checkComponent_spec in C as (E & G & _). rewrite (Dir_last l x L Lx). rewrite bool_decide_false.
      2: { intros X%absPath_inj; [|done|by apply Forall_app_2; [|apply Forall_singleton]]. apply (f_equal length) in X. rewrite length_app in X. cbn in X. lia. }
      cbn [default id]. rewrite IH by (done || lia). naive_solver.
    + split; [done|]. intros (_ & (a & E & G) & _). assert (checkComponent trustedOwner false (lstat i (absPath (l ++ [x]))) = Ok a) as X by (apply checkComponent_spec; done). congruence.
Qed.
End Spec.
Lemma checkTrustPath_spec lstat trustedOwner l info : Forall named l →
  checkTrustPath lstat trustedOwner (absPath l) = Ok info ↔ lstat 0%nat (absPath l) = Some info ∧ fi_regular info = true ∧ allGuarded lstat trustedOwner 0 l.
Proof.
  intros L. unfold checkTrustPath. cbn [checkFrom]. rewrite bool_decide_false by (by intros []). cbn [negb].
  assert (∀ a, checkComponent trustedOwner true (lstat 0%nat (absPath l)) = Ok a ↔ lstat 0%nat (absPath l) = Some a ∧ guarded trustedOwner a ∧ (true = true → fi_regular a = true)) as C
    by (intros a; apply checkComponent_spec).
  destruct (checkComponent trustedOwner true (lstat 0%nat (absPath l))) as [a|e].
  - destruct (C a) as [(E & G & R)%(λ f, f eq_refl) _]. specialize (R eq_refl). cbn [default id]. destruct l as [|x l _] using rev_ind.
    + rewrite Dir_root, bool_decide_true, allGuarded_nil by done. split; [intros [= <-]; eauto|]. intros (E' & _). congruence.
    + apply Forall_app in L as [L Lx]. rewrite Forall_singleton in Lx. rewrite (Dir_last l x L Lx), bool_decide_false, allGuarded_snoc.
      2: { intros X%absPath_inj; [|done|by apply Forall_app_2; [|rewrite Forall_singleton]]. apply (f_equal length) in X. rewrite length_app in X. cbn in X. lia. }
      rewrite checkFrom_above; [|done|]; cycle 1.
      { pose proof (cleanSegments_length (split slash (absPath (l ++ [x]))) []) as Len. unfold id in *.
        assert (cleanSegments true (split slash (absPath (l ++ [x]))) [] = l ++ [x]) as X.
        { change (absPath (l ++ [x])) with ("" +:+ absPath (l ++ [x])). unfold absPath. rewrite split_both, split_join.
          - by rewrite cleanSegments_app, cleanSegments_id by (apply Forall_app_2; [|rewrite Forall_singleton]; done).
          - by destruct l.
          - eapply Forall_impl; [apply Forall_app_2; [exact L|rewrite Forall_singleton; exact Lx]|]. by intros y []. }
        rewrite X, length_app in Len. cbn [length] in Len. lia. }
      unfold id. split; [intros [-> ?]; eauto 10|]. intros (E' & _ & _ & ?). split; [congruence|done].
  - split; [done|]. intros (E & R & G). destruct (G 0%nat) as (b & Eb & Gb); [lia|]. rewrite take_ge in Eb by lia. change (0 + 0)%nat with 0%nat in Eb.
    assert (b = info) as -> by congruence. by destruct (C info) as [_ X%(λ f, f (conj E (conj Gb (λ _, R))))].
Qed.

Section BundleSpec.
Context (pemDecode : string → option (pemBlock * string)) (ParseCertificate : string → option certificate).

Definition isCA (c : certificate) : Prop := ct_BasicConstraintsValid c = true ∧ ct_IsCA c = true.

(** The blocks of a bundle, one behind the other, and what is left. *)
Inductive blocks : string → list certificate → string → Prop :=
| blocks_end rest : pemDecode rest = None → blocks rest [] rest
| blocks_one data block rest cert certs left : pemDecode data = Some (block, rest) → pb_Type block = "CERTIFICATE" → ParseCertificate (pb_Bytes block) = Some cert → isCA cert →
    blocks rest certs left → blocks data (cert :: certs) left.

Lemma parseBlocks_sound fuel pool data certs : parseBlocks pemDecode ParseCertificate fuel pool data = Ok certs →
  certs ≠ [] ∧ ∃ new left, certs = pool ++ new ∧ blocks data new left ∧ TrimSpace left = "".
Proof.
  revert pool data. induction fuel as [|fuel IH]; intros pool data; [done|]. cbn [parseBlocks]. destruct (pemDecode data) as [[block rest]|] eqn:D.
  - destruct (bool_decide_reflect (pb_Type block = "CERTIFICATE")) as [T|]; [|done]. cbn [negb]. destruct (ParseCertificate _) as [cert|] eqn:P; [|done].
    destruct (ct_BasicConstraintsValid cert) eqn:B, (ct_IsCA cert) eqn:A; try done. cbn [negb orb]. intros (N & new & left & -> & H & T')%IH.
    split; [done|]. exists (cert :: new), left. rewrite <- app_assoc. split; [done|]. split; [|done]. by econstructor.
  - destruct (bool_decide_reflect (TrimSpace data = "")) as [T|]; [|done]. cbn [negb]. destruct (bool_decide_reflect (pool = [])); [done|]. intros [= <-].
    split; [done|]. exists [], data. rewrite app_nil_r. split; [done|]. split; [by constructor|done].
Qed.

(** As long as every block takes bytes off the bundle, the fuel is enough:
    a bundle of CA certificates and nothing else is accepted. *)
Lemma parseBlocks_complete (shrinks : ∀ s b r, pemDecode s = Some (b, r) → (String.length r < String.length s)%nat) data new left : blocks data new left → TrimSpace left = "" →
  ∀ fuel pool, (String.length data < fuel)%nat → pool ++ new ≠ [] → parseBlocks pemDecode ParseCertificate fuel pool data = Ok (pool ++ new).
Proof.
  intros H T. induction H as [rest D|data block rest cert certs left D Ty P [B A] H IH]; intros [|fuel] pool F N; try lia; cbn [parseBlocks]; rewrite D.
  - rewrite app_nil_r in *. rewrite bool_decide_true, bool_decide_false by done. done.
  - rewrite bool_decide_true by done. cbn [negb]. rewrite P, B, A. cbn [negb orb]. rewrite IH; [by rewrite <- app_assoc|done| |by rewrite <- app_assoc].
    apply shrinks in D. lia.
Qed.

End BundleSpec.

(** A bundle of one certificate, in [/etc/ori]. *)
Definition oneBlock (s : string) : option (pemBlock * string) := if hasPrefix s "CERT" then Some (MkBlock "CERTIFICATE" "ca", String (bc 10) "") else None.
Definition anyCert (s : string) : option certificate := Some (MkCert true true s).
Definition rootOwned (i : nat) (p : string) : option fileInfo := Some (MkInfo false (bool_decide (p = "/etc/ori/ca.pem")) 493 (Some 0) (1, Z.of_nat i)).

End Trust.
