(* ===== verification/Peripherals.v ===== *)
(** * The small components (sim/sim.go, fleet/fleet.go, site/healthhandler.go, cmd/ori-gateway/version.go)

    The status of a SIM modem and of the fleet connection, whose probes are
    inputs; the health endpoint, which answers the site's projection; and the
    provenance a build reports. *)
From S2P Require Import Prelude GoBytes Config Site.

Module Sim.
Import Config.

Record SimClient := MkClient { sm_enabled : bool; sm_modemPath : string }.
Record SimStatus := MkStatus { ss_Enabled : bool; ss_Available : bool; ss_State : string; ss_ModemPath : string; ss_Error : string }.
Definition SimStatusDisabled : string := "disabled".
Definition SimStatusAvailable : string := "available".
Definition SimStatusUnavailable : string := "unavailable".

(** [probe]: whether one was given. *)
Definition SimNew (cfg : SIMConfig) (probe : bool) : res SimClient :=
  if negb (sm_Enabled cfg) then Ok (MkClient false "")
  else if bool_decide (TrimSpace (sm_ModemPath cfg) = "") then Err (EMsg "sim: modem_path must not be empty when enabled")
  else if negb probe then Err (EMsg "sim: enabled SIM support is not implemented")
  else Ok (MkClient true (TrimSpace (sm_ModemPath cfg))).

Definition simStatusOf (probe : string → bool + string) (c : option SimClient) : SimStatus :=
  match c with
  | None => MkStatus false false SimStatusDisabled "" ""
  | Some c =>
    if negb (sm_enabled c) then MkStatus false false SimStatusDisabled "" ""
    else match probe (sm_modemPath c) with
    | inr e => MkStatus true false SimStatusUnavailable (sm_modemPath c) e
    | inl available => MkStatus true available (if available then SimStatusAvailable else SimStatusUnavailable) (sm_modemPath c) ""
    end
  end.
Definition Available (probe : string → bool + string) (c : option SimClient) : bool := ss_Available (simStatusOf probe c).

(** The modem reads available exactly when its probe says so, and the state
    never disagrees with the flag. *)
Lemma available_iff_probed probe c : Available probe c = true ↔ ∃ cl, c = Some cl ∧ sm_enabled cl = true ∧ probe (sm_modemPath cl) = inl true.
Proof.
  unfold Available, simStatusOf. destruct c as [[[] path]|]; cbn; [destruct (probe path) as [[]|e] eqn:E; cbn|split; [done|]; naive_solver..]; naive_solver congruence.
Qed.
End Sim.

Module Fleet.
Import Config.

Record FleetClient := MkClient { fl_enabled : bool; fl_cloudURL : string; fl_credential : bool }.
Record FleetStatus := MkStatus { fs_Enabled : bool; fs_Connected : bool; fs_State : string; fs_CloudURL : string; fs_Error : string }.
Definition FleetStatusDisabled : string := "disabled".
Definition FleetStatusConnected : string := "connected".
Definition FleetStatusDegraded : string := "degraded".

Definition FleetNew (cfg : FleetConfig) (credential health : bool) : res FleetClient :=
  if negb (fl_Enabled cfg) then Ok (MkClient false "" false)
  else if bool_decide (TrimSpace (fl_CloudURL cfg) = "") then Err (EMsg "fleet: cloud_url must not be empty when enabled")
  else if negb health then Err (EMsg "fleet: enabled fleet support is not implemented")
  else Ok (MkClient true (TrimSpace (fl_CloudURL cfg)) credential).

Definition degraded (c : FleetClient) (e : string) : FleetStatus := MkStatus true false FleetStatusDegraded (fl_cloudURL c) e.

(** [credential] is asked only by a client that has one. *)
Definition fleetStatusOf (credential : string + string) (health : string → string → bool + string) (c : option FleetClient) : FleetStatus :=
  match c with
  | None => MkStatus false false FleetStatusDisabled "" ""
  | Some c =>
    if negb (fl_enabled c) then MkStatus false false FleetStatusDisabled "" ""
    else match (if fl_credential c then credential else inl "") with
    | inr e => degraded c e
    | inl token =>
      match health (fl_cloudURL c) token with
      | inr e => degraded c e
      | inl false => degraded c "health check returned false"
      | inl true => MkStatus true true FleetStatusConnected (fl_cloudURL c) ""
      end
    end
  end.
Definition Connected (credential : string + string) (health : string → string → bool + string) (c : option FleetClient) : bool := fs_Connected (fleetStatusOf credential health c).

(** The fleet reads connected exactly when the health check of the configured
    address, with the credential if there is one, said so. *)
Lemma connected_iff_healthy credential health c : Connected credential health c = true ↔
  ∃ cl token, c = Some cl ∧ fl_enabled cl = true ∧ (if fl_credential cl then credential else inl "") = inl token ∧ health (fl_cloudURL cl) token = inl true.
Proof.
  unfold Connected, fleetStatusOf. destruct c as [[[] url cred]|]; cbn; [|split; [done|]; naive_solver..].
  destruct (if cred then credential else inl "") as [token|e] eqn:T; cbn; [destruct (health url token) as [[]|e] eqn:H; cbn|].
  all: split; try done; try (intros (cl & t & [= <-] & _ & T' & H'); cbn in *; congruence).
  intros _. exists (MkClient true url cred), token. done.
Qed.
End Fleet.

Module HealthHandler.
Import Site.

Record reply (A : Type) := MkReply { ry_code : Z; ry_body : option A }.
Arguments MkReply {A}.
Arguments ry_code {A}.
Arguments ry_body {A}.

(** [ServeHTTP]: the projection of the registry as it is, of the gateway's
    view, for a [GET] of [/health] and nothing else. *)
Definition ServeHTTP (expected : list string) (ttl nowMS mono : Z) (gatewayView : GatewayView) (r : Registry) (path method : string) : reply SiteHealth :=
  if negb (bool_decide (path = "/health")) then MkReply 404 None
  else if negb (bool_decide (method = "GET")) then MkReply 405 None
  else MkReply 200 (Some (Project expected ttl nowMS mono gatewayView r)).

(** Every configured device is in what is answered, in its order. *)
Lemma answer_lists_every_device expected ttl nowMS mono view r path method answer :
  ry_body (ServeHTTP expected ttl nowMS mono view r path method) = Some answer → path = "/health" ∧ method = "GET" ∧ sn_DeviceID <$> sh_Nodes answer = expected.
Proof.
  unfold ServeHTTP. case_bool_decide as P; [|done]. cbn [negb]. case_bool_decide as M; [|done]. intros [= <-]. split_and!; [done..|]. cbn [sh_Nodes Project].
  rewrite <- list_fmap_compose. erewrite list_fmap_ext; [apply list_fmap_id|]. intros _ x _. cbn. unfold projectNode. by destruct (observed r !! x).
Qed.
End HealthHandler.

Module Version.

Record buildProvenance := MkProvenance { bp_Version : string; bp_Commit : string; bp_BuildDate : string; bp_Modified : bool; bp_GoVersion : string }.
(** What the linker set, and what the toolchain embedded. *)
Record injected := MkInjected { in_version : string; in_commit : string; in_buildDate : string; in_go : string }.
Record BuildInfo := MkBuildInfo { bi_Version : string; bi_Settings : list (string * string) }.

Definition applySetting (p : buildProvenance) (setting : string * string) : buildProvenance :=
  let '(key, value) := setting in
  if bool_decide (key = "vcs.revision") then
    if bool_decide (bp_Commit p = "") then MkProvenance (bp_Version p) value (bp_BuildDate p) (bp_Modified p) (bp_GoVersion p) else p
  else if bool_decide (key = "vcs.time") then
    if bool_decide (bp_BuildDate p = "") then MkProvenance (bp_Version p) (bp_Commit p) value (bp_Modified p) (bp_GoVersion p) else p
  else if bool_decide (key = "vcs.modified") then MkProvenance (bp_Version p) (bp_Commit p) (bp_BuildDate p) (bool_decide (value = "true")) (bp_GoVersion p)
  else p.

Definition orUnknown (s : string) : string := if bool_decide (s = "") then "unknown" else s.

Definition gatewayProvenance (i : injected) (info : option BuildInfo) : buildProvenance :=
  let p := MkProvenance (in_version i) (in_commit i) (in_buildDate i) false (in_go i) in
  let p := match info with
           | None => p
           | Some b =>
             let v := if bool_decide (bp_Version p = "dev") && negb (bool_decide (bi_Version b = "")) && negb (bool_decide (bi_Version b = "(devel)")) then bi_Version b else bp_Version p in
             foldl applySetting (MkProvenance v (bp_Commit p) (bp_BuildDate p) (bp_Modified p) (bp_GoVersion p)) (bi_Settings b)
           end in
  MkProvenance (bp_Version p) (orUnknown (bp_Commit p)) (orUnknown (bp_BuildDate p)) (bp_Modified p) (bp_GoVersion p).

Definition nl : string := String (bc 10) "".
Definition writeVersion (p : buildProvenance) : string :=
  "ori-gateway " +:+ bp_Version p +:+ nl +:+ "commit: " +:+ bp_Commit p +:+ (if bp_Modified p then " (modified)" else "") +:+ nl +:+
  "built:  " +:+ bp_BuildDate p +:+ nl +:+ "go:     " +:+ bp_GoVersion p +:+ nl.

Lemma applySetting_keeps p s : bp_Commit p ≠ "" → bp_Commit (applySetting p s) = bp_Commit p.
Proof. intros N. unfold applySetting. destruct s as [k v]. rewrite (bool_decide_false (bp_Commit p = "")) by done. repeat case_bool_decide; done. Qed.

(** What a release build injected is never overridden by what the toolchain
    embedded, and a commit is always named. *)
Lemma injected_commit_stands i info : bp_Commit (gatewayProvenance i info) ≠ "" ∧ (in_commit i ≠ "" → bp_Commit (gatewayProvenance i info) = in_commit i).
Proof.
  unfold gatewayProvenance. destruct info as [b|]; cbn [bp_Commit].
  - split; [unfold orUnknown; case_bool_decide; done|]. intros N. set (p0 := MkProvenance _ (in_commit i) _ _ _). assert (bp_Commit p0 = in_commit i) as E by done.
    clearbody p0. revert p0 E. induction (bi_Settings b) as [|s l IH]; intros p0 E; cbn [foldl]; [unfold orUnknown; rewrite E, bool_decide_false by done; done|].
    apply IH. rewrite applySetting_keeps by congruence. done.
  - unfold orUnknown. case_bool_decide; naive_solver.
Qed.
End Version.
