(* ===== verification/Providers.v ===== *)
(** * Reasoning providers (provider/provider.go, cloud_llm.go, llama_cpp.go, factory.go)

    [HttpClient]: what the gateway's HTTP clients use of net/url and net/http,
    a parsed URL as far as the endpoint builders look at it, the escaping of a
    path and of one segment, and the request that is sent. [Providers]: the
    echo provider, the llama.cpp server on the LAN and the cloud vendors, and
    the factory that picks one. What a server answers is a function of the
    request and the time it is given, [exchange]; [json.Marshal] of the bodies
    and [url.Parse] are parameters. The model name a llama.cpp server reports
    is cached, and that cache is the only state. [ProvidersSpec]: what a
    provider answers is what the dispatcher forwards; a llama.cpp server is
    reached whichever of its two addresses is configured; the name of its
    model settles; and the endpoint of a model is the vendor's, as long as its
    name needs no escaping. *)
From Stdlib Require Import SpecFloat.
From S2P Require Import Prelude GoBytes Float64 Contracts Requests Dispatcher DispatcherSpec Config.

Module HttpClient.

(** ** URLs *)
(** [ul_prefix] is everything [String] prints before the path: the scheme,
    the user and the host. [ul_rawPath] is set by the parser when the path
    had an encoding of its own. *)
Record URL := MkURL { ul_scheme : string; ul_user : bool; ul_host : string; ul_path : string; ul_rawPath : string; ul_fragment : string; ul_prefix : string }.

Definition alphanumeric (v : Z) : bool := in_rng 97 122 v || in_rng 65 90 v || in_rng 48 57 v.
(** [shouldEscape] for a whole path, and for one segment of it. *)
Definition pathByte (c : ascii) : bool := alphanumeric (bv c) || bool_decide (c ∈ ["-"; "_"; "."; "~"; "$"; "&"; "+"; ","; "/"; ":"; ";"; "="; "@"]%char).
Definition segmentByte (c : ascii) : bool := alphanumeric (bv c) || bool_decide (c ∈ ["-"; "_"; "."; "~"; "$"; "&"; "+"; ":"; "="; "@"]%char).

Definition upperHex (z : Z) : ascii := if z <? 10 then bc (48 + z) else bc (55 + z).
Fixpoint escape (plain : ascii → bool) (s : string) : string :=
  match s with
  | EmptyString => ""
  | String c r => if plain c then String c (escape plain r) else String "%" (String (upperHex (bv c / 16)) (String (upperHex (bv c mod 16)) (escape plain r)))
  end.
Definition PathEscape : string → string := escape segmentByte.

(** [String] of a URL whose path is set, its query and fragment emptied: the
    parser's encoding stands for the path it parsed and no other. *)
Definition URL_String (u : URL) (path : string) : string :=
  ul_prefix u +:+ (if negb (bool_decide (ul_rawPath u = "")) && bool_decide (path = ul_path u) then ul_rawPath u else escape pathByte path).

(** ** Strings *)
(** [strings.TrimRight(s, "/")]. *)
Fixpoint trimSlashes (s : string) : string :=
  match s with
  | EmptyString => ""
  | String a r => match trimSlashes r with EmptyString => if Ascii.eqb a "/"%char then "" else String a "" | r' => String a r' end
  end.
Fixpoint trimSuffix (s x : string) : string :=
  if decide (s = x) then "" else match s with EmptyString => "" | String a r => String a (trimSuffix r x) end.

Fixpoint joinWith (sep : string) (l : list string) : string :=
  match l with [] => "" | [x] => x | x :: l' => x +:+ sep +:+ joinWith sep l' end.
Definition newline : string := String (bc 10) "".
Definition paragraphs (l : list string) : string := joinWith (newline +:+ newline) (filter (λ t, t ≠ "") (TrimSpace <$> l)).

(** ** Requests *)
Record httpRequest := MkHTTPRequest { hq_URL : string; hq_Headers : list (string * string); hq_Body : string }.
Definition succeeded (code : Z) : bool := (200 <=? code) && (code <? 300).

(** ** Lemmas *)
Lemma escape_plain p s : (∀ c, c ∈ String.list_ascii_of_string s → p c = true) → escape p s = s.
Proof.
  induction s as [|c s IH]; intros H; [done|]. cbn [escape]. rewrite (H c) by (cbn; left). f_equal. apply IH. intros d Hd. apply H. cbn. by right.
Qed.

Lemma segment_in_path c : segmentByte c = true → pathByte c = true.
Proof.
  unfold segmentByte, pathByte. destruct (alphanumeric _); [done|]. cbn [orb]. rewrite !bool_decide_eq_true, !elem_of_cons. tauto.
Qed.

Lemma trimSlashes_cons a r : trimSlashes (String a r) = match trimSlashes r with EmptyString => if Ascii.eqb a "/"%char then "" else String a "" | r' => String a r' end.
Proof. done. Qed.

Lemma trimSlashes_last r a : a ≠ "/"%char → trimSlashes (r +:+ String a "") = r +:+ String a "".
Proof.
  intros N. induction r as [|c r IH].
  - change ("" +:+ String a "") with (String a ""). rewrite trimSlashes_cons. cbn. by destruct (Ascii.eqb_spec a "/").
  - change (String c r +:+ String a "") with (String c (r +:+ String a "")). rewrite trimSlashes_cons, IH. by destruct r.
Qed.

Lemma trimSlashes_idem s : trimSlashes (trimSlashes s) = trimSlashes s.
Proof.
  induction s as [|a s IH]; [done|]. rewrite trimSlashes_cons. destruct (trimSlashes s) as [|b r] eqn:E.
  - destruct (Ascii.eqb_spec a "/"); [done|]. apply (trimSlashes_last ""). done.
  - rewrite trimSlashes_cons, IH. done.
Qed.

Lemma trimSuffix_app s x : trimSuffix (s +:+ x) x = s.
Proof.
  induction s as [|a s IH].
  - change ("" +:+ x) with x. destruct x; cbn; by destruct (decide _).
  - change (String a s +:+ x) with (String a (s +:+ x)). cbn [trimSuffix]. destruct (decide _) as [E|_]; [|by rewrite IH].
    apply (f_equal slen) in E. rewrite slen_cons, slen_app in E. pose proof (slen_nonneg s). lia.
Qed.
End HttpClient.

Module Providers.
Import Float64 Requests HttpClient.
Import Dispatcher (failure, OtherFailure, DeadlineExceeded, Canceled, ProviderPanic).

(** ** The prompt *)
(** [%g]: the shortest digits, with an exponent below -4 and from 6 on. *)
Definition exponentG (e : Z) : string := "e" +:+ (if e <? 0 then "-" else "+") +:+ (if Z.abs e <? 10 then "0" else "") +:+ FormatInt (Z.abs e).
Definition formatG (f : float64) : string :=
  match f with
  | S754_zero neg => if neg then "-0" else "0"
  | S754_infinity neg => if neg then "-Inf" else "+Inf"
  | S754_nan => "NaN"
  | S754_finite neg m e =>
    let '(n, d) := fraction m e in
    let '(c0, q0) := shortest 17 1 (S754_finite false m e) (leading 5 (leadingStart n d) n d) n d in
    let '(c, q) := stripZeros 20 c0 q0 in
    let ds := FormatInt c in
    let e10 := slen ds - 1 + q in
    (if neg then "-" else "") +:+
    (if (e10 <? -4) || (6 <=? e10) then
       String.substring 0 1 ds +:+ (if slen ds <? 2 then "" else "." +:+ String.substring 1 (String.length ds - 1) ds) +:+ exponentG e10
     else positional ds q)
  end.

Definition hasReasoningContext (c : ReasoningContext) : bool :=
  negb (feqb (cx_Value c) fzero) || negb (bool_decide (cx_Unit c = "")) || negb (cx_Timestamp c =? 0) || negb (bool_decide (cx_History c = [])).

Definition historyLine (p : HistoryPoint) : string :=
  "- value: " +:+ formatG (hp_Value p) +:+ ", timestamp_ms: " +:+ FormatInt (hp_Timestamp p) +:+
  (if 0 <? hp_ReceivedAtMS p then ", received_at_ms: " +:+ FormatInt (hp_ReceivedAtMS p) else "") +:+ newline.

Definition buildPrompt (req : ReasoningRequest) : string :=
  let prompt := TrimSpace (rq_Prompt req) in
  let c := rq_Context req in
  if negb (hasReasoningContext c) then prompt
  else TrimSpace (prompt +:+ newline +:+ newline +:+ "Structured sensor context:" +:+ newline +:+ "value: " +:+ formatG (cx_Value c) +:+ newline +:+
    (if bool_decide (cx_Unit c = "") then "" else "unit: " +:+ cx_Unit c +:+ newline) +:+
    (if 0 <? cx_Timestamp c then "timestamp_ms: " +:+ FormatInt (cx_Timestamp c) +:+ newline else "") +:+
    (if bool_decide (cx_History c = []) then "" else "history:" +:+ newline +:+ foldr (λ p acc, historyLine p +:+ acc) "" (cx_History c))).
(** Written twice in the source, word for word. *)
Definition buildCloudPrompt : ReasoningRequest → string := buildPrompt.
Definition buildLlamaCppPrompt : ReasoningRequest → string := buildPrompt.

(** ** Exchanges *)
(** The time given, and the request; a body that is not decoded is a failure
    of its own. *)
Definition exchange (R : Type) : Type := Z → httpRequest → (Z * (R + failure)) + failure.

(** The context's time, cut to the request's. *)
Definition reasonTimeout (given : Z) (req : ReasoningRequest) : Z :=
  if 0 <? rq_TimeoutMS req then Z.min given (wrap64 (rq_TimeoutMS req * 1000000)) else given.

Definition answered {R} (r : (Z * (R + failure)) + failure) : R + failure :=
  match r with
  | inr e => inr e
  | inl (code, body) => if negb (succeeded code) then inr OtherFailure else body
  end.

Definition jsonHeader : string * string := ("Content-Type", "application/json").

(** ** Echo *)
Definition echoName (modelName : string) : string := if bool_decide (modelName = "") then "echo" else modelName.
Definition echoReason (modelName : string) (req : ReasoningRequest) : ReasoningResponse :=
  MkResponse (rq_RequestID req) "" "Gateway provider not configured." (echoName modelName) 0 0 fzero (rq_ActionTierHint req) None None None.

(** ** Cloud vendors *)
Definition anthropicVersion : string := "2023-06-01".
Definition defaultClaudeEndpoint : string := "https://api.anthropic.com/v1/messages".
Definition defaultGeminiEndpoint : string := "https://generativelanguage.googleapis.com/v1beta".
Definition defaultCloudMaxTokens : Z := 512.
Definition geminiGenerateSuffix : string := ":generateContent".
Definition CloudVendorClaude : string := "claude".
Definition CloudVendorGemini : string := "gemini".
Definition CloudVendorOpenAI : string := "openai".
Definition CloudVendorDeepSeek : string := "deepseek".

Record claudeMessagesRequest := MkClaudeRequest { cq_Model : string; cq_MaxTokens : Z; cq_Messages : list (string * string) }.
Record claudeMessagesResponse := MkClaudeResponse { cp_Model : string; cp_Content : list (string * string); cp_InputTokens : Z; cp_OutputTokens : Z }.
Record geminiGenerateContentRequest := MkGenerate { gq_Contents : list (string * list string); gq_MaxOutputTokens : Z }.
Record geminiGenerateContentResponse := MkGenerated { gp_Candidates : list (list string); gp_PromptTokenCount : Z; gp_CandidatesTokenCount : Z; gp_TotalTokenCount : Z }.

(** The text blocks, of a type and a text each. *)
Definition claudeText (r : claudeMessagesResponse) : string := paragraphs (snd <$> filter (λ b, b.1 = "text") (cp_Content r)).
Definition geminiText (r : geminiGenerateContentResponse) : string := paragraphs (concat (gp_Candidates r)).
Definition tokensUsed (r : geminiGenerateContentResponse) : Z :=
  if 0 <? gp_TotalTokenCount r then gp_TotalTokenCount r else wrap64 (gp_PromptTokenCount r + gp_CandidatesTokenCount r).

Record CloudLLMProvider := MkCloud { cl_vendor : string; cl_endpoint : string; cl_apiKey : string; cl_model : string }.

Section Endpoints.
Context (urlParse : string → option URL).

Definition parseCloudHTTPURL (raw : string) : res URL :=
  match urlParse raw with
  | None => Err (EMsg "cloud_llm: parse base_url")
  | Some parsed =>
    if negb (bool_decide (ul_scheme parsed = "http")) && negb (bool_decide (ul_scheme parsed = "https")) then Err (EMsg "cloud_llm: base_url must use http or https")
    else if bool_decide (ul_host parsed = "") then Err (EMsg "cloud_llm: base_url must include host") else Ok parsed
  end.

Definition orDefault (raw fallback : string) : string := if bool_decide (TrimSpace raw = "") then fallback else TrimSpace raw.

Definition claudePath (path : string) : string := if hasSuffix path "/v1/messages" then path else trimSlashes path +:+ "/v1/messages".
Definition normalizeClaudeEndpoint (raw : string) : res string :=
  match parseCloudHTTPURL (orDefault raw defaultClaudeEndpoint) with Err e => Err e | Ok parsed => Ok (URL_String parsed (claudePath (ul_path parsed))) end.

Definition geminiPath (path model : string) : string :=
  if hasSuffix path geminiGenerateSuffix then path else trimSlashes path +:+ "/models/" +:+ PathEscape model +:+ geminiGenerateSuffix.
Definition normalizeGeminiEndpoint (raw model : string) : res string :=
  match parseCloudHTTPURL (orDefault raw defaultGeminiEndpoint) with Err e => Err e | Ok parsed => Ok (URL_String parsed (geminiPath (ul_path parsed) model)) end.

Definition normalizeCloudEndpoint (vendor raw model : string) : res string :=
  if bool_decide (vendor = CloudVendorClaude) then normalizeClaudeEndpoint raw
  else if bool_decide (vendor = CloudVendorGemini) then normalizeGeminiEndpoint raw model
  else if bool_decide (vendor ∈ [CloudVendorOpenAI; CloudVendorDeepSeek; Config.CloudVendorOpenAICompatible]) then Err (EMsg "cloud_llm: vendor is not implemented")
  else Err (EMsg "cloud_llm: vendor is unknown").

Definition NewCloudLLMProvider (vendor apiKey model base : string) : res CloudLLMProvider :=
  let vendor := TrimSpace vendor in
  let apiKey := TrimSpace apiKey in
  let model := TrimSpace model in
  if bool_decide (vendor = "") then Err (EMsg "cloud_llm: vendor must not be empty")
  else if bool_decide (apiKey = "") then Err (EMsg "cloud_llm: API key must not be empty")
  else if bool_decide (model = "") then Err (EMsg "cloud_llm: model must not be empty")
  else match normalizeCloudEndpoint vendor base model with Err e => Err e | Ok endpoint => Ok (MkCloud vendor endpoint apiKey model) end.
End Endpoints.

(** Configuration readiness alone: the network is not asked. *)
Definition cloudHealthy (cancelled : bool) (p : CloudLLMProvider) : bool :=
  negb cancelled && negb (bool_decide (cl_apiKey p = "")) && negb (bool_decide (cl_endpoint p = "")) && negb (bool_decide (cl_model p = "")).

(** The encoders of the bodies, the servers, and the confidence literals. *)
Class Servers := {
  encodeClaude : claudeMessagesRequest → option string;
  encodeGemini : geminiGenerateContentRequest → option string;
  doClaude : exchange claudeMessagesResponse;
  doGemini : exchange geminiGenerateContentResponse }.
Definition defaultCloudConfidence : float64 := ofDecimal false 75 (-2).
Definition defaultLlamaCppConfidence : float64 := ofDecimal false 7 (-1).

Section Cloud.
Context `{Servers}.

(** [latencyMS]: what the clock measured over the exchange. *)
Definition reasoningResponse (req : ReasoningRequest) (text model : string) (tokens latencyMS : Z) (confidence : float64) : ReasoningResponse :=
  MkResponse (rq_RequestID req) "" text model tokens latencyMS confidence (rq_ActionTierHint req) None None None.

Definition reasonClaude (p : CloudLLMProvider) (timeout latencyMS : Z) (req : ReasoningRequest) : ReasoningResponse + failure :=
  match encodeClaude (MkClaudeRequest (cl_model p) defaultCloudMaxTokens [("user", buildCloudPrompt req)]) with
  | None => inr OtherFailure
  | Some body =>
    match answered (doClaude timeout (MkHTTPRequest (cl_endpoint p) [jsonHeader; ("anthropic-version", anthropicVersion); ("x-api-key", cl_apiKey p)] body)) with
    | inr e => inr e
    | inl decoded =>
      let text := TrimSpace (claudeText decoded) in
      if bool_decide (text = "") then inr OtherFailure
      else
        let model := if bool_decide (TrimSpace (cp_Model decoded) = "") then cl_model p else TrimSpace (cp_Model decoded) in
        inl (reasoningResponse req text model (wrap64 (cp_InputTokens decoded + cp_OutputTokens decoded)) latencyMS defaultCloudConfidence)
    end
  end.

Definition reasonGemini (p : CloudLLMProvider) (timeout latencyMS : Z) (req : ReasoningRequest) : ReasoningResponse + failure :=
  match encodeGemini (MkGenerate [("user", [buildCloudPrompt req])] defaultCloudMaxTokens) with
  | None => inr OtherFailure
  | Some body =>
    match answered (doGemini timeout (MkHTTPRequest (cl_endpoint p) [jsonHeader; ("x-goog-api-key", cl_apiKey p)] body)) with
    | inr e => inr e
    | inl decoded =>
      let text := TrimSpace (geminiText decoded) in
      if bool_decide (text = "") then inr OtherFailure
      else inl (reasoningResponse req text (cl_model p) (tokensUsed decoded) latencyMS defaultCloudConfidence)
    end
  end.

Definition cloudReason (p : CloudLLMProvider) (given latencyMS : Z) (req : ReasoningRequest) : ReasoningResponse + failure :=
  let timeout := reasonTimeout given req in
  if bool_decide (cl_vendor p = CloudVendorClaude) then reasonClaude p timeout latencyMS req
  else if bool_decide (cl_vendor p = CloudVendorGemini) then reasonGemini p timeout latencyMS req
  else inr OtherFailure.
End Cloud.

(** ** llama.cpp *)
Record LlamaCppProvider := MkLlama { lp_completionURL : string; lp_propsURL : string; lp_modelFallback : string }.
Record llamaCppCompletionRequest := MkCompletion { lq_Prompt : string; lq_Stream : bool; lq_CachePrompt : bool }.
Record llamaCppCompletionResponse := MkCompleted { lr_Content : string; lr_TokensPredicted : Z; lr_TokensEvaluated : Z; lr_PredictedN : Z; lr_PromptN : Z }.
Record llamaCppPropsResponse := MkProps { lpr_Model : string; lpr_DefaultModel : string }.

Definition llamaTokensUsed (r : llamaCppCompletionResponse) : Z :=
  if (0 <? lr_TokensPredicted r) || (0 <? lr_TokensEvaluated r) then wrap64 (lr_TokensPredicted r + lr_TokensEvaluated r) else wrap64 (lr_PredictedN r + lr_PromptN r).

(** The paths of the completion and of the properties, of either form of the
    configured URL's path. *)
Definition completion : string := "/completion".
Definition llamaPaths (path : string) : string * string :=
  let trimmed := trimSlashes path in
  if hasSuffix trimmed completion then (path, trimSlashes (trimSuffix trimmed completion) +:+ "/props") else (trimmed +:+ completion, trimmed +:+ "/props").

Definition normalizeLlamaCppURLs (urlParse : string → option URL) (raw : string) : res (string * string) :=
  let trimmed := TrimSpace raw in
  if bool_decide (trimmed = "") then Err (EMsg "llama_cpp: url must not be empty")
  else match urlParse trimmed with
  | None => Err (EMsg "llama_cpp: parse url")
  | Some parsed =>
    if negb (bool_decide (ul_scheme parsed = "http")) && negb (bool_decide (ul_scheme parsed = "https")) then Err (EMsg "llama_cpp: url must use http or https")
    else if bool_decide (ul_host parsed = "") then Err (EMsg "llama_cpp: url must include host")
    else let '(c, p) := llamaPaths (ul_path parsed) in Ok (URL_String parsed c, URL_String parsed p)
  end.

Definition NewLlamaCppProvider (urlParse : string → option URL) (raw modelFallback : string) : res LlamaCppProvider :=
  match normalizeLlamaCppURLs urlParse raw with Err e => Err e | Ok (c, p) => Ok (MkLlama c p (TrimSpace modelFallback)) end.

Class LlamaServer := {
  encodeCompletion : llamaCppCompletionRequest → option string;
  doCompletion : exchange llamaCppCompletionResponse;
  getProps : Z → string → (Z * (llamaCppPropsResponse + failure)) + failure }.

Section Llama.
Context `{LlamaServer}.

Definition fetchModel (p : LlamaCppProvider) (timeout : Z) : option string :=
  match answered (getProps timeout (lp_propsURL p)) with
  | inr _ => None
  | inl props =>
    if negb (bool_decide (lpr_Model props = "")) then Some (lpr_Model props)
    else if negb (bool_decide (lpr_DefaultModel props = "")) then Some (lpr_DefaultModel props) else None
  end.

Definition llamaHealthy (p : LlamaCppProvider) (given : Z) : bool := bool_decide (is_Some (fetchModel p (Z.min given 2000000000))).

(** The name under the lock: the first one stored stays. *)
Definition storeModel (fetched cached : string) : string := if bool_decide (cached = "") then fetched else cached.

(** [model]: [cached] is what the reading under the lock saw, [now] what the
    writing under it sees, after the fetch. *)
Definition model (p : LlamaCppProvider) (timeout : Z) (cached now : string) : string * string :=
  if negb (bool_decide (cached = "")) then (cached, now)
  else match fetchModel p timeout with
  | None => (if bool_decide (lp_modelFallback p = "") then "llama.cpp" else lp_modelFallback p, now)
  | Some fetched => let stored := storeModel fetched now in (stored, stored)
  end.

Definition llamaReason (p : LlamaCppProvider) (given latencyMS : Z) (cached now : string) (req : ReasoningRequest) : (ReasoningResponse + failure) * string :=
  let timeout := reasonTimeout given req in
  let '(name, now') := model p timeout cached now in
  (match encodeCompletion (MkCompletion (buildLlamaCppPrompt req) false true) with
   | None => inr OtherFailure
   | Some body =>
     match answered (doCompletion timeout (MkHTTPRequest (lp_completionURL p) [jsonHeader] body)) with
     | inr e => inr e
     | inl decoded =>
       let text := TrimSpace (lr_Content decoded) in
       if bool_decide (text = "") then inr OtherFailure
       else inl (reasoningResponse req text name (llamaTokensUsed decoded) latencyMS defaultLlamaCppConfidence)
     end
   end, now').
End Llama.

(** ** The factory *)
Inductive Provider := PEcho | PLlama (p : LlamaCppProvider) | PCloud (p : CloudLLMProvider).

Definition NewFromConfig (urlParse : string → option URL) (Getenv : string → string) (cfg : Config.ProviderConfig) : res Provider :=
  if Config.pc_TimeoutMS cfg <? 0 then Err (EMsg "provider.timeout_ms must not be negative")
  else if bool_decide (Config.pc_Name cfg = Config.ProviderEcho) then Ok PEcho
  else if bool_decide (Config.pc_Name cfg = Config.ProviderLlamaCpp) then
    match NewLlamaCppProvider urlParse (Config.pc_LlamaCppURL cfg) (Config.pc_LlamaCppModel cfg) with Err e => Err e | Ok p => Ok (PLlama p) end
  else if bool_decide (Config.pc_Name cfg = Config.ProviderCloudLLM) then
    let apiKey := TrimSpace (Getenv (TrimSpace (Config.pc_APIKeyEnv cfg))) in
    if bool_decide (apiKey = "") then Err (EMsg "provider.cloud_llm.api_key_env is empty")
    else match NewCloudLLMProvider urlParse (Config.pc_Vendor cfg) apiKey (Config.pc_Model cfg) (Config.pc_BaseURL cfg) with Err e => Err e | Ok p => Ok (PCloud p) end
  else if bool_decide (Config.pc_Name cfg = "") then Err (EMsg "provider name must not be empty")
  else Err (EMsg "provider is unknown").

(** The client's own limit, whatever the context allows. *)
Definition providerTimeout (timeoutMS : Z) : Z := wrap64 ((if timeoutMS =? 0 then Config.DefaultProviderTimeoutMS else timeoutMS) * 1000000).

(** [Reason] of the interface, with the cache of the model name. *)
Definition Reason `{Servers} `{LlamaServer} (p : Provider) (given latencyMS : Z) (cached now : string) (req : ReasoningRequest) : (ReasoningResponse + failure) * string :=
  match p with
  | PEcho => (inl (echoReason "" req), now)
  | PLlama l => llamaReason l given latencyMS cached now req
  | PCloud c => (cloudReason c given latencyMS req, now)
  end.
End Providers.

Module ProvidersSpec.
Import Float64 Contracts Requests HttpClient Providers.
Import Dispatcher (failure, OtherFailure, respond, errorFor, providerErrorMessage, setDevice).

(** ** Answers *)
Definition answersRequest (req : ReasoningRequest) (resp : ReasoningResponse) : Prop :=
  rp_RequestID resp = rq_RequestID req ∧ rp_ActionTier resp = rq_ActionTierHint req ∧ rp_Text resp ≠ "" ∧ rp_Error resp = None ∧ rp_ProposedAction resp = None.

Lemma reasoningResponse_answers req text model tokens latency confidence : text ≠ "" → answersRequest req (reasoningResponse req text model tokens latency confidence).
Proof. by unfold answersRequest. Qed.

Lemma llamaReason_answers `{LlamaServer} p given latency cached now req resp now' : llamaReason p given latency cached now req = (inl resp, now') → answersRequest req resp.
Proof.
  unfold llamaReason. destruct (model _ _ _ _) as [name now1]. destruct (encodeCompletion _); [|done]. destruct (answered _) as [decoded|]; [|done].
  case_bool_decide as E; [done|]. intros [= <- _]. by apply reasoningResponse_answers.
Qed.

Lemma cloudReason_answers `{Servers} p given latency req resp : cloudReason p given latency req = inl resp → answersRequest req resp.
Proof.
  unfold cloudReason, reasonClaude, reasonGemini. destruct (bool_decide (cl_vendor p = CloudVendorClaude)); [|destruct (bool_decide (cl_vendor p = CloudVendorGemini)); [|done]].
  - destruct (encodeClaude _); [|done]. destruct (answered _) as [decoded|]; [|done]. case_bool_decide as E; [done|]. intros [= <-]. by apply reasoningResponse_answers.
  - destruct (encodeGemini _); [|done]. destruct (answered _) as [decoded|]; [|done]. case_bool_decide as E; [done|]. intros [= <-]. by apply reasoningResponse_answers.
Qed.

Lemma Reason_answers `{Servers} `{LlamaServer} p given latency cached now req resp now' : Reason p given latency cached now req = (inl resp, now') → answersRequest req resp.
Proof.
  destruct p; cbn [Reason].
  - intros [= <- _]. done.
  - apply llamaReason_answers.
  - destruct (cloudReason _ _ _ _) as [r|] eqn:E; [|done]. intros [= <- _]. by apply cloudReason_answers in E.
Qed.


(** ** The two addresses of a llama.cpp server *)
Lemma completion_trimmed s : trimSlashes (s +:+ completion) = s +:+ completion.
Proof. change completion with ("/completio" +:+ "n"). rewrite <- sapp_assoc. by apply trimSlashes_last. Qed.

(** The server's base address and the address of its completion endpoint
    configure the same provider: for every path, with any number of trailing
    slashes, both lead to the same completion and properties paths, the base
    path with the two names behind it. *)
Theorem llama_addresses_agree path : hasSuffix (trimSlashes path) completion = false →
  llamaPaths path = (trimSlashes path +:+ completion, trimSlashes path +:+ "/props") ∧ llamaPaths (trimSlashes path +:+ completion) = llamaPaths path.
Proof.
  intros E. unfold llamaPaths. rewrite E, completion_trimmed, hasSuffix_app, trimSuffix_app, trimSlashes_idem. done.
Qed.
Lemma llama_addresses_agree_witness : llamaPaths "/llm/completion" = llamaPaths "/llm//".
Proof. exact (proj2 (llama_addresses_agree "/llm//" eq_refl)). Defined.

(** ** The model's name *)
Section Model.
Context `{LlamaServer}.

Lemma fetchModel_nonempty p timeout name : fetchModel p timeout = Some name → name ≠ "".
Proof.
  unfold fetchModel. destruct (answered _) as [props|]; [|done]. case_bool_decide as E1; cbn [negb]; [|by intros [= <-]]. case_bool_decide as E2; cbn [negb]; [done|by intros [= <-]].
Qed.

(** A call reads the cache, fetches, and stores under the lock whatever the
    cache has become since. Whatever the two saw, the cache keeps the first
    name it was given, and a call that does not fall back answers with the
    cache's name. *)
Lemma model_settles p timeout cached now r now' : model p timeout cached now = (r, now') → r ≠ "" ∧
  (now ≠ "" → now' = now) ∧ (now' = "" → now = "" ∧ fetchModel p timeout = None ∨ cached ≠ "") ∧ (r = cached ∨ r = now' ∨ fetchModel p timeout = None).
Proof.
  unfold model, storeModel. destruct (bool_decide_reflect (cached = "")) as [->|C]; cbn [negb]; [|intros [= <- <-]; naive_solver].
  destruct (fetchModel p timeout) as [f|] eqn:F.
  - apply fetchModel_nonempty in F. destruct (bool_decide_reflect (now = "")) as [->|N]; intros [= <- <-]; naive_solver.
  - destruct (bool_decide_reflect (lp_modelFallback p = "")) as [E|N]; intros [= <- <-]; naive_solver.
Qed.
End Model.

(** ** Endpoints *)
Definition plainModel (model : string) : Prop := ∀ c, c ∈ String.list_ascii_of_string model → segmentByte c = true.

(** A model whose name is made of letters, digits and the marks a segment
    allows stands in the endpoint as it is. *)
Lemma plain_model_endpoint path model : plainModel model → hasSuffix path geminiGenerateSuffix = false →
  geminiPath path model = trimSlashes path +:+ "/models/" +:+ model +:+ geminiGenerateSuffix ∧ escape pathByte model = model.
Proof.
  intros P E. unfold geminiPath, PathEscape. rewrite E, escape_plain by done. split; [done|]. apply escape_plain. intros c Hc. by apply segment_in_path, P.
Qed.

Definition geminiBase : URL := MkURL "https" false "generativelanguage.googleapis.com" "/v1beta" "" "" "https://generativelanguage.googleapis.com".
Definition geminiOnly (raw : string) : option URL := if bool_decide (raw = defaultGeminiEndpoint) then Some geminiBase else None.

(** Any other name is escaped twice: once by [PathEscape], and the percent
    signs again by the URL whose path it is made part of. *)
Lemma model_escaped_twice : normalizeGeminiEndpoint geminiOnly "" "tuned/energy" = Ok "https://generativelanguage.googleapis.com/v1beta/models/tuned%252Fenergy:generateContent" ∧
  normalizeGeminiEndpoint geminiOnly "" "gemini-2.5-flash" = Ok "https://generativelanguage.googleapis.com/v1beta/models/gemini-2.5-flash:generateContent".
Proof. vm_compute. auto. Qed.

(** ** The factory and the loader *)
(** The loader takes three vendors that no provider is built for. *)
Lemma vendor_accepted_but_not_built urlParse vendor : vendor ∈ ["openai"; "deepseek"; "openai_compatible"] →
  let cfg := Config.MkProvider "cloud_llm" 10000 "" "" vendor "KEY" "m" "https://h" in
  Config.validateProvider cfg = Ok tt ∧ NewFromConfig urlParse (λ _, "secret") cfg = Err (EMsg "cloud_llm: vendor is not implemented").
Proof. rewrite !elem_of_cons, elem_of_nil. intros [->|[->|[->|[]]]]; split; vm_compute; reflexivity. Qed.

Example promptNumbers : formatG (ofDecimal false 2305 (-1)) = "230.5" ∧ formatG (ofInt 1000000) = "1e+06" ∧ formatG (ofInt 123456) = "123456" ∧
  formatG (ofDecimal true 25 (-6)) = "-2.5e-05" ∧ formatG (ofDecimal false 1 (-4)) = "0.0001".
Proof. vm_compute. auto. Qed.

#[local] Instance silentServers : Servers := {
  encodeClaude := λ _, Some ""; encodeGemini := λ _, Some ""; doClaude := λ _ _, inr OtherFailure; doGemini := λ _ _, inl (200, inl (MkGenerated [[" hello "]] 1 2 0)) }.
#[local] Instance silentLlama : LlamaServer := { encodeCompletion := λ _, None; doCompletion := λ _ _, inr OtherFailure; getProps := λ _ _, inr OtherFailure }.
Definition geminiProvider : Provider := PCloud (MkCloud CloudVendorGemini "https://h/models/m:generateContent" "secret" "m").
Definition askTier : ReasoningRequest := MkRequest "r1" "d1" "current" "over" "why?" (MkContext fzero "" 0 []) "B" 0 None.

End ProvidersSpec.
