(* ===== verification/Reporting.v ===== *)
(** * Weekly reports (reporting/weekly.go, runner.go, delivery.go, gemini.go)

    The schedule, the report's input built from the runtime's exports, what
    the provider is sent and how its answer is read, and the deliverers. The
    runtime client is an interface, [RuntimeSource]; the JSON encoder of the
    provider's input and of the report file, [url.Parse], the decoder of the
    provider's answer and the HTTP exchange are parameters or inputs. A time
    zone is what [Location.lookup] gives: the offset in force at a second and
    the seconds from and until which it is. Days are counted from the epoch,
    which leaves [time.Date]'s and [AddDate]'s day arithmetic as it is. *)
From S2P Require Import Prelude GoBytes Json Float64 Contracts Worker ExportData Webhook Config Providers.

Module Reporting.
Import Float64 Contracts ExportData HttpClient.
Import Config (IsAbs, Clean, parseClock, dedup).
Import Webhook (lowered, lowerRune).

(** ** The schedule *)
Record zone := MkZone { zn_offset : Z; zn_start : Z; zn_end : Z }.
Definition location : Type := Z → zone.

Definition daySeconds : Z := 86400.

(** [time.Date] of a local reading in seconds. *)
Definition dateIn (loc : location) (local : Z) : Z :=
  let z := loc local in
  if zn_offset z =? 0 then local
  else
    let utc := local - zn_offset z in
    if (utc <? zn_start z) || (zn_end z <=? utc) then local - zn_offset (loc utc) else utc.

(** The reading of an instant, in seconds. *)
Definition localOf (loc : location) (sec : Z) : Z := sec + zn_offset (loc sec).
Definition weekdayOf (local : Z) : Z := (local / daySeconds + 4) mod 7.

(** [AddDate(0, 0, days)]: the same clock reading on another day. *)
Definition addDays (loc : location) (sec days : Z) : Z :=
  let local := localOf loc sec in dateIn loc ((local / daySeconds + days) * daySeconds + local mod daySeconds).

Record Schedule := MkSchedule { sc_Weekday : Z; sc_Hour : Z; sc_Minute : Z; sc_Location : location }.

(** [now] in nanoseconds; the run is a second. *)
Definition NextRun (now : Z) (s : Schedule) : Z :=
  let loc := sc_Location s in
  let local := localOf loc (now / nanos) in
  let candidate := dateIn loc (local / daySeconds * daySeconds + sc_Hour s * 3600 + sc_Minute s * 60) in
  let daysUntil := Z.rem (sc_Weekday s - weekdayOf local + 7) 7 in
  let candidate := addDays loc candidate daysUntil in
  if now <? candidate * nanos then candidate else addDays loc candidate 7.

Definition weekdayNames : list string := ["sunday"; "monday"; "tuesday"; "wednesday"; "thursday"; "friday"; "saturday"].

Definition parseWeekday (day : string) : res Z :=
  match list_find (λ n, n = lowered (TrimSpace day)) weekdayNames with
  | Some (i, _) => Ok (Z.of_nat i)
  | None => Err (EMsg "reporting: weekly_report.day must be a weekday name")
  end.

Definition NewSchedule (LoadLocation : string → option location) (day clock timezone : string) : res Schedule :=
  match parseWeekday day with
  | Err e => Err e
  | Ok weekday =>
    match parseClock (TrimSpace clock) with
    | None => Err (EMsg "reporting: weekly_report.time must use HH:MM 24-hour format")
    | Some (hour, minute) =>
      match LoadLocation (TrimSpace timezone) with
      | None => Err (EMsg "reporting: weekly_report.timezone is invalid")
      | Some loc => Ok (MkSchedule weekday hour minute loc)
      end
    end
  end.

(** ** The request *)
Definition defaultWeeklyWindowMS : Z := 7 * 24 * 3600 * 1000.
Definition contributorActionTaken : string := "coalesced".

Record WeeklyReportRequest := MkReportRequest {
  wq_DeviceID : string; wq_CustomerName : string; wq_SiteName : string; wq_Timezone : string; wq_SensorIDs : list string; wq_SinceMS : Z; wq_UntilMS : Z }.

(** First occurrences of the trimmed names; a blank one is refused. *)
Definition normalizeSensors (raw : list string) : res (list string) :=
  let names := TrimSpace <$> raw in
  if bool_decide ("" ∈ names) then Err (EMsg "reporting: sensor_id must not be empty") else Ok (dedup ∅ names).

Definition normalizeRequest (zoneKnown : string → bool) (req : WeeklyReportRequest) (nowMS : Z) : res WeeklyReportRequest :=
  let device := TrimSpace (wq_DeviceID req) in
  let timezone := TrimSpace (wq_Timezone req) in
  if bool_decide (device = "") then Err (EMsg "reporting: device_id must not be empty")
  else if containsAny ["/"; "+"; "#"]%char device then Err (EMsg "reporting: device_id must not contain MQTT topic separators or wildcards")
  else if bool_decide (wq_SensorIDs req = []) then Err (EMsg "reporting: at least one sensor_id is required")
  else if negb (bool_decide (timezone = "")) && negb (zoneKnown timezone) then Err (EMsg "reporting: timezone is invalid")
  else match normalizeSensors (wq_SensorIDs req) with
  | Err e => Err e
  | Ok sensors =>
    let until := if wq_UntilMS req =? 0 then nowMS else wq_UntilMS req in
    let since := if wq_SinceMS req =? 0 then wrap64 (until - defaultWeeklyWindowMS) else wq_SinceMS req in
    if since <=? 0 then Err (EMsg "reporting: since_ms must be positive")
    else if until <=? since then Err (EMsg "reporting: until_ms must be greater than since_ms")
    else Ok (MkReportRequest device (TrimSpace (wq_CustomerName req)) (TrimSpace (wq_SiteName req)) timezone sensors since until)
  end.

(** ** What a report shows of a device's health *)
Record CustomerGatewayBrokerPosture := MkCustomerBroker {
  cb_Available : bool; cb_GatewayEnabled : bool; cb_DeploymentCheck : string; cb_AnonymousAccess : string; cb_ACLPolicy : string;
  cb_RequireCredentials : bool; cb_CredentialsConfigured : bool; cb_RequiresACLHardening : bool }.
Record CustomerStateStoreEncryptionPosture := MkCustomerEncryption {
  ce_Available : bool; ce_Mode : string; ce_Satisfied : bool; ce_MarkerConfigured : bool; ce_PathPrefixConfigured : bool }.
Record CustomerAlertOutboxPosture := MkCustomerOutbox {
  co_Available : bool; co_BacklogCount : Z; co_OldestQueuedAgeMS : Z; co_RetryIntervalMinutes : float64; co_MaxNonTierDAttempts : Z;
  co_TierDCriticalWarningThreshold : Z; co_BatchSize : Z }.
Record CustomerHealthSummary := MkSummary {
  su_Status : string; su_LastReadingMS : Z; su_GatewaySeen : bool; su_PolicyStatus : string; su_GatewayBrokerPosture : option CustomerGatewayBrokerPosture;
  su_StateStoreEncryption : option CustomerStateStoreEncryptionPosture; su_AlertOutbox : option CustomerAlertOutboxPosture }.

Definition known (allowed : list string) (value : string) : string := if bool_decide (value ∈ allowed) then value else "unknown".
Definition brokerDeploymentCheck : string → string := known ["warning"; "required"].
Definition brokerAnonymousAccess : string → string := known ["disabled"].
Definition brokerACLPolicy : string → string := known ["per_device_required"].
Definition stateStoreEncryptionMode : string → string := known ["none"; "filesystem_required"].

Definition summarizeGatewayBrokerPosture (p : GatewayBrokerPosture) : CustomerGatewayBrokerPosture :=
  MkCustomerBroker (gb_Available p) (gb_GatewayEnabled p) (brokerDeploymentCheck (gb_DeploymentCheck p)) (brokerAnonymousAccess (gb_AnonymousAccess p)) (brokerACLPolicy (gb_ACLPolicy p))
    (gb_RequireCredentials p) (gb_CredentialsConfigured p) (gb_RequiresACLHardening p).
Definition summarizeStateStoreEncryption (p : StateStoreEncryptionPosture) : CustomerStateStoreEncryptionPosture :=
  MkCustomerEncryption (se_Available p) (stateStoreEncryptionMode (se_Mode p)) (se_Satisfied p) (se_MarkerConfigured p) (se_PathPrefixConfigured p).
Definition summarizeAlertOutbox (p : AlertOutboxPosture) : CustomerAlertOutboxPosture :=
  MkCustomerOutbox (ao_Available p) (ao_BacklogCount p) (ao_OldestQueuedAgeMS p) (ao_RetryIntervalMinutes p) (ao_MaxNonTierDAttempts p) (ao_TierDCriticalWarningThreshold p) (ao_BatchSize p).
Definition summarizeHealth (h : HealthSnapshot) : CustomerHealthSummary :=
  MkSummary (hs_Status h) (hs_LastReadingMS h) (hs_GatewaySeen h) (hs_PolicyStatus h) (summarizeGatewayBrokerPosture <$> hs_GatewayBrokerPosture h)
    (summarizeStateStoreEncryption <$> hs_StateStoreEncryption h) (summarizeAlertOutbox <$> hs_AlertOutbox h).

(** ** The report *)
Record SensorSeries := MkSeries { ss_SensorID : string; ss_Rows : list SensorAggregate }.
Record WeeklyReportInput := MkReportInput {
  wi_CustomerName : string; wi_SiteName : string; wi_Timezone : string; wi_WindowStartMS : Z; wi_WindowEndMS : Z; wi_Health : CustomerHealthSummary;
  wi_SensorSeries : list SensorSeries; wi_Actions : list ActionLogEntry; wi_TierCDecisions : list TierCDecisionEntry; wi_Warnings : list string }.
Record ProviderReport := MkProviderReport { pr_Text : string; pr_Provider : string; pr_Model : string; pr_Tokens : Z; pr_LatencyMS : Z; pr_Metadata : option (gmap string json) }.
Record WeeklyReportArtifact := MkArtifact {
  wa_DeviceID : string; wa_CustomerName : string; wa_SiteName : string; wa_WindowStartMS : Z; wa_WindowEndMS : Z; wa_GeneratedAtMS : Z; wa_Text : string;
  wa_Provider : string; wa_Model : string; wa_Tokens : Z; wa_LatencyMS : Z; wa_RuntimeHealth : CustomerHealthSummary; wa_SensorSeriesCount : Z; wa_SensorRowCount : Z;
  wa_ActionCount : Z; wa_TierCDecisionCount : Z; wa_Warnings : list string; wa_Metadata : option (gmap string json) }.

Definition isContributorRecord (row : ActionLogEntry) : bool := bool_decide (al_ActionTaken row = contributorActionTaken).
Definition dispatchRecordsOnly (rows : list ActionLogEntry) : list ActionLogEntry := filter (λ row, isContributorRecord row = false) rows.

(** What a generator needs of the runtime client. *)
Class RuntimeSource (W : Type) := {
  Health : string → EM W HealthSnapshot;
  SensorHistory : SensorHistoryRequest → EM W (list SensorAggregate);
  ActionLog : BoundedWindow → EM W (list ActionLogEntry);
  TierCDecisionLog : BoundedWindow → EM W (list TierCDecisionEntry) }.

Section Generate.
Context (wide : float64 → Z) (zoneKnown : string → bool).

Definition alertOutboxWarningRequired (posture : option CustomerAlertOutboxPosture) : bool :=
  match posture with
  | None => false
  | Some p =>
    if negb (co_Available p) || (co_BacklogCount p <=? 0) then false
    else if (0 <? co_TierDCriticalWarningThreshold p) && (co_TierDCriticalWarningThreshold p <=? co_BacklogCount p) then true
    else let retryIntervalMS := toInt64 wide (fmul (co_RetryIntervalMinutes p) (ofInt 60000)) in (0 <? retryIntervalMS) && (retryIntervalMS <=? co_OldestQueuedAgeMS p)
  end.

Definition healthPostureWarnings (h : CustomerHealthSummary) : list string :=
  (match su_GatewayBrokerPosture h with
   | Some b => (if cb_GatewayEnabled b && cb_RequiresACLHardening b then ["runtime gateway broker posture requires ACL hardening"] else []) ++
               (if cb_GatewayEnabled b && cb_RequireCredentials b && negb (cb_CredentialsConfigured b) then ["runtime gateway broker credentials are not configured"] else [])
   | None => []
   end) ++
  (match su_StateStoreEncryption h with
   | Some e => if ce_Available e && bool_decide (ce_Mode e = "filesystem_required") && negb (ce_Satisfied e) then ["runtime state-store encryption posture is not satisfied"] else []
   | None => []
   end) ++
  (if alertOutboxWarningRequired (su_AlertOutbox h) then ["runtime alert outbox has queued notifications"] else []).

Context {W : Type} `{RuntimeSource W}.
#[local] Open Scope em_scope.

Fixpoint allSeries (window : BoundedWindow) (sensors : list string) : EM W (list SensorSeries) :=
  match sensors with
  | [] => eret []
  | sensorID :: rest =>
    rows <- SensorHistory (MkHistoryRequest window sensorID DefaultWeeklyReportBucketMS);;
    series <- allSeries window rest;; eret (MkSeries sensorID rows :: series)
  end.

Definition truncation (n : nat) (log : string) : list string := if Z.of_nat n =? MaxLimit then [log +:+ " may be truncated at runtime export limit"] else [].

(** The input of a normalised request, from the exports in their order. *)
Definition buildInput (req : WeeklyReportRequest) : EM W WeeklyReportInput :=
  let window := MkWindow (wq_DeviceID req) (wq_SinceMS req) (wq_UntilMS req) MaxLimit in
  health <- Health (wq_DeviceID req);;
  series <- allSeries window (wq_SensorIDs req);;
  actionRows <- ActionLog window;;
  decisions <- TierCDecisionLog window;;
  let summary := summarizeHealth health in
  eret (MkReportInput (wq_CustomerName req) (wq_SiteName req) (wq_Timezone req) (wq_SinceMS req) (wq_UntilMS req) summary series (dispatchRecordsOnly actionRows) decisions
    (healthPostureWarnings summary ++ truncation (length actionRows) "action_log" ++ truncation (length decisions) "tier_c_decision_log")).

(** [provider] answers the input. *)
Definition Generate (provider : WeeklyReportInput → res ProviderReport) (nowMS : Z) (raw : WeeklyReportRequest) : EM W WeeklyReportArtifact := λ w,
  match normalizeRequest zoneKnown raw nowMS with
  | Err e => (Err e, w)
  | Ok req =>
    match buildInput req w with
    | (Err e, w1) => (Err e, w1)
    | (Ok input, w1) =>
      match provider input with
      | Err e => (Err e, w1)
      | Ok report =>
        (Ok (MkArtifact (wq_DeviceID req) (wq_CustomerName req) (wq_SiteName req) (wq_SinceMS req) (wq_UntilMS req) nowMS (pr_Text report) (pr_Provider report) (pr_Model report)
           (pr_Tokens report) (pr_LatencyMS report) (wi_Health input) (Z.of_nat (length (wi_SensorSeries input))) (zsum (λ s, Z.of_nat (length (ss_Rows s))) (wi_SensorSeries input))
           (Z.of_nat (length (wi_Actions input))) (Z.of_nat (length (wi_TierCDecisions input))) (wi_Warnings input) (pr_Metadata report)), w1)
      end
    end
  end.
End Generate.

(** ** Delivery: the file's name *)
Definition slugRune (r : Z) : ascii := if in_rng 97 122 r || in_rng 48 57 r then bc r else "_"%char.
Definition underscored (name : string) : string := foldr (λ p acc, String (slugRune (lowerRune p.1)) acc) "" (runes name).

Definition us : ascii := "_"%char.
Fixpoint hasDouble (s : string) : bool :=
  match s with String a ((String b _) as r) => (Ascii.eqb a us && Ascii.eqb b us) || hasDouble r | _ => false end.
(** [strings.ReplaceAll(s, "__", "_")]. *)
Fixpoint replaceDouble (s : string) : string :=
  match s with
  | String a ((String b r') as r) => if Ascii.eqb a us && Ascii.eqb b us then String us (replaceDouble r') else String a (replaceDouble r)
  | _ => s
  end.
Fixpoint collapse (fuel : nat) (s : string) : string :=
  match fuel with O => s | S n => if hasDouble s then collapse n (replaceDouble s) else s end.

Fixpoint trimLeftUS (s : string) : string := match s with String a r => if Ascii.eqb a us then trimLeftUS r else s | EmptyString => "" end.
Fixpoint onlyUS (s : string) : bool := match s with EmptyString => true | String a r => Ascii.eqb a us && onlyUS r end.
Fixpoint trimRightUS (s : string) : string := if onlyUS s then "" else match s with EmptyString => "" | String a r => String a (trimRightUS r) end.

Definition siteSlug (name : string) : string :=
  if bool_decide (TrimSpace name = "") then "unknown"
  else let s := underscored name in trimRightUS (trimLeftUS (collapse (String.length s) s)).

(** The civil date of a day, and ["2006-01-02"]. *)
Definition civil (day : Z) : Z * Z * Z :=
  let z := day + 719468 in
  let era := z / 146097 in
  let doe := z mod 146097 in
  let yoe := (doe - doe / 1460 + doe / 36524 - doe / 146096) / 365 in
  let doy := doe - (365 * yoe + yoe / 4 - yoe / 100) in
  let mp := (5 * doy + 2) / 153 in
  let m := if mp <? 10 then mp + 3 else mp - 9 in
  (yoe + era * 400 + (if m <=? 2 then 1 else 0), m, doy - (153 * mp + 2) / 5 + 1).

Definition padded (width n : Z) : string :=
  let s := FormatInt n in Nat.iter (Z.to_nat (width - slen s)) (String "0") s.

Definition dateOf (ms : Z) : string :=
  let '(y, m, d) := civil (ms / 86400000) in padded 4 y +:+ "-" +:+ padded 2 m +:+ "-" +:+ padded 2 d.

Definition fileName (a : WeeklyReportArtifact) : string := "weekly-" +:+ siteSlug (wa_SiteName a) +:+ "-" +:+ dateOf (wa_WindowEndMS a) +:+ ".json".

(** [filepath.Join] of the directory and the name. *)
Definition reportPath (dir : string) (a : WeeklyReportArtifact) : string := Clean (dir +:+ "/" +:+ fileName a).

Definition NewFileDeliverer (exists_ : bool) (dir : string) : res string :=
  if negb (IsAbs dir) then Err (EMsg "reporting: file deliverer directory must be an absolute path")
  else if negb exists_ then Err (EMsg "reporting: file deliverer directory") else Ok dir.

(** What the file holds: everything but the device and the provider's
    metadata. *)
Record weeklyReportFilePayload := MkFilePayload {
  fp_CustomerName : string; fp_SiteName : string; fp_WindowStartMS : Z; fp_WindowEndMS : Z; fp_GeneratedAtMS : Z; fp_Text : string; fp_Provider : string; fp_Model : string;
  fp_Tokens : Z; fp_LatencyMS : Z; fp_RuntimeHealth : CustomerHealthSummary; fp_SensorSeriesCount : Z; fp_SensorRowCount : Z; fp_ActionCount : Z; fp_TierCDecisionCount : Z;
  fp_Warnings : list string }.
Definition toFilePayload (a : WeeklyReportArtifact) : weeklyReportFilePayload :=
  MkFilePayload (wa_CustomerName a) (wa_SiteName a) (wa_WindowStartMS a) (wa_WindowEndMS a) (wa_GeneratedAtMS a) (wa_Text a) (wa_Provider a) (wa_Model a) (wa_Tokens a) (wa_LatencyMS a)
    (wa_RuntimeHealth a) (wa_SensorSeriesCount a) (wa_SensorRowCount a) (wa_ActionCount a) (wa_TierCDecisionCount a) (wa_Warnings a).

Definition NewCloudDeliverer (urlParse : string → option URL) (endpoint apiKey : string) : res (string * string) :=
  match urlParse endpoint with
  | None => Err (EMsg "reporting: cloud deliverer endpoint must be an absolute https URL")
  | Some u =>
    if negb (bool_decide (ul_scheme u = "https")) then Err (EMsg "reporting: cloud deliverer endpoint must be an absolute https URL")
    else if ul_user u then Err (EMsg "reporting: cloud deliverer endpoint must not contain credentials")
    else if negb (bool_decide (ul_fragment u = "")) then Err (EMsg "reporting: cloud deliverer endpoint must not contain a fragment")
    else if bool_decide (apiKey = "") then Err (EMsg "reporting: cloud deliverer API key must not be empty")
    else Ok (endpoint, apiKey)
  end.
(** [Do]: the status the endpoint answered, if it did. *)
Definition cloudDeliver {W} (encodePayload : weeklyReportFilePayload → option string) (Do : httpRequest → W → option Z * W) (d : string * string) (a : WeeklyReportArtifact) : EM W unit := λ w,
  match encodePayload (toFilePayload a) with
  | None => (Err (EMsg "reporting: marshal cloud report payload"), w)
  | Some data =>
    match Do (MkHTTPRequest d.1 [("Content-Type", "application/json"); ("Authorization", "Bearer " +:+ d.2)] data) w with
    | (None, w1) => (Err (EMsg "reporting: cloud delivery request failed"), w1)
    | (Some code, w1) => (if (code <? 200) || (300 <=? code) then Err (EMsg "reporting: cloud delivery returned status") else Ok tt, w1)
    end
  end.

(** [WriteFile]: the file system's. *)
Definition fileDeliver {W} (encodePayload : weeklyReportFilePayload → option string) (WriteFile : string → string → EM W unit) (dir : string) (a : WeeklyReportArtifact) : EM W unit := λ w,
  if negb (IsAbs dir) then (Err (EMsg "reporting: file deliverer directory must be an absolute path"), w)
  else match encodePayload (toFilePayload a) with
  | None => (Err (EMsg "reporting: marshal report artifact"), w)
  | Some data => match WriteFile (reportPath dir a) data w with
    | (Err _, w1) => (Err (EMsg "reporting: write report file"), w1)
    | (Ok _, w1) => (Ok tt, w1)
    end
  end.

(** [LogDeliverer.Deliver]: one line, and never an error. *)
Record reportLine := MkReportLine {
  rl_device_id : string; rl_provider : string; rl_model : string; rl_sensor_rows : Z; rl_actions : Z; rl_tier_c_decisions : Z; rl_tokens : Z; rl_latency_ms : Z; rl_warnings : Z }.
Definition logDeliver {W} (Info : reportLine → W → W) (a : WeeklyReportArtifact) : EM W unit := λ w,
  (Ok tt, Info (MkReportLine (wa_DeviceID a) (wa_Provider a) (wa_Model a) (wa_SensorRowCount a) (wa_ActionCount a) (wa_TierCDecisionCount a) (wa_Tokens a) (wa_LatencyMS a)
                  (Z.of_nat (length (wa_Warnings a)))) w).

(** ** The provider *)
Definition defaultGeminiReportEndpoint : string := "https://generativelanguage.googleapis.com/v1beta".
Definition geminiReportSuffix : string := ":generateContent".
Definition geminiReportAPIKeyHeader : string := "x-goog-api-key".
Definition defaultReportMaxTokens : Z := 1400.

Record geminiReportContent := MkGeminiContent { gc_Role : string; gc_Parts : list string }.
Record geminiReportRequest := MkGeminiRequest { gr_Contents : list geminiReportContent; gr_MaxOutputTokens : Z }.
Record geminiReportUsageMetadata := MkGeminiUsage { gu_PromptTokenCount : Z; gu_CandidatesTokenCount : Z; gu_TotalTokenCount : Z }.
Record geminiReportResponse := MkGemini { gm_Candidates : list geminiReportContent; gm_UsageMetadata : geminiReportUsageMetadata }.

Definition geminiText (r : geminiReportResponse) : string := paragraphs (concat (gc_Parts <$> gm_Candidates r)).
Definition tokensUsed (m : geminiReportUsageMetadata) : Z :=
  if 0 <? gu_TotalTokenCount m then gu_TotalTokenCount m else wrap64 (gu_PromptTokenCount m + gu_CandidatesTokenCount m).

Record GeminiProvider := MkGeminiProvider { gp_apiKey : string; gp_model : string; gp_endpoint : string }.

Section Gemini.
Context (urlParse : string → option URL).

Definition normalizeGeminiReportEndpoint (raw model : string) : res string :=
  let base := if bool_decide (TrimSpace raw = "") then defaultGeminiReportEndpoint else TrimSpace raw in
  match urlParse base with
  | None => Err (EMsg "reporting gemini: invalid base_url")
  | Some parsed =>
    if bool_decide (ul_scheme parsed = "") || bool_decide (ul_host parsed = "") then Err (EMsg "reporting gemini: invalid base_url")
    else if negb (bool_decide (ul_scheme parsed = "https")) then Err (EMsg "reporting gemini: base_url must use https")
    else Ok (URL_String parsed (trimSlashes (ul_path parsed) +:+ "/models/" +:+ PathEscape model +:+ geminiReportSuffix))
  end.

Definition NewGeminiProvider (apiKey model base : string) : res GeminiProvider :=
  if bool_decide (TrimSpace apiKey = "") then Err (EMsg "reporting gemini: API key must not be empty")
  else if bool_decide (TrimSpace model = "") then Err (EMsg "reporting gemini: model must not be empty")
  else match normalizeGeminiReportEndpoint base (TrimSpace model) with
  | Err e => Err e
  | Ok endpoint => Ok (MkGeminiProvider (TrimSpace apiKey) (TrimSpace model) endpoint)
  end.

Definition NewProviderFromConfig (Getenv : string → string) (cfg : Config.ReportingConfig) : res GeminiProvider :=
  if bool_decide (Config.rc_Provider cfg = Config.ReportingProviderGemini) then
    let apiKey := TrimSpace (Getenv (TrimSpace (Config.rc_GeminiAPIKeyEnv cfg))) in
    if bool_decide (apiKey = "") then Err (EMsg "reporting.gemini.api_key_env is empty")
    else NewGeminiProvider apiKey (Config.rc_GeminiModel cfg) (Config.rc_GeminiBaseURL cfg)
  else if bool_decide (Config.rc_Provider cfg = "") then Err (EMsg "reporting.provider must not be empty")
  else Err (EMsg "reporting.provider is unknown").
End Gemini.

Definition promptText : string :=
  "You are Ori, an operational intelligence assistant for Nigerian SMEs. " +:+
  "Write a concise weekly energy report for the business owner. Focus on cost, reliability, likely causes, and practical next actions. " +:+
  "If runtime posture warnings are present, explain them as operational reliability risks without exposing secrets or internal implementation details. " +:+
  "Do not claim that physical actions were taken unless they appear in the action log. " +:+
  "Use plain language and keep it under 350 words." +:+ newline +:+ newline +:+ "Structured weekly input JSON:" +:+ newline.

(** [json.Marshal] of the input and of the request. *)
Class GeminiEncoder := { encodeInput : WeeklyReportInput → option string; encodeRequest : geminiReportRequest → option string }.

Definition buildGeminiWeeklyPrompt `{GeminiEncoder} (input : WeeklyReportInput) : res string :=
  match encodeInput input with None => Err (EMsg "reporting gemini: encode weekly input") | Some encoded => Ok (promptText +:+ encoded) end.

(** What came back of a request: the status and the decoded body, which is
    read up to a mebibyte. *)
Definition exchange (R : Type) : Type := httpRequest → option (Z * R).

Definition GenerateWeeklyReport `{GeminiEncoder} (Do : exchange (option geminiReportResponse)) (latencyMS : Z) (p : GeminiProvider) (input : WeeklyReportInput) : res ProviderReport :=
  match buildGeminiWeeklyPrompt input with
  | Err e => Err e
  | Ok prompt =>
    match encodeRequest (MkGeminiRequest [MkGeminiContent "user" [prompt]] defaultReportMaxTokens) with
    | None => Err (EMsg "reporting gemini: encode request")
    | Some encoded =>
      match Do (MkHTTPRequest (gp_endpoint p) [("Content-Type", "application/json"); (geminiReportAPIKeyHeader, gp_apiKey p)] encoded) with
      | None => Err (EMsg "reporting gemini: request failed")
      | Some (code, body) =>
        if (code <? 200) || (300 <=? code) then Err (EMsg "reporting gemini: returned HTTP error")
        else match body with
        | None => Err (EMsg "reporting gemini: decode response")
        | Some decoded =>
          let text := TrimSpace (geminiText decoded) in
          if bool_decide (text = "") then Err (EMsg "reporting gemini: response missing text content")
          else Ok (MkProviderReport text Config.ReportingProviderGemini (gp_model p) (tokensUsed (gm_UsageMetadata decoded)) latencyMS (Some {["prompt_version" := jstr "weekly-report-v1"]}))
        end
      end
    end
  end.

(** ** The runner *)
Record turn := MkTurn { tn_now : Z; tn_cancelled : bool; tn_generateMS : Z }.
Inductive runnerEvent :=
| EScheduled (next wait : Z)
| EGenerationFailed (e : error)
| EDelivered (i : nat) (a : WeeklyReportArtifact)
| EDeliveryFailed (i : nat) (e : error).

(** [NewWeeklyReportRunner]: without deliverers the log is one; what is nil is
    refused. *)
Definition NewWeeklyReportRunner {D} (generator : bool) (loc : option location) (log : D) (deliverers : list (option D)) : res (list D) :=
  if negb generator then Err (EMsg "reporting: weekly report generator must not be nil")
  else if negb (bool_decide (is_Some loc)) then Err (EMsg "reporting: weekly report schedule location must not be nil")
  else if bool_decide (Exists (λ d, d = None) (if bool_decide (length deliverers = 0%nat) then [Some log] else deliverers)) then Err (EMsg "reporting: deliverer must not be nil")
  else Ok (omap id (if bool_decide (length deliverers = 0%nat) then [Some log] else deliverers)).

Section Runner.
Context {W : Type} (generate : Z → EM W WeeklyReportArtifact) (deliverers : list (WeeklyReportArtifact → EM W unit)) (schedule : Schedule).

(** Every deliverer has its turn, whatever the others answered. *)
Fixpoint deliverAll (i : nat) (ds : list (WeeklyReportArtifact → EM W unit)) (a : WeeklyReportArtifact) (w : W) : list runnerEvent * W :=
  match ds with
  | [] => ([], w)
  | d :: ds' =>
    let '(r, w1) := d a w in
    let '(evs, w2) := deliverAll (S i) ds' a w1 in
    ((match r with Ok _ => EDelivered i a | Err e => EDeliveryFailed i e end) :: evs, w2)
  end.

(** [Run] over the turns of its loop: what the clock read, whether the
    context ended before the timer did, and the generator's clock. *)
Fixpoint Run (turns : list turn) (w : W) : list runnerEvent * W :=
  match turns with
  | [] => ([], w)
  | t :: turns' =>
    let next := NextRun (tn_now t) schedule in
    let wait := Z.max (next * nanos - tn_now t) 0 in
    if tn_cancelled t then ([EScheduled next wait], w)
    else
      let '(evs, w1) := match generate (tn_generateMS t) w with
                        | (Err e, w1) => ([EGenerationFailed e], w1)
                        | (Ok a, w1) => deliverAll 0 deliverers a w1
                        end in
      let '(rest, w2) := Run turns' w1 in
      (EScheduled next wait :: evs ++ rest, w2)
  end.
End Runner.
End Reporting.
