(* ===== verification/ReportingSpec.v ===== *)
(** * Weekly reports: what they promise

    The schedule gives the next due instant; a report's file stays in its
    directory; a report is made of the exports of a valid window, or nothing
    reaches the provider; every deliverer has its turn. *)
From S2P Require Import Prelude GoBytes Json Float64 Contracts GatewayState ExportData NetAddr Webhook Config ConfigSpec Providers Reporting.

Module ReportingSpec.
Import Float64 Contracts ExportData Config ConfigSpec HttpClient Reporting.

(** ** The schedule *)
Ltac divlia := Z.to_euclidean_division_equations; lia.
Definition fixedZone (off : Z) (loc : location) : Prop := ∀ t, zn_offset (loc t) = off.
Definition soundSchedule (s : Schedule) : Prop := 0 ≤ sc_Weekday s < 7 ∧ 0 ≤ sc_Hour s < 24 ∧ 0 ≤ sc_Minute s < 60.
Definition clockOf (s : Schedule) : Z := sc_Hour s * 3600 + sc_Minute s * 60.

(** A second at which the zone's calendar and clock show the schedule's. *)
Definition due (s : Schedule) (t : Z) : Prop :=
  let local := localOf (sc_Location s) t in weekdayOf local = sc_Weekday s ∧ local mod daySeconds = clockOf s.

Lemma clock_range s : soundSchedule s → 0 ≤ clockOf s < daySeconds.
Proof. unfold soundSchedule, clockOf, daySeconds. lia. Qed.

Lemma dateIn_fixed off loc local : fixedZone off loc → dateIn loc local = local - off.
Proof. intros F. unfold dateIn. rewrite !F. destruct (Z.eqb_spec off 0) as [->|_]; [lia|]. by destruct (_ || _). Qed.

Lemma addDays_fixed off loc sec days : fixedZone off loc → addDays loc sec days = sec + days * daySeconds.
Proof. intros F. unfold addDays, localOf. rewrite F, (dateIn_fixed off) by done. cbv zeta. unfold daySeconds. divlia. Qed.

Lemma dueDay s off t : fixedZone off (sc_Location s) → soundSchedule s →
  due s t ↔ ∃ day, t = day * daySeconds + clockOf s - off ∧ (day + 4) mod 7 = sc_Weekday s.
Proof.
  intros F S. pose proof (clock_range s S) as C. unfold due, localOf, weekdayOf, daySeconds in *. cbv zeta. rewrite F. split.
  - intros [Hw Hc]. exists ((t + off) / 86400). split; [|done]. divlia.
  - intros (day & -> & Hw). replace (day * 86400 + clockOf s - off + off) with (clockOf s + day * 86400) by lia.
    rewrite Z.div_add, Z.mod_add, (Z.div_small (clockOf s)), (Z.mod_small (clockOf s)) by lia. done.
Qed.

Lemma until_day wd day : 0 ≤ wd < 7 → let d := Z.rem (wd - (day + 4) mod 7 + 7) 7 in 0 ≤ d < 7 ∧ (day + d + 4) mod 7 = wd.
Proof. intros W d. unfold d. rewrite Z.rem_mod_nonneg by divlia. split; divlia. Qed.

(** With the zone's offset fixed, [NextRun] is one of two days' runs. *)
Lemma NextRun_fixed now s off : fixedZone off (sc_Location s) → soundSchedule s → ∃ D,
  (now / nanos + off) / daySeconds ≤ D < (now / nanos + off) / daySeconds + 7 ∧ (D + 4) mod 7 = sc_Weekday s ∧
  NextRun now s = let c := D * daySeconds + clockOf s - off in if now <? c * nanos then c else c + 7 * daySeconds.
Proof.
  intros F S. set (day := (now / nanos + off) / daySeconds). destruct (until_day (sc_Weekday s) day) as [Hd Hw]; [apply S|].
  exists (day + Z.rem (sc_Weekday s - (day + 4) mod 7 + 7) 7). split; [lia|]. split; [done|].
  unfold NextRun. rewrite (addDays_fixed off), (addDays_fixed off), (dateIn_fixed off) by done.
  assert (L : localOf (sc_Location s) (now / nanos) = now / nanos + off) by (unfold localOf; by rewrite F).
  rewrite L. unfold weekdayOf. fold day.
  replace (day * daySeconds + sc_Hour s * 3600 + sc_Minute s * 60 - off + Z.rem (sc_Weekday s - (day + 4) mod 7 + 7) 7 * daySeconds)
    with ((day + Z.rem (sc_Weekday s - (day + 4) mod 7 + 7) 7) * daySeconds + clockOf s - off) by (unfold clockOf; lia). done.
Qed.

Lemma NextRun_least now s off : fixedZone off (sc_Location s) → soundSchedule s →
  let n := NextRun now s in
  due s n ∧ 0 < n * nanos - now ≤ 7 * daySeconds * nanos ∧ ∀ m, due s m → now < m * nanos → n ≤ m.
Proof.
  intros F S n. destruct (NextRun_fixed now s off F S) as (D & HD & Hw & E). pose proof (clock_range s S) as C.
  assert (T : now / nanos * nanos ≤ now < now / nanos * nanos + nanos) by (unfold nanos; divlia).
  assert (A : ∀ m, now < m * nanos → now / nanos < m) by (unfold nanos in *; divlia).
  assert (B : ∀ m, m * nanos ≤ now → m ≤ now / nanos) by (unfold nanos in *; divlia).
  assert (M : ∀ m, due s m → now < m * nanos → (if now <? (D * daySeconds + clockOf s - off) * nanos then D else D + 7) * daySeconds + clockOf s - off ≤ m).
  { intros m (k & -> & Hk)%(dueDay s off) Hm%A; [|done..]. destruct (Z.ltb_spec now ((D * daySeconds + clockOf s - off) * nanos)) as [L|L%B]; unfold daySeconds in *; divlia. }
  subst n. rewrite E. cbv zeta. destruct (now <? _) eqn:L; (split; [|split]).
  - rewrite (dueDay s off) by done. eauto.
  - apply Z.ltb_lt in L. unfold daySeconds, nanos in *. divlia.
  - intros m Hm Hn. specialize (M m Hm Hn). lia.
  - rewrite (dueDay s off) by done. exists (D + 7). unfold daySeconds. divlia.
  - apply Z.ltb_ge in L. unfold daySeconds, nanos in *. divlia.
  - intros m Hm Hn. specialize (M m Hm Hn). lia.
Qed.
Lemma parseClock_range s h m : parseClock s = Some (h, m) → 0 ≤ h < 24 ∧ 0 ≤ m < 60.
Proof.
  unfold parseClock. destruct (NetAddr.cutAt _ _) as [[a b]|]; cbn; [|done]. destruct (_ && _); [|done].
  destruct (readDigits a 0) as [x|] eqn:Ha; cbn; [|done]. destruct (readDigits b 0) as [y|] eqn:Hb; cbn; [|done].
  apply GatewayState.readDigits_mono in Ha; [|lia]. apply GatewayState.readDigits_mono in Hb; [|lia].
  destruct (Z.ltb_spec x 24), (Z.ltb_spec y 60); cbn; intros [= <- <-]; lia.
Qed.

Lemma parseWeekday_range day w : parseWeekday day = Ok w → 0 ≤ w < 7.
Proof.
  unfold parseWeekday. destruct (list_find _ _) as [[i n]|] eqn:E; [|done]. intros [= <-].
  apply list_find_Some in E as (E & _). apply lookup_lt_Some in E. cbn in E. lia.
Qed.

Lemma NewSchedule_sound LoadLocation day clock timezone s : NewSchedule LoadLocation day clock timezone = Ok s →
  soundSchedule s ∧ LoadLocation (TrimSpace timezone) = Some (sc_Location s).
Proof.
  unfold NewSchedule, soundSchedule. destruct (parseWeekday day) as [w|] eqn:Hw; [|done]. destruct (parseClock _) as [[h m]|] eqn:Hc; [|done].
  destruct (LoadLocation _) as [loc|]; [|done]. intros [= <-]. cbn. apply parseWeekday_range in Hw. apply parseClock_range in Hc. done.
Qed.

(** C30: where the time zone's offset is fixed, the run [NextRun] gives a
    schedule that was accepted is the next one: it is due on the schedule's weekday at its hour and
    minute, it is strictly after now and at most a week away, and no due
    instant after now is earlier. *)
Theorem next_run_is_next LoadLocation day clock timezone s off now :
  NewSchedule LoadLocation day clock timezone = Ok s → fixedZone off (sc_Location s) →
  let n := NextRun now s in
  due s n ∧ 0 < n * nanos - now ≤ 7 * daySeconds * nanos ∧ ∀ m, due s m → now < m * nanos → n ≤ m.
Proof. intros (S & _)%NewSchedule_sound F. by apply NextRun_least with off. Qed.

Definition lagosZone : location := λ _, MkZone 3600 i64_min i64_max.
Definition mondayMorning : Schedule := MkSchedule 1 7 30 lagosZone.

Lemma next_run_is_next_witness : due mondayMorning (NextRun 1774782000000000000 mondayMorning).
Proof. apply (next_run_is_next (λ _, Some lagosZone) "Monday" "07:30" "Africa/Lagos" mondayMorning 3600 1774782000000000000); [vm_compute; reflexivity|intros t; reflexivity]. Defined.

(** ** Any zone: the run is later, the reading may not be the schedule's *)
Definition boundedZone (loc : location) : Prop := ∀ t, -daySeconds ≤ zn_offset (loc t) ≤ daySeconds.

Lemma dateIn_near loc local : boundedZone loc → local - daySeconds ≤ dateIn loc local ≤ local + daySeconds.
Proof.
  intros B. unfold dateIn. pose proof (B local). pose proof (B (local - zn_offset (loc local))).
  destruct (Z.eqb_spec (zn_offset (loc local)) 0); [lia|]. destruct (_ || _); lia.
Qed.

Lemma addDays_near loc sec days : boundedZone loc → sec + (days - 2) * daySeconds ≤ addDays loc sec days ≤ sec + (days + 2) * daySeconds.
Proof.
  intros B. unfold addDays, localOf. set (local := sec + zn_offset (loc sec)). pose proof (B sec) as Hs.
  pose proof (dateIn_near loc ((local / daySeconds + days) * daySeconds + local mod daySeconds) B) as Hd.
  replace ((local / daySeconds + days) * daySeconds + local mod daySeconds) with (local + days * daySeconds) in * by (unfold daySeconds; divlia).
  unfold local in *. cbv zeta. lia.
Qed.

(** In a zone whose offset stays within a day, whatever it does there, the
    next run is strictly after now: the runner never spins. *)
Theorem next_run_is_later now s : boundedZone (sc_Location s) → soundSchedule s → now < NextRun now s * nanos.
Proof.
  intros B S. unfold NextRun. set (loc := sc_Location s) in *. set (t := now / nanos). set (local := localOf loc t).
  set (x := local / daySeconds * daySeconds + sc_Hour s * 3600 + sc_Minute s * 60). set (d := Z.rem _ 7). cbv zeta.
  destruct (Z.ltb_spec now (addDays loc (dateIn loc x) d * nanos)) as [|_]; [done|].
  pose proof (B t) as Ht. pose proof (dateIn_near loc x B) as H1. pose proof (addDays_near loc (dateIn loc x) d B) as H2.
  pose proof (addDays_near loc (addDays loc (dateIn loc x) d) 7 B) as H3. set (r := addDays loc (addDays loc (dateIn loc x) d) 7) in *.
  assert (0 ≤ d) by (unfold d, weekdayOf; destruct S as [S _]; set (y := local / daySeconds + 4); divlia).
  assert (local - daySeconds < x) by (destruct S as (_ & ? & ?); unfold x, daySeconds; divlia).
  assert (local = t + zn_offset (loc t)) by done.
  unfold daySeconds, nanos in *. unfold t in *. divlia.
Qed.

(** Central European time around 29 March 2026, a Sunday whose clocks go from
    02:00 to 03:00. *)
Definition springForward : location := λ t, if t <? 1774746000 then MkZone 3600 1761440400 1774746000 else MkZone 7200 1774746000 1792890000.
Definition mondayNight : Schedule := MkSchedule 1 2 30 springForward.

(** At noon that Sunday the run of Monday 02:30 is put at 03:30: the missing
    02:30 of the Sunday the search starts from reads 03:30, and the day after
    keeps that reading. The instant at which 02:30 is due comes an hour
    earlier. *)
Lemma next_run_drifts_from_a_gap : boundedZone springForward ∧ soundSchedule mondayNight ∧
  let now := 1774778400 * nanos in let n := NextRun now mondayNight in
  ¬ due mondayNight n ∧ localOf springForward n mod daySeconds = 3 * 3600 + 30 * 60 ∧ due mondayNight (n - 3600) ∧ now < (n - 3600) * nanos.
Proof.
  split; [|split; [|cbv zeta]].
  - intros t. unfold springForward, daySeconds. destruct (t <? _); cbn; lia.
  - unfold soundSchedule. cbn. lia.
  - assert (NextRun (1774778400 * nanos) mondayNight = 1774834200) as -> by (vm_compute; reflexivity).
    split; [intros [_ E]; vm_compute in E; discriminate|]. split; [vm_compute; reflexivity|]. split; [split; vm_compute; reflexivity|]. vm_compute. reflexivity.
Qed.

(** ** The report's file *)
Fixpoint sall (p : ascii → bool) (s : string) : bool := match s with EmptyString => true | String c s' => p c && sall p s' end.
Definition slugByte (c : ascii) : bool := in_rng 97 122 (bv c) || in_rng 48 57 (bv c) || Ascii.eqb c us.
Definition fileByte (c : ascii) : bool := slugByte c || Ascii.eqb c "-" || Ascii.eqb c ".".

Lemma sall_app p s t : sall p (s +:+ t) = sall p s && sall p t.
Proof. induction s as [|c s IH]; [done|]. change (String c s +:+ t) with (String c (s +:+ t)). cbn [sall]. by rewrite IH, andb_assoc. Qed.
Lemma sall_impl p q s : (∀ c, p c = true → q c = true) → sall p s = true → sall q s = true.
Proof. intros H. induction s as [|c s IH]; cbn; [done|]. rewrite !andb_true_iff. naive_solver. Qed.
Lemma sall_containsAny p bytes s : (∀ c, c ∈ bytes → p c = false) → sall p s = true → containsAny bytes s = false.
Proof.
  intros H. induction s as [|c s IH]; cbn; [done|]. rewrite andb_true_iff. intros [Hc Hs]. rewrite IH by done.
  destruct (decide (c ∈ bytes)) as [E|E]; [|rewrite bool_decide_false by done; done]. rewrite H in Hc by done. done.
Qed.

Lemma slugRune_byte r : slugByte (slugRune r) = true.
Proof.
  unfold slugRune, slugByte. destruct (in_rng 97 122 r) eqn:A; cbn; [|destruct (in_rng 48 57 r) eqn:B; cbn; [|done]].
  - unfold in_rng in A. rewrite bv_bc by lia. unfold in_rng. by rewrite A.
  - unfold in_rng in B. rewrite bv_bc by lia. change ((48 <=? r) && (r <=? 57)) with (in_rng 48 57 r) in B. unfold in_rng in *. by rewrite B, orb_true_r.
Qed.
Lemma underscored_bytes name : sall slugByte (underscored name) = true.
Proof. unfold underscored. induction (runes name) as [|[r w] l IH]; cbn; [done|]. by rewrite slugRune_byte, IH. Qed.

Lemma string_pair_ind (P : string → Prop) : P "" → (∀ a, P (String a "")) → (∀ a b r, P r → P (String b r) → P (String a (String b r))) → ∀ s, P s.
Proof.
  intros H0 H1 H2 s. enough (P s ∧ ∀ a, P (String a s)) by tauto. induction s as [|b r [IH1 IH2]]; [auto|]. split; [apply IH2|]. intros a. apply H2; auto.
Qed.

Lemma hasDouble_cons a b r : hasDouble (String a (String b r)) = (Ascii.eqb a us && Ascii.eqb b us) || hasDouble (String b r).
Proof. done. Qed.
Lemma replaceDouble_cons a b r :
  replaceDouble (String a (String b r)) = if Ascii.eqb a us && Ascii.eqb b us then String us (replaceDouble r) else String a (replaceDouble (String b r)).
Proof. done. Qed.

Lemma replaceDouble_all p s : sall p s = true → sall p (replaceDouble s) = true.
Proof.
  induction s as [|a|a b r IH1 IH2] using string_pair_ind; try done. rewrite replaceDouble_cons. cbn [sall]. rewrite !andb_true_iff. intros (Ha & Hb & Hr).
  destruct (_ && _) eqn:E; cbn [sall]; rewrite andb_true_iff.
  - apply andb_true_iff in E as [->%Ascii.eqb_eq _]. auto.
  - split; [done|]. apply IH2. cbn. by rewrite Hb, Hr.
Qed.

Lemma replaceDouble_length s : (String.length (replaceDouble s) ≤ String.length s)%nat ∧ (hasDouble s = true → (String.length (replaceDouble s) < String.length s)%nat).
Proof.
  induction s as [|a|a b r [I1 I2] [J1 J2]] using string_pair_ind; try (split; [done|discriminate]).
  rewrite hasDouble_cons, replaceDouble_cons. destruct (Ascii.eqb a us && Ascii.eqb b us); cbn [String.length orb] in *.
  - split; lia.
  - split; [lia|]. intros H%J2. lia.
Qed.

Lemma collapse_spec n s : (String.length s ≤ n)%nat → hasDouble (collapse n s) = false ∧ ∀ p, sall p s = true → sall p (collapse n s) = true.
Proof.
  revert s. induction n as [|n IH]; intros s L; cbn [collapse].
  { destruct s; [done|cbn in L; lia]. }
  destruct (hasDouble s) eqn:E; [|done]. destruct (replaceDouble_length s) as [_ H]. specialize (H E). destruct (IH (replaceDouble s)) as [I J]; [lia|].
  split; [done|]. intros p Hp. apply J. by apply replaceDouble_all.
Qed.

Lemma hasDouble_tail a s : hasDouble (String a s) = false → hasDouble s = false.
Proof. destruct s as [|b r]; [done|]. rewrite hasDouble_cons. by intros [_ H]%orb_false_iff. Qed.

Lemma trimLeftUS_spec s : (∀ p, sall p s = true → sall p (trimLeftUS s) = true) ∧ (hasDouble s = false → hasDouble (trimLeftUS s) = false) ∧ ∀ r, trimLeftUS s ≠ String us r.
Proof.
  induction s as [|a s (I & J & K)]; [done|]. cbn [trimLeftUS]. destruct (Ascii.eqb_spec a us) as [->|N].
  - split; [|split; [|done]]. { intros p H. apply I. cbn in H. by apply andb_true_iff in H as [_ H]. } intros H. apply J. by apply hasDouble_tail in H.
  - split_and!; [done..|]. by intros r [= ->].
Qed.

Lemma trimRightUS_cons a s : trimRightUS (String a s) = if onlyUS (String a s) then "" else String a (trimRightUS s).
Proof. done. Qed.

Lemma trimRightUS_spec s : (∀ p, sall p s = true → sall p (trimRightUS s) = true) ∧ (hasDouble s = false → hasDouble (trimRightUS s) = false) ∧
  (∀ r, trimRightUS s ≠ r +:+ String us "") ∧ (trimRightUS s = "" ∨ ∃ a r r', s = String a r ∧ trimRightUS s = String a r').
Proof.
  induction s as [|a s (I & J & K & H)]; [split_and!; try done; [by intros []|by left]|]. rewrite trimRightUS_cons.
  destruct (onlyUS (String a s)) eqn:E; [split_and!; try done; [by intros []|by left]|]. split_and!.
  - intros p. cbn [sall]. rewrite !andb_true_iff. intros [-> ?]. auto.
  - intros D. pose proof (hasDouble_tail _ _ D) as D'. specialize (J D'). destruct H as [->|(b & r & r' & -> & Hr)]; [done|]. rewrite Hr in *.
    rewrite hasDouble_cons in D |- *. apply orb_false_iff in D as [D _]. by rewrite D, J.
  - intros [|c r] X; [|injection X as -> X; by apply (K r)]. injection X as -> X. destruct H as [Y|(b & r & r' & -> & Hr)]; [|by rewrite Hr in X].
    cbn [onlyUS] in E. rewrite Ascii.eqb_refl in E. cbn in E. destruct s as [|b r]; [done|]. rewrite trimRightUS_cons, E in Y. done.
  - right. eauto.
Qed.

(** A site's slug is of lower-case letters, digits and single underscores
    inside it. *)
Lemma siteSlug_spec name : let s := siteSlug name in
  sall slugByte s = true ∧ hasDouble s = false ∧ (∀ r, s ≠ String us r) ∧ (∀ r, s ≠ r +:+ String us "").
Proof.
  intros s. unfold siteSlug in s. destruct (bool_decide _); subst s.
  { split_and!; try done. intros r. do 8 (destruct r as [|? r]; [done|]). discriminate. }
  set (u := underscored name). destruct (collapse_spec (String.length u) u) as [C1 C2]; [done|].
  destruct (trimLeftUS_spec (collapse (String.length u) u)) as (L1 & L2 & L3). destruct (trimRightUS_spec (trimLeftUS (collapse (String.length u) u))) as (R1 & R2 & R3 & R4).
  split_and!; [|auto| |done].
  - apply R1, L1, C2, underscored_bytes.
  - intros r E. destruct R4 as [R|(a & q & q' & R & R')]; [congruence|]. rewrite R' in E. injection E as -> _. by apply (L3 q).
Qed.


(** *** The date *)
Lemma civil_range day : 0 ≤ day ≤ i64_max / 86400000 → let '(y, m, d) := civil day in 0 ≤ y ≤ i64_max ∧ 0 ≤ m ≤ i64_max ∧ 0 ≤ d ≤ i64_max.
Proof.
  intros R. unfold civil. set (era := (day + 719468) / 146097). set (doe := (day + 719468) mod 146097).
  assert (0 ≤ doe < 146097) by (apply Z.mod_pos_bound; lia). assert (0 ≤ era ≤ day + 719468) by (unfold era; divlia).
  set (yoe := (doe - doe / 1460 + doe / 36524 - doe / 146096) / 365). assert (0 ≤ yoe ≤ 146097) by (unfold yoe; divlia).
  set (doy := doe - (365 * yoe + yoe / 4 - yoe / 100)). assert (-92 ≤ doy ≤ 146097) by (unfold doy, yoe; divlia).
  clearbody era doe yoe doy. set (mp := (5 * doy + 2) / 153). assert (153 * mp ≤ 5 * doy + 2 < 153 * mp + 153) by (unfold mp; divlia). clearbody mp.
  assert (i64_max / 86400000 * 86400000 ≤ i64_max) by (vm_compute; discriminate). unfold i64_max in *.
  destruct (Z.ltb_spec mp 10); destruct (_ <=? 2); split_and!; divlia.
Qed.

Lemma digits_sall s : digits s = true → sall fileByte s = true.
Proof.
  induction s as [|c s IH]; cbn; [done|]. rewrite !andb_true_iff. intros [Hc Hs]. split; [|auto].
  unfold is_digit in Hc. unfold fileByte, slugByte. by rewrite Hc, orb_true_r.
Qed.

Lemma padded_bytes width n : 0 ≤ n ≤ i64_max → sall fileByte (padded width n) = true.
Proof.
  intros (D & _ & _)%GatewayState.digits_FormatInt. unfold padded. apply digits_sall in D.
  induction (Z.to_nat _) as [|k IH]; [done|]. change (fileByte "0" && sall fileByte (Nat.iter k (String "0") (FormatInt n)) = true). by rewrite IH.
Qed.

Lemma dateOf_bytes ms : 0 ≤ ms ≤ i64_max → sall fileByte (dateOf ms) = true.
Proof.
  intros R. unfold dateOf. pose proof (civil_range (ms / 86400000)) as C. destruct (civil _) as [[y m] d].
  destruct C as (Y & M & D); [split; [apply Z.div_pos; lia|apply Z.div_le_mono; lia]|].
  rewrite !sall_app, !padded_bytes by done. done.
Qed.

Example dates : dateOf 0 = "1970-01-01" ∧ dateOf 951782399999 = "2000-02-28" ∧ dateOf 951782400000 = "2000-02-29" ∧ dateOf 4107542400000 = "2100-03-01" ∧ dateOf 1774746000000 = "2026-03-29".
Proof. vm_compute. auto. Qed.

(** *** Its path *)
Lemma cleanSegments_last l name acc : name ≠ "" → name ≠ "." → name ≠ ".." → cleanSegments true (l ++ [name]) acc = cleanSegments true l acc ++ [name].
Proof.
  intros N1 N2 N3. rewrite cleanSegments_app. cbn [cleanSegments]. rewrite !bool_decide_false by done. cbn [orb]. by rewrite reverse_cons, reverse_involutive.
Qed.

Lemma fileName_bytes a : 0 ≤ wa_WindowEndMS a ≤ i64_max → sall fileByte (fileName a) = true.
Proof.
  intros R. destruct (siteSlug_spec (wa_SiteName a)) as (S & _). unfold fileName. rewrite !sall_app, dateOf_bytes by done.
  rewrite (sall_impl slugByte fileByte _ ltac:(intros c Hc; unfold fileByte; by rewrite Hc) S). done.
Qed.

(** A report's file stays in the directory of its deliverer, whatever the
    site is called: the path written is the directory's, followed by one name
    made of lower-case letters, digits, underscores, hyphens and dots, which
    is not empty, is neither dot name and starts with [weekly-]. *)
Theorem report_stays_in_its_directory dir a : IsAbs dir = true → 0 ≤ wa_WindowEndMS a ≤ i64_max →
  reportPath dir a = String slash (join slash (components dir ++ [fileName a])) ∧
  plainSegment (fileName a) ∧ sall fileByte (fileName a) = true ∧ hasPrefix (fileName a) "weekly-" = true.
Proof.
  intros A R. pose proof (fileName_bytes a R) as B.
  assert (plainSegment (fileName a)) as P by (split; [done|apply (sall_containsAny fileByte); [intros c ->%list_elem_of_singleton; reflexivity|done]]).
  split_and!; [|done..]. unfold reportPath. rewrite Clean_abs by (destruct dir; done). f_equal. f_equal. unfold components.
  change (dir +:+ "/" +:+ fileName a) with (dir +:+ String slash (fileName a)). rewrite split_both, (split_single (fileName a)) by apply P.
  by apply cleanSegments_last.
Qed.

Definition sneaky : WeeklyReportArtifact :=
  MkArtifact "d1" "" " ../../etc/Cron D " 1 1774746000000 2 "" "" "" 0 0 (MkSummary "" 0 false "" None None None) 0 0 0 0 [] None.
Lemma report_stays_in_its_directory_witness : reportPath "/srv//reports/" sneaky = "/srv/reports/weekly-etc_cron_d-2026-03-29.json".
Proof. rewrite (proj1 (report_stays_in_its_directory "/srv//reports/" sneaky eq_refl ltac:(split; vm_compute; discriminate))). vm_compute. reflexivity. Defined.

(** ** The report *)
Definition soundRequest (req : WeeklyReportRequest) : Prop :=
  wq_DeviceID req ≠ "" ∧ containsAny ["/"; "+"; "#"]%char (wq_DeviceID req) = false ∧ wq_SensorIDs req ≠ [] ∧ NoDup (wq_SensorIDs req) ∧ "" ∉ wq_SensorIDs req ∧
  0 < wq_SinceMS req < wq_UntilMS req.

Lemma normalizeSensors_ok raw sensors : raw ≠ [] → normalizeSensors raw = Ok sensors → sensors ≠ [] ∧ NoDup sensors ∧ "" ∉ sensors.
Proof.
  intros N. unfold normalizeSensors. case_bool_decide as E; [done|]. intros [= <-]. destruct (dedup_spec (TrimSpace <$> raw) ∅) as [D I]. split_and!; [|done|].
  - destruct raw as [|x raw]; [done|]. intros X. specialize (I (TrimSpace x)). rewrite X in I. assert (TrimSpace x ∈ @nil string) as []%not_elem_of_nil.
    apply I. split; [apply list_elem_of_here|set_solver].
  - rewrite I. tauto.
Qed.

Lemma normalizeRequest_ok zoneKnown raw nowMS req : normalizeRequest zoneKnown raw nowMS = Ok req → soundRequest req.
Proof.
  unfold normalizeRequest, soundRequest. case_bool_decide as E1; [done|]. destruct (containsAny _ _) eqn:E2; [done|]. case_bool_decide as E3; [done|].
  destruct (_ && _); [done|]. destruct (normalizeSensors _) as [sensors|] eqn:E4; [|done]. apply normalizeSensors_ok in E4 as (? & ? & ?); [|done].
  cbv zeta. set (until := if wq_UntilMS raw =? 0 then _ else _). set (since := if wq_SinceMS raw =? 0 then _ else _). clearbody until since.
  destruct (Z.leb_spec since 0); [done|]. destruct (Z.leb_spec until since); [done|]. intros [= <-]. cbn. split_and!; done || lia.
Qed.

Section Report.
Context (wide : float64 → Z) (zoneKnown : string → bool) {W : Type} `{RuntimeSource W}.

Lemma allSeries_names window sensors w series w' : allSeries window sensors w = (Ok series, w') → ss_SensorID <$> series = sensors.
Proof.
  revert w series w'. induction sensors as [|s sensors IH]; intros w series w'; cbn [allSeries]; [by intros [= <- _]|].
  unfold ebind. destruct (SensorHistory _ w) as [[rows|] w1]; [|done]. destruct (allSeries window sensors w1) as [[rest|] w2] eqn:E; [|done].
  intros [= <- _]. cbn. by rewrite (IH _ _ _ E).
Qed.

Definition windowOf (req : WeeklyReportRequest) : BoundedWindow := MkWindow (wq_DeviceID req) (wq_SinceMS req) (wq_UntilMS req) MaxLimit.

(** What an input was built from. *)
Definition builtFrom (req : WeeklyReportRequest) (input : WeeklyReportInput) : Prop := ∃ w1 w2 w3 w4 rows,
  ActionLog (windowOf req) w1 = (Ok rows, w2) ∧ TierCDecisionLog (windowOf req) w3 = (Ok (wi_TierCDecisions input), w4) ∧
  (∀ row, row ∈ wi_Actions input ↔ row ∈ rows ∧ al_ActionTaken row ≠ contributorActionTaken) ∧ wi_Actions input `sublist_of` rows ∧
  (Z.of_nat (length rows) = MaxLimit → "action_log may be truncated at runtime export limit" ∈ wi_Warnings input) ∧
  (Z.of_nat (length (wi_TierCDecisions input)) = MaxLimit → "tier_c_decision_log may be truncated at runtime export limit" ∈ wi_Warnings input) ∧
  ss_SensorID <$> wi_SensorSeries input = wq_SensorIDs req ∧ wi_WindowStartMS input = wq_SinceMS req ∧ wi_WindowEndMS input = wq_UntilMS req.

Lemma truncation_said n log : Z.of_nat n = MaxLimit → log +:+ " may be truncated at runtime export limit" ∈ truncation n log.
Proof. intros E. unfold truncation. rewrite E, Z.eqb_refl. apply list_elem_of_here. Qed.

Lemma buildInput_ok req w input w' : buildInput wide req w = (Ok input, w') → builtFrom req input.
Proof.
  unfold buildInput, ebind. destruct (Health _ w) as [[health|] w1]; [|done]. destruct (allSeries _ _ w1) as [[series|] w2] eqn:S; [|done].
  destruct (ActionLog _ w2) as [[rows|] w3] eqn:A; [|done]. destruct (TierCDecisionLog _ w3) as [[decisions|] w4] eqn:D; [|done].
  intros [= <- _]. apply allSeries_names in S. exists w2, w3, w3, w4, rows. cbn. split_and!; try done.
  - intros row. unfold dispatchRecordsOnly, isContributorRecord. rewrite list_elem_of_filter, bool_decide_eq_false. tauto.
  - apply sublist_filter.
  - intros E%(truncation_said _ "action_log"). rewrite !elem_of_app. auto.
  - intros E%(truncation_said _ "tier_c_decision_log"). rewrite !elem_of_app. auto.
Qed.

(** A weekly report is made of the exports of one sound window. Where
    [Generate] succeeds, the request named a device and distinct sensors and
    a positive window; the provider's text was written from the exports of
    that window: a series per sensor in order, every action of the log but
    the coalesced ones in its order, the decision log; a log at the export's
    limit is named in the warnings; and the artifact's counts are those of
    what the provider was given. *)
Theorem report_is_of_its_exports provider nowMS raw w a w' : Generate wide zoneKnown provider nowMS raw w = (Ok a, w') →
  ∃ req input report, normalizeRequest zoneKnown raw nowMS = Ok req ∧ soundRequest req ∧ builtFrom req input ∧ provider input = Ok report ∧
    wa_Text a = pr_Text report ∧ wa_DeviceID a = wq_DeviceID req ∧ wa_WindowStartMS a = wq_SinceMS req ∧ wa_WindowEndMS a = wq_UntilMS req ∧
    wa_SensorSeriesCount a = Z.of_nat (length (wq_SensorIDs req)) ∧ wa_SensorRowCount a = Z.of_nat (length (wi_SensorSeries input ≫= ss_Rows)) ∧
    wa_ActionCount a = Z.of_nat (length (wi_Actions input)) ∧ wa_TierCDecisionCount a = Z.of_nat (length (wi_TierCDecisions input)) ∧ wa_Warnings a = wi_Warnings input.
Proof.
  unfold Generate. destruct (normalizeRequest _ _ _) as [req|] eqn:N; [|done]. destruct (buildInput _ _ _) as [[input|] w1] eqn:B; [|done].
  destruct (provider input) as [report|] eqn:P; [|done]. intros [= <- _]. apply normalizeRequest_ok in N as S. apply buildInput_ok in B.
  exists req, input, report. cbn. split_and!; try done.
  - destruct B as (? & ? & ? & ? & ? & ? & ? & ? & ? & ? & ? & E & _). by rewrite <- E, length_fmap.
  - induction (wi_SensorSeries input) as [|x l IH]; [done|]. cbn. rewrite length_app, Nat2Z.inj_add. by rewrite <- IH.
Qed.

(** A report that fails before the provider fails whoever the provider is. *)
Lemma failed_export_asks_nobody nowMS raw w e w' req : normalizeRequest zoneKnown raw nowMS = Ok req → buildInput wide req w = (Err e, w') →
  ∀ provider, Generate wide zoneKnown provider nowMS raw w = (Err e, w').
Proof. intros N B provider. unfold Generate. by rewrite N, B. Qed.
End Report.

(** A runtime with one action and one coalesced request. *)
Definition oneAction (taken : string) : ActionLogEntry := MkAction "ori-d1" 5 "notify" "B" "watch" "over" "current" false true taken "" None "" "" None.
Definition quietHealth : HealthSnapshot := MkSnapshot "ori-d1" "ok" (ofInt 1) 5 true "ok" None None None ∅.
#[local] Instance quietRuntime : RuntimeSource unit := {
  Health := λ _, eret quietHealth; SensorHistory := λ _, eret []; ActionLog := λ _, eret [oneAction "executed"; oneAction "coalesced"]; TierCDecisionLog := λ _, eret [] }.
Definition weekRequest : WeeklyReportRequest := MkReportRequest " ori-d1 " "Ada" "Shop" "" ["s1"; "s2"; " s1"] 0 0.
Definition plainProvider (input : WeeklyReportInput) : res ProviderReport :=
  Ok (MkProviderReport (foldr (λ r acc, al_DeviceID r +:+ acc) "" (wi_Actions input)) "p" "m" 3 4 None).
Definition weekReport : res WeeklyReportArtifact := (Generate (λ _, 0) (λ _, true) plainProvider 1774746000000 weekRequest tt).1.
Definition weekArtifact : WeeklyReportArtifact := match weekReport with Ok a => a | Err _ => sneaky end.

Lemma report_is_of_its_exports_witness : ∃ req, normalizeRequest (λ _, true) weekRequest 1774746000000 = Ok req ∧ soundRequest req.
Proof.
  assert (Generate (λ _, 0) (λ _, true) plainProvider 1774746000000 weekRequest tt = (Ok weekArtifact, tt)) as G by (vm_compute; reflexivity).
  destruct (report_is_of_its_exports (λ _, 0) (λ _, true) plainProvider 1774746000000 weekRequest tt weekArtifact tt G) as (req & _ & _ & N & S & _). eauto.
Defined.

(** The input the provider is given names the device: its action rows carry
    the identifier, and what a provider says can repeat it. *)
Lemma report_input_names_the_device : wa_ActionCount weekArtifact = 1 ∧ wa_SensorSeriesCount weekArtifact = 2 ∧ wa_Text weekArtifact = "ori-d1".
Proof. vm_compute. auto. Qed.

(** ** The runner *)
Section Runner.
Context {W : Type} (generate : Z → EM W WeeklyReportArtifact) (deliverers : list (WeeklyReportArtifact → EM W unit)) (schedule : Schedule).

Definition deliveryOf (e : runnerEvent) : option nat := match e with EDelivered i _ | EDeliveryFailed i _ => Some i | _ => None end.
Definition scheduledOf (e : runnerEvent) : option (Z * Z) := match e with EScheduled next wait => Some (next, wait) | _ => None end.
Definition failedOf (e : runnerEvent) : option error := match e with EGenerationFailed x => Some x | _ => None end.

Lemma deliverAll_events i (ds : list (WeeklyReportArtifact → EM W unit)) a (w : W) : omap deliveryOf (deliverAll i ds a w).1 = seq i (length ds) ∧ omap scheduledOf (deliverAll i ds a w).1 = [] ∧ omap failedOf (deliverAll i ds a w).1 = [].
Proof.
  revert i w. induction ds as [|d ds IH]; intros i w; [done|]. cbn [deliverAll]. destruct (d a w) as [r w1]. specialize (IH (S i) w1).
  destruct (deliverAll (S i) ds a w1) as [evs w2]. cbn in IH |- *. destruct IH as (I1 & I2 & I3). destruct r; cbn; rewrite I1, I2, I3; done.
Qed.

(** Round by round: one line for the next run, which is ahead; then every
    deliverer in its order or one line for the failed report. A deliverer's
    failure keeps none of the others from their turn, and neither failure
    ends the runner: only the context does. *)
Inductive rounds : list turn → list runnerEvent → Prop :=
| rounds_none : rounds [] []
| rounds_cancelled t turns next wait : tn_cancelled t = true → 0 < wait → next * nanos = tn_now t + wait → rounds (t :: turns) [EScheduled next wait]
| rounds_reported t turns next wait evs rest : tn_cancelled t = false → 0 < wait → next * nanos = tn_now t + wait →
    omap deliveryOf evs = seq 0 (length deliverers) ∧ omap failedOf evs = [] ∨ (∃ e, evs = [EGenerationFailed e]) →
    rounds turns rest → rounds (t :: turns) (EScheduled next wait :: evs ++ rest).

(** The runner keeps going until it is cancelled. In a zone whose offset
    stays within a day, each round waits a positive time for an instant of
    the schedule that is ahead, then either every deliverer, in order, is
    given the report, whatever the others answered, or the failed generation
    is logged; no failure ends the loop, and cancellation during the wait
    ends it with nothing generated. *)
Theorem runner_keeps_its_rounds turns w : boundedZone (sc_Location schedule) → soundSchedule schedule → rounds turns (Run generate deliverers schedule turns w).1.
Proof.
  intros B S. revert w. induction turns as [|t turns IH]; intros w; cbn [Run]; [constructor|].
  pose proof (next_run_is_later (tn_now t) schedule B S) as L. destruct (tn_cancelled t) eqn:C; [cbn; constructor; done || lia|].
  destruct (generate (tn_generateMS t) w) as [[a|e] w1].
  - destruct (deliverAll_events 0 deliverers a w1) as (D & _ & F). destruct (deliverAll 0 deliverers a w1) as [evs w2]. cbn in D, F.
    specialize (IH w2). destruct (Run _ _ _ turns w2) as [rest w3]. cbn in *. constructor; auto; lia.
  - specialize (IH w1). destruct (Run _ _ _ turns w1) as [rest w3]. cbn in *. apply (rounds_reported _ _ _ _ [_]); eauto; lia.
Qed.
End Runner.

Lemma runner_keeps_its_rounds_witness :
  rounds (W := unit) [logDeliver (λ _ w, w)] [MkTurn 1774782000000000000 false 1774782000000; MkTurn 1774852200000000000 true 0]
    (Run (λ ms, Generate (λ _, 0) (λ _, true) plainProvider ms weekRequest) [logDeliver (λ _ w, w)] mondayMorning [MkTurn 1774782000000000000 false 1774782000000; MkTurn 1774852200000000000 true 0] tt).1.
Proof. apply runner_keeps_its_rounds; [intros t; unfold daySeconds; cbn; lia|unfold soundSchedule; cbn; lia]. Defined.

(** ** The provider *)
(** A report of the provider has text, its configured model and a 2xx answer;
    the key goes in a header of its own and the endpoint is the configured
    one. *)
Lemma provider_report_has_text `{GeminiEncoder} Do latencyMS p input report : GenerateWeeklyReport Do latencyMS p input = Ok report →
  pr_Text report ≠ "" ∧ pr_Model report = gp_model p ∧ ∃ prompt body code answer, buildGeminiWeeklyPrompt input = Ok prompt ∧
    encodeRequest (MkGeminiRequest [MkGeminiContent "user" [prompt]] defaultReportMaxTokens) = Some body ∧
    Do (MkHTTPRequest (gp_endpoint p) [("Content-Type", "application/json"); (geminiReportAPIKeyHeader, gp_apiKey p)] body) = Some (code, Some answer) ∧ 200 ≤ code < 300.
Proof.
  unfold GenerateWeeklyReport. destruct (buildGeminiWeeklyPrompt input) as [prompt|] eqn:P; [|done]. destruct (encodeRequest _) as [body|] eqn:E; [|done].
  destruct (Do _) as [[code [answer|]]|] eqn:X; [|by destruct (_ || _)|done]. destruct (Z.ltb_spec code 200); [done|]. destruct (Z.leb_spec 300 code); [done|]. cbn.
  case_bool_decide as T; [done|]. intros [= <-]. cbn. split; [done|]. split; [done|]. exists prompt, body, code, answer. done.
Qed.

(** An accepted endpoint is https. *)
Lemma NewGeminiProvider_ok urlParse apiKey model base p : NewGeminiProvider urlParse apiKey model base = Ok p →
  gp_apiKey p ≠ "" ∧ gp_model p ≠ "" ∧ ∃ raw u, urlParse raw = Some u ∧ ul_scheme u = "https" ∧ ul_host u ≠ "" ∧ ∃ path, gp_endpoint p = URL_String u path.
Proof.
  unfold NewGeminiProvider, normalizeGeminiReportEndpoint. case_bool_decide as A; [done|]. case_bool_decide as M; [done|]. destruct (urlParse _) as [u|] eqn:U; [|done].
  destruct (bool_decide (ul_scheme u = "")); [done|]. cbn [orb].
  destruct (bool_decide_reflect (ul_host u = "")) as [|Ho]; [done|]. destruct (bool_decide_reflect (ul_scheme u = "https")) as [Sc|]; [|done]. intros [= <-]. cbn. eauto 10.
Qed.
End ReportingSpec.
