(* ===== verification/Run.v ===== *)
(** * A run of the gateway (cmd/ori-gateway/app.go, [runGateway])

    The run from its configuration to its end as a program over the trace of
    what it does: what it opens, connects, starts and subscribes, in the
    source's order, every early return with what it shuts down first, and the
    deferred functions, last registered first. What the components answer is
    an input, [world]: a step is named by the message its failure is reported
    with. Callbacks and runners interleave with it and are modelled with their
    components; here they are what is subscribed, started, refused, closed
    and joined. *)
From S2P Require Import Prelude GoBytes Json Queue Contracts Custody RequestPool Webhook Config Process.

Module Run.
Import Contracts Config Process.
#[local] Open Scope em_scope.

Inductive event :=
| EHold | EClockOpen | EQueueOpen | ESinkOpen | EConnect | EConnectEvidence | EClient
| ERun (name : string) | ESubscribe (topic : string)
| ERefuse | EStopClock | ECancel | ECloseCallbacks | ECloseWebhook | EClosePosture | EJoin | EGroupEnd
| EDisconnect | EDisconnectEvidence | EEndClient | EQuiet (quiet : bool) | ERelease | EExit | EFlush.

Inductive deferred := DFlush | DState | DDisconnect | DDisconnectEvidence | DEndClient | DCancel | DStop | DStopWatch.

(** How opening the signing clock ended: a failed start write may still be
    outstanding. *)
Inductive clockStart := ClockOpened | ClockStalled (e : error) | ClockFailed (e : error).

(** What ended the wait: the caller, the runner group (and whether the caller
    is done too), or the escalation. *)
Inductive ending := CallerDone | RunnersDone (err : res unit) (callerDone : bool) | Escalated (e : error).

Record world := MkWorld {
  w_config : res Config; w_env : string → string; w_step : string → res unit; w_clock : clockStart;
  w_startQuiet : bool; w_quiet : bool; w_subscribe : string → res unit; w_ending : ending; w_escalated : option error; w_disconnect : res unit }.

(** [rs_clock]: stopSigning is the durable clock's, and [rs_stopped] that it
    ran; [rs_disconnect] is the flag of the deferred disconnect. *)
Record rstate := MkRun { rs_trace : list event; rs_defers : list deferred; rs_disconnect : bool; rs_clock : bool; rs_stopped : bool; rs_runners : Z }.

Definition emits (l : list event) (s : rstate) : rstate := MkRun (rs_trace s ++ l) (rs_defers s) (rs_disconnect s) (rs_clock s) (rs_stopped s) (rs_runners s).
Definition emit (e : event) : EM rstate unit := λ s, (Ok tt, emits [e] s).
Definition defer (d : deferred) : EM rstate unit := λ s, (Ok tt, MkRun (rs_trace s) (d :: rs_defers s) (rs_disconnect s) (rs_clock s) (rs_stopped s) (rs_runners s)).
Definition setClock : EM rstate unit := λ s, (Ok tt, MkRun (rs_trace s) (rs_defers s) (rs_disconnect s) true (rs_stopped s) (rs_runners s)).
Definition lift {A} (r : res A) : EM rstate A := λ s, (r, s).
Definition when (b : bool) (m : EM rstate unit) : EM rstate unit := if b then m else eret tt.

(** [stopSigning], once, and the decision to stop. *)
Definition stopSigning (s : rstate) : rstate :=
  if rs_clock s && negb (rs_stopped s) then
    MkRun (rs_trace s ++ [EStopClock]) (rs_defers s) (rs_disconnect s) (rs_clock s) true (rs_runners s)
  else s.
Definition decideStop (s : rstate) : rstate := emits [ECancel] (stopSigning (emits [ERefuse] s)).
Definition waitRunners (s : rstate) : rstate := if rs_runners s =? 0 then s else emits [EJoin] s.
Definition shutdownRunners (s : rstate) : rstate := waitRunners (emits [ECancel; EClosePosture] (decideStop s)).

(** A step whose failure shuts the runners down first. *)
Definition guarded {A} (m : EM rstate A) : EM rstate A := λ s,
  match m s with (Ok a, s1) => (Ok a, s1) | (Err e, s1) => (Err e, shutdownRunners s1) end.

Definition start (name : string) : EM rstate unit := λ s,
  (Ok tt, MkRun (rs_trace s ++ [ERun name]) (rs_defers s) (rs_disconnect s) (rs_clock s) (rs_stopped s) (rs_runners s + 1)).

Section Run.
Context (w : world).

Definition step (label : string) : EM rstate unit := lift (w_step w label).
Definition stopCause (r : res unit) : res unit := match w_escalated w with Some e => Err e | None => r end.
(** A subscription: its failure is reported as the escalation, if that is why. *)
Definition subscribe (topic : string) : EM rstate unit :=
  guarded (match w_subscribe w topic with Ok _ => emit (ESubscribe topic) | Err e => lift (stopCause (Err e)) end).
(** The [for] loops over the devices. *)
Fixpoint subscribeEach (topicOf : string → res string) (devices : list string) : EM rstate unit :=
  match devices with
  | [] => eret tt
  | d :: rest => topic <- guarded (lift (topicOf d));; subscribe topic ;;; subscribeEach topicOf rest
  end.

(** The state directory and the signing clock. *)
Definition openSigning (cfg : Config) : EM rstate unit :=
  when (ga_Enabled (gc_Auth (cf_Gateway cfg)))
    (step "open gateway state directory" ;;; emit EHold ;;;
     match w_clock w with
     | ClockStalled e => emit (if w_startQuiet w then ERelease else EExit) ;;; lift (Err e)
     | ClockFailed e => emit ERelease ;;; lift (Err e)
     | ClockOpened => emit EClockOpen ;;; setClock ;;; defer DState
     end).

Definition openEvidence (cfg : Config) (secrets : gatewayAuthSecrets) (custodySecret : string) : EM rstate unit :=
  when (ev_Enabled (cf_Evidence cfg))
    ((if negb (gs_Enabled secrets) || bool_decide (custodySecret = "") then lift (Err (EMsg "evidence courier requires gateway auth and dedicated custody configuration")) else eret tt) ;;;
     lift (resolveEvidenceChannel (w_env w) (cf_Evidence cfg) secrets custodySecret) ;;;
     step "open evidence outbound queue" ;;; emit EQueueOpen ;;;
     step "open evidence return queue" ;;; emit ESinkOpen ;;;
     when (negb (bool_decide (ev_AuthorityCAFile (cf_Evidence cfg) = ""))) (step "load authority trust") ;;;
     step "construct independent evidence channel" ;;;
     step "construct evidence delivery worker").

Definition connectBrokers (cfg : Config) : EM rstate unit :=
  step "construct provider" ;;;
  when (wb_Enabled (cf_WebhookBridge cfg)) (step "construct webhook bridge") ;;;
  step "construct broker" ;;; step "connect broker" ;;; emit EConnect ;;; defer DDisconnect ;;;
  when (ev_Enabled (cf_Evidence cfg))
    (step "construct evidence broker" ;;; step "connect evidence broker" ;;; emit EConnectEvidence ;;; defer DDisconnectEvidence).

Definition weeklyEnabled (cfg : Config) : bool := wr_Enabled (rc_WeeklyReport (cf_Reporting cfg)).

Definition openModules (cfg : Config) (secrets : gatewayAuthSecrets) : EM rstate unit :=
  step "construct sim" ;;; step "construct fleet" ;;;
  when (weeklyEnabled cfg || sh_Enabled (cf_SiteHealth cfg))
    (lift (runtimeClientOptionsFromSecrets (gc_EncryptionEnabled (cf_Gateway cfg)) secrets) ;;;
     emit EClient ;;; defer DEndClient ;;; step "construct runtime export client") ;;;
  when (weeklyEnabled cfg)
    (step "construct reporting provider" ;;; step "construct weekly report generator" ;;; step "construct weekly report schedule" ;;;
     when (wr_FileEnabled (rc_WeeklyReport (cf_Reporting cfg))) (step "weekly report file deliverer") ;;;
     when (wr_CloudEnabled (rc_WeeklyReport (cf_Reporting cfg)))
       ((if bool_decide (TrimSpace (w_env w (wr_CloudAuthEnv (rc_WeeklyReport (cf_Reporting cfg)))) = "")
         then lift (Err (EMsg "weekly report cloud deliverer: env var is empty or not set")) else eret tt) ;;; step "weekly report cloud deliverer") ;;;
     step "construct weekly report runner").

Definition superviseEvidence (cfg : Config) : EM rstate unit :=
  when (ev_Enabled (cf_Evidence cfg))
    (guarded (step "construct evidence courier") ;;; guarded (step "open evidence acknowledgement clock") ;;;
     guarded (step "construct evidence runtime ingress") ;;; guarded (step "open evidence return signing clock") ;;;
     guarded (step "construct evidence return publisher") ;;;
     start "evidence delivery worker" ;;; start "evidence outbound store probe" ;;; start "evidence return store probe" ;;;
     start "evidence return publisher").

Definition supervise (cfg : Config) : EM rstate unit :=
  defer DCancel ;;; defer DStop ;;; defer DStopWatch ;;;
  when (weeklyEnabled cfg) (start "weekly report runner") ;;;
  superviseEvidence cfg ;;;
  when (wb_Enabled (cf_WebhookBridge cfg)) (start "webhook bridge") ;;;
  guarded (step "runtime heartbeat handler") ;;;
  guarded (step "construct heartbeat") ;;; start "heartbeat" ;;; start "site node eviction".

Definition serveRequests (cfg : Config) (secrets : gatewayAuthSecrets) : EM rstate unit :=
  when (gs_Enabled secrets) (guarded (step "construct reasoning verifier")) ;;;
  guarded (step "construct dispatcher") ;;;
  subscribe FamilyReasoningRequest.

Definition serveEvidence (cfg : Config) : EM rstate unit :=
  when (ev_Enabled (cf_Evidence cfg))
    (subscribe FamilyEvidenceOutbound ;;; subscribeEach EvidenceInboundAckTopic (gc_DeviceIDs (cf_Gateway cfg))).

Definition serveEnrichment (cfg : Config) (secrets : gatewayAuthSecrets) : EM rstate unit :=
  when (rc_TierCEnrichmentEnabled (cf_Reporting cfg))
    (guarded (step "construct tier c enrichment provider") ;;;
     when (gs_Enabled secrets) (guarded (step "construct tier c enrichment verifier")) ;;;
     guarded (step "construct tier c enrichment handler") ;;;
     subscribeEach TierCEnrichmentRequestTopic (gc_DeviceIDs (cf_Gateway cfg))).

Definition serve (cfg : Config) (secrets : gatewayAuthSecrets) : EM rstate unit :=
  serveRequests cfg secrets ;;;
  serveEvidence cfg ;;;
  subscribeEach RuntimeNodeHeartbeatTopic (gc_DeviceIDs (cf_Gateway cfg)) ;;;
  serveEnrichment cfg secrets ;;;
  when (sh_Enabled (cf_SiteHealth cfg)) (start "site health server").

Definition disconnectBroker (s : rstate) : rstate :=
  MkRun (rs_trace s ++ [EDisconnect]) (rs_defers s) false (rs_clock s) (rs_stopped s) (rs_runners s).

(** The final [select]. *)
Definition awaitEnd : EM rstate unit := λ s,
  match w_ending w with
  | CallerDone => (stopCause (w_disconnect w), disconnectBroker (shutdownRunners s))
  | RunnersDone err callerDone =>
    let s1 := emits [ECancel; EClosePosture] (decideStop (emits [EGroupEnd] s)) in
    match w_escalated w with
    | Some e => (Err e, s1)
    | None => if callerDone then (w_disconnect w, disconnectBroker s1)
              else (match err with Err e => Err e | Ok _ => Err (EMsg "runner group stopped unexpectedly") end, s1)
    end
  | Escalated e => (Err e, shutdownRunners s)
  end.

Definition body : EM rstate unit :=
  cfg <- lift (w_config w);;
  secrets <- lift (gatewayAuthSecretsFromConfig (w_env w) (gc_Auth (cf_Gateway cfg)));;
  custodySecret <- lift (resolveCustodySecret (w_env w) (gc_CustodySecretEnv (cf_Gateway cfg)) secrets);;
  (if bool_decide (custodySecret = "") then eret tt else lift (match Custody.NewSigner custodySecret with Ok _ => Ok tt | Err e => Err e end)) ;;;
  openSigning cfg ;;;
  openEvidence cfg secrets custodySecret ;;;
  connectBrokers cfg ;;;
  openModules cfg secrets ;;;
  supervise cfg ;;;
  serve cfg secrets ;;;
  awaitEnd.

(** A deferred function, which may change the result. *)
Definition runDeferred (rs : res unit * rstate) (d : deferred) : res unit * rstate :=
  let '(r, s) := rs in
  match d with
  | DFlush => (r, emits [EFlush] s)
  | DState =>
    let s1 := emits [EQuiet (w_quiet w)] (stopSigning s) in
    if w_quiet w then (r, emits [ERelease] s1)
    else (Err (match r with Err e => e | Ok _ => EMsg "gateway state directory not quiescent" end), emits [EExit] s1)
  | DDisconnect => (r, if rs_disconnect s then disconnectBroker s else s)
  | DDisconnectEvidence => (r, emits [EDisconnectEvidence] s)
  | DEndClient => (r, emits [EEndClient] s)
  | DCancel => (r, emits [ECancel] s)
  | DStop => (r, emits [ECancel; ECloseCallbacks; ECloseWebhook; EClosePosture] (decideStop s))
  | DStopWatch => (r, s)
  end.

Definition runGateway : res unit * list event :=
  let '(r, s) := body (MkRun [] [DFlush] true false false 0) in
  let '(r', s') := foldl runDeferred (r, s) (rs_defers s) in (r', rs_trace s').

(** The process's exit status (past the flags). *)
Definition runCLI : Z := match runGateway.1 with Ok _ => 0 | Err _ => 1 end.
End Run.
End Run.
