(* ===== verification/RunSpec.v ===== *)
(** * Every run is orderly

    A monitor says in which order a run may do things: nothing is opened in
    the state directory's name before it is held, nothing is started or
    subscribed once the stop is decided, nothing is joined before, and the
    directory is released only when the signing clock is stopped and every
    connection, runner, callback, webhook request and posture fetch is gone.
    The monitor accepts every run, whatever fails in it. *)
From S2P Require Import Prelude GoBytes Json Queue Contracts Custody RequestPool Webhook Config Process Run.

Module RunSpec.
Import Contracts Config Process Run.
#[local] Open Scope em_scope.

(** [m_clock]: the durable clock signs; [m_live]: runners not joined;
    [m_cb], [m_wh], [m_po]: callbacks, webhook requests and posture fetches may
    be running. *)
Record mon := MkMon {
  m_held : bool; m_clock : bool; m_refused : bool; m_conn : bool; m_evconn : bool; m_client : bool;
  m_live : bool; m_cb : bool; m_wh : bool; m_po : bool; m_over : bool; m_flushed : bool }.

Definition idle : mon := MkMon false false false false false false false false false false false false.
Definition over : mon := MkMon false false false false false false false false false false true true.

Definition allow (b : bool) (m : mon) : option mon := if b then Some m else None.

Definition mstep (m : mon) (e : event) : option mon :=
  let '(MkMon held clock refused conn evconn client live cb wh po ovr flushed) := m in
  match e with
  | EFlush => allow (negb held && negb flushed) (MkMon held clock refused conn evconn client live cb wh po ovr true)
  | _ =>
    if ovr || flushed then None else
    match e with
    | EHold => allow (negb held && negb conn) (MkMon true clock refused conn evconn client live cb wh po ovr flushed)
    | EClockOpen => allow (held && negb clock) (MkMon held true refused conn evconn client live cb wh po ovr flushed)
    | EQueueOpen | ESinkOpen => allow (held && clock) m
    | EConnect => allow (negb conn && negb refused) (MkMon held clock refused true evconn client live cb wh po ovr flushed)
    | EConnectEvidence => allow (conn && clock && negb evconn) (MkMon held clock refused conn true client live cb wh po ovr flushed)
    | EClient => allow (conn && negb refused) (MkMon held clock refused conn evconn true live cb wh po ovr flushed)
    | ERun name => allow (conn && negb refused) (MkMon held clock refused conn evconn client true cb (wh || bool_decide (name = "webhook bridge")) po ovr flushed)
    | ESubscribe _ => allow (conn && negb refused) (MkMon held clock refused conn evconn client live true wh true ovr flushed)
    | ERefuse => Some (MkMon held clock true conn evconn client live cb wh po ovr flushed)
    | EStopClock => allow clock (MkMon held false refused conn evconn client live cb wh po ovr flushed)
    | ECancel => allow refused m
    | ECloseCallbacks => allow refused (MkMon held clock refused conn evconn client live false wh po ovr flushed)
    | ECloseWebhook => allow refused (MkMon held clock refused conn evconn client live cb false po ovr flushed)
    | EClosePosture => allow refused (MkMon held clock refused conn evconn client live cb wh false ovr flushed)
    | EJoin => allow refused (MkMon held clock refused conn evconn client false cb wh po ovr flushed)
    | EGroupEnd => Some (MkMon held clock refused conn evconn client false cb wh po ovr flushed)
    | EDisconnect => allow (conn && negb live) (MkMon held clock refused false evconn client live cb wh po ovr flushed)
    | EDisconnectEvidence => allow (evconn && negb live && negb cb) (MkMon held clock refused conn false client live cb wh po ovr flushed)
    | EEndClient => allow (client && negb live && negb po) (MkMon held clock refused conn evconn false live cb wh po ovr flushed)
    | EQuiet _ => allow (held && negb clock) m
    | ERelease => allow (held && negb clock && negb conn && negb evconn && negb client && negb live && negb cb && negb wh && negb po)
                    (MkMon false clock refused conn evconn client live cb wh po true flushed)
    | EExit => allow (held && negb clock) (MkMon false clock refused conn evconn client live cb wh po true flushed)
    | EFlush => None
    end
  end.

Definition monitor (l : list event) : option mon := foldl (λ o e, o ≫= λ m, mstep m e) (Some idle) l.

Lemma monitor_app l k : monitor (l ++ k) = foldl (λ o e, o ≫= λ m, mstep m e) (monitor l) k.
Proof. apply foldl_app. Qed.

(** ** Stages of a run *)
Definition stack (a b e c w : bool) : list deferred :=
  (if w then [DStopWatch; DStop; DCancel] else []) ++ (if c then [DEndClient] else []) ++ (if e then [DDisconnectEvidence] else []) ++ (if b then [DDisconnect] else []) ++
  (if a then [DState] else []) ++ [DFlush].

(** Going forward: the state directory held, connected, the evidence broker
    connected, the runtime client made, the runners supervised. *)
Inductive At (a b e c w : bool) (s : rstate) : Prop :=
| At_intro live cb wh po :
    rs_defers s = stack a b e c w → rs_disconnect s = true → rs_clock s = a → rs_stopped s = false → 0 ≤ rs_runners s →
    (live = true → 0 < rs_runners s) → (w = false → live = false ∧ cb = false ∧ wh = false ∧ po = false) →
    monitor (rs_trace s) = Some (MkMon a a false b e c live cb wh po false false) → At a b e c w s.

(** About to return. *)
Inductive Ret (s : rstate) : Prop :=
| Ret_over : rs_defers s = [DFlush] → (∃ m, monitor (rs_trace s) = Some m ∧ mstep m EFlush = Some over) → Ret s
| Ret_intro a b e c w refused cb wh po :
    rs_defers s = stack a b e c w → rs_clock s = a →
    (w = false → cb = false ∧ wh = false ∧ po = false) →
    monitor (rs_trace s) = Some (MkMon a (a && negb (rs_stopped s)) refused (b && rs_disconnect s) e c false cb wh po false false) → Ret s.

Definition hoare {A} (P : rstate → Prop) (m : EM rstate A) (Q : A → rstate → Prop) : Prop :=
  ∀ s, P s → match m s with (Ok a, s') => Q a s' | (Err _, s') => Ret s' end.

Lemma hoare_bind {A B} P (m : EM rstate A) Q (k : A → EM rstate B) R : hoare P m Q → (∀ a, hoare (Q a) (k a) R) → hoare P (ebind m k) R.
Proof. intros Hm Hk s Hs. unfold ebind. specialize (Hm s Hs). destruct (m s) as [[a|err] s1]; [|done]. by apply Hk. Qed.

Lemma hoare_seq {A B} P (m : EM rstate A) Q (k : EM rstate B) R : hoare P m (λ _, Q) → hoare Q k R → hoare P (m ;;; k) R.
Proof. intros Hm Hk. eapply hoare_bind; [exact Hm|]. intros a. exact Hk. Qed.

Lemma hoare_when P b m : hoare P m (λ _, P) → hoare P (when b m) (λ _, P).
Proof. destruct b; [done|]. intros _ s Hs. exact Hs. Qed.

Lemma At_ret a b e c s : At a b e c false s → Ret s.
Proof.
  intros [live cb wh po D1 D2 D3 D4 D5 D6 D7 D8]. destruct (D7 eq_refl) as (-> & -> & -> & ->). eapply (Ret_intro s a b e c false false false false false); try done.
  rewrite D4, D2, !andb_true_r. exact D8.
Qed.

Lemma hoare_lift {A} a b e c (r : res A) : hoare (At a b e c false) (lift r) (λ _, At a b e c false).
Proof. intros s Hs. unfold lift. destruct r; [done|]. by eapply At_ret. Qed.

(** Events of a list, from a monitor's state. *)
Lemma monitor_emits s l m : monitor (rs_trace s) = Some m → monitor (rs_trace (emits l s)) = foldl (λ o e, o ≫= λ m, mstep m e) (Some m) l.
Proof. intros H. unfold emits. cbn [rs_trace]. by rewrite monitor_app, H. Qed.

Lemma shutdown_ret a b e c s : At a b e c true s → Ret (shutdownRunners s).
Proof.
  intros [live cb wh po D1 D2 D3 D4 D5 D6 D7 D8]. eapply (Ret_intro _ a b e c true true cb wh false).
  all: unfold shutdownRunners, waitRunners, decideStop, stopSigning, emits; cbn [rs_defers rs_clock rs_stopped rs_disconnect rs_runners rs_trace]; rewrite ?D3, ?D4; cbn [negb andb];
    destruct a; cbn [andb rs_defers rs_clock rs_stopped rs_disconnect rs_runners rs_trace]; destruct (Z.eqb_spec (rs_runners s) 0) as [E|E]; cbn [rs_defers rs_clock rs_stopped rs_disconnect rs_runners rs_trace]; try done.
  all: rewrite <- ?app_assoc, monitor_app, D8, ?D2, ?D4, ?andb_true_r; destruct live; try (by specialize (D6 eq_refl); lia); reflexivity.
Qed.

Lemma hoare_guarded {A} a b e c (r : res A) : hoare (At a b e c true) (guarded (lift r)) (λ _, At a b e c true).
Proof. intros s Hs. unfold guarded, lift. destruct r; [done|]. by eapply shutdown_ret. Qed.

(** ** The steps *)
Lemma hoare_start a e c name : hoare (At a true e c true) (start name) (λ _, At a true e c true).
Proof.
  intros s [live cb wh po D1 D2 D3 D4 D5 D6 D7 D8]. unfold start. eapply (At_intro _ _ _ _ _ _ true cb (wh || bool_decide (name = "webhook bridge")) po); cbn [rs_defers rs_clock rs_stopped rs_disconnect rs_runners rs_trace]; try done; try lia.
  by rewrite monitor_app, D8.
Qed.

Lemma hoare_subscribe w a e c topic : hoare (At a true e c true) (subscribe w topic) (λ _, At a true e c true).
Proof.
  unfold subscribe. destruct (w_subscribe w topic) as [u|err].
  - intros s [live cb wh po D1 D2 D3 D4 D5 D6 D7 D8]. cbn. eapply (At_intro _ _ _ _ _ _ live true wh true); cbn; try done. by rewrite monitor_app, D8.
  - intros s Hs. unfold stopCause. destruct (w_escalated w); cbn; by eapply shutdown_ret.
Qed.

Lemma hoare_subscribeEach w a e c topicOf devices : hoare (At a true e c true) (subscribeEach w topicOf devices) (λ _, At a true e c true).
Proof.
  induction devices as [|d devices IH]; cbn [subscribeEach]; [intros s Hs; exact Hs|]. eapply hoare_bind; [apply hoare_guarded|]. intros topic. eapply hoare_seq; [apply hoare_subscribe|exact IH].
Qed.

(** ** The phases *)
Lemma hoare_openSigning w cfg : hoare (At false false false false false) (openSigning w cfg) (λ _, At (ga_Enabled (gc_Auth (cf_Gateway cfg))) false false false false).
Proof.
  unfold openSigning, when. destruct (ga_Enabled _); [|intros s Hs; exact Hs]. eapply hoare_seq; [apply hoare_lift|].
  intros s [live cb wh po D1 D2 D3 D4 D5 D6 D7 D8]. destruct (D7 eq_refl) as (-> & -> & -> & ->). unfold ebind, emit. destruct (w_clock w) as [|err|err].
  - cbn. eapply (At_intro _ _ _ _ _ _ false false false false); cbn; try done; [by rewrite D1|by rewrite D3, !monitor_app, D8 || by rewrite !monitor_app, D8].
  - cbn. apply Ret_over; [exact D1|]. cbn. destruct (w_startQuiet w).
    + eexists. by rewrite !monitor_app, D8.
    + eexists. by rewrite !monitor_app, D8.
  - cbn. apply Ret_over; [exact D1|]. cbn. eexists. by rewrite !monitor_app, D8.
Qed.

Lemma hoare_quiet a e : mstep (MkMon true true false false false false false false false false false false) e = Some (MkMon true true false false false false false false false false false false) →
  a = true → hoare (At a false false false false) (emit e) (λ _, At a false false false false).
Proof.
  intros He -> s [live cb wh po D1 D2 D3 D4 D5 D6 D7 D8]. destruct (D7 eq_refl) as (-> & -> & -> & ->). cbn. eapply (At_intro _ _ _ _ _ _ false false false false); cbn; try done.
  rewrite monitor_app, D8. cbn [foldl]. exact He.
Qed.

Lemma secrets_enabled env auth secrets : gatewayAuthSecretsFromConfig env auth = Ok secrets → gs_Enabled secrets = ga_Enabled auth.
Proof.
  unfold gatewayAuthSecretsFromConfig. destruct (ga_Enabled auth); cbn [negb]; [|by intros [= <-]]. cbv zeta.
  repeat (destruct (bool_decide _) in |- *; try done); by intros [= <-].
Qed.

Lemma hoare_openEvidence w cfg secrets custodySecret a : gs_Enabled secrets = a →
  hoare (At a false false false false) (openEvidence w cfg secrets custodySecret) (λ _ s, At a false false false false s ∧ (ev_Enabled (cf_Evidence cfg) = true → a = true)).
Proof.
  intros Ha. unfold openEvidence, when. destruct (ev_Enabled (cf_Evidence cfg)); [|intros s Hs; by split]. destruct (gs_Enabled secrets); subst a; cbn [negb orb].
  2: { intros s Hs. cbn. by eapply At_ret. }
  assert (∀ m, hoare (At true false false false false) m (λ _, At true false false false false) →
    hoare (At true false false false false) m (λ (_ : unit) s, At true false false false false s ∧ (true = true → true = true))) as HX.
  { intros m Hm s Hs. specialize (Hm s Hs). destruct (m s) as [[u|err] s1]; [by split|done]. }
  apply HX. eapply hoare_seq; [destruct (bool_decide _); [apply hoare_lift|intros s Hs; exact Hs]|]. eapply hoare_seq; [apply hoare_lift|].
  eapply hoare_seq; [apply hoare_lift|]. eapply hoare_seq; [by apply hoare_quiet|]. eapply hoare_seq; [apply hoare_lift|]. eapply hoare_seq; [by apply hoare_quiet|].
  eapply hoare_seq; [apply hoare_when, hoare_lift|]. eapply hoare_seq; [apply hoare_lift|]. apply hoare_lift.
Qed.

Lemma hoare_connect a : hoare (At a false false false false) (emit EConnect ;;; defer DDisconnect) (λ _, At a true false false false).
Proof.
  intros s [live cb wh po D1 D2 D3 D4 D5 D6 D7 D8]. destruct (D7 eq_refl) as (-> & -> & -> & ->). cbn. eapply (At_intro _ _ _ _ _ _ false false false false); cbn; try done; [by rewrite D1|by rewrite monitor_app, D8].
Qed.

Lemma hoare_connectEvidence : hoare (At true true false false false) (emit EConnectEvidence ;;; defer DDisconnectEvidence) (λ _, At true true true false false).
Proof.
  intros s [live cb wh po D1 D2 D3 D4 D5 D6 D7 D8]. destruct (D7 eq_refl) as (-> & -> & -> & ->). cbn. eapply (At_intro _ _ _ _ _ _ false false false false); cbn; try done; [by rewrite D1|by rewrite monitor_app, D8].
Qed.

Lemma hoare_client a e : hoare (At a true e false false) (emit EClient ;;; defer DEndClient) (λ _, At a true e true false).
Proof.
  intros s [live cb wh po D1 D2 D3 D4 D5 D6 D7 D8]. destruct (D7 eq_refl) as (-> & -> & -> & ->). cbn. eapply (At_intro _ _ _ _ _ _ false false false false); cbn; try done; [by rewrite D1|by rewrite monitor_app, D8].
Qed.

Lemma hoare_supervise a e c : hoare (At a true e c false) (defer DCancel ;;; defer DStop ;;; defer DStopWatch) (λ _, At a true e c true).
Proof.
  intros s [live cb wh po D1 D2 D3 D4 D5 D6 D7 D8]. destruct (D7 eq_refl) as (-> & -> & -> & ->). cbn. eapply (At_intro _ _ _ _ _ _ false false false false); cbn; try done. by rewrite D1.
Qed.

Lemma hoare_assoc {A B C} P (m : EM rstate A) (n : EM rstate B) (k : EM rstate C) R : hoare P ((m ;;; n) ;;; k) R → hoare P (m ;;; n ;;; k) R.
Proof. intros H s Hs. specialize (H s Hs). unfold ebind in *. destruct (m s) as [[x|err] s1]; [|done]. done. Qed.

Lemma hoare_connectBrokers w cfg a : (ev_Enabled (cf_Evidence cfg) = true → a = true) →
  hoare (At a false false false false) (connectBrokers w cfg) (λ _, At a true (ev_Enabled (cf_Evidence cfg)) false false).
Proof.
  intros Ha. unfold connectBrokers. eapply hoare_seq; [apply hoare_lift|]. eapply hoare_seq; [apply hoare_when, hoare_lift|]. eapply hoare_seq; [apply hoare_lift|]. eapply hoare_seq; [apply hoare_lift|].
  apply hoare_assoc. eapply hoare_seq; [apply hoare_connect|]. unfold when. destruct (ev_Enabled (cf_Evidence cfg)); [|intros s Hs; exact Hs]. rewrite (Ha eq_refl).
  eapply hoare_seq; [apply hoare_lift|]. eapply hoare_seq; [apply hoare_lift|]. apply hoare_connectEvidence.
Qed.

Lemma hoare_openModules w cfg secrets a e :
  hoare (At a true e false false) (openModules w cfg secrets) (λ _, At a true e (weeklyEnabled cfg || sh_Enabled (cf_SiteHealth cfg)) false).
Proof.
  unfold openModules. eapply hoare_seq; [apply hoare_lift|]. eapply hoare_seq; [apply hoare_lift|].
  eapply (hoare_seq _ _ (At a true e (weeklyEnabled cfg || sh_Enabled (cf_SiteHealth cfg)) false)).
  - unfold when at 1. destruct (weeklyEnabled cfg || sh_Enabled (cf_SiteHealth cfg)); [|intros s Hs; exact Hs]. eapply hoare_seq; [apply hoare_lift|]. apply hoare_assoc. eapply hoare_seq; [apply hoare_client|]. apply hoare_lift.
  - apply hoare_when. do 3 (eapply hoare_seq; [apply hoare_lift|]). eapply hoare_seq; [apply hoare_when, hoare_lift|]. eapply hoare_seq; [|apply hoare_lift].
    apply hoare_when. eapply hoare_seq; [|apply hoare_lift]. destruct (bool_decide _); [apply hoare_lift|intros s Hs; exact Hs].
Qed.

Lemma hoare_superviseAll w cfg a e c : hoare (At a true e c false) (supervise w cfg) (λ _, At a true e c true).
Proof.
  unfold supervise. apply hoare_assoc, hoare_assoc. eapply hoare_seq.
  { intros s Hs. pose proof (hoare_supervise a e c s Hs) as H. exact H. }
  eapply hoare_seq; [apply hoare_when, hoare_start|]. eapply hoare_seq.
  { apply hoare_when. do 5 (eapply hoare_seq; [apply hoare_guarded|]). do 3 (eapply hoare_seq; [apply hoare_start|]). apply hoare_start. }
  eapply hoare_seq; [apply hoare_when, hoare_start|]. do 2 (eapply hoare_seq; [apply hoare_guarded|]). eapply hoare_seq; [apply hoare_start|]. apply hoare_start.
Qed.

Lemma hoare_serve w cfg secrets a e c : hoare (At a true e c true) (serve w cfg secrets) (λ _, At a true e c true).
Proof.
  unfold serve, serveRequests, serveEvidence, serveEnrichment. eapply hoare_seq.
  { eapply hoare_seq; [apply hoare_when, hoare_guarded|]. eapply hoare_seq; [apply hoare_guarded|]. apply hoare_subscribe. }
  eapply hoare_seq. { apply hoare_when. eapply hoare_seq; [apply hoare_subscribe|]. apply hoare_subscribeEach. }
  eapply hoare_seq; [apply hoare_subscribeEach|]. eapply hoare_seq; [|apply hoare_when, hoare_start].
  apply hoare_when. eapply hoare_seq; [apply hoare_guarded|]. eapply hoare_seq; [apply hoare_when, hoare_guarded|]. eapply hoare_seq; [apply hoare_guarded|]. apply hoare_subscribeEach.
Qed.

(** The end of the wait leaves a state to return from. *)
Lemma group_end_ret a e c s : At a true e c true s → Ret (emits [ECancel; EClosePosture] (decideStop (emits [EGroupEnd] s))).
Proof.
  intros [live cb wh po D1 D2 D3 D4 D5 D6 D7 D8]. eapply (Ret_intro _ a true e c true true cb wh false).
  all: unfold decideStop, stopSigning, emits; cbn [rs_defers rs_clock rs_stopped rs_disconnect rs_runners rs_trace]; rewrite ?D3, ?D4; cbn [negb andb];
    destruct a; cbn [andb rs_defers rs_clock rs_stopped rs_disconnect rs_runners rs_trace]; try done.
  all: rewrite <- ?app_assoc, monitor_app, D8, ?D2, ?D4, ?andb_true_r; reflexivity.
Qed.

Lemma disconnect_ret s e c a : Ret s → rs_defers s = stack a true e c true → rs_disconnect s = true → Ret (disconnectBroker s).
Proof.
  intros [Hd _|a' b' e' c' w' refused cb wh po D1 D2 D3 D4] Es Ed; [rewrite Es in Hd; destruct a, e, c; discriminate Hd|].
  assert (b' = true) as -> by (rewrite Es in D1; destruct a, e, c, a', b', e', c', w'; done || discriminate D1).
  unfold disconnectBroker. eapply (Ret_intro _ a' true e' c' w' refused cb wh po); cbn [rs_defers rs_clock rs_stopped rs_disconnect rs_trace]; try done.
  rewrite monitor_app, D4, Ed. reflexivity.
Qed.

Lemma shutdown_frame s : rs_defers (shutdownRunners s) = rs_defers s ∧ rs_disconnect (shutdownRunners s) = rs_disconnect s.
Proof. unfold shutdownRunners, waitRunners, decideStop, stopSigning, emits. cbn. destruct (rs_clock s && negb (rs_stopped s)); cbn; destruct (rs_runners s =? 0); done. Qed.

Lemma decide_frame s : rs_defers (decideStop s) = rs_defers s ∧ rs_disconnect (decideStop s) = rs_disconnect s.
Proof. unfold decideStop, stopSigning, emits. cbn. by destruct (rs_clock s && negb (rs_stopped s)). Qed.

Lemma awaitEnd_ret w a e c s : At a true e c true s → Ret (awaitEnd w s).2.
Proof.
  intros HA. pose proof (shutdown_ret _ _ _ _ _ HA) as H1. pose proof (group_end_ret _ _ _ _ HA) as H2. destruct (HA) as [live cb wh po D1 D2 D3 D4 D5 D6 D7 D8].
  unfold awaitEnd. destruct (w_ending w) as [|err callerDone|err]; cbn [snd].
  - destruct (shutdown_frame s) as [F1 F2]. eapply disconnect_ret; [exact H1|by rewrite F1, D1|by rewrite F2].
  - destruct (w_escalated w); cbn [snd]; [exact H2|]. destruct callerDone; cbn [snd]; [|exact H2].
    destruct (decide_frame (emits [EGroupEnd] s)) as [F1 F2]. eapply disconnect_ret; [exact H2|..]; cbn [emits rs_defers rs_disconnect]; [rewrite F1; exact D1|rewrite F2; exact D2].
  - exact H1.
Qed.

(** A body that returns without an error was asked to stop. *)
Definition endedWell (w : world) (s : rstate) : Prop :=
  (∃ cfg, w_config w = Ok cfg ∧ (ga_Enabled (gc_Auth (cf_Gateway cfg)) = true → DState ∈ rs_defers s)) ∧
  w_escalated w = None ∧ w_disconnect w = Ok tt ∧ (w_ending w = CallerDone ∨ ∃ err, w_ending w = RunnersDone err true).

Lemma awaitEnd_ok w s s' : awaitEnd w s = (Ok tt, s') →
  rs_defers s' = rs_defers s ∧ w_escalated w = None ∧ w_disconnect w = Ok tt ∧ (w_ending w = CallerDone ∨ ∃ err, w_ending w = RunnersDone err true).
Proof.
  unfold awaitEnd, stopCause. destruct (w_ending w) as [|err callerDone|err]; [| |done].
  - destruct (w_escalated w); [done|]. intros [= Hd <-]. cbn [disconnectBroker rs_defers]. destruct (shutdown_frame s) as [-> _]. auto.
  - destruct (w_escalated w); [done|]. destruct callerDone; [|by destruct err]. intros [= Hd <-]. cbn [disconnectBroker rs_defers emits]. destruct (decide_frame (emits [EGroupEnd] s)) as [-> _]. split_and!; eauto.
Qed.

Lemma body_ret w : match body w (MkRun [] [DFlush] true false false 0) with (Ok _, s) => Ret s ∧ endedWell w s | (Err _, s) => Ret s end.
Proof.
  assert (At false false false false false (MkRun [] [DFlush] true false false 0)) as H0 by (by eapply (At_intro _ _ _ _ _ _ false false false false)).
  assert (hoare (At false false false false false) (body w) (λ _ s, Ret s ∧ endedWell w s)) as H; [|exact (H _ H0)].
  unfold body. eapply (hoare_bind _ _ (λ cfg s, At false false false false false s ∧ w_config w = Ok cfg)).
  { intros s Hs. unfold lift. destruct (w_config w); [done|by eapply At_ret]. }
  intros cfg s [Hs Ec]. revert s Hs. refine (_ : hoare (At false false false false false) _ _).
  eapply (hoare_bind _ _ (λ secrets s, At false false false false false s ∧ gs_Enabled secrets = ga_Enabled (gc_Auth (cf_Gateway cfg)))).
  { intros s Hs. unfold lift. destruct (gatewayAuthSecretsFromConfig _ _) as [secrets|] eqn:E; [|by eapply At_ret]. split; [done|]. by apply secrets_enabled in E. }
  intros secrets s [Hs Es]. revert s Hs. refine (_ : hoare (At false false false false false) _ _). eapply hoare_bind; [apply hoare_lift|]. intros custodySecret.
  eapply hoare_seq; [destruct (bool_decide _); [intros s Hs; exact Hs|apply hoare_lift]|]. eapply hoare_seq; [apply hoare_openSigning|]. rewrite <- Es.
  eapply hoare_seq; [by apply hoare_openEvidence|]. intros s [Hs Ha]. revert s Hs. refine (_ : hoare _ _ _).
  eapply hoare_seq; [by apply hoare_connectBrokers|]. eapply hoare_seq; [apply hoare_openModules|]. eapply hoare_seq; [apply hoare_superviseAll|]. eapply hoare_seq; [apply hoare_serve|].
  intros s Hs. pose proof (awaitEnd_ret w _ _ _ _ Hs) as H. destruct (awaitEnd w s) as [[[]|err] s1] eqn:Ew; [|exact H]. split; [exact H|].
  destruct (awaitEnd_ok _ _ _ Ew) as (E1 & E2 & E3 & E4). split_and!; try done. exists cfg. split; [done|]. intros Hen. rewrite E1.
  destruct Hs as [? ? ? ? -> _ _ _ _ _ _ _]. rewrite Es, Hen. unfold stack. set_solver.
Qed.

(** ** The deferred functions *)
Inductive Down (a b e c : bool) (s : rstate) : Prop :=
| Down_intro refused : rs_clock s = a →
    monitor (rs_trace s) = Some (MkMon a (a && negb (rs_stopped s)) refused (b && rs_disconnect s) e c false false false false false false) → Down a b e c s.

Lemma down_stop w a b e c v r s refused cb wh po :
  rs_clock s = a → (v = false → cb = false ∧ wh = false ∧ po = false) →
  monitor (rs_trace s) = Some (MkMon a (a && negb (rs_stopped s)) refused (b && rs_disconnect s) e c false cb wh po false false) →
  ∃ s', foldl (runDeferred w) (r, s) (if v then [DStopWatch; DStop; DCancel] else []) = (r, s') ∧ Down a b e c s'.
Proof.
  intros Hc Hv Hm. destruct v.
  - eexists. split; [reflexivity|]. apply (Down_intro _ _ _ _ _ true); unfold decideStop, stopSigning, emits; cbn [rs_clock rs_stopped rs_disconnect rs_trace]; rewrite Hc;
      destruct a; cbn [andb]; try destruct (rs_stopped s) eqn:Es; cbn [negb rs_clock rs_stopped rs_disconnect rs_trace]; try done;
      rewrite <- ?app_assoc, monitor_app, Hm; cbn [andb negb]; reflexivity.
  - destruct (Hv eq_refl) as (-> & -> & ->). eexists. split; [reflexivity|]. by apply (Down_intro _ _ _ _ _ refused).
Qed.

Lemma down_client w a b e c r s : Down a b e c s → ∃ s', foldl (runDeferred w) (r, s) (if c then [DEndClient] else []) = (r, s') ∧ Down a b e false s'.
Proof.
  intros [refused Hc Hm]. destruct c; eexists; (split; [reflexivity|]); [|by apply (Down_intro _ _ _ _ _ refused)].
  apply (Down_intro _ _ _ _ _ refused); [done|]. cbn [emits rs_trace rs_stopped rs_disconnect]. by rewrite monitor_app, Hm.
Qed.

Lemma down_evidence w a b e r s : Down a b e false s → ∃ s', foldl (runDeferred w) (r, s) (if e then [DDisconnectEvidence] else []) = (r, s') ∧ Down a b false false s'.
Proof.
  intros [refused Hc Hm]. destruct e; eexists; (split; [reflexivity|]); [|by apply (Down_intro _ _ _ _ _ refused)].
  apply (Down_intro _ _ _ _ _ refused); [done|]. cbn [emits rs_trace rs_stopped rs_disconnect]. by rewrite monitor_app, Hm.
Qed.

Lemma down_broker w a b r s : Down a b false false s → ∃ s', foldl (runDeferred w) (r, s) (if b then [DDisconnect] else []) = (r, s') ∧ Down a false false false s'.
Proof.
  intros [refused Hc Hm]. destruct b; eexists; (split; [reflexivity|]); [|by apply (Down_intro _ _ _ _ _ refused)].
  apply (Down_intro _ _ _ _ _ refused).
  - by destruct (rs_disconnect s).
  - destruct (rs_disconnect s) eqn:E; [|exact Hm]. cbn [disconnectBroker rs_trace rs_stopped rs_disconnect]. by rewrite monitor_app, Hm.
Qed.

(** Nothing is left: not the hold, nor a clock that signs, a connection, a
    client, a runner, a callback, a webhook request or a posture fetch. *)
Definition settled (m : mon) : Prop := ∃ refused ovr, m = MkMon false false refused false false false false false false false ovr true.

Lemma down_state w a r s : Down a false false false s → ∃ r' s' m,
  foldl (runDeferred w) (r, s) ((if a then [DState] else []) ++ [DFlush]) = (r', s') ∧ monitor (rs_trace s') = Some m ∧ settled m ∧
  (r' = Ok tt → r = Ok tt ∧ (a = true → w_quiet w = true)).
Proof.
  intros [refused Hc Hm]. destruct a; cbn [app foldl runDeferred].
  - assert (monitor (rs_trace (emits [EQuiet (w_quiet w)] (stopSigning s))) = Some (MkMon true false refused false false false false false false false false false)) as H1.
    { unfold stopSigning. rewrite Hc. destruct (rs_stopped s) eqn:Es; cbn [negb andb emits rs_trace]; rewrite <- ?app_assoc, monitor_app, Hm; reflexivity. }
    destruct (w_quiet w); eexists _, _, _; (split; [reflexivity|]); cbn [emits rs_trace] in *; rewrite <- (app_assoc _ [_] [EFlush]), monitor_app, H1.
    + split; [reflexivity|]. split; [by eexists _, _|]. by intros ->.
    + split; [reflexivity|]. split; [by eexists _, _|]. done.
  - eexists _, _, _. split; [reflexivity|]. cbn [emits rs_trace]. rewrite monitor_app, Hm. split; [reflexivity|]. split; [by eexists _, _|]. intros ->. done.
Qed.

Lemma deferred_settle w r s : Ret s → ∃ r' s' m, foldl (runDeferred w) (r, s) (rs_defers s) = (r', s') ∧ monitor (rs_trace s') = Some m ∧ settled m ∧
  (r' = Ok tt → r = Ok tt ∧ (DState ∈ rs_defers s → w_quiet w = true)).
Proof.
  intros [Hd (m & Hm & Hf)|a b e c v refused cb wh po Hd Hc Hv Hm].
  - rewrite Hd. cbn [foldl runDeferred]. eexists _, _, _. split; [reflexivity|]. cbn [emits rs_trace]. rewrite monitor_app, Hm. split; [cbn; exact Hf|].
    split; [by eexists _, _|]. intros ->. split; [done|]. intros H. by apply list_elem_of_singleton in H.
  - rewrite Hd. unfold stack. destruct (down_stop w a b e c v r s _ _ _ _ Hc Hv Hm) as (s1 & E1 & D1). destruct (down_client w a b e c r s1 D1) as (s2 & E2 & D2).
    destruct (down_evidence w a b e r s2 D2) as (s3 & E3 & D3). destruct (down_broker w a b r s3 D3) as (s4 & E4 & D4).
    destruct (down_state w a r s4 D4) as (r' & s' & m & E5 & Hm' & Hs & Hr). rewrite foldl_app, E1, foldl_app, E2, foldl_app, E3, foldl_app, E4, E5.
    eexists _, _, _. split; [reflexivity|]. split; [exact Hm'|]. split; [exact Hs|]. intros H. destruct (Hr H) as [-> Hq]. split; [done|].
    intros Hin. apply Hq. destruct a; [done|]. exfalso. destruct v, c, e, b; cbn in Hin; set_solver.
Qed.

Lemma run_settles w : ∃ m, monitor (runGateway w).2 = Some m ∧ settled m ∧
  ((runGateway w).1 = Ok tt → ∃ s, endedWell w s ∧ (DState ∈ rs_defers s → w_quiet w = true)).
Proof.
  unfold runGateway. pose proof (body_ret w) as HR. destruct (body w _) as [r s]. assert (Ret s) as Hr by (destruct r; tauto).
  destruct (deferred_settle w r s Hr) as (r' & s' & m & E & Hm & Hs & Hok). rewrite E. exists m. split; [done|]. split; [done|]. cbn [fst]. intros H.
  destruct (Hok H) as [-> Hq]. exists s. split; [by destruct HR|done].
Qed.

End RunSpec.
